(* ===== verification/_CoqProject ===== *)
-Q . S2P
Prelude.v
Bounded.v
Sliding.v
Order.v
Str.v
Text.v
Scan.v
Float.v
Schema.v
Net.v
Verdict.v
Fs.v
Utf8.v
Bytes.v
Updater.v
Probation.v
Supervise.v
Release.v
Content.v
Spool.v
Upload.v
Outputs.v
Frame.v
Heartbeat.v
PathFilter.v
Netlink.v
NetlinkTheorems.v
LinuxWire.v
LinuxSensor.v
LinuxSensorTheorems.v
Logs.v
LogTheorems.v
LogTail.v
LogTailTheorems.v
EventLog.v
EventLogTheorems.v
LinuxAudit.v
LinuxAuditTheorems.v
Response.v
QuarantineBits.v
Policy.v
Journal.v
JournalTheorems.v
LdTrust.v
Stateless.v
Amsi.v
Sigma.v
RuleState.v
RuleEngine.v
RuleSafety.v
RuleTheorems.v
Correlator.v
CorrelatorRules.v
CorrelatorEngine.v
CorrelatorTheorems.v
Proto.v
Forest.v
ForestSafety.v
Ml.v
Sink.v
SinkTheorems.v
YaraMemory.v
YaraMemoryTheorems.v
SelfProtect.v
SelfProtectTheorems.v
