(* ===== verification/Prelude.v ===== *)
(** * A verification of the endpoint agent

    ** The program

    The repository is an endpoint detection and response agent in Rust.  Sensors
    (eBPF, netlink, audit, journal, ETW, Endpoint Security, ...) produce events of
    one schema ([crates/schema]).  The agent hands every event to the engines that
    judge it: the single-event and stateful rules ([crates/rules]), the correlator
    with its Bayesian beliefs ([crates/correlator]), the Sigma rules
    ([crates/sigma]), YARA, and a random forest ([crates/ml]).  The detection sink
    ([agent/src/sink.rs]) composes them.  Their detections are fused per process lineage
    ([crates/verdict]); a fused verdict or a strong belief may trigger a response,
    a kill or a quarantine ([crates/response]), under a signed policy
    ([crates/policy]).  Events are spooled to disk ([crates/store]) and uploaded
    ([crates/transport], [agent/src/upload.rs]); a local console talks to the agent
    over framed JSON ([crates/ipc]).  Releases are signed, staged and promoted
    ([crates/updater], [agent/src/release.rs]), and a watchdog puts a promoted
    release on probation and rolls it back ([watchdog]).

    ** Files

    Foundations, with what they stand for in the source:
    - [Prelude]: machine integers, the shared list and option lemmas, the tactics
      and hint databases.
    - [Order], [Str], [Text], [Utf8], [Float]: what the code uses of the Rust
      standard library: derived [Ord] and [sort], byte-level and character-level
      [str] operations, UTF-8 validity, IEEE-754 floats.
    - [Bytes]: slices, indices and fixed-width fields of byte buffers, in a monad
      whose outcomes are a value, a panic, or a loop out of fuel.
    - [Scan], [Net]: cutting and searching at bytes, trimming, words of ASCII text;
      the standard library's parser of IP addresses.
    - [Fs]: a file system with a script of I/O failures, and the I/O monad.  A
      theorem quantified over the script holds for every pattern of disk errors.

    Components (each file names its sources and the correspondence):
    - [Bounded]: the LRU-bounded map under every per-entity state
      (store/bounded.rs), refined to an abstract recency list.
    - [Sliding]: sliding counters, sums and distinct sets (rules/sliding.rs).
    - [Schema]: the event types and their helpers (schema/lib.rs, detection.rs).
    - [Verdict]: the fusion engine (verdict/lib.rs).
    - [Stateless], [Amsi], [LdTrust]: the single-event rules, the rules on script
      content and the dynamic linker's trust set (rules/stateless.rs,
      exclusions.rs, amsi.rs, ld_trust.rs).
    - [RuleState], [RuleEngine], [RuleSafety], [RuleTheorems]: the stateful rules
      (rules/state.rs): the record of bounded maps with one lens per field, one
      definition per rule and per handler in a state monad whose [None] is a panic,
      the invariant that every handler preserves, and the theorems.
    - [Correlator], [CorrelatorRules], [CorrelatorEngine], [CorrelatorTheorems]: the
      event bus, the behaviour vector and belief arithmetic, the co-occurrence rules,
      the engine, and the contract of its handler (correlator/*.rs).
    - [Response], [QuarantineBits], [Policy]: the automated responses, quarantine once
      more over files with a read-only bit (a layer that erases to [Response]'s), and
      the signed policy (response/*.rs, policy/*.rs).
    - [Sigma]: the Sigma subset: parsing of field specifications, validation,
      evaluation, loading of a rule tree (sigma/*.rs).
    - [Proto], [Forest], [ForestSafety], [Ml]: the protobuf reader, the tree ensemble
      read out of an ONNX file and its attributions, the feature extractors and the
      scorers (ml/*.rs).
    - [Outputs]: the alert log, the JSON-lines writer, the work queues, the enricher
      and its cache (agent/alerts.rs, agent/enrich_queue.rs, sinks/lib.rs,
      enrich/lib.rs, yara/queue.rs).
    - [Sink], [SinkTheorems]: the detection sink that composes the engines, the
      verdict, the log and the responses (agent/sink.rs).
    - [Spool], [Upload]: the durable queue and its delivery (store/spool.rs,
      transport/upload.rs, error.rs, agent/upload.rs).
    - [Frame]: the framing of the local channel (ipc/frame.rs).
    - [Updater], [Release], [Probation]: signed releases, self-update and the
      watchdog's health gate (updater/*.rs, agent/release.rs,
      watchdog/probation.rs).
    - [Content]: the update of detection content (agent/content.rs).
    - [Supervise]: the watchdog's supervision of the agent and its tamper report
      (watchdog/supervise.rs, tamper.rs).
    - [Heartbeat]: sensor silence detection (tamper/heartbeat.rs).
    - [PathFilter]: the in-kernel path filter (sensors/linux/wire/path_filter.rs).
    - [Netlink], [NetlinkTheorems]: the conntrack, socket-dump and process-event
      codecs, their readers and the join with /proc (sensors/linux/netlink).
    - [LinuxWire], [LinuxSensor], [LinuxSensorTheorems]: the records the kernel
      programs write, their mapping to events, the /proc, cgroup, Docker and tracefs
      parsers, and the loop that drains the ring buffers
      (sensors/linux/wire, userspace, uprobes/normalize.rs and redact.rs).
    - [Logs], [LogTheorems], [LogTail], [LogTailTheorems]: the access-log and MySQL
      error-log parsers, the request signatures, the window summary, and the tailer
      that follows a file through rotations and restarts (sensors/linux/logs).
    - [LinuxAudit], [LinuxAuditTheorems]: the audit sensor of hosts without eBPF: its
      record parser, classifier and drain loop (sensors/linux/audit).
    - [Journal], [JournalTheorems]: the journald tail, its classifier and cursor file
      and the agent's thread around them (sensors/linux/journal,
      agent/journal_cursor.rs, agent/commands/linux.rs).
    - [EventLog], [EventLogTheorems]: the Windows event-log sensor: the extraction
      of fields, the normalisers of its seven targets and the poll thread
      (sensors/windows/eventlog).
    - [YaraMemory], [YaraMemoryTheorems]: the scan of process memory and the gate in
      front of it (yara/memory.rs).
    - [SelfProtect], [SelfProtectTheorems]: the agent's check of its own files, the
      guard on writes to them and the record of a termination signal
      (tamper/integrity.rs, agent/integrity.rs, protected.rs, kill_loudness.rs).

    ** How the components meet

    [BoundedMap] is used through its lemmas ([bm_ok] and the lookup laws) by
    [Verdict], the rules and the correlator.  [EventDrain] with [EventDrainSpec]
    ([Upload]) is the trait of the uploader and its contract: the uploader's
    theorems are proved against the class, and [SpoolDrain] discharges it with the
    theorems of [Spool].  [SerdeLine] ([Spool]) is what a JSON codec promises: one
    line of valid text that parses back; [Frame] uses the same class.  [TotalCmp]
    ([Order]) is [Ord]; [ValOk] and [FieldOk] ([RuleSafety]) say when the value and
    the field of a rule map are well-formed.  [Updater]'s layout is what [Release]
    promotes and [Probation] rolls back.

    ** What the theorems show

    - Updates: a promotion implies a verified signature, a newer, unbanned version
      and matching hashes; a failed release is rolled back and banned, a proven one
      is settled; signatures cover the whole manifest.
    - Delivery: the spool hands out records in order, across restarts and disk
      failures; a segment is acknowledged only after the server took all of it;
      every segment is delivered or, after its retry budget, skipped.
    - State: the bounded map refines an LRU list and hash order is unobservable;
      the sliding counters equal their reference counts; the correlator's bus is
      exactly the window; every map of the rules keeps its bound and no event
      sequence panics.
    - Detection: a verdict is a function of its entity's history and isolated from
      other entities; suppression and recycled parents; the brute-force, memfd and
      create/unlink rules are exact or independent of the order of their events;
      the download-cradle rule finds exactly what it describes; a correlation rule
      reports once per window.
    - Response and policy: the kill is guarded, quarantine keeps and restores the
      payload (content for content, read-only afterwards), the policy signature and
      overrides are exact.
    - The sink: an event is handled without a panic and every finding reaches the
      log; only a crossing of the belief of the event's own entity kills; the matches
      of a scan are fused in order and only the matched file is quarantined; the queues count what they drop, a crash costs one line of the
      log, the enrichment cache is transparent.
    - Sigma and the model: an accepted Sigma rule means what the subset's
      documentation says and a directory loads exactly its valid rules; no model file
      makes the reader panic or loop, every readable forest explains every input, a
      score is reported only inside the model's bounds, and scoring panics exactly on
      a model without the output it reads.
    - Content and supervision: content is installed only when its signature, hashes
      and version hold, inside the content directory, and is never older than what
      was seen; the watchdog restarts a dead agent, kills a hung one exactly when
      its heartbeat is stale, and stops what it started; an interrupted update can
      mask a revert.
    - Linux sensors: no netlink message makes a reader panic, except a dump whose
      last record is cut before its padding; the kernel's layouts are read back
      exactly; a snapshot is the sockets of the dump joined with their holders; the
      ring buffers are delivered completely and in order, never the agent's own
      activity, with a bounded cache of cgroup ids; a TLS capture cut inside a character escapes
      redaction.
    - Service logs: no text of a client moves the fields of its log line, in the
      escaping of Apache or of nginx; a request's
      event is reduced to bounded names and one piece of evidence; a summary is
      exact; a followed log is delivered each line once and in order (one rotation
      between polls).
    - Audit and journal: an argument vector the kernel writes as one record survives
      its encoding unchanged, a split argument hides the exec; the journal tail killed anywhere has
      delivered a prefix and resumes from a whole cursor at most one record ahead;
      the source address of a refused login can be forged.
    - Windows event log: whatever polls fail, each record is delivered once and in
      order and no history is replayed; a registered task is reported with its
      actions as the XML carries them.
    - Memory scans: seven admissions span a minute, a process is scanned at most
      every five minutes whatever the bounded table evicts; a scan stays within its
      budget, accounts for every region, and reports every finding the budget covers.
    - Self-protection: a pass of the self-check without alerts means a valid signature
      and intact files, except that a missing manifest silences it.
    - Errors: what the code does on a poison segment, a split character, a
      duplicate quarantine, a relative preload path.

    ** Integers, bounds and fuel

    Integers are [Z] in the range of their Rust type; wrapping, saturating and
    checked operations are written out, and a panic ([None] or a panic value) is
    part of the result.  The ticks of a bounded map are [u64]: theorems that follow
    a run of the program ask for the ticks the run takes to be left below 2^64.
    Recursion is structural wherever the code's is.  The wildcard loop of [LdTrust]
    runs on the fuel [wildcard_fuel], which [wildcard_terminates] shows sufficient
    for every input; the include walk recurses on the room left below
    [MAX_INCLUDE_DEPTH], which is the code's own bound.  Polls, retries and upload
    rounds are explicit lists of steps, of any length.  The readers of [Proto] and
    [Forest] run on the number of bytes left, the walk of a tree and the descent of
    an attribution on the number of its nodes, the loading of a rule tree on its
    size; running out is a value of its own ([Spins]) that the theorems exclude.
    The netlink walks run on the length of their buffer (an attribute and a frame
    take four bytes or more), the chunked decoder of the Docker answer on the length
    of the body, the cgroup walk on the room below [MAX_WALK_DEPTH], the resolution
    of a content path on its components, a chain of symbolic links on the kernel's
    limit of forty; [Spun] is excluded in the same way.  The
    rounds of the watchdog and the turns of the sensor are lists of any length.
    A drain of a log runs on the number of system calls that succeed, of any size;
    a poll takes two rounds, because it reopens the file under the name it has.
    The loops over event blocks, task actions, audit fields and journal lines run on
    the length of their input, each round taking some of it.

    ** Arguments

    Code outside the repository is an argument of the definitions that use it:
    SHA-256, Ed25519, the JSON codec, Unicode tables ([lower], [uni_alnum]), the
    platform's [exp], [log2] and [ln], onnxruntime (a session's named
    outputs), the YAML reader, the clock, the display of addresses and numbers, the
    server's answers, the kernel's ([read_proc_comm], the kill system call, the
    netlink replies, the contents of /proc and of the cgroup tree), path
    canonicalisation, the regular-expression engine, the Docker daemon's answers, the
    output of wevtutil and journalctl, a process's memory.  What the code
    relies on of them is a named class or hypothesis, and every theorem that has one
    has a witness at a concrete instance.

    ** Not modelled

    - The eBPF programs, the Windows driver and ETW sessions, the macOS Endpoint
      Security and Network Extension bindings, sockets, threads and service
      management: calls into a kernel or an operating system whose code is not
      here.  Their pure parts (parsers, classifiers, normalisers) are modelled for the
      Linux sensors and the Windows event log.
    - YARA matching and onnxruntime (third-party engines), code-signature checks of
      the operating system.
    - Concurrency inside the sink: a handler is one step, its locks serialise the
      calls on each engine; the order of alert lines of two threads is not.
    - The asynchronous shells around modelled functions (the uploader's timer loop,
      the console's socket loop), the command-line tools and configuration.
    - The server and the user interface (TypeScript), the training code (Python).

    ** What is left

    The helpers of the ETW and macOS sensors, the ELF symbol resolution and container
    discovery of the uprobes, the push transport of the event log, the loading of
    the configuration and the services of the watchdog could be modelled the same
    way; the properties here do not depend on them. *)
From stdpp Require Import base gmap strings list sorting.
From Stdlib Require Import ZArith Lia.
#[global] Open Scope Z_scope.

(** ** Machine integers *)

Declare Scope edr_scope.
Delimit Scope edr_scope with edr.

Definition U64_MAX : Z := 18446744073709551615.
Definition U32_MAX : Z := 4294967295.

(** Wrap-around at 64 bits: what an unchecked [+=] on a [u64] computes in a
    release build. *)
Definition wrap64 (z : Z) : Z := z mod 18446744073709551616.

Definition wrap32 (z : Z) : Z := z mod 4294967296.

(** [u64::saturating_sub], [u64::saturating_add], [u64::saturating_mul]. *)
Definition sat_sub (a b : Z) : Z := Z.max 0 (a - b).
Definition sat_add (a b : Z) : Z := Z.min U64_MAX (a + b).
Definition sat_mul (a b : Z) : Z := Z.min U64_MAX (a * b).

(** [u64::abs_diff]. *)
Definition abs_diff (a b : Z) : Z := Z.abs (a - b).

Notation "a -sat b" := (sat_sub a b) (at level 50, left associativity) : edr_scope.
#[global] Open Scope edr_scope.

Lemma wrap64_small z : 0 <= z <= U64_MAX -> wrap64 z = z.
Proof. unfold wrap64, U64_MAX. intros. apply Z.mod_small. lia. Qed.

Lemma wrap32_small z : 0 <= z <= U32_MAX -> wrap32 z = z.
Proof. unfold wrap32, U32_MAX. intros. apply Z.mod_small. lia. Qed.

Lemma wrap64_bound z : 0 <= wrap64 z <= U64_MAX.
Proof. unfold wrap64, U64_MAX. pose proof (Z.mod_pos_bound z 18446744073709551616). lia. Qed.

Lemma sat_sub_spec a b : (b <= a -> a -sat b = a - b) /\ (a <= b -> a -sat b = 0).
Proof. unfold sat_sub. lia. Qed.

Lemma sat_sub_nonneg a b : 0 <= a -sat b.
Proof. unfold sat_sub. lia. Qed.

(** The test [now.saturating_sub(t) <= window] that every sliding structure of
    the program uses, as an inequality without truncation. *)
Lemma sat_sub_le a b w : 0 <= w -> a -sat b <= w <-> a <= b + w.
Proof. unfold sat_sub. lia. Qed.

(** A property of small integers, by evaluation. *)
Lemma forallb_seqZ (f : Z -> bool) n z : forallb f (seqZ 0 n) = true -> 0 <= z < n -> f z = true.
Proof.
  intros Hf Hz. rewrite forallb_forall in Hf. apply Hf, list_elem_of_In, elem_of_seqZ. lia.
Qed.

Lemma omap_length_le {A B : Type} (f : A -> option B) (l : list A) : (length (omap f l) <= length l)%nat.
Proof.
  induction l as [|a l IH]; [done|]. change (omap f (a :: l)) with (match f a with Some b => b :: omap f l | None => omap f l end).
  destruct (f a); cbn [length]; lia.
Qed.

Create HintDb edr.
#[export] Hint Resolve wrap64_bound sat_sub_nonneg : edr.

(** ** Tactics *)

(** Case analysis on a boolean integer test of the goal or of a hypothesis,
    leaving the integer (in)equality. *)
Ltac case_bool :=
  match goal with
  | |- context [Z.leb ?a ?b] => destruct (Z.leb_spec a b)
  | |- context [Z.ltb ?a ?b] => destruct (Z.ltb_spec a b)
  | |- context [Z.eqb ?a ?b] => destruct (Z.eqb_spec a b)
  | H : context [Z.leb ?a ?b] |- _ => destruct (Z.leb_spec a b)
  | H : context [Z.ltb ?a ?b] |- _ => destruct (Z.ltb_spec a b)
  | H : context [Z.eqb ?a ?b] |- _ => destruct (Z.eqb_spec a b)
  end.

(** ** Lists *)

Section Lists.
Context {A : Type}.

(** Deleting a list of keys from a finite map, one at a time. *)
Definition delete_all `{Countable K} (ks : list K) (m : gmap K A) : gmap K A :=
  foldl (fun m k => delete k m) m ks.

Lemma delete_all_lookup `{Countable K} (ks : list K) (m : gmap K A) k :
  delete_all ks m !! k = if decide (k ∈ ks) then None else m !! k.
Proof.
  revert m. induction ks as [|k' ks IH]; intros m.
  - rewrite decide_False by set_solver. done.
  - change (delete_all (k' :: ks) m) with (delete_all ks (delete k' m)).
    rewrite IH. destruct (decide (k = k')) as [->|].
    + rewrite (decide_True (P := k' ∈ k' :: ks)) by set_solver.
      case_decide; [done|]. apply lookup_delete_eq.
    + rewrite lookup_delete_ne by done. repeat case_decide; set_solver.
Qed.

Lemma delete_all_size `{Countable K} (ks : list K) (m : gmap K A) :
  NoDup ks -> (forall k, k ∈ ks -> is_Some (m !! k)) ->
  (size (delete_all ks m) + length ks = size m)%nat.
Proof.
  revert m. induction ks as [|k ks IH]; intros m Hnd Hin; [simpl; lia|].
  apply NoDup_cons in Hnd as [Hk Hnd].
  change (delete_all (k :: ks) m) with (delete_all ks (delete k m)).
  destruct (Hin k) as [x Hx]; [set_solver|].
  assert (size m = S (size (delete k m))) as ->.
  { rewrite <- (insert_delete_id m k x Hx) at 1.
    apply map_size_insert_None, lookup_delete_eq. }
  simpl. rewrite <- (IH (delete k m)); [lia|done|].
  intros k' Hk'. rewrite lookup_delete_ne; [|set_solver]. apply Hin. set_solver.
Qed.

(** A sorted list splits at any position into a part below and a part above. *)
Lemma sorted_take_drop (R : relation A) (l : list A) n x y :
  StronglySorted R l -> x ∈ take n l -> y ∈ drop n l -> R x y.
Proof.
  intros Hs Hx Hy. rewrite <- (take_drop n l) in Hs.
  revert Hs Hx. induction (take n l) as [|a t IH]; intros Hs Hx; [set_solver|].
  simpl in Hs. apply StronglySorted_inv in Hs as [Hs Ha].
  apply elem_of_cons in Hx as [->|Hx]; [|by apply IH].
  rewrite Forall_forall in Ha. apply Ha. set_solver.
Qed.

Lemma StronglySorted_sublist (R : relation A) (l k : list A) :
  l `sublist_of` k -> StronglySorted R k -> StronglySorted R l.
Proof.
  induction 1 as [|x l k Hlk IH|x l k Hlk IH]; intros Hs; [done| |].
  - apply StronglySorted_inv in Hs as [Hs Hx]. constructor; [by apply IH|].
    rewrite Forall_forall in *. intros y Hy. apply Hx. by eapply elem_of_sublist.
  - apply StronglySorted_inv in Hs as [Hs _]. by apply IH.
Qed.

Lemma filter_all (P : A -> Prop) `{forall x, Decision (P x)} (l : list A) :
  (forall x, x ∈ l -> P x) -> filter P l = l.
Proof.
  induction l as [|x l IH]; intros Hl; [done|].
  rewrite filter_cons_True by set_solver. f_equal. apply IH. set_solver.
Qed.

Lemma filter_elem_iff (P Q : A -> Prop) `{forall x, Decision (P x)} `{forall x, Decision (Q x)} (l : list A) :
  (forall x, x ∈ l -> P x <-> Q x) -> filter P l = filter Q l.
Proof.
  induction l as [|x l IH]; intros Hl; [done|]. rewrite !filter_cons, IH by set_solver.
  pose proof (Hl x ltac:(set_solver)) as Hx. repeat case_decide; tauto.
Qed.

Lemma elem_of_bool_filter (f : A -> bool) (l : list A) x : x ∈ List.filter f l <-> x ∈ l /\ f x = true.
Proof. rewrite !list_elem_of_In. apply filter_In. Qed.

(** [while deque.front().is_some_and(p) { deque.pop_front(); }] *)
Fixpoint pop_while (p : A -> bool) (l : list A) : list A :=
  match l with
  | [] => []
  | x :: l' => if p x then pop_while p l' else l
  end.

Lemma pop_while_split p l :
  exists pre, l = pre ++ pop_while p l /\ Forall (fun x => p x = true) pre /\
    (forall x, head (pop_while p l) = Some x -> p x = false).
Proof.
  induction l as [|x l (pre & IH1 & IH2 & IH3)]; simpl; [by exists []|].
  destruct (p x) eqn:E.
  - exists (x :: pre). split_and!; [simpl; congruence|by constructor|done].
  - exists []. split_and!; [done|constructor|]. simpl. naive_solver.
Qed.

(** On a list where expiry can only stop, popping the expired front leaves
    exactly the live elements. *)
Lemma pop_while_filter p l :
  StronglySorted (fun x y => p y = true -> p x = true) l ->
  pop_while p l = filter (fun x => p x = false) l.
Proof.
  induction 1 as [|x l Hs IH Hx]; simpl; [done|]. destruct (p x) eqn:E.
  - rewrite filter_cons_False by congruence. done.
  - rewrite filter_cons_True by done. f_equal. symmetry. apply filter_all.
    intros y Hy. rewrite Forall_forall in Hx. destruct (p y) eqn:Ey; [|done].
    pose proof (Hx y Hy Ey). congruence.
Qed.

Lemma filter_none (P : A -> Prop) `{forall x, Decision (P x)} (l : list A) :
  (forall x, x ∈ l -> ~ P x) -> filter P l = [].
Proof.
  intros Hl. destruct (filter P l) as [|x r] eqn:E; [done|].
  assert (x ∈ filter P l) as Hx by (rewrite E; set_solver).
  apply list_elem_of_filter in Hx as [Hp Hx]. by destruct (Hl x).
Qed.

Lemma destruct_last (l : list A) : l = [] \/ exists l' x, l = l' ++ [x].
Proof. destruct l as [|x l _] using rev_ind; [by left|right; eauto]. Qed.

Lemma StronglySorted_impl (R S : relation A) (l : list A) :
  StronglySorted R l -> (forall x y, R x y -> S x y) -> StronglySorted S l.
Proof.
  induction 1 as [|x l Hs IH Hx]; intros Himp; constructor; [by apply IH|].
  eapply Forall_impl; [exact Hx|]. auto.
Qed.

Lemma StronglySorted_elem_neq (R : relation A) (l : list A) x y :
  StronglySorted R l -> x ∈ l -> y ∈ l -> x <> y -> R x y \/ R y x.
Proof.
  induction 1 as [|a l Hs IH Ha]; [set_solver|]. rewrite Forall_forall in Ha.
  rewrite !elem_of_cons. intros [->|Hx] [->|Hy] Hne; [done|left; by apply Ha|right; by apply Ha|].
  by apply IH.
Qed.

Lemma omap_elem_ext {B} (f g : A -> option B) (l : list A) :
  (forall x, x ∈ l -> f x = g x) -> omap f l = omap g l.
Proof.
  induction l as [|x l IH]; intros Hl; [done|]. cbn. rewrite IH, (Hl x) by set_solver. done.
Qed.

Lemma NoDup_omap_inj {B} (f : A -> option B) (l : list A) :
  (forall x y z, x ∈ l -> y ∈ l -> f x = Some z -> f y = Some z -> x = y) ->
  NoDup l -> NoDup (omap f l).
Proof.
  intros Hinj. induction 1 as [|x l Hx Hl IH]; [apply NoDup_nil_2|]. simpl.
  assert (NoDup (omap f l)) as Hn.
  { apply IH. intros y y' z Hy Hy'. apply Hinj; set_solver. }
  destruct (f x) as [z|] eqn:E; [|done]. apply NoDup_cons. split; [|done].
  intros Hin. apply list_elem_of_omap in Hin as (y & Hy & Ey).
  apply Hx. by rewrite (Hinj x y z) by set_solver.
Qed.
End Lists.
