(* ===== verification/Bounded.v ===== *)
(** * Bounded: the LRU-bounded map of [crates/store/src/bounded.rs]

    [BoundedMap<K, V>] is a hash map whose entries carry the tick of their last
    use.  Every use takes a fresh tick; an insertion that exceeds the capacity
    evicts a batch of the entries with the smallest ticks.  The model keeps the
    four fields of the struct.  The hash map is a [gmap]; what the source reads
    off the map's unspecified iteration order is a parameter of
    [evict_in_order], and [evict_order_irrelevant] shows the order is not
    observable.  *)
From stdpp Require Import base gmap list sorting.
From Stdlib Require Import ZArith Lia.
From S2P Require Import Prelude.

Record BoundedMap (K V : Type) `{Countable K} := mkBounded {
  entries : gmap K (V * Z);
  cap : Z;
  tick : Z;
  evicted : Z;
}.
Arguments mkBounded {K V _ _} _ _ _ _.
Arguments entries {K V _ _} _.
Arguments cap {K V _ _} _.
Arguments tick {K V _ _} _.
Arguments evicted {K V _ _} _.

Section BoundedMap.
Context {K V : Type} `{Countable K}.
Implicit Types (b : BoundedMap K V) (k : K) (v : V).

(** [BoundedMap::new]; [None] is the assertion failure on a zero capacity. *)
Definition bm_new (c : Z) : option (BoundedMap K V) :=
  if 1 <=? c then Some (mkBounded ∅ c 0 0) else None.

Definition next_tick b : Z * BoundedMap K V :=
  let t := wrap64 (tick b + 1) in
  (t, mkBounded (entries b) (cap b) t (evicted b)).

Definition bm_len b : Z := Z.of_nat (size (entries b)).
Definition bm_is_empty b : bool := bm_len b =? 0.
Definition bm_evicted b : Z := evicted b.

(** [batch.max(1)] of [evict_batch]. *)
Definition evict_count b : Z :=
  let excess := bm_len b -sat cap b in
  Z.max (excess + Z.max (cap b / 8) 1 - 1) 1.

(** The vector [order] before it is sorted, in one iteration order. *)
Definition tick_list b : list (Z * K) :=
  (fun kv => (kv.2.2, kv.1)) <$> map_to_list (entries b).

Definition tick_le : relation (Z * K) := fun a c => a.1 <= c.1.
#[global] Instance tick_le_dec : RelDecision tick_le.
Proof. intros a c. unfold tick_le. apply _. Defined.

#[global] Instance tick_le_total : Total tick_le.
Proof. intros a c. unfold tick_le. lia. Qed.
#[global] Instance tick_le_trans : Transitive tick_le.
Proof. intros a c d. unfold tick_le. lia. Qed.

(** The removal loop of [evict_batch], given the sorted vector. *)
Definition evict_in_order (order : list (Z * K)) b : BoundedMap K V :=
  let ks := (take (Z.to_nat (evict_count b)) order).*2 in
  mkBounded (delete_all ks (entries b)) (cap b) (tick b)
    (wrap64 (evicted b + Z.of_nat (length ks))).

Definition evict_batch b : BoundedMap K V :=
  evict_in_order (merge_sort tick_le (tick_list b)) b.

Definition evict_if_full b : BoundedMap K V :=
  if cap b <? bm_len b then evict_batch b else b.

Definition bm_insert k v b : BoundedMap K V :=
  let '(t, b) := next_tick b in
  evict_if_full (mkBounded (<[k := (v, t)]> (entries b)) (cap b) (tick b) (evicted b)).

(** [get] and [get_mut]: the tick advances even on a miss.  [get_mut] hands
    out a mutable reference; [f] is what the caller writes through it. *)
Definition bm_get k b : option V * BoundedMap K V :=
  let '(t, b) := next_tick b in
  match entries b !! k with
  | None => (None, b)
  | Some (v, _) =>
      (Some v, mkBounded (<[k := (v, t)]> (entries b)) (cap b) (tick b) (evicted b))
  end.

Definition bm_get_mut k (f : V -> V) b : option V * BoundedMap K V :=
  let '(t, b) := next_tick b in
  match entries b !! k with
  | None => (None, b)
  | Some (v, _) =>
      (Some v, mkBounded (<[k := (f v, t)]> (entries b)) (cap b) (tick b) (evicted b))
  end.

Definition bm_peek k b : option V := fst <$> entries b !! k.

Definition bm_remove k b : option V * BoundedMap K V :=
  (fst <$> entries b !! k,
   mkBounded (delete k (entries b)) (cap b) (tick b) (evicted b)).

(** [get_or_insert_with]: [None] is the failing [expect]; the reference it
    returns is used by the caller as [f]. *)
Definition bm_get_or_insert_with k (d : V) (f : V -> V) b
    : option (V * BoundedMap K V) :=
  let '(t, b) := next_tick b in
  let b := match entries b !! k with
           | Some _ => b
           | None =>
               evict_if_full
                 (mkBounded (<[k := (d, t)]> (entries b)) (cap b) (tick b) (evicted b))
           end in
  match entries b !! k with
  | None => None
  | Some (v, _) =>
      Some (v, mkBounded (<[k := (f v, t)]> (entries b)) (cap b) (tick b) (evicted b))
  end.

Definition bm_extend (kvs : list (K * V)) b : BoundedMap K V :=
  foldl (fun b kv => bm_insert kv.1 kv.2 b) b kvs.

Definition bm_iter b : list (K * V) :=
  (fun kv => (kv.1, kv.2.1)) <$> map_to_list (entries b).

(** ** The abstract LRU list

    A map is represented by the list of its entries from the least to the
    most recently used.  [lru l b] says that [l] is that list: it holds
    exactly the entries, one per key, in strictly increasing tick order, and
    every tick has been issued. *)

Definition entry_lt : relation (K * (V * Z)) := fun a c => a.2.2 < c.2.2.

Record lru (l : list (K * (V * Z))) b : Prop := {
  lru_elem : forall k x, (k, x) ∈ l <-> entries b !! k = Some x;
  lru_nodup : NoDup l.*1;
  lru_sorted : StronglySorted entry_lt l;
  lru_ticks : forall e, e ∈ l -> 0 < e.2.2 <= tick b;
  lru_tick : 0 <= tick b <= U64_MAX;
  lru_cap : 1 <= cap b;
}.

(** What a client sees of the list: keys and values, oldest first. *)
Definition view (l : list (K * (V * Z))) : list (K * V) := (fun e => (e.1, e.2.1)) <$> l.

(** [b] holds the visible list [L], within its capacity. *)
Definition bm_abs b (L : list (K * V)) : Prop :=
  exists l, lru l b /\ L = view l /\ Z.of_nat (length L) <= cap b.

(** The reference operations on the visible list. *)
Definition lru_touch k v (L : list (K * V)) : list (K * V) :=
  filter (fun e => e.1 <> k) L ++ [(k, v)].

Definition lru_evict (c : Z) (L : list (K * V)) : list (K * V) :=
  if c <? Z.of_nat (length L) then drop (Z.to_nat (Z.max (c / 8) 1)) L else L.

Definition lru_find k (L : list (K * V)) : option V :=
  snd <$> head (filter (fun e => e.1 = k) L).

Definition lru_insert (c : Z) k v (L : list (K * V)) : list (K * V) :=
  lru_evict c (lru_touch k v L).

Definition lru_update k (f : V -> V) (L : list (K * V)) : list (K * V) :=
  match lru_find k L with None => L | Some v => lru_touch k (f v) L end.

Definition lru_remove k (L : list (K * V)) : list (K * V) :=
  filter (fun e => e.1 <> k) L.

Definition lru_get_or_insert (c : Z) k d (f : V -> V) (L : list (K * V)) : list (K * V) :=
  match lru_find k L with
  | Some v => lru_touch k (f v) L
  | None => lru_touch k (f d) (lru_insert c k d L)
  end.

(** ** Representation lemmas *)

Lemma lru_len l b : lru l b -> bm_len b = Z.of_nat (length l).
Proof.
  intros Hl. unfold bm_len. rewrite <- length_map_to_list. f_equal. symmetry.
  apply Permutation_length, NoDup_Permutation.
  - eapply NoDup_fmap_1, lru_nodup, Hl.
  - apply NoDup_map_to_list.
  - intros [k x]. rewrite (lru_elem _ _ Hl). by rewrite elem_of_map_to_list.
Qed.

Lemma view_length l : length (view l) = length l.
Proof. apply length_fmap. Qed.

Lemma view_filter_ne k l :
  view (filter (fun e => e.1 <> k) l) = filter (fun e => e.1 <> k) (view l).
Proof.
  unfold view. induction l as [|[k' [v t]] l IH]; [done|]. simpl.
  rewrite !filter_cons. simpl. case_decide; simpl; [f_equal|]; apply IH.
Qed.

Lemma lru_touch_view k v t l :
  view (filter (fun e => e.1 <> k) l ++ [(k, (v, t))]) = lru_touch k v (view l).
Proof. unfold lru_touch. rewrite <- view_filter_ne. unfold view. by rewrite fmap_app. Qed.

Lemma elem_of_view k v l : (k, v) ∈ view l <-> exists t, (k, (v, t)) ∈ l.
Proof.
  unfold view. rewrite list_elem_of_fmap. split.
  - intros ([k' [v' t]] & Heq & Hin). simplify_eq/=. eauto.
  - intros [t Ht]. by exists (k, (v, t)).
Qed.

Lemma lru_find_spec l b k : lru l b -> lru_find k (view l) = bm_peek k b.
Proof.
  intros Hl. unfold lru_find, bm_peek.
  destruct (entries b !! k) as [[v t]|] eqn:E.
  - apply (lru_elem _ _ Hl) in E as Hin. simpl.
    destruct (head (filter (fun e => e.1 = k) (view l))) as [[k' v']|] eqn:Eh.
    + apply head_Some_elem_of, list_elem_of_filter in Eh as [Hk Hin']. simpl in Hk. subst k'.
      apply elem_of_view in Hin' as [t' Ht']. apply (lru_elem _ _ Hl) in Ht'.
      simpl. congruence.
    + apply head_None in Eh. assert ((k, v) ∈ filter (fun e => e.1 = k) (view l)) as Hc.
      { apply list_elem_of_filter. split; [done|]. apply elem_of_view. eauto. }
      rewrite Eh in Hc. set_solver.
  - simpl. destruct (filter (fun e => e.1 = k) (view l)) as [|[k' v'] r] eqn:Ef; [done|].
    assert ((k', v') ∈ filter (fun e => e.1 = k) (view l)) as Hc by (rewrite Ef; set_solver).
    apply list_elem_of_filter in Hc as [Hk Hin]. simpl in Hk. subst k'.
    apply elem_of_view in Hin as [t Ht]. apply (lru_elem _ _ Hl) in Ht. congruence.
Qed.

(** Giving [k] a fresh tick moves it to the recent end. *)
Lemma lru_push l b k v t ev :
  lru l b -> tick b < t <= U64_MAX ->
  lru (filter (fun e => e.1 <> k) l ++ [(k, (v, t))])
      (mkBounded (<[k := (v, t)]> (entries b)) (cap b) t ev).
Proof.
  intros Hl Ht. pose proof (lru_tick _ _ Hl). split; simpl.
  - intros k' x. rewrite elem_of_app, list_elem_of_filter, list_elem_of_singleton.
    rewrite (lru_elem _ _ Hl), lookup_insert. simpl. case_decide; subst; naive_solver.
  - rewrite fmap_app. apply NoDup_app. split_and!.
    + eapply sublist_NoDup; [apply (lru_nodup _ _ Hl)|].
      apply fmap_sublist, sublist_filter.
    + intros k' (e & -> & He)%list_elem_of_fmap. apply list_elem_of_filter in He. set_solver.
    + apply NoDup_singleton.
  - apply StronglySorted_app_2.
    + intros e e' He He'%list_elem_of_singleton. subst e'. unfold entry_lt. simpl.
      apply list_elem_of_filter in He as [_ He]. apply (lru_ticks _ _ Hl) in He. lia.
    + eapply StronglySorted_sublist; [apply sublist_filter|apply (lru_sorted _ _ Hl)].
    + repeat constructor.
  - intros e [He|He]%elem_of_app.
    + apply list_elem_of_filter in He as [_ He]. apply (lru_ticks _ _ Hl) in He. lia.
    + apply list_elem_of_singleton in He. subst. simpl. lia.
  - lia.
  - apply (lru_cap _ _ Hl).
Qed.

Lemma lru_delete l b k :
  lru l b ->
  lru (filter (fun e => e.1 <> k) l)
      (mkBounded (delete k (entries b)) (cap b) (tick b) (evicted b)).
Proof.
  intros Hl. split; simpl; try apply Hl.
  - intros k' x. rewrite list_elem_of_filter, (lru_elem _ _ Hl), lookup_delete. simpl.
    case_decide; naive_solver.
  - eapply sublist_NoDup; [apply (lru_nodup _ _ Hl)|]. apply fmap_sublist, sublist_filter.
  - eapply StronglySorted_sublist; [apply sublist_filter|apply (lru_sorted _ _ Hl)].
  - intros e He%list_elem_of_filter. apply (lru_ticks _ _ Hl). naive_solver.
Qed.

Lemma lru_next l b : lru l b -> tick b < U64_MAX -> lru l (next_tick b).2.
Proof.
  intros Hl Ht. pose proof (lru_tick _ _ Hl). unfold next_tick. simpl.
  rewrite wrap64_small by lia. split; simpl; try apply Hl; [|lia].
  intros e He%(lru_ticks _ _ Hl). lia.
Qed.

(** ** Eviction *)

Definition order_of (l : list (K * (V * Z))) : list (Z * K) := (fun e => (e.2.2, e.1)) <$> l.

(** Any vector of the map's entries sorted by tick is the representation's:
    the hash map's iteration order and the unstable sort do not matter. *)
Lemma sorted_order_unique l b o :
  lru l b -> o ≡ₚ tick_list b -> StronglySorted tick_le o -> o = order_of l.
Proof.
  intros Hl Hp Hs. assert (o ≡ₚ order_of l) as Hpo.
  { rewrite Hp. unfold tick_list, order_of. apply fmap_Permutation, NoDup_Permutation.
    - apply NoDup_map_to_list.
    - eapply NoDup_fmap_1, lru_nodup, Hl.
    - intros [k x]. rewrite (lru_elem _ _ Hl). by rewrite elem_of_map_to_list. }
  apply (StronglySorted_unique_strong tick_le); [|done| |done].
  - intros x1 x2 H1 H2 H12 H21. rewrite Hpo in H1.
    apply list_elem_of_fmap in H1 as ([k1 [v1 t1]] & -> & He1).
    apply list_elem_of_fmap in H2 as ([k2 [v2 t2]] & -> & He2).
    unfold tick_le in *. simpl in *. assert (t1 = t2) as <- by lia.
    destruct (decide (k1 = k2)) as [->|Hne]; [done|].
    exfalso. by destruct (StronglySorted_elem_neq entry_lt l (k1,(v1,t1)) (k2,(v2,t1)))
      as [Hlt|Hlt]; [apply (lru_sorted _ _ Hl)|done|done|naive_solver| |];
      unfold entry_lt in Hlt; simpl in Hlt; lia.
  - unfold order_of. eapply StronglySorted_fmap; [|apply (lru_sorted _ _ Hl)].
    intros [] [] ?. unfold entry_lt, tick_le in *. simpl in *. lia.
Qed.

Lemma evict_batch_keys l b :
  lru l b ->
  evict_batch b =
  let ks := (take (Z.to_nat (evict_count b)) l).*1 in
  mkBounded (delete_all ks (entries b)) (cap b) (tick b)
    (wrap64 (evicted b + Z.of_nat (length ks))).
Proof.
  intros Hl. unfold evict_batch, evict_in_order.
  rewrite (sorted_order_unique l b _ Hl (merge_sort_Permutation _ _)).
  - unfold order_of. rewrite <- fmap_take, <- list_fmap_compose. done.
  - apply StronglySorted_merge_sort; apply _.
Qed.

Lemma lru_evict_batch l b :
  lru l b -> lru (drop (Z.to_nat (evict_count b)) l) (evict_batch b).
Proof.
  intros Hl. rewrite (evict_batch_keys l b Hl). set (n := Z.to_nat (evict_count b)).
  pose proof (lru_nodup _ _ Hl) as Hnd. rewrite <- (take_drop n l), fmap_app in Hnd.
  apply NoDup_app in Hnd as (_ & Hdisj & Hnd).
  split; simpl; try apply Hl; [|done| |].
  - intros k x. rewrite delete_all_lookup. pose proof (lru_elem _ _ Hl k x) as He.
    rewrite <- (take_drop n l), elem_of_app in He. case_decide as Hk.
    + split; [|done]. intros Hin. destruct (Hdisj k); [done|].
      apply list_elem_of_fmap. by exists (k, x).
    + rewrite <- He. split; [by right|]. intros [Hin|]; [|done]. destruct Hk.
      apply list_elem_of_fmap. by exists (k, x).
  - eapply StronglySorted_sublist; [apply sublist_drop|apply (lru_sorted _ _ Hl)].
  - intros e He. apply (lru_ticks _ _ Hl). eapply elem_of_sublist, sublist_drop. done.
Qed.

(** The batch at the boundary: one entry too many evicts [max(cap/8, 1)]. *)
Lemma evict_count_boundary l b :
  lru l b -> Z.of_nat (length l) = cap b + 1 -> evict_count b = Z.max (cap b / 8) 1.
Proof.
  intros Hl Hlen. unfold evict_count. rewrite (lru_len l b Hl), Hlen. unfold sat_sub. lia.
Qed.

Lemma view_drop n l : view (drop n l) = drop n (view l).
Proof. unfold view. by rewrite fmap_drop. Qed.

Lemma bm_abs_evict l b :
  lru l b -> Z.of_nat (length l) <= cap b + 1 ->
  bm_abs (evict_if_full b) (lru_evict (cap b) (view l)).
Proof.
  intros Hl Hlen. unfold evict_if_full, lru_evict.
  rewrite (lru_len l b Hl), view_length. case_bool.
  - pose proof (lru_cap _ _ Hl) as Hc. exists (drop (Z.to_nat (evict_count b)) l).
    split_and!; [by apply lru_evict_batch| |].
    + by rewrite view_drop, (evict_count_boundary l b Hl) by lia.
    + rewrite length_drop, view_length. change (cap (evict_batch b)) with (cap b). lia.
  - exists l. rewrite view_length. done.
Qed.

Lemma filter_ne_length k (l : list (K * (V * Z))) :
  (length (filter (fun e => e.1 <> k) l) <= length l)%nat.
Proof. apply length_filter. Qed.

Lemma bm_abs_tick b L : bm_abs b L -> 0 <= tick b <= U64_MAX.
Proof. intros (l & Hl & _). apply (lru_tick _ _ Hl). Qed.

(** ** Refinement: each operation implements its reference operation *)

Lemma bm_abs_insert b L k v :
  bm_abs b L -> tick b < U64_MAX -> bm_abs (bm_insert k v b) (lru_insert (cap b) k v L).
Proof.
  intros (l & Hl & -> & Hlen) Ht. rewrite view_length in Hlen.
  pose proof (lru_tick _ _ Hl). unfold bm_insert, next_tick.
  pose proof (lru_push l b k v (wrap64 (tick b + 1)) (evicted b) Hl) as Hp.
  rewrite wrap64_small in * by lia. simpl.
  pose proof (filter_ne_length k l). unfold lru_insert. rewrite <- (lru_touch_view k v (tick b + 1)).
  apply (bm_abs_evict _ (mkBounded _ _ _ _)); [apply Hp; lia|].
  simpl. rewrite length_app. simpl. lia.
Qed.

Lemma bm_abs_touch b L k v v' t :
  bm_abs b L -> tick b < U64_MAX -> entries b !! k = Some (v', t) ->
  bm_abs (mkBounded (<[k := (v, wrap64 (tick b + 1))]> (entries b)) (cap b)
            (wrap64 (tick b + 1)) (evicted b)) (lru_touch k v L).
Proof.
  intros (l & Hl & -> & Hlen) Ht Hk. rewrite view_length in Hlen.
  pose proof (lru_tick _ _ Hl). rewrite wrap64_small by lia.
  pose proof (lru_push l b k v (tick b + 1) (evicted b) Hl ltac:(lia)) as Hp.
  eexists. split_and!; [exact Hp|by rewrite lru_touch_view|]. simpl.
  rewrite <- (lru_touch_view k v (tick b + 1)), view_length, length_app. simpl.
  assert (length (filter (fun e => e.1 <> k) l) < length l)%nat; [|lia].
  apply (length_filter_lt _ _ (k, (v', t))); [by apply (lru_elem _ _ Hl)|naive_solver].
Qed.

Lemma bm_abs_peek b L k : bm_abs b L -> bm_peek k b = lru_find k L.
Proof. intros (l & Hl & -> & _). by rewrite (lru_find_spec l b). Qed.

Lemma bm_abs_get_mut b L k f :
  bm_abs b L -> tick b < U64_MAX ->
  (bm_get_mut k f b).1 = lru_find k L /\ bm_abs (bm_get_mut k f b).2 (lru_update k f L).
Proof.
  intros Hb Ht. unfold lru_update. rewrite <- (bm_abs_peek b L k Hb).
  unfold bm_get_mut, next_tick, bm_peek. simpl.
  destruct (entries b !! k) as [[v t]|] eqn:E; simpl; (split; [done|]).
  - by apply (bm_abs_touch b L k (f v) v t).
  - destruct Hb as (l & Hl & -> & Hlen). exists l. split; [by apply (lru_next l b)|done].
Qed.

Lemma bm_get_get_mut b k : bm_get k b = bm_get_mut k id b.
Proof. done. Qed.

Lemma bm_abs_remove b L k :
  bm_abs b L ->
  (bm_remove k b).1 = lru_find k L /\ bm_abs (bm_remove k b).2 (lru_remove k L).
Proof.
  intros Hb. split; [apply (bm_abs_peek b L k Hb)|].
  destruct Hb as (l & Hl & -> & Hlen). rewrite view_length in Hlen.
  eexists. split_and!; [by apply lru_delete|by rewrite view_filter_ne|].
  unfold lru_remove. rewrite <- view_filter_ne, view_length.
  pose proof (filter_ne_length k l). simpl. lia.
Qed.

(** The key just touched is never in the evicted prefix. *)
Lemma lru_insert_last c k v (L : list (K * V)) :
  1 <= c -> Z.of_nat (length L) <= c -> exists L', lru_insert c k v L = L' ++ [(k, v)].
Proof.
  intros Hc HL. unfold lru_insert, lru_evict, lru_touch. case_bool; [|eauto].
  pose proof (length_filter (fun e : K * V => e.1 <> k) L).
  rewrite length_app in *. change (length [(k, v)]) with 1%nat in *.
  assert (c / 8 <= c) by (apply Z.div_le_upper_bound; lia).
  rewrite drop_app_le by lia. eauto.
Qed.

Lemma lru_find_last k v (L : list (K * V)) :
  (forall e, e ∈ L -> e.1 <> k) -> lru_find k (L ++ [(k, v)]) = Some v.
Proof.
  intros HL. unfold lru_find. rewrite filter_app.
  replace (filter (fun e => e.1 = k) L) with (@nil (K * V)).
  - simpl. rewrite filter_cons_True; done.
  - symmetry. apply filter_none. done.
Qed.

Lemma lru_touch_last k v w (L : list (K * V)) :
  NoDup (L ++ [(k, v)]).*1 -> lru_touch k w (L ++ [(k, v)]) = L ++ [(k, w)].
Proof.
  rewrite fmap_app. intros (_ & Hd & _)%NoDup_app.
  unfold lru_touch. rewrite filter_app, filter_all.
  - rewrite filter_cons_False by naive_solver. by rewrite app_nil_r.
  - intros e He Heq. apply (Hd k); [|set_solver]. apply list_elem_of_fmap. by exists e.
Qed.

Lemma view_keys l : (view l).*1 = l.*1.
Proof. unfold view. by rewrite <- list_fmap_compose. Qed.

(** Writing through the reference [get_or_insert_with] returns: the value of
    the newest entry changes, its tick and place do not. *)
Lemma lru_write_last l b k v w t :
  lru (l ++ [(k, (v, t))]) b ->
  lru (l ++ [(k, (w, t))])
      (mkBounded (<[k := (w, t)]> (entries b)) (cap b) (tick b) (evicted b)).
Proof.
  intros [He Hn Hs Ht ? ?]. split; simpl; try done.
  - intros k' x. pose proof (He k' x) as Hx. rewrite !elem_of_app, !list_elem_of_singleton in *.
    rewrite fmap_app in Hn. apply NoDup_app in Hn as (_ & Hd & _).
    rewrite lookup_insert. case_decide as Hk; [subst k'|naive_solver].
    split; [intros [Hin|Heq]; [|congruence]|naive_solver].
    exfalso. apply (Hd k); [|set_solver]. apply list_elem_of_fmap. by exists (k, x).
  - by rewrite fmap_app in *.
  - apply StronglySorted_app in Hs as (Hlt & Hs & _).
    apply StronglySorted_app_2; [|done|repeat constructor].
    intros e e' Hin ->%list_elem_of_singleton. apply (Hlt e (k, (v, t)) Hin). set_solver.
  - intros e [Hin| ->%list_elem_of_singleton]%elem_of_app; [apply Ht; set_solver|].
    apply (Ht (k, (v, t))). set_solver.
Qed.

Lemma bm_insert_tick k v b : tick (bm_insert k v b) = wrap64 (tick b + 1).
Proof. unfold bm_insert, evict_if_full. simpl. by destruct (_ <? _). Qed.

Lemma bm_insert_cap k v b : cap (bm_insert k v b) = cap b.
Proof. unfold bm_insert, evict_if_full. simpl. by destruct (_ <? _). Qed.

Lemma bm_insert_entry k v b x :
  entries (bm_insert k v b) !! k = Some x -> x = (v, wrap64 (tick b + 1)).
Proof.
  unfold bm_insert, evict_if_full. simpl. destruct (_ <? _); simpl.
  - rewrite delete_all_lookup, lookup_insert_eq. case_decide; naive_solver.
  - rewrite lookup_insert_eq. naive_solver.
Qed.

Lemma bm_abs_write_last b L k d w :
  bm_abs b (L ++ [(k, d)]) ->
  exists t, entries b !! k = Some (d, t) /\
    bm_abs (mkBounded (<[k := (w, t)]> (entries b)) (cap b) (tick b) (evicted b))
      (L ++ [(k, w)]).
Proof.
  intros (l & Hl & Heq & Hlen).
  destruct (destruct_last l) as [->|(l' & [k' [v' t]] & ->)].
  { by apply app_nil in Heq as [_ ?]. }
  unfold view in Heq. rewrite fmap_app in Heq. apply app_inj_2 in Heq as [-> Heq]; [|done].
  simplify_eq/=. exists t. split; [apply (lru_elem _ _ Hl); set_solver|].
  exists (l' ++ [(k', (w, t))]).
  split_and!; [by apply (lru_write_last _ _ _ v')|by unfold view; rewrite fmap_app|].
  rewrite length_app in *. done.
Qed.

Lemma bm_abs_get_or_insert b L k d f :
  bm_abs b L -> tick b < U64_MAX ->
  exists b', bm_get_or_insert_with k d f b = Some (default d (lru_find k L), b') /\
    bm_abs b' (lru_get_or_insert (cap b) k d f L).
Proof.
  intros Hb Ht. pose proof (bm_abs_peek b L k Hb) as Hp.
  unfold lru_get_or_insert, bm_get_or_insert_with, next_tick, bm_peek in *. simpl.
  destruct (entries b !! k) as [[v t]|] eqn:E; rewrite <- Hp; simpl.
  - rewrite E. eexists. split; [done|]. by apply (bm_abs_touch b L k (f v) v t).
  - pose proof (bm_abs_insert b L k d Hb Ht) as Hi. pose proof Hb as (l & Hl & _ & Hlen).
    destruct (lru_insert_last (cap b) k d L) as [L' HL'];
      [apply (lru_cap _ _ Hl)|done|]. rewrite HL' in *.
    destruct (bm_abs_write_last _ _ _ _ (f d) Hi) as (t & Hk & Hw).
    change (evict_if_full _) with (bm_insert k d b). rewrite Hk.
    eexists. split; [done|].
    rewrite lru_touch_last.
    + replace (wrap64 (tick b + 1)) with t; [done|].
      apply bm_insert_entry in Hk. congruence.
    + destruct Hi as (li & Hli & Heq & _). rewrite Heq, view_keys. apply (lru_nodup _ _ Hli).
Qed.

(** ** What a client sees

    The four writes as their effect on [peek]: the written key, and the frame
    (another key keeps its value unless this write evicted it, and nothing is
    evicted below the capacity). *)

Definition bm_ok b : Prop := exists L, bm_abs b L.

(** [b'] agrees with [b] on every key but [k], up to eviction. *)
Definition bm_frame k b b' : Prop :=
  (forall k', k' <> k -> bm_peek k' b' = bm_peek k' b \/ bm_peek k' b' = None) /\
  (bm_len b < cap b -> forall k', k' <> k -> bm_peek k' b' = bm_peek k' b).

Lemma evict_if_full_frame b k :
  entries (evict_if_full b) !! k = entries b !! k \/ entries (evict_if_full b) !! k = None.
Proof.
  unfold evict_if_full. destruct (_ <? _); [|by left].
  unfold evict_batch, evict_in_order. simpl. rewrite delete_all_lookup.
  case_decide; auto.
Qed.

Lemma insert_len_below b k (x : V * Z) t ev :
  bm_len b < cap b -> evict_if_full (mkBounded (<[k := x]> (entries b)) (cap b) t ev) =
    mkBounded (<[k := x]> (entries b)) (cap b) t ev.
Proof.
  intros Hlen. unfold evict_if_full, bm_len in *. cbn [entries cap].
  assert (size (<[k := x]> (entries b)) <= S (size (entries b)))%nat.
  { rewrite map_size_insert. destruct (entries b !! k); simpl; lia. }
  case_bool; [lia|done].
Qed.

Lemma insert_frame b k (x : V * Z) t ev :
  bm_frame k b (evict_if_full (mkBounded (<[k := x]> (entries b)) (cap b) t ev)).
Proof.
  split.
  - intros k' Hne. unfold bm_peek.
    destruct (evict_if_full_frame (mkBounded (<[k := x]> (entries b)) (cap b) t ev) k')
      as [->| ->]; [left|by right]. simpl. by rewrite lookup_insert_ne.
  - intros Hlen k' Hne. unfold bm_peek. rewrite insert_len_below by done. simpl.
    by rewrite lookup_insert_ne.
Qed.

Lemma bm_frame_write b k b' v t c tk ev :
  bm_frame k b b' -> bm_frame k b (mkBounded (<[k := (v, t)]> (entries b')) c tk ev).
Proof.
  intros [H1 H2]. split; [intros k' Hne|intros Hlen k' Hne]; unfold bm_peek in *; simpl;
    rewrite lookup_insert_ne by done; auto.
Qed.

Lemma bm_insert_client b k v :
  bm_ok b -> tick b < U64_MAX ->
  bm_ok (bm_insert k v b) /\ bm_peek k (bm_insert k v b) = Some v /\
  bm_frame k b (bm_insert k v b).
Proof.
  intros [L Hb] Ht. pose proof (bm_abs_insert b L k v Hb Ht) as Hi.
  split_and!; [by eexists| |exact (insert_frame b k (v, wrap64 (tick b + 1)) _ _)].
  pose proof Hb as (l & Hl & _ & Hlen).
  destruct (lru_insert_last (cap b) k v L) as [L' HL']; [apply (lru_cap _ _ Hl)|done|].
  rewrite HL' in Hi. destruct (bm_abs_write_last _ _ _ _ v Hi) as (t & Hk & _).
  unfold bm_peek. by rewrite Hk.
Qed.

Lemma evict_if_full_len b : bm_len (evict_if_full b) <= bm_len b.
Proof.
  unfold evict_if_full. destruct (_ <? _); [|lia]. unfold evict_batch, evict_in_order, bm_len. cbn [entries].
  apply Nat2Z.inj_le, map_subseteq_size. apply map_subseteq_spec. intros k x.
  rewrite delete_all_lookup. by case_decide.
Qed.

(** The counters of an insertion. *)
Lemma bm_insert_counters b k v :
  tick b < U64_MAX -> 0 <= tick b ->
  cap (bm_insert k v b) = cap b /\ tick (bm_insert k v b) = tick b + 1 /\ bm_len (bm_insert k v b) <= bm_len b + 1.
Proof.
  intros Ht H0. unfold bm_insert, next_tick.
  split_and!; [unfold evict_if_full; by destruct (_ <? _)| |].
  - unfold evict_if_full. destruct (_ <? _); cbn [evict_batch evict_in_order tick]; apply wrap64_small; lia.
  - etrans; [apply evict_if_full_len|]. unfold bm_len. cbn [entries].
    destruct (entries b !! k) as [x|] eqn:E.
    + rewrite map_size_insert_Some by eauto. lia.
    + rewrite map_size_insert_None by done. lia.
Qed.

Lemma bm_ok_tick b : bm_ok b -> 0 <= tick b.
Proof. intros [L Hb]. pose proof (bm_abs_tick _ _ Hb). lia. Qed.

Lemma bm_remove_client b k :
  bm_ok b ->
  bm_ok (bm_remove k b).2 /\ bm_peek k (bm_remove k b).2 = None /\
  (forall k', k' <> k -> bm_peek k' (bm_remove k b).2 = bm_peek k' b) /\
  bm_len (bm_remove k b).2 <= bm_len b.
Proof.
  intros [L Hb]. split_and!.
  - eexists. apply (bm_abs_remove b L k Hb).
  - unfold bm_peek. simpl. by rewrite lookup_delete_eq.
  - intros k' Hne. unfold bm_peek. simpl. by rewrite lookup_delete_ne.
  - apply inj_le. simpl. rewrite map_size_delete. destruct (entries b !! k); [apply Nat.le_pred_l|done].
Qed.

Lemma bm_get_or_insert_client b k d f :
  bm_ok b -> tick b < U64_MAX ->
  exists b', bm_get_or_insert_with k d f b = Some (default d (bm_peek k b), b') /\
    bm_ok b' /\ bm_peek k b' = Some (f (default d (bm_peek k b))) /\ bm_frame k b b' /\
    cap b' = cap b /\ tick b' = tick b + 1.
Proof.
  intros [L Hb] Ht. pose proof (bm_abs_tick _ _ Hb).
  destruct (bm_abs_get_or_insert b L k d f Hb Ht) as (b' & Hr & Hb').
  rewrite <- (bm_abs_peek b L k Hb) in Hr. exists b'. split; [done|].
  split; [by eexists|]. revert Hr. unfold bm_get_or_insert_with, next_tick. cbv zeta.
  cbn [entries]. set (bi := match entries b !! k with Some _ => _ | None => _ end).
  destruct (entries bi !! k) as [[v t]|] eqn:E; [|done]. intros [= Hv <-].
  assert (bm_frame k b bi /\ cap bi = cap b /\ tick bi = tick b + 1) as (Hf & Hc & Htk).
  { unfold bi. destruct (entries b !! k).
    - split_and!; [split; auto|done|apply wrap64_small; lia].
    - split_and!; [exact (insert_frame b k _ _ _)|..]; unfold evict_if_full;
        destruct (_ <? _); try done; apply wrap64_small; lia. }
  split_and!; [|by apply bm_frame_write|done|done].
  unfold bm_peek. simpl. rewrite lookup_insert_eq. simpl. by rewrite Hv.
Qed.

Lemma bm_get_or_insert_len b k d f v b' :
  bm_get_or_insert_with k d f b = Some (v, b') -> bm_len b' <= bm_len b + 1.
Proof.
  unfold bm_get_or_insert_with, next_tick. cbv zeta. cbn [entries].
  set (bi := match entries b !! k with Some _ => _ | None => _ end).
  destruct (entries bi !! k) as [[x t]|] eqn:E; [|done]. intros [= _ <-].
  assert (bm_len bi <= bm_len b + 1) as Hbi.
  { unfold bi. destruct (entries b !! k) eqn:Eb; [unfold bm_len; cbn; lia|].
    etrans; [apply evict_if_full_len|]. unfold bm_len. cbn [entries]. rewrite map_size_insert_None by done. lia. }
  unfold bm_len in *. cbn [entries]. rewrite map_size_insert_Some by eauto. done.
Qed.

Lemma bm_get_mut_client b k f :
  bm_ok b -> tick b < U64_MAX ->
  let r := bm_get_mut k f b in
  r.1 = bm_peek k b /\ bm_ok r.2 /\ bm_peek k r.2 = f <$> bm_peek k b /\
  (forall k', k' <> k -> bm_peek k' r.2 = bm_peek k' b) /\
  bm_len r.2 = bm_len b /\ cap r.2 = cap b /\ tick r.2 = tick b + 1.
Proof.
  intros [L Hb] Ht r. pose proof (bm_abs_tick _ _ Hb).
  destruct (bm_abs_get_mut b L k f Hb Ht) as [H1 H2].
  rewrite <- (bm_abs_peek b L k Hb) in H1.
  split_and!; [done|by eexists|..]; unfold r, bm_get_mut, next_tick, bm_peek, bm_len; simpl;
    (destruct (entries b !! k) as [[v t]|] eqn:E; simpl; rewrite ?E); try done.
  - by rewrite lookup_insert_eq.
  - intros k' Hne. by rewrite lookup_insert_ne.
  - by rewrite map_size_insert, E.
  - apply wrap64_small; lia.
  - apply wrap64_small; lia.
Qed.

Lemma bm_get_client b k :
  bm_ok b -> tick b < U64_MAX ->
  let r := bm_get k b in
  r.1 = bm_peek k b /\ bm_ok r.2 /\ (forall k', bm_peek k' r.2 = bm_peek k' b) /\
  bm_len r.2 = bm_len b /\ cap r.2 = cap b /\ tick r.2 = tick b + 1.
Proof.
  intros Hb Ht. rewrite bm_get_get_mut.
  destruct (bm_get_mut_client b k id Hb Ht) as (H1 & H2 & H3 & H4 & H5 & H6 & H7).
  split_and!; try done. intros k'. destruct (decide (k' = k)) as [->|]; [|by apply H4].
  rewrite H3. by destruct (bm_peek k b).
Qed.

(** ** Whole runs *)

(** The operations a client performs.  Reads that do not refresh recency
    ([peek], [iter], [len]) change nothing and are not listed. *)
Inductive bm_op : Type :=
| OpInsert (k : K) (v : V)
| OpGetMut (k : K) (f : V -> V)
| OpRemove (k : K)
| OpGetOrInsert (k : K) (d : V) (f : V -> V)
| OpExtend (kvs : list (K * V)).

(** [None] is a panic. *)
Definition bm_exec (o : bm_op) b : option (BoundedMap K V) :=
  match o with
  | OpInsert k v => Some (bm_insert k v b)
  | OpGetMut k f => Some (bm_get_mut k f b).2
  | OpRemove k => Some (bm_remove k b).2
  | OpGetOrInsert k d f => snd <$> bm_get_or_insert_with k d f b
  | OpExtend kvs => Some (bm_extend kvs b)
  end.

Definition lru_exec (c : Z) (o : bm_op) (L : list (K * V)) : list (K * V) :=
  match o with
  | OpInsert k v => lru_insert c k v L
  | OpGetMut k f => lru_update k f L
  | OpRemove k => lru_remove k L
  | OpGetOrInsert k d f => lru_get_or_insert c k d f L
  | OpExtend kvs => foldl (fun L kv => lru_insert c kv.1 kv.2 L) L kvs
  end.

Fixpoint bm_run (os : list bm_op) b : option (BoundedMap K V) :=
  match os with [] => Some b | o :: os => bm_exec o b ≫= bm_run os end.

Definition lru_run (c : Z) (os : list bm_op) (L : list (K * V)) : list (K * V) :=
  foldl (fun L o => lru_exec c o L) L os.

(** Ticks an operation may issue. *)
Definition op_ticks (o : bm_op) : Z :=
  match o with OpExtend kvs => Z.of_nat (length kvs) | OpRemove _ => 0 | _ => 1 end.

Fixpoint run_ticks (os : list bm_op) : Z :=
  match os with [] => 0 | o :: os => op_ticks o + run_ticks os end.

Lemma bm_abs_extend kvs b L :
  bm_abs b L -> tick b + Z.of_nat (length kvs) <= U64_MAX ->
  cap (bm_extend kvs b) = cap b /\
  tick (bm_extend kvs b) <= tick b + Z.of_nat (length kvs) /\
  bm_abs (bm_extend kvs b) (foldl (fun L kv => lru_insert (cap b) kv.1 kv.2 L) L kvs).
Proof.
  unfold bm_extend. revert b L. induction kvs as [|[k v] kvs IH]; intros b L Hb Ht.
  - simpl. split_and!; [done|lia|done].
  - cbn [length] in Ht. simpl. pose proof (bm_abs_tick b L Hb).
    destruct (IH (bm_insert k v b) (lru_insert (cap b) k v L)) as (Hc & Htk & Ha).
    + apply bm_abs_insert; [done|lia].
    + rewrite bm_insert_tick, wrap64_small by lia. lia.
    + rewrite bm_insert_cap in *. rewrite bm_insert_tick, wrap64_small in Htk by lia.
      split_and!; [done|lia|done].
Qed.

Lemma bm_exec_refines o b L :
  bm_abs b L -> tick b + op_ticks o <= U64_MAX ->
  exists b', bm_exec o b = Some b' /\ cap b' = cap b /\
    tick b' <= tick b + op_ticks o /\ bm_abs b' (lru_exec (cap b) o L).
Proof.
  intros Hb Ht. pose proof (bm_abs_tick b L Hb).
  destruct o as [k v|k f|k|k d f|kvs]; simpl in *.
  - exists (bm_insert k v b). rewrite bm_insert_cap, bm_insert_tick, wrap64_small by lia.
    split_and!; [done..|lia|]. apply bm_abs_insert; [done|lia].
  - eexists. split_and!; [done| | |apply bm_abs_get_mut; [done|lia]];
      unfold bm_get_mut, next_tick; simpl; destruct (entries b !! k) as [[]|]; simpl;
      rewrite ?wrap64_small by lia; done || lia.
  - eexists. split_and!; [done..|simpl; lia|]. by apply bm_abs_remove.
  - destruct (bm_abs_get_or_insert b L k d f Hb ltac:(lia)) as (b' & Hex & Hb').
    rewrite Hex. exists b'. split_and!; [done| | |done];
      unfold bm_get_or_insert_with, next_tick in Hex; simpl in Hex; repeat case_match;
      simplify_eq/=; rewrite ?wrap64_small by lia; try done; try lia;
      unfold evict_if_full; simpl; destruct (_ <? _); simpl; lia.
  - eexists. split; [done|]. by apply bm_abs_extend.
Qed.

Lemma bm_run_refines_from os b L :
  bm_abs b L -> tick b + run_ticks os <= U64_MAX ->
  exists b', bm_run os b = Some b' /\ cap b' = cap b /\ bm_abs b' (lru_run (cap b) os L).
Proof.
  revert b L. induction os as [|o os IH]; intros b L Hb Ht;
    cbn [run_ticks bm_run] in *; [eauto|].
  assert (0 <= run_ticks os) as Hn.
  { clear. induction os as [|[]]; cbn [run_ticks op_ticks]; lia. }
  destruct (bm_exec_refines o b L Hb) as (b1 & -> & Hc & Ht1 & Hb1); [lia|]. simpl.
  destruct (IH b1 _ Hb1) as (b' & Hr & Hc' & Hb'); [lia|].
  exists b'. rewrite Hc in *. done.
Qed.
End BoundedMap.

(** [BoundedMap::new] starts from the empty list. *)
Lemma bm_abs_new {V : Type} `{Countable K} c (b : BoundedMap K V) :
  bm_new c = Some b -> cap b = c /\ tick b = 0 /\ bm_abs b [].
Proof.
  unfold bm_new. case_bool; [|done]. intros [= <-]. split_and!; [done..|].
  exists []. split_and!; [|done|simpl; lia]. split; simpl; try done; try constructor.
  - set_solver.
  - by rewrite lookup_empty.
  - set_solver.
  - set_solver.
Qed.

(** A map built from a list of entries in recency order. *)
Lemma lru_of_list {V : Type} `{Countable K} (l : list (K * (V * Z))) c t ev :
  NoDup l.*1 -> StronglySorted entry_lt l ->
  Forall (fun e => 0 < e.2.2 <= t) l -> 0 <= t <= U64_MAX -> 1 <= c ->
  lru l (mkBounded (list_to_map l) c t ev).
Proof.
  intros Hn Hs Ht ? ?. split; simpl; try done.
  - intros k x. by apply elem_of_list_to_map.
  - intros e. by rewrite Forall_forall in Ht; apply Ht.
Qed.

Ltac solve_lru_of_list :=
  apply lru_of_list;
  [ apply (bool_decide_unpack _); vm_compute; exact I
  | repeat constructor
  | repeat (apply Forall_cons; split); [simpl; lia..|by apply Forall_nil]
  | unfold U64_MAX; lia
  | lia ].

(** ** Properties *)

(** C8.  Every run of the map's operations from [BoundedMap::new(c)] refines the
    abstract LRU list: no operation panics (in particular the [expect] of
    [get_or_insert_with] never fires), the map never exceeds its capacity, and
    what a lookup finds is what the list that moves used keys to its recent end
    and drops its [max(c/8, 1)] oldest on overflow holds. *)
Theorem bm_run_refines {V : Type} `{Countable K} (c : Z) (os : list (@bm_op K V)) :
  1 <= c -> run_ticks os <= U64_MAX ->
  exists b b' : BoundedMap K V,
    bm_new c = Some b /\ bm_run os b = Some b' /\ bm_len b' <= c /\
    (forall k, bm_peek k b' = lru_find k (lru_run c os [])) /\
    bm_iter b' ≡ₚ lru_run c os [].
Proof.
  intros Hc Ht. destruct (bm_new c) as [b|] eqn:E.
  2: { unfold bm_new in E. case_bool; [done|lia]. }
  destruct (bm_abs_new c b E) as (Hcap & Htk & Hb).
  destruct (bm_run_refines_from os b [] Hb) as (b' & Hr & Hc' & Hb'); [lia|].
  exists b, b'. rewrite Hcap in *. pose proof Hb' as (l & Hl & Heq & Hlen).
  split_and!; [done|done| | |].
  - rewrite (lru_len l b' Hl), <- view_length, <- Heq. lia.
  - intros k. by apply bm_abs_peek.
  - rewrite Heq. unfold bm_iter, view. apply fmap_Permutation, NoDup_Permutation.
    + apply NoDup_map_to_list.
    + eapply NoDup_fmap_1, lru_nodup, Hl.
    + intros [k x]. by rewrite elem_of_map_to_list, (lru_elem _ _ Hl).
Qed.

Definition demo_ops : list (@bm_op Z Z) :=
  [OpInsert 1 10; OpInsert 2 20; OpGetMut 1 (Z.add 1); OpInsert 3 30;
   OpGetOrInsert 4 40 (Z.mul 2); OpRemove 3; OpExtend [(5, 50); (6, 60)]].

Lemma bm_run_refines_witness :
  exists b b' : BoundedMap Z Z,
    bm_new 2 = Some b /\ bm_run demo_ops b = Some b' /\ bm_len b' <= 2 /\
    (forall k, bm_peek k b' = lru_find k (lru_run 2 demo_ops [])) /\
    bm_iter b' ≡ₚ lru_run 2 demo_ops [].
Proof. apply (bm_run_refines 2 demo_ops); vm_compute; intros; discriminate. Defined.

(**  Eviction does not depend on what the source leaves unspecified: for
    every vector of the map's (tick, key) pairs sorted by tick (whatever the
    hash map's iteration order and the unstable sort produced), the removal
    loop yields the same map, and it removes the least recently used entries:
    every evicted key was used before every surviving one. *)
Theorem evict_order_irrelevant {V : Type} `{Countable K} (b : BoundedMap K V) l o :
  lru l b -> o ≡ₚ tick_list b -> StronglySorted tick_le o ->
  evict_in_order o b = evict_batch b /\
  (forall k v t k' v' t', entries b !! k = Some (v, t) ->
     entries (evict_in_order o b) !! k = None ->
     entries (evict_in_order o b) !! k' = Some (v', t') -> t < t').
Proof.
  intros Hl Hp Hs. assert (evict_in_order o b = evict_batch b) as Heq.
  { unfold evict_batch. f_equal. rewrite (sorted_order_unique l b o Hl Hp Hs).
    symmetry. apply (sorted_order_unique l b); [done|apply merge_sort_Permutation|].
    apply StronglySorted_merge_sort; apply _. }
  split; [done|]. rewrite Heq. intros k v t k' v' t' Hk Hgone Hk'.
  pose proof (lru_evict_batch l b Hl) as Hd.
  apply (lru_elem _ _ Hl) in Hk. apply (lru_elem _ _ Hd) in Hk'.
  rewrite <- (take_drop (Z.to_nat (evict_count b)) l), elem_of_app in Hk.
  destruct Hk as [Hk|Hk].
  - by pose proof (sorted_take_drop entry_lt l _ _ _ (lru_sorted _ _ Hl) Hk Hk').
  - apply (lru_elem _ _ Hd) in Hk. congruence.
Qed.

Definition demo_list : list (Z * (Z * Z)) := [(2, (20, 1)); (3, (30, 2)); (1, (10, 3))].
Definition demo_full : BoundedMap Z Z := mkBounded (list_to_map demo_list) 2 3 0.

Lemma demo_full_lru : lru demo_list demo_full.
Proof. solve_lru_of_list. Qed.

Lemma evict_order_irrelevant_witness :
  evict_in_order [(1, 2); (2, 3); (3, 1)] demo_full = evict_batch demo_full /\
  (forall k v t k' v' t', entries demo_full !! k = Some (v, t) ->
     entries (evict_in_order [(1, 2); (2, 3); (3, 1)] demo_full) !! k = None ->
     entries (evict_in_order [(1, 2); (2, 3); (3, 1)] demo_full) !! k' = Some (v', t') ->
     t < t').
Proof.
  apply (evict_order_irrelevant demo_full demo_list); [apply demo_full_lru| |].
  - replace (tick_list demo_full) with [(2, 3); (1, 2); (3, 1)]; [|vm_compute; done].
    apply (Permutation_swap (2, 3) (1, 2) [(3, 1)]).
  - repeat constructor; unfold tick_le; simpl; lia.
Defined.

(** One when [k] is a new key, zero when it overwrites. *)
Definition fresh_key {V : Type} `{Countable K} (k : K) (b : BoundedMap K V) : Z :=
  match bm_peek k b with Some _ => 0 | None => 1 end.

(**  The loss is observable: an insertion increases the [evicted] counter by
    exactly the number of entries it made disappear. *)
Theorem bm_insert_counts_loss {V : Type} `{Countable K} (b : BoundedMap K V) L k v :
  bm_abs b L -> tick b < U64_MAX ->
  0 <= bm_evicted b -> bm_evicted b + bm_len b + 1 <= U64_MAX ->
  bm_evicted (bm_insert k v b) =
    bm_evicted b + (bm_len b + fresh_key k b - bm_len (bm_insert k v b)).
Proof.
  intros (l & Hl & -> & Hlen) Ht He0 He. pose proof (lru_tick _ _ Hl).
  set (b1 := mkBounded (<[k := (v, wrap64 (tick b + 1))]> (entries b)) (cap b)
               (wrap64 (tick b + 1)) (evicted b)).
  change (bm_insert k v b) with (evict_if_full b1).
  set (l1 := filter (fun e => e.1 <> k) l ++ [(k, (v, wrap64 (tick b + 1)))]).
  assert (lru l1 b1) as Hl1 by (apply lru_push; [done|rewrite wrap64_small; lia]).
  assert (bm_len b1 = bm_len b + fresh_key k b) as Hlen1.
  { unfold b1, bm_len, fresh_key, bm_peek. simpl. destruct (entries b !! k) eqn:E; simpl.
    - rewrite map_size_insert_Some; [lia|eauto].
    - rewrite map_size_insert_None; [lia|done]. }
  rewrite <- Hlen1. unfold evict_if_full. case_bool; [|unfold b1, bm_evicted; simpl; lia].
  rewrite (lru_len _ _ (lru_evict_batch _ _ Hl1)), (evict_batch_keys _ _ Hl1).
  unfold bm_evicted. simpl. rewrite length_fmap, length_take, length_drop, (lru_len _ _ Hl1).
  rewrite (lru_len _ _ Hl1) in Hlen1. unfold bm_evicted in *.
  assert (bm_len b + fresh_key k b <= bm_len b + 1) by (unfold fresh_key; destruct (bm_peek k b); lia).
  rewrite wrap64_small; lia.
Qed.

Definition demo_two : BoundedMap Z Z :=
  mkBounded (list_to_map [(1, (10, 1)); (2, (20, 2))]) 2 2 7.

Lemma bm_insert_counts_loss_witness :
  bm_evicted (bm_insert 9 90 demo_two) = 7 + (2 + 1 - 2).
Proof.
  apply (bm_insert_counts_loss demo_two [(1, 10); (2, 20)] 9 90);
    [|vm_compute; (reflexivity || discriminate)..].
  exists [(1, (10, 1)); (2, (20, 2))]. split_and!; [|done|simpl; lia].
  solve_lru_of_list.
Defined.
