(* ===== verification/Sliding.v ===== *)
(** * Sliding: the sliding-window structures of [crates/rules/src/sliding.rs]

    Four bounded deques keep the recent past of one key: [SlidingCounter]
    counts occurrences, [SlidingSum] sums bytes in coalesced slots,
    [FlowPortDedup] and [SlidingDistinct] keep the distinct values seen.
    Deques are lists, front first; timestamps are [u64] nanoseconds. *)
From stdpp Require Import base gmap list sorting.
From Stdlib Require Import ZArith Lia.
From S2P Require Import Prelude.

Definition SLIDING_TIMESTAMPS_CAP : nat := 256.
Definition FLOW_PORT_DEDUP_CAP : nat := 256.
Definition SLIDING_SUM_CAP : nat := 256.
Definition SLIDING_SUM_SLOT_NS : Z := 200000000.
Definition SLIDING_DISTINCT_CAP : nat := 256.

(** [ts.saturating_sub(t) > window_ns] *)
Definition expired (ts window_ns t : Z) : bool := window_ns <? ts -sat t.

(** Pushing at the back of a deque of at most [cap] elements. *)
Definition push_capped {A : Type} (cap : nat) (x : A) (l : list A) : list A :=
  let l := l ++ [x] in
  if (cap <? length l)%nat then tail l else l.

Arguments push_capped : simpl never.

(** The guard [last_alert_ns.is_some_and(|t| ts.saturating_sub(t) <= window_ns)]. *)
Definition alert_in_window (last : option Z) (ts window_ns : Z) : bool :=
  match last with Some t => ts -sat t <=? window_ns | None => false end.

Record SlidingCounter := mkCounter {
  timestamps : list Z;
  last_alert_ns : option Z;
}.

Definition SlidingCounter_default : SlidingCounter := mkCounter [] None.

Definition SlidingCounter_record (ts window_ns : Z) (c : SlidingCounter) : Z * SlidingCounter :=
  let live := pop_while (expired ts window_ns) (timestamps c) in
  let l := push_capped SLIDING_TIMESTAMPS_CAP ts live in
  (Z.of_nat (length l), mkCounter l (last_alert_ns c)).

Definition SlidingCounter_try_alert (ts window_ns : Z) (c : SlidingCounter) : bool * SlidingCounter :=
  if alert_in_window (last_alert_ns c) ts window_ns then (false, c)
  else (true, mkCounter (timestamps c) (Some ts)).

Record FlowPortDedup := mkDedup { ports : list (Z * Z) }.

Definition FlowPortDedup_default : FlowPortDedup := mkDedup [].

Definition FlowPortDedup_is_new (local_port ts window_ns : Z) (d : FlowPortDedup) : bool * FlowPortDedup :=
  let live := pop_while (fun e => expired ts window_ns e.2) (ports d) in
  if existsb (fun e => e.1 =? local_port) live then (false, mkDedup live)
  else (true, mkDedup (push_capped FLOW_PORT_DEDUP_CAP (local_port, ts) live)).

(** A slot is [(slot_start, slot_end, value)]. *)
Record Slot := mkSlot { slot_start : Z; slot_end : Z; slot_value : Z }.
Record SlidingSum := mkSum { slots : list Slot; total : Z }.

Definition SlidingSum_default : SlidingSum := mkSum [] 0.

(** The prune loop, popping the front slot while its last write is too old. *)
Fixpoint SlidingSum_prune_loop (ts window_ns : Z) (l : list Slot) (t : Z) : list Slot * Z :=
  match l with
  | [] => ([], t)
  | s :: l' =>
      if expired ts window_ns (slot_end s)
      then SlidingSum_prune_loop ts window_ns l' (t -sat slot_value s)
      else (l, t)
  end.

Definition SlidingSum_prune (ts window_ns : Z) (s : SlidingSum) : SlidingSum :=
  let '(l, t) := SlidingSum_prune_loop ts window_ns (slots s) (total s) in mkSum l t.

(** Coalesce into the back slot when its first write is less than a slot
    width away, else open a new slot. *)
Fixpoint SlidingSum_coalesce (ts value : Z) (l : list Slot) : list Slot :=
  match l with
  | [] => [mkSlot ts ts value]
  | [s] =>
      if ts -sat slot_start s <? SLIDING_SUM_SLOT_NS
      then [mkSlot (slot_start s) (Z.max ts (slot_end s)) (sat_add (slot_value s) value)]
      else [s; mkSlot ts ts value]
  | s :: l' => s :: SlidingSum_coalesce ts value l'
  end.

Definition SlidingSum_add (ts value window_ns : Z) (s : SlidingSum) : Z * SlidingSum :=
  let s := SlidingSum_prune ts window_ns s in
  let l := SlidingSum_coalesce ts value (slots s) in
  let t := sat_add (total s) value in
  match l with
  | front :: l' =>
      if (SLIDING_SUM_CAP <? length l)%nat
      then let t := t -sat slot_value front in (t, mkSum l' t)
      else (t, mkSum l t)
  | [] => (t, mkSum l t)
  end.

Definition SlidingSum_total_in (ts window_ns : Z) (s : SlidingSum) : Z * SlidingSum :=
  let s := SlidingSum_prune ts window_ns s in (total s, s).

Record SlidingDistinct (T : Type) := mkDistinct {
  dentries : list (T * Z);
  dlast_alert_ns : option Z;
}.
Arguments mkDistinct {T} _ _.
Arguments dentries {T} _.
Arguments dlast_alert_ns {T} _.

Section SlidingDistinct.
Context {T : Type} `{EqDecision T}.

Definition SlidingDistinct_default : SlidingDistinct T := mkDistinct [] None.

Definition SlidingDistinct_prune (ts window_ns : Z) (d : SlidingDistinct T) : SlidingDistinct T :=
  mkDistinct (pop_while (fun e => expired ts window_ns e.2) (dentries d)) (dlast_alert_ns d).

Definition SlidingDistinct_record (value : T) (ts window_ns : Z) (d : SlidingDistinct T)
    : Z * SlidingDistinct T :=
  let d := SlidingDistinct_prune ts window_ns d in
  let l := if existsb (fun e => bool_decide (e.1 = value)) (dentries d) then dentries d
           else push_capped SLIDING_DISTINCT_CAP (value, ts) (dentries d) in
  (Z.of_nat (length l), mkDistinct l (dlast_alert_ns d)).

Definition SlidingDistinct_try_alert (ts window_ns : Z) (d : SlidingDistinct T)
    : bool * SlidingDistinct T :=
  if alert_in_window (dlast_alert_ns d) ts window_ns then (false, d)
  else (true, mkDistinct (dentries d) (Some ts)).
End SlidingDistinct.

(** ** Shared facts *)

Lemma expired_iff ts w t : 0 <= w -> expired ts w t = true <-> t + w < ts.
Proof. unfold expired, sat_sub. rewrite Z.ltb_lt. lia. Qed.

Lemma not_expired_iff ts w t : 0 <= w -> expired ts w t = false <-> ts <= t + w.
Proof. unfold expired, sat_sub. rewrite Z.ltb_ge. lia. Qed.

Lemma push_capped_split {A : Type} cap (x : A) l :
  (length l <= cap)%nat ->
  exists pre, pre ++ push_capped cap x l = l ++ [x] /\
    (pre = [] \/ length (push_capped cap x l) = cap) /\
    (length (push_capped cap x l) <= cap `max` 1)%nat.
Proof.
  intros Hl. unfold push_capped. rewrite length_app. simpl.
  destruct (Nat.ltb_spec cap (length l + 1)) as [Hlt|Hge].
  - destruct l as [|y l]; simpl in *; [exists [x]; simpl; split_and!; [done|right; lia|lia]|].
    exists [y]. rewrite length_app. simpl. split_and!; [done|right; lia|lia].
  - exists []. rewrite length_app. simpl. split_and!; [done|by left|lia].
Qed.

(** ** SlidingCounter *)

(** The counter after recording a history of timestamps, oldest first. *)
Definition counter_run (w : Z) (h : list Z) : SlidingCounter :=
  foldl (fun c ts => (SlidingCounter_record ts w c).2) SlidingCounter_default h.

(** The timestamps of a history that lie in the window ending at [now]. *)
Definition in_window (w now : Z) (h : list Z) : list Z := filter (fun t => now <= t + w) h.

(** The deque is a suffix of the history: what was dropped is out of the
    window, or the deque is at its cap. *)
Definition counter_inv (w : Z) (h : list Z) (now : Z) (c : SlidingCounter) : Prop :=
  exists d, h = d ++ timestamps c /\ (length (timestamps c) <= SLIDING_TIMESTAMPS_CAP)%nat /\
    Forall (fun t => now <= t + w) (timestamps c) /\
    (Forall (fun t => t + w < now) d \/ length (timestamps c) = SLIDING_TIMESTAMPS_CAP).

Lemma counter_inv_record w h now ts c :
  0 <= w -> now <= ts -> StronglySorted Z.le (h ++ [ts]) ->
  counter_inv w h now c -> counter_inv w (h ++ [ts]) ts (SlidingCounter_record ts w c).2.
Proof.
  intros Hw Hts Hs (d & -> & Hlen & Hlive & Hd).
  unfold SlidingCounter_record. simpl.
  destruct (pop_while_split (expired ts w) (timestamps c)) as (pre & Hpre & Hexp & Hhd).
  set (live := pop_while _ _) in *. rewrite Hpre in *. rewrite length_app in *.
  assert (Forall (fun t => ts <= t + w) live) as Hlv.
  { destruct live as [|x r]; [constructor|]. specialize (Hhd x eq_refl).
    apply not_expired_iff in Hhd; [|done].
    rewrite <- !app_assoc in Hs. do 2 apply StronglySorted_app_1_r in Hs. simpl in Hs.
    apply StronglySorted_inv in Hs as [_ Hx]. constructor; [done|].
    eapply Forall_impl; [by apply Forall_app in Hx as [Hx _]|]. simpl. lia. }
  destruct (push_capped_split SLIDING_TIMESTAMPS_CAP ts live) as (q & Hq & Hqc & Hmax); [lia|].
  exists (d ++ pre ++ q). cbn [timestamps]. split_and!.
  - by rewrite <- !app_assoc, Hq.
  - unfold SLIDING_TIMESTAMPS_CAP in *. lia.
  - assert (Forall (fun t => ts <= t + w) (live ++ [ts])) as Hall.
    { apply Forall_app. split; [done|]. constructor; [lia|constructor]. }
    rewrite <- Hq in Hall. by apply Forall_app in Hall as [_ ?].
  - destruct Hqc as [->|Hfull]; [|by right]. rewrite app_nil_r, Forall_app.
    assert (Forall (fun t => t + w < ts) pre) as Hp.
    { eapply Forall_impl; [exact Hexp|]. intros t. by apply expired_iff. }
    destruct Hd as [Hd|Hfull].
    { left. split; [|done]. eapply Forall_impl; [exact Hd|]. simpl. lia. }
    destruct pre as [|y pre].
    { right. simpl in *. rewrite Hq, length_app in Hmax. simpl in Hmax.
      unfold SLIDING_TIMESTAMPS_CAP in *. lia. }
    left. split; [|done]. apply Forall_forall. intros t Ht.
    apply Forall_cons in Hp as [Hy _]. rewrite <- app_assoc in Hs.
    pose proof (StronglySorted_app_1_elem_of Z.le d _ t y Hs Ht) as Hle.
    assert (t <= y) by (apply Hle; set_solver). lia.
Qed.

Lemma counter_run_inv w h ts :
  0 <= w -> StronglySorted Z.le (h ++ [ts]) -> counter_inv w (h ++ [ts]) ts (counter_run w (h ++ [ts])).
Proof.
  intros Hw. revert ts. induction h as [|x h IH] using rev_ind; intros ts Hs.
  - apply (counter_inv_record w [] ts ts); [done|lia|done|]. exists [].
    split_and!; [done|simpl; lia|constructor|by left].
  - unfold counter_run in *. rewrite foldl_app. cbn [foldl].
    apply (counter_inv_record w (h ++ [x]) x ts); [done| |done|].
    + rewrite <- app_assoc in Hs. apply StronglySorted_app_1_r in Hs. simpl in Hs.
      apply StronglySorted_inv in Hs as [_ Hx]. by apply Forall_cons in Hx as [Hx _].
    + apply IH. by apply StronglySorted_app_1_l in Hs.
Qed.

Lemma counter_inv_count w h ts :
  0 <= w -> StronglySorted Z.le (h ++ [ts]) ->
  (SlidingCounter_record ts w (counter_run w h)).1 =
  Z.min 256 (Z.of_nat (length (in_window w ts (h ++ [ts])))).
Proof.
  intros Hw Hs. pose proof (counter_run_inv w h ts Hw Hs) as (d & Heq & Hlen & Hlive & Hd).
  unfold counter_run in *. rewrite foldl_app in *. cbn [foldl] in *.
  set (c := foldl _ _ _) in *.
  change (SlidingCounter_record ts w c).1 with
    (Z.of_nat (length (timestamps (SlidingCounter_record ts w c).2))).
  rewrite Heq. unfold in_window. rewrite filter_app, length_app.
  rewrite (filter_all _ (timestamps _)) by (by apply Forall_forall).
  unfold SLIDING_TIMESTAMPS_CAP in *. destruct Hd as [Hd|Hfull]; [|lia].
  rewrite filter_none; [cbn [length]; lia|]. intros t Ht. rewrite Forall_forall in Hd.
  specialize (Hd t Ht). lia.
Qed.

(**  On timestamps that do not go backwards, [SlidingCounter::record]
    returns exactly the number of recorded occurrences inside the window ending
    at the new one, saturated at the 256 timestamps kept: no in-window
    occurrence is lost at a window boundary. *)
Theorem counter_exact w h ts :
  0 <= w -> StronglySorted Z.le (h ++ [ts]) ->
  (SlidingCounter_record ts w (counter_run w h)).1 =
  Z.min 256 (Z.of_nat (length (in_window w ts (h ++ [ts])))).
Proof. apply counter_inv_count. Qed.

Lemma counter_exact_witness :
  (SlidingCounter_record 31 30 (counter_run 30 [0; 29])).1 = 2.
Proof.
  apply (counter_exact 30 [0; 29] 31); [lia|].
  repeat constructor; lia.
Defined.

(** The times at which a run of [try_alert] calls answered [true]. *)
Fixpoint alert_times (w : Z) (c : SlidingCounter) (h : list Z) : list Z :=
  match h with
  | [] => []
  | ts :: h =>
      let '(fired, c') := SlidingCounter_try_alert ts w c in
      if fired then ts :: alert_times w c' h else alert_times w c' h
  end.

Lemma alert_times_after w c h :
  0 <= w ->
  StronglySorted (fun a b => a + w < b) (alert_times w c h) /\
  (forall t a, last_alert_ns c = Some t -> a ∈ alert_times w c h -> t + w < a).
Proof.
  intros Hw. revert c. induction h as [|ts h IH]; intros c; simpl; [split; [constructor|set_solver]|].
  unfold SlidingCounter_try_alert, alert_in_window.
  destruct (last_alert_ns c) as [t0|] eqn:E.
  - case_bool; simpl.
    { destruct (IH c) as [IHs IHt]. split; [done|]. intros t a [= <-]. by apply IHt. }
    destruct (IH (mkCounter (timestamps c) (Some ts))) as [IHs IHt]. split.
    + constructor; [done|]. apply Forall_forall. intros a Ha. by apply (IHt ts).
    + intros t a [= <-] [->|Ha]%elem_of_cons; [unfold sat_sub in *; lia|].
      pose proof (IHt ts a eq_refl Ha). unfold sat_sub in *. lia.
  - simpl. destruct (IH (mkCounter (timestamps c) (Some ts))) as [IHs IHt].
    split; [|done]. constructor; [done|]. apply Forall_forall. intros a Ha. by apply (IHt ts).
Qed.

(**  One alert per window: whatever the timestamps, out of order ones
    included, two alerts a counter lets through are more than a window apart. *)
Theorem alert_once_per_window w c h :
  0 <= w -> StronglySorted (fun a b => a + w < b) (alert_times w c h).
Proof. intros Hw. by apply alert_times_after. Qed.

Lemma alert_once_per_window_witness :
  alert_times 30 SlidingCounter_default [0; 10; 31; 20; 62] = [0; 31; 62] /\
  StronglySorted (fun a b => a + 30 < b)
    (alert_times 30 SlidingCounter_default [0; 10; 31; 20; 62]).
Proof. split; [reflexivity|]. apply (alert_once_per_window 30). lia. Defined.

(** ** SlidingSum *)

(** A history of writes: (timestamp, bytes), oldest first. *)
Definition bytes (h : list (Z * Z)) : Z := foldr (fun p n => p.2 + n) 0 h.

Definition sum_run (w : Z) (h : list (Z * Z)) : SlidingSum :=
  foldl (fun s p => (SlidingSum_add p.1 p.2 w s).2) SlidingSum_default h.

(** The bytes written in the window of width [w] ending at [now]. *)
Definition window_bytes (w now : Z) (h : list (Z * Z)) : Z :=
  bytes (filter (fun p => now <= p.1 + w) h).

Lemma bytes_app h1 h2 : bytes (h1 ++ h2) = bytes h1 + bytes h2.
Proof. induction h1 as [|p h1 IH]; [done|]. simpl. rewrite IH. lia. Qed.

Lemma bytes_nonneg h : Forall (fun p => 0 <= p.2) h -> 0 <= bytes h.
Proof. induction 1; simpl; lia. Qed.

(** A slot and the writes it coalesces. *)
Record slot_ok (g : list (Z * Z)) (s : Slot) : Prop := {
  slot_writes : g <> [];
  slot_span : Forall (fun p => slot_start s <= p.1 <= slot_end s) g;
  slot_width : slot_end s < slot_start s + SLIDING_SUM_SLOT_NS;
  slot_sum : slot_value s = bytes g;
}.

Definition spaced (a b : Slot) : Prop := slot_start a + SLIDING_SUM_SLOT_NS <= slot_start b.

Lemma slot_order g s : slot_ok g s -> slot_start s <= slot_end s.
Proof.
  intros [Hne Hsp _ _]. destruct g as [|p g]; [done|]. apply Forall_cons in Hsp as [? _]. lia.
Qed.

Section Sum.
Variable w : Z.
Hypothesis Hw : 0 <= w.

Lemma prune_loop_ok ts l t G :
  Forall2 slot_ok G l -> t = bytes (concat G) -> Forall (fun p => 0 <= p.2) (concat G) ->
  exists G1 G2, G = G1 ++ G2 /\
    Forall2 slot_ok G2 (SlidingSum_prune_loop ts w l t).1 /\
    (SlidingSum_prune_loop ts w l t).2 = bytes (concat G2) /\
    Forall (fun p => p.1 + w < ts) (concat G1) /\
    (SlidingSum_prune_loop ts w l t).1 `suffix_of` l /\
    (forall s, head (SlidingSum_prune_loop ts w l t).1 = Some s -> ts <= slot_end s + w).
Proof.
  intros HG. revert t. induction HG as [|g s G l Hg HG IH]; intros t -> Hpos; simpl.
  { exists [], []. split_and!; done. }
  simpl in Hpos. apply Forall_app in Hpos as [Hp1 Hp2]. rewrite bytes_app.
  pose proof (bytes_nonneg _ Hp2) as Hn2. pose proof (bytes_nonneg _ Hp1).
  destruct (expired ts w (slot_end s)) eqn:E.
  - apply expired_iff in E; [|done].
    destruct (IH ((bytes g + bytes (concat G)) -sat slot_value s)) as
      (G1 & G2 & -> & H2 & Ht & Hexp & Hsuf & Hhd); [|done|].
    { rewrite (slot_sum _ _ Hg). unfold sat_sub. lia. }
    exists (g :: G1), G2. split_and!; try done; [|by apply suffix_cons_r].
    simpl. apply Forall_app. split; [|done].
    eapply Forall_impl; [apply (slot_span _ _ Hg)|]. simpl. lia.
  - apply not_expired_iff in E; [|done]. exists [], (g :: G). simpl.
    rewrite bytes_app. split_and!; [done|by constructor|done|constructor|done|naive_solver].
Qed.

(** Coalescing adds one write at the end of the represented history. *)
Lemma coalesce_ok ts v l G :
  Forall2 slot_ok G l -> StronglySorted spaced l ->
  Forall (fun s => slot_end s <= ts) l -> 0 <= v ->
  Forall (fun p => 0 <= p.2) (concat G) -> bytes (concat G) + v <= U64_MAX ->
  exists G', concat G' = concat G ++ [(ts, v)] /\
    Forall2 slot_ok G' (SlidingSum_coalesce ts v l) /\
    StronglySorted spaced (SlidingSum_coalesce ts v l) /\
    (forall s, s ∈ SlidingSum_coalesce ts v l ->
       slot_start s <= ts /\ slot_end s <= ts /\ (s ∈ l \/ slot_end s = ts) /\
       (l <> [] -> exists s', s' ∈ l /\ slot_start s' <= slot_start s)).
Proof.
  assert (Hone : slot_ok [(ts, v)] (mkSlot ts ts v)).
  { split; simpl; [done| |unfold SLIDING_SUM_SLOT_NS; lia|lia].
    apply Forall_singleton. simpl. lia. }
  intros HG Hs Hts Hv. revert Hs Hts.
  induction HG as [|g s G l Hg HG IH]; intros Hs Hts Hpos Hmax.
  { exists [[(ts, v)]]. split_and!; [done|by apply Forall2_cons_2|repeat constructor|].
    simpl. intros s ->%list_elem_of_singleton. simpl. split_and!; [lia|lia|by right|done]. }
  simpl in Hpos, Hmax. rewrite bytes_app in Hmax. apply Forall_app in Hpos as [Hp1 Hp2].
  pose proof (bytes_nonneg _ Hp1). pose proof (bytes_nonneg _ Hp2).
  apply Forall_cons in Hts as [Hse Hts]. pose proof (slot_order _ _ Hg) as Hord.
  apply StronglySorted_inv in Hs as [Hs Hx]. destruct HG as [|g2 s2 G l Hg2 HG].
  - simpl in *. destruct (Z.ltb_spec (ts -sat slot_start s) SLIDING_SUM_SLOT_NS) as [Hlt|Hge];
      unfold sat_sub in *.
    + exists [g ++ [(ts, v)]]. split_and!; [simpl; by rewrite !app_nil_r| |repeat constructor|].
      * constructor; [|constructor]. split; simpl.
        -- by destruct g.
        -- apply Forall_app. split; [|apply Forall_singleton; simpl; lia].
           eapply Forall_impl; [apply (slot_span _ _ Hg)|]. simpl. lia.
        -- lia.
        -- rewrite bytes_app, (slot_sum _ _ Hg). simpl. unfold sat_add. lia.
      * intros s' ->%list_elem_of_singleton. simpl. split_and!; [lia|lia|right; lia|].
        intros _. exists s. split; [set_solver|lia].
    + exists [g; [(ts, v)]]. split_and!; [simpl; by rewrite app_nil_r|by do 2 (apply Forall2_cons_2; [done|])| |].
      * repeat constructor. unfold spaced. simpl. lia.
      * intros s' [->|[->|[]%elem_of_nil]%elem_of_cons]%elem_of_cons; simpl;
          (split_and!; [lia|lia| |intros _; exists s; split; [set_solver|lia]]);
          [left; set_solver|by right].
  - destruct IH as (G' & Hc & H2 & Hsp & Hel); [done|done|done|lia|].
    exists (g :: G'). change (SlidingSum_coalesce ts v (s :: s2 :: l))
      with (s :: SlidingSum_coalesce ts v (s2 :: l)). split_and!.
    + simpl. by rewrite Hc, app_assoc.
    + by constructor.
    + constructor; [done|]. apply Forall_forall. intros s' Hs'.
      destruct (Hel s' Hs') as (_ & _ & _ & Hex). destruct Hex as (s0 & Hs0 & Hle); [done|].
      rewrite Forall_forall in Hx. specialize (Hx s0 Hs0). unfold spaced in *. lia.
    + intros s' [->|Hs']%elem_of_cons.
      { split_and!; [lia|lia|left; set_solver|]. intros _. exists s. split; [set_solver|lia]. }
      destruct (Hel s' Hs') as (? & ? & Hin & Hex). split_and!; [done|done|set_solver|].
      intros _. destruct Hex as (s0 & Hs0 & Hle); [done|]. exists s0. set_solver.
Qed.

(** Spaced slots inside an interval are few. *)
Lemma spaced_length s l hi :
  StronglySorted spaced (s :: l) -> Forall (fun s => slot_start s <= hi) (s :: l) ->
  Z.of_nat (length (s :: l)) * SLIDING_SUM_SLOT_NS <= hi - slot_start s + SLIDING_SUM_SLOT_NS.
Proof.
  revert s. induction l as [|s2 l IH]; intros s Hs Hhi.
  - apply Forall_cons in Hhi as [? _]. simpl. lia.
  - apply StronglySorted_inv in Hs as [Hs Hx]. apply Forall_cons in Hhi as [_ Hhi].
    specialize (IH s2 Hs Hhi). apply Forall_cons in Hx as [Hx _]. unfold spaced in Hx.
    cbn [length] in *. rewrite Nat2Z.inj_succ. lia.
Qed.

(** The state after a history ending at [now]: every slot is live and
    represents a run of writes; what is no longer represented has expired. *)
Record sum_inv (h : list (Z * Z)) (now : Z) (S : SlidingSum) : Prop := {
  si_hist : exists D G, h = D ++ concat G /\ Forall (fun p => p.1 + w < now) D /\
    Forall2 slot_ok G (slots S) /\ total S = bytes (concat G);
  si_spaced : StronglySorted spaced (slots S);
  si_live : Forall (fun s => now <= slot_end s + w /\ slot_end s <= now) (slots S);
}.

Hypothesis Hcap : w <= 254 * SLIDING_SUM_SLOT_NS.

(** Every slot that survives a prune at [ts] is live, not only the front. *)
Lemma live_slots G l ts now :
  Forall2 slot_ok G l -> StronglySorted spaced l ->
  (forall s, head l = Some s -> ts <= slot_end s + w) ->
  Forall (fun s => slot_end s <= now) l -> now <= ts ->
  Forall (fun s => ts <= slot_end s + w /\ slot_end s <= ts) l.
Proof.
  intros HG Hs Hhd Hle Hnow. apply Forall_forall. intros s Hin.
  rewrite Forall_forall in Hle. pose proof (Hle s Hin). split; [|lia].
  destruct HG as [|g s0 G l Hg HG]; [set_solver|]. specialize (Hhd s0 eq_refl).
  apply elem_of_cons in Hin as [->|Hin]; [done|].
  apply StronglySorted_inv in Hs as [_ Hx]. rewrite Forall_forall in Hx.
  specialize (Hx s Hin). unfold spaced in Hx. pose proof (slot_width _ _ Hg).
  apply list_elem_of_lookup in Hin as [i Hi].
  destruct (Forall2_lookup_r _ _ _ _ _ HG Hi) as (g' & _ & Hg').
  pose proof (slot_order _ _ Hg'). lia.
Qed.

Lemma few_slots G l ts :
  Forall2 slot_ok G l -> StronglySorted spaced l ->
  Forall (fun s => ts <= slot_end s + w /\ slot_end s <= ts) l ->
  (length l <= SLIDING_SUM_CAP)%nat.
Proof.
  intros HG Hs Hl. destruct HG as [|g s G l Hg HG]; [simpl; lia|].
  pose proof (spaced_length s l ts Hs) as Hlen.
  apply Forall_cons in Hl as Hl'. destruct Hl' as [[Hlive _] _].
  pose proof (slot_width _ _ Hg) as Hwd. unfold SLIDING_SUM_SLOT_NS, SLIDING_SUM_CAP in *.
  enough (Z.of_nat (length (s :: l)) < 257) by lia.
  assert (Forall (fun s => slot_start s <= ts) (s :: l)) as Hst; [|specialize (Hlen Hst); lia].
  apply Forall_forall. intros s' Hin. rewrite Forall_forall in Hl.
  destruct (Hl s' Hin) as [_ He]. apply list_elem_of_lookup in Hin as [i Hi].
  destruct (Forall2_lookup_r _ (g :: G) (s :: l) i s' ltac:(by constructor) Hi) as (g' & _ & Hg').
  pose proof (slot_order _ _ Hg'). lia.
Qed.

Lemma sum_inv_add h now ts v S :
  sum_inv h now S -> now <= ts -> 0 <= v ->
  Forall (fun p => 0 <= p.2) h -> bytes h + v <= U64_MAX ->
  sum_inv (h ++ [(ts, v)]) ts (SlidingSum_add ts v w S).2 /\
  (SlidingSum_add ts v w S).1 = total (SlidingSum_add ts v w S).2.
Proof.
  intros [(D & G & -> & HD & HG & Ht) Hsp Hlive] Hnow Hv Hpos Hmax.
  apply Forall_app in Hpos as [HpD HpG]. rewrite bytes_app in Hmax.
  pose proof (bytes_nonneg _ HpD) as HnD.
  destruct (prune_loop_ok ts _ _ _ HG Ht HpG) as (G1 & G2 & -> & HG2 & Ht2 & Hexp & Hsuf & Hhd).
  rewrite concat_app, bytes_app in Hmax. rewrite concat_app in HpG.
  apply Forall_app in HpG as [HpG1 HpG2]. pose proof (bytes_nonneg _ HpG1).
  unfold SlidingSum_add, SlidingSum_prune.
  destruct (SlidingSum_prune_loop ts w (slots S) (total S)) as [l t] eqn:El.
  cbn [fst snd slots total] in *. destruct Hsuf as [pre Hsuf]. rewrite Hsuf in *.
  apply StronglySorted_app_1_r in Hsp. apply Forall_app in Hlive as [_ Hlive].
  pose proof (live_slots G2 l ts now HG2 Hsp Hhd) as Hl.
  specialize (Hl ltac:(eapply Forall_impl; [exact Hlive|]; naive_solver) Hnow).
  destruct (coalesce_ok ts v l G2 HG2 Hsp) as (G' & Hc & HG' & Hsp' & Hel);
    [eapply Forall_impl; [exact Hl|]; naive_solver|done|done|lia|].
  assert (Forall (fun s => ts <= slot_end s + w /\ slot_end s <= ts) (SlidingSum_coalesce ts v l)) as Hl'.
  { apply Forall_forall. intros s Hin. destruct (Hel s Hin) as (_ & He & Hor & _).
    split; [|done]. destruct Hor as [Hin'| ->]; [|lia].
    rewrite Forall_forall in Hl. apply (Hl s Hin'). }
  pose proof (few_slots G' _ ts HG' Hsp' Hl') as Hfew.
  pose proof (bytes_nonneg _ HpG2).
  assert (sum_inv ((D ++ concat (G1 ++ G2)) ++ [(ts, v)]) ts
            (mkSum (SlidingSum_coalesce ts v l) (sat_add t v))) as Hinv.
  { split; cbn [slots total]; [|done|done]. exists (D ++ concat G1), G'. split_and!; [| |done|].
    - by rewrite Hc, concat_app, !app_assoc.
    - apply Forall_app. split; [|done]. eapply Forall_impl; [exact HD|]. simpl. lia.
    - rewrite Hc, bytes_app, Ht2. simpl. unfold sat_add. lia. }
  destruct (SlidingSum_coalesce ts v l) as [|front l']; [done|].
  destruct (Nat.ltb_spec SLIDING_SUM_CAP (length (front :: l'))); [lia|done].
Qed.
End Sum.

Lemma window_bytes_app w now h1 h2 :
  window_bytes w now (h1 ++ h2) = window_bytes w now h1 + window_bytes w now h2.
Proof. unfold window_bytes. by rewrite filter_app, bytes_app. Qed.

Lemma window_bytes_bounds w now h :
  Forall (fun p => 0 <= p.2) h -> 0 <= window_bytes w now h <= bytes h.
Proof.
  induction 1 as [|p h Hp Hh IH]; [done|]. unfold window_bytes in *.
  rewrite filter_cons. case_decide; simpl; lia.
Qed.

Lemma sum_run_inv w h ts v :
  0 <= w <= 254 * SLIDING_SUM_SLOT_NS ->
  StronglySorted (fun p q => p.1 <= q.1) (h ++ [(ts, v)]) ->
  Forall (fun p => 0 <= p.2) (h ++ [(ts, v)]) -> bytes (h ++ [(ts, v)]) <= U64_MAX ->
  sum_inv w (h ++ [(ts, v)]) ts (sum_run w (h ++ [(ts, v)])) /\
  (SlidingSum_add ts v w (sum_run w h)).1 = total (sum_run w (h ++ [(ts, v)])).
Proof.
  intros Hw. revert ts v. induction h as [|[t0 v0] h IH] using rev_ind; intros ts v Hs Hp Hm;
    unfold sum_run in *; rewrite foldl_app; cbn [foldl fst snd] in *.
  - apply (sum_inv_add w ltac:(lia) ltac:(lia) [] ts ts v).
    + split; [|constructor|constructor]. exists [], []. by split_and!.
    + lia.
    + apply Forall_inv in Hp. simpl in Hp. lia.
    + constructor.
    + simpl in *. lia.
  - apply Forall_app in Hp as [Hp Hv]. rewrite bytes_app in Hm. simpl in Hm.
    apply Forall_inv in Hv. simpl in Hv.
    apply (sum_inv_add w ltac:(lia) ltac:(lia) (h ++ [(t0, v0)]) t0 ts v); [| |done|done|lia].
    + apply IH; [by apply StronglySorted_app_1_l in Hs|done|lia].
    + rewrite <- app_assoc in Hs. apply StronglySorted_app_1_r in Hs. simpl in Hs.
      apply StronglySorted_inv in Hs as [_ Hx]. by apply Forall_cons in Hx as [Hx _].
Qed.

(**  On timestamps that do not go backwards, the write volume
    [SlidingSum::add] returns is the true in-window byte count up to one 200 ms
    slot: at least the bytes of the last [w] ns and at most those of the last
    [w + 200 ms], for every window up to 254 slots (the 256-slot cap is never
    reached) and however many small writes produced it. *)
Theorem sum_accurate w h ts v :
  0 <= w <= 254 * SLIDING_SUM_SLOT_NS ->
  StronglySorted (fun p q => p.1 <= q.1) (h ++ [(ts, v)]) ->
  Forall (fun p => 0 <= p.2) (h ++ [(ts, v)]) -> bytes (h ++ [(ts, v)]) <= U64_MAX ->
  window_bytes w ts (h ++ [(ts, v)]) <= (SlidingSum_add ts v w (sum_run w h)).1 <=
  window_bytes (w + SLIDING_SUM_SLOT_NS) ts (h ++ [(ts, v)]).
Proof.
  intros Hw Hs Hp Hm. destruct (sum_run_inv w h ts v Hw Hs Hp Hm) as [[Hh _ Hl] ->].
  destruct Hh as (D & G & Heq & HD & HG & ->). rewrite Heq in *.
  apply Forall_app in Hp as [HpD HpG]. rewrite !window_bytes_app.
  pose proof (window_bytes_bounds w ts _ HpG).
  pose proof (window_bytes_bounds (w + SLIDING_SUM_SLOT_NS) ts _ HpD). split.
  - enough (window_bytes w ts D = 0) by lia. unfold window_bytes.
    rewrite filter_none; [done|]. intros p Hin. rewrite Forall_forall in HD.
    specialize (HD p Hin). lia.
  - enough (window_bytes (w + SLIDING_SUM_SLOT_NS) ts (concat G) = bytes (concat G)) by lia.
    unfold window_bytes. f_equal. apply filter_all. intros p Hin.
    apply list_elem_of_In, in_concat in Hin as (g & Hg & Hin).
    apply list_elem_of_In, list_elem_of_lookup in Hg as [i Hi].
    destruct (Forall2_lookup_l _ _ _ _ _ HG Hi) as (s & Hsl & Hok).
    rewrite Forall_forall in Hl. destruct (Hl s) as [Hlive _].
    { apply list_elem_of_lookup. eauto. }
    pose proof (slot_width _ _ Hok). pose proof (slot_span _ _ Hok) as Hsp.
    rewrite Forall_forall in Hsp. specialize (Hsp p ltac:(by apply list_elem_of_In)). lia.
Qed.

Lemma sum_accurate_witness :
  window_bytes 5000000000 5100000000 [(0, 7); (100000000, 5); (5100000000, 3)] = 8 /\
  8 <= (SlidingSum_add 5100000000 3 5000000000
          (sum_run 5000000000 [(0, 7); (100000000, 5)])).1 <= 15.
Proof.
  split; [vm_compute; reflexivity|].
  apply (sum_accurate 5000000000 [(0, 7); (100000000, 5)] 5100000000 3).
  - unfold SLIDING_SUM_SLOT_NS. lia.
  - repeat constructor; simpl; lia.
  - apply (bool_decide_unpack _). vm_compute. exact I.
  - vm_compute. discriminate.
Defined.

(** The slot count over a 5 s window: writes 200 ms apart keep 26 slots. *)
Example sum_slots_five_seconds :
  length (slots (sum_run 5000000000
    ((fun i => (Z.of_nat i * 200000000, 1)) <$> seq 0 26))) = 26%nat.
Proof. vm_compute. reflexivity. Qed.

(** ** SlidingDistinct and FlowPortDedup *)

Section Distinct.
Context {T : Type} `{EqDecision T}.
Implicit Types (h l : list (T * Z)) (w ts : Z).

Definition distinct_run w h : SlidingDistinct T :=
  foldl (fun d e => (SlidingDistinct_record e.1 e.2 w d).2) SlidingDistinct_default h.

(** The reference: keep, of everything seen, the entries still in the window,
    and add a value that is not among them. *)
Definition distinct_ref w l (e : T * Z) : list (T * Z) :=
  let live := filter (fun x => e.2 <= x.2 + w) l in
  if decide (e.1 ∈ live.*1) then live else live ++ [e].

Definition distinct_ref_run w h : list (T * Z) := foldl (distinct_ref w) [] h.

Lemma existsb_keys v l : existsb (fun e => bool_decide (e.1 = v)) l = bool_decide (v ∈ l.*1).
Proof.
  apply eq_iff_eq_true. rewrite bool_decide_eq_true, existsb_exists, list_elem_of_fmap.
  setoid_rewrite <- list_elem_of_In. setoid_rewrite bool_decide_eq_true. naive_solver.
Qed.

Lemma filter_NoDup_keys w ts l : NoDup l.*1 -> NoDup (filter (fun x => ts <= x.2 + w) l).*1.
Proof. intros. eapply sublist_NoDup; [done|]. apply fmap_sublist, sublist_filter. Qed.

(** Reference entries: distinct values, in time order, taken from the history. *)
Lemma distinct_ref_run_ok w h :
  StronglySorted (fun p q => p.2 <= q.2) h ->
  NoDup (distinct_ref_run w h).*1 /\
  StronglySorted (fun p q => p.2 <= q.2) (distinct_ref_run w h) /\
  (forall e, e ∈ distinct_ref_run w h -> e ∈ h).
Proof.
  unfold distinct_ref_run. induction h as [|e h IH] using rev_ind; intros Hs.
  { split_and!; [constructor|constructor|done]. }
  rewrite foldl_app. simpl. set (l := foldl _ _ _) in *.
  destruct (IH (StronglySorted_app_1_l _ _ _ Hs)) as (Hn & Hst & Hin). clear IH.
  assert (forall x, x ∈ filter (fun x => e.2 <= x.2 + w) l -> x ∈ h) as Hf.
  { intros x Hx%list_elem_of_filter. naive_solver. }
  pose proof (filter_NoDup_keys w e.2 l Hn) as Hn'.
  pose proof (StronglySorted_sublist _ _ _ (sublist_filter (fun x => e.2 <= x.2 + w) l) Hst) as Hst'.
  unfold distinct_ref. case_decide as Hd; [set_solver|]. split_and!; [| |set_solver].
  - rewrite fmap_app. apply NoDup_app. split_and!; [done| |apply NoDup_singleton].
    simpl. intros v Hv ->%list_elem_of_singleton. done.
  - apply StronglySorted_app_2; [|done|repeat constructor].
    intros x y Hx ->%list_elem_of_singleton.
    apply (StronglySorted_app_1_elem_of _ h [e] x e Hs); set_solver.
Qed.

Lemma distinct_ref_run_length w h :
  StronglySorted (fun p q => p.2 <= q.2) h ->
  (length (distinct_ref_run w h) <= length (remove_dups h.*1))%nat.
Proof.
  intros Hs. destruct (distinct_ref_run_ok w h Hs) as (Hn & _ & Hin).
  rewrite <- (length_fmap fst). apply submseteq_length, NoDup_submseteq; [done|].
  intros v (e & -> & He)%list_elem_of_fmap. apply elem_of_remove_dups, list_elem_of_fmap.
  eauto.
Qed.

(** One step: popping the expired front is filtering, below the cap. *)
Lemma distinct_record_step w d l u t :
  0 <= w -> StronglySorted (fun p q => p.2 <= q.2) l ->
  (length (distinct_ref w l (u, t)) <= 256)%nat -> dentries d = l ->
  dentries (SlidingDistinct_record u t w d).2 = distinct_ref w l (u, t).
Proof.
  intros Hw Hst Hl <-. unfold SlidingDistinct_record, SlidingDistinct_prune. cbn [dentries snd].
  rewrite existsb_keys, pop_while_filter.
  2: { eapply StronglySorted_impl; [exact Hst|]. simpl. intros x y Hxy.
       rewrite !expired_iff by done. lia. }
  assert (filter (fun x => expired t w x.2 = false) (dentries d) =
          filter (fun x => t <= x.2 + w) (dentries d)) as ->.
  { apply list_filter_iff. intros x. by apply not_expired_iff. }
  unfold distinct_ref in *. cbn [fst snd] in *. case_bool_decide; case_decide; try done.
  unfold push_capped. rewrite length_app in *. simpl in *.
  destruct (Nat.ltb_spec SLIDING_DISTINCT_CAP
    (length (filter (fun x => t <= x.2 + w) (dentries d)) + 1)) as [Hc|]; [|done].
  unfold SLIDING_DISTINCT_CAP in Hc. lia.
Qed.

(**  On timestamps that do not go backwards and histories of at most 256
    distinct values, [SlidingDistinct] keeps exactly the entries of the
    filtering reference: popping the expired front equals filtering, no value
    is counted twice, and the returned count is the number of distinct values
    in the window. *)
Theorem distinct_refines w h v ts :
  0 <= w -> StronglySorted (fun p q => p.2 <= q.2) (h ++ [(v, ts)]) ->
  (length (remove_dups (h ++ [(v, ts)]).*1) <= 256)%nat ->
  dentries (distinct_run w (h ++ [(v, ts)])) = distinct_ref_run w (h ++ [(v, ts)]) /\
  (SlidingDistinct_record v ts w (distinct_run w h)).1 =
    Z.of_nat (length (distinct_ref_run w (h ++ [(v, ts)]))) /\
  NoDup (distinct_ref_run w (h ++ [(v, ts)])).*1.
Proof.
  intros Hw Hs Hlen.
  assert (forall g, StronglySorted (fun p q => p.2 <= q.2) g ->
    (length (remove_dups g.*1) <= 256)%nat ->
    dentries (distinct_run w g) = distinct_ref_run w g) as Hrun.
  { clear Hs Hlen. intros g. induction g as [|[u t] g IH] using rev_ind; intros Hs Hlen; [done|].
    pose proof (distinct_ref_run_length w _ Hs) as Hl.
    pose proof (distinct_ref_run_ok w g (StronglySorted_app_1_l _ _ _ Hs)) as (_ & Hst & _).
    unfold distinct_run, distinct_ref_run in *. rewrite !foldl_app in *. cbn [foldl fst snd] in *.
    apply distinct_record_step; [done|done|lia|].
    apply IH; [by apply StronglySorted_app_1_l in Hs|].
    etrans; [|exact Hlen]. apply submseteq_length, NoDup_submseteq; [apply NoDup_remove_dups|].
    intros x. rewrite !elem_of_remove_dups, fmap_app. set_solver. }
  split_and!; [by apply Hrun| |by apply distinct_ref_run_ok].
  rewrite <- (Hrun _ Hs Hlen). unfold distinct_run. rewrite foldl_app. done.
Qed.
End Distinct.

Lemma distinct_refines_witness :
  (SlidingDistinct_record 7 40 30 (distinct_run 30 [(7, 0); (8, 20); (7, 25)])).1 = 2.
Proof.
  destruct (distinct_refines 30 [(7, 0); (8, 20); (7, 25)] 7 40) as (_ & Hc & _);
    [lia|repeat constructor; simpl; lia|vm_compute; lia|].
  rewrite Hc. vm_compute. reflexivity.
Defined.

(** [FlowPortDedup::is_new] is the membership half of [SlidingDistinct] on ports. *)
Lemma dedup_is_distinct p ts w l a :
  FlowPortDedup_is_new p ts w (mkDedup l) =
  (negb (bool_decide (p ∈ (dentries (SlidingDistinct_prune ts w (mkDistinct l a))).*1)),
   mkDedup (dentries (SlidingDistinct_record p ts w (mkDistinct l a)).2)).
Proof.
  unfold FlowPortDedup_is_new, SlidingDistinct_record, SlidingDistinct_prune. simpl.
  rewrite existsb_keys. set (live := pop_while _ _).
  replace (existsb (fun e : Z * Z => e.1 =? p) live) with (bool_decide (p ∈ live.*1)).
  - by case_bool_decide.
  - rewrite <- existsb_keys. clearbody live. induction live as [|e live IH]; [done|]. simpl.
    rewrite IH. f_equal. apply eq_iff_eq_true. by rewrite bool_decide_eq_true, Z.eqb_eq.
Qed.
