(* ===== verification/Order.v ===== *)
(** * Order: the derived [Ord] of tuples, options and strings

    [TotalCmp] is the interface of Rust's [Ord::cmp]: a three-way comparison
    that is a total order whose [Equal] is equality.  Tuples and options get the
    derived (lexicographic) comparison.  [cmp_sort] is [sort] by that comparison;
    because [Equal] is equality its result depends only on the elements, not on
    the order in which a hash map or a directory listing delivered them. *)
From stdpp Require Import base gmap strings list sorting.
From Stdlib Require Import ZArith Lia OrderedTypeEx.
From S2P Require Import Prelude.

Class TotalCmp (A : Type) := {
  cmp : A -> A -> comparison;
  cmp_eq : forall a b, cmp a b = Eq <-> a = b;
  cmp_opp : forall a b, cmp a b = CompOpp (cmp b a);
  cmp_trans : forall a b c, cmp a b = Lt -> cmp b c = Lt -> cmp a c = Lt }.

Section TotalCmp.
Context {A : Type} `{TotalCmp A}.

Definition cmp_le (a b : A) : Prop := cmp a b <> Gt.
#[global] Instance cmp_le_dec : RelDecision cmp_le.
Proof. intros a b. unfold cmp_le. apply _. Defined.

Lemma cmp_refl a : cmp a a = Eq.
Proof. by apply cmp_eq. Qed.

#[global] Instance cmp_le_total : Total cmp_le.
Proof.
  intros a b. unfold cmp_le. rewrite (cmp_opp b a).
  destruct (cmp a b); simpl; [left|left|right]; done.
Qed.

#[global] Instance cmp_le_trans : Transitive cmp_le.
Proof.
  intros a b c. unfold cmp_le. destruct (cmp a b) eqn:E1; [|..|done]; intros _.
  - apply cmp_eq in E1. by subst.
  - destruct (cmp b c) eqn:E2; [|..|done]; intros _.
    + apply cmp_eq in E2. subst. by rewrite E1.
    + by rewrite (cmp_trans a b c).
Qed.

#[global] Instance cmp_le_antisym : AntiSymm (=) cmp_le.
Proof.
  intros a b. unfold cmp_le. rewrite (cmp_opp b a).
  destruct (cmp a b) eqn:E; simpl; [by intros; apply cmp_eq|done|done].
Qed.

(** [Vec::sort]. *)
Definition cmp_sort (l : list A) : list A := merge_sort cmp_le l.

Lemma cmp_sort_perm l : cmp_sort l ≡ₚ l.
Proof. apply merge_sort_Permutation. Qed.

Lemma cmp_sort_sorted l : StronglySorted cmp_le (cmp_sort l).
Proof. apply (StronglySorted_merge_sort cmp_le). Qed.

(** The sorted vector depends only on the elements. *)
Lemma cmp_sort_unique l l' : l ≡ₚ l' -> cmp_sort l = cmp_sort l'.
Proof.
  intros Hp. apply (StronglySorted_unique cmp_le).
  - apply cmp_sort_sorted.
  - apply cmp_sort_sorted.
  - by rewrite !cmp_sort_perm.
Qed.
End TotalCmp.

#[global] Program Instance Z_cmp : TotalCmp Z := {| cmp := Z.compare |}.
Next Obligation. intros. apply Z.compare_eq_iff. Qed.
Next Obligation. intros. apply Z.compare_antisym. Qed.
Next Obligation. intros a b c. rewrite !Z.compare_lt_iff. lia. Qed.

Lemma Z_cmp_le (a b : Z) : cmp_le a b <-> (a <= b)%Z.
Proof. done. Qed.

#[global] Program Instance string_cmp : TotalCmp string := {| cmp := String_as_OT.cmp |}.
Next Obligation. intros. apply String_as_OT.cmp_eq. Qed.
Next Obligation. intros. apply String_as_OT.cmp_antisym. Qed.
Next Obligation. intros a b c. rewrite !String_as_OT.cmp_lt. apply String_as_OT.lt_trans. Qed.

Definition lex (c d : comparison) : comparison := match c with Eq => d | _ => c end.

#[global] Program Instance prod_cmp {A B} `{TotalCmp A, TotalCmp B} : TotalCmp (A * B) :=
  {| cmp x y := lex (cmp x.1 y.1) (cmp x.2 y.2) |}.
Next Obligation.
  intros A B HA HB [a b] [a' b']. simpl. destruct (cmp a a') eqn:E; simpl.
  - apply cmp_eq in E. subst. rewrite cmp_eq. naive_solver.
  - split; [done|]. intros [= -> ->]. by rewrite cmp_refl in E.
  - split; [done|]. intros [= -> ->]. by rewrite cmp_refl in E.
Qed.
Next Obligation.
  intros A B HA HB [a b] [a' b']. simpl. rewrite (cmp_opp a a').
  destruct (cmp a' a); simpl; [apply cmp_opp|done..].
Qed.
Next Obligation.
  intros A B HA HB [a b] [a' b'] [a'' b'']. simpl.
  destruct (cmp a a') eqn:E1; simpl; [apply cmp_eq in E1; subst| |done].
  - destruct (cmp a' a'') eqn:E2; simpl; [|done..]. apply cmp_trans.
  - intros _. destruct (cmp a' a'') eqn:E2; simpl; [apply cmp_eq in E2; subst|..|done].
    + by rewrite E1.
    + by rewrite (cmp_trans a a' a'').
Qed.

(** [None < Some _]. *)
#[global] Program Instance option_cmp {A} `{TotalCmp A} : TotalCmp (option A) :=
  {| cmp x y := match x, y with
                | None, None => Eq | None, Some _ => Lt
                | Some _, None => Gt | Some a, Some b => cmp a b
                end |}.
Next Obligation. intros A HA [a|] [b|]; rewrite ?cmp_eq; naive_solver. Qed.
Next Obligation. intros A HA [a|] [b|]; try done. apply cmp_opp. Qed.
Next Obligation. intros A HA [a|] [b|] [c|]; try done. apply cmp_trans. Qed.

(** [Vec<T>] and [Path] compare element by element. *)
Fixpoint list_compare {A} `{TotalCmp A} (x y : list A) : comparison :=
  match x, y with
  | [], [] => Eq
  | [], _ :: _ => Lt
  | _ :: _, [] => Gt
  | a :: x, b :: y => lex (cmp a b) (list_compare x y)
  end.

#[global] Program Instance list_cmp {A} `{TotalCmp A} : TotalCmp (list A) := {| cmp := list_compare |}.
Next Obligation.
  intros A HA x. induction x as [|a x IH]; intros [|b y]; try done. simpl. destruct (cmp a b) eqn:E; simpl.
  - apply cmp_eq in E. subst. rewrite IH. naive_solver.
  - split; [done|]. intros [= -> _]. by rewrite cmp_refl in E.
  - split; [done|]. intros [= -> _]. by rewrite cmp_refl in E.
Qed.
Next Obligation.
  intros A HA x. induction x as [|a x IH]; intros [|b y]; try done. simpl. rewrite (cmp_opp a b).
  destruct (cmp b a); simpl; [apply IH|done..].
Qed.
Next Obligation.
  intros A HA x. induction x as [|a x IH]; intros [|b y] [|c z]; try done. simpl.
  destruct (cmp a b) eqn:E1; simpl; [apply cmp_eq in E1; subst| |done].
  - destruct (cmp b c) eqn:E2; simpl; [apply IH|done..].
  - intros _. destruct (cmp b c) eqn:E2; simpl; [apply cmp_eq in E2; subst|..|done].
    + by rewrite E1.
    + by rewrite (cmp_trans a b c).
Qed.
