(* ===== verification/Str.v ===== *)
(** * Str: the [str] operations of the Rust standard library

    The string operations the components use, on byte strings.  A Rust [str]
    is UTF-8: searching for, splitting at or lower-casing ASCII characters works
    on its bytes, because the bytes of a multi-byte character are all at least
    0x80. *)
From stdpp Require Import base gmap strings list.
From Stdlib Require Import ZArith Lia Ascii String.
From Stdlib Require Import Decimal DecimalN DecimalString.
From S2P Require Import Prelude.
#[local] Open Scope string_scope.
#[local] Open Scope nat_scope.
#[local] Arguments String.append !_ _ / : simpl nomatch.

(** [s.starts_with(p)] and [s.strip_prefix(p)]. *)
Fixpoint strip_prefix (p s : string) : option string :=
  match p, s with
  | EmptyString, _ => Some s
  | String a p, String b s => if Ascii.eqb a b then strip_prefix p s else None
  | String _ _, EmptyString => None
  end.

Definition starts_with (p s : string) : bool :=
  match strip_prefix p s with Some _ => true | None => false end.

(** [s.strip_suffix(p)] and [s.ends_with(p)]: the first cut of [s] whose tail is [p]. *)
Fixpoint strip_suffix (p s : string) : option string :=
  if String.eqb s p then Some EmptyString else
  match s with
  | EmptyString => None
  | String a s => String a <$> strip_suffix p s
  end.

Definition ends_with (p s : string) : bool :=
  match strip_suffix p s with Some _ => true | None => false end.

(** [s.contains(p)]. *)
Fixpoint str_contains (p s : string) : bool :=
  starts_with p s || match s with EmptyString => false | String _ s => str_contains p s end.

(** [s.split(c)]: always at least one piece. *)
Fixpoint str_split (c : ascii) (s : string) : list string :=
  match s with
  | EmptyString => [EmptyString]
  | String a s =>
      if Ascii.eqb a c then EmptyString :: str_split c s
      else match str_split c s with
           | [] => [String a EmptyString]
           | p :: ps => String a p :: ps
           end
  end.

(** [s.chars().all(f)] and [s.chars().any(f)] on the bytes. *)
Fixpoint str_all (f : ascii -> bool) (s : string) : bool :=
  match s with EmptyString => true | String a s => f a && str_all f s end.

Definition str_any (f : ascii -> bool) (s : string) : bool := negb (str_all (fun a => negb (f a)) s).

Fixpoint str_map (f : ascii -> ascii) (s : string) : string :=
  match s with EmptyString => EmptyString | String a s => String (f a) (str_map f s) end.

(** [char::to_ascii_lowercase], [is_ascii_digit], [is_ascii_hexdigit], [is_ascii_alphabetic]. *)
Definition ascii_lower (a : ascii) : ascii :=
  let n := nat_of_ascii a in
  if (65 <=? n) && (n <=? 90) then ascii_of_nat (n + 32) else a.

Definition is_digit (a : ascii) : bool :=
  let n := nat_of_ascii a in (48 <=? n) && (n <=? 57).

Definition is_hexdigit (a : ascii) : bool :=
  let n := nat_of_ascii a in
  is_digit a || ((65 <=? n) && (n <=? 70)) || ((97 <=? n) && (n <=? 102)).

Definition is_alpha (a : ascii) : bool :=
  let n := nat_of_ascii a in ((65 <=? n) && (n <=? 90)) || ((97 <=? n) && (n <=? 122)).

Definition to_ascii_lowercase (s : string) : string := str_map ascii_lower s.

Definition eq_ignore_ascii_case (a b : string) : bool :=
  String.eqb (to_ascii_lowercase a) (to_ascii_lowercase b).

Definition str_len (s : string) : Z := Z.of_nat (String.length s).

(** ** Laws *)

Lemma strip_prefix_spec p s r : strip_prefix p s = Some r <-> s = p +:+ r.
Proof.
  revert s. induction p as [|a p IH]; intros s; simpl; [split; congruence|].
  destruct s as [|b s]; [split; congruence|].
  destruct (Ascii.eqb_spec a b) as [->|]; [rewrite IH|]; split; congruence.
Qed.

Lemma starts_with_spec p s : starts_with p s = true <-> exists r, s = p +:+ r.
Proof.
  unfold starts_with. destruct (strip_prefix p s) as [r|] eqn:E.
  - apply strip_prefix_spec in E. split; eauto.
  - split; [done|]. intros [r Hr]. apply strip_prefix_spec in Hr. congruence.
Qed.

Lemma starts_with_app p s : starts_with p (p +:+ s) = true.
Proof. apply starts_with_spec. eauto. Qed.

Lemma str_app_nil_r s : s +:+ EmptyString = s.
Proof. induction s as [|a s IH]; simpl; congruence. Qed.

Lemma str_app_assoc (a b c : string) : (a +:+ b) +:+ c = a +:+ (b +:+ c).
Proof. induction a as [|x a IH]; simpl; congruence. Qed.

Lemma str_app_length a b : String.length (a +:+ b) = String.length a + String.length b.
Proof. induction a as [|x a IH]; simpl; lia. Qed.

Lemma strip_suffix_some p s r : strip_suffix p s = Some r -> s = r +:+ p.
Proof.
  revert r. induction s as [|a s IH]; intros r; cbn [strip_suffix].
  - destruct (String.eqb_spec EmptyString p) as [<-|]; [|done]. by intros [= <-].
  - destruct (String.eqb_spec (String a s) p) as [<-|]; [by intros [= <-]|].
    destruct (strip_suffix p s) as [t|]; simpl; [|done].
    intros [= <-]. simpl. f_equal. by apply IH.
Qed.

Lemma strip_suffix_app p r : strip_suffix p (r +:+ p) = Some r.
Proof.
  induction r as [|a r IH].
  - simpl. destruct p; simpl; by rewrite ?Ascii.eqb_refl, ?String.eqb_refl.
  - change (String a r +:+ p) with (String a (r +:+ p)). cbn [strip_suffix].
    destruct (String.eqb_spec (String a (r +:+ p)) p) as [E|]; [|by rewrite IH].
    exfalso. apply (f_equal String.length) in E. simpl in E. rewrite str_app_length in E. lia.
Qed.

Lemma ends_with_spec p s : ends_with p s = true <-> exists r, s = r +:+ p.
Proof.
  unfold ends_with. destruct (strip_suffix p s) as [r|] eqn:E.
  - apply strip_suffix_some in E. split; eauto.
  - split; [done|]. intros [r ->]. by rewrite strip_suffix_app in E.
Qed.

Lemma str_contains_start p s : starts_with p s = true -> str_contains p s = true.
Proof. intros H. destruct s; cbn [str_contains]; by rewrite H. Qed.

Lemma str_contains_spec p s : str_contains p s = true <-> exists a b, s = a +:+ p +:+ b.
Proof.
  split.
  - induction s as [|c s IH]; simpl.
    + rewrite orb_false_r. intros [r ->]%starts_with_spec. by exists EmptyString, r.
    + intros [[r ->]%starts_with_spec|Hs]%orb_true_iff; [by exists EmptyString, r|].
      destruct (IH Hs) as (a & b & ->). by exists (String c a), b.
  - intros (a & b & ->). induction a as [|c a IH].
    + apply str_contains_start. exact (starts_with_app p b).
    + change (String c a +:+ p +:+ b) with (String c (a +:+ p +:+ b)). simpl.
      by rewrite IH, orb_true_r.
Qed.

Lemma starts_with_refl s : starts_with s s = true.
Proof. apply starts_with_spec. exists EmptyString. by rewrite str_app_nil_r. Qed.

Lemma starts_with_trans a b c : starts_with a b = true -> starts_with b c = true -> starts_with a c = true.
Proof. rewrite !starts_with_spec. intros [r ->] [r' ->]. exists (r +:+ r')%string. by rewrite str_app_assoc. Qed.

(** Two prefixes of one string are comparable. *)
Lemma starts_with_comparable a b s :
  starts_with a s = true -> starts_with b s = true -> starts_with a b = true \/ starts_with b a = true.
Proof.
  revert b s. induction a as [|x a IH]; intros b s; [by left|].
  destruct b as [|y b]; [by right|]. destruct s as [|z s]; [done|]. unfold starts_with in *. simpl.
  destruct (Ascii.eqb_spec x z) as [->|]; [|done]. destruct (Ascii.eqb_spec y z) as [->|]; [|done].
  rewrite Ascii.eqb_refl. apply IH.
Qed.

(** The strings a given one starts with. *)
Fixpoint prefixes (s : string) : list string :=
  EmptyString :: match s with EmptyString => [] | String a s => String a <$> prefixes s end.

Lemma elem_of_prefixes p s : starts_with p s = true -> p ∈ prefixes s.
Proof.
  revert p. induction s as [|a s IH]; intros [|b p]; simpl; try (intros; by left); [done|].
  unfold starts_with. simpl. destruct (Ascii.eqb_spec b a) as [->|]; [|done]. intros H. right.
  apply list_elem_of_fmap. exists p. split; [done|]. by apply IH.
Qed.

Lemma str_all_app f a b : str_all f (a +:+ b) = str_all f a && str_all f b.
Proof. induction a as [|c a IH]; simpl; [done|]. by rewrite IH, andb_assoc. Qed.

(** Splitting after a piece free of the separator. *)
Lemma str_split_piece c t s :
  str_all (fun a => negb (Ascii.eqb a c)) t = true ->
  str_split c (t +:+ String c s) = t :: str_split c s.
Proof.
  induction t as [|a t IH]; simpl; [by rewrite Ascii.eqb_refl|].
  intros [Ha Ht]%andb_true_iff. destruct (Ascii.eqb a c); [done|].
  by rewrite (IH Ht).
Qed.

Lemma str_split_nosep c t :
  str_all (fun a => negb (Ascii.eqb a c)) t = true -> str_split c t = [t].
Proof.
  induction t as [|a t IH]; simpl; [done|].
  intros [Ha Ht]%andb_true_iff. destruct (Ascii.eqb a c); [done|]. by rewrite (IH Ht).
Qed.

Lemma str_split_ne c s : str_split c s <> [].
Proof. destruct s; simpl; [done|]. destruct (Ascii.eqb _ _); [done|]. by destruct (str_split c s). Qed.

Lemma str_map_length f s : String.length (str_map f s) = String.length s.
Proof. induction s; simpl; lia. Qed.

(** ** Decimal numbers *)

(** [format!("{n}")] on an unsigned integer. *)
Definition show_u64 (z : Z) : string := NilEmpty.string_of_uint (N.to_uint (Z.to_N z)).

(** [str::parse::<u64>]: an optional [+], at least one digit, no overflow. *)
Definition parse_u64 (s : string) : option Z :=
  let digits := match strip_prefix "+" s with Some r => r | None => s end in
  if negb (String.eqb digits EmptyString) && str_all is_digit digits then
    match NilEmpty.uint_of_string digits with
    | Some d => let z := Z.of_N (N.of_uint d) in if (z <=? U64_MAX)%Z then Some z else None
    | None => None
    end
  else None.

(** [parse::<T>().ok()] for an unsigned integer type up to [hi]. *)
Definition parse_upto (hi : Z) (s : string) : option Z :=
  z ← parse_u64 s; if (z <=? hi)%Z then Some z else None.

Lemma string_of_uint_digits d : str_all is_digit (NilEmpty.string_of_uint d) = true.
Proof. induction d; simpl; try done. Qed.

Lemma to_uint_nonnil n : N.to_uint n <> Nil.
Proof.
  intros H. pose proof (DecimalN.Unsigned.of_to n) as E. rewrite H in E. simpl in E. subst n.
  vm_compute in H. done.
Qed.

Lemma parse_show z : (0 <= z <= U64_MAX)%Z -> parse_u64 (show_u64 z) = Some z.
Proof.
  intros Hz. unfold parse_u64, show_u64. set (d := N.to_uint (Z.to_N z)).
  pose proof (to_uint_nonnil (Z.to_N z)) as Hn. fold d in Hn.
  assert (strip_prefix "+" (NilEmpty.string_of_uint d) = None) as -> by (by destruct d).
  rewrite string_of_uint_digits.
  assert (String.eqb (NilEmpty.string_of_uint d) EmptyString = false) as -> by (by destruct d).
  rewrite NilEmpty.usu. simpl. unfold d. rewrite DecimalN.Unsigned.of_to, Z2N.id by lia.
  destruct (Z.leb_spec z U64_MAX); [done|lia].
Qed.

Lemma show_u64_inj a b :
  (0 <= a <= U64_MAX)%Z -> (0 <= b <= U64_MAX)%Z -> show_u64 a = show_u64 b -> a = b.
Proof. intros Ha Hb E. apply parse_show in Ha, Hb. congruence. Qed.

Lemma parse_u64_bound s z : parse_u64 s = Some z -> (0 <= z <= U64_MAX)%Z.
Proof.
  unfold parse_u64. destruct (_ && _); [|done]. destruct (NilEmpty.uint_of_string _); [|done].
  destruct (Z.leb_spec (Z.of_N (N.of_uint u)) U64_MAX); [|done]. intros [= <-]. lia.
Qed.
