(* ===== verification/Text.v ===== *)
(** * Text: the [str] operations that work on characters

    A character of a Rust string is kept as its UTF-8 bytes, a [string] of one to
    four bytes.  White space is Unicode's [White_Space]; the operations that need
    larger tables (lower case, alphanumeric) take the non-ASCII part as an
    argument where they are used. *)
From stdpp Require Import base gmap strings list.
From Stdlib Require Import ZArith Lia Ascii.
From Stdlib Require String.
From S2P Require Import Prelude Str.

(** Concatenation of the pieces of a format string. *)
Definition cat (ss : list string) : string := foldr (fun a b => (a +:+ b)%string) EmptyString ss.

(** [s.chars()]: a character starts at every byte that is not a continuation. *)
Definition starts_char (a : ascii) : bool :=
  let n := nat_of_ascii a in (n <? 128)%nat || (192 <=? n)%nat.
Fixpoint str_chars (s : string) : list string :=
  match s with
  | EmptyString => []
  | String a s =>
      match str_chars s, s with
      | c :: cs, String b _ => if starts_char b then String a EmptyString :: c :: cs else String a c :: cs
      | _, _ => [String a EmptyString]
      end
  end.

(** The bytes of a character as numbers. *)
Fixpoint char_bytes (c : string) : list nat :=
  match c with EmptyString => [] | String a c => nat_of_ascii a :: char_bytes c end.

Definition is_ascii_char (c : string) : bool :=
  match char_bytes c with [n] => (n <? 128)%nat | _ => false end.

(** [char::is_whitespace]. *)
Definition char_is_whitespace (c : string) : bool :=
  match char_bytes c with
  | [n] => ((9 <=? n) && (n <=? 13) || (n =? 32))%nat
  | [194; n] => ((n =? 133) || (n =? 160))%nat
  | [225; 154; 128] => true
  | [226; 128; n] =>
      ((128 <=? n) && (n <=? 138) || (n =? 168) || (n =? 169) || (n =? 175))%nat
  | [226; 129; 159] => true
  | [227; 128; 128] => true
  | _ => false
  end%nat.

(** [trim_start_matches], [trim_end_matches], [trim]. *)
Fixpoint drop_chars (f : string -> bool) (cs : list string) : list string :=
  match cs with [] => [] | c :: cs' => if f c then drop_chars f cs' else cs end.
Definition trim_start_matches (f : string -> bool) (s : string) : string := cat (drop_chars f (str_chars s)).
Definition trim_end_matches (f : string -> bool) (s : string) : string :=
  cat (rev (drop_chars f (rev (str_chars s)))).
Definition trim_start : string -> string := trim_start_matches char_is_whitespace.
Definition trim_end : string -> string := trim_end_matches char_is_whitespace.
Definition trim (s : string) : string := trim_start (trim_end s).

(** [s.split(|c| ..)]: always at least one piece. *)
Fixpoint split_chars (f : string -> bool) (cs : list string) : list (list string) :=
  match cs with
  | [] => [[]]
  | c :: cs =>
      if f c then [] :: split_chars f cs
      else match split_chars f cs with [] => [[c]] | p :: ps => (c :: p) :: ps end
  end.
Definition split_matches (f : string -> bool) (s : string) : list string := cat <$> split_chars f (str_chars s).

Definition str_is_empty (s : string) : bool := String.eqb s EmptyString.

(** [split_whitespace]. *)
Definition split_whitespace (s : string) : list string :=
  List.filter (fun w => negb (str_is_empty w)) (split_matches char_is_whitespace s).

(** [str::lines]: an unterminated last line counts when it is not empty, and only
    a terminated line loses its carriage return. *)
Definition newline : ascii := ascii_of_nat 10.
Definition carriage_return : string := String (ascii_of_nat 13) EmptyString.
Definition strip_cr_str (s : string) : string := default s (strip_suffix carriage_return s).
Definition str_lines (s : string) : list string :=
  let ps := str_split newline s in
  (strip_cr_str <$> removelast ps)
  ++ match last ps with Some l => if str_is_empty l then [] else [l] | None => [] end.

(** [s.split_once(p)]: around the first [p]. *)
Fixpoint split_once (p s : string) : option (string * string) :=
  match strip_prefix p s with
  | Some rest => Some (EmptyString, rest)
  | None => match s with
            | EmptyString => None
            | String a s => (fun ab => (String a ab.1, ab.2)) <$> split_once p s
            end
  end.

(** [s.rsplit_once(f)]: around the last byte that satisfies [f]. *)
Fixpoint rsplit_byte (f : ascii -> bool) (s : string) : option (string * string) :=
  match s with
  | EmptyString => None
  | String a s =>
      match rsplit_byte f s with
      | Some (x, y) => Some (String a x, y)
      | None => if f a then Some (EmptyString, s) else None
      end
  end.

Definition slash : ascii := "/"%char.
Definition is_slash (a : ascii) : bool := Ascii.eqb a slash.
Definition backslash_char : ascii := ascii_of_nat 92.
Definition is_sep (a : ascii) : bool := is_slash a || Ascii.eqb a backslash_char.

(** [s.contains(x)] for a membership test in a constant list. *)
Definition one_of (xs : list string) (s : string) : bool := existsb (String.eqb s) xs.
(** [xs.iter().any(|x| s.eq_ignore_ascii_case(x))]. *)
Definition one_of_nocase (xs : list string) (s : string) : bool := existsb (eq_ignore_ascii_case s) xs.

(** ** Laws *)

Lemma str_all_spec f s : str_all f s = true <-> forall a x y, s = (x +:+ String a y)%string -> f a = true.
Proof.
  split.
  - intros H a x y ->. rewrite str_all_app in H. apply andb_true_iff in H as [_ H]. simpl in H.
    by apply andb_true_iff in H as [H _].
  - induction s as [|b s IH]; [done|]. intros H. simpl. apply andb_true_iff. split; [by apply (H b EmptyString s)|].
    apply IH. intros a x y ->. by apply (H a (String b x) y).
Qed.

Lemma rsplit_byte_some f s x y :
  rsplit_byte f s = Some (x, y) ->
  exists a, s = (x +:+ String a y)%string /\ f a = true /\ str_all (fun a => negb (f a)) y = true.
Proof.
  revert x. induction s as [|a s IH]; intros x; [done|]. simpl.
  assert (rsplit_byte f s = None -> str_all (fun a => negb (f a)) s = true) as Hn.
  { clear IH. induction s as [|b s IH]; [done|]. simpl. destruct (rsplit_byte f s) as [[]|]; [done|].
    destruct (f b); [done|]. intros _. by apply IH. }
  destruct (rsplit_byte f s) as [[x' y']|].
  - intros [= <- <-]. destruct (IH x' eq_refl) as (b & -> & H). by exists b.
  - destruct (f a) eqn:E; [|done]. intros [= <- <-]. exists a. split_and!; [done|done|by apply Hn].
Qed.

Lemma rsplit_byte_none f s : rsplit_byte f s = None <-> str_all (fun a => negb (f a)) s = true.
Proof.
  induction s as [|a s IH]; [done|]. simpl. destruct (rsplit_byte f s) as [[x y]|].
  - split; [done|]. rewrite andb_true_iff. intros [_ H]. by apply IH in H.
  - destruct (f a); simpl; [done|]. rewrite <- IH. done.
Qed.

Lemma rsplit_byte_app f a c b :
  f c = true -> str_all (fun a => negb (f a)) b = true -> rsplit_byte f (a +:+ String c b)%string = Some (a, b).
Proof.
  intros Hc Hb. induction a as [|d a IH]; simpl; [by rewrite (proj2 (rsplit_byte_none f b) Hb), Hc|by rewrite IH].
Qed.
