(* ===== verification/Scan.v ===== *)
(** * Scan: the [str] operations of the line parsers

    Finding, cutting, trimming and replacing on the bytes of a string.  A search for
    or a cut at an ASCII byte is always at a character boundary; the one place
    where the code cuts at an arbitrary byte looks for the boundary first. *)
From stdpp Require Import base gmap strings list.
From Stdlib Require Import ZArith Lia Ascii.
From Stdlib Require String.
From S2P Require Import Prelude Str Text.
#[local] Open Scope nat_scope.
#[local] Arguments String.append !_ _ / : simpl nomatch.

(** [&s[..n]] and [&s[n..]]. *)
Fixpoint str_take (n : nat) (s : string) : string :=
  match n, s with S n, String a s => String a (str_take n s) | _, _ => EmptyString end.
Fixpoint str_drop (n : nat) (s : string) : string :=
  match n, s with S n, String _ s => str_drop n s | _, _ => s end.

(** [s.is_char_boundary(n)], for [n] up to the length. *)
Definition is_char_boundary (s : string) (n : nat) : bool :=
  match n, str_drop n s with O, _ => true | _, EmptyString => true | _, String a _ => starts_char a end.
(** [while !s.is_char_boundary(end) { end -= 1; }]. *)
Fixpoint floor_boundary (s : string) (n : nat) : nat :=
  if is_char_boundary s n then n else match n with O => O | S n => floor_boundary s n end.

(** [s.trim_start_matches(c)] and [s.trim_end_matches(cs)] for ASCII characters. *)
Fixpoint trim_start_byte (f : ascii -> bool) (s : string) : string :=
  match s with String a t => if f a then trim_start_byte f t else s | EmptyString => EmptyString end.
Fixpoint trim_end_byte (f : ascii -> bool) (s : string) : string :=
  match s with
  | EmptyString => EmptyString
  | String a t => match trim_end_byte f t with
                  | EmptyString => if f a then EmptyString else String a EmptyString
                  | u => String a u
                  end
  end.

(** [s.split_at(s.find(f).unwrap_or(s.len()))]. *)
Fixpoint break_byte (f : ascii -> bool) (s : string) : string * string :=
  match s with
  | EmptyString => (EmptyString, EmptyString)
  | String a t => if f a then (EmptyString, s) else let '(x, y) := break_byte f t in (String a x, y)
  end.

(** [s.rsplit_once(p)]: around the last [p]. *)
Fixpoint rsplit_once (p s : string) : option (string * string) :=
  match s with
  | EmptyString => if String.eqb p EmptyString then Some (EmptyString, EmptyString) else None
  | String a t =>
      match rsplit_once p t with
      | Some (x, y) => Some (String a x, y)
      | None => (fun r => (EmptyString, r)) <$> strip_prefix p s
      end
  end.

(** [s.split(p).next().unwrap()]. *)
Definition before_first (p s : string) : string := match split_once p s with Some (x, _) => x | None => s end.

(** [s.replace(p, r)] for a non-empty [p]; [skip] bytes belong to the last match. *)
Fixpoint replace_from (p r : string) (skip : nat) (s : string) : string :=
  match s with
  | EmptyString => EmptyString
  | String a t =>
      match skip with
      | S skip => replace_from p r skip t
      | O => if starts_with p s then (r +:+ replace_from p r (String.length p - 1) t)%string
             else String a (replace_from p r 0 t)
      end
  end.
Definition str_replace (p r s : string) : string := replace_from p r 0 s.

Definition space : ascii := " "%char.
Definition is_space (a : ascii) : bool := Ascii.eqb a space.
Definition quote : ascii := ascii_of_nat 34.
Definition not_byte (c a : ascii) : bool := negb (Ascii.eqb a c).

(** ** Laws *)

(** The separator found first, when nothing before it starts with its first byte. *)
Lemma split_once_first c p x y :
  str_all (not_byte c) x = true -> split_once (String c p) (x +:+ String c p +:+ y) = Some (x, y).
Proof.
  induction x as [|a x IH]; intros Hx.
  - change (EmptyString +:+ String c p +:+ y)%string with (String c (p +:+ y)).
    assert (strip_prefix (String c p) (String c (p +:+ y)) = Some y) as E by (by apply strip_prefix_spec).
    destruct p; cbn [split_once]; by rewrite E.
  - simpl in Hx. apply andb_true_iff in Hx as [Ha Hx].
    change (String a x +:+ String c p +:+ y)%string with (String a (x +:+ String c p +:+ y)).
    cbn [split_once strip_prefix]. unfold not_byte in Ha. rewrite Ascii.eqb_sym. destruct (Ascii.eqb a c); [done|].
    by rewrite IH.
Qed.

Lemma split_once_none c p s : str_all (not_byte c) s = true -> split_once (String c p) s = None.
Proof.
  induction s as [|a s IH]; [done|]. simpl. intros [Ha Hs]%andb_true_iff.
  unfold not_byte in Ha. rewrite Ascii.eqb_sym. destruct (Ascii.eqb a c); [done|]. by rewrite IH.
Qed.

Lemma split_once_some p s x y : split_once p s = Some (x, y) -> s = (x +:+ p +:+ y)%string.
Proof.
  revert x. induction s as [|a s IH]; intros x; cbn [split_once].
  - destruct (strip_prefix p EmptyString) as [r|] eqn:E; [|done]. intros [= <- <-]. by apply strip_prefix_spec in E.
  - destruct (strip_prefix p (String a s)) as [r|] eqn:E; [intros [= <- <-]; by apply strip_prefix_spec in E|].
    destruct (split_once p s) as [[u v]|]; [|done]. intros [= <- <-]. simpl. f_equal. by apply IH.
Qed.

Lemma break_byte_app f x y :
  str_all (fun a => negb (f a)) x = true ->
  (match y with EmptyString => true | String a _ => f a end) = true -> break_byte f (x +:+ y) = (x, y).
Proof.
  intros Hx Hy. induction x as [|a x IH]; simpl in *.
  - destruct y as [|a y]; simpl; [done|]. by rewrite Hy.
  - apply andb_true_iff in Hx as [Ha Hx]. destruct (f a); [done|]. by rewrite (IH Hx).
Qed.

Lemma break_byte_concat f s : let '(x, y) := break_byte f s in s = (x +:+ y)%string.
Proof. induction s as [|a s IH]; simpl; [done|]. destruct (f a); [done|]. destruct (break_byte f s). simpl. congruence. Qed.

(** The last [p] of [x ++ p ++ y], when [p] does not occur in [tail p ++ y]. *)
Lemma rsplit_once_none p s : str_contains p s = false -> rsplit_once p s = None.
Proof.
  induction s as [|a s IH].
  - simpl. rewrite orb_false_r. destruct p; [done|]. done.
  - cbn [str_contains rsplit_once]. intros [H1 H2]%orb_false_iff. rewrite (IH H2).
    unfold starts_with in H1. by destruct (strip_prefix p (String a s)).
Qed.

Lemma rsplit_once_last c p x y :
  str_contains (String c p) (p +:+ y) = false -> rsplit_once (String c p) (x +:+ String c p +:+ y) = Some (x, y).
Proof.
  intros Hn. induction x as [|a x IH].
  - change (EmptyString +:+ String c p +:+ y)%string with (String c (p +:+ y)). cbn [rsplit_once].
    rewrite rsplit_once_none by done.
    assert (strip_prefix (String c p) (String c (p +:+ y)) = Some y) as -> by (by apply strip_prefix_spec). done.
  - change (String a x +:+ String c p +:+ y)%string with (String a (x +:+ String c p +:+ y)).
    cbn [rsplit_once]. by rewrite IH.
Qed.

(** A trailing byte that stays. *)
Lemma trim_end_byte_keeps f s a : f a = false -> trim_end_byte f (s +:+ String a EmptyString) = (s +:+ String a EmptyString)%string.
Proof. intros Ha. induction s as [|b s IH]; simpl; [by rewrite Ha|]. rewrite IH. by destruct s. Qed.

Lemma trim_start_byte_keeps f a s : f a = false -> trim_start_byte f (String a s) = String a s.
Proof. intros Ha. simpl. by rewrite Ha. Qed.

Lemma trim_start_byte_app f x y : str_all f x = true -> trim_start_byte f (x +:+ y) = trim_start_byte f y.
Proof. induction x as [|a x IH]; simpl; [done|]. intros [-> Hx]%andb_true_iff. by apply IH. Qed.

Lemma trim_start_byte_length f s : String.length (trim_start_byte f s) <= String.length s.
Proof. induction s as [|a s IH]; simpl; [done|]. destruct (f a); simpl; lia. Qed.

Lemma str_take_length n s : String.length (str_take n s) = Nat.min n (String.length s).
Proof. revert n. induction s as [|a s IH]; intros [|n]; simpl; try done. by rewrite IH. Qed.

Lemma str_take_drop n s : (str_take n s +:+ str_drop n s)%string = s.
Proof. revert n. induction s as [|a s IH]; intros [|n]; simpl; try done. by rewrite IH. Qed.

Lemma floor_boundary_le s n : floor_boundary s n <= n.
Proof. induction n as [|n IH]; cbn [floor_boundary]; [done|]. destruct (is_char_boundary s (S n)); lia. Qed.

Lemma str_all_impl (f g : ascii -> bool) s :
  (forall a, f a = true -> g a = true) -> str_all f s = true -> str_all g s = true.
Proof. intros Hfg. induction s as [|a s IH]; simpl; [done|]. intros [Ha Hs]%andb_true_iff. by rewrite Hfg, IH. Qed.

Lemma show_digits z : str_all is_digit (show_u64 z) = true.
Proof. apply string_of_uint_digits. Qed.

(** What is not a digit does not occur in a number. *)
Lemma digits_free c s : is_digit c = false -> str_all is_digit s = true -> str_all (not_byte c) s = true.
Proof.
  intros Hc. apply str_all_impl. intros a Ha. unfold not_byte. destruct (Ascii.eqb_spec a c) as [->|]; [congruence|done].
Qed.

Lemma show_free c z : is_digit c = false -> str_all (not_byte c) (show_u64 z) = true.
Proof. intros Hc. apply digits_free; [done|]. apply show_digits. Qed.

Lemma show_nonempty z : show_u64 z <> EmptyString.
Proof.
  unfold show_u64. pose proof (to_uint_nonnil (Z.to_N z)). by destruct (N.to_uint (Z.to_N z)).
Qed.

(** ** Words of ASCII text *)

(** ASCII text, and words of it: printable and without white space. *)
Definition ascii_byte (a : ascii) : bool := (nat_of_ascii a <? 128)%nat.
Definition word_byte (a : ascii) : bool := let n := nat_of_ascii a in (33 <=? n)%nat && (n <=? 126)%nat.

Lemma word_bytes a :
  word_byte a = true -> ascii_byte a = true /\ char_is_whitespace (String a EmptyString) = false.
Proof. destruct a as [[] [] [] [] [] [] [] []]; vm_compute; done. Qed.

Lemma str_chars_ascii s : str_all ascii_byte s = true -> str_chars s = (fun a => String a EmptyString) <$> String.list_ascii_of_string s.
Proof.
  induction s as [|a s IH]; [done|]. cbn [str_all]. intros [Ha Hs]%andb_true_iff. specialize (IH Hs).
  cbn [str_chars String.list_ascii_of_string fmap list_fmap]. rewrite IH. destruct s as [|b s]; [done|].
  cbn [String.list_ascii_of_string fmap list_fmap]. cbn [str_all] in Hs. apply andb_true_iff in Hs as [Hb _].
  unfold starts_char. unfold ascii_byte in Hb. by rewrite Hb.
Qed.

Lemma list_ascii_app a b : String.list_ascii_of_string (a +:+ b) = String.list_ascii_of_string a ++ String.list_ascii_of_string b.
Proof. induction a as [|c a IH]; [done|]. change (String c a +:+ b) with (String c (a +:+ b)). cbn. by rewrite IH. Qed.

Lemma cat_singles l : cat ((fun a => String a EmptyString) <$> l) = String.string_of_list_ascii l.
Proof. induction l as [|a l IH]; [done|]. cbn [fmap list_fmap cat foldr]. cbn in *. by rewrite <- IH. Qed.

(** A blank and a newline. *)
Definition is_blank_byte (a : ascii) : bool := Ascii.eqb a " " || Ascii.eqb a newline.

Lemma blank_bytes a :
  is_blank_byte a = true -> ascii_byte a = true /\ char_is_whitespace (String a EmptyString) = true.
Proof. unfold is_blank_byte. intros [->%Ascii.eqb_eq| ->%Ascii.eqb_eq]%orb_true_iff; vm_compute; done. Qed.

Lemma split_chars_word w c rest :
  str_all word_byte w = true -> is_blank_byte c = true ->
  split_chars char_is_whitespace (((fun a => String a EmptyString) <$> String.list_ascii_of_string w) ++ String c EmptyString :: rest)
  = ((fun a => String a EmptyString) <$> String.list_ascii_of_string w) :: split_chars char_is_whitespace rest.
Proof.
  intros Hw Hc. induction w as [|a w IH]; cbn [String.list_ascii_of_string fmap list_fmap app split_chars].
  - by destruct (blank_bytes c Hc) as [_ ->].
  - cbn [str_all] in Hw. apply andb_true_iff in Hw as [Ha Hw]. destruct (word_bytes a Ha) as [_ ->]. by rewrite IH.
Qed.

Lemma word_ascii w : str_all word_byte w = true -> str_all ascii_byte w = true.
Proof.
  induction w as [|a w IH]; [done|]. cbn [str_all]. intros [Ha Hw]%andb_true_iff. destruct (word_bytes a Ha) as [-> _].
  by rewrite IH.
Qed.

(** A word up to white space is the first field; leading white space does not count. *)
Lemma split_word w c rest :
  str_all word_byte w = true -> w <> EmptyString -> is_blank_byte c = true -> str_all ascii_byte rest = true ->
  split_whitespace (w +:+ String c rest) = w :: split_whitespace rest.
Proof.
  intros Hw Hne Hc Hr. unfold split_whitespace, split_matches.
  assert (Ha : str_all ascii_byte (w +:+ String c rest) = true).
  { rewrite str_all_app, word_ascii by done. cbn [str_all]. destruct (blank_bytes c Hc) as [-> _]. by rewrite Hr. }
  rewrite (str_chars_ascii _ Ha), (str_chars_ascii _ Hr), list_ascii_app, fmap_app.
  cbn [String.list_ascii_of_string fmap list_fmap]. rewrite split_chars_word by done. cbn [fmap list_fmap List.filter].
  rewrite cat_singles, String.string_of_list_ascii_of_string. by destruct w.
Qed.

Lemma split_leading_blank c rest :
  is_blank_byte c = true -> str_all ascii_byte rest = true -> split_whitespace (String c rest) = split_whitespace rest.
Proof.
  intros Hc Hr. unfold split_whitespace, split_matches. destruct (blank_bytes c Hc) as [Ha Hw].
  rewrite (str_chars_ascii (String c rest)) by (cbn [str_all]; by rewrite Ha, Hr). rewrite (str_chars_ascii _ Hr).
  cbn [String.list_ascii_of_string fmap list_fmap split_chars]. by rewrite Hw.
Qed.

Lemma split_last_word w : str_all word_byte w = true -> w <> EmptyString -> split_whitespace w = [w].
Proof.
  intros Hw Hne. unfold split_whitespace, split_matches. rewrite str_chars_ascii by (by apply word_ascii).
  assert (split_chars char_is_whitespace ((fun a => String a EmptyString) <$> String.list_ascii_of_string w)
          = [(fun a => String a EmptyString) <$> String.list_ascii_of_string w]) as ->.
  { clear Hne. induction w as [|a w IH]; [done|]. cbn [str_all] in Hw. apply andb_true_iff in Hw as [Ha Hw].
    cbn [String.list_ascii_of_string fmap list_fmap split_chars]. destruct (word_bytes a Ha) as [_ ->]. by rewrite IH. }
  cbn [fmap list_fmap List.filter]. rewrite cat_singles, String.string_of_list_ascii_of_string. by destruct w.
Qed.

Lemma show_word_byte z : str_all word_byte (show_u64 z) = true.
Proof. eapply str_all_impl; [|exact (show_digits z)]. intros a. destruct a as [[] [] [] [] [] [] [] []]; vm_compute; done. Qed.

(** ** Markers in pieces of text *)

Lemma split_once_skip c p x y :
  str_all (not_byte c) x = true ->
  split_once (String c p) (x +:+ y) = (fun ab => (x +:+ ab.1, ab.2)) <$> split_once (String c p) y.
Proof.
  induction x as [|a x IH]; intros Hx.
  - change (EmptyString +:+ y) with y. by destruct (split_once (String c p) y) as [[u v]|].
  - simpl in Hx. apply andb_true_iff in Hx as [Ha Hx].
    change (String a x +:+ y) with (String a (x +:+ y)). cbn [split_once strip_prefix].
    unfold not_byte in Ha. rewrite Ascii.eqb_sym. destruct (Ascii.eqb a c); [done|].
    rewrite (IH Hx). by destruct (split_once (String c p) y) as [[u v]|].
Qed.

Lemma split_once_length p s x y : split_once p s = Some (x, y) -> String.length s = (String.length x + String.length p + String.length y)%nat.
Proof. intros ->%split_once_some. rewrite !str_app_length. lia. Qed.

(** A match of a pattern whose first byte does not come back cannot straddle. *)
Lemma strip_prefix_straddle c p a x y :
  str_all (not_byte c) p = true -> starts_with (String c p) (String a x +:+ String c y) = true ->
  starts_with (String c p) (String a x) = true.
Proof.
  unfold starts_with. change (String a x +:+ String c y) with (String a (x +:+ String c y)).
  cbn [strip_prefix]. destruct (Ascii.eqb c a); [|done].
  revert x. induction p as [|d p IH]; intros x Hp; [done|]. simpl in Hp. apply andb_true_iff in Hp as [Hd Hp].
  destruct x as [|b x].
  - change (EmptyString +:+ String c y) with (String c y). cbn [strip_prefix]. unfold not_byte in Hd. by destruct (Ascii.eqb d c).
  - change (String b x +:+ String c y) with (String b (x +:+ String c y)). cbn [strip_prefix].
    destruct (Ascii.eqb d b); [|done]. by apply IH.
Qed.

Lemma split_once_fresh c p x y :
  str_all (not_byte c) p = true -> str_contains (String c p) x = false ->
  split_once (String c p) (x +:+ String c p +:+ y) = Some (x, y).
Proof.
  intros Hp. induction x as [|a x IH]; intros Hx; [by apply (split_once_first c p EmptyString)|].
  cbn [str_contains] in Hx. apply orb_false_iff in Hx as [H1 H2].
  assert (starts_with (String c p) (String a x +:+ String c (p +:+ y)) = false) as E.
  { destruct (starts_with _ (_ +:+ _)) eqn:E; [|done]. apply strip_prefix_straddle in E; [congruence|done]. }
  change (String a x +:+ String c p +:+ y) with (String a (x +:+ String c p +:+ y)).
  change (String a x +:+ String c (p +:+ y)) with (String a (x +:+ String c p +:+ y)) in E.
  unfold starts_with in E. cbn [split_once].
  destruct (strip_prefix (String c p) (String a (x +:+ String c p +:+ y))); [done|]. by rewrite (IH H2).
Qed.

(** [p] and [s] differ at a byte both have. *)
Fixpoint mismatch (p s : string) : bool :=
  match p, s with String a p, String b s => if Ascii.eqb a b then mismatch p s else true | _, _ => false end.
(** No [p] starts in [s], whatever follows. *)
Fixpoint clear_of (p s : string) : bool :=
  match s with EmptyString => true | String _ t => mismatch p s && clear_of p t end.

Lemma mismatch_app p s y : mismatch p s = true -> mismatch p (s +:+ y) = true.
Proof. revert s. induction p as [|a p IH]; intros [|b s]; try done. simpl. destruct (Ascii.eqb a b); [apply IH|done]. Qed.

Lemma mismatch_strip p s : mismatch p s = true -> strip_prefix p s = None.
Proof. revert s. induction p as [|a p IH]; intros [|b s]; try done. simpl. destruct (Ascii.eqb a b); [apply IH|done]. Qed.

Lemma clear_of_app p x y : clear_of p x = true -> clear_of p y = true -> clear_of p (x +:+ y) = true.
Proof.
  intros Hx Hy. induction x as [|a x IH]; [done|]. cbn [clear_of] in Hx. apply andb_true_iff in Hx as [H1 H2].
  change (String a x +:+ y) with (String a (x +:+ y)). cbn [clear_of]. rewrite (IH H2), andb_true_r.
  by apply (mismatch_app _ (String a x)).
Qed.

Lemma clear_of_byte c p s : str_all (not_byte c) s = true -> clear_of (String c p) s = true.
Proof.
  induction s as [|a s IH]; [done|]. cbn [str_all clear_of mismatch]. intros [Ha Hs]%andb_true_iff.
  unfold not_byte in Ha. rewrite Ascii.eqb_sym. destruct (Ascii.eqb a c); [done|]. by apply IH.
Qed.
Lemma split_once_clear p x y :
  clear_of p x = true -> split_once p (x +:+ y) = (fun ab => (x +:+ ab.1, ab.2)) <$> split_once p y.
Proof.
  induction x as [|a x IH]; intros Hx.
  - change (EmptyString +:+ y) with y. by destruct (split_once p y) as [[u v]|].
  - cbn [clear_of] in Hx. apply andb_true_iff in Hx as [H1 H2].
    apply (mismatch_app _ _ y), mismatch_strip in H1. change (String a x +:+ y) with (String a (x +:+ y)) in *.
    cbn [split_once]. rewrite H1, (IH H2). by destruct (split_once p y) as [[u v]|].
Qed.

Lemma split_once_marker c p x y : clear_of (String c p) x = true -> split_once (String c p) (x +:+ String c p +:+ y) = Some (x, y).
Proof.
  intros Hx. rewrite (split_once_clear _ _ _ Hx).
  rewrite (split_once_first c p EmptyString y eq_refl : split_once (String c p) (String c p +:+ y) = _). simpl. by rewrite str_app_nil_r.
Qed.

Lemma cat_app_str xs ys : cat (xs ++ ys)%list = cat xs +:+ cat ys.
Proof. induction xs as [|x xs IH]; [done|]. simpl. by rewrite IH, str_app_assoc. Qed.

Lemma clear_of_cat p xs : Forall (fun x => clear_of p x = true) xs -> clear_of p (cat xs) = true.
Proof. induction 1 as [|x xs Hx _ IH]; [done|]. by apply clear_of_app. Qed.
