(* ===== verification/Float.v ===== *)
(** * Float: IEEE-754 scores

    [f64] and [f32] are the Standard Library's executable IEEE-754 values
    ([SpecFloat]) with their operations at the binary64 and binary32 formats;
    rounding is to nearest even, as on every target of the program.  The order
    lemmas state that the IEEE comparison is a strict weak order away from
    NaN, which is what the [max]-style folds of the program rely on. *)
From stdpp Require Import base gmap strings list.
From Stdlib Require Import ZArith Lia.
From Stdlib Require Import Floats.SpecFloat.
From S2P Require Import Prelude.

Definition f64 : Type := spec_float.
Definition f32 : Type := spec_float.

(** [a > b], [a < b], [a <= b], [a >= b]: false when either side is NaN. *)
Definition f_lt (a b : spec_float) : bool := SFltb a b.
Definition f_gt (a b : spec_float) : bool := SFltb b a.
Definition f_le (a b : spec_float) : bool := SFleb a b.
Definition f_ge (a b : spec_float) : bool := SFleb b a.

Definition f_is_nan (a : spec_float) : bool :=
  match a with S754_nan => true | _ => false end.

Definition f32_add : f32 -> f32 -> f32 := SFadd 24 128.
Definition f32_sub : f32 -> f32 -> f32 := SFsub 24 128.
Definition f32_mul : f32 -> f32 -> f32 := SFmul 24 128.
Definition f32_div : f32 -> f32 -> f32 := SFdiv 24 128.
Definition f64_add : f64 -> f64 -> f64 := SFadd 53 1024.
Definition f64_sub : f64 -> f64 -> f64 := SFsub 53 1024.
Definition f64_mul : f64 -> f64 -> f64 := SFmul 53 1024.
Definition f64_div : f64 -> f64 -> f64 := SFdiv 53 1024.

(** [n as f32] and [n as f64] for an unsigned integer. *)
Definition f32_of_Z (z : Z) : f32 := binary_normalize 24 128 z 0 false.
Definition f64_of_Z (z : Z) : f64 := binary_normalize 53 1024 z 0 false.

(** A decimal literal [n / d], correctly rounded. *)
Definition f32_lit (n d : Z) : f32 := SFdiv 24 128 (f32_of_Z n) (f32_of_Z d).
Definition f64_lit (n d : Z) : f64 := SFdiv 53 1024 (f64_of_Z n) (f64_of_Z d).

(** ** The comparison as an integer order *)

(** The position of a non-NaN value: class, then exponent, then mantissa. *)
Definition f_key (a : spec_float) : Z * Z * Z :=
  match a with
  | S754_infinity true => (-2, 0, 0)
  | S754_finite true m e => (-1, -e, - Z.pos m)
  | S754_zero _ => (0, 0, 0)
  | S754_finite false m e => (1, e, Z.pos m)
  | S754_infinity false => (2, 0, 0)
  | S754_nan => (0, 0, 0)
  end.

Definition key_lt (a b : Z * Z * Z) : Prop :=
  a.1.1 < b.1.1 \/ (a.1.1 = b.1.1 /\ (a.1.2 < b.1.2 \/ (a.1.2 = b.1.2 /\ a.2 < b.2))).

Lemma f_lt_key a b :
  f_is_nan a = false -> f_is_nan b = false -> f_lt a b = true <-> key_lt (f_key a) (f_key b).
Proof.
  unfold f_lt, SFltb, key_lt.
  destruct a as [sa|sa| |sa ma ea], b as [sb|sb| |sb mb eb]; try done; intros _ _;
    try destruct sa; try destruct sb; simpl; try (split; [done|lia]); try (split; [lia|done]);
    destruct (Z.compare_spec ea eb) as [->|E|E]; simpl; try (split; [done|lia]);
    try (split; [lia|done]);
    change (Pos.compare_cont Eq ma mb) with (Pos.compare ma mb);
    destruct (Pos.compare_spec ma mb) as [->|Em|Em]; simpl; (split; [try done|]; lia).
Qed.

Lemma f_lt_nan_l b : f_lt S754_nan b = false.
Proof. done. Qed.

Lemma f_lt_nan_r a : f_lt a S754_nan = false.
Proof. by destruct a as [[]|[]| |[] ? ?]. Qed.

Lemma f_lt_not_nan a b : f_lt a b = true -> f_is_nan a = false /\ f_is_nan b = false.
Proof. destruct a, b; try done; by rewrite ?f_lt_nan_l, ?f_lt_nan_r. Qed.

Lemma f_lt_irrefl a : f_lt a a = false.
Proof.
  destruct (f_lt a a) eqn:E; [|done]. destruct (f_lt_not_nan _ _ E) as [Hn _].
  apply (f_lt_key a a Hn Hn) in E. unfold key_lt in E. lia.
Qed.

(** Not-less is transitive away from NaN. *)
Lemma f_nlt_trans a b c :
  f_is_nan b = false -> f_lt b a = false -> f_lt c b = false -> f_lt c a = false.
Proof.
  intros Hb Hba Hcb. destruct (f_lt c a) eqn:E; [|done].
  destruct (f_lt_not_nan _ _ E) as [Hc Ha].
  apply f_lt_key in E; [|done..].
  destruct (f_lt b a) eqn:E1; [done|]. destruct (f_lt c b) eqn:E2; [done|].
  assert (~ key_lt (f_key b) (f_key a)) by (rewrite <- f_lt_key by done; congruence).
  assert (~ key_lt (f_key c) (f_key b)) by (rewrite <- f_lt_key by done; congruence).
  unfold key_lt in *. lia.
Qed.

Lemma f_lt_trans a b c : f_lt a b = true -> f_lt b c = true -> f_lt a c = true.
Proof.
  intros H1 H2. destruct (f_lt_not_nan _ _ H1), (f_lt_not_nan _ _ H2).
  apply f_lt_key in H1; [|done..]. apply f_lt_key in H2; [|done..].
  apply f_lt_key; [done..|]. unfold key_lt in *. lia.
Qed.

Lemma f_lt_asym a b : f_lt a b = true -> f_lt b a = false.
Proof.
  intros H. destruct (f_lt b a) eqn:E; [|done].
  pose proof (f_lt_trans _ _ _ H E). by rewrite f_lt_irrefl in *.
Qed.
