(* ===== verification/Schema.v ===== *)
(** * Schema: the event model (src/crates/schema/src/lib.rs, detection.rs)

    The types that cross every component boundary: [EventMeta], the forty-six
    event families and the [Event] sum over them, [Detection] and its source
    and severity, with the pure helpers the schema crate defines on them
    ([has_write_intent], [ExecEvent::ml_cmdline], [Event::meta], the
    compile-time check on the synthetic flag bits).

    Field names carry their structure's name as a prefix ([exec_cmdline] is
    [ExecEvent::cmdline]).  Integers are [Z] values of their Rust width,
    strings are byte strings, floats are the IEEE-754 values of the Standard
    Library's [SpecFloat]. *)
From stdpp Require Import base gmap strings list.
From Stdlib Require Import ZArith Lia.
From S2P Require Import Prelude Str Float.

(** ** The synthetic flag bits *)

Definition SCHEMA_VERSION : Z := 37.
Definition FLAG_PERSISTENCE_ARTIFACT : Z := 0x10000000.
Definition FLAG_PERSISTENCE_TASK_ARTIFACT : Z := 0x20000000.
Definition FLAG_PERSISTENCE_TASK_ACTION_UNKNOWN : Z := 0x02000000.
Definition FLAG_PERSISTENCE_ACCOUNT_ARTIFACT : Z := 0x08000000.
Definition FLAG_PERSISTENCE_SYSTEMD_ARTIFACT : Z := 0x40000000.
Definition FLAG_PERSISTENCE_BTM_ARTIFACT : Z := 0x04000000.
Definition FLAG_APPLICATION_BLOCKED : Z := 0x01000000.
Definition FLAG_PERSISTENCE_TASK_UPDATE_ARTIFACT : Z := 0x00800000.

Definition SYNTHETIC_FLAGS : list Z :=
  [FLAG_PERSISTENCE_ARTIFACT; FLAG_PERSISTENCE_TASK_ARTIFACT;
   FLAG_PERSISTENCE_TASK_ACTION_UNKNOWN; FLAG_PERSISTENCE_ACCOUNT_ARTIFACT;
   FLAG_PERSISTENCE_SYSTEMD_ARTIFACT; FLAG_PERSISTENCE_BTM_ARTIFACT;
   FLAG_APPLICATION_BLOCKED; FLAG_PERSISTENCE_TASK_UPDATE_ARTIFACT].

(** The two nested loops of the compile-time assertion. *)
Fixpoint flags_disjoint (fs : list Z) : bool :=
  match fs with
  | [] => true
  | f :: fs => negb (f =? 0) && forallb (fun g => Z.land f g =? 0) fs && flags_disjoint fs
  end.

Definition O_ACCMODE : Z := 3.
Definition O_WRONLY : Z := 1.
Definition O_RDWR : Z := 2.
Definition O_CREAT : Z := 64.

Definition has_write_intent (flags : Z) : bool :=
  let access_mode := Z.land flags O_ACCMODE in
  (access_mode =? O_WRONLY) || (access_mode =? O_RDWR) || negb (Z.land flags O_CREAT =? 0).

(** ** Events *)

(** [core::net::IpAddr]: an address as the integer of its octets. *)
Inductive IpAddr := V4 (bits : Z) | V6 (bits : Z).
#[global] Instance IpAddr_eq_dec : EqDecision IpAddr.
Proof. solve_decision. Defined.
#[global] Instance IpAddr_countable : Countable IpAddr.
Proof.
  refine (inj_countable' (fun a => match a with V4 z => inl z | V6 z => inr z end)
            (fun s => match s with inl z => V4 z | inr z => V6 z end) _).
  by intros [].
Defined.

(** [IpAddr::is_unspecified] and [IpAddr::is_loopback]. *)
Definition is_unspecified (a : IpAddr) : bool := match a with V4 z => z =? 0 | V6 z => z =? 0 end.
Definition is_loopback (a : IpAddr) : bool :=
  match a with V4 z => Z.shiftr z 24 =? 127 | V6 z => z =? 1 end.

Inductive User :=
| User_Unix (uid gid : Z)
| User_Windows (sid : string) (integrity_level : option Z)
| User_Unknown.

Record ContainerContext := mkContainerContext {
  container_id : string;
  container_image : option string;
  container_name : option string }.

Record EventMeta := mkEventMeta {
  meta_pid : Z;
  meta_ppid : Z;
  meta_user : User;
  meta_timestamp_ns : Z;
  meta_comm : string;
  meta_container : option ContainerContext;
  meta_process_generation : option Z;
  meta_parent_process_generation : option Z }.

Inductive Signature := Signature_Valid | Signature_Invalid | Signature_Unsigned | Signature_Unsupported.
#[global] Instance Signature_eq_dec : EqDecision Signature.
Proof. solve_decision. Defined.

Record ExecEvent := mkExecEvent {
  exec_meta : EventMeta;
  exec_image_path : string;
  exec_cmdline : string;
  exec_argv : list string;
  exec_parent_comm : option string;
  exec_parent_image_path : option string;
  exec_sha256 : option string;
  exec_signature : option Signature;
  exec_env_security : list ((string * string)) }.

Record FileOpenEvent := mkFileOpenEvent {
  file_open_meta : EventMeta;
  file_open_path : string;
  file_open_flags : Z }.

Record FileWriteEvent := mkFileWriteEvent {
  file_write_meta : EventMeta;
  file_write_fd : Z;
  file_write_bytes_requested : Z }.

Record FileDeleteEvent := mkFileDeleteEvent {
  file_delete_meta : EventMeta;
  file_delete_path : string }.

Record FileRenameEvent := mkFileRenameEvent {
  file_rename_meta : EventMeta;
  file_rename_old_path : string;
  file_rename_new_path : string;
  file_rename_executable_path : option string }.

Record FileChmodEvent := mkFileChmodEvent {
  file_chmod_meta : EventMeta;
  file_chmod_path : string;
  file_chmod_mode : Z }.

Record FileChownEvent := mkFileChownEvent {
  file_chown_meta : EventMeta;
  file_chown_path : string;
  file_chown_uid : Z;
  file_chown_gid : Z }.

Record FileSetxattrEvent := mkFileSetxattrEvent {
  file_setxattr_meta : EventMeta;
  file_setxattr_path : string;
  file_setxattr_name : string }.

Record FileRemovexattrEvent := mkFileRemovexattrEvent {
  file_removexattr_meta : EventMeta;
  file_removexattr_path : string;
  file_removexattr_name : string }.

Record SocketBindEvent := mkSocketBindEvent {
  socket_bind_meta : EventMeta;
  socket_bind_local_addr : IpAddr;
  socket_bind_local_port : Z }.

Record SocketListenEvent := mkSocketListenEvent {
  socket_listen_meta : EventMeta;
  socket_listen_local_addr : option IpAddr;
  socket_listen_local_port : option Z;
  socket_listen_backlog : Z }.

Record SocketAcceptEvent := mkSocketAcceptEvent {
  socket_accept_meta : EventMeta;
  socket_accept_listen_fd : Z;
  socket_accept_accepted_fd : Z;
  socket_accept_peer_addr : IpAddr;
  socket_accept_peer_port : Z }.

Record PtraceEvent := mkPtraceEvent {
  ptrace_meta : EventMeta;
  ptrace_request : Z;
  ptrace_target_pid : Z;
  ptrace_addr : Z;
  ptrace_data : Z }.

Record ProcessVmReadEvent := mkProcessVmReadEvent {
  process_vm_read_meta : EventMeta;
  process_vm_read_target_pid : Z;
  process_vm_read_local_iov_count : Z;
  process_vm_read_remote_iov_count : Z;
  process_vm_read_remote_iov_len : Z }.

Record ProcessVmWriteEvent := mkProcessVmWriteEvent {
  process_vm_write_meta : EventMeta;
  process_vm_write_target_pid : Z;
  process_vm_write_local_iov_count : Z;
  process_vm_write_remote_iov_count : Z;
  process_vm_write_remote_iov_len : Z }.

Record MemfdCreateEvent := mkMemfdCreateEvent {
  memfd_create_meta : EventMeta;
  memfd_create_name : string;
  memfd_create_flags : Z;
  memfd_create_fd : Z }.

Record DnsQueryEvent := mkDnsQueryEvent {
  dns_query_meta : EventMeta;
  dns_query_query : string;
  dns_query_qtype : Z;
  dns_query_result : option string;
  dns_query_status : Z }.

Record WmiActivityEvent := mkWmiActivityEvent {
  wmi_activity_meta : EventMeta;
  wmi_activity_namespace : string;
  wmi_activity_query : option string;
  wmi_activity_method : option string }.

Record ScriptBlockEvent := mkScriptBlockEvent {
  script_block_meta : EventMeta;
  script_block_script_block_id : string;
  script_block_path : option string;
  script_block_text : string;
  script_block_message_number : Z;
  script_block_message_total : Z }.

Record AmsiContentEvent := mkAmsiContentEvent {
  amsi_content_meta : EventMeta;
  amsi_content_session : Z;
  amsi_content_app_name : string;
  amsi_content_content_name : option string;
  amsi_content_content_size : Z;
  amsi_content_original_size : Z;
  amsi_content_text : option string;
  amsi_content_text_truncated : bool;
  amsi_content_content_hash : string;
  amsi_content_scan_result : Z }.

Record ImageLoadEvent := mkImageLoadEvent {
  image_load_meta : EventMeta;
  image_load_image_path : string }.

Record RegistrySetEvent := mkRegistrySetEvent {
  registry_set_meta : EventMeta;
  registry_set_key : string;
  registry_set_value_name : string;
  registry_set_data_type : Z;
  registry_set_data : option string }.

Record AssemblyLoadEvent := mkAssemblyLoadEvent {
  assembly_load_meta : EventMeta;
  assembly_load_assembly_name : string;
  assembly_load_flags : Z }.

Record SmbConnectEvent := mkSmbConnectEvent {
  smb_connect_meta : EventMeta;
  smb_connect_server_name : string }.

Record UdpSendEvent := mkUdpSendEvent {
  udp_send_meta : EventMeta;
  udp_send_daddr : IpAddr;
  udp_send_dport : Z;
  udp_send_size : Z }.

Record ListenPortEvent := mkListenPortEvent {
  listen_port_meta : EventMeta;
  listen_port_local_addr : IpAddr;
  listen_port_local_port : Z }.

Inductive TlsDirection := TlsDirection_Read | TlsDirection_Write.
#[global] Instance TlsDirection_eq_dec : EqDecision TlsDirection.
Proof. solve_decision. Defined.

Inductive TlsLibraryType := TlsLibraryType_OpenSsl | TlsLibraryType_BoringSsl | TlsLibraryType_GnuTls.
#[global] Instance TlsLibraryType_eq_dec : EqDecision TlsLibraryType.
Proof. solve_decision. Defined.

Inductive ShellType := ShellType_Bash | ShellType_Zsh.
#[global] Instance ShellType_eq_dec : EqDecision ShellType.
Proof. solve_decision. Defined.

Record TlsCaptureEvent := mkTlsCaptureEvent {
  tls_capture_meta : EventMeta;
  tls_capture_direction : TlsDirection;
  tls_capture_lib_type : TlsLibraryType;
  tls_capture_data : list Z }.

Record ReadlineInputEvent := mkReadlineInputEvent {
  readline_input_meta : EventMeta;
  readline_input_shell_type : ShellType;
  readline_input_input : string }.

Record ConnectEvent := mkConnectEvent {
  connect_meta : EventMeta;
  connect_daddr : IpAddr;
  connect_dport : Z }.

Record NetworkFlowEvent := mkNetworkFlowEvent {
  network_flow_meta : EventMeta;
  network_flow_local_port : Z;
  network_flow_daddr : IpAddr;
  network_flow_dport : Z;
  network_flow_protocol : Z;
  network_flow_bytes_sent : option Z;
  network_flow_bytes_received : option Z;
  network_flow_packets_sent : option Z;
  network_flow_packets_received : option Z }.

Record SensorHealth := mkSensorHealth {
  sensor_health_name : string;
  sensor_health_pulse_count : Z;
  sensor_health_silent : bool }.

Record HealthBeacon := mkHealthBeacon {
  health_beacon_timestamp_ns : Z;
  health_beacon_agent_version : string;
  health_beacon_sensors : list SensorHealth;
  health_beacon_spool_bytes : Z;
  health_beacon_spool_dropped : Z;
  health_beacon_enrich_dropped : Z }.

Inductive AuthOutcome := AuthOutcome_Success | AuthOutcome_Failure.
#[global] Instance AuthOutcome_eq_dec : EqDecision AuthOutcome.
Proof. solve_decision. Defined.

Inductive AuthKind := AuthKind_Logon | AuthKind_LogonFailure | AuthKind_ExplicitCredentials | AuthKind_PrivilegedSession.
#[global] Instance AuthKind_eq_dec : EqDecision AuthKind.
Proof. solve_decision. Defined.

Record AuthEvent := mkAuthEvent {
  auth_meta : EventMeta;
  auth_outcome : AuthOutcome;
  auth_kind : AuthKind;
  auth_target_user : string;
  auth_target_user_sid : option string;
  auth_source_address : option IpAddr;
  auth_status_code : option string }.

Record TccDecisionEvent := mkTccDecisionEvent {
  tcc_decision_meta : EventMeta;
  tcc_decision_service : string;
  tcc_decision_allowed : bool;
  tcc_decision_auth_value : Z;
  tcc_decision_auth_reason : option Z;
  tcc_decision_client : option string }.

Record GatekeeperVerdictEvent := mkGatekeeperVerdictEvent {
  gatekeeper_verdict_meta : EventMeta;
  gatekeeper_verdict_target : string;
  gatekeeper_verdict_team_id : option string;
  gatekeeper_verdict_signing_id : option string;
  gatekeeper_verdict_result_code : Z }.

Record FileQuarantineEvent := mkFileQuarantineEvent {
  file_quarantine_meta : EventMeta;
  file_quarantine_path : string;
  file_quarantine_agent : option string;
  file_quarantine_origin_url : option string;
  file_quarantine_referrer_url : option string }.

Record MountEvent := mkMountEvent {
  mount_meta : EventMeta;
  mount_mount_point : string;
  mount_source : option string;
  mount_fs_type : option string;
  mount_readonly : bool;
  mount_mounted : bool }.

Record SignalEvent := mkSignalEvent {
  signal_meta : EventMeta;
  signal_signal : Z;
  signal_target_pid : Z;
  signal_target_image_path : option string }.

Record XpcConnectEvent := mkXpcConnectEvent {
  xpc_connect_meta : EventMeta;
  xpc_connect_service_name : string;
  xpc_connect_domain_type : Z }.

Record PolicyDenialEvent := mkPolicyDenialEvent {
  policy_denial_meta : EventMeta;
  policy_denial_mechanism : string;
  policy_denial_subject_context : option string;
  policy_denial_object_context : option string;
  policy_denial_object_class : option string;
  policy_denial_action : option string;
  policy_denial_enforced : bool;
  policy_denial_object_path : option string }.

Inductive KernelModuleAction := KernelModuleAction_Load | KernelModuleAction_LoadFd | KernelModuleAction_Unload.
#[global] Instance KernelModuleAction_eq_dec : EqDecision KernelModuleAction.
Proof. solve_decision. Defined.

Record KernelModuleEvent := mkKernelModuleEvent {
  kernel_module_meta : EventMeta;
  kernel_module_action : KernelModuleAction;
  kernel_module_name : option string;
  kernel_module_fd : option Z;
  kernel_module_path : option string;
  kernel_module_image_len : option Z }.

Record BpfEvent := mkBpfEvent {
  bpf_meta : EventMeta;
  bpf_cmd : Z }.

Record PrctlEvent := mkPrctlEvent {
  prctl_meta : EventMeta;
  prctl_option : Z;
  prctl_arg : Z }.

Inductive HttpSignature := HttpSignature_PathTraversal | HttpSignature_SqlInjection | HttpSignature_ScannerUserAgent | HttpSignature_WebshellLike.
#[global] Instance HttpSignature_eq_dec : EqDecision HttpSignature.
Proof. solve_decision. Defined.

Record HttpEvidence := mkHttpEvidence {
  http_evidence_param : string;
  http_evidence_value : string }.

Record HttpRequestEvent := mkHttpRequestEvent {
  http_request_meta : EventMeta;
  http_request_client : option IpAddr;
  http_request_method : option string;
  http_request_path : string;
  http_request_param_names : list string;
  http_request_status : Z;
  http_request_signature : HttpSignature;
  http_request_evidence : option HttpEvidence;
  http_request_scanner : option string;
  http_request_truncated : bool }.

Record HttpClientCount := mkHttpClientCount {
  http_client_count_client : IpAddr;
  http_client_count_failures : Z }.

Record HttpSummaryEvent := mkHttpSummaryEvent {
  http_summary_meta : EventMeta;
  http_summary_source : string;
  http_summary_window_secs : Z;
  http_summary_requests : Z;
  http_summary_status_4xx : Z;
  http_summary_status_5xx : Z;
  http_summary_distinct_clients : Z;
  http_summary_top_clients : list HttpClientCount }.

Inductive IdentityChangeKind := IdentityChangeKind_SetUid | IdentityChangeKind_SetGid | IdentityChangeKind_SetResUid | IdentityChangeKind_SetResGid | IdentityChangeKind_SetFsUid | IdentityChangeKind_SetFsGid.
#[global] Instance IdentityChangeKind_eq_dec : EqDecision IdentityChangeKind.
Proof. solve_decision. Defined.

Record IdentityChangeEvent := mkIdentityChangeEvent {
  identity_change_meta : EventMeta;
  identity_change_kind : IdentityChangeKind;
  identity_change_real : Z;
  identity_change_effective : option Z;
  identity_change_saved : option Z }.

Record CapSetEvent := mkCapSetEvent {
  cap_set_meta : EventMeta;
  cap_set_target_pid : Z;
  cap_set_effective : Z;
  cap_set_permitted : Z;
  cap_set_inheritable : Z }.

Inductive NamespaceSyscall := NamespaceSyscall_SetNs | NamespaceSyscall_Unshare.
#[global] Instance NamespaceSyscall_eq_dec : EqDecision NamespaceSyscall.
Proof. solve_decision. Defined.

Record NamespaceEvent := mkNamespaceEvent {
  namespace_meta : EventMeta;
  namespace_syscall : NamespaceSyscall;
  namespace_fd : option Z;
  namespace_flags : Z }.

Inductive Event :=
| Event_Exec (e : ExecEvent)
| Event_FileOpen (e : FileOpenEvent)
| Event_Connect (e : ConnectEvent)
| Event_DnsQuery (e : DnsQueryEvent)
| Event_RegistrySet (e : RegistrySetEvent)
| Event_ImageLoad (e : ImageLoadEvent)
| Event_ScriptBlock (e : ScriptBlockEvent)
| Event_AmsiContent (e : AmsiContentEvent)
| Event_WmiActivity (e : WmiActivityEvent)
| Event_AssemblyLoad (e : AssemblyLoadEvent)
| Event_SmbConnect (e : SmbConnectEvent)
| Event_UdpSend (e : UdpSendEvent)
| Event_Auth (e : AuthEvent)
| Event_ListenPort (e : ListenPortEvent)
| Event_NetworkFlow (e : NetworkFlowEvent)
| Event_TlsCapture (e : TlsCaptureEvent)
| Event_ReadlineInput (e : ReadlineInputEvent)
| Event_FileWrite (e : FileWriteEvent)
| Event_FileDelete (e : FileDeleteEvent)
| Event_FileRename (e : FileRenameEvent)
| Event_SocketBind (e : SocketBindEvent)
| Event_FileChmod (e : FileChmodEvent)
| Event_FileChown (e : FileChownEvent)
| Event_SocketListen (e : SocketListenEvent)
| Event_SocketAccept (e : SocketAcceptEvent)
| Event_TccDecision (e : TccDecisionEvent)
| Event_GatekeeperVerdict (e : GatekeeperVerdictEvent)
| Event_FileQuarantine (e : FileQuarantineEvent)
| Event_Mount (e : MountEvent)
| Event_Signal (e : SignalEvent)
| Event_XpcConnect (e : XpcConnectEvent)
| Event_FileSetxattr (e : FileSetxattrEvent)
| Event_FileRemovexattr (e : FileRemovexattrEvent)
| Event_PolicyDenial (e : PolicyDenialEvent)
| Event_KernelModule (e : KernelModuleEvent)
| Event_BpfOperation (e : BpfEvent)
| Event_Ptrace (e : PtraceEvent)
| Event_ProcessVmRead (e : ProcessVmReadEvent)
| Event_ProcessVmWrite (e : ProcessVmWriteEvent)
| Event_MemfdCreate (e : MemfdCreateEvent)
| Event_IdentityChange (e : IdentityChangeEvent)
| Event_CapSet (e : CapSetEvent)
| Event_Namespace (e : NamespaceEvent)
| Event_Prctl (e : PrctlEvent)
| Event_HttpRequest (e : HttpRequestEvent)
| Event_HttpSummary (e : HttpSummaryEvent).

(** [Event::meta]: the accessor every consumer keys its state on. *)
Definition Event_meta (ev : Event) : EventMeta :=
  match ev with
  | Event_Exec e => exec_meta e
  | Event_FileOpen e => file_open_meta e
  | Event_Connect e => connect_meta e
  | Event_DnsQuery e => dns_query_meta e
  | Event_RegistrySet e => registry_set_meta e
  | Event_ImageLoad e => image_load_meta e
  | Event_ScriptBlock e => script_block_meta e
  | Event_AmsiContent e => amsi_content_meta e
  | Event_WmiActivity e => wmi_activity_meta e
  | Event_AssemblyLoad e => assembly_load_meta e
  | Event_SmbConnect e => smb_connect_meta e
  | Event_UdpSend e => udp_send_meta e
  | Event_Auth e => auth_meta e
  | Event_ListenPort e => listen_port_meta e
  | Event_NetworkFlow e => network_flow_meta e
  | Event_TlsCapture e => tls_capture_meta e
  | Event_ReadlineInput e => readline_input_meta e
  | Event_FileWrite e => file_write_meta e
  | Event_FileDelete e => file_delete_meta e
  | Event_FileRename e => file_rename_meta e
  | Event_SocketBind e => socket_bind_meta e
  | Event_FileChmod e => file_chmod_meta e
  | Event_FileChown e => file_chown_meta e
  | Event_SocketListen e => socket_listen_meta e
  | Event_SocketAccept e => socket_accept_meta e
  | Event_TccDecision e => tcc_decision_meta e
  | Event_GatekeeperVerdict e => gatekeeper_verdict_meta e
  | Event_FileQuarantine e => file_quarantine_meta e
  | Event_Mount e => mount_meta e
  | Event_Signal e => signal_meta e
  | Event_XpcConnect e => xpc_connect_meta e
  | Event_FileSetxattr e => file_setxattr_meta e
  | Event_FileRemovexattr e => file_removexattr_meta e
  | Event_PolicyDenial e => policy_denial_meta e
  | Event_KernelModule e => kernel_module_meta e
  | Event_BpfOperation e => bpf_meta e
  | Event_Ptrace e => ptrace_meta e
  | Event_ProcessVmRead e => process_vm_read_meta e
  | Event_ProcessVmWrite e => process_vm_write_meta e
  | Event_MemfdCreate e => memfd_create_meta e
  | Event_IdentityChange e => identity_change_meta e
  | Event_CapSet e => cap_set_meta e
  | Event_Namespace e => namespace_meta e
  | Event_Prctl e => prctl_meta e
  | Event_HttpRequest e => http_request_meta e
  | Event_HttpSummary e => http_summary_meta e
  end.

(** [ExecEvent::ml_cmdline]. *)
Definition NUL : string := String (Ascii.ascii_of_nat 0) EmptyString.

Definition ml_cmdline (e : ExecEvent) : string :=
  match exec_argv e with
  | [] => exec_cmdline e
  | argv => foldl (fun s tok => ((s +:+ tok) +:+ NUL)%string) EmptyString argv
  end.

(** ** Detections *)

Inductive Severity := Low | Medium | High | Critical.
#[global] Instance Severity_eq_dec : EqDecision Severity.
Proof. solve_decision. Defined.

(** The derived [Ord]: declaration order. *)
Definition Severity_rank (s : Severity) : Z :=
  match s with Low => 0 | Medium => 1 | High => 2 | Critical => 3 end.

Inductive DetectionSource :=
| Source_Rule (rule_id : string)
| Source_Sigma (rule_id : string)
| Source_Ml (tier : Z) (model_id model_version : string)
| Source_Correlator (case_id : string)
| Source_Yara (rule_name : string).
#[global] Instance DetectionSource_eq_dec : EqDecision DetectionSource.
Proof. solve_decision. Defined.

Record ScoreAttribution := mkScoreAttribution {
  attr_feature : string;
  attr_value : f64;
  attr_contribution : f64 }.

Record Detection := mkDetection {
  det_timestamp_ns : Z;
  det_severity : Severity;
  det_title : string;
  det_source : DetectionSource;
  det_score : option f64;
  det_attributions : list ScoreAttribution;
  det_techniques : list string;
  det_events : list Event }.

(** ** Lemmas *)

Lemma flags_disjoint_land fs f g :
  flags_disjoint fs = true -> f ∈ fs -> g ∈ fs -> f <> g -> Z.land f g = 0.
Proof.
  induction fs as [|h fs IH]; simpl; [set_solver|].
  intros [[_ Hall]%andb_true_iff Hd]%andb_true_iff Hf Hg Hne.
  rewrite forallb_forall in Hall.
  assert (forall x, x ∈ fs -> Z.land h x = 0) as Hh.
  { intros x Hx. apply Z.eqb_eq, Hall. by apply list_elem_of_In. }
  apply elem_of_cons in Hf as [->|Hf], Hg as [->|Hg]; [done|by apply Hh| |by apply IH].
  rewrite Z.land_comm. by apply Hh.
Qed.

(** The low bits of an open mode. *)
Lemma land_accmode flags :
  Z.land flags O_ACCMODE = Z.b2z (Z.testbit flags 0) + 2 * Z.b2z (Z.testbit flags 1).
Proof.
  unfold O_ACCMODE. change 3 with (Z.ones 2). rewrite Z.land_ones by lia.
  rewrite !Z.testbit_spec' by lia. change (2 ^ 0) with 1. change (2 ^ 1) with 2.
  change (2 ^ 2) with (2 * 2). rewrite Z.div_1_r, Z.rem_mul_r by lia. done.
Qed.

Lemma land_creat flags : (Z.land flags O_CREAT =? 0) = negb (Z.testbit flags 6).
Proof.
  unfold O_CREAT. destruct (Z.testbit flags 6) eqn:E; simpl.
  - apply Z.eqb_neq. intros H. apply (f_equal (fun z => Z.testbit z 6)) in H.
    rewrite Z.land_spec, E in H. done.
  - apply Z.eqb_eq, Z.bits_inj'. intros n Hn. rewrite Z.land_spec, Z.bits_0.
    destruct (decide (n = 6)) as [->|]; [by rewrite E|].
    change 64 with (2 ^ 6). rewrite Z.pow2_bits_false by lia. apply andb_false_r.
Qed.

(** The predicate reads the three bits it means to read. *)
Lemma has_write_intent_bits flags :
  has_write_intent flags =
  xorb (Z.testbit flags 0) (Z.testbit flags 1) || Z.testbit flags 6.
Proof.
  unfold has_write_intent. rewrite land_accmode, land_creat, negb_involutive.
  unfold O_WRONLY, O_RDWR. by destruct (Z.testbit flags 0), (Z.testbit flags 1).
Qed.

Lemma foldl_tokens (argv : list string) s :
  foldl (fun s tok => ((s +:+ tok) +:+ NUL)%string) s argv =
  (s +:+ foldr (fun tok r => tok +:+ (NUL +:+ r)) EmptyString argv)%string.
Proof.
  revert s. induction argv as [|t argv IH]; intros s; simpl; [by rewrite str_app_nil_r|].
  by rewrite IH, !str_app_assoc.
Qed.

Definition no_nul (t : string) : bool :=
  str_all (fun a => negb (Ascii.eqb a (Ascii.ascii_of_nat 0))) t.

Lemma split_tokens argv :
  Forall (fun t => no_nul t = true) argv ->
  str_split (Ascii.ascii_of_nat 0)
    (foldr (fun tok r => tok +:+ (NUL +:+ r)) EmptyString argv)%string = argv ++ [EmptyString].
Proof.
  induction 1 as [|t argv Ht _ IH]; [done|]. cbn [foldr].
  change (NUL +:+ ?r)%string with (String (Ascii.ascii_of_nat 0) r).
  rewrite str_split_piece by exact Ht. by rewrite IH.
Qed.

(** ** Theorems *)

(** The write-intent predicate treats the access mode as a two-bit field:
    it holds exactly when one of the two access bits is set (so the invalid
    mode 0o3 is not a write) or [O_CREAT] is; and no synthetic marker bit, in
    any combination with real flags, changes it or sets another marker. *)
Theorem write_intent_and_markers :
  (forall flags, has_write_intent flags =
     xorb (Z.testbit flags 0) (Z.testbit flags 1) || Z.testbit flags 6) /\
  (forall flags f, f ∈ SYNTHETIC_FLAGS ->
     has_write_intent (Z.lor flags f) = has_write_intent flags) /\
  (forall flags f g, f ∈ SYNTHETIC_FLAGS -> g ∈ SYNTHETIC_FLAGS -> f <> g ->
     Z.land (Z.lor flags f) g = Z.land flags g).
Proof.
  split_and!.
  - apply has_write_intent_bits.
  - intros flags f Hf. rewrite !has_write_intent_bits, !Z.lor_spec.
    assert (Z.testbit f 0 = false /\ Z.testbit f 1 = false /\ Z.testbit f 6 = false)
      as (-> & -> & ->).
    { revert f Hf. apply Forall_forall. repeat constructor. }
    by rewrite !orb_false_r.
  - intros flags f g Hf Hg Hne. rewrite Z.land_comm, Z.land_lor_distr_r.
    rewrite (Z.land_comm g f), (flags_disjoint_land SYNTHETIC_FLAGS f g) by done.
    by rewrite Z.lor_0_r, Z.land_comm.
Qed.

Lemma write_intent_and_markers_witness :
  has_write_intent (Z.lor 3 FLAG_APPLICATION_BLOCKED) = false /\
  Z.land (Z.lor 1 FLAG_PERSISTENCE_ARTIFACT) FLAG_PERSISTENCE_TASK_ARTIFACT = 0.
Proof.
  destruct write_intent_and_markers as (_ & Hw & Hm). split.
  - rewrite Hw; [reflexivity|]. vm_compute. set_solver.
  - rewrite Hm; [reflexivity|vm_compute; set_solver..|by vm_compute].
Defined.

(** The canonical command line the ML scorers consume loses no argument:
    for an argument vector whose tokens hold no NUL (as [execve] guarantees),
    splitting it at NUL and dropping the empty pieces gives back exactly the
    non-empty arguments in order, whatever the display command line is; with no
    argument vector it is the display command line verbatim. *)
Theorem ml_cmdline_roundtrip e :
  Forall (fun t => no_nul t = true) (exec_argv e) ->
  (exec_argv e = [] -> ml_cmdline e = exec_cmdline e) /\
  (exec_argv e <> [] ->
   str_split (Ascii.ascii_of_nat 0) (ml_cmdline e) = exec_argv e ++ [EmptyString] /\
   filter (fun t => t <> EmptyString) (str_split (Ascii.ascii_of_nat 0) (ml_cmdline e)) =
   filter (fun t => t <> EmptyString) (exec_argv e)).
Proof.
  intros Hn. unfold ml_cmdline. split; [by intros ->|]. intros Hne.
  destruct (exec_argv e) as [|t argv] eqn:E; [done|]. rewrite foldl_tokens.
  change (EmptyString +:+ ?r)%string with r. rewrite split_tokens by done.
  split; [done|]. rewrite filter_app. rewrite (filter_cons_False _ EmptyString) by tauto.
  by rewrite app_nil_r.
Qed.

Definition sample_meta : EventMeta :=
  mkEventMeta 10 1 User_Unknown 1000 "sh" None None None.

Lemma ml_cmdline_roundtrip_witness :
  let e := mkExecEvent sample_meta "/bin/sh" "sh -c 'a b'" ["sh"; "-c"; "a b"]
             None None None None [] in
  str_split (Ascii.ascii_of_nat 0) (ml_cmdline e) = ["sh"; "-c"; "a b"; ""].
Proof.
  intros e. destruct (ml_cmdline_roundtrip e) as [_ H]; [by repeat constructor|].
  by apply H.
Defined.
