(* ===== verification/Net.v ===== *)
(** * Net: reading an address

    [str::parse::<IpAddr>] of the standard library: its parser of dotted and of
    colon-separated addresses, with an embedded IPv4 tail. *)
From stdpp Require Import base gmap strings list.
From Stdlib Require Import ZArith Lia Ascii.
From Stdlib Require String.
From S2P Require Import Prelude Str Text Schema.

(** [char::to_digit(radix)]. *)
Definition to_digit (radix : Z) (a : ascii) : option Z :=
  let n := Z.of_nat (nat_of_ascii a) in
  let d := if (48 <=? n) && (n <=? 57) then n - 48
           else if (97 <=? n) && (n <=? 102) then n - 87
           else if (65 <=? n) && (n <=? 70) then n - 55 else 99 in
  if d <? radix then Some d else None.

(** [read_number]: digits up to [max_digits] and to the value [hi]. *)
Fixpoint read_digits (radix hi : Z) (max_digits : nat) (s : string) (result : Z) (count : nat) : option (Z * nat * string) :=
  match s with
  | EmptyString => Some (result, count, s)
  | String a t =>
      match to_digit radix a with
      | None => Some (result, count, s)
      | Some d =>
          let result := result * radix + d in
          if (hi <? result) || (max_digits <? S count)%nat then None
          else read_digits radix hi max_digits t result (S count)
      end
  end.
Definition read_number (radix hi : Z) (max_digits : nat) (allow_zero_prefix : bool) (s : string) : option (Z * string) :=
  match read_digits radix hi max_digits s 0 0 with
  | None => None
  | Some (result, count, rest) =>
      if (count =? 0)%nat then None
      else if negb allow_zero_prefix && starts_with "0" s && (1 <? count)%nat then None
      else Some (result, rest)
  end.

(** [read_separator]: the separator before every element but the first. *)
Definition read_separator {A : Type} (sep : string) (first : bool) (inner : string -> option A) (s : string) : option A :=
  if first then inner s else s' ← strip_prefix sep s; inner s'.

Definition read_octet : string -> option (Z * string) := read_number 10 255 3 false.
Definition read_ipv4_addr (s : string) : option (Z * string) :=
  '(a, s) ← read_octet s;
  '(b, s) ← read_separator "." false read_octet s;
  '(c, s) ← read_separator "." false read_octet s;
  '(d, s) ← read_separator "." false read_octet s;
  Some (((a * 256 + b) * 256 + c) * 256 + d, s).

(** [read_groups] with room for [limit] groups; the flag says that the last two are
    an IPv4 address. *)
Fixpoint read_groups (limit : nat) (first : bool) (s : string) : list Z * bool * string :=
  match limit with
  | O => ([], false, s)
  | S limit =>
      match (if (0 <? limit)%nat then read_separator ":" first read_ipv4_addr s else None) with
      | Some (v4, s) => ([v4 / 65536; v4 mod 65536], true, s)
      | None =>
          match read_separator ":" first (read_number 16 65535 4 true) s with
          | None => ([], false, s)
          | Some (g, s) => let '(gs, v4, s) := read_groups limit false s in (g :: gs, v4, s)
          end
      end
  end.
Definition groups_value (gs : list Z) : Z := foldl (fun acc g => acc * 65536 + g) 0 gs.
Definition read_ipv6_addr (s : string) : option (Z * string) :=
  let '(head, head_ipv4, s) := read_groups 8 true s in
  if (length head =? 8)%nat then Some (groups_value head, s)
  else if (head_ipv4 : bool) then None
  else s ← strip_prefix "::" s;
       let '(tail, _, s) := read_groups (8 - S (length head)) true s in
       Some (groups_value (head ++ replicate (8 - length head - length tail) 0 ++ tail), s).

(** [s.parse::<IpAddr>().ok()]. *)
Definition parse_ip (s : string) : option IpAddr :=
  let finish (r : option (IpAddr * string)) := '(a, rest) ← r; if str_is_empty rest then Some a else None in
  match read_ipv4_addr s with
  | Some (z, rest) => finish (Some (V4 z, rest))
  | None => finish ((fun r => (V6 r.1, r.2)) <$> read_ipv6_addr s)
  end.

Example parse_ip_samples :
  parse_ip "127.0.0.1" = Some (V4 (127 * 2 ^ 24 + 1)) /\ parse_ip "::1" = Some (V6 1)
  /\ parse_ip "::ffff:10.0.0.5" = Some (V6 (65535 * 2 ^ 32 + 10 * 2 ^ 24 + 5))
  /\ parse_ip "fe80::1:2" = Some (V6 (65152 * 2 ^ 112 + 65536 + 2))
  /\ parse_ip "01.2.3.4" = None /\ parse_ip "1.2.3.4.5" = None /\ parse_ip "localhost" = None
  /\ parse_ip "1:2:3:4:5:6:7:8" = Some (V6 0x00010002000300040005000600070008) /\ parse_ip "256.1.1.1" = None.
Proof. by vm_compute. Qed.
