(* ===== verification/Verdict.v ===== *)
(** * Verdict: fusion of the engines' findings (src/crates/verdict/src/lib.rs)

    Every engine's detection is folded into one bounded state per entity,
    keyed by [(ppid, comm)] in a [BoundedMap]; a finding yields a verdict
    unless it is suppressed or a duplicate inside its dedup window.  [record]
    is the whole handler: the suppression test, the recycled-parent check, the
    entity lookup and the fold ([fold_finding]) on the state the map returns by
    mutable reference. *)
From stdpp Require Import base gmap strings list sorting.
From Stdlib Require Import ZArith Lia.
From S2P Require Import Prelude Bounded Order Str Float Schema.

Record EntityKey := mkEntityKey {
  ek_ppid : Z;
  ek_comm : string;
  ek_parent_generation : option Z }.
#[global] Instance EntityKey_eq_dec : EqDecision EntityKey.
Proof. solve_decision. Defined.
#[global] Instance EntityKey_countable : Countable EntityKey.
Proof.
  refine (inj_countable' (fun k => (ek_ppid k, ek_comm k, ek_parent_generation k))
            (fun t => mkEntityKey t.1.1 t.1.2 t.2) _).
  by intros [].
Defined.

(** [EntityKey::new] and [EntityKey::with_parent_generation]. *)
Definition EntityKey_new (ppid : Z) (comm : string) : EntityKey := mkEntityKey ppid comm None.
Definition with_parent_generation (k : EntityKey) (g : option Z) : EntityKey :=
  mkEntityKey (ek_ppid k) (ek_comm k) g.

Definition same_generation (recorded wanted : option Z) : bool :=
  match recorded, wanted with
  | Some a, Some b => a =? b
  | _, _ => true
  end.

Record TechniqueRecord := mkTechniqueRecord {
  tr_technique : string;
  tr_window_start_ns : Z }.

Definition EVIDENCE_CAP : nat := 16.

Record EntityState := mkEntityState {
  es_parent_generation : option Z;
  es_severity : Severity;
  es_score : option f64;
  es_techniques : list TechniqueRecord;
  es_sources : list DetectionSource;
  es_detections : list Detection }.

Definition EntityState_new (g : option Z) : EntityState := mkEntityState g Low None [] [] [].

(** [Vec::push] then [Vec::remove(0)] past the cap. *)
Definition push_evidence (ds : list Detection) (d : Detection) : list Detection :=
  let ds := ds ++ [d] in
  if (EVIDENCE_CAP <? length ds)%nat then tail ds else ds.

Record Verdict := mkVerdict {
  v_entity : EntityKey;
  v_severity : Severity;
  v_score : option f64;
  v_techniques : list string;
  v_sources : list DetectionSource;
  v_detections : list Detection }.

Definition MAX_SUPPRESSIONS : nat := 1024.
Inductive SuppressOutcome := Added | AlreadySuppressed | Full.
Definition ENTITY_CAP : Z := 16384.

Record VerdictEngine := mkVerdictEngine {
  ve_entities : BoundedMap (Z * string) EntityState;
  ve_suppressed : gset (EntityKey * string);
  ve_dedup_window_ns : Z }.

Definition VerdictEngine_new (w : Z) : option VerdictEngine :=
  (fun b => mkVerdictEngine b ∅ w) <$> bm_new ENTITY_CAP.

(** The mark [(mark, t)] covers a finding of [technique] on [entity]. *)
Definition mark_applies (entity : EntityKey) (technique : string) (m : EntityKey * string) : bool :=
  String.eqb m.2 technique
  && (ek_ppid m.1 =? ek_ppid entity)
  && String.eqb (ek_comm m.1) (ek_comm entity)
  && same_generation (ek_parent_generation m.1) (ek_parent_generation entity).

Definition is_suppressed (v : VerdictEngine) (entity : EntityKey) (technique : string) : bool :=
  existsb (mark_applies entity technique) (elements (ve_suppressed v)).

(** The [match] on [techniques.iter_mut().find(..)]: the duplicate test and the
    updated records. *)
Fixpoint note_technique (w : Z) (technique : string) (now_ns : Z)
    (ts : list TechniqueRecord) : bool * list TechniqueRecord :=
  match ts with
  | [] => (false, [mkTechniqueRecord technique now_ns])
  | t :: ts =>
      if String.eqb (tr_technique t) technique then
        let dup := (now_ns -sat tr_window_start_ns t) <=? w in
        (dup, (if dup then t else mkTechniqueRecord (tr_technique t) now_ns) :: ts)
      else let '(dup, ts) := note_technique w technique now_ns ts in (dup, t :: ts)
  end.

Definition severity_gt (a b : Severity) : bool := Severity_rank b <? Severity_rank a.

Definition score_raised (new cur : option f64) : bool :=
  match new, cur with
  | Some n, Some c => f_gt n c
  | Some _, None => true
  | _, _ => false
  end.

(** The complete snapshot [record] and [peek] build. *)
Definition verdict_of (entity : EntityKey) (s : EntityState) : Verdict :=
  mkVerdict entity (es_severity s) (es_score s) (tr_technique <$> es_techniques s)
    (es_sources s) (es_detections s).

(** [record] from the adoption of the stamp to its end, on the state behind
    the reference. *)
Definition fold_finding (w : Z) (entity : EntityKey) (technique : string)
    (d : Detection) (now_ns : Z) (s : EntityState) : option Verdict * EntityState :=
  let gen := match es_parent_generation s with
             | None => ek_parent_generation entity
             | g => g
             end in
  let '(is_dup, techniques) := note_technique w technique now_ns (es_techniques s) in
  let sev_raised := severity_gt (det_severity d) (es_severity s) in
  let severity := if sev_raised then det_severity d else es_severity s in
  let sc_raised := score_raised (det_score d) (es_score s) in
  let score := if sc_raised then det_score d else es_score s in
  let sources := if bool_decide (det_source d ∈ es_sources s) then es_sources s
                 else es_sources s ++ [det_source d] in
  let s' := mkEntityState gen severity score techniques sources
              (push_evidence (es_detections s) d) in
  (if is_dup && negb sev_raised && negb sc_raised then None else Some (verdict_of entity s'), s').

(** [VerdictEngine::record]; [None] is a panic of the entity map. *)
Definition record (v : VerdictEngine) (entity : EntityKey) (technique : string)
    (d : Detection) (now_ns : Z) : option (option Verdict * VerdictEngine) :=
  if is_suppressed v entity technique then Some (None, v) else
  let id := (ek_ppid entity, ek_comm entity) in
  let ents :=
    match bm_peek id (ve_entities v) with
    | Some s => if same_generation (es_parent_generation s) (ek_parent_generation entity)
                then ve_entities v
                else (bm_remove id (ve_entities v)).2
    | None => ve_entities v
    end in
  let f := fold_finding (ve_dedup_window_ns v) entity technique d now_ns in
  '(s, ents) ← bm_get_or_insert_with id (EntityState_new (ek_parent_generation entity))
                 (fun s => (f s).2) ents;
  Some ((f s).1, mkVerdictEngine ents (ve_suppressed v) (ve_dedup_window_ns v)).

Definition suppress (v : VerdictEngine) (entity : EntityKey) (technique : string)
    : SuppressOutcome * VerdictEngine :=
  let mark := (entity, technique) in
  if bool_decide (mark ∈ ve_suppressed v) then (AlreadySuppressed, v)
  else if (MAX_SUPPRESSIONS <=? size (ve_suppressed v))%nat then (Full, v)
  else (Added, mkVerdictEngine (ve_entities v) ({[mark]} ∪ ve_suppressed v)
                 (ve_dedup_window_ns v)).

Definition unsuppress (v : VerdictEngine) (entity : EntityKey) (technique : string)
    : bool * VerdictEngine :=
  let kept := filter (fun m => ~ (m.1 = entity /\ m.2 = technique)) (ve_suppressed v) in
  (negb (size kept =? size (ve_suppressed v))%nat,
   mkVerdictEngine (ve_entities v) kept (ve_dedup_window_ns v)).

(** [suppressions]: the marks, ordered by [(ppid, comm, parent_generation, technique)]. *)
Definition mark_key (m : EntityKey * string) : Z * string * option Z * string :=
  (ek_ppid m.1, ek_comm m.1, ek_parent_generation m.1, m.2).

Definition mark_le (a b : EntityKey * string) : Prop := cmp_le (mark_key a) (mark_key b).
#[global] Instance mark_le_dec : RelDecision mark_le.
Proof. intros a b. unfold mark_le. apply _. Defined.

Definition sort_marks (marks : list (EntityKey * string)) : list (EntityKey * string) :=
  merge_sort mark_le marks.

Definition suppressions (v : VerdictEngine) : list (EntityKey * string) :=
  sort_marks (elements (ve_suppressed v)).

Definition verdict_peek (v : VerdictEngine) (entity : EntityKey) : option Verdict :=
  s ← bm_peek (ek_ppid entity, ek_comm entity) (ve_entities v);
  if same_generation (es_parent_generation s) (ek_parent_generation entity)
  then Some (verdict_of entity s) else None.

(** ** The closed form of a fold *)

(** One finding, as [record] receives it. *)
Record Finding := mkFinding {
  fd_entity : EntityKey;
  fd_technique : string;
  fd_detection : Detection;
  fd_now_ns : Z }.

Definition fold_one (w : Z) (s : EntityState) (f : Finding) : option Verdict * EntityState :=
  fold_finding w (fd_entity f) (fd_technique f) (fd_detection f) (fd_now_ns f) s.

(** The findings of one entity in order, with each one's answer. *)
Fixpoint fold_run (w : Z) (fs : list Finding) (s : EntityState)
    : list (option Verdict) * EntityState :=
  match fs with
  | [] => ([], s)
  | f :: fs => let '(o, s) := fold_one w s f in
               let '(os, s) := fold_run w fs s in (o :: os, s)
  end.

Definition last_n {A} (n : nat) (l : list A) : list A := drop (length l - n) l.

Lemma push_evidence_last ds d :
  push_evidence (last_n EVIDENCE_CAP ds) d = last_n EVIDENCE_CAP (ds ++ [d]).
Proof.
  unfold push_evidence, last_n. rewrite !length_app, length_drop. cbn [length].
  unfold EVIDENCE_CAP in *. destruct (Nat.ltb_spec 16 (length ds - (length ds - 16) + 1)).
  - rewrite <- (drop_app_le ds [d]) by lia.
    replace (length ds + 1 - 16)%nat with (S (length ds - 16)) by lia.
    generalize (ds ++ [d]) as l, (length ds - 16)%nat as n.
    induction l as [|x l IH]; intros [|n]; try done. simpl. by rewrite IH; destruct l.
  - rewrite <- (drop_app_le ds [d]) by lia. f_equal. lia.
Qed.

Lemma note_technique_names w t now ts :
  (tr_technique <$> (note_technique w t now ts).2) =
  if bool_decide (t ∈ tr_technique <$> ts) then tr_technique <$> ts
  else (tr_technique <$> ts) ++ [t].
Proof.
  induction ts as [|r ts IH]; [done|]. cbn [note_technique].
  destruct (String.eqb_spec (tr_technique r) t) as [E|E]; cbn [snd]; rewrite !fmap_cons.
  - rewrite bool_decide_true by set_solver. by destruct (_ <=? _).
  - destruct (note_technique w t now ts) as [dup ts'] eqn:En. cbn [snd] in *.
    rewrite !fmap_cons, IH. destruct (decide (t ∈ tr_technique <$> ts)).
    + rewrite !bool_decide_true by set_solver. done.
    + rewrite !bool_decide_false by set_solver. done.
Qed.

(** What the state holds of the findings [fs] folded into it so far. *)
Record folded (fs : list Finding) (s : EntityState) : Prop := {
  fo_severity : Severity_rank (es_severity s) =
                foldr Z.max 0 ((fun f => Severity_rank (det_severity (fd_detection f))) <$> fs);
  fo_techniques : NoDup (tr_technique <$> es_techniques s) /\
                  forall t, t ∈ tr_technique <$> es_techniques s <-> exists f, f ∈ fs /\ t = fd_technique f;
  fo_sources : NoDup (es_sources s) /\
               forall x, x ∈ es_sources s <-> exists f, f ∈ fs /\ x = det_source (fd_detection f);
  fo_detections : es_detections s = last_n EVIDENCE_CAP (fd_detection <$> fs);
  fo_score_some : forall x, es_score s = Some x -> exists f, f ∈ fs /\ det_score (fd_detection f) = Some x;
  fo_score_none : es_score s = None -> forall f, f ∈ fs -> det_score (fd_detection f) = None }.

Lemma foldr_max_snoc l x : 0 <= x -> foldr Z.max 0 (l ++ [x]) = Z.max (foldr Z.max 0 l) x.
Proof. intros. induction l as [|y l IH]; simpl; lia. Qed.

Lemma Severity_rank_nonneg s : 0 <= Severity_rank s.
Proof. destruct s; simpl; lia. Qed.

Lemma nodup_snoc {A} (l : list A) x : NoDup l -> x ∉ l -> NoDup (l ++ [x]).
Proof. intros. apply NoDup_app. split_and!; [done|set_solver|apply NoDup_singleton]. Qed.

Lemma exists_snoc {A} (P : A -> Prop) fs f :
  (exists g, g ∈ fs ++ [f] /\ P g) <-> (exists g, g ∈ fs /\ P g) \/ P f.
Proof. set_solver. Qed.

Lemma folded_step w fs s f :
  folded fs s -> folded (fs ++ [f]) (fold_one w s f).2.
Proof.
  intros [Hsev [Hnt Ht] [Hns Hs] Hd Hss Hsn].
  unfold fold_one, fold_finding.
  pose proof (note_technique_names w (fd_technique f) (fd_now_ns f) (es_techniques s)) as Hnames.
  destruct (note_technique _ _ _ _) as [dup ts]. cbn [snd] in *.
  split; cbn [es_severity es_techniques es_sources es_detections es_score].
  - rewrite fmap_app, list_fmap_singleton, foldr_max_snoc by apply Severity_rank_nonneg.
    rewrite <- Hsev.
    unfold severity_gt. case_bool; lia.
  - rewrite Hnames. case_bool_decide; (split; [try done; by apply nodup_snoc|]); intros t;
      rewrite exists_snoc, ?elem_of_app, ?list_elem_of_singleton, Ht; [|done].
    split; [tauto|]. intros [|E]; [done|]. subst t. by apply Ht.
  - clear Hnames. case_bool_decide; (split; [try done; by apply nodup_snoc|]); intros x;
      rewrite exists_snoc, ?elem_of_app, ?list_elem_of_singleton, Hs; [|done].
    split; [tauto|]. intros [|E]; [done|]. subst x. by apply Hs.
  - rewrite Hd, push_evidence_last, fmap_app. done.
  - intros x. unfold score_raised.
    destruct (det_score (fd_detection f)) as [n|] eqn:E, (es_score s) as [c|] eqn:Es;
      try destruct (f_gt n c); intros [= <-]; rewrite exists_snoc; auto; left; by apply Hss.
  - unfold score_raised. destruct (det_score (fd_detection f)) as [n|] eqn:E, (es_score s) as [c|] eqn:Es;
      try destruct (f_gt n c); try done. intros _ g [Hg|Hg]%elem_of_app; [by apply Hsn|].
    apply list_elem_of_singleton in Hg. by subst.
Qed.

(** The score is the highest one seen, as long as no engine reported NaN. *)
Definition score_top (fs : list Finding) (s : EntityState) : Prop :=
  forall f y, f ∈ fs -> det_score (fd_detection f) = Some y ->
  exists x, es_score s = Some x /\ f_is_nan x = false /\ f_lt x y = false.

Definition scores_not_nan (fs : list Finding) : Prop :=
  forall f y, f ∈ fs -> det_score (fd_detection f) = Some y -> f_is_nan y = false.

Lemma fold_one_score w s f :
  es_score (fold_one w s f).2 =
  if score_raised (det_score (fd_detection f)) (es_score s)
  then det_score (fd_detection f) else es_score s.
Proof. unfold fold_one, fold_finding. by destruct (note_technique _ _ _ _). Qed.

Lemma score_top_step w fs s f :
  score_top fs s -> folded fs s -> scores_not_nan (fs ++ [f]) ->
  score_top (fs ++ [f]) (fold_one w s f).2.
Proof.
  intros Htop Hfo Hnn g y Hg Hy. rewrite fold_one_score. unfold score_raised.
  assert (f_is_nan y = false) as Hyn by (by apply (Hnn g y)).
  apply elem_of_app in Hg as [Hg| ->%list_elem_of_singleton].
  - destruct (Htop g y Hg Hy) as (x & Hx & Hxn & Hxy). rewrite Hx.
    destruct (det_score (fd_detection f)) as [n|] eqn:En; [|eauto].
    destruct (f_gt n x) eqn:Egt; [|eauto]. unfold f_gt in Egt. exists n.
    assert (f_is_nan n = false) by (apply (Hnn f n); [set_solver|done]).
    split_and!; [done..|]. by apply (f_nlt_trans y x n Hxn Hxy), f_lt_asym.
  - rewrite Hy. destruct (es_score s) as [c|] eqn:Ec.
    + destruct (f_gt y c) eqn:E; [exists y; split_and!; [done..|apply f_lt_irrefl]|].
      exists c. split_and!; [done| |done].
      destruct (fo_score_some _ _ Hfo c Ec) as (h & Hh & Hc).
      apply (Hnn h c); [set_solver|done].
    + exists y. split_and!; [done..|]. apply f_lt_irrefl.
Qed.

Lemma fold_run_snoc w fs f s :
  fold_run w (fs ++ [f]) s =
  ((fold_run w fs s).1 ++ [(fold_one w (fold_run w fs s).2 f).1],
   (fold_one w (fold_run w fs s).2 f).2).
Proof.
  revert s. induction fs as [|g fs IH]; intros s; cbn [app fold_run fst snd].
  - by destruct (fold_one w s f).
  - destruct (fold_one w s g) as [o s1]. rewrite IH. by destruct (fold_run w fs s1).
Qed.

Lemma fold_run_length w fs s : length (fold_run w fs s).1 = length fs.
Proof.
  revert s. induction fs as [|f fs IH]; intros s; cbn [fold_run]; [done|].
  destruct (fold_one w s f) as [o s1]. specialize (IH s1).
  destruct (fold_run w fs s1). simpl in *. lia.
Qed.

Lemma folded_new g : folded [] (EntityState_new g).
Proof.
  split; simpl; try done; [split; [apply NoDup_nil_2|set_solver]..|set_solver].
Qed.

Lemma folded_run w g fs : folded fs (fold_run w fs (EntityState_new g)).2.
Proof.
  induction fs as [|f fs IH] using rev_ind; [apply folded_new|].
  rewrite fold_run_snoc. by apply folded_step.
Qed.

Lemma scores_not_nan_app fs gs : scores_not_nan (fs ++ gs) -> scores_not_nan fs.
Proof. intros H f y Hf. apply H. set_solver. Qed.

Lemma score_top_run w g fs :
  scores_not_nan fs -> score_top fs (fold_run w fs (EntityState_new g)).2.
Proof.
  induction fs as [|f fs IH] using rev_ind; intros Hn.
  - intros f y Hf. set_solver.
  - rewrite fold_run_snoc. apply score_top_step; [|apply folded_run|done].
    apply IH. by eapply scores_not_nan_app.
Qed.

(** The answer to the [i]-th finding is the fold of that finding into the
    state the earlier ones left. *)
Lemma fold_run_lookup w fs s i o :
  (fold_run w fs s).1 !! i = Some o ->
  exists f, fs !! i = Some f /\ take (S i) fs = take i fs ++ [f] /\
    o = (fold_one w (fold_run w (take i fs) s).2 f).1 /\
    (fold_run w (take (S i) fs) s).2 = (fold_one w (fold_run w (take i fs) s).2 f).2.
Proof.
  revert s i. induction fs as [|f fs IH]; intros s i; [done|]. cbn [fold_run].
  destruct (fold_one w s f) as [o1 s1] eqn:E1. specialize (IH s1).
  destruct (fold_run w fs s1) as [os s2] eqn:E2. destruct i as [|i].
  - intros [= ->]. exists f. cbn [take fold_run]. rewrite take_0. simpl. rewrite E1. done.
  - intros Hi. destruct (IH i Hi) as (f' & Hf' & Htk & Ho & Hs). exists f'.
    split_and!; [done|by rewrite !firstn_cons, Htk|..].
    + rewrite firstn_cons. cbn [fold_run]. rewrite E1. by destruct (fold_run w (take i fs) s1).
    + rewrite !(firstn_cons _ f). cbn [fold_run]. rewrite E1.
      destruct (fold_run w (take (S i) fs) s1), (fold_run w (take i fs) s1). exact Hs.
Qed.

Lemma fold_one_verdict w s f vd :
  (fold_one w s f).1 = Some vd -> vd = verdict_of (fd_entity f) (fold_one w s f).2.
Proof.
  unfold fold_one, fold_finding. destruct (note_technique _ _ _ _) as [[] ts]; simpl;
    repeat case_match; naive_solver.
Qed.

(** *** The dedup window *)

Lemma note_technique_spec w t now ts :
  let '(dup, ts') := note_technique w t now ts in
  (dup = true -> exists r, r ∈ ts /\ tr_technique r = t /\ now -sat tr_window_start_ns r <= w) /\
  (forall r, r ∈ ts' -> r ∈ ts \/ (dup = false /\ r = mkTechniqueRecord t now)).
Proof.
  induction ts as [|r ts IH]; cbn [note_technique]; [set_solver|].
  destruct (String.eqb_spec (tr_technique r) t) as [E|E].
  - split.
    + intros H%Z.leb_le. exists r. set_solver.
    + destruct (_ <=? _); intros r' [->|Hr]%elem_of_cons; [set_solver..| |set_solver].
      right. by subst.
  - destruct (note_technique w t now ts) as [dup ts']. destruct IH as [H1 H2]. split.
    + intros Hd. destruct (H1 Hd) as (r' & Hr' & ?). exists r'. set_solver.
    + intros r' [->|Hr']%elem_of_cons; [set_solver|]. destruct (H2 r' Hr'); set_solver.
Qed.

(** Every open window was opened by a finding that was answered. *)
Definition windows_answered (fs : list Finding) (os : list (option Verdict)) (s : EntityState) : Prop :=
  forall r, r ∈ es_techniques s ->
  exists j f vd, fs !! j = Some f /\ os !! j = Some (Some vd) /\
    fd_technique f = tr_technique r /\ fd_now_ns f = tr_window_start_ns r.

Lemma windows_answered_step w fs os s f :
  length os = length fs -> windows_answered fs os s ->
  windows_answered (fs ++ [f]) (os ++ [(fold_one w s f).1]) (fold_one w s f).2.
Proof.
  intros Hlen Hw r. unfold fold_one, fold_finding.
  pose proof (note_technique_spec w (fd_technique f) (fd_now_ns f) (es_techniques s)) as Hn.
  destruct (note_technique _ _ _ _) as [dup ts]. destruct Hn as [_ Hn].
  cbn [fst snd es_techniques]. intros Hr. destruct (Hn r Hr) as [Hold|[-> ->]].
  - destruct (Hw r Hold) as (j & g & vd & Hg & Ho & ?). exists j, g, vd.
    split_and!; [by apply lookup_app_l_Some|by apply lookup_app_l_Some|naive_solver..].
  - exists (length fs), f. eexists. cbn [andb].
    split_and!; [by rewrite list_lookup_middle|by rewrite list_lookup_middle|done..].
Qed.

Lemma windows_answered_run w g fs :
  windows_answered fs (fold_run w fs (EntityState_new g)).1 (fold_run w fs (EntityState_new g)).2.
Proof.
  induction fs as [|f fs IH] using rev_ind.
  - intros r Hr. set_solver.
  - rewrite fold_run_snoc. cbn [fst snd]. apply windows_answered_step; [|done].
    apply fold_run_length.
Qed.

Lemma fold_run_take w fs s i : (fold_run w (take i fs) s).1 = take i (fold_run w fs s).1.
Proof.
  revert s i. induction fs as [|f fs IH]; intros s [|i]; cbn [take fold_run]; [done..|].
  destruct (fold_one w s f) as [o s1]. specialize (IH s1 i).
  destruct (fold_run w (take i fs) s1), (fold_run w fs s1). simpl in *. by rewrite IH.
Qed.

(** *** The engine *)

(** The state a finding on [entity] is folded into: the entity's own one when
    its parent incarnation may be the same, a new one otherwise. *)
Definition start_state (v : VerdictEngine) (entity : EntityKey) : EntityState :=
  match bm_peek (ek_ppid entity, ek_comm entity) (ve_entities v) with
  | Some s => if same_generation (es_parent_generation s) (ek_parent_generation entity)
              then s else EntityState_new (ek_parent_generation entity)
  | None => EntityState_new (ek_parent_generation entity)
  end.

Definition ve_ok (v : VerdictEngine) : Prop := bm_ok (ve_entities v).

Lemma record_effect v e t d now :
  ve_ok v -> tick (ve_entities v) < U64_MAX -> is_suppressed v e t = false ->
  let id := (ek_ppid e, ek_comm e) in
  let r := fold_finding (ve_dedup_window_ns v) e t d now (start_state v e) in
  exists v', record v e t d now = Some (r.1, v') /\ ve_ok v' /\
    bm_peek id (ve_entities v') = Some r.2 /\
    bm_frame id (ve_entities v) (ve_entities v') /\
    ve_suppressed v' = ve_suppressed v /\ ve_dedup_window_ns v' = ve_dedup_window_ns v.
Proof.
  intros Hok Ht Hsup id r. unfold record. rewrite Hsup. fold id.
  assert (exists b, match bm_peek id (ve_entities v) with
    | Some s => if same_generation (es_parent_generation s) (ek_parent_generation e)
                then ve_entities v else (bm_remove id (ve_entities v)).2
    | None => ve_entities v end = b /\ bm_ok b /\ tick b = tick (ve_entities v) /\
    default (EntityState_new (ek_parent_generation e)) (bm_peek id b) = start_state v e /\
    (forall b', bm_frame id b b' -> bm_frame id (ve_entities v) b'))
    as (b & -> & Hb & Htk & Hst & Hfr).
  { unfold start_state. fold id. destruct (bm_peek id (ve_entities v)) as [s|] eqn:E.
    - destruct (same_generation _ _).
      + eexists. rewrite E. split_and!; done.
      + eexists. split; [done|].
        destruct (bm_remove_client (ve_entities v) id Hok) as (H1 & H2 & H3 & H4).
        rewrite H2. split_and!; [done..|]. intros b' [F1 F2]. split.
        * intros k' Hne. rewrite <- H3 by done. auto.
        * intros Hlen k' Hne. rewrite <- H3 by done. apply F2; [|done].
          change (cap (bm_remove id (ve_entities v)).2) with (cap (ve_entities v)). lia.
    - eexists. rewrite E. split_and!; done. }
  destruct (bm_get_or_insert_client b id (EntityState_new (ek_parent_generation e))
    (fun s => (fold_finding (ve_dedup_window_ns v) e t d now s).2) Hb) as
    (b' & Hr & Hb' & Hp & Hf & _); [lia|].
  cbv zeta. rewrite Hr. simpl. rewrite Hst in *.
  eexists. split; [done|]. simpl. split_and!; [done|done|by apply Hfr|done..].
Qed.

Lemma is_suppressed_true v e t :
  is_suppressed v e t = true <->
  exists m, m ∈ ve_suppressed v /\ m.2 = t /\ ek_ppid m.1 = ek_ppid e /\ ek_comm m.1 = ek_comm e /\
    same_generation (ek_parent_generation m.1) (ek_parent_generation e) = true.
Proof.
  unfold is_suppressed, mark_applies. rewrite existsb_exists. split; intros (m & Hm & H); exists m.
  - apply list_elem_of_In, elem_of_elements in Hm. rewrite !andb_true_iff in H.
    destruct H as [[[H1%String.eqb_eq H2%Z.eqb_eq] H3%String.eqb_eq] H4]. done.
  - split; [by apply list_elem_of_In, elem_of_elements|]. destruct H as (-> & -> & -> & ->).
    by rewrite !String.eqb_refl, Z.eqb_refl.
Qed.

Lemma same_generation_refl g : same_generation g g = true.
Proof. destruct g; simpl; [apply Z.eqb_refl|done]. Qed.

Lemma unsuppress_set v e t :
  ve_suppressed (unsuppress v e t).2 = ve_suppressed v ∖ {[(e, t)]}.
Proof.
  unfold unsuppress. simpl. apply set_eq. intros [e' t']. rewrite elem_of_filter. simpl. set_solver.
Qed.

Lemma record_suppressed v e t d now :
  is_suppressed v e t = true -> record v e t d now = Some (None, v).
Proof. intros H. unfold record. by rewrite H. Qed.

Lemma mark_suppresses v e e' t :
  (e', t) ∈ ve_suppressed v -> ek_ppid e' = ek_ppid e -> ek_comm e' = ek_comm e ->
  same_generation (ek_parent_generation e') (ek_parent_generation e) = true ->
  is_suppressed v e t = true.
Proof. intros. apply is_suppressed_true. exists (e', t). done. Qed.

Lemma mark_key_inj a b : mark_key a = mark_key b -> a = b.
Proof. destruct a as [[] ], b as [[] ]. unfold mark_key. simpl. congruence. Qed.

#[global] Instance mark_le_total : Total mark_le.
Proof. intros a b. unfold mark_le. apply (cmp_le_total (mark_key a) (mark_key b)). Qed.
#[global] Instance mark_le_trans : Transitive mark_le.
Proof. intros a b c. unfold mark_le. apply cmp_le_trans. Qed.
#[global] Instance mark_le_antisym : AntiSymm (=) mark_le.
Proof. intros a b Hab Hba. by apply mark_key_inj, (anti_symm cmp_le). Qed.

(** ** Theorems *)

(** C7. A verdict is the whole history of its entity: whatever findings were
    folded, the verdict answered for the [i]-th one has the highest severity of
    the first [i+1], each of their techniques and sources exactly once, their
    last sixteen detections as evidence in order, and a score that one of them
    carried and (NaN apart) none of them exceeds. *)
Theorem verdict_is_history w g fs i vd :
  (fold_run w fs (EntityState_new g)).1 !! i = Some (Some vd) ->
  exists f s, fs !! i = Some f /\ vd = verdict_of (fd_entity f) s /\
    folded (take (S i) fs) s /\
    (scores_not_nan fs -> score_top (take (S i) fs) s).
Proof.
  intros Hi. destruct (fold_run_lookup _ _ _ _ _ Hi) as (f & Hf & Htk & Ho & Hs).
  exists f, (fold_run w (take (S i) fs) (EntityState_new g)).2.
  split_and!; [done| |apply folded_run|].
  - rewrite Hs. by apply fold_one_verdict.
  - intros Hn. apply score_top_run. rewrite <- (take_drop (S i) fs) in Hn.
    by eapply scores_not_nan_app.
Qed.

(** No finding is lost to deduplication for longer than one window: a
    finding answered with nothing repeats a technique for which an earlier
    finding of the same entity was answered with a verdict at most
    [dedup_window_ns] before it. *)
Theorem silent_is_duplicate w g fs i :
  (fold_run w fs (EntityState_new g)).1 !! i = Some None ->
  exists j fj fi vd, (j < i)%nat /\ fs !! j = Some fj /\ fs !! i = Some fi /\
    fd_technique fj = fd_technique fi /\
    (fold_run w fs (EntityState_new g)).1 !! j = Some (Some vd) /\
    fd_now_ns fi -sat fd_now_ns fj <= w.
Proof.
  intros Hi. destruct (fold_run_lookup _ _ _ _ _ Hi) as (f & Hf & _ & Ho & _).
  pose proof (windows_answered_run w g (take i fs)) as Hw.
  revert Ho. unfold fold_one, fold_finding.
  set (s := (fold_run w (take i fs) (EntityState_new g)).2) in *.
  pose proof (note_technique_spec w (fd_technique f) (fd_now_ns f) (es_techniques s)) as Hn.
  destruct (note_technique _ _ _ _) as [[] ts]; [|done]. intros _.
  destruct Hn as [Hn _]. destruct (Hn eq_refl) as (r & Hr & Hrt & Hrw).
  destruct (Hw r Hr) as (j & fj & vd & Hj & Hoj & Htj & Hnj).
  rewrite fold_run_take in Hoj. apply lookup_take_Some in Hj as [Hj Hlt], Hoj as [Hoj _].
  exists j, fj, f, vd. split_and!; [done..|congruence|done|congruence].
Qed.

(** [record] never panics and folds the finding into exactly one entity:
    an unsuppressed finding is folded into the entity's current state, or into
    a fresh one when the parent pid was recycled, and no other entity's state
    changes except by eviction, which needs a full map. *)
Theorem record_isolated v e t d now :
  ve_ok v -> tick (ve_entities v) < U64_MAX -> is_suppressed v e t = false ->
  let id := (ek_ppid e, ek_comm e) in
  let r := fold_finding (ve_dedup_window_ns v) e t d now (start_state v e) in
  exists v', record v e t d now = Some (r.1, v') /\ ve_ok v' /\
    bm_peek id (ve_entities v') = Some r.2 /\
    bm_frame id (ve_entities v) (ve_entities v') /\
    ve_suppressed v' = ve_suppressed v.
Proof.
  intros Hok Ht Hs id r. destruct (record_effect v e t d now Hok Ht Hs) as (v' & H).
  exists v'. naive_solver.
Qed.

(** A recycled parent pid inherits nothing: when the entity's state
    belongs to another known incarnation of the parent, the finding is answered
    with a verdict built from it alone. *)
Theorem recycled_parent_starts_clean v e t d now s a b :
  ve_ok v -> tick (ve_entities v) < U64_MAX -> is_suppressed v e t = false ->
  bm_peek (ek_ppid e, ek_comm e) (ve_entities v) = Some s ->
  es_parent_generation s = Some a -> ek_parent_generation e = Some b -> a <> b ->
  exists vd v', record v e t d now = Some (Some vd, v') /\
    v_techniques vd = [t] /\ v_sources vd = [det_source d] /\ v_detections vd = [d] /\
    v_severity vd = det_severity d /\ v_score vd = det_score d /\
    verdict_peek v' e = Some vd /\ verdict_peek v' (with_parent_generation e (Some a)) = None.
Proof.
  intros Hok Ht Hs Hp Ha Hb Hne.
  destruct (record_effect v e t d now Hok Ht Hs) as (v' & Hr & _ & Hpk & _).
  assert (start_state v e = EntityState_new (Some b)) as Hst.
  { unfold start_state. rewrite Hp, Ha, Hb. simpl. case_bool; [lia|done]. }
  rewrite Hst in *.
  unfold fold_finding in *. rewrite Hb in *.
  cbn [note_technique es_techniques EntityState_new es_sources es_severity es_score es_detections
       es_parent_generation] in *.
  rewrite bool_decide_false in * by set_solver. cbn [andb fst snd] in *.
  eexists _, v'. split; [exact Hr|]. cbn [verdict_of v_techniques v_sources v_detections v_severity
    v_score es_severity es_score es_techniques es_sources es_detections].
  split_and!; [done..| | | |].
  - unfold severity_gt. by destruct (det_severity d).
  - unfold score_raised. by destruct (det_score d).
  - unfold verdict_peek. rewrite Hpk. simpl. by rewrite Hb, Z.eqb_refl.
  - unfold verdict_peek, with_parent_generation. cbn [ek_ppid ek_comm ek_parent_generation].
    rewrite Hpk. simpl. case_bool; [lia|done].
Qed.

(** The suppression list: [suppress] records a mark unless it is there or
    1024 are active, and never grows past that bound; once recorded, every
    finding of the technique on that entity is dropped with the engine
    unchanged, whatever the incarnation when the mark carries no stamp; and
    [unsuppress] takes a fresh mark back exactly. *)
Theorem suppression_contract v e t :
  (size (ve_suppressed v) <= MAX_SUPPRESSIONS)%nat ->
  let '(o, v') := suppress v e t in
  (size (ve_suppressed v') <= MAX_SUPPRESSIONS)%nat /\
  match o with
  | Added => ve_suppressed v' = {[(e, t)]} ∪ ve_suppressed v /\ unsuppress v' e t = (true, v)
  | AlreadySuppressed => v' = v /\ (e, t) ∈ ve_suppressed v
  | Full => v' = v /\ ((e, t) ∉ ve_suppressed v) /\ size (ve_suppressed v) = MAX_SUPPRESSIONS
  end /\
  (o <> Full -> forall g d now,
     ek_parent_generation e = None \/ same_generation (ek_parent_generation e) g = true ->
     record v' (with_parent_generation e g) t d now = Some (None, v')).
Proof.
  intros Hsz. unfold suppress. case_bool_decide as Hin; [|destruct (Nat.leb_spec MAX_SUPPRESSIONS (size (ve_suppressed v))) as [Hf|Hf]].
  - split_and!; [done..|]. intros _ g d now Hg. apply record_suppressed.
    apply (mark_suppresses _ _ e); [done..|]. destruct Hg as [Hg|Hg]; [by rewrite Hg|done].
  - split_and!; [done..|lia|done].
  - cbn [ve_suppressed]. rewrite size_union, size_singleton by set_solver. split_and!; [lia|done| |].
    + unfold unsuppress. cbn [ve_suppressed ve_entities ve_dedup_window_ns].
      assert (filter (fun m => ~ (m.1 = e /\ m.2 = t)) ({[(e, t)]} ∪ ve_suppressed v) = ve_suppressed v) as ->.
      { apply set_eq. intros [e' t']. rewrite elem_of_filter. simpl. set_solver. }
      rewrite size_union, size_singleton by set_solver.
      rewrite (proj2 (Nat.eqb_neq _ _)) by lia. by destruct v.
    + intros _ g d now Hg. apply record_suppressed.
      apply (mark_suppresses _ _ e); [simpl; set_solver|done..|].
      destruct Hg as [Hg|Hg]; [by rewrite Hg|done].
Qed.

(** [suppressions] is a function of the marks alone: in whatever order the
    hash set yields them, the listing is the same, sorted, and complete. *)
Theorem suppressions_deterministic v marks :
  marks ≡ₚ elements (ve_suppressed v) ->
  sort_marks marks = suppressions v /\ StronglySorted mark_le (suppressions v) /\
  NoDup (suppressions v) /\ (forall m, m ∈ suppressions v <-> m ∈ ve_suppressed v).
Proof.
  intros Hp. unfold suppressions, sort_marks. split_and!.
  - apply (StronglySorted_unique mark_le); [apply (StronglySorted_merge_sort mark_le)..|].
    by rewrite !merge_sort_Permutation.
  - apply (StronglySorted_merge_sort mark_le).
  - rewrite merge_sort_Permutation. apply NoDup_elements.
  - intros m. rewrite merge_sort_Permutation. apply elem_of_elements.
Qed.

(** ** Witnesses *)

Definition sample_detection (sev : Severity) (sc : option f64) : Detection :=
  mkDetection 5 sev "t" (Source_Rule "r1") sc [] [] [].

Definition sample_key : EntityKey := mkEntityKey 7 "sh" (Some 1).

Definition sample_findings : list Finding :=
  [mkFinding sample_key "T1059" (sample_detection Medium None) 100;
   mkFinding sample_key "T1059" (sample_detection Low None) 150;
   mkFinding sample_key "T1105" (sample_detection High (Some (f64_lit 1 2))) 200].

Definition sample_engine : VerdictEngine :=
  mkVerdictEngine (mkBounded {[ (7, "sh") := (EntityState_new (Some 1), 1) ]} 4 1 0) ∅ 60.

Lemma sample_engine_ok : ve_ok sample_engine.
Proof.
  exists [((7, "sh"), EntityState_new (Some 1))].
  exists [((7, "sh"), (EntityState_new (Some 1), 1))].
  split; [|split; [done|simpl; lia]]. split; simpl; try lia.
  - intros k x. rewrite lookup_singleton_Some, list_elem_of_singleton. naive_solver.
  - apply NoDup_singleton.
  - repeat constructor.
  - intros e ->%list_elem_of_singleton. simpl. lia.
  - unfold U64_MAX. lia.
Qed.

Lemma verdict_is_history_witness :
  exists vd, (fold_run 60 sample_findings (EntityState_new (Some 1))).1 !! 2%nat = Some (Some vd) /\
    exists f s, sample_findings !! 2%nat = Some f /\ vd = verdict_of (fd_entity f) s /\
      folded (take 3 sample_findings) s /\
      (scores_not_nan sample_findings -> score_top (take 3 sample_findings) s).
Proof.
  eexists. split; [vm_compute; reflexivity|].
  apply (verdict_is_history 60 (Some 1) sample_findings 2). vm_compute. reflexivity.
Defined.

Lemma silent_is_duplicate_witness :
  exists j fj fi vd, (j < 1)%nat /\ sample_findings !! j = Some fj /\ sample_findings !! 1%nat = Some fi /\
    fd_technique fj = fd_technique fi /\
    (fold_run 60 sample_findings (EntityState_new (Some 1))).1 !! j = Some (Some vd) /\
    fd_now_ns fi -sat fd_now_ns fj <= 60.
Proof. apply (silent_is_duplicate 60 (Some 1) sample_findings 1). vm_compute. reflexivity. Defined.

Lemma record_isolated_witness :
  exists v', record sample_engine sample_key "T1" (sample_detection High None) 9 =
    Some ((fold_finding 60 sample_key "T1" (sample_detection High None) 9
             (start_state sample_engine sample_key)).1, v') /\ ve_ok v'.
Proof.
  destruct (record_isolated sample_engine sample_key "T1" (sample_detection High None) 9
    sample_engine_ok) as (v' & H1 & H2 & _); [done|vm_compute; reflexivity|].
  exists v'. split; [exact H1|exact H2].
Defined.

Lemma recycled_parent_starts_clean_witness :
  exists vd v', record sample_engine (mkEntityKey 7 "sh" (Some 2)) "T1" (sample_detection High None) 9 =
    Some (Some vd, v') /\ v_detections vd = [sample_detection High None].
Proof.
  destruct (recycled_parent_starts_clean sample_engine (mkEntityKey 7 "sh" (Some 2)) "T1"
    (sample_detection High None) 9 (EntityState_new (Some 1)) 1 2 sample_engine_ok)
    as (vd & v' & H1 & _ & _ & H2 & _); [done|vm_compute; reflexivity|vm_compute; reflexivity|done|done|lia|].
  exists vd, v'. split; [exact H1|exact H2].
Defined.

Lemma suppression_contract_witness :
  (size (ve_suppressed sample_engine) <= MAX_SUPPRESSIONS)%nat /\
  record (suppress sample_engine sample_key "T1").2 sample_key "T1" (sample_detection High None) 9 =
    Some (None, (suppress sample_engine sample_key "T1").2).
Proof.
  assert (size (ve_suppressed sample_engine) <= MAX_SUPPRESSIONS)%nat as Hs
    by (apply Nat.leb_le; vm_compute; reflexivity).
  split; [exact Hs|].
  pose proof (suppression_contract sample_engine sample_key "T1" Hs) as H.
  assert ((suppress sample_engine sample_key "T1").1 = Added) as Ho by (vm_compute; reflexivity).
  destruct (suppress sample_engine sample_key "T1") as [o v'] eqn:E. simpl in Ho |- *. subst o.
  destruct H as (_ & _ & H). apply (H ltac:(discriminate) (Some 1)). right. reflexivity.
Defined.

Lemma suppressions_deterministic_witness :
  sort_marks (elements (ve_suppressed (suppress sample_engine sample_key "T1").2)) =
  suppressions (suppress sample_engine sample_key "T1").2.
Proof. apply (suppressions_deterministic (suppress sample_engine sample_key "T1").2). reflexivity. Defined.
