(* ===== verification/Fs.v ===== *)
(** * Fs: the file system the components write to

    A file system is a finite map from absolute paths to nodes, with a script
    of I/O failures: every call that reads or writes the disk takes the next
    entry of the script and fails when it is [Some n], a write after its first
    [n] bytes and a recursive removal after its first [n] deletions; an
    exhausted script means no more failures.  A theorem quantified over the
    script holds for every pattern of I/O errors.  Metadata probes ([is_dir],
    [is_file], [read_link], [symlink_metadata], [read_dir]) read the map.

    Paths are taken literally: a call on [a/b/c] looks at that key, so the
    directories on the way are assumed not to be symbolic links (which is what
    [reject_symlink_components] checks before each write). *)
From stdpp Require Import base gmap strings list sorting.
From Stdlib Require Import ZArith Lia.
From S2P Require Import Prelude Str.

Inductive result (A E : Type) := Ok (a : A) | Err (e : E).
Arguments Ok {A E} a.
Arguments Err {A E} e.

Definition bytes : Type := list Z.
Notation path := (list string) (only parsing).

Inductive node := NDir | NFile (data : bytes) | NLink (absolute : bool) (target : path).
#[global] Instance node_eq_dec : EqDecision node.
Proof. solve_decision. Defined.

(** [std::io::ErrorKind], as far as the code distinguishes kinds. *)
Inductive io_error := NotFound | InvalidData | AlreadyExists | OtherIo.
#[global] Instance io_error_eq_dec : EqDecision io_error.
Proof. solve_decision. Defined.

Record fsys := mkFs { nodes : gmap path node; faults : list (option nat) }.

(** The I/O error monad: a computation runs on a file system and leaves one,
    whether it succeeds or fails. *)
Definition IO (E A : Type) : Type := fsys -> result A E * fsys.

Definition io_ret {E A} (a : A) : IO E A := fun s => (Ok a, s).
Definition io_fail {E A} (e : E) : IO E A := fun s => (Err e, s).
Definition io_bind {E A B} (m : IO E A) (k : A -> IO E B) : IO E B :=
  fun s => match m s with
           | (Ok a, s) => k a s
           | (Err e, s) => (Err e, s)
           end.
Notation "x '<-!' m ';' k" := (io_bind m (fun x => k))
  (at level 20, m at level 100, k at level 200, right associativity) : edr_scope.
Notation "m ';;!' k" := (io_bind m (fun _ => k))
  (at level 100, k at level 200, right associativity) : edr_scope.

(** [map_err], and [let _ = m]: run and discard an error. *)
Definition io_map_err {E F A} (f : E -> F) (m : IO E A) : IO F A :=
  fun s => match m s with (Ok a, s) => (Ok a, s) | (Err e, s) => (Err (f e), s) end.
Definition io_ignore {E F A} (m : IO E A) : IO F unit := fun s => (Ok tt, (m s).2).

(** Run [h] on an error, on the file system the failure left. *)
Definition io_on_err {E F A : Type} (m : IO E A) (h : E -> IO F A) : IO F A :=
  fun s => match m s with (Ok a, s) => (Ok a, s) | (Err e, s) => h e s end.

(** A pure observation of the file system. *)
Definition io_get {E A : Type} (f : gmap path node -> A) : IO E A := fun s => (Ok (f (nodes s)), s).

(** The next entry of the failure script. *)
Definition next_fault (s : fsys) : option nat * fsys :=
  match faults s with
  | [] => (None, s)
  | f :: fs => (f, mkFs (nodes s) fs)
  end.

(** One call: [ok] transforms the map or reports an error; a failure of the
    script leaves what [broken n] describes. *)
Definition syscall {A : Type} (ok : gmap path node -> result (A * gmap path node) io_error)
    (broken : nat -> gmap path node -> gmap path node) : IO io_error A :=
  fun s =>
    let '(f, s) := next_fault s in
    match f with
    | Some n => (Err OtherIo, mkFs (broken n (nodes s)) (faults s))
    | None => match ok (nodes s) with
              | Ok (a, m) => (Ok a, mkFs m (faults s))
              | Err e => (Err e, s)
              end
    end.

Definition untouched (n : nat) (m : gmap path node) : gmap path node := m.

(** ** Probes *)

Definition is_dir (p : path) (m : gmap path node) : bool :=
  match m !! p with Some NDir => true | _ => false end.
Definition is_file (p : path) (m : gmap path node) : bool :=
  match m !! p with Some (NFile _) => true | _ => false end.
Definition is_symlink (p : path) (m : gmap path node) : bool :=
  match m !! p with Some (NLink _ _) => true | _ => false end.
Definition read_link (p : path) (m : gmap path node) : option (bool * path) :=
  match m !! p with Some (NLink a t) => Some (a, t) | _ => None end.

Definition parent (p : path) : path := removelast p.

(** The name of a key that is a direct child of [d]. *)
Definition child_of (d p : path) : option string :=
  match last p with
  | Some name => if decide (removelast p = d) then Some name else None
  | None => None
  end.

(** [fs::read_dir]: the children's names; [None] when [d] is not a directory. *)
Definition read_dir (d : path) (m : gmap path node) : option (list string) :=
  if is_dir d m then Some (omap (fun kv => child_of d kv.1) (map_to_list m)) else None.

(** ** Calls *)

Definition fs_read (p : path) : IO io_error bytes :=
  syscall (fun m => match m !! p with
                    | Some (NFile b) => Ok (b, m)
                    | None => Err NotFound
                    | Some _ => Err OtherIo
                    end) untouched.

Definition can_create (p : path) (m : gmap path node) : bool := is_dir (parent p) m.

(** [fs::write]: truncate, then write; an existing file is replaced in place. *)
Definition fs_write (p : path) (b : bytes) : IO io_error unit :=
  syscall (fun m => match m !! p with
                    | Some NDir => Err OtherIo
                    | _ => if can_create p m then Ok (tt, <[p := NFile b]> m) else Err NotFound
                    end)
          (fun n m => match m !! p with
                      | Some NDir => m
                      | _ => if can_create p m then <[p := NFile (take n b)]> m else m
                      end).

(** [OpenOptions::create_new]: an existing entry, even a dangling link, is an
    error. *)
Definition fs_create_new (p : path) : IO io_error unit :=
  syscall (fun m => match m !! p with
                    | Some _ => Err AlreadyExists
                    | None => if can_create p m then Ok (tt, <[p := NFile []]> m) else Err NotFound
                    end) untouched.

Definition fs_symlink (absolute : bool) (target p : path) : IO io_error unit :=
  syscall (fun m => match m !! p with
                    | Some _ => Err AlreadyExists
                    | None => if can_create p m then Ok (tt, <[p := NLink absolute target]> m)
                              else Err NotFound
                    end) untouched.

Definition fs_remove_file (p : path) : IO io_error unit :=
  syscall (fun m => match m !! p with
                    | None => Err NotFound
                    | Some NDir => Err OtherIo
                    | Some _ => Ok (tt, delete p m)
                    end) untouched.

(** The entries at and below [p], deepest first. *)
Definition under (p q : path) : Prop := p `prefix_of` q.
#[global] Instance under_dec : RelDecision under.
Proof. intros p q. unfold under. apply _. Defined.

Definition deeper (p q : path) : Prop := (length q <= length p)%nat.
#[global] Instance deeper_dec : RelDecision deeper.
Proof. intros p q. unfold deeper. apply _. Defined.

Definition subtree (p : path) (m : gmap path node) : list path :=
  merge_sort deeper (filter (under p) (map_to_list m).*1).

Definition remove_tree (p : path) (m : gmap path node) : gmap path node :=
  filter (fun kv => ~ under p kv.1) m.

Definition fs_remove_dir_all (p : path) : IO io_error unit :=
  syscall (fun m => match m !! p with
                    | None => Err NotFound
                    | Some (NFile _) => Err OtherIo
                    | Some _ => Ok (tt, remove_tree p m)
                    end)
          (fun n m => delete_all (take n (subtree p m)) m).

(** Moving a subtree: the paths below [src] and [dst] are exchanged in a map
    that has nothing left below [dst]. *)
Definition reroot (src dst q : path) : path :=
  if decide (under src q) then dst ++ drop (length src) q
  else if decide (under dst q) then src ++ drop (length dst) q
  else q.

Definition move_tree (src dst : path) (m : gmap path node) : gmap path node :=
  kmap (reroot src dst) (remove_tree dst m).

Definition has_children (p : path) (m : gmap path node) : bool :=
  existsb (fun q => bool_decide (under p q /\ q <> p)) (map_to_list m).*1.

(** [rename(2)]: replaces a file or link by a file or link and an empty
    directory by a directory, atomically. *)
Definition fs_rename (src dst : path) : IO io_error unit :=
  syscall (fun m =>
    if decide (src = dst) then Ok (tt, m)
    else if decide (under src dst \/ under dst src) then Err OtherIo
    else if negb (can_create dst m) then Err NotFound
    else match m !! src, m !! dst with
         | None, _ => Err NotFound
         | Some NDir, (None | Some NDir) =>
             if has_children dst m then Err OtherIo else Ok (tt, move_tree src dst m)
         | Some NDir, Some _ => Err OtherIo
         | Some _, Some NDir => Err OtherIo
         | Some x, _ => Ok (tt, <[dst := x]> (delete src m))
         end) untouched.

(** [fs::create_dir_all]: every missing directory of the path. *)
Fixpoint create_dirs (todo : path) (done_ : path) (m : gmap path node)
    : result (unit * gmap path node) io_error :=
  match todo with
  | [] => Ok (tt, m)
  | c :: todo =>
      let p := done_ ++ [c] in
      match m !! p with
      | Some NDir => create_dirs todo p m
      | None => create_dirs todo p (<[p := NDir]> m)
      | Some _ => Err OtherIo
      end
  end.

Definition fs_create_dir_all (p : path) : IO io_error unit :=
  syscall (create_dirs p []) untouched.

(** ** Lemmas on paths *)

Definition apart (p q : path) : Prop := ~ under p q /\ ~ under q p.

Lemma under_refl p : under p p.
Proof. unfold under. done. Qed.

Lemma under_app p q : under p (p ++ q).
Proof. unfold under. by apply prefix_app_r. Qed.

Lemma under_inv p q : under p q -> q = p ++ drop (length p) q.
Proof. intros [k ->]. by rewrite drop_app_length. Qed.

Lemma under_trans p q r : under p q -> under q r -> under p r.
Proof. unfold under. by intros ->. Qed.

(** Two prefixes of one path are comparable. *)
Lemma under_common p q r : under p r -> under q r -> under p q \/ under q p.
Proof.
  unfold under. intros Hp Hq. destruct (prefix_weak_total p q r); auto.
Qed.

Lemma not_under_both p q r : apart p q -> under p r -> ~ under q r.
Proof. intros [H1 H2] Hp Hq. destruct (under_common p q r Hp Hq); done. Qed.

Lemma reroot_involutive src dst q :
  apart src dst -> reroot src dst (reroot src dst q) = q.
Proof.
  intros Ha. unfold reroot. destruct (decide (under src q)) as [Hs|Hs].
  - rewrite decide_False; [|intros H; eapply not_under_both; [exact Ha|exact H|apply under_app]].
    rewrite decide_True by apply under_app. rewrite drop_app_length. symmetry. by apply under_inv.
  - destruct (decide (under dst q)) as [Hd|Hd].
    + rewrite decide_True by apply under_app. rewrite drop_app_length. symmetry. by apply under_inv.
    + by rewrite !decide_False.
Qed.

Lemma reroot_inj src dst : apart src dst -> Inj (=) (=) (reroot src dst).
Proof.
  intros Ha p q E. apply (f_equal (reroot src dst)) in E. by rewrite !reroot_involutive in E.
Qed.

Lemma remove_tree_lookup p m q :
  remove_tree p m !! q = if decide (under p q) then None else m !! q.
Proof.
  unfold remove_tree. rewrite map_lookup_filter.
  destruct (m !! q); simpl; repeat case_decide; try done; repeat case_guard; done.
Qed.

Lemma move_tree_lookup src dst m q :
  apart src dst -> move_tree src dst m !! q = remove_tree dst m !! reroot src dst q.
Proof.
  intros Ha. unfold move_tree. rewrite <- (reroot_involutive src dst q Ha) at 1.
  pose proof (reroot_inj src dst Ha). apply lookup_kmap; apply _.
Qed.

Lemma move_tree_other src dst m q :
  apart src dst -> ~ under src q -> ~ under dst q -> move_tree src dst m !! q = m !! q.
Proof.
  intros Ha Hs Hd. rewrite move_tree_lookup, remove_tree_lookup by done.
  assert (reroot src dst q = q) as -> by (unfold reroot; by rewrite !decide_False).
  by rewrite decide_False.
Qed.

Lemma move_tree_moved src dst m q :
  apart src dst -> move_tree src dst m !! (dst ++ q) = m !! (src ++ q).
Proof.
  intros Ha. rewrite move_tree_lookup by done. unfold reroot.
  rewrite decide_False by (intros H; eapply not_under_both; [exact Ha|exact H|apply under_app]).
  rewrite decide_True by apply under_app. rewrite drop_app_length, remove_tree_lookup.
  rewrite decide_False; [done|]. intros H. eapply not_under_both; [exact Ha|apply under_app|exact H].
Qed.

Lemma parent_snoc p c : parent (p ++ [c]) = p.
Proof. unfold parent. apply removelast_last. Qed.

(** ** Footprints

    [touches m P]: the computation [m], whether it succeeds or fails and under
    any failure script, changes the file system only at paths of [P]. *)

Definition touches {E A : Type} (m : IO E A) (P : path -> Prop) : Prop :=
  forall s p, ~ P p -> nodes (m s).2 !! p = nodes s !! p.

Lemma next_fault_nodes s f s' : next_fault s = (f, s') -> nodes s' = nodes s.
Proof. unfold next_fault. destruct (faults s); intros [= <- <-]; done. Qed.

Section Touches.
Context {E A : Type}.
Implicit Types (P : path -> Prop).

Lemma touches_weaken (m : IO E A) P Q : touches m P -> (forall p, P p -> Q p) -> touches m Q.
Proof. intros H HPQ s p Hp. apply H. auto. Qed.

Lemma touches_ret (a : A) P : touches (E := E) (io_ret a) P.
Proof. done. Qed.

Lemma touches_fail (e : E) P : touches (A := A) (io_fail e) P.
Proof. done. Qed.

Lemma touches_get (f : gmap path node -> A) P : touches (E := E) (io_get f) P.
Proof. done. Qed.

Lemma touches_bind {B} (m : IO E A) (k : A -> IO E B) P :
  touches m P -> (forall a, touches (k a) P) -> touches (io_bind m k) P.
Proof.
  intros Hm Hk s p Hp. unfold io_bind. specialize (Hm s p Hp).
  destruct (m s) as [[a|e] s']; [|done]. simpl in Hm. rewrite <- Hm. by apply Hk.
Qed.

Lemma touches_map_err {F} (f : E -> F) (m : IO E A) P :
  touches m P -> touches (io_map_err f m) P.
Proof. intros Hm s p Hp. specialize (Hm s p Hp). unfold io_map_err. by destruct (m s) as [[]]. Qed.

Lemma touches_on_err {F} (m : IO E A) (h : E -> IO F A) P :
  touches m P -> (forall e, touches (h e) P) -> touches (io_on_err m h) P.
Proof.
  intros Hm Hh s p Hp. unfold io_on_err. specialize (Hm s p Hp).
  destruct (m s) as [[a|e] s']; [done|]. simpl in Hm. rewrite <- Hm. by apply Hh.
Qed.

Lemma touches_ignore {F} (m : IO E A) P : touches m P -> touches (io_ignore (F := F) m) P.
Proof. intros Hm s p Hp. by apply Hm. Qed.
End Touches.

Lemma touches_syscall {A : Type} ok broken P :
  (forall m a m', ok m = Ok (a, m') -> forall p, ~ P p -> m' !! p = m !! p) ->
  (forall n m p, ~ P p -> broken n m !! p = m !! p) ->
  touches (@syscall A ok broken) P.
Proof.
  intros Hok Hbr s p Hp. unfold syscall. destruct (next_fault s) as [f s'] eqn:Ef.
  apply next_fault_nodes in Ef. rewrite <- Ef. destruct f; simpl; [by apply Hbr|].
  destruct (ok (nodes s')) as [[a m']|e] eqn:Eo; simpl; [by eapply Hok|done].
Qed.

Lemma touches_read p P : touches (fs_read p) P.
Proof.
  apply touches_syscall; [|done]. intros m a m'. destruct (m !! p) as [[]|]; by intros [= _ <-].
Qed.

Ltac touch_one :=
  intros; repeat case_match; simplify_eq; try done;
  rewrite ?lookup_insert_ne, ?lookup_delete_ne by naive_solver; done.

Lemma touches_write p b : touches (fs_write p b) (fun q => q = p).
Proof. apply touches_syscall; touch_one. Qed.

Lemma touches_create_new p : touches (fs_create_new p) (fun q => q = p).
Proof. apply touches_syscall; touch_one. Qed.

Lemma touches_symlink a t p : touches (fs_symlink a t p) (fun q => q = p).
Proof. apply touches_syscall; touch_one. Qed.

Lemma touches_remove_file p : touches (fs_remove_file p) (fun q => q = p).
Proof. apply touches_syscall; touch_one. Qed.

Lemma touches_remove_dir_all p : touches (fs_remove_dir_all p) (under p).
Proof.
  apply touches_syscall.
  - intros m a m' H q Hq.
    assert (m' = remove_tree p m) as -> by (repeat case_match; congruence).
    rewrite remove_tree_lookup. by rewrite decide_False.
  - intros n m q Hq. rewrite delete_all_lookup, decide_False; [done|].
    intros Hin. apply elem_of_take in Hin as (i & Hi & _). apply list_elem_of_lookup_2 in Hi.
    unfold subtree in Hi. rewrite merge_sort_Permutation, list_elem_of_filter in Hi. tauto.
Qed.

Lemma touches_rename src dst : touches (fs_rename src dst) (fun q => under src q \/ under dst q).
Proof.
  apply touches_syscall; [|done]. intros m a m'.
  destruct (decide (src = dst)); [by intros [= _ <-]|].
  destruct (decide (under src dst \/ under dst src)) as [|Hap]; [done|].
  destruct (negb _); [done|]. intros H q Hq.
  assert (m' = move_tree src dst m \/ exists x, m' = <[dst := x]> (delete src m)) as [->|[x ->]]
    by (repeat case_match; simplify_eq; eauto).
  - apply move_tree_other; [split; tauto|tauto..].
  - pose proof (under_refl src). pose proof (under_refl dst).
    rewrite lookup_insert_ne, lookup_delete_ne by naive_solver. done.
Qed.

Lemma create_dirs_lookup todo done_ m m' p :
  create_dirs todo done_ m = Ok (tt, m') ->
  m' !! p = m !! p \/ (m !! p = None /\ m' !! p = Some NDir /\ under p (done_ ++ todo) /\ under done_ p).
Proof.
  revert done_ m. induction todo as [|c todo IH]; intros d m; simpl; [intros [= <-]; by left|].
  assert (d ++ c :: todo = (d ++ [c]) ++ todo) as Hd by (by rewrite <- app_assoc).
  destruct (m !! (d ++ [c])) as [[]|] eqn:E; try done; intros H; apply IH in H as [->|(H1 & H2 & H3 & H4)];
    auto.
  - right. rewrite Hd. split_and!; [done..|]. eapply under_trans; [apply under_app|done].
  - destruct (decide (p = d ++ [c])) as [->|Hne].
    + right. rewrite lookup_insert_eq, Hd. split_and!; [done..|apply under_app|apply under_app].
    + left. by rewrite lookup_insert_ne.
  - destruct (decide (p = d ++ [c])) as [->|Hne]; [by rewrite lookup_insert_eq in H1|].
    rewrite lookup_insert_ne in H1 by done.
    right. rewrite Hd. split_and!; [done..|]. eapply under_trans; [apply under_app|done].
Qed.

Lemma touches_create_dir_all p : touches (fs_create_dir_all p) (fun q => under q p).
Proof.
  apply touches_syscall; [|done]. intros m [] m' Hc q Hq.
  destruct (create_dirs_lookup _ _ _ _ q Hc) as [|(_ & _ & Hu & _)]; done.
Qed.

(** What a call did: it failed by the script, succeeded, or was refused. *)
Lemma syscall_inv {A : Type} ok broken s r s' :
  @syscall A ok broken s = (r, s') ->
  (exists n, r = Err OtherIo /\ nodes s' = broken n (nodes s)) \/
  (exists a, r = Ok a /\ ok (nodes s) = Ok (a, nodes s')) \/
  (exists e, r = Err e /\ ok (nodes s) = Err e /\ nodes s' = nodes s).
Proof.
  unfold syscall. destruct (next_fault s) as [f s1] eqn:Ef. apply next_fault_nodes in Ef.
  destruct f as [n|]; [intros [= <- <-]; rewrite <- Ef; eauto|]. rewrite <- Ef.
  destruct (ok (nodes s1)) as [[a m]|e] eqn:Eo; intros [= <- <-]; eauto 10.
Qed.

(** Without scripted failures a call does what [ok] says, and none appears. *)
Lemma syscall_ok {A : Type} ok broken m :
  @syscall A ok broken (mkFs m []) =
  match ok m with Ok (a, m') => (Ok a, mkFs m' []) | Err e => (Err e, mkFs m []) end.
Proof. unfold syscall, next_fault. simpl. by destruct (ok m) as [[]|]. Qed.

Lemma fs_remove_file_inv p s r s' :
  fs_remove_file p s = (r, s') ->
  (r = Ok tt /\ nodes s' = delete p (nodes s)) \/ (exists e, r = Err e /\ nodes s' = nodes s /\
    (e = NotFound -> nodes s !! p = None)).
Proof.
  intros H. apply syscall_inv in H as [(n & -> & ->)|[([] & -> & H)|(e & -> & H & ->)]].
  - right. exists OtherIo. split_and!; done.
  - left. split; [done|]. repeat case_match; simplify_eq; done.
  - right. exists e. split_and!; [done..|]. intros ->. repeat case_match; simplify_eq; done.
Qed.

Lemma fs_symlink_inv a t p s r s' :
  fs_symlink a t p s = (r, s') ->
  (r = Ok tt /\ nodes s !! p = None /\ nodes s' = <[p := NLink a t]> (nodes s)) \/
  (exists e, r = Err e /\ nodes s' = nodes s).
Proof.
  intros H. apply syscall_inv in H as [(n & -> & ->)|[([] & -> & H)|(e & -> & H & ->)]]; eauto 10;
    destruct (nodes s !! p) eqn:E; simplify_eq; destruct (can_create p (nodes s)); simplify_eq; eauto 10.
Qed.

(** Renaming a file or a link: all of it or nothing. *)
Lemma fs_rename_leaf_inv src dst s r s' x :
  nodes s !! src = Some x -> x <> NDir -> src <> dst ->
  fs_rename src dst s = (r, s') ->
  (r = Ok tt /\ nodes s' = <[dst := x]> (delete src (nodes s))) \/
  (exists e, r = Err e /\ nodes s' = nodes s).
Proof.
  intros Hx Hd Hne H.
  apply syscall_inv in H as [(n & -> & ->)|[([] & -> & H)|(e & -> & H & ->)]]; eauto 10.
  rewrite decide_False in H by done. left. split; [done|].
  destruct (decide (under src dst \/ under dst src)); [done|]. destruct (negb _); [done|].
  rewrite Hx in H. repeat case_match; simplify_eq; done.
Qed.

Lemma fs_write_inv p b s r s' :
  fs_write p b s = (r, s') ->
  (r = Ok tt /\ nodes s' = <[p := NFile b]> (nodes s)) \/
  (exists e, r = Err e /\ (nodes s' = nodes s \/ exists n, nodes s' = <[p := NFile (take n b)]> (nodes s))).
Proof.
  intros H. apply syscall_inv in H as [(n & -> & H)|[([] & -> & H)|(e & -> & H & ->)]]; [| |by eauto 10].
  - right. exists OtherIo. split; [done|]. rewrite H. repeat case_match; eauto.
  - left. split; [done|]. repeat case_match; simplify_eq; done.
Qed.

Lemma fs_read_inv p s r s' :
  fs_read p s = (r, s') ->
  nodes s' = nodes s /\
  ((exists b, r = Ok b /\ nodes s !! p = Some (NFile b)) \/
   (exists e, r = Err e /\ (e = NotFound -> nodes s !! p = None))).
Proof.
  intros H. apply syscall_inv in H as [(n & -> & ->)|[(b & -> & H)|(e & -> & H & ->)]].
  - split; [done|]. right. exists OtherIo. done.
  - destruct (nodes s !! p) as [[]|] eqn:Em; simplify_eq. split; [done|]. left. eauto.
  - split; [done|]. right. exists e. split; [done|]. intros ->.
    destruct (nodes s !! p) as [[]|] eqn:Em; simplify_eq; done.
Qed.

(** Stepping through a bind. *)
Lemma io_bind_inv {E A B : Type} (m : IO E A) (k : A -> IO E B) s r s' :
  io_bind m k s = (r, s') ->
  (exists a s1, m s = (Ok a, s1) /\ k a s1 = (r, s')) \/ (exists e, m s = (Err e, s') /\ r = Err e).
Proof.
  unfold io_bind. destruct (m s) as [[a|e] s1] eqn:Em; [eauto|]. intros [= <- <-]. eauto.
Qed.

Lemma io_map_err_inv {E F A : Type} (f : E -> F) (m : IO E A) s r s' :
  io_map_err f m s = (r, s') ->
  (exists a, m s = (Ok a, s') /\ r = Ok a) \/ (exists e, m s = (Err e, s') /\ r = Err (f e)).
Proof.
  unfold io_map_err. destruct (m s) as [[a|e] s1] eqn:Em; intros [= <- <-]; eauto.
Qed.
