(* ===== verification/Utf8.v ===== *)
(** * Utf8: text read from bytes

    [str::from_utf8]'s well-formedness test, as [read_to_string] and the IPC
    framing apply it, and [str::lines]. *)
From stdpp Require Import base gmap strings list.
From Stdlib Require Import ZArith Lia.
From Stdlib Require Ascii.
From S2P Require Import Prelude Fs.

Definition in_range (lo hi b : Z) : bool := (lo <=? b) && (b <=? hi).
Definition cont (b : Z) : bool := in_range 0x80 0xBF b.

(** The second byte a three- or four-byte lead allows. *)
Definition second_ok3 (a b : Z) : bool :=
  if a =? 0xE0 then in_range 0xA0 0xBF b
  else if a =? 0xED then in_range 0x80 0x9F b
  else cont b.
Definition second_ok4 (a b : Z) : bool :=
  if a =? 0xF0 then in_range 0x90 0xBF b
  else if a =? 0xF4 then in_range 0x80 0x8F b
  else cont b.

(** Well-formed UTF-8 (no overlong forms, no surrogates, at most U+10FFFF). *)
Fixpoint utf8_valid (l : bytes) : bool :=
  match l with
  | [] => true
  | a :: l1 =>
      if in_range 0 0x7F a then utf8_valid l1
      else match l1 with
           | [] => false
           | b :: l2 =>
               if in_range 0xC2 0xDF a then cont b && utf8_valid l2
               else match l2 with
                    | [] => false
                    | c :: l3 =>
                        if in_range 0xE0 0xEF a then second_ok3 a b && cont c && utf8_valid l3
                        else match l3 with
                             | [] => false
                             | d :: l4 =>
                                 in_range 0xF0 0xF4 a && second_ok4 a b && cont c && cont d
                                 && utf8_valid l4
                             end
                    end
           end
  end.

Definition NEWLINE : Z := 10.
Definition CARRIAGE_RETURN : Z := 13.

(** [split('\n')]: always at least one piece. *)
Fixpoint split_nl (l : bytes) : list bytes :=
  match l with
  | [] => [[]]
  | b :: l =>
      if b =? NEWLINE then [] :: split_nl l
      else match split_nl l with [] => [[b]] | p :: ps => (b :: p) :: ps end
  end.

Definition strip_cr (l : bytes) : bytes :=
  match last l with
  | Some b => if b =? CARRIAGE_RETURN then removelast l else l
  | None => l
  end.

(** [str::lines]: the last piece only counts when it is not empty. *)
Definition lines (l : bytes) : list bytes :=
  let ps := split_nl l in
  match last ps with
  | Some [] => strip_cr <$> removelast ps
  | _ => match rev ps with
         | p :: qs => (strip_cr <$> rev qs) ++ [p]
         | [] => []
         end
  end.

(** [l.trim().is_empty()], on ASCII white space. *)
Definition is_blank (l : bytes) : bool :=
  forallb (fun b => in_range 9 13 b || (b =? 32)) l.

(** [fs::read_to_string]: the bytes must be UTF-8. *)
Definition fs_read_to_string (p : path) : IO io_error bytes :=
  b <-! fs_read p; if utf8_valid b then io_ret b else io_fail InvalidData.

(** ** Lemmas *)

Lemma utf8_app a b : utf8_valid a = true -> utf8_valid (a ++ b) = utf8_valid b.
Proof.
  assert (forall n a, (length a < n)%nat -> utf8_valid a = true -> utf8_valid (a ++ b) = utf8_valid b) as H;
    [|intros; by apply (H (S (length a))); [lia|]].
  clear a. induction n as [|n IH]; intros a Hn; [lia|].
  destruct a as [|x a1]; [done|]. cbn [utf8_valid app length] in *.
  destruct (in_range 0 127 x); [apply IH; lia|].
  destruct a1 as [|y a2]; [done|]. cbn [app length] in *.
  destruct (in_range 194 223 x).
  { rewrite andb_true_iff. intros [-> Ha]. apply IH; [lia|done]. }
  destruct a2 as [|z a3]; [done|]. cbn [app length] in *.
  destruct (in_range 224 239 x).
  { rewrite !andb_true_iff. intros [[-> ->] Ha]. apply IH; [lia|done]. }
  destruct a3 as [|w a4]; [done|]. cbn [app length] in *.
  rewrite !andb_true_iff. intros [[[[-> ->] ->] ->] Ha]. apply IH; [lia|done].
Qed.

(** A newline is never inside a character, so valid text splits there. *)
Lemma utf8_split_newline a b :
  utf8_valid (a ++ NEWLINE :: b) = true -> utf8_valid (a ++ [NEWLINE]) = true /\ utf8_valid b = true.
Proof.
  assert (forall n a, (length a < n)%nat -> utf8_valid (a ++ NEWLINE :: b) = true ->
    utf8_valid (a ++ [NEWLINE]) = true /\ utf8_valid b = true) as H; [|intros; by apply (H (S (length a))); [lia|]].
  assert (forall x, cont NEWLINE = false /\ second_ok3 x NEWLINE = false /\ second_ok4 x NEWLINE = false) as Hc.
  { intros x. unfold second_ok3, second_ok4. by destruct (x =? 224), (x =? 237), (x =? 240), (x =? 244). }
  clear a. induction n as [|n IH]; intros a Hn; [lia|].
  destruct a as [|x a1]; [done|]. cbn [utf8_valid app length] in *. destruct (Hc x) as (Hc1 & Hc2 & Hc3).
  destruct (in_range 0 127 x); [apply IH; lia|].
  destruct a1 as [|y a2]; cbn [app length] in *.
  { destruct b as [|? [|? ?]]; rewrite ?Hc1, ?Hc2, ?Hc3, ?andb_false_r, ?andb_false_l;
      repeat (destruct (in_range _ _ x)); done. }
  destruct (in_range 194 223 x).
  { rewrite !andb_true_iff. intros [-> Ha]. destruct (IH a2) as [? ?]; [lia|done|done]. }
  destruct a2 as [|z a3]; cbn [app length] in *.
  { rewrite Hc1, !andb_false_r, !andb_false_l. destruct b; by destruct (in_range _ _ x). }
  destruct (in_range 224 239 x).
  { rewrite !andb_true_iff. intros [[-> ->] Ha]. destruct (IH a3) as [? ?]; [lia|done|done]. }
  destruct a3 as [|w a4]; cbn [app length] in *.
  { by rewrite Hc1, !andb_false_r, !andb_false_l. }
  rewrite !andb_true_iff. intros [[[[-> ->] ->] ->] Ha]. destruct (IH a4) as [? ?]; [lia|done|done].
Qed.

Lemma split_nl_ne l : split_nl l <> [].
Proof. destruct l; simpl; [done|]. destruct (_ =? _); [done|]. by destruct (split_nl l). Qed.

(** A piece free of newlines, then a newline. *)
Lemma split_nl_piece p l : NEWLINE ∉ p -> split_nl (p ++ NEWLINE :: l) = p :: split_nl l.
Proof.
  induction p as [|b p IH]; intros Hp; cbn [app split_nl]; [done|].
  destruct (Z.eqb_spec b NEWLINE) as [->|]; [set_solver|]. rewrite IH by set_solver. done.
Qed.

(** The text of records written one per line. *)
Definition unlines (ps : list bytes) : bytes := concat (map (fun p => p ++ [NEWLINE]) ps).

Lemma unlines_cons p ps : unlines (p :: ps) = p ++ NEWLINE :: unlines ps.
Proof. unfold unlines. simpl. by rewrite <- app_assoc. Qed.

Lemma unlines_snoc ps p : unlines (ps ++ [p]) = unlines ps ++ p ++ [NEWLINE].
Proof. unfold unlines. rewrite map_app, concat_app. simpl. by rewrite app_nil_r. Qed.

Lemma split_unlines ps : Forall (fun p => NEWLINE ∉ p) ps -> split_nl (unlines ps) = ps ++ [[]].
Proof.
  induction 1 as [|p ps Hp _ IH]; [done|]. by rewrite unlines_cons, split_nl_piece, IH by done.
Qed.

Lemma lines_unlines ps :
  Forall (fun p => NEWLINE ∉ p /\ last p <> Some CARRIAGE_RETURN) ps -> lines (unlines ps) = ps.
Proof.
  intros H. unfold lines. rewrite split_unlines by (eapply Forall_impl; [exact H|]; naive_solver).
  rewrite last_snoc, removelast_last. rewrite <- (list_fmap_id ps) at 2.
  apply list_fmap_ext. intros i p Hi. rewrite Forall_lookup in H. destruct (H i p Hi) as [_ Hc].
  unfold strip_cr. destruct (last p) as [b|] eqn:E; [|done].
  destruct (Z.eqb_spec b CARRIAGE_RETURN); [congruence|done].
Qed.

Lemma utf8_unlines ps : Forall (fun p => utf8_valid p = true) ps -> utf8_valid (unlines ps) = true.
Proof. induction 1 as [|p ps Hp _ IH]; [done|]. by rewrite unlines_cons, utf8_app. Qed.

Lemma unlines_length ps :
  Z.of_nat (length (unlines ps)) = foldr (fun p n => Z.of_nat (length p) + 1 + n) 0 ps.
Proof.
  induction ps as [|p ps IH]; [done|]. rewrite unlines_cons, length_app. cbn [length foldr]. lia.
Qed.

(** ** [String::from_utf8_lossy] *)

(** U+FFFD. *)
Definition REPLACEMENT : bytes := [0xEF; 0xBF; 0xBD].

(** Every maximal prefix of a character that is not continued becomes one
    replacement character. *)
Fixpoint utf8_lossy (l : bytes) : bytes :=
  match l with
  | [] => []
  | a :: l1 =>
      if in_range 0 0x7F a then a :: utf8_lossy l1
      else if in_range 0xC2 0xDF a then
        match l1 with
        | b :: l2 => if cont b then a :: b :: utf8_lossy l2 else REPLACEMENT ++ utf8_lossy l1
        | [] => REPLACEMENT
        end
      else if in_range 0xE0 0xEF a then
        match l1 with
        | b :: l2 =>
            if second_ok3 a b then
              match l2 with
              | c :: l3 => if cont c then a :: b :: c :: utf8_lossy l3 else REPLACEMENT ++ utf8_lossy l2
              | [] => REPLACEMENT
              end
            else REPLACEMENT ++ utf8_lossy l1
        | [] => REPLACEMENT
        end
      else if in_range 0xF0 0xF4 a then
        match l1 with
        | b :: l2 =>
            if second_ok4 a b then
              match l2 with
              | c :: l3 =>
                  if cont c then
                    match l3 with
                    | d :: l4 => if cont d then a :: b :: c :: d :: utf8_lossy l4 else REPLACEMENT ++ utf8_lossy l3
                    | [] => REPLACEMENT
                    end
                  else REPLACEMENT ++ utf8_lossy l2
              | [] => REPLACEMENT
              end
            else REPLACEMENT ++ utf8_lossy l1
        | [] => REPLACEMENT
        end
      else REPLACEMENT ++ utf8_lossy l1
  end.

(** A text as the string of its bytes. *)
Fixpoint str_of_bytes (l : bytes) : string :=
  match l with [] => EmptyString | b :: l => String (Ascii.ascii_of_N (Z.to_N b)) (str_of_bytes l) end.
(** [s.as_bytes()]. *)
Definition bytes_of_str (s : string) : bytes := (fun a => Z.of_nat (Ascii.nat_of_ascii a)) <$> String.list_ascii_of_string s.
Definition from_utf8_lossy (l : bytes) : string := str_of_bytes (utf8_lossy l).
(** [str::from_utf8(l).ok()]. *)
Definition from_utf8 (l : bytes) : option string := if utf8_valid l then Some (str_of_bytes l) else None.

Lemma utf8_valid_replacement l : utf8_valid (REPLACEMENT ++ l) = utf8_valid l.
Proof. reflexivity. Qed.

Lemma utf8_lossy_valid l : utf8_valid (utf8_lossy l) = true.
Proof.
  remember (length l) as n eqn:Hn. revert l Hn.
  induction (lt_wf n) as [n _ IH]. intros [|a l1] ->; [done|].
  assert (Hr : forall k, (length k <= length l1)%nat -> utf8_valid (utf8_lossy k) = true)
    by (intros k Hk; apply (IH (length k)); [simpl; lia|done]).
  assert (Hp : forall k, (length k <= length l1)%nat -> utf8_valid (REPLACEMENT ++ utf8_lossy k) = true)
    by (intros k Hk; rewrite utf8_valid_replacement; by apply Hr).
  cbn [utf8_lossy]. destruct (in_range 0 0x7F a) eqn:E0; [cbn [utf8_valid]; rewrite E0; by apply Hr|].
  destruct (in_range 0xC2 0xDF a) eqn:E1.
  { destruct l1 as [|b l2]; [done|]. destruct (cont b) eqn:Eb; [|by apply Hp].
    cbn [utf8_valid]. rewrite E0, E1, Eb. apply Hr. simpl. lia. }
  destruct (in_range 0xE0 0xEF a) eqn:E2.
  { destruct l1 as [|b l2]; [done|]. destruct (second_ok3 a b) eqn:Eb; [|by apply Hp].
    destruct l2 as [|c l3]; [done|]. destruct (cont c) eqn:Ec; [|apply Hp; simpl; lia].
    cbn [utf8_valid]. rewrite E0, E1, E2, Eb, Ec. apply Hr. simpl. lia. }
  destruct (in_range 0xF0 0xF4 a) eqn:E3; [|by apply Hp].
  destruct l1 as [|b l2]; [done|]. destruct (second_ok4 a b) eqn:Eb; [|by apply Hp].
  destruct l2 as [|c l3]; [done|]. destruct (cont c) eqn:Ec; [|apply Hp; simpl; lia].
  destruct l3 as [|d l4]; [done|]. destruct (cont d) eqn:Ed; [|apply Hp; simpl; lia].
  cbn [utf8_valid]. rewrite E0, E1, E2, E3, Eb, Ec, Ed. apply Hr. simpl. lia.
Qed.

Lemma utf8_lossy_id l : utf8_valid l = true -> utf8_lossy l = l.
Proof.
  remember (length l) as n eqn:Hn. revert l Hn.
  induction (lt_wf n) as [n _ IH]. intros [|a l1] ->; [done|].
  assert (Hr : forall k, (length k <= length l1)%nat -> utf8_valid k = true -> utf8_lossy k = k)
    by (intros k Hk; apply (IH (length k)); [simpl; lia|done]).
  cbn [utf8_valid utf8_lossy]. destruct (in_range 0 0x7F a); [intros H; by rewrite Hr|].
  destruct l1 as [|b l2]; [done|]. destruct (in_range 0xC2 0xDF a).
  { intros [Hb H]%andb_true_iff. rewrite Hb, Hr; [done|simpl; lia|done]. }
  destruct l2 as [|c l3]; [done|]. destruct (in_range 0xE0 0xEF a).
  { intros [[Hb Hc]%andb_true_iff H]%andb_true_iff. rewrite Hb, Hc, Hr; [done|simpl; lia|done]. }
  destruct l3 as [|d l4]; [done|].
  intros [[[[-> ->]%andb_true_iff ->]%andb_true_iff ->]%andb_true_iff H]%andb_true_iff. rewrite Hr; [done|simpl; lia|done].
Qed.

(** ** ASCII text *)

Definition ascii_range (b : Z) : bool := in_range 0 0x7F b.

Lemma ascii_valid l : forallb ascii_range l = true -> utf8_valid l = true.
Proof.
  induction l as [|a l IH]; [done|]. cbn [forallb utf8_valid].
  intros [Ha Hl]%andb_true_iff. unfold ascii_range in Ha. rewrite Ha. by apply IH.
Qed.

Lemma ascii_lossy l : forallb ascii_range l = true -> utf8_lossy l = l.
Proof. intros H. by apply utf8_lossy_id, ascii_valid. Qed.

Lemma str_of_bytes_of_str s : str_of_bytes (bytes_of_str s) = s.
Proof.
  induction s as [|a s IH]; [done|]. unfold bytes_of_str. cbn. unfold bytes_of_str in IH. rewrite IH.
  unfold Ascii.nat_of_ascii. by rewrite N_nat_Z, N2Z.id, Ascii.ascii_N_embedding.
Qed.

Lemma bytes_of_str_app a b : bytes_of_str (a +:+ b)%string = bytes_of_str a ++ bytes_of_str b.
Proof.
  induction a as [|x a IH]; [done|]. change (String x a +:+ b)%string with (String x (a +:+ b)).
  unfold bytes_of_str in *. cbn. by rewrite IH.
Qed.

Lemma bytes_of_str_of_bytes l : Forall (fun b => 0 <= b < 256) l -> bytes_of_str (str_of_bytes l) = l.
Proof.
  induction 1 as [|b l Hb Hl IH]; [done|]. unfold bytes_of_str in *. cbn. rewrite IH. f_equal.
  unfold Ascii.nat_of_ascii. rewrite Ascii.N_ascii_embedding, N_nat_Z, Z2N.id; lia.
Qed.
