(* ===== verification/Bytes.v ===== *)
(** * Bytes: integers in byte strings and indexing that can panic

    What the binary parsers use of the standard library: [uN::from_be_bytes],
    [to_be_bytes] and their native-endian forms (the supported targets, x86-64 and
    aarch64, are little-endian), [v[i]], [&v[a..b]], and the [Run] monad that keeps
    a panic and a loop out of fuel apart from results. *)
From stdpp Require Import base list.
From Stdlib Require Import ZArith Lia.
From S2P Require Import Prelude Fs.

(** ** Computations that can panic *)

(** [Spun]: a loop ran out of its fuel. *)
Inductive Run (A : Type) := Ran (a : A) | Panicked | Spun.
Arguments Ran {A} a.
Arguments Panicked {A}.
Arguments Spun {A}.

Definition run_bind {A B : Type} (m : Run A) (k : A -> Run B) : Run B :=
  match m with Ran a => k a | Panicked => Panicked | Spun => Spun end.
Notation "' p '<-run' m ';' k" := (run_bind m (fun x => let 'p := x in k))
  (at level 20, p pattern, m at level 100, k at level 200, right associativity) : edr_scope.
Notation "x '<-run' m ';' k" := (run_bind m (fun x => k))
  (at level 20, m at level 100, k at level 200, right associativity) : edr_scope.
(** [let x = m?;] in a function that returns an [Option]. *)
Definition try_bind {A B : Type} (m : option A) (k : A -> Run (option B)) : Run (option B) :=
  match m with Some a => k a | None => Ran None end.
Notation "x '<-some' m ';' k" := (try_bind m (fun x => k))
  (at level 20, m at level 100, k at level 200, right associativity) : edr_scope.
#[local] Open Scope edr_scope.

(** [for a in l { s = f(s, a) }]. *)
Fixpoint run_fold {S A : Type} (f : S -> A -> Run S) (l : list A) (s : S) : Run S :=
  match l with [] => Ran s | a :: l => s <-run f s a; run_fold f l s end.

(** The computation returns. *)
Definition returns {A : Type} (m : Run A) : Prop := exists a, m = Ran a.

Lemma returns_ran {A} (a : A) : returns (Ran a).
Proof. by exists a. Qed.

Lemma returns_bind {A B} (m : Run A) (k : A -> Run B) :
  returns m -> (forall a, m = Ran a -> returns (k a)) -> returns (run_bind m k).
Proof. intros [a ->] Hk. by apply Hk. Qed.

Lemma returns_try {A B} (m : option A) (k : A -> Run (option B)) :
  (forall a, m = Some a -> returns (k a)) -> returns (try_bind m k).
Proof. destruct m; intros Hk; [by apply Hk|apply returns_ran]. Qed.

Lemma returns_fold {S A} (f : S -> A -> Run S) l s :
  (forall s a, a ∈ l -> returns (f s a)) -> returns (run_fold f l s).
Proof.
  revert s. induction l as [|a l IH]; intros s Hf; simpl; [apply returns_ran|].
  apply returns_bind; [apply Hf; by left|]. intros s' _. apply IH. intros s2 a' Ha. apply Hf. by right.
Qed.

Create HintDb run.
#[export] Hint Resolve returns_ran returns_bind returns_try returns_fold : run.

(** ** Indexing *)

Definition blen {A : Type} (l : list A) : Z := Z.of_nat (length l).

(** [l[i]]. *)
Definition at_index {A : Type} (l : list A) (i : Z) : Run A :=
  match (if 0 <=? i then l !! Z.to_nat i else None) with Some a => Ran a | None => Panicked end.
(** [&l[a..b]]. *)
Definition slice {A : Type} (l : list A) (a b : Z) : Run (list A) :=
  if (0 <=? a) && (a <=? b) && (b <=? blen l)
  then Ran (take (Z.to_nat (b - a)) (drop (Z.to_nat a) l)) else Panicked.
(** [&l[a..]]. *)
Definition slice_from {A : Type} (l : list A) (a : Z) : Run (list A) := slice l a (blen l).

Lemma blen_app {A} (l k : list A) : blen (l ++ k) = blen l + blen k.
Proof. unfold blen. rewrite length_app. lia. Qed.

Lemma blen_cons {A} (x : A) l : blen (x :: l) = 1 + blen l.
Proof. unfold blen. simpl. lia. Qed.

Lemma blen_nonneg {A} (l : list A) : 0 <= blen l.
Proof. unfold blen. lia. Qed.

Lemma slice_ran {A} (l : list A) a b : 0 <= a <= b -> b <= blen l -> returns (slice l a b).
Proof.
  intros H1 H2. unfold slice. rewrite (proj2 (Z.leb_le 0 a)), (proj2 (Z.leb_le a b)), (proj2 (Z.leb_le b _)) by lia.
  apply returns_ran.
Qed.

Lemma slice_length {A} (l k : list A) a b : slice l a b = Ran k -> blen k = b - a.
Proof.
  unfold slice. destruct (_ && _) eqn:E; [|done]. intros [= <-].
  apply andb_true_iff in E as [[H1 H2]%andb_true_iff H3].
  apply Z.leb_le in H1, H2, H3. unfold blen in *. rewrite length_take, length_drop. lia.
Qed.

Lemma slice_mid {A} (p m q : list A) a b :
  a = blen p -> b = blen p + blen m -> slice (p ++ m ++ q) a b = Ran m.
Proof.
  intros -> ->. unfold slice. rewrite !blen_app.
  pose proof (blen_nonneg p); pose proof (blen_nonneg m); pose proof (blen_nonneg q).
  rewrite (proj2 (Z.leb_le 0 _)), (proj2 (Z.leb_le (blen p) _)), (proj2 (Z.leb_le (blen p + blen m) _)) by lia.
  simpl. f_equal. unfold blen. rewrite Nat2Z.id, drop_app_length.
  rewrite take_app_length'; [done|lia].
Qed.

Lemma slice_field {A} (p m q l : list A) a b :
  l = p ++ m ++ q -> a = blen p -> b = blen p + blen m -> slice l a b = Ran m.
Proof. intros ->. apply slice_mid. Qed.

Lemma slice_from_app {A} (p q : list A) a : a = blen p -> slice_from (p ++ q) a = Ran q.
Proof.
  intros ->. unfold slice_from. rewrite blen_app. pose proof (slice_mid p q [] (blen p) _ eq_refl eq_refl) as H.
  by rewrite app_nil_r in H.
Qed.

Lemma slice_from_ran {A} (l : list A) a : 0 <= a <= blen l -> returns (slice_from l a).
Proof. intros H. apply slice_ran; lia. Qed.

Lemma slice_from_panics {A} (l : list A) a : blen l < a -> slice_from l a = Panicked.
Proof.
  intros H. unfold slice_from, slice. rewrite (proj2 (Z.leb_gt a _)) by lia. by rewrite andb_false_r.
Qed.

Lemma at_index_ran {A} (l : list A) i : 0 <= i < blen l -> returns (at_index l i).
Proof.
  intros H. unfold at_index. rewrite (proj2 (Z.leb_le 0 i)) by lia.
  destruct (lookup_lt_is_Some_2 l (Z.to_nat i)) as [x Hx]; [unfold blen in H; lia|].
  rewrite Hx. apply returns_ran.
Qed.

(** ** Integers *)

Fixpoint from_le (b : bytes) : Z := match b with [] => 0 | x :: b => x + 256 * from_le b end.
Definition from_be (b : bytes) : Z := from_le (rev b).
Fixpoint to_le (n : nat) (z : Z) : bytes :=
  match n with O => [] | S n => z mod 256 :: to_le n (z / 256) end.
Definition to_be (n : nat) (z : Z) : bytes := rev (to_le n z).

(** [uN::from_ne_bytes([l[i], ..])] at the width of [n] bytes. *)
Definition ne_at (n : Z) (l : bytes) (i : Z) : Run Z := b <-run slice l i (i + n); Ran (from_le b).
Definition be_at (n : Z) (l : bytes) (i : Z) : Run Z := b <-run slice l i (i + n); Ran (from_be b).

(** An unsigned integer of [n] bytes. *)
Definition fits (n : nat) (z : Z) : Prop := 0 <= z < 256 ^ Z.of_nat n.
#[global] Instance fits_dec n z : Decision (fits n z).
Proof. unfold fits. apply _. Defined.

Lemma to_le_length n z : length (to_le n z) = n.
Proof. revert z. induction n; intros z; simpl; [done|]. by rewrite IHn. Qed.

Lemma blen_to_le n z : blen (to_le n z) = Z.of_nat n.
Proof. unfold blen. by rewrite to_le_length. Qed.

Lemma blen_to_be n z : blen (to_be n z) = Z.of_nat n.
Proof. unfold blen, to_be. by rewrite length_rev, to_le_length. Qed.

Lemma from_to_le n z : fits n z -> from_le (to_le n z) = z.
Proof.
  unfold fits. revert z. induction n as [|n IH]; intros z Hz; [simpl in *; lia|].
  rewrite Nat2Z.inj_succ, Z.pow_succ_r in Hz by lia. simpl.
  rewrite IH; [rewrite (Z_div_mod_eq_full z 256) at 3; lia|].
  split; [apply Z.div_pos; lia|apply Z.div_lt_upper_bound; lia].
Qed.

Lemma from_to_be n z : fits n z -> from_be (to_be n z) = z.
Proof. intros Hz. unfold from_be, to_be. rewrite rev_involutive. by apply from_to_le. Qed.

Lemma ne_at_mid n p q z i : i = blen p -> fits n z -> ne_at (Z.of_nat n) (p ++ to_le n z ++ q) i = Ran z.
Proof.
  intros -> Hz. unfold ne_at. rewrite (slice_mid p (to_le n z) q); [simpl; by rewrite from_to_le|done|].
  by rewrite blen_to_le.
Qed.

Lemma be_at_mid n p q z i : i = blen p -> fits n z -> be_at (Z.of_nat n) (p ++ to_be n z ++ q) i = Ran z.
Proof.
  intros -> Hz. unfold be_at. rewrite (slice_mid p (to_be n z) q); [simpl; by rewrite from_to_be|done|].
  by rewrite blen_to_be.
Qed.

(** The field [z] at its place in a record. *)
Lemma ne_at_field n p z q l i :
  l = p ++ to_le n z ++ q -> i = blen p -> fits n z -> ne_at (Z.of_nat n) l i = Ran z.
Proof. intros ->. apply ne_at_mid. Qed.

Lemma be_at_field n p z q l i :
  l = p ++ to_be n z ++ q -> i = blen p -> fits n z -> be_at (Z.of_nat n) l i = Ran z.
Proof. intros ->. apply be_at_mid. Qed.

Lemma ne_at_ran n l i : 0 <= i -> 0 <= n -> i + n <= blen l -> returns (ne_at n l i).
Proof.
  intros. unfold ne_at. apply returns_bind; [apply slice_ran; lia|]. intros; apply returns_ran.
Qed.

Lemma be_at_ran n l i : 0 <= i -> 0 <= n -> i + n <= blen l -> returns (be_at n l i).
Proof.
  intros. unfold be_at. apply returns_bind; [apply slice_ran; lia|]. intros; apply returns_ran.
Qed.

#[export] Hint Resolve slice_ran slice_from_ran at_index_ran ne_at_ran be_at_ran : run.

(** Lengths of byte strings built from the functions above. *)
Create Rewrite HintDb blen.
#[export] Hint Rewrite @blen_app @blen_cons blen_to_le blen_to_be : blen.

(** Steps through a parser that is to return: every bind has a computation that
    returns, whatever its value. *)
Ltac run_step :=
  match goal with
  | |- returns (Ran _) => apply returns_ran
  | |- returns (run_bind _ _) => apply returns_bind; [|intros ? ?]
  | |- returns (try_bind _ _) => apply returns_try; intros ? ?
  | |- returns (if ?b then _ else _) => let E := fresh "E" in destruct b eqn:E
  | |- returns (slice _ _ _) => apply slice_ran
  | |- returns (slice_from _ _) => apply slice_from_ran
  | |- returns (at_index _ _) => apply at_index_ran
  | |- returns (ne_at _ _ _) => apply ne_at_ran
  | |- returns (be_at _ _ _) => apply be_at_ran
  end.

(** Reads the little-endian field [z] of [n] bytes after the fields [p]. *)
Ltac le_field n p z :=
  erewrite (ne_at_field n p z); [cbn [run_bind]|rewrite <- ?app_assoc; reflexivity|autorewrite with blen; reflexivity|done].

#[global] Arguments to_le : simpl never.
#[global] Arguments to_be : simpl never.
#[global] Arguments from_le : simpl never.
#[global] Arguments from_be : simpl never.
#[global] Arguments slice : simpl never.
#[global] Arguments blen : simpl never.
