(* ===== verification/Updater.v ===== *)
(** * Updater: signed releases and the versioned install (src/crates/updater)

    The release and content manifests and their checks ([manifest.rs],
    [content.rs]), the hexadecimal codec ([hash.rs]), the
    [bootstrap]/[current]/[versions] layout ([layout.rs]), the local ban list
    ([banlist.rs]), the symlink-safe atomic write ([fsutil.rs]) and [rollback]
    ([lib.rs]), over the file system of [Fs].

    SHA-256, Ed25519 verification and the JSON codec are code outside the
    repository: arguments of the definitions that use them. *)
From stdpp Require Import base gmap strings list sorting.
From Stdlib Require Import ZArith Lia Ascii.
From S2P Require Import Prelude Order Str Fs.

(** The JSON codec of one type ([serde_json::to_vec_pretty]/[to_string_pretty]
    and [from_slice]/[from_str]), with the documented round trip. *)
Class Serde (A : Type) := {
  to_json : A -> bytes;
  from_json : bytes -> option A;
  from_to_json : forall a, from_json (to_json a) = Some a }.

Inductive UpdaterError :=
| SchemaVersionUnsupported (found expected : Z)
| SignatureInvalid
| ReleaseNotNewer (offered current : Z)
| RingMismatch (requested found : string)
| ReleaseBanned (release_version : Z)
| UnsafeContentPath (p : string)
| UnsafeReleasePath (p : string)
| StagedFileMissing (p : string)
| StagedFileMismatch (p expected actual : string)
| Io (p : path) (source : io_error)
| ManifestCorrupt (p : path).

Definition u_io {A : Type} (p : path) (m : IO io_error A) : IO UpdaterError A :=
  io_map_err (Io p) m.

(** [?] on a pure [Result]. *)
Definition lift {A E : Type} (r : result A E) : IO E A :=
  match r with Ok a => io_ret a | Err e => io_fail e end.

(** ** Hexadecimal ([hash.rs]) *)

Definition hex_digit (n : Z) : ascii :=
  ascii_of_nat (Z.to_nat (if n <? 10 then 48 + n else 87 + n)).

Fixpoint hex_encode (bs : bytes) : string :=
  match bs with
  | [] => EmptyString
  | b :: bs => String (hex_digit (b / 16)) (String (hex_digit (b mod 16)) (hex_encode bs))
  end.

Definition hex_val (a : ascii) : option Z :=
  let n := Z.of_nat (nat_of_ascii a) in
  if (48 <=? n) && (n <=? 57) then Some (n - 48)
  else if (65 <=? n) && (n <=? 70) then Some (n - 55)
  else if (97 <=? n) && (n <=? 102) then Some (n - 87)
  else None.

(** [u8::from_str_radix(s, 16)] on a two-byte string: a leading [+] is a sign. *)
Definition from_str_radix16 (a b : ascii) : option Z :=
  if Ascii.eqb a "+"%char then hex_val b
  else x ← hex_val a; y ← hex_val b; Some (16 * x + y).

(** A function that may panic. *)
Inductive outcome (A : Type) := Panic | Return (a : A).
Arguments Panic {A}.
Arguments Return {A} a.

(** A UTF-8 continuation byte: an index before it is not a character boundary,
    and slicing there panics. *)
Definition is_continuation (a : ascii) : bool :=
  let n := nat_of_ascii a in ((128 <=? n) && (n <=? 191))%nat.

Definition at_boundary (s : string) : bool :=
  match s with EmptyString => true | String a _ => negb (is_continuation a) end.

(** The [(0..len).step_by(2)] loop; the collection stops at the first invalid
    pair, the slice [s[i..i + 2]] panics when [i + 2] is inside a character. *)
Fixpoint hex_pairs (s : string) : outcome (option bytes) :=
  match s with
  | String a (String b s) =>
      if negb (at_boundary s) then Panic
      else match from_str_radix16 a b with
           | None => Return None
           | Some x => match hex_pairs s with
                       | Return (Some bs) => Return (Some (x :: bs))
                       | r => r
                       end
           end
  | _ => Return (Some [])
  end.

Definition hex_decode (s : string) : outcome (option bytes) :=
  if Nat.even (String.length s) then hex_pairs s else Return None.

(** ** Path checks ([content.rs]) *)

Definition WINDOWS_RESERVED_NAMES : list string :=
  ["CON"; "PRN"; "AUX"; "NUL"; "COM1"; "COM2"; "COM3"; "COM4"; "COM5"; "COM6"; "COM7"; "COM8";
   "COM9"; "LPT1"; "LPT2"; "LPT3"; "LPT4"; "LPT5"; "LPT6"; "LPT7"; "LPT8"; "LPT9";
   "COM¹"; "COM²"; "COM³"; "LPT¹"; "LPT²"; "LPT³"; "CONIN$"; "CONOUT$"].

Definition is_safe_path_segment (segment : string) : bool :=
  if String.eqb segment "" || String.eqb segment "." || String.eqb segment ".."
     || str_contains ":" segment then false
  else if ends_with "." segment || ends_with " " segment then false
  else
    let stem := default segment (head (str_split "."%char segment)) in
    negb (existsb (fun reserved => eq_ignore_ascii_case stem reserved) WINDOWS_RESERVED_NAMES).

(** [ContentEntry::is_safe_relative_path], and the same test inlined in
    [ReleaseManifest::validate_entry_paths]. *)
Definition is_safe_relative_path (p : string) : bool :=
  negb (String.eqb p "") && negb (starts_with "/" p) && negb (str_contains "\" p)
  && negb (str_contains (String (ascii_of_nat 0) EmptyString) p)
  && forallb is_safe_path_segment (str_split "/"%char p).

(** ** Manifests *)

Definition MANIFEST_SCHEMA_VERSION : Z := 1.
Definition CONTENT_MANIFEST_SCHEMA_VERSION : Z := 1.

(** The entries are a [BTreeMap]: iterated in ascending order of distinct paths. *)
Record ReleaseManifest := mkReleaseManifest {
  rm_entries : list (string * string);
  rm_release_version : Z;
  rm_schema_version : Z;
  rm_signature : string }.

Definition ReleaseManifest_new (v : Z) (entries : list (string * string)) : ReleaseManifest :=
  mkReleaseManifest entries v MANIFEST_SCHEMA_VERSION "".

Record ContentEntry := mkContentEntry {
  ce_metadata : option string;
  ce_path : string;
  ce_sha256 : string;
  ce_size : Z;
  ce_content_type : string }.

Record ContentManifest := mkContentManifest {
  cm_entries : list ContentEntry;
  cm_release_version : Z;
  cm_released_at : string;
  cm_ring : string;
  cm_schema_version : Z;
  cm_signature : string }.

Definition rm_unsigned (m : ReleaseManifest) : ReleaseManifest :=
  mkReleaseManifest (rm_entries m) (rm_release_version m) (rm_schema_version m) "".

Definition cm_unsigned (m : ContentManifest) : ContentManifest :=
  mkContentManifest (cm_entries m) (cm_release_version m) (cm_released_at m) (cm_ring m)
    (cm_schema_version m) "".

Section Manifests.
Context `{Serde ReleaseManifest, Serde ContentManifest}.
(** [ring]'s Ed25519 verification under the embedded public key, and a signer. *)
Variable ed25519_verify : bytes -> bytes -> bool.

Definition rm_canonical_bytes (m : ReleaseManifest) : bytes := to_json (rm_unsigned m).
Definition cm_canonical_bytes (m : ContentManifest) : bytes := to_json (cm_unsigned m).

Definition rm_sign (sign : bytes -> bytes) (m : ReleaseManifest) : ReleaseManifest :=
  mkReleaseManifest (rm_entries m) (rm_release_version m) (rm_schema_version m)
    (hex_encode (sign (rm_canonical_bytes m))).

Definition cm_sign (sign : bytes -> bytes) (m : ContentManifest) : ContentManifest :=
  mkContentManifest (cm_entries m) (cm_release_version m) (cm_released_at m) (cm_ring m)
    (cm_schema_version m) (hex_encode (sign (cm_canonical_bytes m))).

(** The body the two [verify_signature] share: schema, signature codec, key. *)
Definition check_signature (schema expected : Z) (signature : string) (msg : bytes)
    : outcome (result unit UpdaterError) :=
  if negb (schema =? expected) then Return (Err (SchemaVersionUnsupported schema expected))
  else match hex_decode signature with
       | Panic => Panic
       | Return None => Return (Err SignatureInvalid)
       | Return (Some sig_bytes) =>
           Return (if ed25519_verify msg sig_bytes then Ok tt else Err SignatureInvalid)
       end.

Definition rm_verify_signature (m : ReleaseManifest) : outcome (result unit UpdaterError) :=
  check_signature (rm_schema_version m) MANIFEST_SCHEMA_VERSION (rm_signature m)
    (rm_canonical_bytes m).

Definition cm_verify_signature (m : ContentManifest) : outcome (result unit UpdaterError) :=
  check_signature (cm_schema_version m) CONTENT_MANIFEST_SCHEMA_VERSION (cm_signature m)
    (cm_canonical_bytes m).
End Manifests.

Fixpoint rm_validate_entry_paths (entries : list (string * string)) : result unit UpdaterError :=
  match entries with
  | [] => Ok tt
  | (p, _) :: entries =>
      if is_safe_relative_path p then rm_validate_entry_paths entries else Err (UnsafeReleasePath p)
  end.

Fixpoint cm_validate_entry_paths (entries : list ContentEntry) : result unit UpdaterError :=
  match entries with
  | [] => Ok tt
  | e :: entries =>
      if is_safe_relative_path (ce_path e) then cm_validate_entry_paths entries
      else Err (UnsafeContentPath (ce_path e))
  end.

(** [ReleaseManifest::check_release_version] and the content manifest's. *)
Definition check_release_version (offered : Z) (current : option Z) : result unit UpdaterError :=
  match current with
  | Some c => if offered <=? c then Err (ReleaseNotNewer offered c) else Ok tt
  | None => Ok tt
  end.

Definition check_ring (m : ContentManifest) (requested : string) : result unit UpdaterError :=
  if negb (String.eqb (cm_ring m) requested) then Err (RingMismatch requested (cm_ring m)) else Ok tt.

Definition entries_to_fetch (m : ContentManifest) (have : gmap string string) : list ContentEntry :=
  filter (fun e => have !! ce_path e <> Some (ce_sha256 e)) (cm_entries m).

(** ** The layout *)

Definition CURRENT_LINK : string := "current".
Definition BOOTSTRAP_DIR : string := "bootstrap".
Definition VERSIONS_DIR : string := "versions".
Definition HEALTHY_MARKER : string := ".healthy".
Definition MANIFEST_FILE : string := "manifest.json".

Record Layout := mkLayout { base_dir : path }.

Definition bootstrap_dir (l : Layout) : path := base_dir l ++ [BOOTSTRAP_DIR].
Definition versions_dir (l : Layout) : path := base_dir l ++ [VERSIONS_DIR].
Definition current_link (l : Layout) : path := base_dir l ++ [CURRENT_LINK].
Definition version_name (v : Z) : string := String "v"%char (show_u64 v).
Definition version_dir (l : Layout) (v : Z) : path := versions_dir l ++ [version_name v].

Definition resolve_active_dir (l : Layout) (m : gmap path node) : path :=
  match read_link (current_link l) m with
  | None => bootstrap_dir l
  | Some (absolute, target) =>
      let resolved := if absolute then target else base_dir l ++ target in
      if bool_decide (resolved = bootstrap_dir l) || bool_decide (under (versions_dir l) resolved)
      then resolved else bootstrap_dir l
  end.

(** [Path::file_name]. *)
Definition file_name (p : path) : option string :=
  n ← last p; if String.eqb n ".." then None else Some n.

(** [name.strip_prefix('v')?.parse().ok()]. *)
Definition parse_version (name : string) : option Z := r ← strip_prefix "v" name; parse_u64 r.

Definition current_release_version (l : Layout) (m : gmap path node) : option Z :=
  name ← file_name (resolve_active_dir l m); parse_version name.

(** [dir.join(rel)] for a path given as a string. *)
Definition components (s : string) : path :=
  filter (fun c => c <> "" /\ c <> ".") (str_split "/"%char s).
Definition join (dir : path) (rel : string) : path :=
  if starts_with "/" rel then components rel else dir ++ components rel.

Section Layout.
Context `{Serde ReleaseManifest}.
Variable sha256 : bytes -> bytes.

Definition hash_bytes (b : bytes) : string := hex_encode (sha256 b).
Definition hash_file (p : path) : IO io_error string := b <-! fs_read p; io_ret (hash_bytes b).

Fixpoint verify_entries (dir : path) (entries : list (string * string)) : IO UpdaterError unit :=
  match entries with
  | [] => io_ret tt
  | (rel_path, expected) :: entries =>
      let full_path := join dir rel_path in
      present <-! io_get (is_file full_path);
      if negb present then io_fail (StagedFileMissing rel_path) else
      actual <-! u_io full_path (hash_file full_path);
      if negb (String.eqb actual expected)
      then io_fail (StagedFileMismatch rel_path expected actual)
      else verify_entries dir entries
  end.

Definition verify_staged (l : Layout) (m : ReleaseManifest) : IO UpdaterError unit :=
  verify_entries (version_dir l (rm_release_version m)) (rm_entries m).

Definition persist_manifest (l : Layout) (m : ReleaseManifest) : IO UpdaterError unit :=
  let p := version_dir l (rm_release_version m) ++ [MANIFEST_FILE] in
  u_io p (fs_write p (to_json m)).

Definition read_manifest (l : Layout) (v : Z) : IO UpdaterError ReleaseManifest :=
  let p := version_dir l v ++ [MANIFEST_FILE] in
  b <-! u_io p (fs_read p);
  match from_json b with Some m => io_ret m | None => io_fail (ManifestCorrupt p) end.
End Layout.

(** [if let Err(source) = remove_file(tmp) && kind != NotFound { return Err }]. *)
Definition tolerate_missing {A : Type} (dflt : A) (m : IO io_error A) : IO io_error A :=
  fun s => match m s with
           | (Err NotFound, s) => (Ok dflt, s)
           | r => r
           end.

Definition swap_current_to (l : Layout) (target : path) : IO UpdaterError unit :=
  let tmp := base_dir l ++ [".current.tmp"] in
  u_io tmp (tolerate_missing tt (fs_remove_file tmp)) ;;!
  u_io tmp (fs_symlink true target tmp) ;;!
  u_io (current_link l) (fs_rename tmp (current_link l)).

Definition promote (l : Layout) (v : Z) : IO UpdaterError unit := swap_current_to l (version_dir l v).
Definition reset_to_bootstrap (l : Layout) : IO UpdaterError unit :=
  swap_current_to l (bootstrap_dir l).

Definition installed_versions (l : Layout) (m : gmap path node) : list Z :=
  match read_dir (versions_dir l) m with
  | None => []
  | Some names =>
      cmp_sort (omap parse_version (filter (fun n => is_dir (versions_dir l ++ [n]) m = true) names))
  end.

Definition is_healthy (l : Layout) (v : Z) (m : gmap path node) : bool :=
  is_file (version_dir l v ++ [HEALTHY_MARKER]) m.

Definition BannedVersions : Type := gset Z.
Definition is_banned (b : BannedVersions) (v : Z) : bool := bool_decide (v ∈ b).
Definition ban (v : Z) (b : BannedVersions) : BannedVersions := {[v]} ∪ b.
Definition ban_check (b : BannedVersions) (v : Z) : result unit UpdaterError :=
  if is_banned b v then Err (ReleaseBanned v) else Ok tt.

Definition rollback_target (l : Layout) (v : Z) (banned : BannedVersions) (m : gmap path node)
    : option Z :=
  List.find (fun c => (c <? v) && negb (is_banned banned c) && is_healthy l c m)
    (rev (installed_versions l m)).

Definition mark_healthy (l : Layout) (v : Z) : IO UpdaterError unit :=
  let dir := version_dir l v in
  let marker := dir ++ [HEALTHY_MARKER] in
  let tmp := dir ++ [".healthy.tmp"] in
  u_io tmp (fs_write tmp []) ;;! u_io marker (fs_rename tmp marker).

Definition prune (l : Layout) (v : Z) : IO UpdaterError unit :=
  let dir := version_dir l v in
  u_io dir (tolerate_missing tt (fs_remove_dir_all dir)).

(** ** Ban list and rollback *)

Section BanList.
Context `{Serde (list Z)}.

(** A missing file is an empty ban list. *)
Definition ban_load (p : path) : IO UpdaterError BannedVersions :=
  text <-! u_io p (tolerate_missing None (b <-! fs_read p; io_ret (Some b)));
  match text with
  | None => io_ret ∅
  | Some b => match from_json b with
              | Some versions => io_ret (list_to_set versions)
              | None => io_fail (Io p InvalidData)
              end
  end.

Definition ban_save (p : path) (b : BannedVersions) : IO UpdaterError unit :=
  u_io p (fs_write p (to_json (cmp_sort (elements b)))).

Definition rollback (l : Layout) (ban_list_path : path) (previous : option Z) (failed : Z)
    : IO UpdaterError unit :=
  match previous with
  | Some v => promote l v
  | None => reset_to_bootstrap l
  end ;;!
  banned <-! ban_load ban_list_path;
  ban_save ban_list_path (ban failed banned) ;;!
  io_ignore (prune l failed).
End BanList.

(** ** Symlink-safe atomic writes ([fsutil.rs]) *)

Fixpoint reject_components (probe : path) (rest : path) (m : gmap path node) : bool :=
  match rest with
  | [] => true
  | c :: rest =>
      let probe := probe ++ [c] in
      if is_symlink probe m then false else reject_components probe rest m
  end.

(** [dest.strip_prefix(root).unwrap_or(dest)]; [root.push] of an absolute
    component replaces it, so an unrelated [dest] is probed from the root. *)
Definition reject_symlink_components (root dest : path) : IO io_error unit :=
  ok <-! io_get (fun m =>
    if decide (under root dest) then reject_components root (drop (length root) dest) m
    else reject_components [] dest m);
  if ok then io_ret tt else io_fail OtherIo.

Definition write_with_mode (unique_suffix : string) (root dest : path) (b : bytes) : IO io_error unit :=
  reject_symlink_components root dest ;;!
  fs_create_dir_all (parent dest) ;;!
  reject_symlink_components root dest ;;!
  match last dest with
  | None => io_fail OtherIo
  | Some name =>
      let tmp := parent dest ++ [((name +:+ ".tmp-") +:+ unique_suffix)%string] in
      fs_create_new tmp ;;!
      io_on_err (fs_write tmp b ;;! fs_rename tmp dest)
        (fun e => io_ignore (fs_remove_file tmp) ;;! io_fail e)
  end.

(** ** Lemmas *)

(** *** Codec and paths *)

Lemma hex_val_digit n : 0 <= n < 16 -> hex_val (hex_digit n) = Some n.
Proof.
  intros Hn.
  pose (f := fun n => match hex_val (hex_digit n) with Some k => k =? n | None => false end).
  assert (f n = true) as Hf by (by apply (forallb_seqZ f 16)). unfold f in Hf.
  destruct (hex_val (hex_digit n)); [|done]. f_equal. lia.
Qed.

Lemma hex_digit_plain n :
  0 <= n < 16 -> Ascii.eqb (hex_digit n) "+"%char = false /\ is_continuation (hex_digit n) = false.
Proof.
  intros Hn. rewrite <- !negb_true_iff, <- andb_true_iff.
  by apply (forallb_seqZ (fun n => negb (Ascii.eqb (hex_digit n) "+"%char)
    && negb (is_continuation (hex_digit n))) 16).
Qed.

Lemma byte_digits b : 0 <= b < 256 -> 0 <= b / 16 < 16 /\ 0 <= b mod 16 < 16.
Proof.
  intros. split; [split; [apply Z.div_pos; lia|apply Z.div_lt_upper_bound; lia]|].
  apply Z.mod_pos_bound. lia.
Qed.

Lemma hex_pairs_encode bs :
  Forall (fun b => 0 <= b < 256) bs -> hex_pairs (hex_encode bs) = Return (Some bs).
Proof.
  induction 1 as [|b bs Hb Hbs IH]; [done|]. cbn [hex_encode hex_pairs].
  destruct (byte_digits b Hb) as [H1 H2].
  assert (at_boundary (hex_encode bs) = true) as ->.
  { destruct Hbs as [|c cs Hc]; [done|]. simpl. destruct (byte_digits c Hc) as [H3 _].
    by destruct (hex_digit_plain (c / 16) H3) as [_ ->]. }
  unfold from_str_radix16. destruct (hex_digit_plain (b / 16) H1) as [-> _].
  rewrite !hex_val_digit by done. simpl. rewrite IH.
  do 3 f_equal. pose proof (Z.div_mod b 16). lia.
Qed.

Lemma hex_encode_even bs : Nat.even (String.length (hex_encode bs)) = true.
Proof. induction bs as [|b bs IH]; [done|]. exact IH. Qed.

Lemma contains_split_neq c (s t : string) :
  t ∈ str_split c s -> str_contains (String c EmptyString) t = false.
Proof.
  revert t. induction s as [|a s IH]; intros t; cbn [str_split].
  - intros ->%list_elem_of_singleton. done.
  - destruct (Ascii.eqb_spec a c) as [->|Hne]; [intros [->|Ht]%elem_of_cons; [done|by apply IH]|].
    destruct (str_split c s) as [|p ps] eqn:E; [by apply str_split_ne in E|].
    intros [->|Ht]%elem_of_cons; [|apply IH; set_solver].
    cbn [str_contains]. unfold starts_with. cbn [strip_prefix].
    rewrite (proj2 (Ascii.eqb_neq c a)) by done. simpl. apply IH. set_solver.
Qed.

Lemma safe_segment_normal c :
  is_safe_path_segment c = true -> c <> "" /\ c <> "." /\ c <> "..".
Proof. intros H. split_and!; intros ->; vm_compute in H; done. Qed.

(** A safe relative path is joined segment by segment below the directory. *)
Lemma safe_path_join dir p :
  is_safe_relative_path p = true ->
  join dir p = dir ++ str_split "/"%char p /\
  Forall (fun c => c <> "" /\ c <> "." /\ c <> "..") (str_split "/"%char p) /\
  str_split "/"%char p <> [].
Proof.
  unfold is_safe_relative_path. rewrite !andb_true_iff, !negb_true_iff.
  intros ((((_ & Hs) & _) & _) & Hf). unfold join. rewrite Hs.
  rewrite forallb_forall in Hf.
  assert (forall c, c ∈ str_split "/"%char p -> c <> "" /\ c <> "." /\ c <> "..") as Hc.
  { intros c Hin. apply safe_segment_normal, Hf. by apply list_elem_of_In. }
  split_and!; [|by apply Forall_forall|apply str_split_ne].
  unfold components. rewrite filter_all; [done|]. intros c Hin. destruct (Hc c Hin). tauto.
Qed.

Lemma rm_validate_all entries :
  rm_validate_entry_paths entries = Ok tt ->
  forall p h, (p, h) ∈ entries -> is_safe_relative_path p = true.
Proof.
  induction entries as [|[q g] entries IH]; cbn [rm_validate_entry_paths]; [set_solver|].
  destruct (is_safe_relative_path q) eqn:E; [|done]. intros H p h [[= -> ->]|Hin]%elem_of_cons; eauto.
Qed.

Lemma cm_validate_all entries :
  cm_validate_entry_paths entries = Ok tt ->
  forall e, e ∈ entries -> is_safe_relative_path (ce_path e) = true.
Proof.
  induction entries as [|q entries IH]; cbn [cm_validate_entry_paths]; [set_solver|].
  destruct (is_safe_relative_path (ce_path q)) eqn:E; [|done].
  intros H e [->|Hin]%elem_of_cons; eauto.
Qed.

(** *** The layout *)

Definition link_tmp (l : Layout) : path := base_dir l ++ [".current.tmp"].
Definition ban_list_path (l : Layout) : path := base_dir l ++ ["banned_versions.json"].

Lemma base_child_under l a q : under (base_dir l ++ [a]) (base_dir l ++ q) <-> head q = Some a.
Proof.
  unfold under. split.
  - intros [k E]. rewrite <- app_assoc in E. apply app_inv_head in E. by subst q.
  - destruct q as [|b q]; simpl; [done|]. intros [= ->]. exists q. by rewrite <- app_assoc.
Qed.

Lemma base_child_neq l a b : a <> b -> base_dir l ++ [a] <> base_dir l ++ [b].
Proof. intros Hne E. apply app_inv_head in E. congruence. Qed.

Lemma version_dir_base l v : version_dir l v = base_dir l ++ [VERSIONS_DIR; version_name v].
Proof. unfold version_dir, versions_dir. by rewrite <- app_assoc. Qed.

Lemma version_name_inj v w :
  0 <= v <= U64_MAX -> 0 <= w <= U64_MAX -> version_name v = version_name w -> v = w.
Proof. intros Hv Hw [= E]. by apply show_u64_inj. Qed.

Lemma version_dir_under l v w q :
  0 <= v <= U64_MAX -> 0 <= w <= U64_MAX -> under (version_dir l v) (version_dir l w ++ q) -> v = w.
Proof.
  intros Hv Hw [k E]. unfold version_dir in E. rewrite <- !app_assoc in E.
  apply app_inv_head in E. simpl in E. apply version_name_inj; [done..|]. congruence.
Qed.

Lemma parse_version_name v : 0 <= v <= U64_MAX -> parse_version (version_name v) = Some v.
Proof. intros Hv. unfold parse_version, version_name. simpl. by apply parse_show. Qed.

Lemma version_name_plain v : version_name v <> "..".
Proof. done. Qed.

(** What [current] means once it points at a release or at bootstrap. *)
Definition target_dir (l : Layout) (v : option Z) : path :=
  match v with Some v => version_dir l v | None => bootstrap_dir l end.

Lemma current_of_link l m v :
  (forall x, v = Some x -> 0 <= x <= U64_MAX) ->
  m !! current_link l = Some (NLink true (target_dir l v)) ->
  current_release_version l m = v /\ resolve_active_dir l m = target_dir l v.
Proof.
  intros Hv Hm. unfold current_release_version, resolve_active_dir, read_link. rewrite Hm.
  destruct v as [v|]; simpl.
  - rewrite (bool_decide_true (under _ _)) by (unfold version_dir; apply under_app).
    rewrite orb_true_r. split; [|done]. unfold file_name, version_dir. rewrite last_snoc.
    simpl. by apply parse_version_name, Hv.
  - rewrite bool_decide_true by done. simpl. split; [|done].
    unfold file_name, bootstrap_dir. rewrite last_snoc. done.
Qed.

Lemma tolerate_missing_inv {A : Type} (d : A) m s r s' :
  tolerate_missing d m s = (r, s') ->
  m s = (r, s') \/ (m s = (Err NotFound, s') /\ r = Ok d).
Proof.
  unfold tolerate_missing. destruct (m s) as [[a|[]] s1]; intros [= <- <-]; auto.
Qed.

(** The swap moves [current] to the target or leaves it, and touches nothing
    else but its temporary name. *)
Lemma swap_current_inv l target s r s' :
  swap_current_to l target s = (r, s') ->
  (forall p, p <> link_tmp l -> p <> current_link l -> nodes s' !! p = nodes s !! p) /\
  ((r = Ok tt /\ nodes s' !! current_link l = Some (NLink true target)) \/
   ((exists e, r = Err e) /\ nodes s' !! current_link l = nodes s !! current_link l)).
Proof.
  unfold swap_current_to. fold (link_tmp l). intros H.
  assert (link_tmp l <> current_link l) as Hne by (by apply base_child_neq).
  apply io_bind_inv in H as [([] & s1 & H1 & H)|(e & H1 & ->)].
  2:{ apply io_map_err_inv in H1 as [(? & _ & ?)|(e' & H1 & _)]; [done|].
      apply tolerate_missing_inv in H1 as [H1|[_ ?]]; [|done].
      apply fs_remove_file_inv in H1 as [[? _]|(? & _ & Hn & _)]; [done|].
      rewrite Hn. eauto. }
  assert (nodes s1 = delete (link_tmp l) (nodes s)) as Hs1.
  { apply io_map_err_inv in H1 as [(? & H1 & _)|(? & _ & ?)]; [|done].
    apply tolerate_missing_inv in H1 as [H1|[H1 _]];
      apply fs_remove_file_inv in H1 as [[? Hn]|(e & He & Hn & Habs)]; try done.
    rewrite Hn. symmetry. apply delete_id. apply Habs. congruence. }
  apply io_bind_inv in H as [([] & s2 & H2 & H)|(e & H2 & ->)].
  2:{ apply io_map_err_inv in H2 as [(? & _ & ?)|(e' & H2 & _)]; [done|].
      apply fs_symlink_inv in H2 as [[? _]|(? & _ & Hn)]; [done|]. rewrite Hn, Hs1.
      rewrite lookup_delete_ne by done. split; [|by eauto]. intros p Hp _. by rewrite lookup_delete_ne. }
  apply io_map_err_inv in H2 as [(? & H2 & _)|(? & _ & ?)]; [|done].
  apply fs_symlink_inv in H2 as [(_ & _ & Hs2)|(? & ? & _)]; [|done].
  assert (nodes s2 !! link_tmp l = Some (NLink true target)) as Hl by (by rewrite Hs2, lookup_insert_eq).
  apply io_map_err_inv in H as [([] & H & ->)|(? & H & ->)];
    apply (fs_rename_leaf_inv _ _ _ _ _ _ Hl) in H; try done;
    destruct H as [[Hr Hn]|(? & Hr & Hn)]; simplify_eq; rewrite Hn.
  - split; [|left; by rewrite lookup_insert_eq]. intros p Hp1 Hp2.
    rewrite lookup_insert_ne, lookup_delete_ne, Hs2, lookup_insert_ne, Hs1, lookup_delete_ne by done. done.
  - split; [|right; rewrite Hs2, lookup_insert_ne, Hs1, lookup_delete_ne by done; eauto].
    intros p Hp1 Hp2. by rewrite Hs2, lookup_insert_ne, Hs1, lookup_delete_ne.
Qed.

(** *** Reads *)

Lemma read_opt_inv p s r s' :
  tolerate_missing None (b <-! fs_read p; io_ret (Some b)) s = (r, s') ->
  nodes s' = nodes s /\
  forall o, r = Ok o ->
    match nodes s !! p with
    | Some (NFile b) => o = Some b | None => o = None | Some _ => False
    end.
Proof.
  intros H.
  assert (exists r0, (b <-! fs_read p; io_ret (Some b)) s = (r0, s') /\
    (r = r0 \/ (r0 = Err NotFound /\ r = Ok None))) as (r0 & H0 & Hr).
  { apply tolerate_missing_inv in H as [H|[H ->]]; eauto. }
  apply io_bind_inv in H0 as [(b & s1 & H1 & H2)|(e & H1 & ->)];
    apply fs_read_inv in H1 as [Hn H1].
  - injection H2 as <- <-. split; [done|].
    destruct H1 as [(b' & [= <-] & Hb)|(e & ? & _)]; [|done].
    intros o ->. rewrite Hb. destruct Hr as [[= ->]|[? _]]; done.
  - split; [done|]. destruct H1 as [(b' & ? & _)|(e' & [= <-] & Hb)]; [done|].
    intros o ->. destruct Hr as [?|[[= ->] [= ->]]]; [done|]. by rewrite Hb.
Qed.

Section BanListLemmas.
Context `{Serde (list Z)}.

(** The ban list a file system holds; [None] when the file is not one. *)
Definition bans_of (p : path) (m : gmap path node) : option BannedVersions :=
  match m !! p with
  | None => Some ∅
  | Some (NFile b) => list_to_set <$> from_json b
  | Some _ => None
  end.

Lemma ban_load_inv p s r s' :
  ban_load p s = (r, s') ->
  nodes s' = nodes s /\ (forall b, r = Ok b -> bans_of p (nodes s) = Some b).
Proof.
  unfold ban_load. intros H1. apply io_bind_inv in H1 as [(o & s1 & H1 & H2)|(e & H1 & ->)];
    apply io_map_err_inv in H1 as [(o' & H1 & Ho)|(e' & H1 & He)]; try done;
    apply read_opt_inv in H1 as [Hn H1]; [|done].
  simplify_eq. specialize (H1 o' eq_refl). unfold bans_of.
  destruct o' as [b|].
  - destruct (from_json b) as [vs|] eqn:Ej; injection H2 as <- <-; (split; [done|]); [|done].
    intros b' [= <-]. destruct (nodes s !! p) as [[]|]; try done; simplify_eq. by rewrite Ej.
  - injection H2 as <- <-. split; [done|]. intros b' [= <-].
    by destruct (nodes s !! p) as [[]|].
Qed.

Lemma bans_of_saved p m b :
  m !! p = Some (NFile (to_json (cmp_sort (elements b)))) -> bans_of p m = Some b.
Proof.
  intros E. unfold bans_of. rewrite E, from_to_json. simpl. f_equal. apply set_eq. intros x.
  by rewrite elem_of_list_to_set, cmp_sort_perm, elem_of_elements.
Qed.

Lemma bans_of_same p m m' : m' !! p = m !! p -> bans_of p m' = bans_of p m.
Proof. unfold bans_of. by intros ->. Qed.
End BanListLemmas.

Lemma prune_touches l v : touches (prune l v) (under (version_dir l v)).
Proof.
  intros s p Hp. unfold prune, u_io, io_map_err, tolerate_missing.
  pose proof (touches_remove_dir_all (version_dir l v) s p Hp) as Ht.
  destruct (fs_remove_dir_all _ s) as [[[]|[]] s']; exact Ht.
Qed.

Lemma version_dir_not_base l v a : a <> VERSIONS_DIR -> ~ under (version_dir l v) (base_dir l ++ [a]).
Proof.
  intros Ha Hu. apply (base_child_neq l VERSIONS_DIR a); [done|].
  rewrite version_dir_base in Hu. destruct Hu as [k E].
  rewrite <- app_assoc in E. apply app_inv_head in E. simplify_eq/=.
Qed.

Lemma version_child_not_base l v a b :
  a <> VERSIONS_DIR -> version_dir l v ++ [b] <> base_dir l ++ [a].
Proof.
  intros Ha E. apply (version_dir_not_base l v a Ha). rewrite <- E. apply under_app.
Qed.

Lemma version_dir_app_inj l v w p q :
  0 <= v <= U64_MAX -> 0 <= w <= U64_MAX -> version_dir l v ++ p = version_dir l w ++ q -> v = w.
Proof. intros Hv Hw E. apply (version_dir_under l v w q); [done..|]. rewrite <- E. apply under_app. Qed.

Lemma promote_target l v s :
  match v with Some v => promote l v | None => reset_to_bootstrap l end s =
  swap_current_to l (target_dir l v) s.
Proof. by destruct v. Qed.

(** *** Choosing a release *)

Lemma elem_of_installed l m v :
  v ∈ installed_versions l m <->
  exists name, is_dir (versions_dir l ++ [name]) m = true /\ parse_version name = Some v /\
    is_dir (versions_dir l) m = true.
Proof.
  unfold installed_versions, read_dir. destruct (is_dir (versions_dir l) m) eqn:Ed.
  2:{ split; [set_solver|]. intros (? & ? & ? & ?). done. }
  rewrite cmp_sort_perm, list_elem_of_omap. split.
  - intros (name & Hn & Hp). apply list_elem_of_filter in Hn as [Hd _]. exists name. done.
  - intros (name & Hm & Hp & _). exists name. split; [|done].
    apply list_elem_of_filter. split; [done|]. unfold is_dir in Hm.
    destruct (m !! _) as [[]|] eqn:E; try done. apply list_elem_of_omap.
    exists (versions_dir l ++ [name], NDir).
    split; [by apply elem_of_map_to_list|]. unfold child_of. cbn [fst].
    rewrite last_snoc, removelast_last. by rewrite decide_True.
Qed.

Lemma find_rev_sorted (p : Z -> bool) (vs : list Z) :
  StronglySorted cmp_le vs ->
  match List.find p (rev vs) with
  | Some t => t ∈ vs /\ p t = true /\ forall v, v ∈ vs -> p v = true -> v <= t
  | None => forall v, v ∈ vs -> p v = false
  end.
Proof.
  induction vs as [|v vs IH] using rev_ind; [set_solver|]. intros Hs. rewrite rev_unit. simpl.
  assert (StronglySorted cmp_le vs) as Hs' by (by eapply StronglySorted_app_1_l).
  assert (forall w, w ∈ vs -> w <= v) as Hv.
  { intros w Hw. assert (cmp_le w v) as Hle
      by (eapply (StronglySorted_app_1_elem_of cmp_le vs [v]); [done|done|set_solver]). by apply Z_cmp_le. }
  destruct (p v) eqn:E.
  - split_and!; [set_solver|done|]. intros w [Hw| ->%list_elem_of_singleton]%elem_of_app _; [auto|lia].
  - specialize (IH Hs'). destruct (List.find p (rev vs)) as [t|].
    + destruct IH as (H1 & H2 & H3). split_and!; [set_solver|done|].
      intros w [Hw| ->%list_elem_of_singleton]%elem_of_app Hp; [auto|congruence].
    + intros w [Hw| ->%list_elem_of_singleton]%elem_of_app; auto.
Qed.

Lemma installed_sorted l m : StronglySorted cmp_le (installed_versions l m).
Proof.
  unfold installed_versions. destruct (read_dir _ _); [apply cmp_sort_sorted|constructor].
Qed.

Lemma rollback_target_spec l v banned m :
  match rollback_target l v banned m with
  | Some t => t ∈ installed_versions l m /\ t < v /\ (t ∉ banned) /\ is_healthy l t m = true /\
      forall w, w ∈ installed_versions l m -> w < v -> w ∉ banned -> is_healthy l w m = true -> w <= t
  | None => forall w, w ∈ installed_versions l m -> w < v -> w ∉ banned -> is_healthy l w m = false
  end.
Proof.
  unfold rollback_target.
  pose proof (find_rev_sorted (fun c => (c <? v) && negb (is_banned banned c) && is_healthy l c m)
    (installed_versions l m) (installed_sorted l m)) as Hf.
  assert (forall w, (w <? v) && negb (is_banned banned w) && is_healthy l w m = true <->
    w < v /\ (w ∉ banned) /\ is_healthy l w m = true) as Hb.
  { intros w. unfold is_banned. rewrite !andb_true_iff, negb_true_iff, bool_decide_eq_false, Z.ltb_lt. tauto. }
  destruct (List.find _ _) as [t|].
  - destruct Hf as (H1 & H2 & H3). apply Hb in H2 as (? & ? & ?). split_and!; [done..|].
    intros w Hw ? ? ?. apply H3; [done|]. by apply Hb.
  - intros w Hw Hlt Hnb. destruct (is_healthy l w m) eqn:E; [|done].
    rewrite <- (Hf w Hw). symmetry. by apply Hb.
Qed.

(** *** Marking, pruning, verifying *)

Definition healthy_marker (l : Layout) (v : Z) : path := version_dir l v ++ [HEALTHY_MARKER].
Definition healthy_tmp (l : Layout) (v : Z) : path := version_dir l v ++ [".healthy.tmp"].

Lemma mark_healthy_inv l v s r s' :
  mark_healthy l v s = (r, s') ->
  (forall p, p <> healthy_tmp l v -> p <> healthy_marker l v -> nodes s' !! p = nodes s !! p) /\
  (r = Ok tt -> is_healthy l v (nodes s') = true).
Proof.
  unfold mark_healthy. fold (healthy_tmp l v) (healthy_marker l v). intros H.
  assert (healthy_tmp l v <> healthy_marker l v) as Hne
    by (intros E; apply app_inv_head in E; done).
  apply io_bind_inv in H as [([] & s1 & H1 & H)|(e & H1 & ->)];
    apply io_map_err_inv in H1 as [([] & H1 & ?)|(? & H1 & ?)]; try done;
    apply fs_write_inv in H1 as [[? Hs1]|(? & ? & Hs1)]; try done.
  2:{ split; [|done]. intros p Hp _. destruct Hs1 as [->|[n ->]]; [done|]. by rewrite lookup_insert_ne. }
  assert (nodes s1 !! healthy_tmp l v = Some (NFile [])) as Hl by (by rewrite Hs1, lookup_insert_eq).
  apply io_map_err_inv in H as [([] & H & ->)|(? & H & ->)];
    apply (fs_rename_leaf_inv _ _ _ _ _ _ Hl) in H; try done;
    destruct H as [[Hr Hn]|(? & Hr & Hn)]; simplify_eq; (split; [|try done]).
  - intros p Hp1 Hp2. rewrite Hn, lookup_insert_ne, lookup_delete_ne, Hs1, lookup_insert_ne by done. done.
  - intros _. unfold is_healthy, is_file. fold (healthy_marker l v). by rewrite Hn, lookup_insert_eq.
  - intros p Hp1 Hp2. by rewrite Hn, Hs1, lookup_insert_ne.
Qed.

Section Staged.
Context (sha256 : bytes -> bytes).

Lemma verify_entries_inv dir entries s r s' :
  verify_entries sha256 dir entries s = (r, s') ->
  nodes s' = nodes s /\
  (r = Ok tt -> forall p h, (p, h) ∈ entries ->
     exists b, nodes s !! join dir p = Some (NFile b) /\ hash_bytes sha256 b = h).
Proof.
  revert s. induction entries as [|[p h] entries IH]; intros s; cbn [verify_entries].
  - intros [= <- <-]. split; [done|]. set_solver.
  - unfold io_bind at 1, io_get at 1. destruct (negb _); [intros [= <- <-]; done|]. intros H.
    apply io_bind_inv in H as [(actual & s1 & H1 & H)|(e & H1 & ->)].
    + apply io_map_err_inv in H1 as [(? & H1 & ?)|(? & _ & ?)]; [simplify_eq|done].
      apply io_bind_inv in H1 as [(b & s2 & H1 & H2)|(? & _ & ?)]; [|done].
      injection H2 as <- <-. apply fs_read_inv in H1 as [Hn [(b' & [= <-] & Hb)|(? & ? & _)]]; [|done].
      destruct (String.eqb_spec (hash_bytes sha256 b) h) as [Eh|Eh]; simpl in H.
      * apply IH in H as [Hn' H]. rewrite Hn', Hn. split; [done|].
        intros Hr p' h' [[= -> ->]|Hin]%elem_of_cons; [eauto|].
        destruct (H Hr p' h' Hin) as (b' & Hb' & ?). rewrite Hn in Hb'. eauto.
      * injection H as <- <-. done.
    + apply io_map_err_inv in H1 as [(? & _ & ?)|(? & H1 & _)]; [done|].
      apply io_bind_inv in H1 as [(b & s2 & H1 & H2)|(? & H1 & _)];
        [by injection H2|]. apply fs_read_inv in H1 as [Hn _]. done.
Qed.
End Staged.

(** Rolling back, under any pattern of I/O failures: [current] ends where
    it was or at the rollback target, nothing outside the failed release's
    directory, the ban list and the link itself is touched, and when [rollback]
    reports success [current] resolves to the previous release (or bootstrap)
    and the ban list on disk is the old one with the failed release added. *)
Lemma rollback_inv `{Serde (list Z)} l prev failed s r s' :
  (forall x, prev = Some x -> 0 <= x <= U64_MAX) ->
  rollback l (ban_list_path l) prev failed s = (r, s') ->
  (nodes s' !! current_link l = nodes s !! current_link l \/
   nodes s' !! current_link l = Some (NLink true (target_dir l prev))) /\
  (forall p, p <> current_link l -> p <> link_tmp l -> p <> ban_list_path l ->
     ~ under (version_dir l failed) p -> nodes s' !! p = nodes s !! p) /\
  (r = Ok tt ->
     current_release_version l (nodes s') = prev /\
     resolve_active_dir l (nodes s') = target_dir l prev /\
     exists old, bans_of (ban_list_path l) (nodes s) = Some old /\
       bans_of (ban_list_path l) (nodes s') = Some (ban failed old)).
Proof.
  intros Hprev. unfold rollback, io_bind at 1. rewrite promote_target.
  destruct (swap_current_to l (target_dir l prev) s) as [r1 s1] eqn:E1.
  apply swap_current_inv in E1 as [Hf1 Hc1].
  destruct r1 as [[]|e]; [|intros [= <- <-]; split_and!; [naive_solver|naive_solver|done]].
  assert (nodes s1 !! current_link l = Some (NLink true (target_dir l prev))) as Hc
    by (destruct Hc1 as [[_ ?]|[[? ?] _]]; done).
  assert (ban_list_path l <> link_tmp l /\ ban_list_path l <> current_link l) as [Hb1 Hb2]
    by (split; by apply base_child_neq).
  intros H1. apply io_bind_inv in H1 as [(old & s2 & H1 & H2)|(e & H1 & ->)].
  2:{ apply ban_load_inv in H1 as [Hn _]. rewrite Hn. split_and!; [by right|naive_solver|done]. }
  apply ban_load_inv in H1 as [Hn2 Hold]. specialize (Hold _ eq_refl).
  rewrite (bans_of_same _ (nodes s)) in Hold by auto.
  apply io_bind_inv in H2 as [([] & s3 & H2 & H3)|(e & H2 & ->)].
  2:{ apply io_map_err_inv in H2 as [([] & _ & ?)|(? & H2 & _)]; [done|].
      apply fs_write_inv in H2 as [[? _]|(? & _ & Hs)]; [done|].
      assert (forall p, p <> ban_list_path l -> nodes s' !! p = nodes s1 !! p) as Hs'.
      { intros p Hp. rewrite <- Hn2. destruct Hs as [->|[n ->]]; [done|]. by rewrite lookup_insert_ne. }
      split_and!; [right; by rewrite Hs'|intros; rewrite Hs'; auto|done]. }
  apply io_map_err_inv in H2 as [([] & H2 & _)|(? & _ & ?)]; [|done].
  apply fs_write_inv in H2 as [[_ Hs3]|(? & ? & _)]; [|done].
  injection H3 as <- <-.
  assert (forall p, ~ under (version_dir l failed) p ->
    nodes (prune l failed s3).2 !! p = nodes s3 !! p) as Hpr by (apply prune_touches).
  assert (nodes (prune l failed s3).2 !! current_link l = Some (NLink true (target_dir l prev))) as Hc'.
  { rewrite Hpr by (by apply version_dir_not_base). rewrite Hs3, lookup_insert_ne by done. congruence. }
  split_and!; [by right| |].
  - intros p ? ? ? ?. rewrite Hpr, Hs3, lookup_insert_ne, Hn2 by done. auto.
  - intros _. destruct (current_of_link l _ prev Hprev Hc') as [-> ->]. split_and!; [done..|].
    exists old. split; [done|]. apply bans_of_saved.
    rewrite Hpr by (by apply version_dir_not_base). by rewrite Hs3, lookup_insert_eq.
Qed.

(** *** Atomic writes *)

Lemma reject_touches root dest P : touches (reject_symlink_components root dest) P.
Proof.
  apply touches_bind; [apply touches_get|]. intros []; [apply touches_ret|apply touches_fail].
Qed.

(** A write stays at or below any directory its parent is in, up to the
    directories on the way to it. *)
Lemma write_touches suffix root dest b d :
  under d (parent dest) ->
  touches (write_with_mode suffix root dest b) (fun q => under d q \/ under q d).
Proof.
  intros Hd.
  assert (forall q n, under (parent dest ++ [n]) q -> under d q) as Hchild.
  { intros q n Hq. eapply under_trans; [exact Hd|]. eapply under_trans; [apply under_app|exact Hq]. }
  apply touches_bind; [apply reject_touches|intros _].
  apply touches_bind; [|intros _].
  { eapply touches_weaken; [apply touches_create_dir_all|]. intros q Hq. cbv beta in *.
    destruct (under_common d q (parent dest) Hd Hq); auto. }
  apply touches_bind; [apply reject_touches|intros _].
  destruct (last dest) as [name|] eqn:El; [|apply touches_fail].
  assert (dest = parent dest ++ [name]) as Edest.
  { apply last_Some in El as [k ->]. by rewrite parent_snoc. }
  set (tmp := parent dest ++ _).
  assert (forall q, under tmp q \/ under dest q -> under d q \/ under q d) as Htd.
  { intros q [Hq|Hq]; left; [by eapply Hchild|]. rewrite Edest in Hq. by eapply Hchild. }
  assert (forall q, q = tmp -> under d q \/ under q d) as Htmp.
  { intros q ->. apply Htd. left. apply under_refl. }
  apply touches_bind; [by eapply touches_weaken; [apply touches_create_new|]|intros _].
  apply touches_on_err; [|intros e].
  - apply touches_bind; [by eapply touches_weaken; [apply touches_write|]|intros _].
    eapply touches_weaken; [apply touches_rename|]. exact Htd.
  - apply touches_bind; [|intros _; apply touches_fail]. apply touches_ignore.
    by eapply touches_weaken; [apply touches_remove_file|].
Qed.

(** ** Theorems *)

(** C11. A manifest signature covers everything but itself: a manifest signed
    with the matching key verifies, verification never depends on the signature
    field's place in the message, and two manifests with the same signed bytes
    agree on the release version, the schema and every entry. *)
Theorem manifest_signature_covers `{Serde ReleaseManifest}
    (verify : bytes -> bytes -> bool) (sign : bytes -> bytes) m :
  (forall msg, verify msg (sign msg) = true) ->
  (forall msg, Forall (fun b => 0 <= b < 256) (sign msg)) ->
  rm_schema_version m = MANIFEST_SCHEMA_VERSION ->
  rm_verify_signature verify (rm_sign sign m) = Return (Ok tt) /\
  (forall m', rm_canonical_bytes m' = rm_canonical_bytes m ->
     rm_entries m' = rm_entries m /\ rm_release_version m' = rm_release_version m /\
     rm_schema_version m' = rm_schema_version m).
Proof.
  intros Hv Hb Hsc. split.
  - unfold rm_verify_signature, check_signature, rm_sign. cbn [rm_schema_version rm_signature].
    rewrite (proj2 (Z.eqb_eq _ _) Hsc). unfold hex_decode.
    rewrite hex_encode_even, hex_pairs_encode by done. cbn [negb]. change (rm_canonical_bytes (mkReleaseManifest _ _ _ _)) with (rm_canonical_bytes m).
    by rewrite Hv.
  - intros m' E. unfold rm_canonical_bytes in E. apply (f_equal from_json) in E.
    rewrite !from_to_json in E. unfold rm_unsigned in E. by simplify_eq.
Qed.

(** No signed path escapes: a path that passes the check joins to the
    directory followed by its segments, none of which is empty, [.] or [..]. *)
Theorem safe_path_contained dir p :
  is_safe_relative_path p = true ->
  join dir p = dir ++ str_split "/"%char p /\ under dir (join dir p) /\ join dir p <> dir /\
  Forall (fun c => c <> "" /\ c <> "." /\ c <> "..") (str_split "/"%char p).
Proof.
  intros H. destruct (safe_path_join dir p H) as (Hj & Hf & Hne). rewrite Hj.
  split_and!; [done|apply under_app| |done].
  intros E. apply (f_equal length) in E. rewrite length_app in E.
  destruct (str_split "/"%char p); simpl in E; [done|lia].
Qed.

(** Decoding a signature fails cleanly on every ASCII text, but it slices
    the text two bytes at a time: a text with a multi-byte character across a
    slice boundary panics, and so does [verify_signature] on an offer that
    carries it, before anything was authenticated. *)
Theorem signature_decode_panics `{Serde ReleaseManifest} :
  (forall s, str_all (fun a => (nat_of_ascii a <? 128)%nat) s = true -> hex_decode s <> Panic) /\
  (forall verify, rm_verify_signature verify (mkReleaseManifest [] 1 1 "aéb") = Panic).
Proof.
  split; [|done]. intros s Hs. unfold hex_decode. destruct (Nat.even _); [|done]. revert Hs.
  assert (forall t, str_all (fun a => (nat_of_ascii a <? 128)%nat) t = true -> at_boundary t = true) as Hb.
  { intros [|a t] Ht; [done|]. simpl in Ht. apply andb_true_iff in Ht as [Ha%Nat.ltb_lt _]. simpl.
    unfold is_continuation. rewrite (proj2 (Nat.leb_gt 128 (nat_of_ascii a))) by done. done. }
  assert (forall n t, (String.length t < n)%nat ->
    str_all (fun a => (nat_of_ascii a <? 128)%nat) t = true -> hex_pairs t <> Panic) as Hn.
  { induction n as [|n IH]; intros t Hlt; [lia|]. destruct t as [|a [|b t]]; [done..|].
    cbn [hex_pairs str_all String.length] in *. rewrite !andb_true_iff. intros (_ & _ & Ht).
    rewrite (Hb t Ht). cbn [negb]. destruct (from_str_radix16 a b); [|done].
    specialize (IH t ltac:(lia) Ht). by destruct (hex_pairs t) as [|[]]. }
  apply (Hn (S (String.length s))). lia.
Qed.

(** ** Witnesses *)

(** A concrete codec: the code of a countable value as a one-element text. *)
#[local] Instance countable_serde {A} `{Countable A} : Serde A.
Proof.
  refine {| to_json a := [Z.pos (encode a)];
            from_json b := match b with [Z.pos p] => decode p | _ => None end |}.
  intros a. apply decode_encode.
Defined.

#[local] Instance ReleaseManifest_eq_dec : EqDecision ReleaseManifest.
Proof. solve_decision. Defined.
#[local] Instance ReleaseManifest_countable : Countable ReleaseManifest.
Proof.
  refine (inj_countable' (fun m => (rm_entries m, rm_release_version m, rm_schema_version m, rm_signature m))
            (fun t => mkReleaseManifest t.1.1.1 t.1.1.2 t.1.2 t.2) _).
  by intros [].
Defined.

Lemma manifest_signature_covers_witness :
  rm_verify_signature (fun _ _ => true) (rm_sign (fun _ => [1; 2]) (ReleaseManifest_new 3 [("agent", "ab")])) =
  Return (Ok tt).
Proof.
  apply (manifest_signature_covers (fun _ _ => true) (fun _ => [1; 2]));
    [reflexivity|intros _; repeat constructor; lia|reflexivity].
Defined.

Lemma safe_path_contained_witness :
  under ["var"; "content"] (join ["var"; "content"] "rules/linux/a.yml") .
Proof. apply (safe_path_contained ["var"; "content"] "rules/linux/a.yml"). vm_compute. reflexivity. Defined.
