(* ===== verification/Probation.v ===== *)
(** * Probation: the post-promotion health gate (src/watchdog/src/probation.rs)

    A release the updater has just promoted is on probation until its agent's
    heartbeat advances: [detect] decides whether the running release is on
    probation and which release a failure falls back to, [decide] settles it,
    [prove] and [roll_back] carry the decision out on the layout of
    [Updater]. *)
From stdpp Require Import base gmap strings list sorting.
From Stdlib Require Import ZArith Lia.
From S2P Require Import Prelude Order Str Fs Updater.

(** Durations in nanoseconds. *)
Definition PROBATION_DEADLINE : Z := 120 * 1000000000.

Inductive ProbationVerdict := Pending | Proven | Failed.
#[global] Instance ProbationVerdict_eq_dec : EqDecision ProbationVerdict.
Proof. solve_decision. Defined.

Definition decide_probation (elapsed deadline : Z) (advanced : bool) : ProbationVerdict :=
  if advanced then Proven else if deadline <=? elapsed then Failed else Pending.

Record Probation := mkProbation {
  pb_layout : Layout;
  pb_ban_list : path;
  pb_release : Z;
  pb_previous : option Z;
  pb_started : Z;
  pb_deadline : Z }.

(** [Path::parent]. *)
Definition path_parent (p : path) : option path :=
  match p with [] => None | _ => Some (removelast p) end.

(** The layout and release an executable belongs to: [<base>/versions/v<N>/<exe>]. *)
Definition release_of_exe (exe : path) : option (Layout * Z) :=
  release_dir ← path_parent exe;
  versions_dir ← path_parent release_dir;
  vname ← file_name versions_dir;
  if negb (String.eqb vname "versions") then None else
  base ← path_parent versions_dir;
  name ← file_name release_dir;
  v ← parse_version name;
  Some (mkLayout base, v).

(** [Instant::elapsed] saturates at zero. *)
Definition verdict (p : Probation) (now : Z) (advanced : bool) : ProbationVerdict :=
  decide_probation (now -sat pb_started p) (pb_deadline p) advanced.

Section Probation.
Context `{Serde (list Z)}.

(** [BannedVersions::load(..).unwrap_or_default()]. *)
Definition ban_load_or_default (p : path) : IO UpdaterError BannedVersions :=
  io_on_err (ban_load p) (fun _ => io_ret ∅).

Definition detect (exe : path) (now : Z) : IO UpdaterError (option Probation) :=
  match release_of_exe exe with
  | None => io_ret None
  | Some (layout, release) =>
      skip <-! io_get (fun m =>
        is_healthy layout release m
        || negb (bool_decide (current_release_version layout m = Some release)));
      if (skip : bool) then io_ret None else
      let ban_list := base_dir layout ++ ["banned_versions.json"] in
      banned <-! ban_load_or_default ban_list;
      previous <-! io_get (rollback_target layout release banned);
      io_ret (Some (mkProbation layout ban_list release previous now PROBATION_DEADLINE))
  end.

Fixpoint prune_older (l : Layout) (keep_from : Z) (versions : list Z) : IO UpdaterError unit :=
  match versions with
  | [] => io_ret tt
  | v :: versions =>
      (if v <? keep_from then io_ignore (prune l v) else io_ret tt) ;;!
      prune_older l keep_from versions
  end.

Definition prove (p : Probation) : IO UpdaterError unit :=
  mark_healthy (pb_layout p) (pb_release p) ;;!
  let keep_from := default (pb_release p) (pb_previous p) in
  versions <-! io_get (installed_versions (pb_layout p));
  prune_older (pb_layout p) keep_from versions.

Definition roll_back (p : Probation) : IO UpdaterError unit :=
  stale <-! io_get (fun m =>
    negb (bool_decide (current_release_version (pb_layout p) m = Some (pb_release p))));
  if (stale : bool) then io_ret tt
  else rollback (pb_layout p) (pb_ban_list p) (pb_previous p) (pb_release p).

(** ** Lemmas *)

Lemma release_of_exe_bound exe l v : release_of_exe exe = Some (l, v) -> 0 <= v <= U64_MAX.
Proof.
  unfold release_of_exe. intros Hr.
  destruct (path_parent exe) as [rd|]; [simpl in Hr|done].
  destruct (path_parent rd) as [vd|]; [simpl in Hr|done].
  destruct (file_name vd); [simpl in Hr|done]. destruct (negb _); [done|].
  destruct (path_parent vd); [simpl in Hr|done]. destruct (file_name rd); [simpl in Hr|done].
  destruct (parse_version _) as [w|] eqn:E; simplify_eq/=.
  unfold parse_version in E. destruct (strip_prefix _ _); [simpl in E|done].
  by eapply parse_u64_bound.
Qed.

Lemma installed_bound l m v : v ∈ installed_versions l m -> 0 <= v <= U64_MAX.
Proof.
  intros (name & _ & E & _)%elem_of_installed. unfold parse_version in E.
  destruct (strip_prefix _ _); [simpl in E|done]. by eapply parse_u64_bound.
Qed.

(** The ban list a read yields, empty when it fails. *)
Definition bans_read (p : path) (s : fsys) : BannedVersions :=
  match (ban_load p s).1 with Ok b => b | Err _ => ∅ end.

Lemma ban_load_or_default_inv p s r s' :
  ban_load_or_default p s = (r, s') -> nodes s' = nodes s /\ r = Ok (bans_read p s).
Proof.
  unfold ban_load_or_default, io_on_err, bans_read. destruct (ban_load p s) as [[b|e] s1] eqn:E;
    apply ban_load_inv in E as [Hn E]; intros [= <- <-]; done.
Qed.

(** What a probation records of the file system it was detected on. *)
Lemma detect_inv exe now s r s' :
  detect exe now s = (r, s') ->
  nodes s' = nodes s /\ exists o, r = Ok o /\
  match o with
  | None => True
  | Some p =>
      release_of_exe exe = Some (pb_layout p, pb_release p) /\
        pb_ban_list p = ban_list_path (pb_layout p) /\ pb_started p = now /\
        pb_deadline p = PROBATION_DEADLINE /\
        is_healthy (pb_layout p) (pb_release p) (nodes s) = false /\
        current_release_version (pb_layout p) (nodes s) = Some (pb_release p) /\
        pb_previous p = rollback_target (pb_layout p) (pb_release p)
                          (bans_read (pb_ban_list p) s) (nodes s)
  end.
Proof.
  unfold detect. destruct (release_of_exe exe) as [[l v]|] eqn:Er;
    [|intros [= <- <-]; split; [done|]; by exists None].
  unfold io_bind at 1, io_get at 1. destruct (_ || _) eqn:Esk;
    [intros [= <- <-]; split; [done|]; by exists None|].
  apply orb_false_iff in Esk as [Hh Hc]. apply negb_false_iff, bool_decide_eq_true in Hc.
  intros H1. apply io_bind_inv in H1 as [(b & s1 & H1 & H2)|(e & H1 & ->)];
    apply ban_load_or_default_inv in H1 as (Hn & Hb); [|done].
  simplify_eq. injection H2 as <- <-. split; [done|]. eexists. split; [done|].
  cbn [pb_layout pb_release pb_ban_list pb_started pb_deadline pb_previous].
  rewrite Hn. split_and!; done.
Qed.

Lemma prune_older_touches l keep vs :
  touches (prune_older l keep vs) (fun q => exists v, v ∈ vs /\ v < keep /\ under (version_dir l v) q).
Proof.
  induction vs as [|v vs IH]; cbn [prune_older]; [apply touches_ret|].
  apply touches_bind.
  - destruct (Z.ltb_spec v keep); [|apply touches_ret]. apply touches_ignore.
    eapply touches_weaken; [apply prune_touches|]. intros q Hq. exists v. set_solver.
  - intros _. eapply touches_weaken; [exact IH|]. intros q (w & Hw & ?). exists w. set_solver.
Qed.

(** Without I/O failures [prune] leaves no directory behind. *)
Lemma prune_no_dir l v m : is_dir (version_dir l v) (nodes (prune l v (mkFs m [])).2) = false.
Proof.
  unfold prune, u_io, io_map_err, tolerate_missing, fs_remove_dir_all, is_dir. rewrite syscall_ok.
  destruct (m !! version_dir l v) as [[]|] eqn:E; simpl;
    by rewrite ?remove_tree_lookup, ?decide_True, ?E by apply under_refl.
Qed.

Lemma prune_quiet l v m : faults (prune l v (mkFs m [])).2 = [].
Proof.
  unfold prune, u_io, io_map_err, tolerate_missing, fs_remove_dir_all. rewrite syscall_ok.
  by destruct (m !! version_dir l v) as [[]|].
Qed.

(** Without I/O failures every release directory below the floor goes. *)
Lemma prune_older_gone l keep vs m v :
  v ∈ vs -> v < keep -> 0 <= v <= U64_MAX -> (forall w, w ∈ vs -> 0 <= w <= U64_MAX) ->
  is_dir (version_dir l v) (nodes (prune_older l keep vs (mkFs m [])).2) = false.
Proof.
  intros Hv Hlt Hb. revert m. induction vs as [|w vs IH]; intros m Hbs; [set_solver|].
  cbn [prune_older]. unfold io_bind. destruct (Z.ltb_spec w keep) as [Hw|Hw].
  - cbn [io_ignore]. destruct (prune l w (mkFs m [])) as [rp sp] eqn:Ep.
    assert (sp = mkFs (nodes sp) []) as Esp.
    { pose proof (prune_quiet l w m) as Hq. rewrite Ep in Hq. destruct sp. by simplify_eq/=. }
    cbn [snd]. rewrite Esp.
    destruct (decide (v ∈ vs)) as [Hin|Hnin]; [apply IH; [done|set_solver]|].
    assert (v = w) as -> by set_solver.
    assert (nodes (prune_older l keep vs (mkFs (nodes sp) [])).2 !! version_dir l w =
            nodes sp !! version_dir l w) as Hsame.
    { apply (prune_older_touches l keep vs (mkFs (nodes sp) [])). intros (u & Hu & _ & Hun).
      assert (u = w); [|set_solver].
      apply (version_dir_under l u w []); [apply Hbs; set_solver|done|by rewrite app_nil_r]. }
    unfold is_dir. rewrite Hsame. pose proof (prune_no_dir l w m) as Hg. by rewrite Ep in Hg.
  - apply IH; [|set_solver]. apply elem_of_cons in Hv as [->|]; [lia|done].
Qed.

(** A detected probation's fallback: older, proven and not banned. *)
Lemma detect_fallback exe now s p s' t :
  detect exe now s = (Ok (Some p), s') -> pb_previous p = Some t ->
  0 <= t <= U64_MAX /\ t < pb_release p /\ is_healthy (pb_layout p) t (nodes s) = true /\
  (t ∉ bans_read (pb_ban_list p) s).
Proof.
  intros H1 Ht. apply detect_inv in H1 as (_ & o & [= <-] & _ & _ & _ & _ & _ & _ & Hp).
  pose proof (rollback_target_spec (pb_layout p) (pb_release p)
    (bans_read (pb_ban_list p) s) (nodes s)) as Hs.
  rewrite <- Hp, Ht in Hs. destruct Hs as (Hin & Hlt & Hnb & Hh & _).
  split; [by eapply installed_bound|done].
Qed.

Lemma prove_inv p s r s' :
  prove p s = (r, s') ->
  (forall q, q <> healthy_tmp (pb_layout p) (pb_release p) ->
     q <> healthy_marker (pb_layout p) (pb_release p) ->
     (forall v, 0 <= v <= U64_MAX -> v < default (pb_release p) (pb_previous p) ->
        ~ under (version_dir (pb_layout p) v) q) ->
     nodes s' !! q = nodes s !! q) /\
  (r = Ok tt -> exists s1, nodes s' = nodes (prune_older (pb_layout p)
     (default (pb_release p) (pb_previous p)) (installed_versions (pb_layout p) (nodes s1)) s1).2 /\
     is_healthy (pb_layout p) (pb_release p) (nodes s1) = true /\ mark_healthy (pb_layout p) (pb_release p) s = (Ok tt, s1)).
Proof.
  unfold prove. intros H1. apply io_bind_inv in H1 as [([] & s1 & H1 & H2)|(e & H1 & ->)].
  - pose proof (mark_healthy_inv _ _ _ _ _ H1) as [Hf Hh]. specialize (Hh eq_refl).
    unfold io_bind, io_get in H2.
    assert (s' = (prune_older (pb_layout p) (default (pb_release p) (pb_previous p))
      (installed_versions (pb_layout p) (nodes s1)) s1).2) as -> by (by rewrite H2).
    split; [|intros _; exists s1; done]. intros q Hq1 Hq2 Hq3.
    rewrite prune_older_touches; [by apply Hf|]. intros (v & Hv & Hlt & Hu).
    apply (Hq3 v); [by eapply installed_bound|done|done].
  - apply mark_healthy_inv in H1 as [Hf _]. split; [|done]. intros q ? ? _. auto.
Qed.

Lemma mark_healthy_quiet l v m : faults (mark_healthy l v (mkFs m [])).2 = [].
Proof.
  unfold mark_healthy, u_io, io_map_err, io_bind, fs_write, fs_rename. rewrite syscall_ok.
  destruct (match m !! _ with Some NDir => _ | _ => _ end) as [[[] m']|]; [|done].
  rewrite syscall_ok. by destruct (if decide _ then _ else _) as [[[] ?]|].
Qed.

Lemma prune_older_dir l keep vs s v :
  (forall w, w ∈ vs -> 0 <= w <= U64_MAX) -> 0 <= v <= U64_MAX -> v ∉ vs ->
  is_dir (version_dir l v) (nodes (prune_older l keep vs s).2) = is_dir (version_dir l v) (nodes s).
Proof.
  intros Hb Hv Hnin. unfold is_dir. rewrite prune_older_touches; [done|].
  intros (w & Hw & _ & Hu). apply Hnin.
  replace v with w; [done|]. apply (version_dir_under l w v []); [auto..|by rewrite app_nil_r].
Qed.

(** ** Theorems *)

(** C9. A release that fails its probation is left behind safely: if [current]
    has moved on, [roll_back] does nothing; otherwise, when it succeeds,
    [current] is the fallback recorded at detection (or bootstrap), the failed
    release is on the ban list with every earlier ban kept, and the same
    executable is no longer on probation.  The fallback is older than the failed
    release, had passed its own health check and was not banned.  Under any I/O
    failures [current] is the old link or the fallback, never anything else. *)
Theorem failed_release_rolls_back exe now s0 s0' p s1 r s2 :
  detect exe now s0 = (Ok (Some p), s0') -> roll_back p s1 = (r, s2) ->
  (current_release_version (pb_layout p) (nodes s1) <> Some (pb_release p) -> r = Ok tt /\ s2 = s1) /\
  (nodes s2 !! current_link (pb_layout p) = nodes s1 !! current_link (pb_layout p) \/
   nodes s2 !! current_link (pb_layout p) = Some (NLink true (target_dir (pb_layout p) (pb_previous p)))) /\
  (current_release_version (pb_layout p) (nodes s1) = Some (pb_release p) -> r = Ok tt ->
     current_release_version (pb_layout p) (nodes s2) = pb_previous p /\
     (exists old, bans_of (pb_ban_list p) (nodes s1) = Some old /\
        bans_of (pb_ban_list p) (nodes s2) = Some (ban (pb_release p) old)) /\
     forall now', (detect exe now' s2).1 = Ok None) /\
  (forall t, pb_previous p = Some t -> t < pb_release p /\
     is_healthy (pb_layout p) t (nodes s0) = true /\ (t ∉ bans_read (pb_ban_list p) s0)).
Proof.
  intros Hd Hr. pose proof (detect_fallback exe now s0 p s0') as Hfb.
  assert (forall x, pb_previous p = Some x -> 0 <= x <= U64_MAX) as Hprev
    by (intros x Hx; by apply (Hfb x Hd Hx)).
  pose proof (detect_inv _ _ _ _ _ Hd) as (_ & o & [= <-] & Hexe & Hbl & _).
  unfold roll_back, io_bind, io_get in Hr. rewrite Hbl in *.
  destruct (bool_decide (current_release_version (pb_layout p) (nodes s1) = Some (pb_release p))) eqn:Ec;
    simpl in Hr.
  - apply bool_decide_eq_true in Ec. apply rollback_inv in Hr as (Hc & _ & Hok); [|done].
    split_and!; [done|done| |intros t Ht; by apply (Hfb t Hd Ht)].
    intros _ ->. destruct (Hok eq_refl) as (Hcur & _ & Hban). split_and!; [done..|]. intros now'.
    unfold detect. rewrite Hexe. unfold io_bind at 1, io_get at 1. rewrite Hcur.
    rewrite (bool_decide_false (pb_previous p = Some (pb_release p))); [by rewrite orb_true_r|].
    intros E. destruct (Hfb _ Hd E) as (_ & Hlt & _). lia.
  - apply bool_decide_eq_false in Ec. injection Hr as <- <-.
    split_and!; [done|by left|done|intros t Ht; by apply (Hfb t Hd Ht)].
Qed.

(** A release that proves itself is settled: it is marked healthy and never
    on probation again, [current] and the whole tree of its fallback stay as
    they were, and without I/O failures no older release directory survives. *)
Theorem proven_release_settled exe now s0 s0' p s1 s2 :
  detect exe now s0 = (Ok (Some p), s0') -> prove p s1 = (Ok tt, s2) ->
  is_healthy (pb_layout p) (pb_release p) (nodes s2) = true /\
  (forall now', (detect exe now' s2).1 = Ok None) /\
  nodes s2 !! current_link (pb_layout p) = nodes s1 !! current_link (pb_layout p) /\
  (forall t q, pb_previous p = Some t ->
     nodes s2 !! (version_dir (pb_layout p) t ++ q) = nodes s1 !! (version_dir (pb_layout p) t ++ q)) /\
  (faults s1 = [] -> is_dir (versions_dir (pb_layout p)) (nodes s1) = true ->
     forall v, 0 <= v <= U64_MAX -> v < default (pb_release p) (pb_previous p) ->
     is_dir (version_dir (pb_layout p) v) (nodes s2) = false).
Proof.
  intros Hd Hp. pose proof (detect_fallback exe now s0 p s0') as Hfb.
  pose proof (detect_inv _ _ _ _ _ Hd) as (_ & o & [= <-] & Hexe & _).
  pose proof (release_of_exe_bound _ _ _ Hexe) as Hrel.
  pose proof (prove_inv _ _ _ _ Hp) as [Hframe Hok].
  destruct (Hok eq_refl) as (sm & Hs2 & Hh & Hm). clear Hok.
  set (l := pb_layout p) in *. set (keep := default (pb_release p) (pb_previous p)) in *.
  assert (keep <= pb_release p) as Hkeep.
  { unfold keep. destruct (pb_previous p) as [t|] eqn:E; simpl; [|lia].
    destruct (Hfb t Hd eq_refl) as (_ & ? & _). lia. }
  assert (is_healthy l (pb_release p) (nodes s2) = true) as Hh2.
  { unfold is_healthy, is_file. rewrite Hs2, prune_older_touches; [exact Hh|].
    intros (v & Hv & Hlt & Hu).
    apply (version_dir_under l v (pb_release p)) in Hu; [lia|by eapply installed_bound|done]. }
  split_and!; [done| | | |].
  - intros now'. unfold detect. rewrite Hexe. fold l. unfold io_bind at 1, io_get at 1. by rewrite Hh2.
  - apply Hframe; [by apply not_eq_sym, version_child_not_base|by apply not_eq_sym, version_child_not_base|].
    intros v _ _. by apply version_dir_not_base.
  - intros t q Ht. destruct (Hfb t Hd Ht) as (Htb & Htlt & _).
    apply Hframe.
    + intros E. apply version_dir_app_inj in E; [lia|done..].
    + intros E. apply version_dir_app_inj in E; [lia|done..].
    + intros v Hv Hlt Hu. apply version_dir_under in Hu; [|done..]. unfold keep in Hlt.
      rewrite Ht in Hlt. simpl in Hlt. lia.
  - intros Hq Hvd v Hv Hlt. rewrite Hs2.
    assert (sm = mkFs (nodes sm) []) as Esm.
    { pose proof (mark_healthy_quiet l (pb_release p) (nodes s1)) as Hq'.
      destruct s1 as [m1 f1]. simpl in Hq. subst f1. cbn [nodes] in Hq'. rewrite Hm in Hq'.
      destruct sm. by simplify_eq/=. }
    destruct (decide (v ∈ installed_versions l (nodes sm))) as [Hin|Hnin].
    + rewrite Esm. apply prune_older_gone; [done|done|done|]. intros w Hw. by eapply installed_bound.
    + rewrite prune_older_dir; [|intros; by eapply installed_bound|done|done].
      destruct (is_dir (version_dir l v) (nodes sm)) eqn:Ed; [|done]. destruct Hnin.
      apply elem_of_installed. exists (version_name v).
      split_and!; [exact Ed|by apply parse_version_name|].
      apply mark_healthy_inv in Hm as [Hf _]. unfold is_dir. rewrite Hf; [exact Hvd|..];
        intros E; apply (f_equal length) in E;
        unfold healthy_tmp, healthy_marker, version_dir in E; rewrite !length_app in E; simpl in E; lia.
Qed.
End Probation.

(** ** Witnesses *)

Definition sample_layout : Layout := mkLayout ["var"].
Definition sample_exe : path := ["var"; "versions"; "v2"; "watchdog"].

Definition sample_fs : fsys := mkFs
  {[ [] := NDir; ["var"] := NDir; ["var"; "bootstrap"] := NDir; ["var"; "versions"] := NDir;
     ["var"; "versions"; "v1"] := NDir; ["var"; "versions"; "v1"; ".healthy"] := NFile [];
     ["var"; "versions"; "v0"] := NDir;
     ["var"; "versions"; "v2"] := NDir; ["var"; "versions"; "v2"; "watchdog"] := NFile [1];
     ["var"; "current"] := NLink true ["var"; "versions"; "v2"] ]} [].

(** The codec of the witnesses: version numbers as they are. *)
#[local] Instance plain_serde : Serde (list Z).
Proof. refine {| to_json := id; from_json := Some |}. done. Defined.

Definition sample_probation : Probation :=
  mkProbation sample_layout ["var"; "banned_versions.json"] 2 (Some 1) 7 PROBATION_DEADLINE.

Lemma failed_release_rolls_back_witness :
  detect sample_exe 7 sample_fs = (Ok (Some sample_probation), sample_fs) /\
  exists s2, roll_back sample_probation sample_fs = (Ok tt, s2) /\
    current_release_version sample_layout (nodes s2) = Some 1 /\
    bans_of ["var"; "banned_versions.json"] (nodes s2) = Some (ban 2 ∅).
Proof.
  assert (detect sample_exe 7 sample_fs = (Ok (Some sample_probation), sample_fs)) as Hd
    by (vm_compute; reflexivity).
  split; [exact Hd|].
  destruct (roll_back sample_probation sample_fs) as [r s2] eqn:E.
  assert (r = Ok tt) as Hr.
  { change r with (r, s2).1. rewrite <- E. vm_compute. reflexivity. }
  exists s2. rewrite Hr in *. split; [reflexivity|].
  destruct (failed_release_rolls_back sample_exe 7 sample_fs sample_fs sample_probation sample_fs
    (Ok tt) s2 Hd E) as (_ & _ & H & _).
  destruct H as (H1 & (old & H2 & H3) & _); [vm_compute; reflexivity|reflexivity|].
  split; [exact H1|]. vm_compute in H2. injection H2 as <-. exact H3.
Defined.

Lemma proven_release_settled_witness :
  exists s2, prove sample_probation sample_fs = (Ok tt, s2) /\
    is_healthy sample_layout 2 (nodes s2) = true /\
    is_dir (version_dir sample_layout 0) (nodes s2) = false.
Proof.
  assert (detect sample_exe 7 sample_fs = (Ok (Some sample_probation), sample_fs)) as Hd
    by (vm_compute; reflexivity).
  destruct (prove sample_probation sample_fs) as [r s2] eqn:E.
  assert (r = Ok tt) as Hr.
  { change r with (r, s2).1. rewrite <- E. vm_compute. reflexivity. }
  exists s2. rewrite Hr in *. split; [reflexivity|].
  destruct (proven_release_settled sample_exe 7 sample_fs sample_fs sample_probation sample_fs s2 Hd E)
    as (H1 & _ & _ & _ & H2).
  split; [exact H1|]. apply H2; [reflexivity|vm_compute; reflexivity|unfold U64_MAX; lia|].
  cbn. lia.
Defined.
