(* ===== verification/Supervise.v ===== *)
(** * Supervise: the watchdog's supervision loop (src/watchdog/src/supervise.rs, tamper.rs)

    The loop that spawns the agent, watches its exit and its heartbeat, backs off on
    crash loops, refuses a swapped binary and settles the release on probation.  The
    surroundings are a script: one [Round] per turn of the outer loop (the stop flag,
    the clock, the bytes of the binary, whether the spawn succeeds, the flag during
    the sleep) with one [Poll] per turn of the inner loop.  A script that ends while
    the loop goes on leaves no exit.  What the loop does is recorded: launches, kills,
    alerts.  [Launch] carries the bytes the pin check read just before.  Durations are
    nanoseconds. *)
From stdpp Require Import base gmap strings list.
From Stdlib Require Import ZArith Lia Ascii.
From S2P Require Import Prelude Order Str Text Fs Updater Probation.
#[local] Open Scope string_scope.
#[local] Open Scope Z_scope.
#[local] Open Scope list_scope.

Definition FAST_CRASH_THRESHOLD : Z := 10 * 1000000000.
Definition BACKOFF_CAP_SECS : Z := 300.
Definition POLL_TICK_MS : Z := 500.

(** ** Backoff *)

Record Backoff := mkBackoff { bo_floor : Z; bo_current : Z }.
Inductive ExitClass := FastCrash | Healthy.

Definition Backoff_new (floor : Z) : Backoff := mkBackoff floor (Z.max floor 1).

Definition record_exit (uptime : Z) (b : Backoff) : Z * ExitClass * Backoff :=
  if uptime <? FAST_CRASH_THRESHOLD
  then (bo_current b, FastCrash, mkBackoff (bo_floor b) (Z.min (Z.min (bo_current b * 2) U64_MAX) BACKOFF_CAP_SECS))
  else (bo_floor b, Healthy, mkBackoff (bo_floor b) (bo_floor b)).

(** ** The heartbeat monitor *)

Record HeartbeatMonitor := mkMonitor {
  ticks_per_check : Z; miss_limit : Z; ticks_since_check : Z;
  last_value : option Z; misses : Z; progressed : bool }.

(** [((interval.as_millis() / POLL_TICK.as_millis()) as u32).max(1)]. *)
Definition HeartbeatMonitor_new (interval_secs limit : Z) : HeartbeatMonitor :=
  mkMonitor (Z.max ((interval_secs * 1000 / POLL_TICK_MS) mod 2 ^ 32) 1) (Z.max limit 1) 0 None 0 false.

Definition observe (current : option Z) (h : HeartbeatMonitor) : bool * HeartbeatMonitor :=
  let h :=
    match current, last_value h with
    | None, _ => h
    | Some v, prev =>
        if bool_decide (prev = Some v)
        then mkMonitor (ticks_per_check h) (miss_limit h) (ticks_since_check h) prev (misses h + 1) (progressed h)
        else mkMonitor (ticks_per_check h) (miss_limit h) (ticks_since_check h) (Some v) 0
               (progressed h || match prev with Some _ => true | None => false end)
    end in
  (miss_limit h <=? misses h, h).

(** [reading] is what the heartbeat file says when it is read. *)
Definition tick (reading : option Z) (h : HeartbeatMonitor) : bool * HeartbeatMonitor :=
  let h := mkMonitor (ticks_per_check h) (miss_limit h) (ticks_since_check h + 1) (last_value h) (misses h) (progressed h) in
  if ticks_since_check h <? ticks_per_check h then (false, h)
  else observe reading (mkMonitor (ticks_per_check h) (miss_limit h) 0 (last_value h) (misses h) (progressed h)).

(** ** The binary's pin (tamper.rs): the digest of what the path holds *)

Record BinaryPin := mkPin { pin_digest : bytes }.
Definition pin_of (sha256 : bytes -> bytes) (binary : option bytes) : option BinaryPin :=
  (fun b => mkPin (sha256 b)) <$> binary.
Definition pin_verify (sha256 : bytes -> bytes) (pin : BinaryPin) (binary : option bytes) : bool :=
  match binary with Some b => bool_decide (sha256 b = pin_digest pin) | None => false end.

(** ** The loop *)

Inductive ChildStatus := Exited | Running | WaitError.
Record Poll := mkPoll { po_stop : bool; po_status : ChildStatus; po_reading : option Z; po_now : Z }.
Record Round := mkRound {
  ro_stop : bool; ro_now : Z; ro_drift : list string; ro_binary : option bytes;
  ro_spawned : Z; ro_child : option (list Poll); ro_sleep : nat -> bool }.

Inductive LoopExit := Stopped | LoopRolledBack (failed : Z) (restored : option Z).
Inductive WatchOutcome := WRestart | WStop | WRolledBack (failed : Z) (restored : option Z).

Inductive action :=
| Launch (checked : option bytes)
| KillChild
| SelfProtection (message : string)
| Sleep (secs : Z).

(** The watchdog: the backoff, the probation, the disk and what was done. *)
Record Watchdog := mkWatchdog {
  wd_backoff : Backoff; wd_probation : option Probation; wd_fs : fsys; wd_log : list action }.

Definition with_backoff (b : Backoff) (w : Watchdog) : Watchdog := mkWatchdog b (wd_probation w) (wd_fs w) (wd_log w).
Definition act (a : action) (w : Watchdog) : Watchdog := mkWatchdog (wd_backoff w) (wd_probation w) (wd_fs w) (wd_log w ++ [a]).
Definition settle (p : option Probation) (s : fsys) (w : Watchdog) : Watchdog := mkWatchdog (wd_backoff w) p s (wd_log w).

Definition drift_lines (lines : list string) (w : Watchdog) : Watchdog := foldl (fun w l => act (SelfProtection l) w) w lines.

Definition target_text (restored : option Z) : string :=
  match restored with Some v => cat ["release "; show_u64 v] | None => "bootstrap" end.

(** [for _ in 0..(secs * 2)]. *)
Definition sleep_unless_stopped (flag : nat -> bool) (secs : Z) : bool :=
  negb (existsb flag (seq 0 (Z.to_nat (wrap64 (secs * 2))))).

Section Supervise.
Context `{Serde (list Z)}.
Variable sha256 : bytes -> bytes.
Variable show_updater_error : UpdaterError -> string.
Variable agent_display : string.

Definition settle_probation (advanced : bool) (now : Z) (w : Watchdog) : option LoopExit * Watchdog :=
  match wd_probation w with
  | None => (None, w)
  | Some current =>
      match verdict current now advanced with
      | Pending => (None, w)
      | Proven => let '(_, s) := prove current (wd_fs w) in (None, settle None s w)
      | Failed =>
          let failed := pb_release current in
          let restored := pb_previous current in
          match roll_back current (wd_fs w) with
          | (Ok _, s) =>
              (Some (LoopRolledBack failed restored),
               act (SelfProtection (cat ["release "; show_u64 failed; " never showed agent progress after promotion — rolled back to ";
                      target_text restored; " and banned it; restarting from there"])) (settle (Some current) s w))
          | (Err e, s) =>
              (None,
               act (SelfProtection (cat ["release "; show_u64 failed; " failed its health check but rolling back to ";
                      target_text restored; " failed: "; show_updater_error e; " — staying on it"])) (settle None s w))
          end
      end
  end.

(** The exit's delay, then the sleep. *)
Definition restart_after (flag : nat -> bool) (delay : Z) (w : Watchdog) : WatchOutcome * Watchdog :=
  (if sleep_unless_stopped flag delay then WRestart else WStop, act (Sleep delay) w).

(** [None] while the script ends with the child still watched. *)
Fixpoint watch_child (polls : list Poll) (spawn_time : Z) (flag : nat -> bool) (h : HeartbeatMonitor) (w : Watchdog)
    : option WatchOutcome * Watchdog :=
  match polls with
  | [] => (None, w)
  | po :: polls =>
      if po_stop po then (Some WStop, act KillChild w)
      else match po_status po with
           | Exited =>
               let '(delay, _, b) := record_exit (po_now po -sat spawn_time) (wd_backoff w) in
               let '(out, w) := restart_after flag delay (with_backoff b w) in (Some out, w)
           | Running =>
               let '(hung, h) := tick (po_reading po) h in
               if hung then
                 let '(delay, _, b) := record_exit (po_now po -sat spawn_time) (wd_backoff w) in
                 let '(out, w) := restart_after flag delay (with_backoff b (act KillChild w)) in (Some out, w)
               else
                 match settle_probation (progressed h) (po_now po) w with
                 | (Some (LoopRolledBack failed restored), w) => (Some (WRolledBack failed restored), act KillChild w)
                 | (_, w) => watch_child polls spawn_time flag h w
                 end
           | WaitError => (Some WRestart, w)
           end
  end.

(** A turn that ends before the spawn: the backoff as for an instant crash. *)
Definition refuse_round (ro : Round) (w : Watchdog) : option LoopExit * Watchdog :=
  let '(delay, _, b) := record_exit 0 (wd_backoff w) in
  let w := act (Sleep delay) (with_backoff b w) in
  (if sleep_unless_stopped (ro_sleep ro) delay then None else Some Stopped, w).

(** One turn: [inl] an exit, [inr true] the next turn, [inr false] the script ended inside. *)
Definition supervise_round (interval limit : Z) (pin : option BinaryPin) (ro : Round) (w : Watchdog)
    : (LoopExit + bool) * Watchdog :=
  if ro_stop ro then (inl Stopped, w)
  else match settle_probation false (ro_now ro) w with
       | (Some exit, w) => (inl exit, w)
       | (None, w) =>
           let w := drift_lines (ro_drift ro) w in
           let pinned := match pin with Some pin => pin_verify sha256 pin (ro_binary ro) | None => true end in
           let refused (w : Watchdog) := match refuse_round ro w with
                                         | (Some exit, w) => (inl exit, w)
                                         | (None, w) => (inr true, w)
                                         end in
           if negb pinned then
             refused (act (SelfProtection (cat ["agent binary at "; agent_display;
                             " no longer matches its pinned hash — refusing to launch it"])) w)
           else
             let h := HeartbeatMonitor_new interval limit in
             match ro_child ro with
             | Some polls =>
                 match watch_child polls (ro_spawned ro) (ro_sleep ro) h (act (Launch (ro_binary ro)) w) with
                 | (None, w) => (inr false, w)
                 | (Some WRestart, w) => (inr true, w)
                 | (Some WStop, w) => (inl Stopped, w)
                 | (Some (WRolledBack failed restored), w) => (inl (LoopRolledBack failed restored), w)
                 end
             | None => refused w
             end
       end.

Fixpoint supervise_rounds (interval limit : Z) (pin : option BinaryPin) (rounds : list Round) (w : Watchdog)
    : option LoopExit * Watchdog :=
  match rounds with
  | [] => (None, w)
  | ro :: rounds =>
      match supervise_round interval limit pin ro w with
      | (inl exit, w) => (Some exit, w)
      | (inr false, w) => (None, w)
      | (inr true, w) => supervise_rounds interval limit pin rounds w
      end
  end.

Definition supervise_loop (restart_delay interval limit : Z) (binary : option bytes) (probation : option Probation)
    (s : fsys) (rounds : list Round) : option LoopExit * Watchdog :=
  supervise_rounds interval limit (pin_of sha256 binary) rounds (mkWatchdog (Backoff_new restart_delay) probation s []).
End Supervise.

(** ** Backoff *)

(** The exits so far, and how many of the last ones were fast crashes. *)
Definition exits (us : list Z) (b : Backoff) : Backoff := foldl (fun b u => (record_exit u b).2) b us.
Definition is_fast (u : Z) : bool := u <? FAST_CRASH_THRESHOLD.
Fixpoint leading_fast (us : list Z) : nat :=
  match us with u :: us => if is_fast u then S (leading_fast us) else 0 | [] => 0 end.
Definition crash_streak (us : list Z) : nat := leading_fast (reverse us).

Lemma crash_streak_snoc us u : crash_streak (us ++ [u]) = if is_fast u then S (crash_streak us) else 0%nat.
Proof. unfold crash_streak. by rewrite reverse_snoc. Qed.

Lemma exits_current floor us :
  1 <= floor <= BACKOFF_CAP_SECS ->
  exits us (Backoff_new floor) = mkBackoff floor (Z.min (floor * 2 ^ Z.of_nat (crash_streak us)) BACKOFF_CAP_SECS).
Proof.
  intros Hf. unfold exits. induction us as [|u us IH] using rev_ind.
  { cbn. unfold Backoff_new. f_equal. lia. }
  rewrite foldl_app. cbn [foldl]. rewrite IH, crash_streak_snoc. unfold record_exit, is_fast. cbn [bo_current bo_floor].
  destruct (u <? FAST_CRASH_THRESHOLD); cbn [snd]; f_equal.
  - rewrite Nat2Z.inj_succ, Z.pow_succ_r by lia. unfold BACKOFF_CAP_SECS, U64_MAX in *.
    assert (0 < 2 ^ Z.of_nat (crash_streak us)) by (apply Z.pow_pos_nonneg; lia). nia.
  - cbn. unfold BACKOFF_CAP_SECS in *. lia.
Qed.

(** The backoff is exact: for a configured delay between one second and the cap,
    after any history of exits the delay before the next restart is the configured one
    after a long enough run, and after a fast crash the configured one doubled for
    every fast crash since the last long run, capped at five minutes. *)
Theorem backoff_exact floor us u :
  1 <= floor <= BACKOFF_CAP_SECS ->
  (record_exit u (exits us (Backoff_new floor))).1.1 =
    if is_fast u then Z.min (floor * 2 ^ Z.of_nat (crash_streak us)) BACKOFF_CAP_SECS else floor.
Proof.
  intros Hf. rewrite exits_current by done. unfold record_exit, is_fast. by destruct (u <? FAST_CRASH_THRESHOLD).
Qed.

(** Outside that range the backoff is lost: configured with zero, one long run resets
    the delay below the one-second minimum and every later crash loop restarts with no
    delay at all; configured above the cap, the second fast crash waits less than the
    configured delay. *)
Theorem backoff_degenerates :
  (forall n, (record_exit 0 (exits (FAST_CRASH_THRESHOLD :: replicate n 0) (Backoff_new 0))).1.1 = 0) /\
  (forall floor, BACKOFF_CAP_SECS < floor -> (record_exit 0 (exits [0] (Backoff_new floor))).1.1 < floor).
Proof.
  split.
  - intros n. unfold exits. cbn [foldl]. change (record_exit FAST_CRASH_THRESHOLD (Backoff_new 0)).2 with (mkBackoff 0 0).
    assert (foldl (fun b u => (record_exit u b).2) (mkBackoff 0 0) (replicate n 0) = mkBackoff 0 0) as ->; [|done].
    induction n as [|n IH]; [done|]. exact IH.
  - intros floor Hf. unfold exits, record_exit. change (0 <? FAST_CRASH_THRESHOLD) with true.
    cbn [foldl fst snd bo_current bo_floor Backoff_new]. change (0 <? FAST_CRASH_THRESHOLD) with true.
    cbn [fst snd bo_current]. unfold BACKOFF_CAP_SECS in *. lia.
Qed.

(** ** The heartbeat *)

Definition observe_all (rs : list (option Z)) (h : HeartbeatMonitor) : HeartbeatMonitor :=
  foldl (fun h r => (observe r h).2) h rs.
Definition readings (rs : list (option Z)) : list Z := omap id rs.

(** The length of the run of equal values at the end. *)
Fixpoint leading_run (v : Z) (vs : list Z) : nat :=
  match vs with x :: vs => if bool_decide (x = v) then S (leading_run v vs) else 0 | [] => 0 end.

Lemma leading_run_spec v vs n : (n <= leading_run v vs)%nat <-> exists rest, vs = replicate n v ++ rest.
Proof.
  revert n. induction vs as [|x vs IH]; intros n; cbn [leading_run].
  - split; [intros Hn; assert (n = 0%nat) as -> by lia; by exists []|]. intros (rest & E). destruct n; [lia|done].
  - destruct n as [|n]; [split; [by eexists|lia]|]. case_bool_decide as Hx; [|split; [lia|]].
    + subst x. rewrite <- Nat.succ_le_mono, IH. split; intros (rest & E); exists rest; cbn in *; [by rewrite E|by injection E].
    + intros (rest & E). by injection E as <- _.
Qed.

(** What the monitor knows after some readings. *)
Definition monitor_ok (limit : Z) (vs : list Z) (h : HeartbeatMonitor) : Prop :=
  miss_limit h = limit /\ last_value h = last vs /\
  (match last vs with Some v => Z.of_nat (leading_run v (reverse vs)) = misses h + 1 | None => misses h = 0 end) /\
  (progressed h = true <-> exists v w, v ∈ vs /\ w ∈ vs /\ v <> w).

Lemma observe_ok limit vs h r :
  monitor_ok limit vs h -> monitor_ok limit (vs ++ option_list r) (observe r h).2.
Proof.
  intros (H1 & H2 & H3 & H4). destruct r as [v|]; [change (option_list (Some v)) with [v]|by change (option_list None) with (@nil Z); rewrite app_nil_r].
  unfold observe, monitor_ok. rewrite H2, last_snoc, reverse_snoc. cbn [leading_run].
  rewrite (bool_decide_eq_true_2 (v = v)) by done. case_bool_decide as Hl; cbn [snd miss_limit last_value misses progressed].
  - rewrite Hl in H3. split_and!; [done|done|lia|]. rewrite H4. apply last_Some in Hl as [k ->].
    split; intros (a & b & Ha & Hb & Hn); exists a, b; set_solver.
  - split_and!; [done|done| |].
    + destruct (reverse vs) as [|x xs] eqn:Er; [done|]. cbn [leading_run]. case_bool_decide as Hx; [|done].
      destruct Hl. subst x. apply (f_equal reverse) in Er. rewrite reverse_involutive, reverse_cons in Er.
      by rewrite Er, last_snoc.
    + rewrite orb_true_iff, H4. destruct (last vs) as [x|] eqn:El.
      * split; [|by right]. intros _. exists x, v. apply last_Some in El as [k ->]. split; [set_solver|]. split; [set_solver|]. congruence.
      * apply last_None in El as ->. split; [intros [(a & b & Ha & _)|]; [set_solver|done]|].
        intros (a & b & Ha & Hb & Hn). set_solver.
Qed.

Lemma observe_all_ok limit rs h vs :
  monitor_ok limit vs h -> monitor_ok limit (vs ++ readings rs) (observe_all rs h).
Proof.
  revert h vs. induction rs as [|r rs IH]; intros h vs Hh; [by rewrite app_nil_r|].
  cbn [observe_all foldl readings omap list_omap]. apply (observe_ok _ _ _ r) in Hh. apply IH in Hh. unfold observe_all, readings in *.
  destruct r; cbn [option_list id] in *; [by rewrite <- app_assoc in Hh|by rewrite app_nil_r in Hh].
Qed.

(** The heartbeat's judgement is exact: after any readings of the file, the agent is
    declared hung if and only if the last ones that could be read (one more than the
    miss limit) are all equal, unreadable ones not counting; and it counts as
    progressing if and only if two readings differ, in either direction. *)
Theorem hang_exact interval limit rs r :
  let h := observe_all rs (HeartbeatMonitor_new interval limit) in
  ((observe r h).1 = true <->
     exists v before, readings (rs ++ [r]) = before ++ replicate (S (Z.to_nat (Z.max limit 1))) v) /\
  (progressed (observe r h).2 = true <-> exists v w, v ∈ readings (rs ++ [r]) /\ w ∈ readings (rs ++ [r]) /\ v <> w).
Proof.
  intros h. assert (monitor_ok (Z.max limit 1) [] (HeartbeatMonitor_new interval limit)) as H0.
  { split_and!; [done..|]. split; [done|]. intros (v & w & Hv & _). by apply elem_of_nil in Hv. }
  apply (observe_all_ok _ rs) in H0. cbn [app] in H0. fold h in H0. apply (observe_ok _ _ _ r) in H0.
  replace (readings rs ++ option_list r) with (readings (rs ++ [r])) in H0
    by (unfold readings; rewrite omap_app; by destruct r).
  destruct H0 as (H1 & _ & H3 & H4). split; [|exact H4].
  assert ((observe r h).1 = (miss_limit (observe r h).2 <=? misses (observe r h).2)) as -> by done.
  rewrite Z.leb_le, H1. set (vs := readings (rs ++ [r])) in *. destruct (last vs) as [v|] eqn:El.
  - transitivity ((S (Z.to_nat (Z.max limit 1)) <= leading_run v (reverse vs))%nat); [lia|]. rewrite leading_run_spec. split.
    + intros (rest & E). exists v, (reverse rest). apply (f_equal reverse) in E.
      by rewrite reverse_involutive, reverse_app, reverse_replicate in E.
    + intros (v' & before & E). rewrite E, replicate_S_end, app_assoc, last_snoc in El. injection El as ->.
      exists (reverse before). by rewrite E, reverse_app, reverse_replicate.
  - apply last_None in El. rewrite El, H3. split; [lia|]. intros (v & before & E). by destruct before.
Qed.

(** ** The loop *)

Section Loop.
Context `{Serde (list Z)} (sha256 : bytes -> bytes) (show_updater_error : UpdaterError -> string) (agent_display : string).
Notation settle_probation := (settle_probation show_updater_error).
Notation watch_child := (watch_child show_updater_error).
Notation supervise_round := (supervise_round sha256 show_updater_error agent_display).
Notation supervise_rounds := (supervise_rounds sha256 show_updater_error agent_display).

(** A launch passed the pin. *)
Definition launch_ok (pin : option BinaryPin) (a : action) : Prop :=
  match a, pin with
  | Launch checked, Some p => exists b, checked = Some b /\ sha256 b = pin_digest p
  | _, _ => True
  end.

(** What a stretch of the loop may do. *)
Definition goes (pin : option BinaryPin) (w w' : Watchdog) : Prop :=
  (exists added, wd_log w' = wd_log w ++ added /\ Forall (launch_ok pin) added) /\
  (wd_probation w' = wd_probation w \/ wd_probation w' = None).

Lemma goes_refl pin w : goes pin w w.
Proof. split; [|by left]. exists []. by rewrite app_nil_r. Qed.

Lemma goes_trans pin w1 w2 w3 : goes pin w1 w2 -> goes pin w2 w3 -> goes pin w1 w3.
Proof.
  intros [(a & E1 & F1) P1] [(b & E2 & F2) P2]. split.
  - exists (a ++ b). rewrite E2, E1, app_assoc. split; [done|]. by apply Forall_app.
  - destruct P2 as [->|]; [done|by right].
Qed.

Lemma goes_act pin a w : launch_ok pin a -> goes pin w (act a w).
Proof. intros Ha. split; [|by left]. exists [a]. split; [done|]. by constructor. Qed.

Lemma goes_backoff pin b w : goes pin w (with_backoff b w).
Proof. split; [|by left]. exists []. cbn. by rewrite app_nil_r. Qed.

(** The release on probation was rolled back because it was overdue at one of the
    clock readings [clocks]. *)
Definition rolled (clocks : list Z) (p0 : option Probation) (failed : Z) (restored : option Z) (w : Watchdog) : Prop :=
  exists p s0 now, p0 = Some p /\ failed = pb_release p /\ restored = pb_previous p /\
    roll_back p s0 = (Ok tt, wd_fs w) /\ now ∈ clocks /\ pb_deadline p <= now -sat pb_started p.

(** The clock readings of a turn: at its start and at each poll of the child. *)
Definition round_clocks (ro : Round) : list Z := ro_now ro :: (po_now <$> default [] (ro_child ro)).

Lemma rolled_mono cs cs' p f r w : cs ⊆ cs' -> rolled cs p f r w -> rolled cs' p f r w.
Proof. intros Hs (p' & s0 & now & H1 & H2 & H3 & H4 & H5 & H6). exists p', s0, now. split_and!; auto. Qed.

Lemma settle_probation_spec pin advanced now w :
  let '(o, w') := settle_probation advanced now w in
  goes pin w w' /\
  match o with
  | None => advanced = true \/ (forall p, wd_probation w = Some p -> pb_deadline p <= now -sat pb_started p) -> wd_probation w' = None
  | Some (LoopRolledBack failed restored) => advanced = false /\ rolled [now] (wd_probation w) failed restored w'
  | Some Stopped => False
  end.
Proof.
  unfold Supervise.settle_probation. destruct (wd_probation w) as [p|] eqn:Ep; [|split; [apply goes_refl|done]].
  unfold verdict, decide_probation. destruct advanced.
  { destruct (prove p (wd_fs w)) as [r s]. split; [|done]. split; [|by right]. exists []. by rewrite app_nil_r. }
  destruct (Z.leb_spec (pb_deadline p) (now -sat pb_started p)).
  2: { split; [apply goes_refl|]. intros [|Hd]; [done|]. specialize (Hd p eq_refl). lia. }
  destruct (roll_back p (wd_fs w)) as [[[]|e] s] eqn:Er.
  - split.
    + split; [|left; by rewrite Ep]. eexists. split; [done|]. by constructor.
    + split; [done|]. exists p, (wd_fs w), now. split_and!; try done. apply list_elem_of_singleton. done.
  - split; [|done]. split; [|by right]. eexists. split; [done|]. by constructor.
Qed.

Lemma rolled_goes pin w w1 w2 f r cs : goes pin w w1 -> rolled cs (wd_probation w1) f r w2 -> rolled cs (wd_probation w) f r w2.
Proof. intros [_ [E|E]] Hr; rewrite E in Hr; [done|]. by destruct Hr as (p & s0 & now & [=] & _). Qed.

Lemma watch_child_spec pin polls spawned flag h w :
  let '(o, w') := watch_child polls spawned flag h w in
  goes pin w w' /\ forall failed restored, o = Some (WRolledBack failed restored) -> rolled (po_now <$> polls) (wd_probation w) failed restored w'.
Proof.
  revert h w. induction polls as [|po polls IH]; intros h w; cbn [Supervise.watch_child]; [by split; [apply goes_refl|]|].
  destruct (po_stop po); [split; [by apply goes_act|done]|].
  assert (forall d c b w0, record_exit (po_now po -sat spawned) (wd_backoff w) = (d, c, b) -> goes pin w w0 ->
    goes pin w (act (Sleep d) (with_backoff b w0))) as Hrest.
  { intros d c b w0 _ H0. eapply goes_trans; [exact H0|]. eapply goes_trans; [apply goes_backoff|]. by apply goes_act. }
  destruct (po_status po).
  - destruct (record_exit _ _) as [[d c] b] eqn:Er. unfold restart_after. split; [by eapply Hrest, goes_refl|].
    intros f r [= E]. by destruct (sleep_unless_stopped _ _).
  - destruct (tick (po_reading po) h) as [[] h'].
    + destruct (record_exit _ _) as [[d c] b] eqn:Er. unfold restart_after. split; [by eapply Hrest, goes_act|].
      intros f r [= E]. by destruct (sleep_unless_stopped _ _).
    + pose proof (settle_probation_spec pin (progressed h') (po_now po) w) as Hs.
      destruct (settle_probation _ _ _) as [[[|f r]|] w1]; destruct Hs as [Hg Hs]; [done| |].
      * split; [eapply goes_trans; [exact Hg|by apply goes_act]|]. intros f' r' [= <- <-]. destruct Hs as [_ Hs].
        eapply rolled_mono, Hs. intros x ->%list_elem_of_singleton. apply elem_of_cons. by left.
      * specialize (IH h' w1). destruct (watch_child polls spawned flag h' w1) as [o w'].
        destruct IH as [Hg' Hr]. split; [by eapply goes_trans|]. intros f r E. specialize (Hr f r E).
        apply (rolled_goes pin w w1 w' f r _ Hg). eapply rolled_mono, Hr. intros x Hx. apply elem_of_cons. by right.
  - split; [apply goes_refl|done].
Qed.

Lemma drift_lines_goes pin lines w : goes pin w (drift_lines lines w).
Proof.
  unfold drift_lines. revert w. induction lines as [|l lines IH]; intros w; cbn [foldl]; [apply goes_refl|].
  eapply goes_trans; [by apply (goes_act pin (SelfProtection l))|apply IH].
Qed.

Lemma refuse_round_goes pin ro w : goes pin w (refuse_round ro w).2.
Proof.
  unfold refuse_round. destruct (record_exit 0 (wd_backoff w)) as [[d c] b].
  eapply goes_trans; [apply goes_backoff|by apply (goes_act pin (Sleep d))].
Qed.

Lemma supervise_round_spec interval limit pin ro w :
  let '(o, w') := supervise_round interval limit pin ro w in
  goes pin w w' /\
  (forall f r, o = inl (LoopRolledBack f r) -> rolled (round_clocks ro) (wd_probation w) f r w') /\
  (ro_stop ro = false -> (forall p, wd_probation w = Some p -> pb_deadline p <= ro_now ro -sat pb_started p) ->
     wd_probation w' = None \/ exists f r, o = inl (LoopRolledBack f r)).
Proof.
  unfold Supervise.supervise_round. destruct (ro_stop ro); [split_and!; [apply goes_refl|done..]|].
  pose proof (settle_probation_spec pin false (ro_now ro) w) as Hs.
  destruct (settle_probation false (ro_now ro) w) as [[[|f r]|] w1]; destruct Hs as [Hg Hs]; [done| |].
  { split_and!; [done| |by eauto]. intros f' r' [= <- <-]. destruct Hs as [_ Hs].
    eapply rolled_mono, Hs. intros x ->%list_elem_of_singleton. apply elem_of_cons. by left. }
  pose proof (goes_trans _ _ _ _ Hg (drift_lines_goes pin (ro_drift ro) w1)) as Hg1.
  set (w2 := drift_lines _ _) in *.
  assert (forall w3 w4 (o : LoopExit + bool), goes pin w2 w3 -> goes pin w3 w4 ->
    (forall f r, o = inl (LoopRolledBack f r) -> rolled (round_clocks ro) (wd_probation w3) f r w4) ->
    goes pin w w4 /\ (forall f r, o = inl (LoopRolledBack f r) -> rolled (round_clocks ro) (wd_probation w) f r w4) /\
    (false = false -> (forall p, wd_probation w = Some p -> pb_deadline p <= ro_now ro -sat pb_started p) ->
      wd_probation w4 = None \/ exists f r, o = inl (LoopRolledBack f r))) as Hfin.
  { intros w3 w4 o H3 H4 Hr. pose proof (goes_trans _ _ _ _ Hg1 H3) as H13. split_and!; [by eapply goes_trans| |].
    - intros f r E. eapply rolled_goes; [exact H13|]. by apply Hr.
    - intros _ Hd. left. specialize (Hs (or_intror Hd)).
      assert (goes pin w1 w4) as [_ [E|E]]; [|by rewrite E|done].
      eapply goes_trans; [apply (drift_lines_goes pin (ro_drift ro))|]. by eapply goes_trans. }
  destruct (match pin with Some pin => pin_verify sha256 pin (ro_binary ro) | None => true end) eqn:Epin; cbn [negb].
  2: { pose proof (refuse_round_goes pin ro (act (SelfProtection (cat ["agent binary at "; agent_display;
         " no longer matches its pinned hash — refusing to launch it"])) w2)) as Href.
       destruct (refuse_round ro _) as [[ex|] w3] eqn:E;
         (eapply Hfin; [|exact Href|]; [by apply goes_act|]).
       - intros f r [= ->]. unfold refuse_round in E. destruct (record_exit 0 _) as [[d c] b]. by destruct (sleep_unless_stopped _ _).
       - done. }
  destruct (ro_child ro) as [polls|] eqn:Ech.
  2: { pose proof (refuse_round_goes pin ro w2) as Href. destruct (refuse_round ro w2) as [[ex|] w3] eqn:E;
         (eapply Hfin; [apply goes_refl|exact Href|]).
       - intros f r [= ->]. unfold refuse_round in E. destruct (record_exit 0 _) as [[d c] b]. by destruct (sleep_unless_stopped _ _).
       - done. }
  assert (goes pin w2 (act (Launch (ro_binary ro)) w2)) as Hl.
  { apply goes_act. destruct pin as [pin|]; [|done]. cbn. unfold pin_verify in Epin. destruct (ro_binary ro) as [b|]; [|done].
    exists b. split; [done|]. by apply bool_decide_eq_true in Epin. }
  pose proof (watch_child_spec pin polls (ro_spawned ro) (ro_sleep ro) (HeartbeatMonitor_new interval limit)
    (act (Launch (ro_binary ro)) w2)) as Hw.
  destruct (watch_child polls _ _ _ _) as [[[| |f r]|] w3]; destruct Hw as [Hg3 Hr];
    (eapply Hfin; [exact Hl|exact Hg3|]); try done.
  intros f' r' [= <- <-]. eapply rolled_mono, Hr; [|done]. unfold round_clocks. rewrite Ech. intros x Hx. apply elem_of_cons. by right.
Qed.

Lemma supervise_rounds_spec interval limit pin rounds w :
  let '(o, w') := supervise_rounds interval limit pin rounds w in
  goes pin w w' /\ forall f r, o = Some (LoopRolledBack f r) -> rolled (rounds ≫= round_clocks) (wd_probation w) f r w'.
Proof.
  revert w. induction rounds as [|ro rounds IH]; intros w; cbn [Supervise.supervise_rounds]; [split; [apply goes_refl|done]|].
  pose proof (supervise_round_spec interval limit pin ro w) as Hs.
  destruct (supervise_round interval limit pin ro w) as [[ex|[]] w1]; destruct Hs as (Hg & Hr & _).
  - split; [done|]. intros f r [= ->]. eapply rolled_mono, Hr; [|done]. rewrite bind_cons. intros x Hx. apply elem_of_app. by left.
  - specialize (IH w1). destruct (supervise_rounds interval limit pin rounds w1) as [o w']. destruct IH as [Hg' Hr'].
    split; [by eapply goes_trans|]. intros f r E. eapply rolled_goes; [exact Hg|]. eapply rolled_mono, Hr'; [|done].
    rewrite bind_cons. intros x Hx. apply elem_of_app. by right.
  - split; [done|]. done.
Qed.

(** C24. Supervision is safe for any behaviour of the agent and its surroundings: when
    the binary could be read and pinned at start, every launch is preceded by a check
    that read bytes with the pinned digest; the loop gives up with a rollback only for
    the release it started on probation, only when one of its own clock readings was
    past the deadline, and after the rollback succeeded on the disk; and a turn of the
    loop that begins past the deadline ends the probation, by rollback or for good. *)
Theorem supervision_safe restart_delay interval limit binary probation s rounds :
  let '(exit, w) := supervise_loop sha256 show_updater_error agent_display restart_delay interval limit binary probation s rounds in
  (forall checked b, Launch checked ∈ wd_log w -> binary = Some b -> exists c, checked = Some c /\ sha256 c = sha256 b) /\
  (forall failed restored, exit = Some (LoopRolledBack failed restored) -> rolled (rounds ≫= round_clocks) probation failed restored w) /\
  (forall ro, ro_stop ro = false ->
     (forall p, wd_probation w = Some p -> pb_deadline p <= ro_now ro -sat pb_started p) ->
     let '(o, w') := supervise_round interval limit (pin_of sha256 binary) ro w in
     wd_probation w' = None \/ exists f r, o = inl (LoopRolledBack f r)).
Proof.
  unfold supervise_loop.
  pose proof (supervise_rounds_spec interval limit (pin_of sha256 binary) rounds
    (mkWatchdog (Backoff_new restart_delay) probation s [])) as Hs.
  destruct (supervise_rounds _ _ _ _ _) as [exit w]. destruct Hs as [[(added & E & F) _] Hr]. split_and!.
  - intros checked b Hin ->. cbn in E. rewrite E in Hin. rewrite Forall_forall in F. by apply F in Hin.
  - exact Hr.
  - intros ro Hst Hd. pose proof (supervise_round_spec interval limit (pin_of sha256 binary) ro w) as Hx.
    destruct (supervise_round _ _ _ _ _) as [o w']. destruct Hx as (_ & _ & Hx). by apply Hx.
Qed.
End Loop.

(** ** Witnesses *)

Lemma backoff_exact_witness :
  (record_exit 0 (exits [FAST_CRASH_THRESHOLD; 1; 2; 3] (Backoff_new 5))).1.1 = 40.
Proof. rewrite (backoff_exact 5); [reflexivity|unfold BACKOFF_CAP_SECS; lia]. Defined.
