(* ===== verification/Release.v ===== *)
(** * Release: binary self-update (src/agent/src/release.rs)

    [apply_release] fetches the signed manifest the server offers, checks it,
    stages the release and repoints [current] at it.  The server's answers, the
    host's SELinux state and the temporary-file suffix are arguments; the whole
    run is a computation of the I/O monad of [Fs], so the theorems hold for any
    server and any pattern of disk failures. *)
From stdpp Require Import base gmap strings list sorting.
From Stdlib Require Import ZArith Lia Ascii.
From S2P Require Import Prelude Order Str Fs Updater.

(** What the control plane answers: the offered manifest and the bytes of an
    artifact, [None] for a transport error. *)
Record Server := mkServer {
  offer : option ReleaseManifest;
  artifact : string -> string -> option bytes }.

(** The host files the SELinux handling reads and the outcome of [restorecon]:
    [None] when it cannot be started, else whether it exits with success. *)
Record SelinuxHost := mkSelinuxHost {
  enforce_file : option string;
  restorecon_found : bool;
  restorecon_status : option bool }.

Inductive Relabel := NotApplicable | Relabelled | SkippedPermissive (why : string).

Inductive AgentError :=
| EUpdater (e : UpdaterError)
| EIo (e : io_error)
| ETransport
| ENotPackaged
| ESelinux (why : string)
| ETestKey
| EPanicked.

Inductive Outcome :=
| UpToDate (offered current : Z)
| Promoted (release_version downloaded : Z) (relabel : Relabel).

Definition a_io {A : Type} (m : IO io_error A) : IO AgentError A := io_map_err EIo m.
Definition a_up {A : Type} (m : IO UpdaterError A) : IO AgentError A := io_map_err EUpdater m.

(** [str::trim] on ASCII white space. *)
Definition is_space (a : ascii) : bool :=
  let n := nat_of_ascii a in (((9 <=? n) && (n <=? 13)) || (n =? 32))%nat.
Fixpoint trim_start (s : string) : string :=
  match s with
  | String a r => if is_space a then trim_start r else s
  | EmptyString => EmptyString
  end.
Fixpoint str_rev (s acc : string) : string :=
  match s with EmptyString => acc | String a r => str_rev r (String a acc) end.
Definition trim (s : string) : string :=
  str_rev (trim_start (str_rev (trim_start s) EmptyString)) EmptyString.

Definition restore_selinux_labels (h : SelinuxHost) : result Relabel string :=
  match enforce_file h with
  | None => Ok NotApplicable
  | Some enforce =>
      let enforcing := String.eqb (trim enforce) "1" in
      let fail (why : string) : result Relabel string :=
        if enforcing then Err why else Ok (SkippedPermissive why) in
      if negb (restorecon_found h) then fail "restorecon not found"
      else match restorecon_status h with
           | Some true => Ok Relabelled
           | Some false => fail "restorecon exited with an error"
           | None => fail "could not run restorecon"
           end
  end.

Definition ensure_key_trusted (test_key allow_test_key : bool) : result unit AgentError :=
  if negb test_key then Ok tt else if negb allow_test_key then Err ETestKey else Ok tt.

Section Release.
Context {SerRM : Serde ReleaseManifest} {SerBans : Serde (list Z)}.
Variable ed25519_verify : bytes -> bytes -> bool.
Variable sha256 : bytes -> bytes.
Variable unique_suffix : path -> string.

Definition stage_dir (l : Layout) (v : Z) : path :=
  versions_dir l ++ [(".stage-" +:+ show_u64 v)%string].

Definition remove_leftover (d : path) : IO io_error unit :=
  kind <-! io_get (fun m => m !! d);
  match kind with
  | None => io_ret tt
  | Some NDir => fs_remove_dir_all d
  | Some _ => fs_remove_file d
  end.

(** Fetches, hash-checks and writes every entry. *)
Fixpoint fetch_into (srv : Server) (l : Layout) (dir : path) (entries : list (string * string))
    : IO AgentError unit :=
  match entries with
  | [] => io_ret tt
  | (p, expected) :: entries =>
      match artifact srv p expected with
      | None => io_fail ETransport
      | Some b =>
          let actual := hash_bytes sha256 b in
          if negb (String.eqb actual expected)
          then io_fail (EUpdater (StagedFileMismatch p expected actual))
          else
            let dest := dir ++ str_split "/"%char p in
            a_io (write_with_mode (unique_suffix dest) (versions_dir l) dest b) ;;!
            fetch_into srv l dir entries
      end
  end.

Definition stage (srv : Server) (l : Layout) (m : ReleaseManifest) : IO AgentError unit :=
  let d := stage_dir l (rm_release_version m) in
  a_io (remove_leftover d) ;;!
  io_on_err
    (fetch_into srv l d (rm_entries m) ;;!
     a_io (fs_rename d (version_dir l (rm_release_version m))))
    (fun e => io_ignore (fs_remove_dir_all d) ;;! io_fail e).

(** [if downloaded > 0 { let _ = remove_dir_all(release_dir) }; return Err(e)]. *)
Definition abandon (downloaded : Z) (release_dir : path) (e : AgentError) : IO AgentError Outcome :=
  (if 0 <? downloaded then io_ignore (fs_remove_dir_all release_dir) else io_ret tt) ;;! io_fail e.

Definition lift_up (r : result unit UpdaterError) : IO AgentError unit :=
  match r with Ok _ => io_ret tt | Err e => io_fail (EUpdater e) end.

Definition verify_offer (m : ReleaseManifest) : IO AgentError unit :=
  match rm_verify_signature ed25519_verify m with
  | Panic => io_fail EPanicked
  | Return r => lift_up r
  end.

(** From the staged tree to the promotion. *)
Definition finish_release (selinux : SelinuxHost) (l : Layout) (m : ReleaseManifest) (downloaded : Z)
    : IO AgentError Outcome :=
  let v := rm_release_version m in
  let release_dir := version_dir l v in
  fun s =>
    match verify_staged sha256 l m s with
    | (Err e, s) => abandon downloaded release_dir (EUpdater e) s
    | (Ok _, s) =>
        match restore_selinux_labels selinux with
        | Err why => abandon downloaded release_dir (ESelinux why) s
        | Ok relabel =>
            (a_up (persist_manifest l m) ;;!
             a_up (promote l v) ;;!
             io_ret (Promoted v downloaded relabel)) s
        end
    end.

Definition apply_release_with (srv : Server) (selinux : SelinuxHost) (l : Layout)
    : IO AgentError Outcome :=
  packaged <-! io_get (is_dir (bootstrap_dir l));
  if negb packaged then io_fail ENotPackaged else
  a_io (fs_create_dir_all (versions_dir l)) ;;!
  match offer srv with
  | None => io_fail ETransport
  | Some m =>
      verify_offer m ;;!
      lift_up (rm_validate_entry_paths (rm_entries m)) ;;!
      banned <-! a_up (ban_load (ban_list_path l));
      lift_up (ban_check banned (rm_release_version m)) ;;!
      current <-! io_get (current_release_version l);
      match check_release_version (rm_release_version m) current with
      | Err (ReleaseNotNewer offered current) => io_ret (UpToDate offered current)
      | Err e => io_fail (EUpdater e)
      | Ok _ =>
          present <-! io_get (is_dir (version_dir l (rm_release_version m)));
          downloaded <-! (if (present : bool) then io_ret 0
                          else stage srv l m ;;! io_ret (Z.of_nat (length (rm_entries m))));
          finish_release selinux l m downloaded
      end
  end.

(** ** Lemmas *)

(** The release trees and the directories on the way to them. *)
Definition in_versions (l : Layout) (q : path) : Prop :=
  under (versions_dir l) q \/ under q (versions_dir l).

Lemma in_versions_stage l v q : under (stage_dir l v) q -> in_versions l q.
Proof. intros Hq. left. eapply under_trans; [apply under_app|exact Hq]. Qed.

Lemma in_versions_release l v q : under (version_dir l v) q -> in_versions l q.
Proof. intros Hq. left. eapply under_trans; [apply under_app|exact Hq]. Qed.

Lemma base_not_in_versions l a : a <> VERSIONS_DIR -> ~ in_versions l (base_dir l ++ [a]).
Proof.
  intros Ha [Hu|Hu]; unfold versions_dir in Hu; apply base_child_under in Hu; simpl in Hu; congruence.
Qed.

Lemma remove_leftover_touches l v : touches (remove_leftover (stage_dir l v)) (in_versions l).
Proof.
  apply touches_bind; [apply touches_get|]. intros [[]|].
  - eapply touches_weaken; [apply touches_remove_dir_all|apply in_versions_stage].
  - eapply touches_weaken; [apply touches_remove_file|].
    intros q ->. eapply in_versions_stage, under_refl.
  - eapply touches_weaken; [apply touches_remove_file|].
    intros q ->. eapply in_versions_stage, under_refl.
  - apply touches_ret.
Qed.

Lemma fetch_into_touches srv l v entries :
  touches (fetch_into srv l (stage_dir l v) entries) (in_versions l).
Proof.
  induction entries as [|[p h] entries IH]; cbn [fetch_into]; [apply touches_ret|].
  destruct (artifact srv p h) as [b|]; [|apply touches_fail].
  destruct (negb _); [apply touches_fail|].
  apply touches_bind; [|intros _; exact IH]. apply touches_map_err.
  eapply touches_weaken; [apply (write_touches _ _ _ _ (versions_dir l))|done].
  destruct (destruct_last (str_split "/"%char p)) as [E|(k & c & ->)]; [by apply str_split_ne in E|].
  rewrite app_assoc, parent_snoc. unfold stage_dir. rewrite <- app_assoc. apply under_app.
Qed.

Lemma stage_touches srv l m : touches (stage srv l m) (in_versions l).
Proof.
  apply touches_bind; [apply touches_map_err, remove_leftover_touches|intros _].
  apply touches_on_err; [|intros e].
  - apply touches_bind; [apply fetch_into_touches|intros _]. apply touches_map_err.
    eapply touches_weaken; [apply touches_rename|].
    intros q [Hq|Hq]; [by eapply in_versions_stage|by eapply in_versions_release].
  - apply touches_bind; [|intros _; apply touches_fail]. apply touches_ignore.
    eapply touches_weaken; [apply touches_remove_dir_all|apply in_versions_stage].
Qed.

Lemma abandon_touches n l v e : touches (abandon n (version_dir l v) e) (in_versions l).
Proof.
  apply touches_bind; [|intros _; apply touches_fail].
  destruct (_ <? _); [|apply touches_ret]. apply touches_ignore.
  eapply touches_weaken; [apply touches_remove_dir_all|apply in_versions_release].
Qed.

Lemma abandon_fails n d e s : exists s', abandon n d e s = (Err e, s').
Proof. unfold abandon, io_bind. destruct (_ <? _); simpl; eauto. Qed.

(** The staged files hash to what the manifest records, the manifest's own
    durable copy apart. *)
Definition staged_ok (l : Layout) (m : ReleaseManifest) (fs : gmap path node) : Prop :=
  forall p h, (p, h) ∈ rm_entries m ->
  join (version_dir l (rm_release_version m)) p <> version_dir l (rm_release_version m) ++ [MANIFEST_FILE] ->
  exists b, fs !! join (version_dir l (rm_release_version m)) p = Some (NFile b) /\
    hash_bytes sha256 b = h.

Lemma staged_ok_frame l m s s' :
  (forall p h, (p, h) ∈ rm_entries m -> is_safe_relative_path p = true) ->
  (forall q, q <> version_dir l (rm_release_version m) ++ [MANIFEST_FILE] ->
     under (version_dir l (rm_release_version m)) q -> nodes s' !! q = nodes s !! q) ->
  (forall p h, (p, h) ∈ rm_entries m ->
     exists b, nodes s !! join (version_dir l (rm_release_version m)) p = Some (NFile b) /\
       hash_bytes sha256 b = h) ->
  staged_ok l m (nodes s').
Proof.
  intros Hsafe Hfr Hok p h Hin Hne. destruct (Hok p h Hin) as (b & Hb & Hh).
  exists b. split; [|done]. rewrite Hfr; [done|done|].
  destruct (safe_path_join (version_dir l (rm_release_version m)) p) as [-> _];
    [by eapply Hsafe|apply under_app].
Qed.

Lemma finish_release_inv h l m n s r s' :
  (forall p g, (p, g) ∈ rm_entries m -> is_safe_relative_path p = true) ->
  finish_release h l m n s = (r, s') ->
  (exists rl, r = Ok (Promoted (rm_release_version m) n rl) /\ restore_selinux_labels h = Ok rl /\
     nodes s' !! current_link l = Some (NLink true (version_dir l (rm_release_version m))) /\
     staged_ok l m (nodes s')) \/
  (exists e, r = Err e /\ nodes s' !! current_link l = nodes s !! current_link l).
Proof.
  intros Hsafe Hf. unfold finish_release in Hf.
  assert (~ in_versions l (current_link l)) as Hcur by (by apply base_not_in_versions).
  destruct (verify_staged sha256 l m s) as [rv s1] eqn:Ev.
  apply verify_entries_inv in Ev as [Hn1 Hst].
  destruct rv as [[]|e].
  2:{ destruct (abandon_fails n (version_dir l (rm_release_version m)) (EUpdater e) s1) as [s2 E2].
      pose proof (abandon_touches n l (rm_release_version m) (EUpdater e) s1 _ Hcur) as Ht.
      rewrite E2 in Hf, Ht. simpl in Ht. injection Hf as <- <-. right. eexists. split; [done|]. congruence. }
  destruct (restore_selinux_labels h) as [rl|why].
  2:{ destruct (abandon_fails n (version_dir l (rm_release_version m)) (ESelinux why) s1) as [s2 E2].
      pose proof (abandon_touches n l (rm_release_version m) (ESelinux why) s1 _ Hcur) as Ht.
      rewrite E2 in Hf, Ht. simpl in Ht. injection Hf as <- <-. right. eexists. split; [done|]. congruence. }
  specialize (Hst eq_refl).
  set (mf := version_dir l (rm_release_version m) ++ [MANIFEST_FILE]) in *.
  assert (mf <> current_link l /\ mf <> link_tmp l) as [Hmc Hmt]
    by (split; by apply version_child_not_base).
  apply io_bind_inv in Hf as [([] & s2 & H1 & Hf)|(e & H1 & ->)].
  2:{ apply io_map_err_inv in H1 as [([] & _ & ?)|(? & H1 & _)]; [done|].
      apply io_map_err_inv in H1 as [([] & _ & ?)|(? & H1 & _)]; [done|].
      apply fs_write_inv in H1 as [[? _]|(? & _ & Hs)]; [done|]. right. eexists. split; [done|].
      rewrite <- Hn1. destruct Hs as [->|[k ->]]; [done|]. by rewrite lookup_insert_ne. }
  apply io_map_err_inv in H1 as [([] & H1 & _)|(? & _ & ?)]; [|done].
  apply io_map_err_inv in H1 as [([] & H1 & _)|(? & _ & ?)]; [|done].
  apply fs_write_inv in H1 as [[_ Hs2]|(? & ? & _)]; [|done]. fold mf in Hs2.
  apply io_bind_inv in Hf as [([] & s3 & H2 & Hf)|(e & H2 & ->)];
    apply io_map_err_inv in H2 as [([] & H2 & ?)|(? & H2 & ?)]; try done;
    apply swap_current_inv in H2 as [Hfr Hc].
  - injection Hf as <- <-. destruct Hc as [[_ Hc]|[[? ?] _]]; [|done].
    left. exists rl. split_and!; [done..|]. apply (staged_ok_frame l m s); [done| |done].
    intros q Hq Hu. fold mf in Hq. rewrite Hfr, Hs2, lookup_insert_ne, Hn1 by
      first [done | intros ->; eapply version_dir_not_base; [|exact Hu]; done]. done.
  - destruct Hc as [[? _]|[_ Hc]]; [done|]. right. eexists. split; [done|].
    rewrite Hc, Hs2, lookup_insert_ne by done. congruence.
Qed.

Lemma verify_offer_inv m s r s' :
  verify_offer m s = (r, s') ->
  s' = s /\ (r = Ok tt -> rm_verify_signature ed25519_verify m = Return (Ok tt)).
Proof.
  unfold verify_offer, lift_up. destruct (rm_verify_signature _ m) as [|[[]|]];
    intros [= <- <-]; done.
Qed.

Lemma lift_up_inv x s r s' : lift_up x s = (r, s') -> s' = s /\ (r = Ok tt -> x = Ok tt).
Proof. destruct x as [[]|]; intros [= <- <-]; done. Qed.

Lemma current_release_version_same l m m' :
  m' !! current_link l = m !! current_link l -> current_release_version l m' = current_release_version l m.
Proof. intros E. unfold current_release_version, resolve_active_dir, read_link. by rewrite E. Qed.

(** Staging, or reusing a staged release, leaves [current] alone. *)
Lemma staging_keeps_current srv l m (present : bool) s r s' :
  (if present then io_ret 0 else stage srv l m ;;! io_ret (Z.of_nat (length (rm_entries m)))) s = (r, s') ->
  nodes s' !! current_link l = nodes s !! current_link l.
Proof.
  intros Hs.
  pose proof (stage_touches srv l m s _ (base_not_in_versions l CURRENT_LINK ltac:(done))) as Ht.
  change (base_dir l ++ [CURRENT_LINK]) with (current_link l) in Ht.
  destruct present; [by injection Hs as <- <-|].
  apply io_bind_inv in Hs as [([] & s4 & H3 & H4)|(? & H3 & _)]; rewrite H3 in Ht; simpl in Ht; [|done].
  by injection H4 as <- <-.
Qed.

(** A run stops before the staged tree is examined, with [current] untouched,
    or every check on the offer has passed. *)
Lemma apply_release_inv srv h l s r s' :
  apply_release_with srv h l s = (r, s') ->
  ((forall v n rl, r <> Ok (Promoted v n rl)) /\ nodes s' !! current_link l = nodes s !! current_link l) \/
  (exists m banned n s1, offer srv = Some m /\
     rm_verify_signature ed25519_verify m = Return (Ok tt) /\
     (forall p g, (p, g) ∈ rm_entries m -> is_safe_relative_path p = true) /\
     bans_of (ban_list_path l) (nodes s) = Some banned /\
     ban_check banned (rm_release_version m) = Ok tt /\
     check_release_version (rm_release_version m) (current_release_version l (nodes s)) = Ok tt /\
     nodes s1 !! current_link l = nodes s !! current_link l /\
     finish_release h l m n s1 = (r, s')).
Proof.
  unfold apply_release_with. unfold io_bind at 1, io_get at 1.
  destruct (negb _); [intros [= <- <-]; by left|]. intros Ha.
  assert (forall x, x <> VERSIONS_DIR ->
    nodes (fs_create_dir_all (versions_dir l) s).2 !! (base_dir l ++ [x]) = nodes s !! (base_dir l ++ [x])) as Htc.
  { intros x Hx. apply touches_create_dir_all. intros Hu.
    by apply (base_not_in_versions l x Hx); right. }
  apply io_bind_inv in Ha as [([] & s1 & H1 & Ha)|(e & H1 & ->)];
    apply io_map_err_inv in H1 as [([] & H1 & ?)|(? & H1 & ?)]; try done; rewrite H1 in Htc; simpl in Htc.
  2:{ left. split; [done|]. by apply Htc. }
  assert (nodes s1 !! current_link l = nodes s !! current_link l) as Hcur1 by (by apply Htc).
  assert (nodes s1 !! ban_list_path l = nodes s !! ban_list_path l) as Hban1 by (by apply Htc).
  destruct (offer srv) as [m|] eqn:Eo; [|injection Ha as <- <-; by left].
  apply io_bind_inv in Ha as [([] & s2 & H2 & Ha)|(e & H2 & ->)];
    apply verify_offer_inv in H2 as [-> Hsig]; [|by left].
  apply io_bind_inv in Ha as [([] & s2 & H2 & Ha)|(e & H2 & ->)];
    apply lift_up_inv in H2 as [-> Hpaths]; [|by left].
  apply io_bind_inv in Ha as [(banned & s2 & H2 & Ha)|(e & H2 & ->)];
    apply io_map_err_inv in H2 as [(b' & H2 & Hb')|(? & H2 & ?)]; try done;
    apply ban_load_inv in H2 as [Hn2 Hbans]; [injection Hb' as <-|left; split; [done|congruence]].
  specialize (Hbans _ eq_refl). rewrite (bans_of_same _ (nodes s)) in Hbans by done.
  apply io_bind_inv in Ha as [([] & s3 & H3 & Ha)|(e & H3 & ->)];
    apply lift_up_inv in H3 as [-> Hchk]; [|left; split; [done|congruence]].
  unfold io_bind at 1, io_get at 1 in Ha.
  rewrite (current_release_version_same l (nodes s)) in Ha by congruence.
  destruct (check_release_version (rm_release_version m) (current_release_version l (nodes s)))
    as [[]|e] eqn:Ever.
  2:{ left. destruct e; injection Ha as <- <-; split; try done; congruence. }
  unfold io_bind at 1, io_get at 1 in Ha.
  apply io_bind_inv in Ha as [(n & s3 & H3 & Ha)|(e & H3 & ->)]; apply staging_keeps_current in H3.
  - right. exists m, banned, n, s3. split_and!; [done|by apply Hsig|..|congruence|done]; auto.
    apply rm_validate_all. auto.
  - left. split; [done|congruence].
Qed.

(** ** Theorems *)

(** C1. [current] only ever moves to a verified release.  Whatever the server
    answers and whatever I/O fails: unless [apply_release] reports a promotion
    [current] is untouched; and when it reports promoting [v], the offered
    manifest's signature verifies, all its paths are safe, [v] is not banned
    and is newer than the release [current] named before, [current] now
    resolves to [v], and every file the manifest lists is on disk with the
    signed hash (but for one named like the manifest's own durable copy). *)
Theorem promotion_is_verified srv h l s r s' :
  (forall m, offer srv = Some m -> 0 <= rm_release_version m <= U64_MAX) ->
  apply_release_with srv h l s = (r, s') ->
  match r with
  | Ok (Promoted v n rl) =>
      exists m banned, offer srv = Some m /\ v = rm_release_version m /\
        rm_verify_signature ed25519_verify m = Return (Ok tt) /\
        (forall p g, (p, g) ∈ rm_entries m -> is_safe_relative_path p = true) /\
        bans_of (ban_list_path l) (nodes s) = Some banned /\ (v ∉ banned) /\
        (forall c, current_release_version l (nodes s) = Some c -> c < v) /\
        restore_selinux_labels h = Ok rl /\
        current_release_version l (nodes s') = Some v /\
        staged_ok l m (nodes s')
  | _ => nodes s' !! current_link l = nodes s !! current_link l
  end.
Proof.
  intros Hu64 Ha.
  apply apply_release_inv in Ha as [[Hnp Hc]|(m & banned & n & s1 & Ho & Hsig & Hsafe & Hb & Hbc & Hv & Hc & Hf)].
  { destruct r as [[]|]; [done|by destruct (Hnp release_version downloaded relabel)|done]. }
  apply finish_release_inv in Hf as [(rl & -> & Hrl & Hc' & Hst)|(e & -> & Hc')]; [|congruence|done].
  exists m, banned. split_and!; [done..| | |done| |done].
  - unfold ban_check, is_banned in Hbc. case_bool_decide; done.
  - intros c Ec. rewrite Ec in Hv. simpl in Hv. destruct (Z.leb_spec (rm_release_version m) c); done.
  - apply (current_of_link l _ (Some (rm_release_version m))); [intros x [= <-]; by apply Hu64|exact Hc'].
Qed.
End Release.

(** ** Witnesses *)

#[local] Instance plain_bans_serde : Serde (list Z).
Proof. refine {| to_json := id; from_json := Some |}. done. Defined.

#[local] Instance ReleaseManifest_eq_dec : EqDecision ReleaseManifest.
Proof. solve_decision. Defined.
#[local] Instance ReleaseManifest_countable : Countable ReleaseManifest.
Proof.
  refine (inj_countable' (fun m => (rm_entries m, rm_release_version m, rm_schema_version m, rm_signature m))
            (fun t => mkReleaseManifest t.1.1.1 t.1.1.2 t.1.2 t.2) _).
  by intros [].
Defined.

(** A manifest as the code of a countable value. *)
#[local] Instance coded_manifest_serde : Serde ReleaseManifest.
Proof.
  refine {| to_json m := [Z.pos (encode m)];
            from_json b := match b with [Z.pos p] => decode p | _ => None end |}.
  intros a. apply decode_encode.
Defined.

Definition sample_manifest : ReleaseManifest := mkReleaseManifest [("bin/agent", "0501")] 3 1 "00".
Definition sample_server : Server :=
  mkServer (Some sample_manifest) (fun _ _ => Some [5; 1]).
Definition sample_host : SelinuxHost := mkSelinuxHost None false None.
Definition sample_install : fsys := mkFs
  {[ [] := NDir; ["var"] := NDir; ["var"; "bootstrap"] := NDir; ["var"; "versions"] := NDir;
     ["var"; "versions"; "v1"] := NDir; ["var"; "current"] := NLink true ["var"; "versions"; "v1"] ]} [].

Lemma promotion_is_verified_witness :
  exists s', apply_release_with (fun _ _ => true) id (fun _ => "x") sample_server sample_host
      (mkLayout ["var"]) sample_install = (Ok (Promoted 3 1 NotApplicable), s') /\
    current_release_version (mkLayout ["var"]) (nodes s') = Some 3.
Proof.
  destruct (apply_release_with (fun _ _ => true) id (fun _ => "x") sample_server sample_host
      (mkLayout ["var"]) sample_install) as [r s'] eqn:E.
  assert (r = Ok (Promoted 3 1 NotApplicable)) as Hr.
  { change r with (r, s').1. rewrite <- E. vm_compute. reflexivity. }
  exists s'. rewrite Hr in *. split; [reflexivity|].
  pose proof (promotion_is_verified (fun _ _ => true) id (fun _ => "x") sample_server sample_host
    (mkLayout ["var"]) sample_install _ _
    ltac:(intros m [= <-]; unfold U64_MAX; cbn; lia) E) as Hp. cbv beta iota in Hp.
  destruct Hp as (m & banned & _ & _ & _ & _ & _ & _ & _ & _ & Hc & _). exact Hc.
Defined.
