(* ===== verification/Content.v ===== *)
(** * Content: detection content updates (src/agent/src/content.rs)

    [cmd_apply_content_manifest] fetches the signed content manifest of a ring,
    plans what is missing or stale against the agent's own record, downloads,
    hash-checks and writes each artifact and its record, and bumps the ring's
    release last.  The server's answers and the temporary-file suffix are arguments;
    the run is a computation of the I/O monad of [Fs].  The containment check of the
    command line's paths works on path components, with [canonicalize] an argument. *)
From stdpp Require Import base gmap strings list.
From Stdlib Require Import ZArith Lia Ascii.
From S2P Require Import Prelude Str Fs Updater.

Definition MAX_CONTENT_ARTIFACT_BYTES : Z := 100 * 1024 * 1024.

(** The two [BTreeMap]s. *)
Record ContentState := mkContentState {
  cs_release_version : gmap string Z;
  cs_entries : gmap string string }.
Definition ContentState_default : ContentState := mkContentState ∅ ∅.

Record FetchPlan := mkFetchPlan { fp_release_version : Z; fp_to_fetch : list ContentEntry }.

(** What the control plane answers: a ring's manifest, an artifact by path and hash. *)
Record ContentServer := mkContentServer {
  content_manifest : string -> option ContentManifest;
  content_artifact : string -> string -> option bytes }.

Inductive ContentError :=
| CUpdater (e : UpdaterError)
| CIo (e : io_error)
| CTransport
| CTooLarge (p : string) (size : Z)
| CPanicked.

Inductive ContentOutcome :=
| ContentUpToDate (offered current : Z)
| ContentApplied (release_version fetched : Z).

Definition c_io {A : Type} (m : IO io_error A) : IO ContentError A := io_map_err CIo m.

Definition release_version_for (st : ContentState) (ring : string) : option Z := cs_release_version st !! ring.

Definition artifact_dest (root : path) (entry_path : string) : path := root ++ str_split "/"%char entry_path.

Definition default_content_dir (state_dir : path) : path := state_dir ++ ["content"].

Section Apply.
Context `{Serde ContentManifest, Serde ContentState}.
Variable ed25519_verify : bytes -> bytes -> bool.
Variable sha256 : bytes -> bytes.
Variable unique_suffix : path -> string.

(** [ContentState::load]: a missing file is a fresh install. *)
Definition ContentState_load (p : path) : IO io_error ContentState := fun s =>
  match fs_read p s with
  | (Ok b, s) => match from_json b with Some st => (Ok st, s) | None => (Err InvalidData, s) end
  | (Err NotFound, s) => (Ok ContentState_default, s)
  | (Err e, s) => (Err e, s)
  end.

Definition plan (m : ContentManifest) (ring : string) (st : ContentState) : outcome (result FetchPlan UpdaterError) :=
  match cm_verify_signature ed25519_verify m with
  | Panic => Panic
  | Return (Err e) => Return (Err e)
  | Return (Ok _) =>
      Return
        match check_ring m ring with
        | Err e => Err e
        | Ok _ =>
            match check_release_version (cm_release_version m) (release_version_for st ring) with
            | Err e => Err e
            | Ok _ =>
                match cm_validate_entry_paths (cm_entries m) with
                | Err e => Err e
                | Ok _ => Ok (mkFetchPlan (cm_release_version m) (entries_to_fetch m (cs_entries st)))
                end
            end
        end
  end.

Definition write_atomically (root dest : path) (b : bytes) : IO io_error unit :=
  write_with_mode (unique_suffix dest) root dest b.

Definition save_state (state_path : path) (st : ContentState) : IO io_error unit :=
  write_atomically (parent state_path) state_path (to_json st).

(** The loop over the entries: size cap, download, hash, write, record. *)
Fixpoint fetch_entries (srv : ContentServer) (content_dir state_path : path) (entries : list ContentEntry)
    (st : ContentState) : IO ContentError ContentState :=
  match entries with
  | [] => io_ret st
  | e :: entries =>
      if MAX_CONTENT_ARTIFACT_BYTES <? ce_size e then io_fail (CTooLarge (ce_path e) (ce_size e))
      else match content_artifact srv (ce_path e) (ce_sha256 e) with
           | None => io_fail CTransport
           | Some b =>
               let actual := hash_bytes sha256 b in
               if negb (String.eqb actual (ce_sha256 e))
               then io_fail (CUpdater (StagedFileMismatch (ce_path e) (ce_sha256 e) actual))
               else
                 c_io (write_atomically content_dir (artifact_dest content_dir (ce_path e)) b) ;;!
                 let st := mkContentState (cs_release_version st) (<[ce_path e := ce_sha256 e]> (cs_entries st)) in
                 c_io (save_state state_path st) ;;!
                 fetch_entries srv content_dir state_path entries st
           end
  end.

Definition download_and_apply (srv : ContentServer) (fetch_plan : FetchPlan) (ring : string)
    (content_dir state_path : path) (st : ContentState) : IO ContentError unit :=
  c_io (fs_create_dir_all content_dir) ;;!
  st <-! fetch_entries srv content_dir state_path (fp_to_fetch fetch_plan) st;
  c_io (save_state state_path
    (mkContentState (<[ring := fp_release_version fetch_plan]> (cs_release_version st)) (cs_entries st))).

Definition cmd_apply_content_manifest (srv : ContentServer) (ring : string) (content_dir state_path : path)
    : IO ContentError ContentOutcome :=
  match content_manifest srv ring with
  | None => io_fail CTransport
  | Some m =>
      st <-! c_io (ContentState_load state_path);
      match plan m ring st with
      | Panic => io_fail CPanicked
      | Return (Err (ReleaseNotNewer offered current)) => io_ret (ContentUpToDate offered current)
      | Return (Err e) => io_fail (CUpdater e)
      | Return (Ok fetch_plan) =>
          download_and_apply srv fetch_plan ring content_dir state_path st ;;!
          io_ret (ContentApplied (fp_release_version fetch_plan) (Z.of_nat (length (fp_to_fetch fetch_plan))))
      end
  end.

(** [cmd_check_content_manifest]: the plan, reported. *)
Definition cmd_check_content_manifest (srv : ContentServer) (ring : string) (state_path : path)
    : IO ContentError (result FetchPlan (Z * Z)) :=
  match content_manifest srv ring with
  | None => io_fail CTransport
  | Some m =>
      st <-! c_io (ContentState_load state_path);
      match plan m ring st with
      | Panic => io_fail CPanicked
      | Return (Ok fetch_plan) => io_ret (Ok fetch_plan)
      | Return (Err (ReleaseNotNewer offered current)) => io_ret (Err (offered, current))
      | Return (Err e) => io_fail (CUpdater e)
      end
  end.
End Apply.

(** ** The command line's paths *)

(** [std::path::Component]. *)
Inductive component := RootDir | CurDir | ParentDir | Normal (name : string).
#[export] Instance component_eq_dec : EqDecision component.
Proof. solve_decision. Defined.
Notation Path := (list component) (only parsing).

Definition Path_parent (p : Path) : option Path :=
  match last p with
  | None | Some RootDir => None
  | Some _ => Some (removelast p)
  end.
Definition Path_file_name (p : Path) : option string :=
  match last p with Some (Normal name) => Some name | _ => None end.
(** [base.join(p)]: an absolute [p] replaces the base. *)
Definition Path_join (base p : Path) : Path :=
  match p with RootDir :: _ => p | _ => base ++ p end.
Definition Path_starts_with (p root : Path) : bool := bool_decide (root `prefix_of` p).

Section Resolve.
Variable canonicalize : Path -> option Path.
Variable current_dir : option Path.

(** The loop: [existing] loses its last component each time; [fuel] bounds it. *)
Fixpoint resolve_loop (fuel : nat) (p existing : Path) (remainder : list string) : result Path io_error :=
  match canonicalize existing with
  | Some base => Ok (base ++ (Normal <$> remainder))
  | None =>
      match Path_parent existing with
      | None => match current_dir with Some cwd => Ok (Path_join cwd p) | None => Err OtherIo end
      | Some par =>
          let remainder := match Path_file_name existing with Some name => name :: remainder | None => remainder end in
          match fuel with O => Err OtherIo | S fuel => resolve_loop fuel p par remainder end
      end
  end.
Definition resolve_as_far_as_possible (p : Path) : result Path io_error := resolve_loop (length p) p p [].

Definition ensure_within_state_dir (p state_dir : Path) : result unit (option io_error) :=
  match resolve_as_far_as_possible state_dir with
  | Err e => Err (Some e)
  | Ok resolved_root =>
      match resolve_as_far_as_possible p with
      | Err e => Err (Some e)
      | Ok resolved_path => if Path_starts_with resolved_path resolved_root then Ok tt else Err None
      end
  end.

Definition resolve_content_paths (state_dir : Path) (content_dir state_path : option Path)
    : result (Path * Path) (option io_error) :=
  match (match content_dir with
         | Some dir => match ensure_within_state_dir dir state_dir with Ok _ => Ok dir | Err e => Err e end
         | None => Ok (state_dir ++ [Normal "content"])
         end) with
  | Err e => Err e
  | Ok content_dir =>
      match (match state_path with
             | Some p => match ensure_within_state_dir p state_dir with Ok _ => Ok p | Err e => Err e end
             | None => Ok (state_dir ++ [Normal "content-state.json"])
             end) with
      | Err e => Err e
      | Ok state_path => Ok (content_dir, state_path)
      end
  end.
End Resolve.

(** ** The endpoint and the ring *)

Record Endpoint := mkEndpoint { ep_server : string; ep_cert : option Path; ep_key : option Path }.
(** [config::ServerConfig]. *)
Record ServerConfig := mkServerConfig { control_plane_url : string; mtls_cert : Path; mtls_key : Path }.

Definition resolve_endpoint (server : option string) (cert key : option Path) (configured : ServerConfig) : Endpoint :=
  match server with
  | Some server => mkEndpoint server cert key
  | None => mkEndpoint (control_plane_url configured) (Some (default (mtls_cert configured) cert))
              (Some (default (mtls_key configured) key))
  end.

Definition resolve_ring (flag configured : option string) : option string :=
  match flag with Some r => Some r | None => configured end.

(** ** Lemmas *)

(** *** One atomic write *)

Definition tmp_of (suffix : string) (dest : path) : path :=
  match last dest with
  | Some name => parent dest ++ [((name +:+ ".tmp-") +:+ suffix)%string]
  | None => dest
  end.

Lemma str_len_app (a b : string) : String.length (a +:+ b) = (String.length a + String.length b)%nat.
Proof. induction a as [|c a IH]; [done|]. change (String c a +:+ b) with (String c (a +:+ b)). cbn [String.length]. by rewrite IH. Qed.

Lemma tmp_of_ne suffix dest : dest <> [] -> tmp_of suffix dest <> dest.
Proof.
  intros Hd. unfold tmp_of. destruct (last dest) as [name|] eqn:El; [|by apply last_None in El].
  apply last_Some in El as [k ->]. rewrite parent_snoc. intros E. apply app_inv_head in E. injection E as E.
  apply (f_equal String.length) in E. rewrite !str_len_app in E. cbn in E. lia.
Qed.

(** The temporary file is written and renamed, or only it is left changed. *)
Lemma replace_inv tmp dest b s r s' :
  tmp <> dest -> nodes s !! tmp = None ->
  (fs_create_new tmp ;;! io_on_err (fs_write tmp b ;;! fs_rename tmp dest)
     (fun e => io_ignore (fs_remove_file tmp) ;;! io_fail e)) s = (r, s') ->
  (r = Ok tt /\ nodes s' = <[dest := NFile b]> (nodes s)) \/
  ((exists e, r = Err e) /\ forall q, q <> tmp -> nodes s' !! q = nodes s !! q).
Proof.
  intros Hne Hfresh Hw. apply io_bind_inv in Hw as [([] & s1 & H1 & Hw)|(e & H1 & ->)].
  2: { right. split; [eauto|]. intros q Hq. pose proof (touches_create_new tmp s q Hq) as E. by rewrite H1 in E. }
  apply syscall_inv in H1 as [(n & [=] & _)|[(a & _ & H1)|(e & [=] & _)]]. rewrite Hfresh in H1.
  destruct (can_create _ _); [|done]. injection H1 as _ H1.
  assert (forall x, fs_remove_file tmp s1 = x -> forall q, q <> tmp -> nodes x.2 !! q = nodes s1 !! q) as Hrm0
    by (intros x <- q Hq; by apply touches_remove_file).
  unfold io_on_err in Hw. destruct ((fs_write tmp b ;;! fs_rename tmp dest) s1) as [[[]|e] s2] eqn:Hb.
  - injection Hw as <- <-. left. split; [done|].
    apply io_bind_inv in Hb as [([] & s3 & H3 & Hb)|(e & _ & [=])].
    apply fs_write_inv in H3 as [[_ H3]|(e & [=] & _)].
    destruct (fs_rename_leaf_inv tmp dest s3 (Ok tt) s2 (NFile b)) as [[_ E]|(e & [=] & _)];
      [by rewrite H3, lookup_insert_eq|done|done|exact Hb|].
    rewrite E, H3, <- H1. apply map_eq. intros q.
    destruct (decide (q = dest)) as [->|]; [by rewrite !lookup_insert_eq|]. rewrite !lookup_insert_ne by done.
    destruct (decide (q = tmp)) as [->|]; [by rewrite lookup_delete_eq|].
    rewrite lookup_delete_ne by done. rewrite !lookup_insert_ne by done. done.
  - right.
    assert (forall q, q <> tmp -> nodes s2 !! q = nodes s !! q) as H2.
    { intros q Hq. transitivity (nodes s1 !! q); [|by rewrite <- H1, lookup_insert_ne].
      apply io_bind_inv in Hb as [([] & s3 & H3 & Hb)|(e' & H3 & _)].
      - apply fs_write_inv in H3 as [[_ H3]|(e' & [=] & _)].
        destruct (fs_rename_leaf_inv tmp dest s3 (Err e) s2 (NFile b)) as [[[=] _]|(e' & _ & E)];
          [by rewrite H3, lookup_insert_eq|done|done|exact Hb|].
        by rewrite E, H3, lookup_insert_ne.
      - pose proof (touches_write tmp b s1 q Hq) as E. by rewrite H3 in E. }
    unfold io_ignore, io_bind, io_fail in Hw. injection Hw as <- <-. split; [eauto|]. intros q Hq.
    rewrite <- H2 by done. by apply touches_remove_file.
Qed.

(** A write is all or nothing at its destination, and besides that changes only its
    temporary file and missing directories on the way. *)
Lemma write_with_mode_inv suffix root dest b s r s' :
  write_with_mode suffix root dest b s = (r, s') ->
  (r = Ok tt -> nodes s' !! dest = Some (NFile b)) /\
  forall q, nodes s' !! q = nodes s !! q \/ (q = tmp_of suffix dest /\ nodes s !! q = None) \/
    (q = dest /\ nodes s' !! q = Some (NFile b) /\ r = Ok tt) \/
    (nodes s !! q = None /\ nodes s' !! q = Some NDir /\ under q (parent dest)).
Proof.
  assert (forall s r s', reject_symlink_components root dest s = (r, s') -> nodes s' = nodes s) as Hrej.
  { intros t r1 t' H. apply map_eq. intros q. pose proof (reject_touches root dest (fun _ => False) t q ltac:(auto)) as E.
    by rewrite H in E. }
  intros Hw. unfold write_with_mode in Hw.
  apply io_bind_inv in Hw as [(u1 & s1 & H1%Hrej & Hw)|(e & H1%Hrej & ->)]; [|by split; [|rewrite H1; auto]].
  apply io_bind_inv in Hw as [([] & s2 & H2 & Hw)|(e & H2 & ->)].
  2: { split; [done|]. intros q. left. rewrite <- H1. apply syscall_inv in H2 as [(n & _ & E)|[(a & [=] & _)|(e' & _ & _ & E)]]; by rewrite E. }
  assert (forall q, nodes s2 !! q = nodes s !! q \/
    (nodes s !! q = None /\ nodes s2 !! q = Some NDir /\ under q (parent dest))) as E2.
  { intros q. rewrite <- H1. apply syscall_inv in H2 as [(n & [=] & _)|[([] & _ & E)|(e' & [=] & _)]].
    destruct (create_dirs_lookup _ _ _ _ q E) as [|(? & ? & Hu & _)]; [by left|right]. done. }
  clear H2. apply io_bind_inv in Hw as [(u3 & s3 & H3%Hrej & Hw)|(e & H3%Hrej & ->)].
  2: { split; [done|]. intros q. rewrite H3. destruct (E2 q) as [|]; [by left|by right; right; right]. }
  rewrite <- H3 in E2. clear H3. unfold tmp_of. destruct (last dest) as [name|] eqn:El.
  2: { injection Hw as <- <-. split; [done|]. intros q. destruct (E2 q) as [|]; [by left|by right; right; right]. }
  assert (dest <> []) as Hd by (intros ->; done).
  pose proof (tmp_of_ne suffix dest Hd) as Hne. unfold tmp_of in Hne. rewrite El in Hne.
  destruct (nodes s3 !! (parent dest ++ [((name +:+ ".tmp-") +:+ suffix)%string])) as [x|] eqn:Ef.
  - apply io_bind_inv in Hw as [([] & s4 & H4 & _)|(e & H4 & ->)].
    + apply syscall_inv in H4 as [(n & [=] & _)|[(a & _ & H4)|(e & [=] & _)]]. by rewrite Ef in H4.
    + split; [done|]. intros q.
      assert (nodes s' = nodes s3) as ->.
      { apply syscall_inv in H4 as [(n & _ & E)|[(a & [=] & _)|(e' & _ & _ & E)]]; exact E. }
      destruct (E2 q) as [|]; [by left|by right; right; right].
  - assert (nodes s !! (parent dest ++ [((name +:+ ".tmp-") +:+ suffix)%string]) = None) as Ef0.
    { destruct (E2 (parent dest ++ [((name +:+ ".tmp-") +:+ suffix)%string])) as [E|[E _]]; [by rewrite <- E|done]. }
    apply replace_inv in Hw as [[-> Hw]|[[e ->] Hw]]; [| |done..].
    + rewrite Hw. split; [by rewrite lookup_insert_eq|]. intros q.
      destruct (decide (q = dest)) as [->|Hq]; [rewrite lookup_insert_eq; right; right; by left|]. rewrite lookup_insert_ne by done.
      destruct (E2 q) as [|]; [by left|by right; right; right].
    + split; [done|]. intros q.
      destruct (decide (q = parent dest ++ [((name +:+ ".tmp-") +:+ suffix)%string])) as [->|]; [by right; left|].
      rewrite Hw by done. destruct (E2 q) as [|]; [by left|by right; right; right].
Qed.

(** Splitting loses nothing. *)
Fixpoint unsplit (c : ascii) (ss : list string) : string :=
  match ss with
  | [] => EmptyString
  | [s] => s
  | s :: ss => s +:+ String c (unsplit c ss)
  end.

Lemma unsplit_split c s : unsplit c (str_split c s) = s.
Proof.
  induction s as [|a s IH]; [done|]. cbn [str_split]. pose proof (str_split_ne c s) as Hne.
  destruct (Ascii.eqb_spec a c) as [->|].
  - destruct (str_split c s) as [|t ts]; [done|]. cbn [unsplit]. cbn [unsplit] in IH. by rewrite IH.
  - destruct (str_split c s) as [|t ts]; [done|]. destruct ts as [|u ts]; cbn [unsplit] in *; [by rewrite IH|].
    rewrite <- IH. done.
Qed.

(** *** The run *)

Section Run.
Context {SerM : Serde ContentManifest} {SerS : Serde ContentState}.
Context (sha256 : bytes -> bytes) (unique_suffix : path -> string) (content_dir state_path : path).

(** What the state file says. *)
Definition recorded (m : gmap path node) : option ContentState :=
  match m !! state_path with
  | None => Some ContentState_default
  | Some (NFile b) => from_json b
  | Some _ => None
  end.

Definition on_disk (p h : string) (m : gmap path node) : Prop :=
  exists b, m !! artifact_dest content_dir p = Some (NFile b) /\ hash_bytes sha256 b = h.

(** What the record says of [p] is true of the disk. *)
Definition true_at (st : ContentState) (m : gmap path node) (p : string) : Prop :=
  forall h, cs_entries st !! p = Some h -> on_disk p h m.

(** What may happen to a path: nothing; it is the state file; it is the file of an
    entry and has the declared hash; or it did not exist, and is a directory or a
    temporary file now. *)
Definition changed (entries : list ContentEntry) (m m' : gmap path node) (q : path) : Prop :=
  m' !! q = m !! q \/ q = state_path \/
  (exists e b, e ∈ entries /\ q = artifact_dest content_dir (ce_path e) /\ m' !! q = Some (NFile b) /\
     hash_bytes sha256 b = ce_sha256 e) \/
  (m !! q = None /\ (m' !! q = Some NDir \/ q = tmp_of (unique_suffix state_path) state_path \/
     exists e, e ∈ entries /\
       q = tmp_of (unique_suffix (artifact_dest content_dir (ce_path e))) (artifact_dest content_dir (ce_path e)))).

Lemma changed_refl es m q : changed es m m q.
Proof. by left. Qed.

Lemma changed_trans es m1 m2 m3 q : changed es m1 m2 q -> changed es m2 m3 q -> changed es m1 m3 q.
Proof.
  intros [E|[E|[(e & b & H1 & H2 & H3 & H4)|[E H]]]] H23; [| |..].
  - unfold changed in *. by rewrite E in H23.
  - by right; left.
  - destruct H23 as [E'|[E'|[?|[E' _]]]]; [|by right; left|by right; right; left|congruence].
    right; right; left. exists e, b. by rewrite E'.
  - destruct H23 as [E'|[E'|[?|[E' H']]]]; [|by right; left|by right; right; left|by right; right; right].
    right; right; right. rewrite E'. done.
Qed.

Lemma changed_mono es es' m m' q : (forall e, e ∈ es -> e ∈ es') -> changed es m m' q -> changed es' m m' q.
Proof.
  intros Hs [E|[E|[(e & b & H1 & H2)|[E [H|[H|(e & H1 & H2)]]]]]]; [by left|by right; left|..].
  - right; right; left. exists e, b. split; [by apply Hs|done].
  - right; right; right. split; [done|]. by left.
  - right; right; right. split; [done|]. by right; left.
  - right; right; right. split; [done|]. right; right. exists e. split; [by apply Hs|done].
Qed.

(** A file that exists keeps existing, and only an entry's own file changes. *)
Lemma on_disk_kept es m m' p h :
  (forall q, changed es m m' q) -> ~ under content_dir state_path ->
  on_disk p h m -> p ∉ ce_path <$> es -> on_disk p h m'.
Proof.
  intros Hc Hap (b & Hb & Hh) Hp. exists b. split; [|done].
  destruct (Hc (artifact_dest content_dir p)) as [E|[E|[(e & b' & He & E & _)|[E _]]]]; [by rewrite E| | |congruence].
  - destruct Hap. rewrite <- E. apply under_app.
  - destruct Hp. apply list_elem_of_fmap. exists e. split; [|done]. unfold artifact_dest in E. apply app_inv_head in E.
    apply (f_equal (unsplit "/"%char)) in E. by rewrite !unsplit_split in E.
Qed.

Hypothesis Hapart : apart content_dir state_path.

Lemma state_path_ne : state_path <> [].
Proof. intros E. destruct Hapart as [_ H]. apply H. rewrite E. apply prefix_nil. Qed.

Lemma parent_not_above (p : path) : p <> [] -> ~ under p (parent p).
Proof.
  induction p as [|x p _] using rev_ind; [done|]. intros _. rewrite parent_snoc. intros [k Hk].
  apply (f_equal length) in Hk. rewrite !length_app in Hk. cbn [length] in Hk. lia.
Qed.

(** A save is all or nothing. *)
Lemma save_state_inv es st s r s' :
  save_state unique_suffix state_path st s = (r, s') ->
  (forall q, changed es (nodes s) (nodes s') q) /\
  (r = Ok tt -> recorded (nodes s') = Some st) /\
  ((exists e, r = Err e) -> recorded (nodes s') = recorded (nodes s)).
Proof.
  intros H. apply write_with_mode_inv in H as [Hok Hq]. split_and!.
  - intros q. destruct (Hq q) as [E|[[-> E]|[(-> & _)|(E & E' & _)]]]; [by left| |by right; left|].
    + right; right; right. split; [done|]. by right; left.
    + right; right; right. split; [done|]. by left.
  - intros E. unfold recorded. rewrite Hok by done. apply from_to_json.
  - intros [e E]. unfold recorded. destruct (Hq state_path) as [->|[[E' _]|[(_ & _ & E')|(_ & _ & E')]]]; [done|..].
    + by destruct (tmp_of_ne (unique_suffix state_path) state_path state_path_ne).
    + congruence.
    + by destruct (parent_not_above state_path state_path_ne).
Qed.

(** Writing an artifact leaves the record alone. *)
Lemma write_artifact_inv es e b s r s' :
  e ∈ es -> hash_bytes sha256 b = ce_sha256 e ->
  write_atomically unique_suffix content_dir (artifact_dest content_dir (ce_path e)) b s = (r, s') ->
  (forall q, changed es (nodes s) (nodes s') q) /\ recorded (nodes s') = recorded (nodes s) /\
  (r = Ok tt -> on_disk (ce_path e) (ce_sha256 e) (nodes s')).
Proof.
  intros He Hh H. pose proof H as Hw. apply write_with_mode_inv in Hw as [Hok Hq]. split_and!.
  - intros q. destruct (Hq q) as [E|[[-> E]|[(-> & E & _)|(E & E' & _)]]]; [by left|..].
    + right; right; right. split; [done|]. right; right. by exists e.
    + right; right; left. by exists e, b.
    + right; right; right. split; [done|]. by left.
  - unfold recorded. assert (nodes s' !! state_path = nodes s !! state_path) as ->; [|done].
    assert (under content_dir (parent (artifact_dest content_dir (ce_path e)))) as Hd.
    { unfold artifact_dest, parent. rewrite removelast_app by apply str_split_ne. apply under_app. }
    pose proof (write_touches (unique_suffix (artifact_dest content_dir (ce_path e))) content_dir _ b content_dir Hd s state_path) as E.
    unfold write_atomically in H. rewrite H in E. apply E. destruct Hapart as [H1 H2]. intros [|]; done.
  - intros E. exists b. split; [by apply Hok|done].
Qed.

Definition note_entries (es : list ContentEntry) (have : gmap string string) : gmap string string :=
  foldl (fun have e => <[ce_path e := ce_sha256 e]> have) have es.

Lemma fetch_entries_inv srv es0 es st s r s' :
  (forall e, e ∈ es -> e ∈ es0) -> recorded (nodes s) = Some st ->
  fetch_entries sha256 unique_suffix srv content_dir state_path es st s = (r, s') ->
  (forall q, changed es0 (nodes s) (nodes s') q) /\
  (exists st', recorded (nodes s') = Some st' /\ cs_release_version st' = cs_release_version st) /\
  (forall st', r = Ok st' ->
     recorded (nodes s') = Some st' /\ cs_release_version st' = cs_release_version st /\
     cs_entries st' = note_entries es (cs_entries st) /\
     (forall p, true_at st (nodes s) p \/ p ∈ ce_path <$> es -> true_at st' (nodes s') p)).
Proof.
  revert st s. induction es as [|e es IH]; intros st s Hes Hrec; cbn [fetch_entries].
  { intros [= <- <-]. split_and!; [intros; apply changed_refl|eauto|]. intros st' [= <-]. split_and!; [done..|].
    by intros p [|[]%elem_of_nil]. }
  assert (forall err, (Err err, s) = (r, s') ->
    (forall q, changed es0 (nodes s) (nodes s') q) /\
    (exists st', recorded (nodes s') = Some st' /\ cs_release_version st' = cs_release_version st) /\
    (forall st', r = Ok st' -> recorded (nodes s') = Some st' /\ cs_release_version st' = cs_release_version st /\
       cs_entries st' = note_entries (e :: es) (cs_entries st) /\
       (forall p, true_at st (nodes s) p \/ p ∈ ce_path <$> e :: es -> true_at st' (nodes s') p))) as Hfail.
  { intros err [= <- <-]. split_and!; [intros; apply changed_refl|eauto|done]. }
  destruct (MAX_CONTENT_ARTIFACT_BYTES <? ce_size e); [apply Hfail|].
  destruct (content_artifact srv (ce_path e) (ce_sha256 e)) as [b|]; [|apply Hfail]. cbv zeta.
  destruct (String.eqb_spec (hash_bytes sha256 b) (ce_sha256 e)) as [Hh|]; cbn [negb]; [|apply Hfail].
  clear Hfail. assert (e ∈ es0) as He by (apply Hes, elem_of_cons; by left). intros Hw.
  assert (forall t rr, write_atomically unique_suffix content_dir (artifact_dest content_dir (ce_path e)) b s = (rr, t) ->
    (forall q, changed [e] (nodes s) (nodes t) q) /\ (forall q, changed es0 (nodes s) (nodes t) q) /\
    recorded (nodes t) = Some st /\ (rr = Ok tt -> on_disk (ce_path e) (ce_sha256 e) (nodes t))) as Hart.
  { intros t rr H1. apply (write_artifact_inv [e]) in H1 as (C1 & R1 & D1); [|by apply list_elem_of_singleton|done].
    split_and!; [done| |congruence|done]. intros q. eapply changed_mono, C1. by intros ? ->%list_elem_of_singleton. }
  apply io_bind_inv in Hw as [([] & s1 & H1 & Hw)|(err & H1 & ->)];
    apply io_map_err_inv in H1 as [([] & H1 & E)|(err' & H1 & E)]; try discriminate E;
    apply Hart in H1 as (C1' & C1 & R1 & D1).
  2: { split_and!; [done|eauto|done]. }
  specialize (D1 eq_refl). set (st1 := mkContentState _ _) in Hw.
  apply io_bind_inv in Hw as [([] & s2 & H2 & Hw)|(err & H2 & ->)];
    apply io_map_err_inv in H2 as [([] & H2 & E2)|(err' & H2 & E2)]; try discriminate E2;
    apply (save_state_inv []) in H2 as (C2 & R2 & R2').
  2: { assert (forall q, changed es0 (nodes s1) (nodes s') q) by (intros q; eapply changed_mono, C2; intros ? []%elem_of_nil).
        split_and!; [intros q; by eapply changed_trans|rewrite R2', R1 by eauto; eauto|done]. }
  specialize (R2 eq_refl).
  assert (forall q, changed es0 (nodes s1) (nodes s2) q) as C2' by (intros q; eapply changed_mono, C2; intros ? []%elem_of_nil).
  apply IH in Hw as (C3 & R3 & F3); [|intros; apply Hes, elem_of_cons; by right|exact R2].
  split_and!; [intros q; eapply changed_trans; [apply C1|]; eapply changed_trans; [apply C2'|apply C3]|exact R3|].
  intros st' Hr. destruct (F3 st' Hr) as (A & B & C & D). split_and!; [done..|]. intros p Hf. apply D.
  destruct (decide (p ∈ ce_path <$> es)) as [|Hnot]; [by right|left]. destruct Hapart as [Hap _].
  intros h Hp. cbn [st1 cs_entries] in Hp. apply (on_disk_kept [] (nodes s1)); [done|done| |apply not_elem_of_nil].
  destruct (decide (p = ce_path e)) as [->|Hne].
  - rewrite lookup_insert_eq in Hp. by injection Hp as <-.
  - rewrite lookup_insert_ne in Hp by done. apply (on_disk_kept [e] (nodes s)); [exact C1'|done| |].
    + destruct Hf as [Hf|[->|Hf]%elem_of_cons]; [by apply Hf|done|done].
    + cbn. by rewrite list_elem_of_singleton.
Qed.

Lemma create_content_dir_inv es s r s' :
  fs_create_dir_all content_dir s = (r, s') ->
  (forall q, changed es (nodes s) (nodes s') q) /\ recorded (nodes s') = recorded (nodes s) /\
  forall st p, true_at st (nodes s) p -> true_at st (nodes s') p.
Proof.
  intros H.
  assert (forall q, nodes s' !! q = nodes s !! q \/ (nodes s !! q = None /\ nodes s' !! q = Some NDir /\ under q content_dir)) as Hq.
  { intros q. apply syscall_inv in H as [(n & _ & E)|[([] & _ & E)|(e & _ & _ & E)]]; [rewrite E; by left| |rewrite E; by left].
    destruct (create_dirs_lookup _ _ _ _ q E) as [|(? & ? & Hu & _)]; [by left|by right]. }
  assert (forall q, changed es (nodes s) (nodes s') q) as Hc.
  { intros q. destruct (Hq q) as [|(E & E' & _)]; [by left|]. right; right; right. split; [done|]. by left. }
  split_and!; [done| |].
  - unfold recorded. destruct (Hq state_path) as [->|(_ & _ & E)]; [done|]. by destruct Hapart.
  - intros st p Hf h Hp. destruct (Hf h Hp) as (b & Hb & Hh). exists b. split; [|done].
    destruct (Hq (artifact_dest content_dir p)) as [->|(E & _)]; [done|congruence].
Qed.

Lemma ContentState_load_inv s r s' :
  ContentState_load state_path s = (r, s') ->
  nodes s' = nodes s /\ forall st, r = Ok st -> recorded (nodes s) = Some st.
Proof.
  unfold ContentState_load, recorded. destruct (fs_read state_path s) as [r1 s1] eqn:E.
  apply fs_read_inv in E as [En [(b & -> & Hb)|(e & -> & He)]].
  - rewrite Hb. destruct (from_json b); intros [= <- <-]; (split; [done|]); by intros ? [= <-].
  - destruct e; intros [= <- <-]; (split; [done|]); intros st [= <-]. by rewrite He.
Qed.

Lemma note_entries_other es have p : p ∉ ce_path <$> es -> note_entries es have !! p = have !! p.
Proof.
  revert have. induction es as [|e es IH]; intros have Hp; [done|]. cbn [note_entries foldl fmap list_fmap] in *.
  apply not_elem_of_cons in Hp as [H1 H2]. fold (note_entries es (<[ce_path e := ce_sha256 e]> have)).
  rewrite IH by done. by rewrite lookup_insert_ne.
Qed.

Lemma note_entries_in es have e :
  NoDup (ce_path <$> es) -> e ∈ es -> note_entries es have !! ce_path e = Some (ce_sha256 e).
Proof.
  revert have. induction es as [|x es IH]; intros have Hn He; [by apply elem_of_nil in He|].
  rewrite fmap_cons in Hn. apply NoDup_cons in Hn as [Hx Hn]. apply elem_of_cons in He as [->|He].
  - change (note_entries es (<[ce_path x := ce_sha256 x]> have) !! ce_path x = Some (ce_sha256 x)).
    rewrite note_entries_other by done. by rewrite lookup_insert_eq.
  - by apply IH.
Qed.

Lemma NoDup_fmap_filter {A B : Type} (f : A -> B) (P : A -> Prop) `{forall x, Decision (P x)} (l : list A) :
  NoDup (f <$> l) -> NoDup (f <$> filter P l).
Proof.
  induction l as [|x l IH]; [done|]. rewrite fmap_cons, filter_cons. intros [Hx Hn]%NoDup_cons.
  destruct (decide (P x)); [|by apply IH]. rewrite fmap_cons. apply NoDup_cons. split; [|by apply IH].
  intros Hin. apply Hx. apply list_elem_of_fmap in Hin as (y & -> & Hy). apply list_elem_of_filter in Hy as [_ Hy].
  by apply list_elem_of_fmap_2.
Qed.

(** After the planned downloads the record has every entry of the manifest. *)
Lemma planned_record m have e :
  NoDup (ce_path <$> cm_entries m) -> e ∈ cm_entries m ->
  note_entries (entries_to_fetch m have) have !! ce_path e = Some (ce_sha256 e).
Proof.
  intros Hn He. unfold entries_to_fetch.
  assert (NoDup (ce_path <$> filter (fun e => have !! ce_path e <> Some (ce_sha256 e)) (cm_entries m))) as Hn'.
  { by apply NoDup_fmap_filter. }
  destruct (decide (have !! ce_path e = Some (ce_sha256 e))) as [E|E].
  - rewrite note_entries_other; [done|]. intros Hin. apply list_elem_of_fmap in Hin as (x & Ex & Hx).
    apply list_elem_of_filter in Hx as [Hx Hin]. apply Hx. rewrite <- Ex, E. f_equal.
    assert (x = e) as ->; [|done]. clear -Hn He Hin Ex.
    apply list_elem_of_lookup in He as [i Hi], Hin as [j Hj].
    assert (i = j) as ->; [|congruence]. eapply (NoDup_lookup (ce_path <$> cm_entries m) i j (ce_path e)); [done|..].
    + by rewrite list_lookup_fmap, Hi.
    + by rewrite list_lookup_fmap, Hj, Ex.
  - apply note_entries_in; [done|]. apply list_elem_of_filter. done.
Qed.

Lemma plan_inv ed m ring st fp :
  plan ed m ring st = Return (Ok fp) ->
  fp = mkFetchPlan (cm_release_version m) (entries_to_fetch m (cs_entries st)) /\
  cm_verify_signature ed m = Return (Ok tt) /\ cm_ring m = ring /\
  (forall v, cs_release_version st !! ring = Some v -> v < cm_release_version m) /\
  (forall e, e ∈ cm_entries m -> is_safe_relative_path (ce_path e) = true).
Proof.
  unfold plan, check_ring, check_release_version, release_version_for.
  destruct (cm_verify_signature ed m) as [|[[]|e]] eqn:Ev; try done. intros [= H]. revert H.
  destruct (String.eqb_spec (cm_ring m) ring) as [Er|]; cbn [negb]; [|done].
  destruct (cs_release_version st !! ring) as [v|] eqn:Erv.
  - destruct (Z.leb_spec (cm_release_version m) v); [done|].
    destruct (cm_validate_entry_paths _) as [[]|] eqn:Evp; [|done]. intros [= <-].
    split_and!; [done..| |by apply cm_validate_all]. intros v' [= <-]. lia.
  - destruct (cm_validate_entry_paths _) as [[]|] eqn:Evp; [|done]. intros [= <-].
    split_and!; [done..| |by apply cm_validate_all]. done.
Qed.

Lemma download_and_apply_inv srv m ring st s r s' :
  recorded (nodes s) = Some st ->
  download_and_apply sha256 unique_suffix srv
    (mkFetchPlan (cm_release_version m) (entries_to_fetch m (cs_entries st))) ring content_dir state_path st s = (r, s') ->
  (forall q, changed (cm_entries m) (nodes s) (nodes s') q) /\
  exists st', recorded (nodes s') = Some st' /\
    ((exists e, r = Err e) /\ cs_release_version st' = cs_release_version st \/
     r = Ok tt /\ cs_release_version st' = <[ring := cm_release_version m]> (cs_release_version st) /\
     (forall p, true_at st (nodes s) p \/ p ∈ ce_path <$> entries_to_fetch m (cs_entries st) -> true_at st' (nodes s') p) /\
     cs_entries st' = note_entries (entries_to_fetch m (cs_entries st)) (cs_entries st)).
Proof.
  intros Hrec H. unfold download_and_apply in H. cbn [fp_to_fetch fp_release_version] in H.
  apply io_bind_inv in H as [([] & s1 & H1 & H)|(e & H1 & ->)];
    apply io_map_err_inv in H1 as [([] & H1 & E1)|(e1 & H1 & E1)]; try discriminate E1;
    apply (create_content_dir_inv (cm_entries m)) in H1 as (C1 & R1 & F1); rewrite Hrec in R1.
  2: { split; [done|]. exists st. split; [done|]. left. eauto. }
  apply io_bind_inv in H as [(st2 & s2 & H2 & H)|(e & H2 & ->)];
    apply (fetch_entries_inv srv (cm_entries m)) in H2 as (C2 & (st' & R2 & V2) & F2);
    try (by intros e' [_ He']%list_elem_of_filter); try done.
  2: { split; [intros q; by eapply changed_trans|]. exists st'. split; [done|]. left. eauto. }
  destruct (F2 st2 eq_refl) as (R2' & V2' & E2 & Hf2).
  apply io_map_err_inv in H as [([] & H & ->)|(e & H & ->)];
    pose proof (save_state_inv [] _ _ _ _ H) as (C3' & R3 & R3');
    assert (forall q, changed (cm_entries m) (nodes s) (nodes s') q) as C
      by (intros q; eapply changed_trans; [apply C1|]; eapply changed_trans; [apply C2|];
          eapply changed_mono, C3'; intros ? []%elem_of_nil).
  - split; [done|]. eexists. split; [by apply R3|]. right. cbn [cs_release_version cs_entries]. rewrite V2'.
    split_and!; [done..| |done]. intros p Hf h Hp. apply (on_disk_kept [] (nodes s2)); [done| | |apply not_elem_of_nil].
    + by destruct Hapart.
    + apply (Hf2 p); [|done]. destruct Hf as [Hf|Hf]; [left; by apply F1|by right].
  - split; [done|]. exists st2. rewrite R3' by eauto. split; [done|]. left. eauto.
Qed.

(** C23. Content updates are verified, contained and never rolled back.  Whatever the
    server answers and wherever the disk fails, applying content either leaves the
    file system as it was, or the ring's manifest carries a valid signature, is for
    this ring, newer than the ring's recorded release and its paths are safe; then
    besides the record only entries' own files change, each to bytes with the
    declared hash (temporary files and missing directories aside); the recorded
    releases of all rings are kept on failure and only this ring's is raised on
    success.  On success, in a manifest that lists no path twice, every entry is on
    disk with its declared hash, unless the record already claimed that hash for it
    when the disk did not have it: such an entry is not fetched again.  What the
    record said truly of a path it still does. *)
Theorem content_apply_safe ed srv ring s r s' :
  cmd_apply_content_manifest ed sha256 unique_suffix srv ring content_dir state_path s = (r, s') ->
  nodes s' = nodes s \/
  exists m st st', content_manifest srv ring = Some m /\ recorded (nodes s) = Some st /\
    cm_verify_signature ed m = Return (Ok tt) /\ cm_ring m = ring /\
    (forall v, cs_release_version st !! ring = Some v -> v < cm_release_version m) /\
    (forall e, e ∈ cm_entries m -> is_safe_relative_path (ce_path e) = true) /\
    (forall q, changed (cm_entries m) (nodes s) (nodes s') q) /\
    recorded (nodes s') = Some st' /\
    ((exists e, r = Err e) /\ cs_release_version st' = cs_release_version st \/
     (exists n, r = Ok (ContentApplied (cm_release_version m) n)) /\
     cs_release_version st' = <[ring := cm_release_version m]> (cs_release_version st) /\
     (forall p, true_at st (nodes s) p -> true_at st' (nodes s') p) /\
     (NoDup (ce_path <$> cm_entries m) -> forall e, e ∈ cm_entries m ->
        cs_entries st !! ce_path e <> Some (ce_sha256 e) \/ on_disk (ce_path e) (ce_sha256 e) (nodes s) ->
        on_disk (ce_path e) (ce_sha256 e) (nodes s'))).
Proof.
  unfold cmd_apply_content_manifest. destruct (content_manifest srv ring) as [m|] eqn:Em; [|intros [= _ <-]; by left].
  intros H. apply io_bind_inv in H as [(st & s1 & H1 & H)|(e & H1 & ->)];
    apply io_map_err_inv in H1 as [(st1 & H1 & E1)|(e1 & H1 & E1)]; try discriminate E1;
    apply ContentState_load_inv in H1 as [En Hst]; [|by left].
  injection E1 as <-. specialize (Hst st eq_refl). rewrite <- En in Hst |- *.
  destruct (plan ed m ring st) as [|[fp|e]] eqn:Ep; [injection H as _ <-; by left| |].
  2: { left. destruct e; by injection H as _ <-. }
  apply plan_inv in Ep as (-> & Hv & Hr & Hnew & Hsafe). right.
  apply io_bind_inv in H as [([] & s2 & H2 & H)|(e & H2 & ->)];
    apply (download_and_apply_inv srv m ring st) in H2 as (C & st' & R & Hout); try done; exists m, st, st'.
  - injection H as <- <-. split_and!; [done..|]. right. destruct Hout as [[[e [=]] _]|(_ & Hrv & Hf & Hes)].
    split_and!; [eauto|done|by auto|]. intros Hn e He Hor. apply (Hf (ce_path e)); [|rewrite Hes; by apply planned_record].
    destruct (decide (cs_entries st !! ce_path e = Some (ce_sha256 e))) as [E|E].
    + left. intros h Hh. destruct Hor; congruence.
    + right. apply list_elem_of_fmap_2, list_elem_of_filter. done.
  - split_and!; [done..|]. left. destruct Hout as [[_ Hrv]|([=] & _)]. eauto.
Qed.
End Run.

(** ** The containment of the command line's paths *)

Section Containment.
Context (canonicalize : Path -> option Path) (current_dir : option Path).
Notation ensure_within_state_dir := (ensure_within_state_dir canonicalize current_dir).
Notation resolve_loop := (resolve_loop canonicalize current_dir).

Lemma Path_parent_shorter p par : Path_parent p = Some par -> p <> [] /\ length p = S (length par).
Proof.
  unfold Path_parent. destruct (last p) as [c|] eqn:E; [|done]. apply last_Some in E as [k ->].
  rewrite removelast_last. intros H. split; [by destruct k|]. rewrite length_app. cbn [length].
  destruct c; simplify_eq; lia.
Qed.

(** The loop stops at the longest prefix that exists; the components after it are
    appended, but a [..] among them is forgotten. *)
Lemma resolve_loop_spec fuel p existing remainder r :
  (length existing <= fuel)%nat -> resolve_loop fuel p existing remainder = Ok r ->
  (exists found rest base, existing = found ++ rest /\ canonicalize found = Some base /\
     r = base ++ (Normal <$> (omap (fun c => match c with Normal n => Some n | _ => None end) rest ++ remainder))) \/
  exists cwd, current_dir = Some cwd /\ r = Path_join cwd p.
Proof.
  revert existing remainder. induction fuel as [|fuel IH]; intros existing remainder Hf H; cbn [Content.resolve_loop] in H;
    (destruct (canonicalize existing) as [base|] eqn:Ec;
      [injection H as <-; left; exists existing, [], base; by rewrite app_nil_r|]);
    destruct (Path_parent existing) as [par|] eqn:Ep;
    try (destruct current_dir as [cwd|]; [|done]; injection H as <-; right; by exists cwd).
  - apply Path_parent_shorter in Ep. lia.
  - pose proof (Path_parent_shorter _ _ Ep) as [_ Hl].
    apply IH in H as [(found & rest & base & -> & Hb & ->)|H]; [|by right|lia]. left.
    unfold Path_parent, Path_file_name in *. destruct (last existing) as [c|] eqn:El; [|done].
    apply last_Some in El as [k ->]. rewrite removelast_last in Ep.
    assert (k = found ++ rest) as -> by (by destruct c; simplify_eq). exists found, (rest ++ [c]), base.
    rewrite app_assoc. split_and!; [done..|]. rewrite omap_app. by destruct c; cbn; rewrite ?app_nil_r, <- ?app_assoc.
Qed.

(** Without [..] the check is sound: an accepted absolute path of plain names is an
    existing directory and names below it, and lies below the state directory. *)
Lemma contained_without_dotdot names state_dir root :
  canonicalize state_dir = Some root -> canonicalize [] = None ->
  ensure_within_state_dir (RootDir :: (Normal <$> names)) state_dir = Ok tt ->
  (exists above below base, names = above ++ below /\ canonicalize (RootDir :: (Normal <$> above)) = Some base /\
     root `prefix_of` base ++ (Normal <$> below)) \/
  root `prefix_of` RootDir :: (Normal <$> names).
Proof.
  intros Hroot Hnil. unfold Content.ensure_within_state_dir, resolve_as_far_as_possible.
  assert (resolve_loop (length state_dir) state_dir state_dir [] = Ok root) as ->.
  { by destruct (length state_dir); cbn; rewrite Hroot, app_nil_r. }
  destruct (resolve_loop _ (RootDir :: _) _ _) as [r|] eqn:E; [|done].
  unfold Path_starts_with. destruct (bool_decide_reflect (root `prefix_of` r)) as [Hpre|]; [|done]. intros _.
  apply resolve_loop_spec in E as [(found & rest & base & E & Hb & ->)|(cwd & _ & ->)]; [|by right|done].
  left. destruct found as [|c found]; [by rewrite Hnil in Hb|]. injection E as <- E.
  apply fmap_app_inv in E as (above & below & -> & -> & ->). exists above, below, base. split_and!; [done..|].
  rewrite app_nil_r in Hpre. replace (omap _ (Normal <$> below)) with below in Hpre; [done|].
  clear. induction below as [|n below IH]; [done|]. cbn. by f_equal.
Qed.

(** The containment check forgets [..]: when a directory below the state directory
    does not exist yet, a path that goes through it and climbs out with [..] is
    accepted although, once the missing directory is created, it names a place
    outside the state directory. *)
Theorem dotdot_escapes_state_dir root new x :
  canonicalize root = Some root ->
  (forall tail, canonicalize (root ++ Normal new :: tail) = None) ->
  ensure_within_state_dir (root ++ [Normal new; ParentDir; ParentDir; Normal x]) root = Ok tt.
Proof.
  intros Hroot Hnew. unfold Content.ensure_within_state_dir, resolve_as_far_as_possible.
  assert (resolve_loop (length root) root root [] = Ok root) as ->.
  { by destruct (length root); cbn; rewrite Hroot, app_nil_r. }
  rewrite length_app, Nat.add_comm. cbn [length Nat.add]. unfold Path_starts_with.
  assert (forall k c, Path_parent (root ++ Normal new :: k ++ [c]) = match c with RootDir => None | _ => Some (root ++ Normal new :: k) end) as Hpar.
  { intros k c. unfold Path_parent. rewrite app_comm_cons, app_assoc, last_snoc, removelast_last. by destruct c. }
  assert (forall k c, Path_file_name (root ++ Normal new :: k ++ [c]) = match c with Normal n => Some n | _ => None end) as Hname.
  { intros k c. unfold Path_file_name. rewrite app_comm_cons, app_assoc, last_snoc. by destruct c. }
  pose proof (Hpar [ParentDir; ParentDir] (Normal x)) as P1. pose proof (Hname [ParentDir; ParentDir] (Normal x)) as N1.
  pose proof (Hpar [ParentDir] ParentDir) as P2. pose proof (Hname [ParentDir] ParentDir) as N2.
  pose proof (Hpar [] ParentDir) as P3. pose proof (Hname [] ParentDir) as N3. cbn [app] in *.
  cbn [Content.resolve_loop]. rewrite Hnew, P1, N1, Hnew, P2, N2, Hnew, P3, N3, Hnew.
  assert (Path_parent (root ++ [Normal new]) = Some root /\ Path_file_name (root ++ [Normal new]) = Some new) as [-> ->].
  { unfold Path_parent, Path_file_name. by rewrite last_snoc, removelast_last. }
  assert (forall f, resolve_loop f (root ++ [Normal new; ParentDir; ParentDir; Normal x]) root [new; x]
    = Ok (root ++ [Normal new; Normal x])) as ->; [by intros []; cbn; rewrite Hroot|].
  rewrite bool_decide_eq_true_2; [done|]. by apply prefix_app_r.
Qed.
End Containment.

(** ** Witnesses *)

Definition json_of {A : Type} `{Countable A} (a : A) : bytes := [Z.pos (encode a)].
Definition of_json {A : Type} `{Countable A} (b : bytes) : option A :=
  match b with [Z.pos p] => decode p | _ => None end.
Lemma of_json_of {A : Type} `{Countable A} (a : A) : of_json (json_of a) = Some a.
Proof. unfold of_json, json_of. apply decode_encode. Qed.

#[export] Instance ContentState_eq_dec : EqDecision ContentState.
Proof. solve_decision. Defined.
#[export] Instance ContentState_countable : Countable ContentState.
Proof.
  apply (inj_countable' (fun st => (cs_release_version st, cs_entries st)) (fun p => mkContentState p.1 p.2)). by intros [].
Defined.
#[export] Instance ContentState_serde : Serde ContentState := {| to_json := json_of; from_json := of_json; from_to_json := of_json_of |}.
#[export] Instance ContentEntry_eq_dec : EqDecision ContentEntry.
Proof. solve_decision. Defined.
#[export] Instance ContentEntry_countable : Countable ContentEntry.
Proof.
  apply (inj_countable' (fun e => (ce_metadata e, ce_path e, ce_sha256 e, ce_size e, ce_content_type e))
    (fun p => mkContentEntry p.1.1.1.1 p.1.1.1.2 p.1.1.2 p.1.2 p.2)). by intros [].
Defined.
#[export] Instance ContentManifest_eq_dec : EqDecision ContentManifest.
Proof. solve_decision. Defined.
#[export] Instance ContentManifest_countable : Countable ContentManifest.
Proof.
  apply (inj_countable' (fun m => (cm_entries m, cm_release_version m, cm_released_at m, cm_ring m, cm_schema_version m, cm_signature m))
    (fun p => mkContentManifest p.1.1.1.1.1 p.1.1.1.1.2 p.1.1.1.2 p.1.1.2 p.1.2 p.2)). by intros [].
Defined.
#[export] Instance ContentManifest_serde : Serde ContentManifest :=
  {| to_json := json_of; from_json := of_json; from_to_json := of_json_of |}.

(** A release of one rule file with content [b]. *)
Definition demo_manifest (v : Z) (b : bytes) : ContentManifest :=
  mkContentManifest [mkContentEntry None "a.yml" (hash_bytes id b) 1 "sigma"] v "" "prod" 1 "".
Definition demo_content_server (v : Z) (b : bytes) : ContentServer :=
  mkContentServer (fun _ => Some (demo_manifest v b)) (fun _ _ => Some b).
Definition demo_apply (v : Z) (b : bytes) (s : fsys) :=
  cmd_apply_content_manifest (fun _ _ => true) id (fun _ => "1") (demo_content_server v b) "prod"
    ["var"; "content"] ["var"; "state.json"] s.
Definition content_disk (faults : list (option nat)) : fsys := mkFs {[ [] := NDir; ["var"] := NDir ]} faults.

(** A release interrupted between writing a file and recording it, then a newer release
    that takes the change back. *)
Definition interrupted : result ContentOutcome ContentError * fsys :=
  let s1 := (demo_apply 1 [1] (content_disk [])).2 in
  let s2 := (demo_apply 2 [2] (mkFs (nodes s1) (replicate 7 None ++ [Some 0%nat]))).2 in
  demo_apply 3 [1] (mkFs (nodes s2) []).

(** A write of the record that fails after the artifact was replaced leaves a record
    of the old hash beside the new file; a later release that brings the old content
    back is then applied without fetching it, and the file on disk is not the one the
    signed manifest lists. *)
Theorem interrupted_update_masks_revert :
  (exists e, (demo_apply 2 [2] (mkFs (nodes (demo_apply 1 [1] (content_disk [])).2) (replicate 7 None ++ [Some 0%nat]))).1 = Err e) /\
  interrupted.1 = Ok (ContentApplied 3 0) /\
  ~ on_disk id ["var"; "content"] "a.yml" (hash_bytes id [1]) (nodes interrupted.2).
Proof.
  split; [eexists; vm_compute; reflexivity|]. split; [vm_compute; reflexivity|].
  assert (nodes interrupted.2 !! artifact_dest ["var"; "content"] "a.yml" = Some (NFile [2])) as E by (vm_compute; reflexivity).
  intros (b & Hb & Hh). rewrite E in Hb. injection Hb as <-. vm_compute in Hh. discriminate Hh.
Qed.

Lemma demo_apart : apart ["var"; "content"] ["var"; "state.json"].
Proof. split; intros [k Hk]; discriminate Hk. Qed.

Lemma content_apply_safe_witness :
  exists st', recorded ["var"; "state.json"] (nodes (demo_apply 1 [1] (content_disk [])).2) = Some st' /\
    cs_release_version st' !! "prod" = Some 1.
Proof.
  destruct (content_apply_safe id (fun _ => "1") ["var"; "content"] ["var"; "state.json"] demo_apart (fun _ _ => true)
    (demo_content_server 1 [1]) "prod" (content_disk []) (demo_apply 1 [1] (content_disk [])).1
    (demo_apply 1 [1] (content_disk [])).2 (surjective_pairing _)) as [H|(m & st & st' & _ & Hst & _ & _ & _ & _ & _ & H1 & H2)].
  - apply (f_equal (lookup ["var"; "content"; "a.yml"])) in H. vm_compute in H. discriminate H.
  - exists st'. split; [exact H1|]. destruct H2 as [[[e He] _]|[[n Hn] [H2 _]]].
    + vm_compute in He. discriminate He.
    + rewrite H2. assert (cm_release_version m = 1) as ->; [|apply lookup_insert_eq]. assert ((demo_apply 1 [1] (content_disk [])).1 = Ok (ContentApplied 1 1)) as E by (vm_compute; reflexivity).
      rewrite E in Hn. injection Hn as Hn _. exact (eq_sym Hn).
Defined.

Definition one_dir (p : Path) : option Path := if decide (p = [RootDir; Normal "state"]) then Some p else None.

Lemma dotdot_escapes_state_dir_witness :
  ensure_within_state_dir one_dir None [RootDir; Normal "state"; Normal "new"; ParentDir; ParentDir; Normal "etc"]
    [RootDir; Normal "state"] = Ok tt.
Proof.
  apply (dotdot_escapes_state_dir one_dir None [RootDir; Normal "state"] "new" "etc"); [reflexivity|].
  intros tail. reflexivity.
Defined.
