(* ===== verification/Spool.v ===== *)
(** * Spool: the durable store-and-forward queue (src/crates/store/src/spool.rs)

    A directory of append-only segments [spool-<seq>.jsonl], one JSON record
    per line; the oldest is handed out by renaming it to [.inflight] and deleted
    on acknowledgement; whole oldest segments are shed above the byte cap.  The
    operations run on the file system of [Fs] with its failure script and keep
    the spool's own fields in a state, so what an operation changed before it
    failed stays changed, as with [&mut self].

    The record type and its JSON codec are arguments; [SerdeLine] states what
    the spool relies on: a record is one line of valid text that parses back. *)
From stdpp Require Import base gmap strings list sorting.
From Stdlib Require Import ZArith Lia Ascii.
From S2P Require Import Prelude Order Str Fs Utf8.

Class SerdeLine (T : Type) := {
  to_line : T -> bytes;
  from_line : bytes -> option T;
  from_to_line : forall r, from_line (to_line r) = Some r;
  line_no_newline : forall r, NEWLINE ∉ to_line r;
  line_no_cr : forall r, last (to_line r) <> Some CARRIAGE_RETURN;
  line_not_blank : forall r, is_blank (to_line r) = false;
  line_utf8 : forall r, utf8_valid (to_line r) = true }.

Definition SEGMENT_RECORDS : Z := 1024.
Definition SEGMENT_MAX_BYTES : Z := 1024 * 1024.
Definition MAX_DRAIN_ATTEMPTS : Z := 5.

Record SpoolStats := mkSpoolStats { st_bytes : Z; st_dropped_records : Z }.

Record EventSpool := mkSpool {
  sp_dir : path;
  sp_max_bytes : Z;
  sp_head_seq : Z;
  sp_head_records : Z;
  sp_head_bytes : Z;
  sp_dropped_records : Z;
  sp_in_flight : option Z }.

(** ** File names *)

(** [{seq:012}]: decimal, zero-padded to twelve digits. *)
Fixpoint zeros (n : nat) : string :=
  match n with O => EmptyString | S n => String "0"%char (zeros n) end.
Definition show_u64_12 (z : Z) : string :=
  (zeros (12 - String.length (show_u64 z)) +:+ show_u64 z)%string.

Definition segment_name (seq : Z) : string := ("spool-" +:+ (show_u64_12 seq +:+ ".jsonl"))%string.
Definition inflight_name (seq : Z) : string := ("spool-" +:+ (show_u64_12 seq +:+ ".inflight"))%string.

Definition parse_segment (name : string) : option Z :=
  r ← strip_prefix "spool-" name; r ← strip_suffix ".jsonl" r; parse_u64 r.

(** [segment_seqs]; [None] when the directory cannot be listed. *)
Definition segment_seqs (dir : path) (m : gmap path node) : option (list Z) :=
  (fun names => cmp_sort (omap parse_segment names)) <$> read_dir dir m.

(** ** The state-and-error monad of [&mut self] methods *)

Definition SP (A : Type) : Type := EventSpool * fsys -> result A io_error * (EventSpool * fsys).

Definition sp_ret {A} (a : A) : SP A := fun s => (Ok a, s).
Definition sp_bind {A B} (m : SP A) (k : A -> SP B) : SP B :=
  fun s => match m s with (Ok a, s) => k a s | (Err e, s) => (Err e, s) end.
Definition sp_io {A} (m : IO io_error A) : SP A :=
  fun '(sp, s) => let '(r, s) := m s in (r, (sp, s)).
Definition sp_self : SP EventSpool := fun s => (Ok s.1, s).
Definition sp_set (f : EventSpool -> EventSpool) : SP unit := fun '(sp, s) => (Ok tt, (f sp, s)).
Notation "x '<-~' m ';' k" := (sp_bind m (fun x => k))
  (at level 20, m at level 100, k at level 200, right associativity) : edr_scope.
Notation "m ';;~' k" := (sp_bind m (fun _ => k))
  (at level 100, k at level 200, right associativity) : edr_scope.

Definition segment_path (sp : EventSpool) (seq : Z) : path := sp_dir sp ++ [segment_name seq].
Definition inflight_path (sp : EventSpool) (seq : Z) : path := sp_dir sp ++ [inflight_name seq].

(** [self.head_seq += 1; self.head_records = 0; self.head_bytes = 0]. *)
Definition rotate (sp : EventSpool) : EventSpool :=
  mkSpool (sp_dir sp) (sp_max_bytes sp) (sp_head_seq sp + 1) 0 0 (sp_dropped_records sp)
    (sp_in_flight sp).

Definition count_head (line_bytes : Z) (sp : EventSpool) : EventSpool :=
  mkSpool (sp_dir sp) (sp_max_bytes sp) (sp_head_seq sp) (sp_head_records sp + 1)
    (sp_head_bytes sp + line_bytes) (sp_dropped_records sp) (sp_in_flight sp).

Definition set_in_flight (f : option Z) (sp : EventSpool) : EventSpool :=
  mkSpool (sp_dir sp) (sp_max_bytes sp) (sp_head_seq sp) (sp_head_records sp) (sp_head_bytes sp)
    (sp_dropped_records sp) f.

Definition add_dropped (n : Z) (sp : EventSpool) : EventSpool :=
  mkSpool (sp_dir sp) (sp_max_bytes sp) (sp_head_seq sp) (sp_head_records sp) (sp_head_bytes sp)
    (sp_dropped_records sp + n) (sp_in_flight sp).

(** ** I/O helpers *)

(** [OpenOptions::create(true).append(true).open]. *)
Definition fs_open_append (p : path) : IO io_error unit :=
  syscall (fun m => match m !! p with
                    | Some (NFile _) => Ok (tt, m)
                    | Some _ => Err OtherIo
                    | None => if can_create p m then Ok (tt, <[p := NFile []]> m) else Err NotFound
                    end) untouched.

Definition append_at (p : path) (b : bytes) (m : gmap path node) : gmap path node :=
  match m !! p with Some (NFile old) => <[p := NFile (old ++ b)]> m | _ => m end.

(** [write_all] on the appending handle; a failure leaves a prefix written. *)
Definition fs_append (p : path) (b : bytes) : IO io_error unit :=
  syscall (fun m => Ok (tt, append_at p b m)) (fun n m => append_at p (take n b) m).

(** [sync_data]. *)
Definition fs_sync : IO io_error unit := syscall (fun m => Ok (tt, m)) untouched.

(** [fs::metadata(p).len()], zero when it fails. *)
Definition file_len (p : path) (m : gmap path node) : Z :=
  match m !! p with Some (NFile b) => Z.of_nat (length b) | _ => 0 end.

Definition list_seqs : SP (list Z) :=
  sp <-~ sp_self;
  o <-~ sp_io (io_get (segment_seqs (sp_dir sp)));
  match o with Some seqs => sp_ret seqs | None => sp_io (io_fail OtherIo) end.

(** [read_to_string(p).map(|c| c.lines().count()).unwrap_or(0)]. *)
Definition count_lines (p : path) : IO io_error Z :=
  io_on_err (b <-! fs_read_to_string p; io_ret (Z.of_nat (length (lines b)))) (fun _ => io_ret 0).

(** The bytes on disk that the cap counts. *)
Definition total_bytes (sp : EventSpool) (seqs : list Z) (m : gmap path node) : Z :=
  foldr Z.add 0 ((fun s => file_len (segment_path sp s) m) <$> seqs)
  + match sp_in_flight sp with Some seq => file_len (inflight_path sp seq) m | None => 0 end.

(** ** Operations *)

(** The shedding loop; each round deletes one segment, so one more round than
    there are segments is enough. *)
Fixpoint enforce_cap_loop (fuel : nat) : SP unit :=
  match fuel with
  | O => sp_ret tt
  | S fuel =>
      sp <-~ sp_self;
      seqs <-~ list_seqs;
      total <-~ sp_io (io_get (total_bytes sp seqs));
      if total <=? sp_max_bytes sp then sp_ret tt else
      match seqs with
      | [] => sp_ret tt
      | oldest :: _ =>
          if bool_decide (Some oldest = sp_in_flight sp) then sp_ret tt
          else if oldest =? sp_head_seq sp then sp_ret tt
          else
            dropped <-~ sp_io (count_lines (segment_path sp oldest));
            sp_io (fs_remove_file (segment_path sp oldest)) ;;~
            sp_set (add_dropped dropped) ;;~
            enforce_cap_loop fuel
      end
  end.

Definition enforce_cap : SP unit := seqs <-~ list_seqs; enforce_cap_loop (S (length seqs)).

Section Operations.
Context {T : Type} `{SerdeLine T}.

Definition push (record : T) : SP unit :=
  let line := to_line record in
  let line_bytes := Z.of_nat (length line) + 1 in
  sp_set (fun sp =>
    if (0 <? sp_head_records sp) && (SEGMENT_MAX_BYTES <? sp_head_bytes sp + line_bytes)
    then rotate sp else sp) ;;~
  sp <-~ sp_self;
  let p := segment_path sp (sp_head_seq sp) in
  sp_io (fs_open_append p) ;;~
  sp_io (fs_append p line) ;;~
  sp_io (fs_append p [NEWLINE]) ;;~
  sp_io fs_sync ;;~
  sp_set (count_head line_bytes) ;;~
  sp_set (fun sp => if SEGMENT_RECORDS <=? sp_head_records sp then rotate sp else sp) ;;~
  enforce_cap.

Definition parse_lines (content : bytes) : list T :=
  omap from_line (filter (fun l => is_blank l = false) (lines content)).

Definition drain_oldest : SP (list T) :=
  sp <-~ sp_self;
  match sp_in_flight sp with
  | Some seq =>
      content <-~ sp_io (fs_read_to_string (inflight_path sp seq));
      sp_ret (parse_lines content)
  | None =>
      seqs <-~ list_seqs;
      match seqs with
      | [] => sp_ret []
      | seq :: _ =>
          let p := segment_path sp seq in
          content <-~ sp_io (fs_read_to_string p);
          sp_io (fs_rename p (inflight_path sp seq)) ;;~
          sp_set (set_in_flight (Some seq)) ;;~
          sp_set (fun sp => if seq =? sp_head_seq sp then rotate sp else sp) ;;~
          sp_ret (parse_lines content)
      end
  end.
End Operations.

Definition spool_ack : SP bool :=
  sp <-~ sp_self;
  match sp_in_flight sp with
  | None => sp_ret false
  | Some seq =>
      sp_io (fs_remove_file (inflight_path sp seq)) ;;~
      sp_set (set_in_flight None) ;;~
      sp_ret true
  end.

Definition spool_skip : SP bool :=
  sp <-~ sp_self;
  match sp_in_flight sp with
  | None => sp_ret false
  | Some seq =>
      dropped <-~ sp_io (count_lines (inflight_path sp seq));
      sp_io (fs_remove_file (inflight_path sp seq)) ;;~
      sp_set (set_in_flight None) ;;~
      sp_set (add_dropped dropped) ;;~
      sp_ret true
  end.

Definition has_in_flight (sp : EventSpool) : bool := bool_decide (is_Some (sp_in_flight sp)).

Definition spool_stats (sp : EventSpool) (m : gmap path node) : SpoolStats :=
  mkSpoolStats (total_bytes sp (default [] (segment_seqs (sp_dir sp) m)) m) (sp_dropped_records sp).

(** [open]: recover what a crash left in flight, then start a fresh segment. *)
Fixpoint recover (dir : path) (names : list string) : IO io_error unit :=
  match names with
  | [] => io_ret tt
  | name :: names =>
      match strip_suffix ".inflight" name with
      | Some base => fs_rename (dir ++ [name]) (dir ++ [(base +:+ ".jsonl")%string])
      | None => io_ret tt
      end ;;! recover dir names
  end.

Definition spool_open (dir : path) (max_bytes : Z) : IO io_error EventSpool :=
  fs_create_dir_all dir ;;!
  names <-! io_get (read_dir dir);
  match names with
  | None => io_fail OtherIo
  | Some names =>
      recover dir names ;;!
      seqs <-! io_get (segment_seqs dir);
      match seqs with
      | None => io_fail OtherIo
      | Some seqs =>
          io_ret (mkSpool dir max_bytes (match last seqs with Some s => s + 1 | None => 0 end)
                    0 0 0 None)
      end
  end.

(** ** Lemmas on names *)

Lemma zeros_digits n s : str_all is_digit (zeros n +:+ s)%string = str_all is_digit s.
Proof. induction n as [|n IH]; [done|]. exact IH. Qed.

Lemma uint_zeros n s :
  DecimalString.NilEmpty.uint_of_string (zeros n +:+ s)%string =
  (fun d => Nat.iter n Decimal.D0 d) <$> DecimalString.NilEmpty.uint_of_string s.
Proof.
  induction n as [|n IH].
  { change (zeros 0 +:+ s)%string with s. by destruct (DecimalString.NilEmpty.uint_of_string s). }
  change (zeros (S n) +:+ s)%string with (String "0"%char (zeros n +:+ s))%string.
  simpl. rewrite IH. by destruct (DecimalString.NilEmpty.uint_of_string s).
Qed.

Lemma of_uint_zeros n d : N.of_uint (Nat.iter n Decimal.D0 d) = N.of_uint d.
Proof. induction n as [|n IH]; [done|]. exact IH. Qed.

Lemma zeros_show_shape n d :
  d <> Decimal.Nil ->
  strip_prefix "+" (zeros n +:+ DecimalString.NilEmpty.string_of_uint d)%string = None /\
  String.eqb (zeros n +:+ DecimalString.NilEmpty.string_of_uint d)%string EmptyString = false.
Proof. intros Hd. destruct n; [|done]. by destruct d. Qed.

Lemma parse_show_12 z : 0 <= z <= U64_MAX -> parse_u64 (show_u64_12 z) = Some z.
Proof.
  intros Hz. pose proof (parse_show z Hz) as Hp. revert Hp.
  unfold parse_u64, show_u64_12, show_u64. set (d := N.to_uint (Z.to_N z)).
  set (n := (12 - _)%nat).
  pose proof (to_uint_nonnil (Z.to_N z)) as Hd. fold d in Hd.
  destruct (zeros_show_shape n d Hd) as [-> ->]. destruct (zeros_show_shape 0 d Hd) as [E1 E2].
  change (zeros 0 +:+ ?s)%string with s in E1, E2. rewrite E1, E2.
  rewrite zeros_digits, string_of_uint_digits, uint_zeros.
  rewrite DecimalString.NilEmpty.usu. simpl. by rewrite of_uint_zeros.
Qed.

Lemma app_last_char s1 s2 c1 c2 :
  (s1 +:+ String c1 EmptyString = s2 +:+ String c2 EmptyString)%string -> c1 = c2.
Proof.
  revert s2. induction s1 as [|a s1 IH]; intros [|b s2] E.
  - by injection E.
  - exfalso. injection E as _ E. by destruct s2.
  - exfalso. injection E as _ E. by destruct s1.
  - apply (IH s2). by injection E.
Qed.

Lemma strip_suffix_other s p q c1 c2 :
  c1 <> c2 ->
  strip_suffix (p +:+ String c1 EmptyString)%string (s +:+ (q +:+ String c2 EmptyString))%string = None.
Proof.
  intros Hne. destruct (strip_suffix _ _) as [r|] eqn:E; [|done]. exfalso.
  apply strip_suffix_some in E. rewrite <- !str_app_assoc in E. by apply app_last_char in E.
Qed.

Lemma parse_segment_name z : 0 <= z <= U64_MAX -> parse_segment (segment_name z) = Some z.
Proof.
  intros Hz. unfold parse_segment, segment_name.
  assert (strip_prefix "spool-" ("spool-" +:+ (show_u64_12 z +:+ ".jsonl"))%string =
          Some (show_u64_12 z +:+ ".jsonl")%string) as -> by (by apply strip_prefix_spec).
  simpl. rewrite strip_suffix_app. simpl. by apply parse_show_12.
Qed.

Lemma parse_inflight_name z : parse_segment (inflight_name z) = None.
Proof.
  unfold parse_segment, inflight_name.
  assert (strip_prefix "spool-" ("spool-" +:+ (show_u64_12 z +:+ ".inflight"))%string =
          Some (show_u64_12 z +:+ ".inflight")%string) as -> by (by apply strip_prefix_spec).
  simpl. change ".jsonl" with (".json" +:+ "l")%string. change ".inflight" with (".infligh" +:+ "t")%string.
  by rewrite strip_suffix_other.
Qed.

Lemma segment_inflight_ne a b : 0 <= a <= U64_MAX -> segment_name a <> inflight_name b.
Proof.
  intros Ha E. pose proof (parse_segment_name a Ha) as H1. rewrite E, parse_inflight_name in H1. done.
Qed.

Lemma segment_name_inj a b :
  0 <= a <= U64_MAX -> 0 <= b <= U64_MAX -> segment_name a = segment_name b -> a = b.
Proof. intros Ha Hb E. apply parse_segment_name in Ha, Hb. congruence. Qed.

Lemma inflight_base z :
  strip_suffix ".inflight" (inflight_name z) = Some ("spool-" +:+ show_u64_12 z)%string.
Proof.
  unfold inflight_name. rewrite <- str_app_assoc. apply strip_suffix_app.
Qed.

Lemma segment_not_inflight z : strip_suffix ".inflight" (segment_name z) = None.
Proof.
  unfold segment_name. change ".inflight" with (".infligh" +:+ "t")%string.
  change ".jsonl" with (".json" +:+ "l")%string. rewrite <- str_app_assoc.
  by rewrite strip_suffix_other.
Qed.

(** ** The queue a directory holds *)

(** The directory exists, with every directory above it. *)
Definition dirs_ok (d : path) (m : gmap path node) : Prop :=
  forall p, under p d -> m !! p = Some NDir.

Lemma dirs_ok_is_dir d m : dirs_ok d m -> is_dir d m = true.
Proof. intros Hd. unfold is_dir. by rewrite (Hd d (under_refl d)). Qed.

Lemma child_not_above (d p : path) (n : string) : under p d -> p <> d ++ [n].
Proof.
  intros [k E] E'. apply (f_equal length) in E. rewrite E', !length_app in E. simpl in E. lia.
Qed.

Lemma dirs_ok_insert (d : path) (n : string) (x : node) (m : gmap path node) :
  dirs_ok d m -> dirs_ok d (<[d ++ [n] := x]> m).
Proof.
  intros Hd p Hp. rewrite lookup_insert_ne; [by apply Hd|]. apply not_eq_sym. by apply child_not_above.
Qed.

Lemma dirs_ok_delete (d : path) (n : string) (m : gmap path node) :
  dirs_ok d m -> dirs_ok d (delete (d ++ [n]) m).
Proof.
  intros Hd p Hp. rewrite lookup_delete_ne; [by apply Hd|]. apply not_eq_sym. by apply child_not_above.
Qed.

Lemma create_dirs_ok todo done_ m :
  dirs_ok (done_ ++ todo) m -> create_dirs todo done_ m = Ok (tt, m).
Proof.
  revert done_. induction todo as [|c todo IH]; intros d Hd; cbn [create_dirs]; [done|].
  assert (d ++ c :: todo = (d ++ [c]) ++ todo) as E by (by rewrite <- app_assoc). rewrite E in Hd.
  rewrite (Hd (d ++ [c])) by apply under_app. by apply IH.
Qed.

Section Queue.
Context {T : Type} `{SerdeLine T}.
Implicit Types (Q : list (Z * list T)) (F : option (Z * list T)).

(** The text of a segment. *)
Definition text (rs : list T) : bytes := unlines (to_line <$> rs).

(** [sp] on [m] holds the queued segments [Q], oldest first, and the segment
    [F] in flight; nothing else is in the directory. *)
Record rep (sp : EventSpool) (m : gmap path node) Q F : Prop := {
  rep_dir : dirs_ok (sp_dir sp) m;
  rep_files : forall name x, m !! (sp_dir sp ++ [name]) = Some x <->
    (exists seq rs, (seq, rs) ∈ Q /\ name = segment_name seq /\ x = NFile (text rs)) \/
    (exists seq rs, F = Some (seq, rs) /\ name = inflight_name seq /\ x = NFile (text rs));
  rep_sorted : StronglySorted (fun a b => a.1 < b.1) Q;
  rep_seqs : forall seq rs, (seq, rs) ∈ Q -> 0 <= seq <= sp_head_seq sp;
  rep_head : forall rs, (sp_head_seq sp, rs) ∈ Q ->
    sp_head_records sp = Z.of_nat (length rs) /\ sp_head_bytes sp = Z.of_nat (length (text rs));
  rep_nohead : (forall rs, (sp_head_seq sp, rs) ∉ Q) -> sp_head_records sp = 0 /\ sp_head_bytes sp = 0;
  rep_flight : sp_in_flight sp = fst <$> F;
  rep_older : forall seq rs, F = Some (seq, rs) ->
    0 <= seq < sp_head_seq sp /\ forall seq' rs', (seq', rs') ∈ Q -> seq < seq';
  rep_bound : 0 <= sp_head_seq sp <= U64_MAX }.

Definition queued Q : list T := concat Q.*2.
Definition flying F : list T := match F with Some (_, rs) => rs | None => [] end.

Lemma text_lines rs : lines (text rs) = to_line <$> rs.
Proof.
  apply lines_unlines. apply Forall_fmap, Forall_true. intros r. split; [apply line_no_newline|apply line_no_cr].
Qed.

Lemma text_utf8 rs : utf8_valid (text rs) = true.
Proof. apply utf8_unlines, Forall_fmap, Forall_true. intros r. apply line_utf8. Qed.

Lemma text_parse rs : parse_lines (text rs) = rs.
Proof.
  unfold parse_lines. rewrite text_lines. induction rs as [|r rs IH]; [done|].
  rewrite fmap_cons, filter_cons_True by apply line_not_blank. simpl.
  rewrite from_to_line. f_equal. exact IH.
Qed.

Lemma text_snoc rs r : text (rs ++ [r]) = (text rs ++ to_line r) ++ [NEWLINE].
Proof. unfold text. rewrite fmap_app. simpl. rewrite unlines_snoc. by rewrite app_assoc. Qed.

Lemma rep_seq_bound sp m Q F seq rs : rep sp m Q F -> (seq, rs) ∈ Q -> 0 <= seq <= U64_MAX.
Proof. intros Hr Hin. pose proof (rep_seqs _ _ _ _ Hr _ _ Hin). pose proof (rep_bound _ _ _ _ Hr). lia. Qed.

Lemma sorted_fst_nodup Q : StronglySorted (fun a b => a.1 < b.1) Q -> NoDup Q.*1.
Proof.
  induction 1 as [|[s rs] Q Hs IH Hall]; [apply NoDup_nil_2|]. rewrite fmap_cons. simpl.
  apply NoDup_cons. split; [|done]. intros Hin. apply list_elem_of_fmap in Hin as ([s' rs'] & -> & Hin).
  rewrite Forall_forall in Hall. specialize (Hall _ Hin). simpl in Hall. lia.
Qed.

Lemma sorted_fst_cmp Q : StronglySorted (fun a b => a.1 < b.1) Q -> StronglySorted cmp_le Q.*1.
Proof.
  induction 1 as [|[s rs] Q Hs IH Hall]; [constructor|]. rewrite fmap_cons. constructor; [done|].
  apply Forall_fmap. eapply Forall_impl; [exact Hall|]. intros x Hx. apply Z_cmp_le. simpl in *. lia.
Qed.

(** The entries of a directory. *)
Lemma read_dir_spec dir m :
  is_dir dir m = true ->
  exists names, read_dir dir m = Some names /\ NoDup names /\
    forall n, n ∈ names <-> is_Some (m !! (dir ++ [n])).
Proof.
  intros Hd. unfold read_dir. rewrite Hd. eexists. split; [done|].
  assert (forall (p : path) n, child_of dir p = Some n <-> p = dir ++ [n]) as Hc.
  { intros p n. unfold child_of. destruct (last p) as [c|] eqn:El.
    - apply last_Some in El as [k ->]. rewrite removelast_last. case_decide as Hk; [subst k|].
      + split; [intros [= ->]; done|]. intros E. apply app_inv_head in E. congruence.
      + split; [done|]. intros E. apply app_inj_tail in E as [-> _]. done.
    - split; [done|]. intros ->. by rewrite last_snoc in El. }
  split.
  - apply NoDup_omap_inj; [|apply NoDup_map_to_list]. intros [p x] [q y] n Hp Hq Ep Eq.
    simpl in Ep, Eq. apply Hc in Ep, Eq. subst p q.
    apply elem_of_map_to_list in Hp, Hq. congruence.
  - intros n. rewrite list_elem_of_omap. split.
    + intros ([p x] & Hin & E). simpl in E. apply Hc in E. subst p.
      apply elem_of_map_to_list in Hin. eauto.
    + intros [x Hx]. exists (dir ++ [n], x). split; [by apply elem_of_map_to_list|]. by apply Hc.
Qed.

Lemma rep_list sp m Q F : rep sp m Q F -> segment_seqs (sp_dir sp) m = Some Q.*1.
Proof.
  intros Hr. destruct (read_dir_spec (sp_dir sp) m (dirs_ok_is_dir _ _ (rep_dir _ _ _ _ Hr))) as (names & Hn & Hnd & Hin).
  unfold segment_seqs. rewrite Hn. simpl. f_equal.
  assert (forall n z, n ∈ names -> parse_segment n = Some z ->
    exists rs, (z, rs) ∈ Q /\ n = segment_name z) as Hparse.
  { intros n z Hni Hp. apply Hin in Hni as [x Hx].
    apply (rep_files _ _ _ _ Hr) in Hx as [(seq & rs & Hq & -> & _)|(seq & rs & _ & -> & _)].
    - rewrite parse_segment_name in Hp by (by eapply rep_seq_bound). simplify_eq. eauto.
    - by rewrite parse_inflight_name in Hp. }
  apply (StronglySorted_unique cmp_le).
  - apply cmp_sort_sorted.
  - by apply sorted_fst_cmp, Hr.
  - rewrite cmp_sort_perm. apply NoDup_Permutation.
    + apply NoDup_omap_inj; [|done]. intros n n' z Hni Hni' Hp Hp'.
      destruct (Hparse n z Hni Hp) as (? & _ & ->), (Hparse n' z Hni' Hp') as (? & _ & ->). done.
    + by apply sorted_fst_nodup, Hr.
    + intros z. rewrite list_elem_of_omap, list_elem_of_fmap. split.
      * intros (n & Hni & Hp). destruct (Hparse n z Hni Hp) as (rs & Hq & _). by exists (z, rs).
      * intros ([seq rs] & -> & Hq). exists (segment_name seq). split.
        -- apply Hin. exists (NFile (text rs)). apply (rep_files _ _ _ _ Hr). left. eauto.
        -- apply parse_segment_name. by eapply rep_seq_bound.
Qed.

(** *** Running without I/O failures *)

Definition quiet (m : gmap path node) : fsys := mkFs m [].

Lemma sp_io_syscall {A : Type} ok broken sp m :
  sp_io (@syscall A ok broken) (sp, quiet m) =
  match ok m with
  | Ok (a, m') => (Ok a, (sp, quiet m'))
  | Err e => (Err e, (sp, quiet m))
  end.
Proof. unfold sp_io, quiet. rewrite syscall_ok. by destruct (ok m) as [[]|]. Qed.

Lemma read_text sp m p rs :
  m !! p = Some (NFile (text rs)) ->
  sp_io (fs_read_to_string p) (sp, quiet m) = (Ok (text rs), (sp, quiet m)).
Proof.
  intros Hm. unfold sp_io, fs_read_to_string, io_bind, fs_read, quiet. rewrite syscall_ok, Hm.
  by rewrite text_utf8.
Qed.

Lemma count_text sp m p rs :
  m !! p = Some (NFile (text rs)) ->
  sp_io (count_lines p) (sp, quiet m) = (Ok (Z.of_nat (length rs)), (sp, quiet m)).
Proof.
  intros Hm. unfold sp_io, count_lines, io_on_err, fs_read_to_string, io_bind, fs_read, quiet.
  rewrite syscall_ok, Hm, text_utf8. cbn [io_ret]. by rewrite text_lines, length_fmap.
Qed.

Lemma remove_leaf sp m p b :
  m !! p = Some (NFile b) -> sp_io (fs_remove_file p) (sp, quiet m) = (Ok tt, (sp, quiet (delete p m))).
Proof. intros Hm. unfold fs_remove_file. by rewrite sp_io_syscall, Hm. Qed.

Lemma child_neq (d : path) a b : a <> b -> d ++ [a] <> d ++ [b].
Proof. intros Hne E. apply app_inv_head in E. congruence. Qed.

Lemma child_dir_neq (d : path) a : d ++ [a] <> d.
Proof. intros E. apply (f_equal length) in E. rewrite length_app in E. simpl in E. lia. Qed.

Lemma rename_sibling sp m d a b x :
  is_dir d m = true -> m !! (d ++ [a]) = Some (NFile x) -> m !! (d ++ [b]) <> Some NDir -> a <> b ->
  sp_io (fs_rename (d ++ [a]) (d ++ [b])) (sp, quiet m) =
  (Ok tt, (sp, quiet (<[d ++ [b] := NFile x]> (delete (d ++ [a]) m)))).
Proof.
  intros Hd Ha Hb Hne. unfold fs_rename. rewrite sp_io_syscall.
  rewrite decide_False by (by apply child_neq).
  rewrite decide_False; [|].
  - unfold can_create. rewrite parent_snoc, Hd, Ha. simpl.
    destruct (m !! (d ++ [b])) as [[]|]; done.
  - intros [[k E]|[k E]]; rewrite <- app_assoc in E; apply app_inv_head in E; destruct k; simplify_eq/=.
Qed.

Lemma rep_lookup sp m Q F seq rs :
  rep sp m Q F -> (seq, rs) ∈ Q -> m !! segment_path sp seq = Some (NFile (text rs)).
Proof. intros Hr Hin. apply (rep_files _ _ _ _ Hr). left. eauto. Qed.

Lemma rep_lookup_flight sp m Q seq rs :
  rep sp m Q (Some (seq, rs)) -> m !! inflight_path sp seq = Some (NFile (text rs)).
Proof. intros Hr. apply (rep_files _ _ _ _ Hr). right. eauto. Qed.

Lemma elem_seq_unique Q seq rs rs' :
  StronglySorted (fun a b => a.1 < b.1) Q -> (seq, rs) ∈ Q -> (seq, rs') ∈ Q -> rs = rs'.
Proof.
  induction 1 as [|[s r] Q Hs IH Hall]; [set_solver|]. rewrite Forall_forall in Hall.
  intros [E1|H1]%elem_of_cons [E2|H2]%elem_of_cons; simplify_eq; [done| | |by apply IH].
  - specialize (Hall _ H2). simpl in Hall. lia.
  - specialize (Hall _ H1). simpl in Hall. lia.
Qed.

Lemma rep_rotate sp m Q F : rep sp m Q F -> sp_head_seq sp < U64_MAX -> rep (rotate sp) m Q F.
Proof.
  intros [H1 H2 H3 H4 H5 H6 H7 H8 H9] Hlt. split; cbn [rotate sp_dir sp_head_seq sp_in_flight]; try done.
  - intros seq rs Hin. specialize (H4 seq rs Hin). lia.
  - intros rs Hin. specialize (H4 _ _ Hin). lia.
  - intros seq rs HF. destruct (H8 seq rs HF). split; [lia|done].
  - lia.
Qed.

(** *** The oldest segment leaves the queue *)

Lemma rep_pop_files sp m seq rs Q F x :
  rep sp m ((seq, rs) :: Q) F -> forall name,
  delete (segment_path sp seq) m !! (sp_dir sp ++ [name]) = Some x <->
    (exists s r, (s, r) ∈ Q /\ name = segment_name s /\ x = NFile (text r)) \/
    (exists s r, F = Some (s, r) /\ name = inflight_name s /\ x = NFile (text r)).
Proof.
  intros Hr name. pose proof (rep_sorted _ _ _ _ Hr) as Hs.
  apply StronglySorted_inv in Hs as [_ Hall]. rewrite Forall_forall in Hall.
  assert (0 <= seq <= U64_MAX) as Hb by (by apply (rep_seq_bound sp m ((seq, rs) :: Q) F seq rs Hr), elem_of_cons; left).
  unfold segment_path. destruct (decide (name = segment_name seq)) as [->|Hne].
  - rewrite lookup_delete_eq. split; [done|]. intros [(s & r & Hin & E & _)|(s & r & _ & E & _)].
    + assert (s = seq) as ->; [|specialize (Hall _ Hin); simpl in Hall; lia].
      symmetry. apply segment_name_inj; [done|by apply (rep_seq_bound sp m _ F s r Hr), elem_of_cons; right|done].
    + by apply segment_inflight_ne in E.
  - rewrite lookup_delete_ne by (apply child_neq; congruence). rewrite (rep_files _ _ _ _ Hr).
    split; (intros [(s & r & Hin & E & ?)|?]; [left|by right]); exists s, r.
    + apply elem_of_cons in Hin as [[= -> ->]|?]; [done|done].
    + split; [set_solver|done].
Qed.

Lemma rep_shed sp m seq rs Q F n :
  rep sp m ((seq, rs) :: Q) F -> seq <> sp_head_seq sp ->
  rep (add_dropped n sp) (delete (segment_path sp seq) m) Q F.
Proof.
  intros Hr Hne. pose proof (fun x => rep_pop_files sp m seq rs Q F x Hr) as Hf.
  destruct Hr as [H1 H2 H3 H4 H5 H6 H7 H8 H9].
  apply StronglySorted_inv in H3 as [H3 _].
  split; cbn [add_dropped sp_dir sp_head_seq sp_in_flight sp_head_records sp_head_bytes]; try done.
  - by apply dirs_ok_delete.
  - intros s r Hin. apply (H4 s r). set_solver.
  - intros r Hin. apply (H5 r). set_solver.
  - intros Hno. apply H6. intros r Hin. apply elem_of_cons in Hin as [[= E _]|Hin]; [congruence|].
    by apply (Hno r).
  - intros s r HF. destruct (H8 s r HF) as [? Hlt]. split; [done|]. intros s' r' Hin. apply (Hlt s' r'). set_solver.
Qed.

Lemma list_seqs_rep sp m Q F :
  rep sp m Q F -> list_seqs (sp, quiet m) = (Ok Q.*1, (sp, quiet m)).
Proof.
  intros Hr. unfold list_seqs, sp_bind, sp_self, sp_io, io_get. simpl.
  by rewrite (rep_list sp m Q F Hr).
Qed.

(** The cap is met, or nothing is left to shed but the active segment. *)
Definition capped (sp : EventSpool) (m : gmap path node) Q : Prop :=
  total_bytes sp Q.*1 m <= sp_max_bytes sp \/ Q = [] \/ exists rs, head Q = Some (sp_head_seq sp, rs).

(** What shedding leaves alone. *)
Definition same_head (sp sp' : EventSpool) : Prop :=
  sp_dir sp' = sp_dir sp /\ sp_max_bytes sp' = sp_max_bytes sp /\ sp_head_seq sp' = sp_head_seq sp.

Lemma enforce_cap_rep fuel sp m Q F :
  rep sp m Q F -> (length Q < fuel)%nat ->
  exists k sp' m', enforce_cap_loop fuel (sp, quiet m) = (Ok tt, (sp', quiet m')) /\
    rep sp' m' (drop k Q) F /\
    sp_dropped_records sp' = sp_dropped_records sp + Z.of_nat (length (queued (take k Q))) /\
    same_head sp sp' /\ capped sp' m' (drop k Q).
Proof.
  revert sp m Q. induction fuel as [|fuel IH]; intros sp m Q Hr Hlen; [lia|].
  cbn [enforce_cap_loop]. unfold sp_bind at 1, sp_self at 1. cbn [fst].
  unfold sp_bind at 1. rewrite (list_seqs_rep sp m Q F Hr).
  unfold sp_bind at 1, sp_io at 1, io_get at 1, quiet at 1. cbn [nodes]. fold (quiet m).
  destruct (Z.leb_spec (total_bytes sp Q.*1 m) (sp_max_bytes sp)) as [Hle|Hgt].
  { exists 0%nat, sp, m. rewrite drop_0, take_0. simpl. split_and!; [done|done|lia|done|by left]. }
  destruct Q as [|[oldest rs] Q].
  { exists 0%nat, sp, m. rewrite drop_0, take_0. simpl. split_and!; [done|done|lia|done|by right; left]. }
  rewrite fmap_cons. cbn [fst].
  rewrite bool_decide_false.
  2:{ rewrite (rep_flight _ _ _ _ Hr). destruct F as [[seq r]|]; [|done]. simpl. intros [= <-].
      destruct (rep_older _ _ _ _ Hr oldest r eq_refl) as [_ Hlt].
      specialize (Hlt oldest rs ltac:(apply elem_of_cons; by left)). lia. }
  destruct (Z.eqb_spec oldest (sp_head_seq sp)) as [->|Hne].
  { exists 0%nat, sp, m. rewrite drop_0, take_0. simpl. split_and!; [done|done|lia|done|]. right. right. eauto. }
  assert (m !! segment_path sp oldest = Some (NFile (text rs))) as Hm
    by (eapply rep_lookup; [exact Hr|apply elem_of_cons; by left]).
  unfold sp_bind at 1. rewrite (count_text _ _ _ rs Hm).
  unfold sp_bind at 1. rewrite (remove_leaf _ _ _ _ Hm).
  unfold sp_bind at 1, sp_set at 1.
  destruct (IH (add_dropped (Z.of_nat (length rs)) sp) (delete (segment_path sp oldest) m) Q)
    as (k & sp' & m' & -> & Hr' & Hd & Hsame & Hcap); [by eapply rep_shed|simpl in Hlen; lia|].
  exists (S k), sp', m'. rewrite skipn_cons, firstn_cons. split_and!; [done|done| |done|done].
  unfold queued. rewrite fmap_cons. cbn [snd concat]. rewrite length_app.
  rewrite Hd. cbn [add_dropped sp_dropped_records]. unfold queued. lia.
Qed.

(** *** Appending *)

(** The active segment [rs0] is the last one of the queue, or not there yet. *)
Definition head_split (sp : EventSpool) (m : gmap path node) Q (Q0 : list (Z * list T)) (rs0 : list T) : Prop :=
  (forall s rs, (s, rs) ∈ Q0 -> s < sp_head_seq sp) /\
  ((Q = Q0 ++ [(sp_head_seq sp, rs0)] /\
    m !! segment_path sp (sp_head_seq sp) = Some (NFile (text rs0))) \/
   (Q = Q0 /\ rs0 = [] /\ m !! segment_path sp (sp_head_seq sp) = None)).

Lemma rep_head_split sp m Q F :
  rep sp m Q F -> exists Q0 rs0, head_split sp m Q Q0 rs0 /\
    sp_head_records sp = Z.of_nat (length rs0) /\ sp_head_bytes sp = Z.of_nat (length (text rs0)).
Proof.
  intros Hr. pose proof (rep_sorted _ _ _ _ Hr) as Hs. pose proof (rep_seqs _ _ _ _ Hr) as Hb.
  assert ((forall s rs, (s, rs) ∈ Q -> s < sp_head_seq sp) -> exists Q0 rs0,
    head_split sp m Q Q0 rs0 /\ sp_head_records sp = Z.of_nat (length rs0) /\
    sp_head_bytes sp = Z.of_nat (length (text rs0))) as Hnew.
  { intros Hlt. exists Q, []. split; [split; [done|]|].
    - right. split_and!; [done..|]. destruct (m !! _) as [x|] eqn:E; [|done]. exfalso.
      apply (rep_files _ _ _ _ Hr) in E as [(s & rs & Hin & E & _)|(s & rs & HF & E & _)].
      + apply segment_name_inj in E; [specialize (Hlt _ _ Hin); lia|apply Hr|by eapply rep_seq_bound].
      + apply segment_inflight_ne in E; [done|apply Hr].
    - apply (rep_nohead _ _ _ _ Hr). intros rs Hin. specialize (Hlt _ _ Hin). lia. }
  destruct (destruct_last Q) as [->|(Q0 & [t ts] & ->)]; [apply Hnew; set_solver|].
  assert (forall s rs, (s, rs) ∈ Q0 -> s < t) as Hlt.
  { intros s rs Hin.
    assert ((s, rs).1 < (t, ts).1) as Hx; [|done].
    eapply (StronglySorted_app_1_elem_of (fun a b : Z * list T => a.1 < b.1)); [exact Hs|done|].
    by apply list_elem_of_singleton. }
  assert ((t, ts) ∈ Q0 ++ [(t, ts)]) as Ht by (apply elem_of_app; right; by apply list_elem_of_singleton).
  destruct (decide (t = sp_head_seq sp)) as [->|Hne].
  - exists Q0, ts. split; [split; [done|]|by apply (rep_head _ _ _ _ Hr)].
    left. split; [done|]. by eapply rep_lookup.
  - apply Hnew. intros s rs Hin. specialize (Hb t ts Ht). apply elem_of_app in Hin as [Hin|Hin].
    + specialize (Hlt _ _ Hin). lia.
    + apply list_elem_of_singleton in Hin as [= -> ->]. lia.
Qed.

Lemma rep_append sp m Q F Q0 rs0 r :
  rep sp m Q F -> head_split sp m Q Q0 rs0 ->
  sp_head_records sp = Z.of_nat (length rs0) -> sp_head_bytes sp = Z.of_nat (length (text rs0)) ->
  rep (count_head (Z.of_nat (length (to_line r)) + 1) sp)
    (<[segment_path sp (sp_head_seq sp) := NFile (text (rs0 ++ [r]))]> m)
    (Q0 ++ [(sp_head_seq sp, rs0 ++ [r])]) F.
Proof.
  intros Hr [Hlt HQ] Hrec Hbyt. pose proof Hr as [H1 H2 H3 H4 H5 H6 H7 H8 H9].
  assert (forall s rs, (s, rs) ∈ Q0 -> (s, rs) ∈ Q) as Hsub.
  { intros s rs Hin. destruct HQ as [[-> _]|[-> _]]; [apply elem_of_app; by left|done]. }
  assert (forall rs, (sp_head_seq sp, rs) ∉ Q0) as Hno.
  { intros rs Hin. specialize (Hlt _ _ Hin). lia. }
  split; cbn [count_head sp_dir sp_head_seq sp_in_flight sp_head_records sp_head_bytes]; try done.
  - by apply dirs_ok_insert.
  - intros name x. unfold segment_path. destruct (decide (name = segment_name (sp_head_seq sp))) as [->|Hne].
    + rewrite lookup_insert_eq. split.
      * intros [= <-]. left. do 2 eexists. split; [apply elem_of_app; right; by apply list_elem_of_singleton|done].
      * intros [(s & rs & Hin & E & ->)|(s & rs & HF & E & ->)]; [|by apply segment_inflight_ne in E].
        apply elem_of_app in Hin as [Hin|Hin].
        -- apply segment_name_inj in E; [|done|eapply rep_seq_bound; [exact Hr|by apply Hsub]].
           subst s. by apply Hno in Hin.
        -- apply list_elem_of_singleton in Hin as [= -> ->]. done.
    + rewrite lookup_insert_ne by (apply child_neq; congruence). rewrite H2.
      split; (intros [(s & rs & Hin & E & ->)|?]; [left|by right]); exists s, rs; (split; [|done]).
      * destruct HQ as [[-> _]|[-> _]]; [|apply elem_of_app; by left].
        apply elem_of_app in Hin as [Hin|Hin]; [apply elem_of_app; by left|].
        apply list_elem_of_singleton in Hin as [= -> ->]. done.
      * apply elem_of_app in Hin as [Hin|Hin]; [by apply Hsub|].
        apply list_elem_of_singleton in Hin as [= -> ->]. done.
  - apply StronglySorted_app_2.
    + intros [s rs] y Hin Hy%list_elem_of_singleton. subst y. by eapply Hlt.
    + destruct HQ as [[-> _]|[-> _]]; [by eapply StronglySorted_app_1_l|done].
    + repeat constructor.
  - intros s rs Hin. apply elem_of_app in Hin as [Hin|Hin]; [by eapply H4, Hsub|].
    apply list_elem_of_singleton in Hin as [= -> ->]. lia.
  - intros rs Hin. apply elem_of_app in Hin as [Hin|Hin]; [by apply Hno in Hin|].
    apply list_elem_of_singleton in Hin as [= ->].
    rewrite text_snoc, !length_app. simpl. lia.
  - intros Hno'. exfalso. eapply Hno'. apply elem_of_app. right. by apply list_elem_of_singleton.
  - intros s rs HF. destruct (H8 s rs HF) as [? Hold]. split; [done|]. intros s' rs' Hin.
    apply elem_of_app in Hin as [Hin|Hin]; [by eapply Hold, Hsub|].
    apply list_elem_of_singleton in Hin as [= -> ->]. lia.
Qed.

(** Opening, writing the line and its newline, and syncing. *)
Lemma append_record sp m Q Q0 rs0 r :
  is_dir (sp_dir sp) m = true -> head_split sp m Q Q0 rs0 ->
  let p := segment_path sp (sp_head_seq sp) in
  exists m1, sp_io (fs_open_append p) (sp, quiet m) = (Ok tt, (sp, quiet m1)) /\
  sp_io (fs_append p (to_line r)) (sp, quiet m1) =
    (Ok tt, (sp, quiet (<[p := NFile (text rs0 ++ to_line r)]> m))) /\
  sp_io (fs_append p [NEWLINE]) (sp, quiet (<[p := NFile (text rs0 ++ to_line r)]> m)) =
    (Ok tt, (sp, quiet (<[p := NFile (text (rs0 ++ [r]))]> m))).
Proof.
  intros Hd [_ HQ] p.
  exists (<[p := NFile (text rs0)]> m). unfold fs_open_append, fs_append, append_at.
  rewrite !sp_io_syscall. split_and!.
  - destruct HQ as [[_ Hm]|(_ & -> & Hm)]; fold p in Hm; rewrite Hm.
    + by rewrite insert_id.
    + unfold can_create, p, segment_path. by rewrite parent_snoc, Hd.
  - by rewrite lookup_insert_eq, insert_insert_eq.
  - by rewrite lookup_insert_eq, insert_insert_eq, text_snoc.
Qed.

(** *** The operations on the queue *)

Lemma push_rep sp m Q F r :
  rep sp m Q F -> sp_head_seq sp + 2 <= U64_MAX ->
  exists k Q1 sp' m', push r (sp, quiet m) = (Ok tt, (sp', quiet m')) /\
    queued Q1 = queued Q ++ [r] /\ rep sp' m' (drop k Q1) F /\
    sp_dropped_records sp' = sp_dropped_records sp + Z.of_nat (length (queued (take k Q1))) /\
    sp_dir sp' = sp_dir sp /\ sp_max_bytes sp' = sp_max_bytes sp /\
    sp_head_seq sp <= sp_head_seq sp' <= sp_head_seq sp + 2 /\ capped sp' m' (drop k Q1).
Proof.
  intros Hr Hseq. unfold push. unfold sp_bind at 1, sp_set at 1.
  set (sp1 := if _ && _ then rotate sp else sp).
  assert (rep sp1 m Q F /\ sp_head_seq sp <= sp_head_seq sp1 <= sp_head_seq sp + 1 /\
    sp_dropped_records sp1 = sp_dropped_records sp /\ sp_dir sp1 = sp_dir sp /\
    sp_max_bytes sp1 = sp_max_bytes sp) as (Hr1 & Hs1 & Hd1 & Hdir1 & Hmax1).
  { unfold sp1. destruct (_ && _); [|split_and!; try done; lia].
    split_and!; [apply rep_rotate; [done|lia]|simpl; lia..|done|done|done]. }
  clearbody sp1. unfold sp_bind at 1, sp_self at 1. cbn [fst].
  destruct (rep_head_split sp1 m Q F Hr1) as (Q0 & rs0 & Hsplit & Hrec & Hbyt).
  destruct (append_record sp1 m Q Q0 rs0 r (dirs_ok_is_dir _ _ (rep_dir _ _ _ _ Hr1)) Hsplit) as (m1 & E1 & E2 & E3).
  pose proof (rep_append sp1 m Q F Q0 rs0 r Hr1 Hsplit Hrec Hbyt) as Hr2.
  unfold sp_bind at 1. rewrite E1. unfold sp_bind at 1. rewrite E2.
  unfold sp_bind at 1. rewrite E3. unfold sp_bind at 1, fs_sync at 1. rewrite sp_io_syscall.
  unfold sp_bind at 1, sp_set at 1. unfold sp_bind at 1, sp_set at 1.
  set (sp2 := count_head _ sp1) in *. set (m2 := <[_ := NFile (text (rs0 ++ [r]))]> m) in *.
  set (Q1 := Q0 ++ [(sp_head_seq sp1, rs0 ++ [r])]) in *.
  set (sp3 := if _ <=? _ then rotate sp2 else sp2).
  assert (rep sp3 m2 Q1 F /\ sp_head_seq sp1 <= sp_head_seq sp3 <= sp_head_seq sp1 + 1 /\
    sp_dropped_records sp3 = sp_dropped_records sp /\ sp_dir sp3 = sp_dir sp /\
    sp_max_bytes sp3 = sp_max_bytes sp) as (Hr3 & Hs3 & Hd3 & Hdir3 & Hmax3).
  { unfold sp3. destruct (_ <=? _); [|split_and!; [done|..]; unfold sp2; simpl; first [lia|congruence]].
    split_and!; [apply rep_rotate; [done|unfold sp2; simpl; lia]|..];
      unfold sp2; simpl; first [lia|congruence]. }
  clearbody sp3. unfold enforce_cap, sp_bind at 1. rewrite (list_seqs_rep sp3 m2 Q1 F Hr3).
  destruct (enforce_cap_rep (S (length Q1.*1)) sp3 m2 Q1 F Hr3) as
    (k & sp' & m' & E & Hr' & Hd' & (Hsd & Hsm & Hsh) & Hcap); [rewrite length_fmap; lia|].
  exists k, Q1, sp', m'. split_and!; [exact E| |done|congruence..|lia|lia|done].
  unfold Q1, queued. rewrite fmap_app, concat_app. simpl. rewrite app_nil_r.
  destruct Hsplit as [_ [[-> _]|(-> & -> & _)]]; [|done].
  rewrite fmap_app, concat_app. simpl. by rewrite app_nil_r, app_assoc.
Qed.

Lemma drain_flight sp m Q seq rs :
  rep sp m Q (Some (seq, rs)) -> drain_oldest (sp, quiet m) = (Ok rs, (sp, quiet m)).
Proof.
  intros Hr. unfold drain_oldest, sp_bind at 1, sp_self at 1. cbn [fst].
  rewrite (rep_flight _ _ _ _ Hr). cbn [fmap option_fmap option_map fst].
  unfold sp_bind. rewrite (read_text _ _ _ rs) by (by eapply rep_lookup_flight).
  unfold sp_ret. by rewrite text_parse.
Qed.

Lemma drain_empty sp m : rep sp m [] None -> drain_oldest (T := T) (sp, quiet m) = (Ok [], (sp, quiet m)).
Proof.
  intros Hr. unfold drain_oldest, sp_bind at 1, sp_self at 1. cbn [fst].
  rewrite (rep_flight _ _ _ _ Hr). cbn [fmap option_fmap option_map].
  unfold sp_bind. by rewrite (list_seqs_rep sp m [] None Hr).
Qed.

(** Taking the oldest segment in flight. *)
Lemma rep_take_flight sp m seq rs Q :
  rep sp m ((seq, rs) :: Q) None -> sp_head_seq sp < U64_MAX ->
  rep (if seq =? sp_head_seq sp then rotate (set_in_flight (Some seq) sp) else set_in_flight (Some seq) sp)
    (<[inflight_path sp seq := NFile (text rs)]> (delete (segment_path sp seq) m)) Q (Some (seq, rs)).
Proof.
  intros Hr Hlt. pose proof (fun x => rep_pop_files sp m seq rs Q None x Hr) as Hf.
  pose proof Hr as [H1 H2 H3 H4 H5 H6 H7 H8 H9].
  apply StronglySorted_inv in H3 as [H3 Hall]. rewrite Forall_forall in Hall.
  assert (0 <= seq <= sp_head_seq sp) as Hb by (apply (H4 seq rs), elem_of_cons; by left).
  assert (forall s r, (s, r) ∈ Q -> seq < s <= sp_head_seq sp) as Hq.
  { intros s r Hin. specialize (Hall _ Hin). simpl in Hall. specialize (H4 s r).
    rewrite elem_of_cons in H4. specialize (H4 ltac:(by right)). lia. }
  set (sp' := if _ =? _ then _ else _).
  assert (sp_dir sp' = sp_dir sp /\ sp_in_flight sp' = Some seq /\
    seq < sp_head_seq sp' <= U64_MAX /\ sp_head_seq sp <= sp_head_seq sp' /\
    (sp_head_seq sp' = sp_head_seq sp ->
       seq <> sp_head_seq sp /\ sp_head_records sp' = sp_head_records sp /\ sp_head_bytes sp' = sp_head_bytes sp) /\
    (sp_head_seq sp' <> sp_head_seq sp -> sp_head_records sp' = 0 /\ sp_head_bytes sp' = 0))
    as (Hd & Hfl & Hb' & Hle & Hsame & Hnew).
  { unfold sp'. destruct (Z.eqb_spec seq (sp_head_seq sp)); simpl; split_and!; try done; try lia. }
  clearbody sp'. split; rewrite ?Hd, ?Hfl; try done; [..|lia].
  - by apply dirs_ok_insert, dirs_ok_delete.
  - intros name x. unfold inflight_path. destruct (decide (name = inflight_name seq)) as [->|Hne].
    + rewrite lookup_insert_eq. split; [intros [= <-]; right; eauto|].
      intros [(s & r & Hin & E & _)|(s & r & [= <- <-] & _ & ->)]; [|done].
      symmetry in E. apply segment_inflight_ne in E; [done|]. specialize (Hq _ _ Hin). lia.
    + rewrite lookup_insert_ne by (apply child_neq; congruence). rewrite Hf.
      split; (intros [?|(s & r & E & Hn & _)]; [by left|]); simplify_eq.
  - intros s r Hin. specialize (Hq _ _ Hin). lia.
  - intros r Hin. specialize (Hq _ _ Hin) as Hq'.
    assert (sp_head_seq sp' = sp_head_seq sp) as E by lia. destruct (Hsame E) as (_ & -> & ->).
    apply H5. rewrite <- E. apply elem_of_cons. by right.
  - intros Hno. destruct (decide (sp_head_seq sp' = sp_head_seq sp)) as [E|E]; [|by apply Hnew].
    destruct (Hsame E) as (Hne & -> & ->). apply H6. intros r Hin.
    apply elem_of_cons in Hin as [[= E' _]|Hin]; [congruence|]. apply (Hno r). by rewrite E.
  - intros s r [= <- <-]. split; [lia|]. intros s' r' Hin. specialize (Hq _ _ Hin). lia.
Qed.

Lemma drain_rep sp m seq rs Q :
  rep sp m ((seq, rs) :: Q) None -> sp_head_seq sp < U64_MAX ->
  exists sp' m', drain_oldest (sp, quiet m) = (Ok rs, (sp', quiet m')) /\
    rep sp' m' Q (Some (seq, rs)) /\ sp_dropped_records sp' = sp_dropped_records sp /\
    sp_dir sp' = sp_dir sp /\ sp_max_bytes sp' = sp_max_bytes sp /\
    sp_head_seq sp <= sp_head_seq sp' <= sp_head_seq sp + 1 /\
    (Q <> [] -> sp_head_seq sp' = sp_head_seq sp).
Proof.
  intros Hr Hlt. assert ((seq, rs) ∈ (seq, rs) :: Q) as Hin by (apply elem_of_cons; by left).
  pose proof (rep_lookup _ _ _ _ _ _ Hr Hin) as Hm.
  pose proof (rep_seq_bound _ _ _ _ _ _ Hr Hin) as Hb.
  do 2 eexists. unfold drain_oldest, sp_bind at 1, sp_self at 1. cbn [fst].
  rewrite (rep_flight _ _ _ _ Hr). cbn [fmap option_fmap option_map].
  unfold sp_bind at 1. rewrite (list_seqs_rep sp m _ None Hr), fmap_cons. cbn [fst].
  unfold sp_bind at 1. rewrite (read_text _ _ _ rs Hm).
  unfold sp_bind at 1. unfold segment_path, inflight_path in *.
  rewrite (rename_sibling sp m (sp_dir sp) _ _ (text rs) (dirs_ok_is_dir _ _ (rep_dir _ _ _ _ Hr)) Hm).
  - unfold sp_bind at 1, sp_set at 1. unfold sp_bind at 1, sp_set at 1. unfold sp_ret.
    rewrite text_parse. split; [reflexivity|]. split; [exact (rep_take_flight sp m seq rs Q Hr Hlt)|].
    cbn [set_in_flight sp_head_seq]. destruct (Z.eqb_spec seq (sp_head_seq sp)) as [->|];
      simpl; split_and!; try done; try lia.
    intros Hq. destruct Q as [|[s r] Q]; [done|].
    pose proof (rep_sorted _ _ _ _ Hr) as Hs. apply StronglySorted_inv in Hs as [_ Hs].
    apply Forall_cons in Hs as [Hs _]. simpl in Hs. pose proof (rep_seqs _ _ _ _ Hr s r) as Hle.
    rewrite !elem_of_cons in Hle. specialize (Hle ltac:(tauto)). lia.
  - intros E. apply (rep_files _ _ _ _ Hr) in E as [(?&?&_&_&?)|(?&?&_&_&?)]; done.
  - by apply segment_inflight_ne.
Qed.

Lemma rep_land sp m Q seq rs n :
  rep sp m Q (Some (seq, rs)) ->
  rep (add_dropped n (set_in_flight None sp)) (delete (inflight_path sp seq) m) Q None.
Proof.
  intros [H1 H2 H3 H4 H5 H6 H7 H8 H9].
  split; cbn [add_dropped set_in_flight sp_dir sp_head_seq sp_in_flight sp_head_records sp_head_bytes]; try done.
  - by apply dirs_ok_delete.
  - intros name x. unfold inflight_path. destruct (decide (name = inflight_name seq)) as [->|Hne].
    + rewrite lookup_delete_eq. split; [done|]. intros [(s & r & Hin & E & _)|(? & ? & ? & _)]; [|done].
      symmetry in E. apply segment_inflight_ne in E; [done|]. specialize (H4 _ _ Hin). lia.
    + rewrite lookup_delete_ne by (apply child_neq; congruence). rewrite H2.
      split; (intros [?|(s & r & E & Hn & _)]; [by left|]); simplify_eq.
Qed.

Lemma ack_rep sp m Q F :
  rep sp m Q F ->
  exists sp' m', spool_ack (sp, quiet m) = (Ok (bool_decide (is_Some F)), (sp', quiet m')) /\
    rep sp' m' Q None /\ sp_dropped_records sp' = sp_dropped_records sp /\
    sp_dir sp' = sp_dir sp /\ sp_max_bytes sp' = sp_max_bytes sp /\ sp_head_seq sp' = sp_head_seq sp.
Proof.
  intros Hr. unfold spool_ack, sp_bind at 1, sp_self at 1. cbn [fst]. rewrite (rep_flight _ _ _ _ Hr).
  destruct F as [[seq rs]|]; cbn [fmap option_fmap option_map fst].
  - unfold sp_bind at 1. rewrite (remove_leaf _ _ _ (text rs)) by (by eapply rep_lookup_flight).
    unfold sp_bind, sp_set, sp_ret. do 2 eexists. split; [done|].
    split; [|done]. pose proof (rep_land sp m Q seq rs 0 Hr) as Hl.
    replace (add_dropped 0 (set_in_flight None sp)) with (set_in_flight None sp) in Hl; [done|].
    unfold add_dropped, set_in_flight. simpl. by rewrite Z.add_0_r.
  - exists sp, m. done.
Qed.

Lemma skip_rep sp m Q F :
  rep sp m Q F ->
  exists sp' m', spool_skip (sp, quiet m) = (Ok (bool_decide (is_Some F)), (sp', quiet m')) /\
    rep sp' m' Q None /\
    sp_dropped_records sp' = sp_dropped_records sp + Z.of_nat (length (flying F)) /\
    sp_dir sp' = sp_dir sp /\ sp_max_bytes sp' = sp_max_bytes sp /\ sp_head_seq sp' = sp_head_seq sp.
Proof.
  intros Hr. unfold spool_skip, sp_bind at 1, sp_self at 1. cbn [fst]. rewrite (rep_flight _ _ _ _ Hr).
  destruct F as [[seq rs]|]; cbn [fmap option_fmap option_map fst flying].
  - unfold sp_bind at 1. rewrite (count_text _ _ _ rs) by (by eapply rep_lookup_flight).
    unfold sp_bind at 1. rewrite (remove_leaf _ _ _ (text rs)) by (by eapply rep_lookup_flight).
    unfold sp_bind, sp_set, sp_ret. do 2 eexists. split; [done|].
    split; [by eapply rep_land|done].
  - exists sp, m. simpl. split_and!; done || lia.
Qed.

(** *** Reopening after a crash *)

(** What the next process finds: the segment in flight is queued again. *)
Definition requeue Q F : list (Z * list T) := match F with Some x => x :: Q | None => Q end.

Definition recovered (sp : EventSpool) F (m : gmap path node) : gmap path node :=
  match F with
  | Some (seq, rs) => <[segment_path sp seq := NFile (text rs)]> (delete (inflight_path sp seq) m)
  | None => m
  end.

Lemma rep_requeue sp m Q F h mx :
  rep sp m Q F -> (forall s rs, (s, rs) ∈ requeue Q F -> s < h) -> 0 <= h <= U64_MAX ->
  rep (mkSpool (sp_dir sp) mx h 0 0 0 None) (recovered sp F m) (requeue Q F) None.
Proof.
  intros Hr Hh Hb. pose proof Hr as [H1 H2 H3 H4 H5 H6 H7 H8 H9].
  split; cbn [sp_dir sp_head_seq sp_in_flight sp_head_records sp_head_bytes]; try done.
  - unfold recovered. destruct F as [[seq rs]|]; [by apply dirs_ok_insert, dirs_ok_delete|done].
  - intros name x. unfold recovered, requeue. destruct F as [[seq rs]|]; [|by rewrite H2].
    destruct (H8 seq rs eq_refl) as [Hsq Hold]. assert (0 <= seq <= U64_MAX) as Hsb by lia.
    unfold segment_path, inflight_path.
    destruct (decide (name = segment_name seq)) as [->|Hne1].
    + rewrite lookup_insert_eq. split.
      * intros [= <-]. left. exists seq, rs. split; [apply elem_of_cons; by left|done].
      * intros [(s & r & Hin & E & ->)|(? & ? & ? & _)]; [|done].
        apply elem_of_cons in Hin as [[= -> ->]|Hin]; [done|]. exfalso.
        apply segment_name_inj in E; [specialize (Hold _ _ Hin); lia|done|by eapply rep_seq_bound].
    + rewrite lookup_insert_ne by (apply child_neq; congruence).
      destruct (decide (name = inflight_name seq)) as [->|Hne2].
      * rewrite lookup_delete_eq. split; [done|].
        intros [(s & r & Hin & E & _)|(? & ? & ? & _)]; [|done]. exfalso. symmetry in E.
        apply segment_inflight_ne in E; [done|].
        apply elem_of_cons in Hin as [[= -> ->]|Hin]; [done|by eapply rep_seq_bound].
      * rewrite lookup_delete_ne by (apply child_neq; congruence). rewrite H2. split.
        -- intros [(s & r & Hin & ?)|(s & r & [= <- <-] & ? & _)]; [|done].
           left. exists s, r. split; [apply elem_of_cons; by right|done].
        -- intros [(s & r & Hin & E & ?)|(? & ? & ? & _)]; [|done]. left. exists s, r.
           apply elem_of_cons in Hin as [[= -> ->]|Hin]; done.
  - unfold requeue. destruct F as [[seq rs]|]; [|done]. constructor; [done|].
    apply Forall_forall. intros [s r] Hin. by eapply (H8 seq rs eq_refl).
  - intros s r Hin. split; [|by specialize (Hh _ _ Hin); lia]. unfold requeue in Hin.
    destruct F as [[seq rs]|]; [apply elem_of_cons in Hin as [[= -> ->]|Hin]|].
    + destruct (H8 seq rs eq_refl). lia.
    + specialize (H4 _ _ Hin). lia.
    + specialize (H4 _ _ Hin). lia.
  - intros r Hin. specialize (Hh _ _ Hin). lia.
Qed.

Lemma recover_skip dir names s :
  Forall (fun n => strip_suffix ".inflight" n = None) names -> recover dir names s = (Ok tt, s).
Proof.
  induction 1 as [|n names Hn _ IH]; cbn [recover]; [done|]. rewrite Hn. exact IH.
Qed.

Lemma recover_app dir l1 l2 s :
  Forall (fun n => strip_suffix ".inflight" n = None) l1 ->
  recover dir (l1 ++ l2) s = recover dir l2 s.
Proof.
  induction 1 as [|n l1 Hn _ IH]; cbn [recover app]; [done|]. rewrite Hn. exact IH.
Qed.

(** The scan renames exactly the segment in flight back. *)
Lemma recover_rep sp m Q F names :
  rep sp m Q F -> NoDup names -> (forall n, n ∈ names <-> is_Some (m !! (sp_dir sp ++ [n]))) ->
  recover (sp_dir sp) names (quiet m) = (Ok tt, quiet (recovered sp F m)).
Proof.
  intros Hr Hnd Hin.
  assert (forall n, n ∈ names -> strip_suffix ".inflight" n = None \/
    exists seq rs, F = Some (seq, rs) /\ n = inflight_name seq) as Hn.
  { intros n [x Hx]%Hin. apply (rep_files _ _ _ _ Hr) in Hx as [(s & r & _ & -> & _)|(s & r & HF & -> & _)].
    - left. apply segment_not_inflight.
    - right. eauto. }
  destruct F as [[seq rs]|]; cbn [recovered].
  2:{ apply recover_skip, Forall_forall. intros n Hni. destruct (Hn n Hni) as [|(? & ? & ? & _)]; done. }
  pose proof (rep_lookup_flight _ _ _ _ _ Hr) as Hm.
  assert (inflight_name seq ∈ names) as Hs by (apply Hin; eauto).
  apply list_elem_of_split in Hs as (l1 & l2 & ->).
  apply NoDup_app in Hnd as (_ & Hd1 & Hnd). apply NoDup_cons in Hnd as [Hd2 _].
  assert (forall n, n ∈ l1 \/ n ∈ l2 -> strip_suffix ".inflight" n = None) as Hother.
  { intros n Hni. destruct (Hn n ltac:(set_solver)) as [|(s & r & [= <- <-] & ->)]; [done|].
    exfalso. set_solver. }
  rewrite recover_app by (apply Forall_forall; auto). cbn [recover]. rewrite inflight_base.
  replace (("spool-" +:+ show_u64_12 seq) +:+ ".jsonl")%string with (segment_name seq)
    by (unfold segment_name; by rewrite str_app_assoc).
  pose proof (rep_older _ _ _ _ Hr seq rs eq_refl) as [Hsq Hold]. pose proof (rep_bound _ _ _ _ Hr).
  assert (sp_io (fs_rename (sp_dir sp ++ [inflight_name seq]) (sp_dir sp ++ [segment_name seq])) (sp, quiet m) =
    (Ok tt, (sp, quiet (recovered sp (Some (seq, rs)) m)))) as E.
  { apply rename_sibling; [by apply dirs_ok_is_dir, Hr|exact Hm| |].
    - intros E'. apply (rep_files _ _ _ _ Hr) in E' as [(?&?&_&_&?)|(?&?&_&_&?)]; done.
    - apply not_eq_sym, segment_inflight_ne. lia. }
  unfold io_bind. unfold sp_io in E.
  destruct (fs_rename _ _ (quiet m)) as [r' s'] eqn:Er.
  injection E as -> ->. apply recover_skip, Forall_forall. auto.
Qed.

Lemma open_rep sp m Q F mx :
  rep sp m Q F -> sp_head_seq sp < U64_MAX ->
  exists sp', spool_open (sp_dir sp) mx (quiet m) = (Ok sp', quiet (recovered sp F m)) /\
    rep sp' (recovered sp F m) (requeue Q F) None /\ sp_dropped_records sp' = 0 /\
    sp_dir sp' = sp_dir sp /\ sp_max_bytes sp' = mx /\ sp_head_seq sp' <= sp_head_seq sp + 1.
Proof.
  intros Hr Hlt. set (h := match last (requeue Q F).*1 with Some s => s + 1 | None => 0 end).
  assert (forall s rs, (s, rs) ∈ requeue Q F -> 0 <= s <= sp_head_seq sp) as Hb.
  { intros s rs Hin. unfold requeue in Hin. destruct F as [[seq r]|].
    - apply elem_of_cons in Hin as [[= -> ->]|Hin]; [|by eapply rep_seqs].
      destruct (rep_older _ _ _ _ Hr seq r eq_refl). lia.
    - by eapply rep_seqs. }
  assert (rep (mkSpool (sp_dir sp) mx (sp_head_seq sp + 1) 0 0 0 None) (recovered sp F m) (requeue Q F) None) as Hr1.
  { apply rep_requeue; [done|intros s rs Hin; specialize (Hb _ _ Hin); lia|].
    pose proof (rep_bound _ _ _ _ Hr). lia. }
  assert ((forall s rs, (s, rs) ∈ requeue Q F -> s < h) /\ 0 <= h <= sp_head_seq sp + 1) as [Hh Hhb].
  { pose proof (rep_sorted _ _ _ _ Hr1) as Hs. unfold h. clear h Hr1.
    destruct (destruct_last (requeue Q F)) as [->|(Q0 & [t ts] & E)].
    - pose proof (rep_bound _ _ _ _ Hr). simpl. split; [set_solver|lia].
    - rewrite E in *. rewrite fmap_app. simpl. rewrite last_snoc.
      assert ((t, ts) ∈ Q0 ++ [(t, ts)]) as Ht by (apply elem_of_app; right; by apply list_elem_of_singleton).
      specialize (Hb t ts Ht) as Hbt. split; [|lia]. intros s rs Hin.
      apply elem_of_app in Hin as [Hin|Hin]; [|apply list_elem_of_singleton in Hin as [= -> ->]; lia].
      assert ((s, rs).1 < (t, ts).1) as Hx; [|simpl in Hx; lia].
      eapply (StronglySorted_app_1_elem_of (fun a b : Z * list T => a.1 < b.1)); [exact Hs|done|].
      by apply list_elem_of_singleton. }
  exists (mkSpool (sp_dir sp) mx h 0 0 0 None).
  split; [|split_and!; [apply rep_requeue; [done|done|lia]|done..|simpl; lia]].
  unfold spool_open, io_bind at 1, fs_create_dir_all at 1, quiet at 1. rewrite syscall_ok.
  rewrite create_dirs_ok by apply (rep_dir _ _ _ _ Hr). fold (quiet m).
  unfold io_bind at 1, io_get at 1. cbn [nodes quiet].
  destruct (read_dir_spec (sp_dir sp) m (dirs_ok_is_dir _ _ (rep_dir _ _ _ _ Hr))) as (names & -> & Hnd & Hin).
  unfold io_bind at 1. fold (quiet m). rewrite (recover_rep sp m Q F names Hr Hnd Hin).
  unfold io_bind at 1, io_get at 1. cbn [nodes quiet].
  pose proof (rep_list _ _ _ _ Hr1) as Hl. cbn [sp_dir] in Hl. rewrite Hl. done.
Qed.

(** ** Whole runs *)

(** What a client and the machine do to a spool. *)
Inductive spool_op :=
| OpPush (r : T)
| OpDrain
| OpAck
| OpSkip
| OpCrash.

(** A run's own book-keeping, from the results the operations return: the
    records accepted, those whose batch was acknowledged, the batch handed out
    last, and the losses counted by earlier processes. *)
Record ledger := mkLedger {
  ld_pushed : list T;
  ld_acked : list T;
  ld_batch : list T;
  ld_lost_before : Z }.

(** One step; [None] when an operation reports an error. *)
Definition spool_step (o : spool_op) (st : EventSpool * fsys * ledger)
    : option (EventSpool * fsys * ledger) :=
  let '(s, g) := st in
  match o with
  | OpPush r =>
      match push r s with
      | (Ok _, s) => Some (s, mkLedger (ld_pushed g ++ [r]) (ld_acked g) (ld_batch g) (ld_lost_before g))
      | _ => None
      end
  | OpDrain =>
      match drain_oldest s with
      | (Ok rs, s) => Some (s, mkLedger (ld_pushed g) (ld_acked g) rs (ld_lost_before g))
      | _ => None
      end
  | OpAck =>
      match spool_ack s with
      | (Ok true, s) => Some (s, mkLedger (ld_pushed g) (ld_acked g ++ ld_batch g) [] (ld_lost_before g))
      | (Ok false, s) => Some (s, g)
      | _ => None
      end
  | OpSkip =>
      match spool_skip s with
      | (Ok _, s) => Some (s, mkLedger (ld_pushed g) (ld_acked g) [] (ld_lost_before g))
      | _ => None
      end
  | OpCrash =>
      match spool_open (sp_dir s.1) (sp_max_bytes s.1) s.2 with
      | (Ok sp, fs) =>
          Some (sp, fs, mkLedger (ld_pushed g) (ld_acked g) []
                          (ld_lost_before g + sp_dropped_records s.1))
      | _ => None
      end
  end.

Fixpoint spool_run (os : list spool_op) (st : EventSpool * fsys * ledger)
    : option (EventSpool * fsys * ledger) :=
  match os with [] => Some st | o :: os => spool_step o st ≫= spool_run os end.

(** The directory holds exactly what was pushed, acknowledged and lost. *)
Definition balanced (sp : EventSpool) (m : gmap path node) (g : ledger) : Prop :=
  exists Q F, rep sp m Q F /\ (F <> None -> ld_batch g = flying F) /\
    (ld_acked g ++ flying F ++ queued Q) `sublist_of` ld_pushed g /\
    Z.of_nat (length (ld_pushed g)) =
      Z.of_nat (length (ld_acked g ++ flying F ++ queued Q)) + ld_lost_before g + sp_dropped_records sp.

Lemma requeue_queued Q F : queued (requeue Q F) = flying F ++ queued Q.
Proof. by destruct F as [[]|]. Qed.

Lemma queued_take_drop k Q : queued Q = queued (take k Q) ++ queued (drop k Q).
Proof. unfold queued. by rewrite <- concat_app, <- fmap_app, take_drop. Qed.

Lemma spool_step_balanced o sp m g :
  balanced sp m g -> sp_head_seq sp + 2 <= U64_MAX ->
  exists sp' m' g', spool_step o (sp, quiet m, g) = Some (sp', quiet m', g') /\ balanced sp' m' g' /\
    sp_head_seq sp' <= sp_head_seq sp + 2 /\ sp_dir sp' = sp_dir sp /\
    ld_pushed g' = ld_pushed g ++ match o with OpPush r => [r] | _ => [] end.
Proof.
  intros (Q & F & Hr & Hb & Hsub & Hlen) Hseq. destruct o as [r| | | |]; cbn [spool_step].
  - destruct (push_rep sp m Q F r Hr Hseq) as (k & Q1 & sp' & m' & -> & HQ1 & Hr' & Hd & Hdir & _ & Hs & _).
    do 3 eexists. split; [done|]. split_and!; [|lia|done|done].
    exists (drop k Q1), F. cbn [ld_pushed ld_acked ld_batch ld_lost_before].
    rewrite (queued_take_drop k Q1) in HQ1.
    split_and!; [done|done| |].
    + rewrite !app_assoc. rewrite !app_assoc in Hsub.
      assert (queued (drop k Q1) `sublist_of` queued Q ++ [r]) as Hq by (rewrite <- HQ1; by apply sublist_inserts_l).
      trans ((ld_acked g ++ flying F) ++ queued Q ++ [r]); [by apply sublist_app|].
      rewrite app_assoc. by apply sublist_app.
    + apply (f_equal length) in HQ1. rewrite !length_app in *. simpl in *. lia.
  - destruct F as [[seq rs]|].
    + rewrite (drain_flight sp m Q seq rs Hr). do 3 eexists. split; [done|].
      split_and!; [|lia|done|by rewrite app_nil_r]. exists Q, (Some (seq, rs)). done.
    + destruct Q as [|[seq rs] Q].
      * rewrite (drain_empty sp m Hr). do 3 eexists. split; [done|].
        split_and!; [|lia|done|by rewrite app_nil_r]. exists [], None. done.
      * destruct (drain_rep sp m seq rs Q Hr) as (sp' & m' & -> & Hr' & Hd & Hdir & _ & Hs); [lia|].
        do 3 eexists. split; [done|]. split_and!; [|lia|done|by rewrite app_nil_r].
        exists Q, (Some (seq, rs)). cbn [ld_pushed ld_acked ld_batch ld_lost_before flying].
        unfold queued in *. rewrite fmap_cons in *. cbn [snd concat flying app] in *.
        split_and!; [done..|]. rewrite Hd. done.
  - destruct (ack_rep sp m Q F Hr) as (sp' & m' & -> & Hr' & Hd & Hdir & _ & Hs).
    destruct F as [[seq rs]|]; [rewrite bool_decide_true by eauto|rewrite bool_decide_false by (by intros [])].
    + do 3 eexists. split; [done|]. split_and!; [|lia|done|by rewrite app_nil_r].
      exists Q, None. cbn [ld_pushed ld_acked ld_batch ld_lost_before flying] in *.
      rewrite Hb in * by done. rewrite <- app_assoc. simpl. split_and!; [done..|congruence].
    + do 3 eexists. split; [done|]. split_and!; [|lia|done|by rewrite app_nil_r].
      exists Q, None. split_and!; [done..|congruence].
  - destruct (skip_rep sp m Q F Hr) as (sp' & m' & -> & Hr' & Hd & Hdir & _ & Hs).
    do 3 eexists. split; [done|]. split_and!; [|lia|done|by rewrite app_nil_r].
    exists Q, None. cbn [ld_pushed ld_acked ld_batch ld_lost_before flying app].
    split_and!; [done|done| |rewrite !length_app in *; lia].
    trans (ld_acked g ++ flying F ++ queued Q); [|done]. apply sublist_app; [done|]. by apply sublist_inserts_l.
  - destruct (open_rep sp m Q F (sp_max_bytes sp) Hr) as (sp' & Ho & Hr' & Hd & Hdir & _ & Hs); [lia|].
    cbn [fst snd]. rewrite Ho. do 3 eexists. split; [done|]. split_and!; [|lia|done|by rewrite app_nil_r].
    exists (requeue Q F), None. cbn [ld_pushed ld_acked ld_batch ld_lost_before flying app].
    rewrite requeue_queued. split_and!; [done..|lia].
Qed.

Lemma spool_run_balanced os sp m g :
  balanced sp m g -> sp_head_seq sp + 2 * Z.of_nat (length os) <= U64_MAX ->
  exists sp' m' g', spool_run os (sp, quiet m, g) = Some (sp', quiet m', g') /\ balanced sp' m' g' /\
    ld_pushed g' = ld_pushed g ++ omap (fun o => match o with OpPush r => Some r | _ => None end) os.
Proof.
  revert sp m g. induction os as [|o os IH]; intros sp m g Hb Hlen.
  { exists sp, m, g. split_and!; [done|done|by rewrite app_nil_r]. }
  cbn [spool_run length] in *.
  destruct (spool_step_balanced o sp m g Hb) as (sp1 & m1 & g1 & -> & Hb1 & Hs1 & _ & Hp1); [lia|].
  cbn [mbind option_bind].
  destruct (IH sp1 m1 g1 Hb1) as (sp' & m' & g' & Hrun & Hb' & Hp'); [lia|].
  exists sp', m', g'. split_and!; [done|done|]. rewrite Hp', Hp1, <- app_assoc.
  by destruct o.
Qed.

Lemma empty_rep dir mx m :
  dirs_ok dir m -> (forall n, m !! (dir ++ [n]) = None) ->
  rep (mkSpool dir mx 0 0 0 0 None) m [] None.
Proof.
  intros Hd Hn.
  split; cbn [sp_dir sp_head_seq sp_in_flight sp_head_records sp_head_bytes];
    [done| |constructor|set_solver|set_solver|done|done|done|unfold U64_MAX; lia].
  intros name x. rewrite Hn. split; [done|]. intros [(?&?&?&_)|(?&?&?&_)]; [set_solver|done].
Qed.

Lemma fresh_balanced dir mx m :
  dirs_ok dir m -> (forall n, m !! (dir ++ [n]) = None) ->
  balanced (mkSpool dir mx 0 0 0 0 None) m (mkLedger [] [] [] 0).
Proof. intros Hd Hn. exists [], None. split_and!; [by apply empty_rep|done..]. Qed.

(** ** Theorems *)


(** One push, exactly: the record goes to the end of the queue, whole
    oldest segments are shed while the directory exceeds its cap, each shed
    record is counted, the segment in flight is never shed, and afterwards the
    directory is within its cap or only the active segment is left to shed. *)
Theorem push_appends_and_sheds sp m Q F r :
  rep sp m Q F -> sp_head_seq sp + 2 <= U64_MAX ->
  exists k Q1 sp' m', push r (sp, quiet m) = (Ok tt, (sp', quiet m')) /\
    queued Q1 = queued Q ++ [r] /\ rep sp' m' (drop k Q1) F /\
    sp_dropped_records sp' = sp_dropped_records sp + Z.of_nat (length (queued (take k Q1))) /\
    capped sp' m' (drop k Q1).
Proof.
  intros Hr Hs. destruct (push_rep sp m Q F r Hr Hs) as (k & Q1 & sp' & m' & H1 & H2 & H3 & H4 & _ & _ & _ & H5).
  exists k, Q1, sp', m'. done.
Qed.
End Queue.

(** A segment whose text is not UTF-8 (a crash inside a multi-byte
    character is enough) blocks the queue: with nothing in flight, [drain_oldest]
    fails on it and changes nothing, and [skip] has nothing to skip, however
    often they are called. *)
Theorem non_utf8_segment_blocks `{SerdeLine T} sp m seq seqs b n :
  segment_seqs (sp_dir sp) m = Some (seq :: seqs) -> sp_in_flight sp = None ->
  m !! segment_path sp seq = Some (NFile b) -> utf8_valid b = false ->
  Nat.iter n (fun s => (spool_skip (drain_oldest (T := T) s).2).2) (sp, quiet m) = (sp, quiet m) /\
  (drain_oldest (T := T) (sp, quiet m)).1 = Err InvalidData /\
  (spool_skip (sp, quiet m)).1 = Ok false.
Proof.
  intros Hl Hf Hm Hu.
  assert (drain_oldest (T := T) (sp, quiet m) = (Err InvalidData, (sp, quiet m))) as Hd.
  { unfold drain_oldest, sp_bind at 1, sp_self at 1. cbn [fst]. rewrite Hf.
    unfold sp_bind at 1, list_seqs, sp_bind at 1, sp_self at 1. cbn [fst].
    unfold sp_bind at 1, sp_io at 1, io_get at 1. cbn [quiet nodes]. rewrite Hl. cbn [sp_ret].
    unfold sp_bind at 1, sp_io at 1, fs_read_to_string, io_bind, fs_read, quiet.
    rewrite syscall_ok, Hm, Hu. done. }
  assert (spool_skip (sp, quiet m) = (Ok false, (sp, quiet m))) as Hs.
  { unfold spool_skip, sp_bind at 1, sp_self at 1. cbn [fst]. by rewrite Hf. }
  split_and!; [|by rewrite Hd|by rewrite Hs].
  induction n as [|n IH]; [done|]. simpl. rewrite IH, Hd. cbn [snd]. by rewrite Hs.
Qed.

(** ** A concrete record type: JSON booleans *)

Definition bool_line (b : bool) : bytes := if b then [116; 114; 117; 101] else [102; 97; 108; 115; 101].
Definition bool_of_line (l : bytes) : option bool :=
  if bool_decide (l = bool_line true) then Some true
  else if bool_decide (l = bool_line false) then Some false else None.

#[export] Instance bool_serde_line : SerdeLine bool.
Proof.
  refine {| to_line := bool_line; from_line := bool_of_line |}.
  all: intros []; first [reflexivity | discriminate | idtac].
  all: unfold NEWLINE; simpl; rewrite !elem_of_cons, elem_of_nil; lia.
Defined.

Definition demo_dir : path := ["var"].
Definition demo_disk : gmap path node := {[ [] := NDir; demo_dir := NDir ]}.

Lemma demo_dirs_ok : dirs_ok demo_dir demo_disk.
Proof.
  intros p [k Hk]. destruct p as [|n p]; [reflexivity|].
  injection Hk as Hn Hk. subst n. destruct p as [|n' p]; [reflexivity|]. discriminate Hk.
Qed.

Lemma demo_disk_empty (n : string) : demo_disk !! (demo_dir ++ [n]) = None.
Proof. unfold demo_disk. by rewrite lookup_insert_ne, lookup_singleton_ne. Qed.


Lemma push_appends_and_sheds_witness :
  exists k Q1 sp' m', push true (mkSpool demo_dir 100 0 0 0 0 None, quiet demo_disk) = (Ok tt, (sp', quiet m')) /\
    queued Q1 = [true] /\ rep sp' m' (drop k Q1) None /\
    sp_dropped_records sp' = 0 + Z.of_nat (length (queued (take k Q1))) /\
    capped sp' m' (drop k Q1).
Proof.
  apply (push_appends_and_sheds (mkSpool demo_dir 100 0 0 0 0 None) demo_disk [] None true).
  - apply empty_rep; [apply demo_dirs_ok|apply demo_disk_empty].
  - unfold U64_MAX. simpl. lia.
Defined.

(** A segment torn in the middle of the two bytes of an e-acute. *)
Definition torn_disk : gmap path node :=
  <[demo_dir ++ [segment_name 0] := NFile [34; 195]]> demo_disk.

Lemma non_utf8_segment_blocks_witness :
  let sp := mkSpool demo_dir 100 1 0 0 0 None in
  Nat.iter 3 (fun s => (spool_skip (drain_oldest (T := bool) s).2).2) (sp, quiet torn_disk) =
    (sp, quiet torn_disk) /\
  (drain_oldest (T := bool) (sp, quiet torn_disk)).1 = Err InvalidData /\
  (spool_skip (sp, quiet torn_disk)).1 = Ok false.
Proof.
  apply (non_utf8_segment_blocks (T := bool) (mkSpool demo_dir 100 1 0 0 0 None) torn_disk 0 [] [34; 195] 3);
    vm_compute; reflexivity.
Defined.
