(* ===== verification/Upload.v ===== *)
(** * Upload: delivering the spool to the control plane
    (src/crates/transport/src/upload.rs, error.rs; src/agent/src/upload.rs)

    [EventDrain] is the trait the uploader works against, [EventDrainSpec] the
    contract its doc comments state, on an abstract queue of batches with at
    most one in flight; [SpoolDrain] is the agent's implementation, the durable
    spool, which is shown to meet the contract.  The server is an argument: its
    answer to a batch may depend on everything sent before. *)
From stdpp Require Import base gmap strings list.
From Stdlib Require Import ZArith Lia.
From S2P Require Import Prelude Str Fs Utf8 Spool.

Inductive TransportError :=
  | ServerError (status : Z) (message : string)
  | Network (message : string)
  | InvalidResponse (message : string)
  | Tls (message : string)
  | Serialization (message : string)
  | Io (e : io_error)
  | Config (message : string)
  | Unreachable.

Definition is_retryable (e : TransportError) : bool :=
  match e with
  | Network _ | Unreachable => true
  | InvalidResponse _ => true
  | ServerError status _ => 500 <=? status
  | _ => false
  end.

Definition is_network_error (e : TransportError) : bool :=
  match e with Network _ | Unreachable => true | _ => false end.

Record UploadResponse := mkUploadResponse { ur_accepted : Z; ur_batch_id : option string }.

(** The fields of [TransportConfig] the uploader reads; durations in
    nanoseconds. *)
Record TransportConfig := mkTransportConfig {
  tc_batch_size : Z;
  tc_retry_base : Z;
  tc_retry_max : Z;
  tc_max_drain_attempts : Z;
  tc_max_network_drain_attempts : Z }.

Definition DEFAULT_RETRY_BASE_MS : Z := 1000.
Definition DEFAULT_RETRY_MAX_MS : Z := 60000.
Definition DEFAULT_BATCH_SIZE : Z := 100.
Definition DEFAULT_MAX_DRAIN_ATTEMPTS : Z := 5.
Definition DEFAULT_MAX_NETWORK_DRAIN_ATTEMPTS : Z := 20.
Definition MILLI : Z := 1000000.
Definition default_config : TransportConfig :=
  mkTransportConfig DEFAULT_BATCH_SIZE (DEFAULT_RETRY_BASE_MS * MILLI) (DEFAULT_RETRY_MAX_MS * MILLI)
    DEFAULT_MAX_DRAIN_ATTEMPTS DEFAULT_MAX_NETWORK_DRAIN_ATTEMPTS.

(** ** The drain interface *)

Class EventDrain (T D : Type) := {
  ed_drain : D -> result (list T) io_error * D;
  ed_ack : D -> result unit io_error * D;
  ed_skip : D -> result unit io_error * D }.

(** [ed_rep d Q F]: the queue holds the batches [Q], oldest first, and [F] is
    the batch drained and neither acknowledged nor skipped. *)
Class EventDrainSpec (T D : Type) `{!EventDrain T D} := {
  ed_rep : D -> list (list T) -> option (list T) -> Prop;
  ed_drain_again : forall d Q b, ed_rep d Q (Some b) ->
    exists d', ed_drain d = (Ok b, d') /\ ed_rep d' Q (Some b);
  ed_drain_next : forall d Q b, ed_rep d (b :: Q) None ->
    exists d', ed_drain d = (Ok b, d') /\ ed_rep d' Q (Some b);
  ed_drain_none : forall d, ed_rep d [] None ->
    exists d', ed_drain d = (Ok [], d') /\ ed_rep d' [] None;
  ed_ack_ok : forall d Q b, ed_rep d Q (Some b) ->
    exists d', ed_ack d = (Ok tt, d') /\ ed_rep d' Q None;
  ed_skip_ok : forall d Q b, ed_rep d Q (Some b) ->
    exists d', ed_skip d = (Ok tt, d') /\ ed_rep d' Q None }.

(** ** [slice::chunks] *)

(** One round per element is enough, since every chunk is non-empty. *)
Fixpoint chunks_fuel {T} (fuel n : nat) (l : list T) : list (list T) :=
  match fuel, l with
  | S fuel, _ :: _ => take n l :: chunks_fuel fuel n (drop n l)
  | _, _ => []
  end.
Definition chunks {T} (n : Z) (l : list T) : list (list T) :=
  chunks_fuel (length l) (Z.to_nat n) l.

(** ** The uploader *)

Record EventUploader (D : Type) := mkUploader {
  up_drain : D;
  up_config : TransportConfig;
  consecutive_failures : Z;
  consecutive_server_failures : Z;
  consecutive_network_failures : Z }.
Arguments mkUploader {D}.
Arguments up_drain {D}.
Arguments up_config {D}.
Arguments consecutive_failures {D}.
Arguments consecutive_server_failures {D}.
Arguments consecutive_network_failures {D}.

Definition uploader_new {D} (config : TransportConfig) (drain : D) : EventUploader D :=
  mkUploader drain config 0 0 0.

Definition reset_failure_counters {D} (up : EventUploader D) : EventUploader D :=
  mkUploader (up_drain up) (up_config up) 0 0 0.
Definition reset_failures {D} (up : EventUploader D) : EventUploader D := reset_failure_counters up.
Definition with_drain {D} (d : D) (up : EventUploader D) : EventUploader D :=
  mkUploader d (up_config up) (consecutive_failures up) (consecutive_server_failures up)
    (consecutive_network_failures up).

(** What has been sent so far, with the answers. *)
Definition Log (T : Type) : Type := list (list T * result UploadResponse TransportError).

Section Uploader.
Context {T D : Type} `{!EventDrain T D}.
(** [TransportClient::upload_events]: the answer to a batch, given what was sent. *)
Variable answer : Log T -> list T -> result UploadResponse TransportError.

(** [self.drain.skip()?; self.reset_failure_counters(); return Err(e)]. *)
Definition skip_segment (e : TransportError) (up : EventUploader D) :
    result Z TransportError * EventUploader D :=
  match ed_skip (up_drain up) with
  | (Ok _, d) => (Err e, reset_failure_counters (with_drain d up))
  | (Err io, d) => (Err (Io io), with_drain d up)
  end.

(** The two [Err] arms: a permanent rejection, and a failed attempt. *)
Definition batch_failed (e : TransportError) (up : EventUploader D) :
    result Z TransportError * EventUploader D :=
  if negb (is_retryable e) then skip_segment e up
  else
    let f := wrap32 (consecutive_failures up + 1) in
    let '(up, attempts, max_attempts) :=
      if is_network_error e then
        let n := wrap32 (consecutive_network_failures up + 1) in
        (mkUploader (up_drain up) (up_config up) f (consecutive_server_failures up) n,
         n, tc_max_network_drain_attempts (up_config up))
      else
        let n := wrap32 (consecutive_server_failures up + 1) in
        (mkUploader (up_drain up) (up_config up) f n (consecutive_network_failures up),
         n, tc_max_drain_attempts (up_config up)) in
    if max_attempts <=? attempts then skip_segment e up else (Err e, up).

Fixpoint upload_batches (count : Z) (batches : list (list T)) (up : EventUploader D) (lg : Log T) :
    result Z TransportError * (EventUploader D * Log T) :=
  match batches with
  | [] =>
      match ed_ack (up_drain up) with
      | (Ok _, d) => (Ok count, (reset_failure_counters (with_drain d up), lg))
      | (Err io, d) => (Err (Io io), (with_drain d up, lg))
      end
  | batch :: batches =>
      let r := answer lg batch in
      let lg := lg ++ [(batch, r)] in
      match r with
      | Ok _ => upload_batches count batches up lg
      | Err e => let '(res, up) := batch_failed e up in (res, (up, lg))
      end
  end.

(** [None]: the panic of [chunks(0)]. *)
Definition upload_once (up : EventUploader D) (lg : Log T) :
    option (result Z TransportError * (EventUploader D * Log T)) :=
  match ed_drain (up_drain up) with
  | (Err io, d) => Some (Err (Io io), (with_drain d up, lg))
  | (Ok events, d) =>
      let up := with_drain d up in
      if bool_decide (events = []) then Some (Ok 0, (up, lg))
      else if tc_batch_size (up_config up) =? 0 then None
      else Some (upload_batches (Z.of_nat (length events))
                   (chunks (tc_batch_size (up_config up)) events) up lg)
  end.

(** [n] calls in a row, whatever they return. *)
Fixpoint upload_times (n : nat) (up : EventUploader D) (lg : Log T) :
    option (EventUploader D * Log T) :=
  match n with
  | O => Some (up, lg)
  | S n => '(_, (up, lg)) ← upload_once up lg; upload_times n up lg
  end.
End Uploader.

Definition backoff_duration {D} (up : EventUploader D) : Z :=
  if consecutive_failures up =? 0 then 0
  else
    let base_ms := wrap64 (tc_retry_base (up_config up) / MILLI) in
    let max_ms := wrap64 (tc_retry_max (up_config up) / MILLI) in
    let backoff_ms :=
      Z.min (sat_mul base_ms (Z.shiftl 1 (Z.min (consecutive_failures up - 1) 10))) max_ms in
    backoff_ms * MILLI.

Definition is_failing {D} (up : EventUploader D) : bool := 0 <? consecutive_failures up.

(** ** The agent's drain: the durable spool (the mutex makes each call atomic) *)

Definition spool_cap_bytes (spool_max_mb : Z) : Z := sat_mul spool_max_mb (1024 * 1024).

Definition SpoolDrain : Type := EventSpool * fsys.

#[export] Instance spool_event_drain {T} `{SerdeLine T} : EventDrain T SpoolDrain := {
  ed_drain := fun s => drain_oldest s;
  ed_ack := fun s => let '(r, s) := spool_ack s in
                     (match r with Ok _ => Ok tt | Err e => Err e end, s);
  ed_skip := fun s => let '(r, s) := spool_skip s in
                      (match r with Ok _ => Ok tt | Err e => Err e end, s) }.

(** The spool's representation, with room for the sequence number to advance
    when the active segment is drained. *)
Definition spool_drain_rep {T} `{SerdeLine T} (s : SpoolDrain) (Qs : list (list T))
    (Fl : option (list T)) : Prop :=
  exists sp m Q F, s = (sp, quiet m) /\ rep sp m Q F /\ Qs = Q.*2 /\ Fl = snd <$> F /\
    (Q <> [] -> sp_head_seq sp < U64_MAX).

(** ** Lemmas *)

Lemma chunks_fuel_spec {T} fuel n (l : list T) :
  (0 < n)%nat -> (length l <= fuel)%nat ->
  concat (chunks_fuel fuel n l) = l /\ Forall (fun c => c <> [] /\ (length c <= n)%nat) (chunks_fuel fuel n l).
Proof.
  intros Hn. revert l. induction fuel as [|fuel IH]; intros [|x l] Hf; simpl in *; try (split; [reflexivity|constructor]).
  { lia. }
  destruct (IH (drop n (x :: l))) as [IH1 IH2]; [rewrite length_drop; simpl; lia|].
  rewrite IH1, take_drop. split; [done|]. constructor; [|done].
  split; [destruct n; [lia|done]|rewrite length_take; lia].
Qed.

Lemma chunks_spec {T} n (l : list T) :
  0 < n -> concat (chunks n l) = l /\ Forall (fun c => c <> [] /\ Z.of_nat (length c) <= n) (chunks n l).
Proof.
  intros Hn. destruct (chunks_fuel_spec (length l) (Z.to_nat n) l) as [H1 H2]; [lia..|].
  split; [done|]. eapply Forall_impl; [done|]. simpl. intros c [??]. split; [done|lia].
Qed.

(** The log entries of a batch sequence that was accepted throughout. *)
Definition accepted {T} (bs : list (list T)) (rs : list UploadResponse) : Log T :=
  zip_with (fun b r => (b, Ok r)) bs rs.

(** [lg] holds at least [n] failures of the kind [P] on batches of [bs]. *)
Definition attempts {T} (P : TransportError -> bool) (bs : list (list T)) (lg : Log T) (n : Z) : Prop :=
  exists fs, fs `sublist_of` lg /\ n <= Z.of_nat (length fs) /\
    Forall (fun x => exists c e, x = (c, Err e) /\ c ∈ bs /\ P e = true) fs.

Lemma attempts_none {T} P (bs : list (list T)) lg : attempts P bs lg 0.
Proof. exists []. split_and!; [apply sublist_nil_l|done|constructor]. Qed.

Lemma attempts_app {T} P (bs : list (list T)) lg k n : attempts P bs lg n -> attempts P bs (lg ++ k) n.
Proof. intros (fs & Hs & Hn & Hf). exists fs. split_and!; [by apply sublist_inserts_r|done..]. Qed.

Lemma attempts_snoc {T} P (bs : list (list T)) lg c e n :
  attempts P bs lg n -> c ∈ bs -> P e = true -> attempts P bs (lg ++ [(c, Err e)]) (n + 1).
Proof.
  intros (fs & Hs & Hn & Hf) Hc He. exists (fs ++ [(c, Err e)]).
  split_and!; [by apply sublist_app|rewrite length_app; simpl; lia|].
  apply Forall_app. split; [done|]. constructor; [eauto|constructor].
Qed.

Definition server_side (e : TransportError) : bool := is_retryable e && negb (is_network_error e).

Section UploadLemmas.
Context {T D : Type} `{!EventDrain T D}.
Variable answer : Log T -> list T -> result UploadResponse TransportError.

(** What a call to the batch loop did: acknowledged after every batch was
    accepted, or stopped at the first refused batch. *)
Lemma upload_batches_inv count bs up lg r up' lg' :
  upload_batches answer count bs up lg = (r, (up', lg')) ->
  (exists rs, length rs = length bs /\ lg' = lg ++ accepted bs rs /\
     match ed_ack (up_drain up) with
     | (Ok _, d) => r = Ok count /\ up' = reset_failure_counters (with_drain d up)
     | (Err io, d) => r = Err (Io io) /\ up' = with_drain d up
     end) \/
  (exists done c e todo rs, bs = done ++ c :: todo /\ length rs = length done /\
     lg' = lg ++ accepted done rs ++ [(c, Err e)] /\ batch_failed e up = (r, up')).
Proof.
  revert lg. induction bs as [|b bs IH]; intros lg; simpl.
  - intros E. left. exists []. rewrite app_nil_r. split; [done|].
    destruct (ed_ack _) as [[[]|io] d]; by simplify_eq.
  - destruct (answer lg b) as [resp|e] eqn:Ea.
    + intros Hrun. destruct (IH _ Hrun) as [(rs & Hl & -> & Hm)|(done & c & e & todo & rs & -> & Hl & -> & Hb)].
      * left. exists (resp :: rs). cbn [accepted zip_with length]. rewrite <- app_assoc. split_and!; [lia|done|done].
      * right. exists (b :: done), c, e, todo, (resp :: rs). cbn [accepted zip_with length].
        rewrite <- app_assoc. split_and!; [done|lia|done|done].
    + destruct (batch_failed e up) as [res up1] eqn:Eb. intros [= <- <- <-]. right.
      exists [], b, e, bs, []. done.
Qed.

(** The segment is given up only on a permanent rejection or when a budget of
    attempts is spent. *)
Lemma batch_failed_inv e (up : EventUploader D) r up' :
  batch_failed e up = (r, up') ->
  (up_drain up' = (ed_skip (up_drain up)).2 /\
     (is_retryable e = false \/
      (is_network_error e = true /\
         tc_max_network_drain_attempts (up_config up) <= wrap32 (consecutive_network_failures up + 1)) \/
      (server_side e = true /\
         tc_max_drain_attempts (up_config up) <= wrap32 (consecutive_server_failures up + 1)))) \/
  (up_drain up' = up_drain up /\ r = Err e).
Proof.
  assert (forall e u r u', skip_segment e u = (r, u') -> up_drain u' = (ed_skip (up_drain u)).2) as Hs.
  { unfold skip_segment. intros ? u ? ?. destruct (ed_skip (up_drain u)) as [[[]|io] d]; by intros [= <- <-]. }
  unfold batch_failed, server_side. destruct (is_retryable e); simpl; [|intros H; left; split; [by eapply Hs|tauto]].
  destruct (is_network_error e); simpl; case_bool; intros Hb.
  1,3: left; split; [by apply Hs in Hb|tauto].
  all: injection Hb as <- <-; by right.
Qed.
End UploadLemmas.

(** ** The contract's client *)

Section Delivery.
Context {T D : Type} `{!EventDrain T D, !EventDrainSpec T D}.
Variable answer : Log T -> list T -> result UploadResponse TransportError.
Variable cfg : TransportConfig.

Definition pending (Q : list (list T)) (F : option (list T)) : list (list T) :=
  match F with Some b => [b] | None => [] end ++ Q.

Definition server_budget : Z := Z.max 1 (tc_max_drain_attempts cfg).
Definition network_budget : Z := Z.max 1 (tc_max_network_drain_attempts cfg).
(** The calls one segment can take: both counters below their budget, and one
    more failure. *)
Definition call_budget : Z := server_budget + network_budget - 1.

(** Every part of the batch was accepted, in order, in one call. *)
Definition delivered (lg : Log T) (b : list T) : Prop :=
  exists pre rs post, lg = pre ++ accepted (chunks (tc_batch_size cfg) b) rs ++ post /\
    length rs = length (chunks (tc_batch_size cfg) b).

Definition given_up (lg : Log T) (b : list T) : Prop :=
  attempts (fun e => negb (is_retryable e)) (chunks (tc_batch_size cfg) b) lg 1 \/
  attempts server_side (chunks (tc_batch_size cfg) b) lg server_budget \/
  attempts is_network_error (chunks (tc_batch_size cfg) b) lg network_budget.

Definition fate (lg : Log T) (b : list T) : Prop := delivered lg b \/ given_up lg b.

Lemma fate_app lg k b : fate lg b -> fate (lg ++ k) b.
Proof.
  intros [(pre & rs & post & -> & Hl)|[H|[H|H]]].
  - left. exists pre, rs, (post ++ k). by rewrite <- !app_assoc.
  - right. left. by apply attempts_app.
  - right. right. left. by apply attempts_app.
  - right. right. right. by apply attempts_app.
Qed.

(** The counters are the attempts spent on the segment in flight, and within
    the budgets. *)
Record counters_ok (up : EventUploader D) (lg : Log T) (F : option (list T)) : Prop := {
  co_config : up_config up = cfg;
  co_server : 0 <= consecutive_server_failures up < server_budget;
  co_network : 0 <= consecutive_network_failures up < network_budget;
  co_none : F = None -> consecutive_server_failures up = 0 /\ consecutive_network_failures up = 0;
  co_some : forall b, F = Some b ->
    attempts server_side (chunks (tc_batch_size cfg) b) lg (consecutive_server_failures up) /\
    attempts is_network_error (chunks (tc_batch_size cfg) b) lg (consecutive_network_failures up) }.

Definition spent (up : EventUploader D) : Z :=
  consecutive_server_failures up + consecutive_network_failures up.

Lemma counters_reset up lg : up_config up = cfg -> counters_ok (reset_failure_counters up) lg None.
Proof. intros Hc. split; unfold server_budget, network_budget; simpl; try done; lia. Qed.

Hypothesis widths : tc_max_drain_attempts cfg <= U32_MAX /\ tc_max_network_drain_attempts cfg <= U32_MAX.

(** A refused batch: the segment is given up with the reason on record, or
    stays in flight with one more attempt counted. *)
Lemma batch_failed_step up lg Q b done rs c e :
  counters_ok up lg (Some b) -> ed_rep (up_drain up) Q (Some b) -> c ∈ chunks (tc_batch_size cfg) b ->
  let lg' := lg ++ accepted done rs ++ [(c, Err e)] in
  exists r up', batch_failed e up = (r, up') /\ up_config up' = cfg /\
    ((ed_rep (up_drain up') Q None /\ counters_ok up' lg' None /\ given_up lg' b) \/
     (ed_rep (up_drain up') Q (Some b) /\ counters_ok up' lg' (Some b) /\ spent up' = spent up + 1)).
Proof.
  intros [Hc Hs Hn _ Hb] Hrep Hin lg'. destruct (Hb b eq_refl) as [Has Han].
  assert (forall P n, attempts P (chunks (tc_batch_size cfg) b) lg n -> P e = true ->
            attempts P (chunks (tc_batch_size cfg) b) lg' (n + 1)) as Hsnoc.
  { intros P n Ha Hp. unfold lg'. rewrite app_assoc. apply attempts_snoc; [by apply attempts_app|done..]. }
  assert (forall u, up_drain u = up_drain up -> up_config u = cfg -> given_up lg' b ->
    exists r up', skip_segment e u = (r, up') /\ up_config up' = cfg /\
    ((ed_rep (up_drain up') Q None /\ counters_ok up' lg' None /\ given_up lg' b) \/
     (ed_rep (up_drain up') Q (Some b) /\ counters_ok up' lg' (Some b) /\ spent up' = spent up + 1))) as Hskip.
  { intros u Hd Hu Hg. unfold skip_segment. rewrite Hd.
    destruct (ed_skip_ok _ _ _ Hrep) as (d' & -> & Hr'). do 2 eexists. split; [done|]. split; [done|].
    left. split_and!; [done|by apply counters_reset|done]. }
  unfold batch_failed. unfold server_budget, network_budget in Hs, Hn. rewrite !Hc.
  destruct (is_retryable e) eqn:Er; cbn [negb].
  2: { apply Hskip; [done..|]. left. apply (Hsnoc _ 0); [apply attempts_none|by rewrite Er]. }
  rewrite (wrap32_small (consecutive_network_failures up + 1)) by (unfold U32_MAX in *; lia).
  rewrite (wrap32_small (consecutive_server_failures up + 1)) by (unfold U32_MAX in *; lia).
  destruct (is_network_error e) eqn:En; case_bool.
  - apply Hskip; [done..|]. right. right.
    assert (consecutive_network_failures up + 1 = network_budget) as <- by (unfold network_budget; lia). auto.
  - do 2 eexists. split; [done|]. split; [done|]. right. unfold spent. simpl. split_and!; [done| |lia].
    split; simpl; unfold server_budget, network_budget; try done; try lia.
    intros b' [= <-]. unfold lg' at 1. split; [by apply attempts_app|auto].
  - apply Hskip; [done..|]. right. left.
    assert (consecutive_server_failures up + 1 = server_budget) as <- by (unfold server_budget; lia).
    apply Hsnoc; [done|]. unfold server_side. by rewrite Er, En.
  - do 2 eexists. split; [done|]. split; [done|]. right. unfold spent. simpl. split_and!; [done| |lia].
    split; simpl; unfold server_budget, network_budget; try done; try lia.
    intros b' [= <-]. unfold lg' at 2. split; [|by apply attempts_app].
    apply Hsnoc; [done|]. unfold server_side. by rewrite Er, En.
Qed.

Hypothesis batch_pos : 0 < tc_batch_size cfg.

(** One call on a non-empty head batch settles it or counts an attempt. *)
Lemma upload_once_step up lg Q F b rest :
  counters_ok up lg F -> ed_rep (up_drain up) Q F -> pending Q F = b :: rest -> b <> [] ->
  exists r up' lg' k, upload_once answer up lg = Some (r, (up', lg')) /\ lg' = lg ++ k /\
    ((ed_rep (up_drain up') rest None /\ counters_ok up' lg' None /\ fate lg' b) \/
     (ed_rep (up_drain up') rest (Some b) /\ counters_ok up' lg' (Some b) /\ spent up' = spent up + 1)).
Proof.
  intros Hco Hrep Hp Hne.
  assert (exists d', ed_drain (up_drain up) = (Ok b, d') /\ ed_rep d' rest (Some b)) as (d' & Ed & Hrep').
  { destruct F as [b'|]; cbn [pending app] in Hp; simplify_eq; [by apply ed_drain_again|by apply ed_drain_next]. }
  unfold upload_once. rewrite Ed, bool_decide_false by done.
  cbn [with_drain up_config]. rewrite (co_config _ _ _ Hco).
  destruct (Z.eqb_spec (tc_batch_size cfg) 0) as [?|_]; [lia|].
  set (up1 := with_drain d' up).
  assert (counters_ok up1 lg (Some b)) as Hco1.
  { destruct Hco as [Hc Hs Hn H0 Hb]. split; try done. intros b' [= <-]. simpl.
    destruct F as [b''|]; [cbn [pending app] in Hp; simplify_eq; by apply Hb|].
    destruct (H0 eq_refl) as [-> ->]. split; apply attempts_none. }
  destruct (upload_batches answer _ _ up1 lg) as [r [up' lg']] eqn:Eu.
  apply upload_batches_inv in Eu as [(rs & Hl & -> & Hm)|(done & c & e & todo & rs & Hbs & Hl & -> & Hf)].
  - destruct (ed_ack_ok d' rest b Hrep') as (d'' & Ea & Hr''). cbn [up1 with_drain up_drain] in Hm.
    rewrite Ea in Hm. destruct Hm as [-> ->]. do 4 eexists. split; [done|]. split; [done|]. left.
    split_and!; [done|apply counters_reset, (co_config _ _ _ Hco1)|].
    left. exists lg, rs, []. by rewrite app_nil_r.
  - destruct (batch_failed_step up1 lg rest b done rs c e Hco1 Hrep') as (r2 & up2 & Hf2 & _ & Hc2).
    { rewrite Hbs. set_solver. }
    rewrite Hf in Hf2. injection Hf2 as <- <-. do 4 eexists. split; [done|]. split; [done|].
    destruct Hc2 as [(?&?&?)|?]; [left; split_and!; try done; by right|by right].
Qed.

Lemma upload_once_idle up lg :
  counters_ok up lg None -> ed_rep (up_drain up) [] None ->
  exists up', upload_once answer up lg = Some (Ok 0, (up', lg)) /\
    counters_ok up' lg None /\ ed_rep (up_drain up') [] None.
Proof.
  intros [Hc Hs Hn H0 _] Hrep. destruct (ed_drain_none _ Hrep) as (d' & Ed & Hr').
  unfold upload_once. rewrite Ed, bool_decide_true by done. eexists. split; [done|]. split; [|done].
  by split.
Qed.

Lemma spent_budget up lg F : counters_ok up lg F -> 0 <= spent up <= call_budget - 1.
Proof. intros [_ Hs Hn _ _]. unfold spent, call_budget. lia. Qed.

Lemma upload_times_run n up lg Q F :
  counters_ok up lg F -> ed_rep (up_drain up) Q F -> Forall (fun b => b <> []) (pending Q F) ->
  exists up' k gone Q' F', upload_times answer n up lg = Some (up', lg ++ k) /\
    ed_rep (up_drain up') Q' F' /\ counters_ok up' (lg ++ k) F' /\
    pending Q F = gone ++ pending Q' F' /\ Forall (fate (lg ++ k)) gone /\
    (pending Q' F' = [] \/ Z.of_nat n + spent up <= call_budget * Z.of_nat (length gone) + spent up').
Proof.
  revert up lg Q F. induction n as [|n IH]; intros up lg Q F Hco Hrep Hne.
  { exists up, [], [], Q, F. rewrite app_nil_r. split_and!; try done. right. simpl. lia. }
  cbn [upload_times]. destruct (pending Q F) as [|b rest] eqn:Hp.
  - assert (Q = [] /\ F = None) as [-> ->] by (by destruct F, Q).
    destruct (upload_once_idle up lg Hco Hrep) as (up1 & -> & Hco1 & Hrep1). cbn [mbind option_bind].
    destruct (IH up1 lg [] None Hco1 Hrep1 Hne) as (up' & k & gone & Q' & F' & H1 & H2 & H3 & H4 & H5 & _).
    exists up', k, gone, Q', F'. split_and!; try done. left.
    by destruct gone, (pending Q' F').
  - apply Forall_cons in Hne as [Hb Hne].
    destruct (upload_once_step up lg Q F b rest Hco Hrep Hp Hb) as
      (r & up1 & lg1 & k1 & -> & -> & [(Hrep1 & Hco1 & Hfate)|(Hrep1 & Hco1 & Hsp)]); cbn [mbind option_bind].
    + destruct (IH up1 _ rest None Hco1 Hrep1 Hne) as (up' & k & gone & Q' & F' & H1 & H2 & H3 & H4 & H5 & H6).
      exists up', (k1 ++ k), (b :: gone), Q', F'. rewrite app_assoc.
      split_and!; [done|done|done|cbn [pending app] in H4 |- *; by rewrite H4|constructor; [by apply fate_app|done]|].
      destruct H6 as [H6|H6]; [by left|right].
      pose proof (spent_budget _ _ _ Hco). pose proof (spent_budget _ _ _ Hco1). simpl length. lia.
    + destruct (IH up1 _ rest (Some b) Hco1 Hrep1) as (up' & k & gone & Q' & F' & H1 & H2 & H3 & H4 & H5 & H6);
        [simpl; by constructor|].
      exists up', (k1 ++ k), gone, Q', F'. rewrite app_assoc. split_and!; try done.
      destruct H6 as [H6|H6]; [by left|right]. lia.
Qed.

(** ** Theorems *)

(** C5. No wedge and no silent loss.  Against any server, [n] upload attempts
    on a queue of non-empty segments settle at least [n / budget] of its oldest
    segments (or all), where the budget is the two configured retry budgets
    together; the others remain queued in order.  Each settled segment was
    accepted by the server in full, or was given up with its reason on record:
    a permanent rejection, or a retry budget spent on it. *)
Theorem uploads_progress n d Q :
  ed_rep d Q None -> Forall (fun b => b <> []) Q ->
  exists up' lg gone Q' F',
    upload_times answer n (uploader_new cfg d) [] = Some (up', lg) /\
    ed_rep (up_drain up') Q' F' /\ Q = gone ++ pending Q' F' /\ Forall (fate lg) gone /\
    (pending Q' F' = [] \/ Z.of_nat n / call_budget <= Z.of_nat (length gone)).
Proof.
  intros Hrep Hne.
  destruct (upload_times_run n (uploader_new cfg d) [] Q None) as
    (up' & k & gone & Q' & F' & H1 & H2 & H3 & H4 & H5 & H6); [by apply (counters_reset (uploader_new cfg d))|done..|].
  exists up', k, gone, Q', F'. split_and!; try done. destruct H6 as [H6|H6]; [by left|right].
  pose proof (spent_budget _ _ _ H3) as Hs. change (spent (uploader_new cfg d)) with 0 in H6.
  assert (0 < call_budget) by (unfold call_budget, server_budget, network_budget; lia).
  assert (Z.of_nat n / call_budget < Z.of_nat (length gone) + 1); [|lia].
  apply Z.div_lt_upper_bound; lia.
Qed.
End Delivery.

(** C10. Acknowledge only what was accepted.  For any drain and any server, and
    whatever I/O fails: after [upload_once] the drain is as the drain call left
    it, or it was acknowledged, and then every part of the drained batch was
    sent in order and accepted, or it was skipped, and then the last answer was
    a refusal that is permanent or used up a retry budget. *)
Theorem ack_only_after_acceptance {T D} `{!EventDrain T D} answer (up : EventUploader D) lg r up' lg' :
  upload_once answer up lg = Some (r, (up', lg')) ->
  let d := (ed_drain (up_drain up)).2 in
  up_drain up' = d \/
  (exists events rs, (ed_drain (up_drain up)).1 = Ok events /\ up_drain up' = (ed_ack d).2 /\
     lg' = lg ++ accepted (chunks (tc_batch_size (up_config up)) events) rs /\
     length rs = length (chunks (tc_batch_size (up_config up)) events)) \/
  (exists k c e, up_drain up' = (ed_skip d).2 /\ lg' = lg ++ k ++ [(c, Err e)] /\
     (is_retryable e = false \/
      (is_network_error e = true /\
         tc_max_network_drain_attempts (up_config up) <= wrap32 (consecutive_network_failures up + 1)) \/
      (server_side e = true /\
         tc_max_drain_attempts (up_config up) <= wrap32 (consecutive_server_failures up + 1)))).
Proof.
  unfold upload_once. destruct (ed_drain (up_drain up)) as [[events|io] d]; cbn [fst snd];
    [|intros [= <- <- <-]; by left].
  case_bool_decide; [intros [= <- <- <-]; by left|]. cbn [with_drain up_config].
  destruct (_ =? 0); [done|]. intros [= Hu]. apply upload_batches_inv in Hu as
    [(rs & Hl & -> & Hm)|(done & c & e & todo & rs & _ & _ & -> & Hf)].
  - right. left. exists events, rs. split_and!; try done. cbn [with_drain up_drain] in Hm.
    destruct (ed_ack d) as [[[]|io] d']; by destruct Hm as [_ ->].
  - apply batch_failed_inv in Hf as [[Hd Hwhy]|[Hd _]]; [|by left].
    right. right. exists (accepted done rs), c, e. by split_and!.
Qed.

(** The backoff: none when not failing, the base doubled with each further
    failure and capped at the configured maximum, never decreasing as failures
    accumulate. *)
Theorem backoff_schedule {D} (d : D) cfg base_ms max_ms s n :
  tc_retry_base cfg = base_ms * MILLI -> tc_retry_max cfg = max_ms * MILLI ->
  0 <= base_ms -> base_ms * 1024 <= U64_MAX -> 0 <= max_ms <= U64_MAX ->
  let wait k := backoff_duration (mkUploader d cfg k s n) in
  wait 0 = 0 /\
  (forall k, 1 <= k <= 11 -> wait k = Z.min (base_ms * 2 ^ (k - 1)) max_ms * MILLI) /\
  (forall k, 0 <= k -> 0 <= wait k <= tc_retry_max cfg) /\
  (forall j k, 0 <= j <= k -> wait j <= wait k).
Proof.
  intros Hb Hm Hb0 Hb1 Hm1 wait.
  assert (forall k, 1 <= k -> wait k = Z.min (base_ms * 2 ^ Z.min (k - 1) 10) max_ms * MILLI) as Hw.
  { intros k Hk. unfold wait, backoff_duration. cbn [consecutive_failures up_config].
    destruct (Z.eqb_spec k 0); [lia|]. rewrite Hb, Hm, !Z.div_mul by done.
    rewrite !wrap64_small, Z.shiftl_1_l by lia. unfold sat_mul.
    assert (2 ^ Z.min (k - 1) 10 <= 2 ^ 10) by (apply Z.pow_le_mono_r; lia).
    rewrite (Z.min_r U64_MAX) by (change (2 ^ 10) with 1024 in *; nia). done. }
  assert (forall k, 1 <= k -> 0 <= wait k <= max_ms * MILLI) as Hr.
  { intros k Hk. rewrite (Hw k Hk). pose proof (Z.pow_nonneg 2 (Z.min (k - 1) 10)). unfold MILLI. nia. }
  assert (wait 0 = 0) as H0 by done.
  split_and!; [done| | |].
  - intros k Hk. rewrite (Hw k) by lia. by rewrite (Z.min_l (k - 1)) by lia.
  - intros k Hk. rewrite Hm. destruct (Z.eq_dec k 0) as [->|]; [rewrite H0; unfold MILLI; lia|]. apply Hr. lia.
  - intros j k Hjk. destruct (Z.eq_dec k 0) as [->|]; [replace j with 0 by lia; lia|].
    destruct (Z.eq_dec j 0) as [->|]; [rewrite H0; apply Hr; lia|].
    rewrite (Hw j), (Hw k) by lia.
    assert (2 ^ Z.min (j - 1) 10 <= 2 ^ Z.min (k - 1) 10) by (apply Z.pow_le_mono_r; lia).
    unfold MILLI. nia.
Qed.

(** ** The spool meets the contract *)

#[export] Instance spool_drain_spec {T} `{SerdeLine T} : EventDrainSpec T SpoolDrain.
Proof.
  refine {| ed_rep := spool_drain_rep |}.
  - intros d Q' b (sp & m & Q & [[seq rs]|] & -> & Hr & -> & E & Hs); [|done]. injection E as ->.
    exists (sp, quiet m). split; [exact (drain_flight sp m Q seq rs Hr)|]. by exists sp, m, Q, (Some (seq, rs)).
  - intros d Q' b (sp & m & Q & [|] & -> & Hr & E & E' & Hs); [done|].
    destruct Q as [|[seq rs] Q]; [done|]. injection E as -> ->.
    destruct (drain_rep sp m seq rs Q Hr) as (sp' & m' & Hd & Hr' & _ & _ & _ & Hb & Hq); [by apply Hs|].
    exists (sp', quiet m'). split; [exact Hd|]. exists sp', m', Q, (Some (seq, rs)).
    split_and!; try done. intros Hne. rewrite (Hq Hne). by apply Hs.
  - intros d (sp & m & Q & [|] & -> & Hr & E & E' & Hs); [done|]. destruct Q; [|done].
    exists (sp, quiet m). split; [exact (drain_empty sp m Hr)|]. by exists sp, m, [], None.
  - intros d Q' b (sp & m & Q & [[seq rs]|] & -> & Hr & -> & E & Hs); [|done].
    destruct (ack_rep sp m Q _ Hr) as (sp' & m' & Ha & Hr' & _ & _ & _ & Hh).
    exists (sp', quiet m'). simpl. rewrite Ha. split; [done|]. exists sp', m', Q, None. by rewrite Hh.
  - intros d Q' b (sp & m & Q & [[seq rs]|] & -> & Hr & -> & E & Hs); [|done].
    destruct (skip_rep sp m Q _ Hr) as (sp' & m' & Ha & Hr' & _ & _ & _ & Hh).
    exists (sp', quiet m'). simpl. rewrite Ha. split; [done|]. exists sp', m', Q, None. by rewrite Hh.
Defined.

Lemma drain_unparseable {T} `{SerdeLine T} sp m seq b :
  sp_in_flight sp = Some seq -> m !! inflight_path sp seq = Some (NFile b) ->
  utf8_valid b = true -> parse_lines (T := T) b = [] ->
  drain_oldest (T := T) (sp, quiet m) = (Ok [], (sp, quiet m)).
Proof.
  intros Hf Hm Hu Hp. unfold drain_oldest, sp_bind at 1, sp_self at 1. cbn [fst]. rewrite Hf.
  unfold sp_bind, sp_io, fs_read_to_string, io_bind, fs_read, quiet. rewrite syscall_ok, Hm, Hu.
  unfold sp_ret, io_ret. by rewrite Hp.
Qed.

Lemma drain_takes_unparseable {T} `{SerdeLine T} sp m seq seqs b :
  is_dir (sp_dir sp) m = true -> segment_seqs (sp_dir sp) m = Some (seq :: seqs) -> 0 <= seq <= U64_MAX ->
  sp_in_flight sp = None ->
  m !! segment_path sp seq = Some (NFile b) -> m !! inflight_path sp seq <> Some NDir ->
  utf8_valid b = true -> parse_lines (T := T) b = [] ->
  exists sp' m', drain_oldest (T := T) (sp, quiet m) = (Ok [], (sp', quiet m')) /\
    sp_in_flight sp' = Some seq /\ m' !! inflight_path sp' seq = Some (NFile b).
Proof.
  intros Hd Hl Hs Hf Hm Hi Hu Hp. do 2 eexists. unfold drain_oldest, sp_bind at 1, sp_self at 1.
  cbn [fst]. rewrite Hf. unfold sp_bind at 1, list_seqs, sp_bind at 1, sp_self at 1. cbn [fst].
  unfold sp_bind at 1, sp_io at 1, io_get at 1. cbn [quiet nodes]. rewrite Hl. unfold sp_ret at 1.
  unfold sp_bind at 1, sp_io at 1, fs_read_to_string, io_bind, fs_read, quiet at 1.
  rewrite syscall_ok, Hm, Hu. unfold io_ret. unfold sp_bind at 1, segment_path, inflight_path.
  rewrite (rename_sibling sp m (sp_dir sp) _ _ b); [|done..|by apply segment_inflight_ne].
  unfold sp_bind, sp_set, sp_ret. rewrite Hp. split; [reflexivity|].
  cbn [set_in_flight sp_head_seq]. destruct (_ =? _); cbn [rotate set_in_flight sp_in_flight sp_dir];
    (split; [done|apply lookup_insert_eq]).
Qed.

(** A segment with no readable record wedges the queue: when the oldest
    segment parses to no record at all (an append torn at the segment's first
    line leaves one), [upload_once] drains it, takes the empty result for an
    empty queue and neither acknowledges nor skips it, on every further call:
    nothing is sent any more, however many segments wait behind it. *)
Theorem unparseable_segment_wedges {T} `{SerdeLine T} answer cfg sp m seq seqs b lg n :
  is_dir (sp_dir sp) m = true -> segment_seqs (sp_dir sp) m = Some (seq :: seqs) -> 0 <= seq <= U64_MAX ->
  sp_in_flight sp = None ->
  m !! segment_path sp seq = Some (NFile b) -> m !! inflight_path sp seq <> Some NDir ->
  utf8_valid b = true -> parse_lines (T := T) b = [] ->
  exists up', upload_times (T := T) answer n (uploader_new cfg (sp, quiet m)) lg = Some (up', lg) /\
    exists up'', upload_once answer up' lg = Some (Ok 0, (up'', lg)).
Proof.
  intros Hd Hl Hs Hf Hm Hi Hu Hp.
  destruct (drain_takes_unparseable sp m seq seqs b Hd Hl Hs Hf Hm Hi Hu Hp) as (sp1 & m1 & E1 & Hf1 & Hm1).
  pose proof (drain_unparseable sp1 m1 seq b Hf1 Hm1 Hu Hp) as E2.
  assert (forall s (up : EventUploader SpoolDrain), up_drain up = s -> ed_drain s = (Ok [], (sp1, quiet m1)) ->
    upload_once answer up lg = Some (Ok 0, (with_drain (sp1, quiet m1) up, lg))) as Hstep.
  { intros s up <- E. unfold upload_once. by rewrite E, bool_decide_true. }
  assert (forall n (up : EventUploader SpoolDrain), up_drain up = (sp1, quiet m1) ->
    upload_times answer n up lg = Some (with_drain (sp1, quiet m1) up, lg)) as Htail.
  { clear n. intros n. induction n as [|n IH]; intros up Eu; cbn [upload_times].
    - destruct up. simpl in Eu. by subst.
    - rewrite (Hstep _ up Eu E2). cbn [mbind option_bind]. by rewrite IH. }
  destruct n as [|n].
  - eexists. split; [done|]. eexists. by eapply Hstep.
  - cbn [upload_times]. rewrite (Hstep (sp, quiet m)) by done. cbn [mbind option_bind].
    rewrite Htail by done. eexists. split; [done|]. eexists. by eapply Hstep.
Qed.

(** ** Witnesses *)

(** A server that fails once with 503 and then accepts. *)
Definition flaky (lg : Log bool) (b : list bool) : result UploadResponse TransportError :=
  match lg with
  | [] => Err (ServerError 503 "busy")
  | _ => Ok (mkUploadResponse (Z.of_nat (length b)) None)
  end.

Definition demo_spool : SpoolDrain :=
  (push true (mkSpool demo_dir 100 0 0 0 0 None, quiet demo_disk)).2.

Lemma demo_spool_rep : ed_rep demo_spool [[true]] None.
Proof.
  exists (mkSpool demo_dir 100 0 1 5 0 None),
    (<[demo_dir ++ [segment_name 0] := NFile (text [true])]> demo_disk), [(0, [true])], None.
  split; [vm_compute; reflexivity|]. split; [|done].
  split; cbn [sp_dir sp_head_seq sp_in_flight sp_head_records sp_head_bytes fst].
  - apply dirs_ok_insert, demo_dirs_ok.
  - intros name x. destruct (decide (name = segment_name 0)) as [->|Hne].
    + rewrite lookup_insert_eq. split; [intros [= <-]; left; exists 0, [true]; set_solver|].
      intros [(s & r & Hin & _ & ->)|(? & ? & ? & _)]; [|done].
      apply list_elem_of_singleton in Hin. by injection Hin as _ ->.
    + rewrite lookup_insert_ne by (intros E; apply app_inv_head in E; congruence).
      rewrite demo_disk_empty. split; [done|].
      intros [(s & r & Hin & -> & _)|(? & ? & ? & _)]; [|done].
      apply list_elem_of_singleton in Hin. by injection Hin as -> _.
  - repeat constructor.
  - intros seq rs Hin. apply list_elem_of_singleton in Hin. injection Hin as -> _. lia.
  - intros rs Hin. apply list_elem_of_singleton in Hin. injection Hin as ->. done.
  - intros Hno. exfalso. apply (Hno [true]). set_solver.
  - done.
  - done.
  - unfold U64_MAX. lia.
Qed.

Lemma uploads_progress_witness :
  exists up' lg gone Q' F',
    upload_times flaky 24 (uploader_new default_config demo_spool) [] = Some (up', lg) /\
    ed_rep (up_drain up') Q' F' /\ [[true]] = gone ++ pending Q' F' /\
    Forall (fate default_config lg) gone /\
    (pending Q' F' = [] \/ Z.of_nat 24 / call_budget default_config <= Z.of_nat (length gone)).
Proof.
  apply (uploads_progress flaky default_config).
  - split; vm_compute; discriminate.
  - reflexivity.
  - apply demo_spool_rep.
  - repeat constructor. discriminate.
Defined.

Definition busy_log : Log bool := [([true], Err (ServerError 503 "busy"))].

Lemma ack_only_after_acceptance_witness :
  let up := uploader_new default_config demo_spool in
  let d := (ed_drain (T := bool) (up_drain up)).2 in
  exists up', upload_once flaky up [] = Some (Err (ServerError 503 "busy"), (up', busy_log)) /\
  (up_drain up' = d \/
  (exists events rs, (ed_drain (up_drain up)).1 = Ok events /\ up_drain up' = (ed_ack (T := bool) d).2 /\
     busy_log = [] ++ accepted (chunks (tc_batch_size (up_config up)) events) rs /\
     length rs = length (chunks (tc_batch_size (up_config up)) events)) \/
  (exists k c e, up_drain up' = (ed_skip (T := bool) d).2 /\
     busy_log = [] ++ k ++ [(c, Err e)] /\
     (is_retryable e = false \/
      (is_network_error e = true /\
         tc_max_network_drain_attempts (up_config up) <= wrap32 (consecutive_network_failures up + 1)) \/
      (server_side e = true /\
         tc_max_drain_attempts (up_config up) <= wrap32 (consecutive_server_failures up + 1))))).
Proof.
  eexists. split; [vm_compute; reflexivity|].
  apply (ack_only_after_acceptance flaky (uploader_new default_config demo_spool) []
           (Err (ServerError 503 "busy"))).
  vm_compute. reflexivity.
Defined.

Lemma backoff_schedule_witness :
  let wait k := backoff_duration (mkUploader tt default_config k 0 0) in
  wait 0 = 0 /\
  (forall k, 1 <= k <= 11 -> wait k = Z.min (1000 * 2 ^ (k - 1)) 60000 * MILLI) /\
  (forall k, 0 <= k -> 0 <= wait k <= tc_retry_max default_config) /\
  (forall j k, 0 <= j <= k -> wait j <= wait k).
Proof. apply (backoff_schedule tt default_config 1000 60000 0 0); unfold U64_MAX; try reflexivity; lia. Defined.

(** The oldest segment holds half a record, a whole one waits behind it. *)
Definition wedged_disk : gmap path node :=
  <[demo_dir ++ [segment_name 0] := NFile [116; 114]]>
    (<[demo_dir ++ [segment_name 1] := NFile (text [true])]> demo_disk).

Lemma unparseable_segment_wedges_witness :
  let sp := mkSpool demo_dir 100 2 0 0 0 None in
  exists up', upload_times flaky 7 (uploader_new default_config (sp, quiet wedged_disk)) [] = Some (up', []) /\
    exists up'', upload_once flaky up' [] = Some (Ok 0, (up'', [])).
Proof.
  apply (unparseable_segment_wedges flaky default_config (mkSpool demo_dir 100 2 0 0 0 None)
           wedged_disk 0 [1] [116; 114]).
  all: vm_compute; try reflexivity; try discriminate. split; discriminate.
Defined.
