(* ===== verification/Outputs.v ===== *)
(** * Outputs: where alerts and events go (src/agent/src/alerts.rs,
    src/crates/sinks/src/lib.rs, src/agent/src/enrich_queue.rs,
    src/crates/yara/src/queue.rs, src/crates/enrich/src/lib.rs)

    The alert log with its ring of recent alerts, the JSON-lines writer and its
    repair of a torn line, the two bounded work queues and the file enricher with
    its cache.  The clock is an argument: the [n]-th reading.  A bounded channel is
    the list of what it holds; a worker's iteration takes its head. *)
From stdpp Require Import base gmap strings list.
From Stdlib Require Import ZArith Lia Ascii.
From Stdlib Require String.
From S2P Require Import Prelude Bounded Str Fs Utf8 Schema Spool.

(** ** Recent alerts (alerts.rs) *)

Definition RECENT_ALERTS_CAPACITY : nat := 256.

Record RecentAlert := mkRecentAlert { ra_emitted_at_ns : Z; ra_technique : string; ra_message : string }.
Record RecentAlerts := mkRecentAlerts { ra_capacity : nat; ra_inner : list RecentAlert }.
(** [sinks::AlertRecord]. *)
Record AlertRecord := mkAlertRecord { ar_timestamp_ns : Z; ar_technique : string; ar_message : string }.

Definition RecentAlerts_new (capacity : nat) : RecentAlerts := mkRecentAlerts capacity [].

Definition ra_push (r : RecentAlerts) (alert : RecentAlert) : RecentAlerts :=
  if Nat.eqb (ra_capacity r) 0 then r
  else
    let buf := if Nat.eqb (length (ra_inner r)) (ra_capacity r) then tail (ra_inner r) else ra_inner r in
    mkRecentAlerts (ra_capacity r) (buf ++ [alert]).

Definition ra_latest (r : RecentAlerts) (limit : nat) : list RecentAlert :=
  drop (length (ra_inner r) - limit) (ra_inner r).

(** The records handed to the log file, and the ring. *)
Record AlertLog := mkAlertLog { log_file : list AlertRecord; log_recent : RecentAlerts }.
Definition AlertLog_open (recent_capacity : nat) : AlertLog := mkAlertLog [] (RecentAlerts_new recent_capacity).

Definition log_record (clock : nat -> Z) (technique message : string) (l : AlertLog) : AlertLog :=
  let emitted_at_ns := clock (length (log_file l)) in
  mkAlertLog (log_file l ++ [mkAlertRecord emitted_at_ns technique message])
    (ra_push (log_recent l) (mkRecentAlert emitted_at_ns technique message)).

Definition log_latest (l : AlertLog) (limit : nat) : list RecentAlert := ra_latest (log_recent l) limit.

(** ** JSON lines (sinks/lib.rs)

    On the bytes of the file, for writes that succeed; a crash is a prefix of the
    line being written. *)
Section Jsonl.
Context {T : Type} `{SerdeLine T}.

Definition needs_tail_repair (content : bytes) : bool :=
  match last content with Some b => negb (b =? NEWLINE) | None => false end.
Definition jsonl_open (content : bytes) : bytes :=
  if needs_tail_repair content then content ++ [NEWLINE] else content.
Definition jsonl_write (content : bytes) (value : T) : bytes := content ++ to_line value ++ [NEWLINE].

(** A run of the agent: the records it wrote, then what a crash left of the next. *)
Definition jsonl_run (content : bytes) (run : list T * bytes) : bytes :=
  foldl jsonl_write (jsonl_open content) run.1 ++ run.2.

Lemma last_unlines ps : ps <> [] -> last (unlines ps) = Some NEWLINE.
Proof.
  destruct ps as [|p ps _] using rev_ind; [done|]. intros _. rewrite unlines_snoc, app_assoc. apply last_snoc.
Qed.

Lemma jsonl_open_unlines ps torn :
  NEWLINE ∉ torn -> jsonl_open (unlines ps ++ torn) = unlines (ps ++ match torn with [] => [] | _ => [torn] end).
Proof.
  intros Ht. unfold jsonl_open, needs_tail_repair. destruct torn as [|b t _] using rev_ind.
  - rewrite !app_nil_r. destruct ps as [|p ps]; [done|]. by rewrite last_unlines.
  - rewrite app_assoc, last_snoc. destruct (Z.eqb_spec b NEWLINE) as [->|]; [set_solver|]. simpl.
    destruct (t ++ [b]) eqn:E; [by destruct t|]. rewrite unlines_snoc, <- E. by rewrite <- !app_assoc.
Qed.

Lemma jsonl_writes_unlines ps rs : foldl jsonl_write (unlines ps) rs = unlines (ps ++ (to_line <$> rs)).
Proof.
  revert ps. induction rs as [|r rs IH]; intros ps; simpl; [by rewrite app_nil_r|].
  unfold jsonl_write at 2. rewrite <- unlines_snoc, IH. by rewrite <- app_assoc.
Qed.

Definition run_lines (run : list T * bytes) : list bytes :=
  (to_line <$> run.1) ++ match run.2 with [] => [] | t => [t] end.

Lemma jsonl_runs_unlines runs :
  Forall (fun run => NEWLINE ∉ run.2) runs ->
  exists ps torn, foldl jsonl_run [] runs = unlines ps ++ torn /\ NEWLINE ∉ torn /\
    ps ++ match torn with [] => [] | _ => [torn] end = runs ≫= run_lines.
Proof.
  induction runs as [|[rs torn] runs IH] using rev_ind; intros Hr.
  { exists [], []. split_and!; [done|set_solver|done]. }
  apply Forall_app in Hr as [Hr Hlast]. rewrite Forall_singleton in Hlast. simpl in Hlast.
  destruct (IH Hr) as (ps & t & E & Ht & Hps). rewrite foldl_app, E. simpl. unfold jsonl_run. simpl.
  rewrite jsonl_open_unlines, jsonl_writes_unlines by done.
  eexists _, torn. split_and!; [done|done|]. rewrite Hps, bind_app.
  change ([(rs, torn)] ≫= run_lines) with (run_lines (rs, torn) ++ []). rewrite app_nil_r.
  unfold run_lines at 2. cbn [fst snd]. by destruct torn; rewrite <- app_assoc.
Qed.

(** A crash never costs more than the line it tore: over any number of runs,
    each ending in a crash that left any part of a line, the file opened again has,
    line by line and in order, every record every run wrote, with each torn piece on
    a line of its own. *)
Theorem jsonl_crash_safe runs :
  Forall (fun run => NEWLINE ∉ run.2) runs ->
  split_nl (jsonl_open (foldl jsonl_run [] runs)) = (runs ≫= run_lines) ++ [[]].
Proof.
  intros Hr. destruct (jsonl_runs_unlines runs Hr) as (ps & torn & -> & Ht & Hps).
  rewrite jsonl_open_unlines by done. rewrite Hps. apply split_unlines.
  clear ps torn Ht Hps. induction Hr as [|[rs t] runs Hrun _ IH]; simpl; [constructor|]. apply Forall_app. split; [|done].
  unfold run_lines. simpl in *. apply Forall_app. split.
  - apply Forall_fmap, Forall_true. intros r. apply line_no_newline.
  - destruct t; [constructor|]. by apply Forall_singleton.
Qed.
End Jsonl.

(** ** Bounded channels (enrich_queue.rs, yara/queue.rs) *)

Record Channel (A : Type) := mkChannel { ch_pending : list A; ch_dropped : Z }.
Arguments mkChannel {A}.
Arguments ch_pending {A}.
Arguments ch_dropped {A}.

(** [if tx.try_send(item).is_err() { dropped += 1 }]: the buffer holds [cap]. *)
Definition try_send {A : Type} (cap : nat) (item : A) (c : Channel A) : Channel A :=
  if (cap <=? length (ch_pending c))%nat then mkChannel (ch_pending c) (wrap64 (ch_dropped c + 1))
  else mkChannel (ch_pending c ++ [item]) (ch_dropped c).

(** The worker's [recv]. *)
Definition ch_recv {A : Type} (c : Channel A) : option (A * Channel A) :=
  match ch_pending c with
  | [] => None
  | a :: rest => Some (a, mkChannel rest (ch_dropped c))
  end.

Definition ENRICH_QUEUE_CAP : nat := Z.to_nat 4096.
Definition SCAN_QUEUE_CAP : nat := 512.

(** ** The enricher (enrich/lib.rs) *)

Record FileEnrichment := mkFileEnrichment { fe_sha256 : option string; fe_signature : Signature }.
Record CacheEntry := mkCacheEntry {
  cache_mtime_ns : Z; cache_size : Z; cache_file_id : Z * Z; cache_enrichment : FileEnrichment }.

(** What the operating system says of a path at one moment. *)
Record FileMeta := mkFileMeta { fm_is_file : bool; fm_mtime_ns : Z; fm_size : Z; fm_id : Z * Z }.
Record FileWorld := mkFileWorld {
  fw_metadata : string -> option FileMeta;
  fw_hash : string -> option string;
  fw_verify : string -> Signature }.

Definition MAX_HASH_BYTES : Z := 64 * 1024 * 1024.
Definition CACHE_CAP : Z := 16384.

(** What a path's hash and signature are now. *)
Definition fresh_enrichment (w : FileWorld) (path : string) (size : Z) : FileEnrichment :=
  mkFileEnrichment (if size <=? MAX_HASH_BYTES then fw_hash w path else None) (fw_verify w path).

Definition enrich (w : FileWorld) (path : string) (cache : BoundedMap string CacheEntry)
    : FileEnrichment * BoundedMap string CacheEntry :=
  match fw_metadata w path with
  | None => (mkFileEnrichment None Signature_Unsupported, cache)
  | Some meta =>
      if negb (fm_is_file meta) then (mkFileEnrichment None Signature_Unsupported, cache)
      else
        let '(entry, cache) := bm_get path cache in
        match (e ← entry;
               if (cache_mtime_ns e =? fm_mtime_ns meta) && (cache_size e =? fm_size meta)
                  && bool_decide (cache_file_id e = fm_id meta)
               then Some e else None) with
        | Some e => (cache_enrichment e, cache)
        | None =>
            let enrichment := fresh_enrichment w path (fm_size meta) in
            (enrichment, bm_insert path (mkCacheEntry (fm_mtime_ns meta) (fm_size meta) (fm_id meta) enrichment) cache)
        end
  end.

(** [enrich_event]: only an exec with an image path and no hash yet. *)
Definition enrich_event (w : FileWorld) (event : Event) (cache : BoundedMap string CacheEntry)
    : Event * BoundedMap string CacheEntry :=
  match event with
  | Event_Exec e =>
      if negb (String.eqb (exec_image_path e) EmptyString) && bool_decide (exec_sha256 e = None)
      then
        let '(en, cache) := enrich w (exec_image_path e) cache in
        (Event_Exec (mkExecEvent (exec_meta e) (exec_image_path e) (exec_cmdline e) (exec_argv e)
           (exec_parent_comm e) (exec_parent_image_path e) (fe_sha256 en) (Some (fe_signature en))
           (exec_env_security e)), cache)
      else (event, cache)
  | _ => (event, cache)
  end.

(** One iteration of the enrichment worker. *)
Definition enrich_step (w : FileWorld) (c : Channel Event) (cache : BoundedMap string CacheEntry)
    : option (Event * Channel Event * BoundedMap string CacheEntry) :=
  '(event, c) ← ch_recv c;
  let '(event, cache) := enrich_event w event cache in
  Some (event, c, cache).

(** ** Recent alerts are the end of the log *)

Definition recent_of (r : AlertRecord) : RecentAlert :=
  mkRecentAlert (ar_timestamp_ns r) (ar_technique r) (ar_message r).

(** The ring holds the last [capacity] records of the file. *)
Definition ring_ok (l : AlertLog) : Prop :=
  ra_inner (log_recent l) =
    drop (length (log_file l) - ra_capacity (log_recent l)) (recent_of <$> log_file l).

Lemma tail_drop {A : Type} (l : list A) n : drop (S n) l = tail (drop n l).
Proof. revert n. induction l as [|a l IH]; intros [|n]; simpl; [done..|]. apply IH. Qed.

Lemma log_record_ring clock technique message l : ring_ok l -> ring_ok (log_record clock technique message l).
Proof.
  unfold ring_ok, log_record, ra_push. destruct l as [file [cap buf]]. cbn [log_file log_recent ra_capacity ra_inner].
  intros ->. rewrite fmap_app, length_app. cbn [length fmap list_fmap]. set (n := length file).
  assert (length (recent_of <$> file) = n) as Hn by apply length_fmap. destruct (Nat.eqb_spec cap 0) as [->|Hc].
  - cbn [ra_inner ra_capacity]. rewrite !drop_ge; [done|rewrite length_app, Hn; simpl; lia|lia].
  - rewrite length_drop, Hn. destruct (Nat.eqb_spec (n - (n - cap)) cap) as [E|E]; cbn [ra_inner ra_capacity].
    + rewrite drop_app_le by lia. f_equal. replace (n + 1 - cap)%nat with (S (n - cap)) by lia.
      symmetry. apply tail_drop.
    + replace (n - cap)%nat with 0%nat by lia. replace (n + 1 - cap)%nat with 0%nat by lia. done.
Qed.

Lemma ring_latest l limit :
  ring_ok l -> (limit <= ra_capacity (log_recent l))%nat ->
  log_latest l limit = drop (length (log_file l) - limit) (recent_of <$> log_file l).
Proof.
  intros Hr Hl. unfold log_latest, ra_latest. rewrite Hr, length_drop, length_fmap, drop_drop. f_equal. lia.
Qed.

(** ** The queues lose only what they count *)

Inductive channel_op (A : Type) := Send (a : A) | Recv.
Arguments Send {A} a.
Arguments Recv {A}.

(** A channel and what its worker has taken. *)
Definition channel_step {A : Type} (cap : nat) (s : Channel A * list A) (o : channel_op A) : Channel A * list A :=
  match o with
  | Send a => (try_send cap a s.1, s.2)
  | Recv => match ch_recv s.1 with Some (a, c) => (c, s.2 ++ [a]) | None => s end
  end.

Definition sent {A : Type} (os : list (channel_op A)) : list A :=
  omap (fun o => match o with Send a => Some a | Recv => None end) os.

(** A work queue delivers in order and loses only what it counts: after any
    interleaving of sends and receives, what was delivered followed by what is
    pending is a subsequence of what was sent, the number missing from it is the
    dropped counter, and no more than the capacity is pending. *)
Theorem channel_accounts {A : Type} (cap : nat) (os : list (channel_op A)) :
  Z.of_nat (length os) <= U64_MAX ->
  let '(c, got) := foldl (channel_step cap) (mkChannel [] 0, []) os in
  (got ++ ch_pending c) `sublist_of` sent os /\
  Z.of_nat (length (sent os)) = Z.of_nat (length (got ++ ch_pending c)) + ch_dropped c /\
  (length (ch_pending c) <= cap)%nat.
Proof.
  induction os as [|o os IH] using rev_ind; intros Hl; [by split_and!; [..|simpl; lia]|].
  rewrite length_app in Hl. simpl in Hl. rewrite foldl_app. specialize (IH ltac:(lia)).
  destruct (foldl _ _ os) as [c got]. destruct IH as (Hs & Hc & Hp).
  pose proof (sublist_length _ _ Hs). unfold sent in *. pose proof (omap_length_le (fun o => match o with Send a => Some a | Recv => None end) os) as Hle.
  rewrite omap_app. destruct o as [a|]; cbn [foldl channel_step fst snd omap list_omap].
  - unfold try_send. destruct (Nat.leb_spec cap (length (ch_pending c))); cbn [ch_pending ch_dropped].
    + split_and!; [by apply sublist_inserts_r| |lia]. rewrite length_app. simpl. rewrite wrap64_small by lia. lia.
    + split_and!; [rewrite app_assoc; by apply sublist_app| |rewrite length_app; simpl; lia].
      rewrite app_assoc, !(length_app _ [a]). simpl. lia.
  - rewrite app_nil_r. unfold ch_recv. destruct (ch_pending c) as [|a rest] eqn:E; cbn [ch_pending ch_dropped].
    + rewrite E. done.
    + rewrite <- app_assoc. split_and!; [done|done|simpl in Hp; lia].
Qed.

(** ** The enrichment cache *)

Definition stamp (m : FileMeta) : Z * Z * (Z * Z) := (fm_mtime_ns m, fm_size m, fm_id m).

(** Every entry was computed for its path in one of the worlds seen. *)
Definition cache_ok (ws : list FileWorld) (cache : BoundedMap string CacheEntry) : Prop :=
  bm_ok cache /\
  forall p e, bm_peek p cache = Some e ->
    exists w m, w ∈ ws /\ fw_metadata w p = Some m /\
      stamp m = (cache_mtime_ns e, cache_size e, cache_file_id e) /\
      cache_enrichment e = fresh_enrichment w p (fm_size m).

(** The stamp of a file identifies its content: what the cache relies on. *)
Definition stamps_faithful (ws : list FileWorld) : Prop :=
  forall w w' p m m', w ∈ ws -> w' ∈ ws -> fw_metadata w p = Some m -> fw_metadata w' p = Some m' ->
    stamp m = stamp m' -> fw_hash w p = fw_hash w' p /\ fw_verify w p = fw_verify w' p.

(** What a path's enrichment is without a cache. *)
Definition enrich_reference (w : FileWorld) (path : string) : FileEnrichment :=
  match fw_metadata w path with
  | Some meta => if fm_is_file meta then fresh_enrichment w path (fm_size meta)
                 else mkFileEnrichment None Signature_Unsupported
  | None => mkFileEnrichment None Signature_Unsupported
  end.

Lemma cache_ok_mono ws w cache : cache_ok ws cache -> cache_ok (w :: ws) cache.
Proof.
  intros [Hb H]. split; [done|]. intros p e He. destruct (H p e He) as (w' & m & Hw & Hrest).
  exists w', m. split; [by apply elem_of_cons; right|done].
Qed.

Lemma cache_insert_ok ws w path meta cache :
  cache_ok ws cache -> tick cache < U64_MAX -> w ∈ ws -> fw_metadata w path = Some meta ->
  cache_ok ws (bm_insert path (mkCacheEntry (fm_mtime_ns meta) (fm_size meta) (fm_id meta)
                                 (fresh_enrichment w path (fm_size meta))) cache).
Proof.
  intros [Hb Hpk] Ht Hw Em.
  destruct (bm_insert_client cache path (mkCacheEntry (fm_mtime_ns meta) (fm_size meta) (fm_id meta)
    (fresh_enrichment w path (fm_size meta))) Hb Ht) as (Hi1 & Hi2 & [Hi3 _]).
  split; [done|]. intros p e He. destruct (decide (p = path)) as [->|Hne].
  - rewrite Hi2 in He. injection He as <-. exists w, meta. done.
  - destruct (Hi3 p Hne) as [E|E]; rewrite E in He; [eauto|done].
Qed.

Lemma enrich_ok ws w path cache :
  cache_ok ws cache -> stamps_faithful (w :: ws) -> tick cache + 2 <= U64_MAX ->
  let '(en, cache') := enrich w path cache in
  en = enrich_reference w path /\ cache_ok (w :: ws) cache' /\ tick cache' <= tick cache + 2.
Proof.
  intros Hc Hf Ht. apply (cache_ok_mono _ w) in Hc. pose proof Hc as [Hb Hpk]. unfold enrich, enrich_reference.
  destruct (fw_metadata w path) as [meta|] eqn:Em; [|split_and!; [done..|lia]].
  destruct (fm_is_file meta); cbn [negb]; [|split_and!; [done..|lia]].
  destruct (bm_get_client cache path Hb) as (Hg1 & Hg2 & Hg3 & _ & _ & Hg4); [lia|].
  destruct (bm_get path cache) as [entry cache']. cbn [fst snd] in *. subst entry.
  pose proof (bm_ok_tick _ Hb).
  assert (cache_ok (w :: ws) cache') as Hc' by (split; [done|]; intros p e; rewrite Hg3; apply Hpk).
  assert (w ∈ w :: ws) as Hw by (apply elem_of_cons; by left).
  destruct (bm_peek path cache) as [e|] eqn:Ep; cbn [mbind option_bind].
  2: { split_and!; [done|by apply cache_insert_ok; [..|lia| |]|rewrite bm_insert_tick, wrap64_small; lia]. }
  destruct (_ && _) eqn:Ecmp.
  - rewrite !andb_true_iff, !Z.eqb_eq, bool_decide_eq_true in Ecmp. destruct Ecmp as [[E1 E2] E3].
    split_and!; [|done|lia]. destruct (Hpk path e Ep) as (w' & m & Hw' & Em' & Hst & ->).
    injection Hst as S1 S2 S3. unfold fresh_enrichment.
    destruct (Hf w w' path meta m Hw Hw' Em Em') as [-> ->]; [unfold stamp; congruence|].
    by rewrite S2, E2.
  - split_and!; [done|by apply cache_insert_ok; [..|lia| |]|rewrite bm_insert_tick, wrap64_small; lia].
Qed.

(** A sequence of enrichments, each in the world of its moment. *)
Fixpoint enrich_run (reqs : list (FileWorld * string)) (cache : BoundedMap string CacheEntry)
    : list FileEnrichment * BoundedMap string CacheEntry :=
  match reqs with
  | [] => ([], cache)
  | (w, p) :: reqs =>
      let '(en, cache) := enrich w p cache in
      let '(ens, cache) := enrich_run reqs cache in
      (en :: ens, cache)
  end.

Lemma enrich_run_ok ws reqs cache :
  cache_ok ws cache -> stamps_faithful (reverse reqs.*1 ++ ws) ->
  tick cache + 2 * Z.of_nat (length reqs) <= U64_MAX ->
  (enrich_run reqs cache).1 = (fun r => enrich_reference r.1 r.2) <$> reqs.
Proof.
  revert ws cache. induction reqs as [|[w p] reqs IH]; intros ws cache Hc Hf Ht; [done|].
  cbn [enrich_run fmap list_fmap length fst snd] in *. rewrite reverse_cons, <- app_assoc in Hf.
  pose proof (enrich_ok ws w p cache Hc) as Hone. destruct (enrich w p cache) as [en cache'].
  destruct Hone as (-> & Hc' & Ht').
  { intros w1 w2 q m1 m2 H1 H2. apply Hf; rewrite elem_of_app; by right. }
  { lia. }
  specialize (IH (w :: ws) cache' Hc' Hf). destruct (enrich_run reqs cache') as [ens c]. cbn [fst] in *.
  f_equal. apply IH. lia.
Qed.

(** The enrichment cache is transparent: as long as a path's modification time,
    size and file id identify its content, every enrichment of any sequence of
    requests is the one computed without a cache, however files change, appear and
    disappear in between. *)
Theorem enrich_cache_transparent reqs cache :
  bm_new CACHE_CAP = Some cache -> stamps_faithful reqs.*1 ->
  2 * Z.of_nat (length reqs) <= U64_MAX ->
  (enrich_run reqs cache).1 = (fun r => enrich_reference r.1 r.2) <$> reqs.
Proof.
  intros Hnew Hf Hl. destruct (bm_abs_new _ _ Hnew) as (_ & Ht & Habs).
  apply (enrich_run_ok []).
  - split; [by exists []|]. intros p e. by rewrite (bm_abs_peek _ _ p Habs).
  - rewrite app_nil_r. intros w w' p m m' H1 H2. apply Hf; by rewrite <- elem_of_reverse.
  - lia.
Qed.

(** ** Witnesses *)

Lemma jsonl_crash_safe_witness :
  split_nl (jsonl_open (foldl jsonl_run [] [([true; false], [123]); ([false], [])])) =
    [bool_line true; bool_line false; [123]; bool_line false; []].
Proof.
  rewrite (jsonl_crash_safe [([true; false], [123]); ([false], [])]); [reflexivity|].
  repeat constructor; simpl; [|apply not_elem_of_nil]. rewrite list_elem_of_singleton. discriminate.
Defined.

Lemma channel_accounts_witness :
  let '(c, got) := foldl (channel_step 1) (mkChannel [] 0, []) [Send 1; Send 2; Recv; Send 3] in
  got = [1] /\ ch_pending c = [3] /\ ch_dropped c = 1 /\ (length (ch_pending c) <= 1)%nat.
Proof.
  destruct (channel_accounts 1 [Send 1; Send 2; Recv; Send 3]) as (_ & _ & H); [vm_compute; discriminate|].
  split_and!; [reflexivity..|exact H].
Defined.

(** A file replaced between two requests. *)
Definition world (n : Z) (hash : string) : FileWorld :=
  mkFileWorld (fun _ => Some (mkFileMeta true n 10 (1, n))) (fun _ => Some hash) (fun _ => Signature_Unsupported).

Lemma enrich_cache_transparent_witness :
  exists cache, bm_new CACHE_CAP = Some cache /\
    fe_sha256 <$> (enrich_run [(world 1 "a", "/x"); (world 1 "a", "/x"); (world 2 "b", "/x")] cache).1 =
      [Some "a"; Some "a"; Some "b"].
Proof.
  eexists. split; [reflexivity|].
  rewrite (enrich_cache_transparent [(world 1 "a", "/x"); (world 1 "a", "/x"); (world 2 "b", "/x")]);
    [reflexivity|reflexivity| |vm_compute; discriminate].
  intros w w' p m m' Hw Hw'. cbn [fmap list_fmap fst] in *. rewrite !elem_of_cons, elem_of_nil in Hw, Hw'.
  destruct Hw as [->|[->|[->|[]]]], Hw' as [->|[->|[->|[]]]]; intros [= <-] [= <-]; (done || discriminate).
Defined.
