(* ===== verification/Frame.v ===== *)
(** * Frame: JSON-lines framing of the local IPC channel (src/crates/ipc/src/frame.rs)

    The reader is the sequence of buffers [fill_buf] will return: each a
    non-empty piece of the byte stream, an I/O error, or the end of the stream.
    [consume] drops what was used from the first piece.  The message type and
    its JSON codec are the [SerdeLine] argument. *)
From stdpp Require Import base gmap strings list.
From Stdlib Require Import ZArith Lia.
From S2P Require Import Prelude Fs Utf8 Spool.

Definition MAX_MESSAGE_BYTES : Z := 1024 * 1024.

Inductive FrameError :=
  | FrameIo (source : io_error)
  | TooLarge
  | NotUtf8
  | Parse.

Definition reader : Type := list (result bytes io_error).

(** [available.iter().position(|&b| b == b'\n')]. *)
Fixpoint newline_pos (l : bytes) : option nat :=
  match l with
  | [] => None
  | b :: l => if b =? NEWLINE then Some O else S <$> newline_pos l
  end.

Definition consume (n : nat) (available : bytes) (rest : reader) : reader :=
  match drop n available with [] => rest | more => Ok more :: rest end.

(** The loop: [total] and [out] are the bytes read so far. *)
Fixpoint read_line_loop (total : Z) (out : bytes) (s : reader) : result (Z * bytes) FrameError * reader :=
  match s with
  | [] => (Ok (total, out), [])
  | Err e :: rest => (Err (FrameIo e), rest)
  | Ok available :: rest =>
      if bool_decide (available = []) then (Ok (total, out), rest)
      else
        match newline_pos available with
        | Some pos =>
            let n := S pos in
            if MAX_MESSAGE_BYTES <? total + Z.of_nat n then (Err TooLarge, s)
            else if utf8_valid (take n available)
            then (Ok (total + Z.of_nat n, out ++ take n available), consume n available rest)
            else (Err NotUtf8, s)
        | None =>
            let n := length available in
            if MAX_MESSAGE_BYTES <? total + Z.of_nat n then (Err TooLarge, s)
            else if utf8_valid available
            then read_line_loop (total + Z.of_nat n) (out ++ available) rest
            else (Err NotUtf8, s)
        end
  end.

Definition read_line_bounded (s : reader) : result (Z * bytes) FrameError * reader :=
  read_line_loop 0 [] s.

(** [buf.pop()] behind [ends_with]. *)
Definition pop_if (b : Z) (l : bytes) : option bytes :=
  match last l with Some x => if x =? b then Some (removelast l) else None | None => None end.
Definition strip_line_end (buf : bytes) : bytes :=
  match pop_if NEWLINE buf with
  | Some buf => default buf (pop_if CARRIAGE_RETURN buf)
  | None => buf
  end.

Section Messages.
Context {T : Type} `{!SerdeLine T}.

Definition read_message (s : reader) : result (option T) FrameError * reader :=
  match read_line_bounded s with
  | (Err e, s) => (Err e, s)
  | (Ok (n, buf), s) =>
      if n =? 0 then (Ok None, s)
      else match from_line (strip_line_end buf) with
           | Some m => (Ok (Some m), s)
           | None => (Err Parse, s)
           end
  end.

(** [write_message]: the bytes handed to [write_all] and [flush]. *)
Definition write_message (message : T) : result bytes FrameError :=
  let buf := to_line message in
  if MAX_MESSAGE_BYTES <? Z.of_nat (length buf) + 1 then Err TooLarge
  else Ok (buf ++ [NEWLINE]).

(** Reading on, [n] times. *)
Fixpoint read_messages (n : nat) (s : reader) : list (result (option T) FrameError) :=
  match n with
  | O => []
  | S n => let '(r, s) := read_message s in r :: read_messages n s
  end.
End Messages.

(** ** Lemmas *)

Lemma newline_pos_some l pos :
  newline_pos l = Some pos -> exists a b, l = a ++ NEWLINE :: b /\ length a = pos /\ (NEWLINE ∉ a).
Proof.
  revert pos. induction l as [|x l IH]; intros pos; simpl; [done|].
  destruct (Z.eqb_spec x NEWLINE) as [->|Hx].
  - intros [= <-]. exists [], l. split_and!; [done..|set_solver].
  - intros (p & Hp & ->)%fmap_Some. destruct (IH _ Hp) as (a & b & -> & <- & Ha).
    exists (x :: a), b. split_and!; [done..|set_solver].
Qed.

Lemma newline_pos_none l : newline_pos l = None -> NEWLINE ∉ l.
Proof.
  induction l as [|x l IH]; simpl; [set_solver|]. destruct (Z.eqb_spec x NEWLINE) as [|Hx]; [done|].
  intros Hn%fmap_None. set_solver.
Qed.

Lemma first_newline_unique a b a' b' :
  a ++ NEWLINE :: b = a' ++ NEWLINE :: b' -> NEWLINE ∉ a -> NEWLINE ∉ a' -> a = a' /\ b = b'.
Proof.
  revert a'. induction a as [|x a IH]; intros [|y a'] E Ha Ha'; simplify_eq/=; [done|set_solver..|].
  destruct (IH a') as [-> ->]; [done|set_solver..|done].
Qed.

Lemma newline_beyond c x line rest :
  c ++ x = line ++ NEWLINE :: rest -> NEWLINE ∉ c -> exists line', line = c ++ line' /\ x = line' ++ NEWLINE :: rest.
Proof.
  revert line. induction c as [|y c IH]; intros line E Hc; [by exists line|].
  destruct line as [|z line]; simplify_eq/=; [set_solver|].
  destruct (IH line) as (l' & -> & ->); [done|set_solver|]. by exists l'.
Qed.

(** Pieces cut at character boundaries. *)
Definition pieces_ok (cs : list bytes) : Prop := Forall (fun c => c <> [] /\ utf8_valid c = true) cs.

Lemma pieces_eof cs : pieces_ok cs -> concat cs = [] -> cs = [].
Proof. destruct cs as [|c cs]; [done|]. intros [[Hc _] _]%Forall_cons E. by destruct c. Qed.

(** One line is read whatever the pieces. *)
Lemma read_line_pieces cs line rest total out :
  pieces_ok cs -> concat cs = line ++ NEWLINE :: rest -> NEWLINE ∉ line ->
  total + Z.of_nat (length line) + 1 <= MAX_MESSAGE_BYTES ->
  exists cs', read_line_loop total out (Ok <$> cs) =
      (Ok (total + Z.of_nat (length line) + 1, out ++ line ++ [NEWLINE]), Ok <$> cs') /\
    pieces_ok cs' /\ concat cs' = rest.
Proof.
  revert line total out. induction cs as [|c cs IH]; intros line total out Hok E Hline Hmax.
  { by destruct line. }
  apply Forall_cons in Hok as [[Hne Hu] Hok]. cbn [concat fmap list_fmap read_line_loop] in *.
  rewrite bool_decide_false by done. destruct (newline_pos c) as [pos|] eqn:Ep.
  - destruct (newline_pos_some _ _ Ep) as (a & b & -> & <- & Ha). rewrite <- app_assoc in E. simpl in E.
    destruct (first_newline_unique _ _ _ _ E Ha Hline) as [-> <-].
    destruct (utf8_split_newline _ _ Hu) as [Hu1 Hu2].
    assert (take (S (length line)) (line ++ NEWLINE :: b) = line ++ [NEWLINE]) as Et.
    { rewrite take_app_ge by lia. by replace (S (length line) - length line)%nat with 1%nat by lia. }
    assert (drop (S (length line)) (line ++ NEWLINE :: b) = b) as Ed.
    { rewrite drop_app_ge by lia. by replace (S (length line) - length line)%nat with 1%nat by lia. }
    rewrite Et, Hu1. unfold consume. rewrite Ed. destruct (Z.ltb_spec MAX_MESSAGE_BYTES (total + Z.of_nat (S (length line)))); [lia|].
    replace (total + Z.of_nat (S (length line))) with (total + Z.of_nat (length line) + 1) by lia.
    destruct b as [|x b]; [by exists cs|]. exists ((x :: b) :: cs). split_and!; [done| |done].
    constructor; [done|done].
  - apply newline_pos_none in Ep. destruct (newline_beyond _ _ _ _ E Ep) as (line' & -> & E').
    rewrite length_app in *. destruct (Z.ltb_spec MAX_MESSAGE_BYTES (total + Z.of_nat (length c))); [lia|].
    rewrite Hu. destruct (IH line' (total + Z.of_nat (length c)) (out ++ c) Hok E') as (cs' & -> & Hok' & Hc');
      [set_solver|lia|].
    exists cs'. split_and!; [|done..]. rewrite <- !app_assoc. do 3 f_equal. lia.
Qed.

(** ** Theorems *)

Section Theorems.
Context {T : Type} `{!SerdeLine T}.

Lemma strip_written (m : T) : strip_line_end (to_line m ++ [NEWLINE]) = to_line m.
Proof.
  unfold strip_line_end, pop_if. rewrite last_snoc. cbn [Z.eqb Pos.eqb NEWLINE]. rewrite removelast_last.
  pose proof (line_no_cr m) as Hcr. destruct (last (to_line m)) as [x|]; [|done].
  by destruct (Z.eqb_spec x CARRIAGE_RETURN) as [->|].
Qed.

(** Framing round trip: messages written one after the other are read back
    in order, followed by a clean end of stream, however the transport cuts the
    bytes into pieces, as long as no cut falls inside a character. *)
Theorem frames_roundtrip (ms : list T) (frames : list bytes) (cs : list bytes) :
  Forall2 (fun m f => write_message m = Ok f) ms frames -> pieces_ok cs -> concat cs = concat frames ->
  read_messages (S (length ms)) (Ok <$> cs) = ((fun m => Ok (Some m)) <$> ms) ++ [Ok None].
Proof.
  intros Hw. revert cs. induction Hw as [|m f ms frames Hm _ IH]; intros cs Hok E.
  { simpl in E. by rewrite (pieces_eof cs Hok E). }
  unfold write_message in Hm. destruct (Z.ltb_spec MAX_MESSAGE_BYTES (Z.of_nat (length (to_line m)) + 1)); [done|].
  injection Hm as <-. simpl in E. rewrite <- app_assoc in E.
  destruct (read_line_pieces cs _ _ 0 [] Hok E (line_no_newline m)) as (cs' & Hr & Hok' & Hc'); [lia|].
  cbn [length read_messages]. unfold read_message, read_line_bounded. rewrite Hr. cbn [app].
  destruct (Z.eqb_spec (0 + Z.of_nat (length (to_line m)) + 1) 0); [lia|].
  rewrite strip_written, from_to_line. cbn [fmap list_fmap app]. f_equal. by apply IH.
Qed.
End Theorems.

(** Bounded memory: whatever the peer sends, a line that is returned is a
    valid UTF-8 prefix of the stream of at most [MAX_MESSAGE_BYTES] bytes, its
    length is reported exactly, and it holds no newline but the one at its
    end. *)
Theorem line_bounded (cs : list bytes) n buf s' :
  Forall (fun c => c <> []) cs -> read_line_bounded (Ok <$> cs) = (Ok (n, buf), s') ->
  n = Z.of_nat (length buf) /\ n <= MAX_MESSAGE_BYTES /\ utf8_valid buf = true /\
  (exists cs', s' = Ok <$> cs' /\ concat cs = buf ++ concat cs') /\
  (forall a b, buf = a ++ NEWLINE :: b -> NEWLINE ∉ a -> b = []).
Proof.
  assert (forall cs total out,
    Forall (fun c => c <> []) cs -> total = Z.of_nat (length out) -> total <= MAX_MESSAGE_BYTES ->
    utf8_valid out = true -> NEWLINE ∉ out ->
    read_line_loop total out (Ok <$> cs) = (Ok (n, buf), s') ->
    n = Z.of_nat (length buf) /\ n <= MAX_MESSAGE_BYTES /\ utf8_valid buf = true /\
    (exists cs', s' = Ok <$> cs' /\ out ++ concat cs = buf ++ concat cs') /\
    (forall a b, buf = a ++ NEWLINE :: b -> NEWLINE ∉ a -> b = [])) as H.
  2: { intros Hcs. apply (H cs 0 []); [done|done|done|done|set_solver]. }
  clear cs. induction cs as [|c cs IH]; intros total out Hcs Ht Hm Hu Hn; cbn [fmap list_fmap read_line_loop concat].
  { intros [= <- <- <-]. split_and!; [done..| |intros a b -> _; set_solver]. by exists []. }
  apply Forall_cons in Hcs as [Hc Hcs]. rewrite bool_decide_false by done.
  destruct (newline_pos c) as [pos|] eqn:Ep.
  - destruct (Z.ltb_spec MAX_MESSAGE_BYTES (total + Z.of_nat (S pos))); [done|].
    destruct (utf8_valid (take (S pos) c)) eqn:Eu; [|done]. intros [= <- <- <-].
    destruct (newline_pos_some _ _ Ep) as (a & b & -> & <- & Ha).
    assert (take (S (length a)) (a ++ NEWLINE :: b) = a ++ [NEWLINE]) as Et.
    { rewrite take_app_ge by lia. by replace (S (length a) - length a)%nat with 1%nat by lia. }
    rewrite Et in *. rewrite !length_app. split_and!; [simpl; lia|done|by rewrite utf8_app| |].
    + unfold consume. rewrite drop_app_ge by lia. replace (S (length a) - length a)%nat with 1%nat by lia.
      destruct b as [|x b]; simpl; [exists cs|exists ((x :: b) :: cs)]; (split; [done|]); by rewrite <- !app_assoc.
    + intros a' b' E Ha'. rewrite app_assoc in E.
      destruct (first_newline_unique _ [] _ _ E) as [_ <-]; [set_solver|done..].
  - destruct (Z.ltb_spec MAX_MESSAGE_BYTES (total + Z.of_nat (length c))); [done|].
    destruct (utf8_valid c) eqn:Eu; [|done]. intros Hr. apply newline_pos_none in Ep.
    destruct (IH (total + Z.of_nat (length c)) (out ++ c)) as (H1 & H2 & H3 & (cs' & -> & H4) & H5);
      [done|rewrite length_app; lia|lia|by rewrite utf8_app|set_solver|done|].
    split_and!; [done..| |done]. exists cs'. split; [done|]. by rewrite <- H4, <- app_assoc.
Qed.

(** A character cut by the transport: a well-formed line delivered in two
    pieces with the cut inside a multi-byte character is refused as not UTF-8,
    since each piece is validated on its own. *)
Theorem split_character_refused (a b : bytes) rest :
  a <> [] -> NEWLINE ∉ a -> Z.of_nat (length a) <= MAX_MESSAGE_BYTES ->
  utf8_valid (a ++ b) = true -> utf8_valid a = false ->
  read_line_bounded (Ok a :: Ok b :: rest) = (Err NotUtf8, Ok a :: Ok b :: rest).
Proof.
  intros Hne Hn Hm _ Hu. unfold read_line_bounded. cbn [read_line_loop]. rewrite bool_decide_false by done.
  destruct (newline_pos a) as [pos|] eqn:Ep.
  { destruct (newline_pos_some _ _ Ep) as (x & y & -> & _). set_solver. }
  destruct (Z.ltb_spec MAX_MESSAGE_BYTES (0 + Z.of_nat (length a))); [lia|]. by rewrite Hu.
Qed.

Lemma frames_roundtrip_witness :
  read_messages 3 (Ok <$> [[116; 114]; [117; 101; 10; 102]; [97; 108; 115; 101; 10]]) =
    [Ok (Some true); Ok (Some false); Ok None].
Proof.
  apply (frames_roundtrip [true; false] [bool_line true ++ [NEWLINE]; bool_line false ++ [NEWLINE]]).
  - repeat constructor.
  - repeat constructor; discriminate.
  - reflexivity.
Defined.

Lemma line_bounded_witness :
  exists s', read_line_bounded (Ok <$> [[116; 114]; [117; 10; 102]]) = (Ok (4, [116; 114; 117; 10]), s') /\
  4 = Z.of_nat 4 /\ 4 <= MAX_MESSAGE_BYTES /\ utf8_valid [116; 114; 117; 10] = true /\
  (exists cs', s' = Ok <$> cs' /\ [116; 114; 117; 10; 102] = [116; 114; 117; 10] ++ concat cs') /\
  (forall a b, [116; 114; 117; 10] = a ++ NEWLINE :: b -> NEWLINE ∉ a -> b = []).
Proof.
  eexists. split; [vm_compute; reflexivity|].
  apply (line_bounded [[116; 114]; [117; 10; 102]] 4 [116; 114; 117; 10]); [|reflexivity].
  repeat constructor; discriminate.
Defined.

(** The two bytes of an e-acute in two pieces. *)
Lemma split_character_refused_witness :
  read_line_bounded [Ok [34; 195]; Ok [169; 34; 10]] = (Err NotUtf8, [Ok [34; 195]; Ok [169; 34; 10]]).
Proof.
  apply (split_character_refused [34; 195] [169; 34; 10] []); try reflexivity; try discriminate.
  unfold NEWLINE. rewrite !elem_of_cons, elem_of_nil. lia.
Defined.
