(* ===== verification/Heartbeat.v ===== *)
(** * Heartbeat: sensor silence detection (src/crates/tamper/src/heartbeat.rs)

    Each sensor increments a shared atomic counter; the monitor polls the
    counters and raises one verdict per silence.  The counters are a store
    shared by the sensors and the monitor ([Arc<AtomicU64>]): a handle holds
    the counter's address, so a clone of a handle pulses the same counter. *)
From stdpp Require Import base gmap strings list.
From Stdlib Require Import ZArith Lia.
From S2P Require Import Prelude Schema.

Definition counters : Type := gmap nat Z.

Record SensorHeartbeat := mkHeartbeat { hb_name : string; hb_counter : nat }.

Definition hb_count (st : counters) (hb : SensorHeartbeat) : Z := default 0 (st !! hb_counter hb).

(** [new]: a fresh counter, at zero. *)
Definition heartbeat_new (st : counters) (name : string) : SensorHeartbeat * counters :=
  let a := fresh (dom st) in (mkHeartbeat name a, <[a := 0]> st).
Definition from_counter (name : string) (a : nat) : SensorHeartbeat := mkHeartbeat name a.

(** [fetch_add] wraps. *)
Definition pulse_n (n : Z) (hb : SensorHeartbeat) (st : counters) : counters :=
  <[hb_counter hb := wrap64 (hb_count st hb + n)]> st.
Definition pulse (hb : SensorHeartbeat) (st : counters) : counters := pulse_n 1 hb st.

Record Watched := mkWatched {
  w_heartbeat : SensorHeartbeat;
  w_deadline_ns : Z;
  w_last_count : Z;
  w_last_change_ns : Z;
  w_alerted : bool }.

Record SilenceVerdict := mkSilence { sv_sensor : string; sv_silent_for_ns : Z; sv_deadline_ns : Z }.

Record SilenceMonitor := mkMonitor { watched : list Watched }.

Definition monitor_new : SilenceMonitor := mkMonitor [].

Definition register (st : counters) (hb : SensorHeartbeat) (deadline_ns now_ns : Z)
    (mon : SilenceMonitor) : SilenceMonitor :=
  mkMonitor (watched mon ++ [mkWatched hb deadline_ns (hb_count st hb) now_ns false]).

(** The body of [poll]'s loop. *)
Definition poll_one (st : counters) (now_ns : Z) (w : Watched) : option SilenceVerdict * Watched :=
  let count := hb_count st (w_heartbeat w) in
  if negb (count =? w_last_count w)
  then (None, mkWatched (w_heartbeat w) (w_deadline_ns w) count now_ns false)
  else
    let silent_for := now_ns -sat w_last_change_ns w in
    if (w_deadline_ns w <? silent_for) && negb (w_alerted w)
    then (Some (mkSilence (hb_name (w_heartbeat w)) silent_for (w_deadline_ns w)),
          mkWatched (w_heartbeat w) (w_deadline_ns w) (w_last_count w) (w_last_change_ns w) true)
    else (None, w).

Definition poll (st : counters) (now_ns : Z) (mon : SilenceMonitor) : list SilenceVerdict * SilenceMonitor :=
  let rs := poll_one st now_ns <$> watched mon in
  (omap fst rs, mkMonitor (snd <$> rs)).

Definition any_silent (mon : SilenceMonitor) : bool := existsb w_alerted (watched mon).

Definition sensor_health (st : counters) (mon : SilenceMonitor) : list SensorHealth :=
  (fun w => mkSensorHealth (hb_name (w_heartbeat w)) (hb_count st (w_heartbeat w)) (w_alerted w))
    <$> watched mon.

(** ** The reference: what a history of polls says of one sensor *)

Record Registration := mkReg {
  rg_heartbeat : SensorHeartbeat; rg_deadline : Z; rg_count : Z; rg_time : Z }.

(** The current episode: the count last seen, when it was first seen, and the
    times of the polls that have seen it unchanged since. *)
Fixpoint episode (hb : SensorHeartbeat) (e : Z * Z * list Z) (h : list (counters * Z)) : Z * Z * list Z :=
  match h with
  | [] => e
  | (st, t) :: h =>
      let '(c, tc, since) := e in
      episode hb (if hb_count st hb =? c then (c, tc, since ++ [t]) else (hb_count st hb, t, [])) h
  end.

Definition reg_episode (h : list (counters * Z)) (r : Registration) : Z * Z * list Z :=
  episode (rg_heartbeat r) (rg_count r, rg_time r, []) h.

(** Silent past the deadline at the poll of time [t]. *)
Definition overdue (r : Registration) (tc t : Z) : bool := rg_deadline r <? t -sat tc.

(** A verdict is due: the count is unchanged, this poll is past the deadline
    and no earlier poll of the episode was. *)
Definition due (h : list (counters * Z)) (st : counters) (t : Z) (r : Registration) : option SilenceVerdict :=
  let '(c, tc, since) := reg_episode h r in
  if (hb_count st (rg_heartbeat r) =? c) && overdue r tc t && forallb (fun t' => negb (overdue r tc t')) since
  then Some (mkSilence (hb_name (rg_heartbeat r)) (t -sat tc) (rg_deadline r)) else None.

Definition reported (h : list (counters * Z)) (r : Registration) : bool :=
  let '(_, tc, since) := reg_episode h r in existsb (overdue r tc) since.

(** Registrations made before the first poll, and polls one after the other. *)
Definition register_all (rs : list Registration) : SilenceMonitor :=
  mkMonitor ((fun r => mkWatched (rg_heartbeat r) (rg_deadline r) (rg_count r) (rg_time r) false) <$> rs).
Definition polls (h : list (counters * Z)) (mon : SilenceMonitor) : SilenceMonitor :=
  foldl (fun mon '(st, t) => (poll st t mon).2) mon h.

(** ** Lemmas *)

Lemma episode_snoc hb e h st t :
  episode hb e (h ++ [(st, t)]) =
  let '(c, tc, since) := episode hb e h in
  if hb_count st hb =? c then (c, tc, since ++ [t]) else (hb_count st hb, t, []).
Proof.
  revert e. induction h as [|[st' t'] h IH]; intros [[c tc] since]; [done|]. cbn [app episode]. by rewrite IH.
Qed.

(** The fields the monitor keeps for a sensor after [h]. *)
Definition watched_after (h : list (counters * Z)) (r : Registration) : Watched :=
  let '(c, tc, _) := reg_episode h r in
  mkWatched (rg_heartbeat r) (rg_deadline r) c tc (reported h r).

Lemma poll_one_step h st t r :
  poll_one st t (watched_after h r) = (due h st t r, watched_after (h ++ [(st, t)]) r).
Proof.
  unfold watched_after, due, reported, reg_episode. rewrite episode_snoc.
  destruct (episode _ _ h) as [[c tc] since]. unfold poll_one.
  cbn [w_heartbeat w_last_count w_deadline_ns w_last_change_ns w_alerted].
  destruct (_ =? c); cbn [negb andb]; [|done].
  assert (forallb (fun t' => negb (overdue r tc t')) since = negb (existsb (overdue r tc) since)) as ->.
  { induction since as [|x since IH]; [done|]. simpl. by rewrite IH, negb_orb. }
  rewrite existsb_app. cbn [existsb]. unfold overdue. rewrite orb_false_r.
  destruct (rg_deadline r <? t -sat tc), (existsb _ since); done.
Qed.

Lemma polls_after h rs : watched (polls h (register_all rs)) = watched_after h <$> rs.
Proof.
  induction h as [|[st t] h IH] using rev_ind; [done|].
  unfold polls in *. rewrite foldl_app. cbn [foldl]. unfold poll at 1. cbn [snd watched]. rewrite IH.
  rewrite <- !list_fmap_compose. apply list_fmap_ext. intros i r _. cbn. by rewrite poll_one_step.
Qed.

(** ** Theorems *)

(** Silence is reported exactly: after any history of polls, with the
    sensors pulsing freely in between, the next poll returns, in registration
    order, one verdict for each sensor whose count has not moved since a poll
    (or its registration) more than its deadline ago and was not already
    reported since; the health list marks exactly the sensors reported in their
    current silence. *)
Theorem silence_exact rs h st t :
  (poll st t (polls h (register_all rs))).1 = omap (due h st t) rs /\
  sensor_health st (polls h (register_all rs)) =
    (fun r => mkSensorHealth (hb_name (rg_heartbeat r)) (hb_count st (rg_heartbeat r)) (reported h r)) <$> rs /\
  any_silent (polls h (register_all rs)) = existsb (reported h) rs.
Proof.
  unfold poll, sensor_health, any_silent. rewrite polls_after. cbn [fst].
  assert (forall r, w_heartbeat (watched_after h r) = rg_heartbeat r /\ w_alerted (watched_after h r) = reported h r) as Hw.
  { intros r. unfold watched_after. by destruct (reg_episode h r) as [[??]?]. }
  split_and!.
  - rewrite <- list_fmap_compose. induction rs as [|r rs IH]; [done|]. cbn. by rewrite poll_one_step, IH.
  - rewrite <- list_fmap_compose. apply list_fmap_ext. intros i r _. cbn. by destruct (Hw r) as [-> ->].
  - induction rs as [|r rs IH]; [done|]. cbn. by rewrite IH, (proj2 (Hw r)).
Qed.

(** One verdict per silence: a sensor whose counter stays at the same value
    over a stretch of polls is reported at most once in it, and exactly once
    when one of those polls comes more than the deadline after the value was
    first seen. *)
Theorem one_verdict_per_silence r h ts st c tc :
  reg_episode h r = (c, tc, []) -> hb_count st (rg_heartbeat r) = c ->
  length (omap (fun i => due (h ++ ((fun t => (st, t)) <$> take i ts)) st (nth i ts 0) r) (seq 0 (length ts))) =
  (if existsb (overdue r tc) ts then 1 else 0)%nat.
Proof.
  intros E Hc.
  assert (forall k, reg_episode (h ++ ((fun t => (st, t)) <$> k)) r = (c, tc, k)) as Hep.
  { intros k. induction k as [|t k IH] using rev_ind; [by rewrite app_nil_r|].
    rewrite fmap_app, app_assoc. unfold reg_episode in *. cbn [fmap list_fmap]. rewrite episode_snoc, IH.
    by rewrite Hc, Z.eqb_refl. }
  induction ts as [|t ts IH] using rev_ind; [done|].
  rewrite length_app. cbn [length]. rewrite Nat.add_1_r, seq_S, omap_app, length_app, Nat.add_0_l.
  assert (forall i, i ∈ seq 0 (length ts) ->
    due (h ++ ((fun t => (st, t)) <$> take i (ts ++ [t]))) st (nth i (ts ++ [t]) 0) r =
    due (h ++ ((fun t => (st, t)) <$> take i ts)) st (nth i ts 0) r) as Heq.
  { intros i Hi%elem_of_seq. rewrite take_app_le, app_nth1 by lia. done. }
  rewrite (omap_elem_ext _ _ _ Heq), IH. cbn [omap list_omap]. rewrite take_app_length, app_nth2, Nat.sub_diag by lia.
  cbn [nth]. unfold due. rewrite Hep, Hc, Z.eqb_refl. cbn [andb]. rewrite existsb_app. cbn [existsb].
  assert (forallb (fun t' => negb (overdue r tc t')) ts = negb (existsb (overdue r tc) ts)) as ->.
  { clear. induction ts as [|x since IH]; [done|]. simpl. by rewrite IH, negb_orb. }
  destruct (overdue r tc t), (existsb _ ts); done.
Qed.

Lemma one_verdict_per_silence_witness :
  let r := mkReg (mkHeartbeat "etw" 0) 30 0 100 in
  let st := {[ 0%nat := 7 ]} in
  let ts := [120; 150; 160] in
  length (omap (fun i => due ([(st, 110)] ++ ((fun t => (st, t)) <$> take i ts)) st (nth i ts 0) r) (seq 0 3)) =
  (if existsb (overdue r 110) ts then 1 else 0)%nat.
Proof.
  apply (one_verdict_per_silence (mkReg (mkHeartbeat "etw" 0) 30 0 100) [({[ 0%nat := 7 ]}, 110)]
           [120; 150; 160] {[ 0%nat := 7 ]} 7 110); reflexivity.
Defined.
