(* ===== verification/PathFilter.v ===== *)
(** * PathFilter: the in-kernel file path filter
    (src/crates/sensors/linux/wire/src/path_filter.rs)

    Paths are byte strings, as the kernel program sees them. *)
From stdpp Require Import base gmap strings list.
From Stdlib Require Import ZArith Lia Ascii.
From Stdlib Require String.
From S2P Require Import Prelude Fs.

(** The bytes of a literal. *)
Definition b8 (s : string) : bytes := (fun a => Z.of_nat (nat_of_ascii a)) <$> String.list_ascii_of_string s.

Definition O_WRONLY : Z := 1.
Definition O_RDWR : Z := 2.
Definition O_CREAT : Z := 64.
Definition O_TRUNC : Z := 512.

Definition is_write_intent (flags : Z) : bool :=
  negb (Z.land flags (Z.lor (Z.lor (Z.lor O_WRONLY O_RDWR) O_CREAT) O_TRUNC) =? 0).

Definition SLASH : Z := 47.
Definition is_ascii_digit (b : Z) : bool := (48 <=? b) && (b <=? 57).
Definition starts_with_bytes (p l : bytes) : bool := bool_decide (take (length p) l = p).

(** [matches!(path.get(i), Some(&b'/'))] with the path dropped to [i]. *)
Definition slash_at (l : bytes) : bool := match l with b :: _ => b =? SLASH | [] => false end.

(** The pid loop: the number of digits passed and what follows the separator. *)
Fixpoint scan_pid (n : nat) (l : bytes) : option (nat * bytes) :=
  match l with
  | [] => None
  | b :: l => if b =? SLASH then Some (n, l) else if is_ascii_digit b then scan_pid (S n) l else None
  end.

Definition is_proc_pid_root (path : bytes) : bool :=
  if negb (starts_with_bytes (b8 "/proc/") path) then false
  else
    let rest := drop 6 path in
    if slash_at rest then true
    else
      match scan_pid 0 rest with
      | None => false
      | Some (O, _) => false
      | Some (S _, tail) =>
          if slash_at tail then true
          else if negb (starts_with_bytes (b8 "root") tail) then false
          else match drop 4 tail with [] => true | b :: _ => b =? SLASH end
      end.

Definition is_filtered_path (path : bytes) (flags : Z) (is_mutation : bool) : bool :=
  if is_proc_pid_root path then false
  else if starts_with_bytes (b8 "/proc/") path then negb (is_mutation || is_write_intent flags)
  else if starts_with_bytes (b8 "/sys/") path then true
  else if starts_with_bytes (b8 "/dev/shm/") path || starts_with_bytes (b8 "/tmp/") path
          || starts_with_bytes (b8 "/var/tmp/") path
  then negb (is_mutation || is_write_intent flags)
  else starts_with_bytes (b8 "/dev/") path.

(** ** Lemmas *)

Lemma starts_with_bytes_spec p l : starts_with_bytes p l = true <-> exists r, l = p ++ r.
Proof.
  unfold starts_with_bytes. rewrite bool_decide_eq_true. split.
  - intros E. exists (drop (length p) l). by rewrite <- E at 1; rewrite take_drop.
  - intros [r ->]. apply take_app_length.
Qed.

Lemma slash_at_spec l : slash_at l = true <-> exists r, l = SLASH :: r.
Proof.
  destruct l as [|b l]; simpl; [naive_solver|]. rewrite Z.eqb_eq. naive_solver.
Qed.

Definition digits (l : bytes) : Prop := Forall (fun b => is_ascii_digit b = true) l.

Lemma digit_not_slash b : is_ascii_digit b = true -> b <> SLASH.
Proof. unfold is_ascii_digit, SLASH. rewrite andb_true_iff. lia. Qed.

Lemma scan_pid_spec n l k tail :
  scan_pid n l = Some (k, tail) <-> exists pid, digits pid /\ l = pid ++ SLASH :: tail /\ k = (n + length pid)%nat.
Proof.
  split.
  - revert n. induction l as [|b l IH]; intros n; simpl; [done|].
    destruct (Z.eqb_spec b SLASH) as [->|Hb].
    + intros [= <- <-]. exists []. split_and!; [constructor|done|simpl; lia].
    + destruct (is_ascii_digit b) eqn:Ed; [|done]. intros (pid & Hd & -> & ->)%IH.
      exists (b :: pid). split_and!; [by constructor|done|simpl; lia].
  - intros (pid & Hd & -> & ->). revert n. induction Hd as [|b pid Hb _ IH]; intros n; simpl.
    + by rewrite Nat.add_0_r.
    + destruct (Z.eqb_spec b SLASH) as [E|_]; [by apply digit_not_slash in Hb|]. rewrite Hb, IH. f_equal. f_equal. lia.
Qed.

Lemma scan_pid_some l pid tail :
  digits pid -> l = pid ++ SLASH :: tail -> scan_pid 0 l = Some (length pid, tail).
Proof. intros Hd ->. apply scan_pid_spec. by exists pid. Qed.

(** ** Theorems *)

(** The paths the recogniser accepts: [/proc/<pid>/root] and what is below it,
    and any path with a doubled slash after [/proc] or after the pid. *)
Definition proc_pid_root (path : bytes) : Prop :=
  (exists r, path = b8 "/proc//" ++ r) \/
  (exists pid tail, digits pid /\ pid <> [] /\ path = b8 "/proc/" ++ pid ++ SLASH :: tail /\
     ((exists r, tail = SLASH :: r) \/ tail = b8 "root" \/ exists r, tail = b8 "root/" ++ r)).

Lemma proc_pid_root_exact path : is_proc_pid_root path = true <-> proc_pid_root path.
Proof.
  unfold is_proc_pid_root, proc_pid_root. destruct (starts_with_bytes (b8 "/proc/") path) eqn:Ep; cbn [negb].
  2: { split; [done|]. intros H.
       assert (starts_with_bytes (b8 "/proc/") path = true); [|congruence]. apply starts_with_bytes_spec.
       destruct H as [[r ->]|(pid & tail & _ & _ & -> & _)]; [|eauto]. exists (SLASH :: r). done. }
  apply starts_with_bytes_spec in Ep as [rest ->].
  change (drop 6 (b8 "/proc/" ++ rest)) with rest.
  destruct (slash_at rest) eqn:Es.
  { apply slash_at_spec in Es as [r ->]. split; [|done]. intros _. left. by exists r. }
  assert (forall r, rest <> SLASH :: r) as Hns.
  { intros r ->. done. }
  destruct (scan_pid 0 rest) as [[[|k] tail]|] eqn:Ek.
  - split; [done|]. apply scan_pid_spec in Ek as (pid & _ & -> & Hl). destruct pid; [|done]. by destruct (Hns tail).
  - apply scan_pid_spec in Ek as (pid & Hd & -> & Hl). destruct (slash_at tail) eqn:Et.
    { apply slash_at_spec in Et as [r ->]. split; [|done]. intros _. right. exists pid, (SLASH :: r).
      split_and!; [done|by destruct pid|done|eauto]. }
    transitivity (tail = b8 "root" \/ exists r, tail = b8 "root/" ++ r).
    + destruct (starts_with_bytes (b8 "root") tail) eqn:Er; cbn [negb].
      * apply starts_with_bytes_spec in Er as [r ->]. change (drop 4 (b8 "root" ++ r)) with r.
        destruct r as [|b r]; [rewrite app_nil_r; tauto|]. rewrite Z.eqb_eq. split.
        -- intros ->. right. by exists r.
        -- intros [E|[r' E]]; [by apply (f_equal length) in E|].
           change (b8 "root/" ++ r') with (b8 "root" ++ SLASH :: r') in E. apply app_inv_head in E. congruence.
      * split; [done|]. intros H. assert (starts_with_bytes (b8 "root") tail = true); [|congruence].
        apply starts_with_bytes_spec. destruct H as [->|[r ->]]; [exists []|exists (SLASH :: r)]; done.
    + split.
      * intros H. right. exists pid, tail. split_and!; [done|by destruct pid|done|tauto].
      * intros [[r E]|(pid' & tail' & Hd' & Hn' & E & H)].
        -- change (b8 "/proc//" ++ r) with (b8 "/proc/" ++ SLASH :: r) in E. apply app_inv_head in E. by apply Hns in E.
        -- apply app_inv_head in E.
           pose proof (scan_pid_some _ pid' tail' Hd' E) as H1. rewrite (scan_pid_some _ pid tail Hd eq_refl) in H1.
           injection H1 as _ <-. destruct H as [[r ->]|H]; [done|exact H].
  - split; [done|]. intros [[r E]|(pid & tail & Hd & Hn & E & H)].
    + change (b8 "/proc//" ++ r) with (b8 "/proc/" ++ SLASH :: r) in E. apply app_inv_head in E. by apply Hns in E.
    + apply app_inv_head in E. by rewrite (scan_pid_some _ pid tail Hd E) in Ek.
Qed.

(** C12. What the kernel filter may drop.  A path through [/proc/<pid>/root] (or
    with the doubled slashes the kernel collapses) is never dropped; and an
    event is dropped only if its path is below [/sys/], or below [/dev/] and
    not [/dev/shm/], or it is a pure read below [/proc/], [/tmp/], [/var/tmp/]
    or [/dev/shm/]: no mutation or write-intent open elsewhere is lost. *)
Theorem filter_drops_only path flags is_mutation :
  (proc_pid_root path -> is_filtered_path path flags is_mutation = false) /\
  (is_filtered_path path flags is_mutation = true ->
     ~ proc_pid_root path /\
     ((exists r, path = b8 "/sys/" ++ r) \/
      ((exists r, path = b8 "/dev/" ++ r) /\ ~ (exists r, path = b8 "/dev/shm/" ++ r)) \/
      (is_mutation = false /\ Z.land flags 579 = 0 /\
         exists d r, d ∈ [b8 "/proc/"; b8 "/tmp/"; b8 "/var/tmp/"; b8 "/dev/shm/"] /\ path = d ++ r))).
Proof.
  rewrite <- proc_pid_root_exact. unfold is_filtered_path.
  destruct (is_proc_pid_root path); [done|]. split; [done|].
  assert (forall d, d ∈ [b8 "/proc/"; b8 "/tmp/"; b8 "/var/tmp/"; b8 "/dev/shm/"] ->
    starts_with_bytes d path = true -> negb (is_mutation || is_write_intent flags) = true ->
    is_mutation = false /\ Z.land flags 579 = 0 /\
    exists d r, d ∈ [b8 "/proc/"; b8 "/tmp/"; b8 "/var/tmp/"; b8 "/dev/shm/"] /\ path = d ++ r) as Hread.
  { intros d Hd [r ->]%starts_with_bytes_spec Hn. rewrite negb_orb, andb_true_iff in Hn. destruct Hn as [Hm Hw].
    apply negb_true_iff in Hm as ->. unfold is_write_intent in Hw. rewrite negb_involutive, Z.eqb_eq in Hw. split_and!; [done|exact Hw|eauto]. }
  destruct (starts_with_bytes (b8 "/proc/") path) eqn:E1.
  { intros Hn. split; [done|]. right. right. apply (Hread (b8 "/proc/")); [set_solver|done|done]. }
  destruct (starts_with_bytes (b8 "/sys/") path) eqn:E2.
  { intros _. split; [done|]. left. by apply starts_with_bytes_spec. }
  destruct (starts_with_bytes (b8 "/dev/shm/") path) eqn:E3;
    [|destruct (starts_with_bytes (b8 "/tmp/") path) eqn:E4;
      [|destruct (starts_with_bytes (b8 "/var/tmp/") path) eqn:E5]]; cbn [orb]; intros Hn; (split; [done|]).
  - right. right. apply (Hread (b8 "/dev/shm/")); [set_solver|done|done].
  - right. right. apply (Hread (b8 "/tmp/")); [set_solver|done|done].
  - right. right. apply (Hread (b8 "/var/tmp/")); [set_solver|done|done].
  - right. left. split; [by apply starts_with_bytes_spec|]. rewrite <- starts_with_bytes_spec. congruence.
Qed.

Lemma filter_drops_only_witness :
  is_filtered_path (b8 "/proc/4242/root/etc/shadow") 0 false = false /\
  ~ proc_pid_root (b8 "/tmp/x").
Proof.
  split.
  - apply (filter_drops_only (b8 "/proc/4242/root/etc/shadow") 0 false). apply proc_pid_root_exact. reflexivity.
  - apply (filter_drops_only (b8 "/tmp/x") 0 false). reflexivity.
Defined.
