(* ===== verification/Netlink.v ===== *)
(** * Netlink: the socket, flow and process queries of the Linux sensor

    Sources: src/crates/sensors/linux/netlink/src/ (wire.rs, conntrack_attrs.rs,
    proc_events.rs, socket.rs, conntrack_socket.rs, proc_socket.rs, proc_join.rs,
    proc_meta.rs, normalize.rs, lib.rs).  The decoders run in [Run]: an index out of
    range panics.  The kernel is an argument: the answer to the bytes of a request is
    a list of [recv] results, and a dump that waits for more than it is given is
    [DumpBlocks].  The contents of /proc are arguments of [inode_to_pids] and
    [resolve]. *)
From stdpp Require Import base gmap strings list.
From Stdlib Require Import ZArith Lia.
From S2P Require Import Prelude Str Text Fs Schema Bytes.
#[local] Open Scope string_scope.
#[local] Open Scope list_scope.
#[local] Open Scope Z_scope.
#[local] Open Scope edr_scope.

(** ** wire.rs *)

Definition NLMSG_HDR_LEN : Z := 16.
Definition NLMSG_ERROR : Z := 2.
Definition NLMSG_DONE : Z := 3.
Definition SOCK_DIAG_BY_FAMILY : Z := 20.
Definition NLM_F_REQUEST : Z := 1.
Definition NLM_F_DUMP : Z := Z.lor 0x100 0x200.
Definition AF_INET : Z := 2.
Definition AF_INET6 : Z := 10.
Definition IPPROTO_TCP : Z := 6.
Definition TCP_ESTABLISHED : Z := 1.
Definition TCP_LISTEN : Z := 10.

Record NlMsgHeader := mkNlMsgHeader {
  nl_len : Z; nl_msg_type : Z; nl_flags : Z; nl_seq : Z; nl_pid : Z }.

Definition NlMsgHeader_to_bytes (h : NlMsgHeader) : bytes :=
  to_le 4 (nl_len h) ++ to_le 2 (nl_msg_type h) ++ to_le 2 (nl_flags h)
  ++ to_le 4 (nl_seq h) ++ to_le 4 (nl_pid h).

Definition NlMsgHeader_parse (buf : bytes) : Run (option NlMsgHeader) :=
  if blen buf <? NLMSG_HDR_LEN then Ran None else
  len <-run ne_at 4 buf 0;
  msg_type <-run ne_at 2 buf 4;
  flags <-run ne_at 2 buf 6;
  seq <-run ne_at 4 buf 8;
  pid <-run ne_at 4 buf 12;
  Ran (Some (mkNlMsgHeader len msg_type flags seq pid)).

Record DiagRequestV2 := mkDiagRequestV2 { req_family : Z; req_protocol : Z; req_states : Z }.
Definition DIAG_REQ_LEN : Z := 56.

(** Zeroes up to the cookie at 48..56, which is INET_DIAG_NOCOOKIE. *)
Definition DiagRequestV2_to_bytes (r : DiagRequestV2) : bytes :=
  [req_family r; req_protocol r; 0; 0] ++ to_le 4 (req_states r) ++ replicate 40 0 ++ replicate 8 0xff.

Record DiagMsg := mkDiagMsg {
  dm_family : Z; dm_state : Z; dm_local : IpAddr; dm_local_port : Z;
  dm_remote : IpAddr; dm_remote_port : Z; dm_uid : Z; dm_inode : Z }.
Definition DIAG_MSG_LEN : Z := 72.

(** [bytes] is the 16-byte slice of the caller. *)
Definition parse_addr (family : Z) (b : bytes) : Run (option IpAddr) :=
  if family =? AF_INET then octets <-run slice b 0 4; Ran (Some (V4 (from_be octets)))
  else if family =? AF_INET6 then Ran (if blen b =? 16 then Some (V6 (from_be b)) else None)
  else Ran None.

Definition DiagMsg_parse (payload : bytes) : Run (option DiagMsg) :=
  if blen payload <? DIAG_MSG_LEN then Ran None else
  family <-run at_index payload 0;
  state <-run at_index payload 1;
  local_port <-run be_at 2 payload 4;
  remote_port <-run be_at 2 payload 6;
  lb <-run slice payload 8 24;
  l <-run parse_addr family lb;
  loc <-some l;
  rb <-run slice payload 24 40;
  r <-run parse_addr family rb;
  remote <-some r;
  uid <-run ne_at 4 payload 64;
  inode <-run ne_at 4 payload 68;
  Ran (Some (mkDiagMsg family state loc local_port remote remote_port uid inode)).

(** ** proc_events.rs *)

Definition CN_IDX_PROC : Z := 1.
Definition CN_VAL_PROC : Z := 1.
Definition PROC_CN_MCAST_LISTEN : Z := 1.
Definition CN_MSG_HDR_LEN : Z := 20.

Record CnMsgHeader := mkCnMsgHeader {
  cn_idx : Z; cn_val : Z; cn_seq : Z; cn_ack : Z; cn_len : Z; cn_flags : Z }.

Definition CnMsgHeader_to_bytes (h : CnMsgHeader) : bytes :=
  to_le 4 (cn_idx h) ++ to_le 4 (cn_val h) ++ to_le 4 (cn_seq h) ++ to_le 4 (cn_ack h)
  ++ to_le 2 (cn_len h) ++ to_le 2 (cn_flags h).

Definition CnMsgHeader_parse (buf : bytes) : Run (option CnMsgHeader) :=
  if blen buf <? CN_MSG_HDR_LEN then Ran None else
  idx <-run ne_at 4 buf 0;
  val <-run ne_at 4 buf 4;
  seq <-run ne_at 4 buf 8;
  ack <-run ne_at 4 buf 12;
  len <-run ne_at 2 buf 16;
  flags <-run ne_at 2 buf 18;
  Ran (Some (mkCnMsgHeader idx val seq ack len flags)).

Definition PROC_EVENT_HDR_LEN : Z := 16.
Definition PROC_EVENT_FORK : Z := 1.
Definition PROC_EVENT_EXEC : Z := 2.
Definition PROC_EVENT_EXIT : Z := 0x80000000.

Inductive ProcEvent :=
  | PE_Fork (parent_pid parent_tgid child_pid child_tgid : Z)
  | PE_Exec (pid tgid : Z)
  | PE_Exit (pid tgid exit_code exit_signal : Z)
  | PE_Other (what : Z).

Definition ProcEvent_parse (payload : bytes) : Run (option ProcEvent) :=
  if blen payload <? PROC_EVENT_HDR_LEN then Ran None else
  what <-run ne_at 4 payload 0;
  body <-run slice_from payload PROC_EVENT_HDR_LEN;
  if what =? PROC_EVENT_FORK then
    if blen body <? 16 then Ran None else
    parent_pid <-run ne_at 4 body 0;
    parent_tgid <-run ne_at 4 body 4;
    child_pid <-run ne_at 4 body 8;
    child_tgid <-run ne_at 4 body 12;
    Ran (Some (PE_Fork parent_pid parent_tgid child_pid child_tgid))
  else if what =? PROC_EVENT_EXEC then
    if blen body <? 8 then Ran None else
    pid <-run ne_at 4 body 0;
    tgid <-run ne_at 4 body 4;
    Ran (Some (PE_Exec pid tgid))
  else if what =? PROC_EVENT_EXIT then
    if blen body <? 16 then Ran None else
    pid <-run ne_at 4 body 0;
    tgid <-run ne_at 4 body 4;
    exit_code <-run ne_at 4 body 8;
    exit_signal <-run ne_at 4 body 12;
    Ran (Some (PE_Exit pid tgid exit_code exit_signal))
  else Ran (Some (PE_Other what)).

(** ** conntrack_attrs.rs *)

Definition NLA_F_NESTED : Z := 0x8000.
Definition CTA_TUPLE_ORIG : Z := 1.
Definition CTA_TUPLE_REPLY : Z := 2.
Definition CTA_STATUS : Z := 3.
Definition CTA_PROTOINFO : Z := 4.
Definition CTA_TIMEOUT : Z := 7.
Definition CTA_MARK : Z := 8.
Definition CTA_COUNTERS_ORIG : Z := 9.
Definition CTA_COUNTERS_REPLY : Z := 10.
Definition CTA_ID : Z := 12.
Definition CTA_TUPLE_IP : Z := 1.
Definition CTA_TUPLE_PROTO : Z := 2.
Definition CTA_IP_V4_SRC : Z := 1.
Definition CTA_IP_V4_DST : Z := 2.
Definition CTA_IP_V6_SRC : Z := 3.
Definition CTA_IP_V6_DST : Z := 4.
Definition CTA_PROTO_NUM : Z := 1.
Definition CTA_PROTO_SRC_PORT : Z := 2.
Definition CTA_PROTO_DST_PORT : Z := 3.
Definition CTA_COUNTERS_PACKETS : Z := 1.
Definition CTA_COUNTERS_BYTES : Z := 2.
Definition CTA_PROTOINFO_TCP : Z := 1.
Definition CTA_PROTOINFO_TCP_STATE : Z := 1.

Record Attr := mkAttr { attr_type : Z; attr_nested : bool; attr_value : bytes }.

(** NLA_ALIGN and NLMSG_ALIGN: [(n + 3) & !3]. *)
Definition align4 (n : Z) : Z := Z.ldiff (n + 3) 3.

(** [offset] grows by four or more in every round: [fuel] is the length of [buf]. *)
Fixpoint parse_attrs_loop (fuel : nat) (buf : bytes) (offset : Z) (attrs : list Attr) : Run (list Attr) :=
  if offset + 4 <=? blen buf then
    match fuel with
    | O => Spun
    | S fuel =>
        len <-run ne_at 2 buf offset;
        raw_type <-run ne_at 2 buf (offset + 2);
        if (len <? 4) || (blen buf <? offset + len) then Ran attrs else
        value <-run slice buf (offset + 4) (offset + len);
        parse_attrs_loop fuel buf (offset + align4 len)
          (attrs ++ [mkAttr (Z.ldiff raw_type NLA_F_NESTED) (negb (Z.land raw_type NLA_F_NESTED =? 0)) value])
    end
  else Ran attrs.
Definition parse_attrs (buf : bytes) : Run (list Attr) := parse_attrs_loop (length buf) buf 0 [].

Definition read_be16 (value : bytes) : option Z :=
  match value with a :: b :: _ => Some (from_be [a; b]) | _ => None end.
Definition read_be32 (value : bytes) : Run (option Z) :=
  if blen value <? 4 then Ran None else v <-run be_at 4 value 0; Ran (Some v).
Definition read_be64 (value : bytes) : Run (option Z) :=
  if blen value <? 8 then Ran None else v <-run be_at 8 value 0; Ran (Some v).

Record FlowTuple := mkFlowTuple {
  ft_src : IpAddr; ft_dst : IpAddr; ft_protocol : Z; ft_src_port : option Z; ft_dst_port : option Z }.

(** The five mutable variables of [FlowTuple::parse]. *)
Record TupleAcc := mkTupleAcc {
  ta_src : option IpAddr; ta_dst : option IpAddr; ta_protocol : option Z;
  ta_src_port : option Z; ta_dst_port : option Z }.

Definition with_src (a : option IpAddr) (t : TupleAcc) : TupleAcc :=
  mkTupleAcc a (ta_dst t) (ta_protocol t) (ta_src_port t) (ta_dst_port t).
Definition with_dst (a : option IpAddr) (t : TupleAcc) : TupleAcc :=
  mkTupleAcc (ta_src t) a (ta_protocol t) (ta_src_port t) (ta_dst_port t).

(** [Ipv4Addr::new(value[0], value[1], value[2], value[3])]. *)
Definition v4_of (value : bytes) : Run IpAddr := o <-run slice value 0 4; Ran (V4 (from_be o)).

Definition ip_attr_step (t : TupleAcc) (a : Attr) : Run TupleAcc :=
  let value := attr_value a in
  if (attr_type a =? CTA_IP_V4_SRC) && (blen value =? 4) then v <-run v4_of value; Ran (with_src (Some v) t)
  else if (attr_type a =? CTA_IP_V4_DST) && (blen value =? 4) then v <-run v4_of value; Ran (with_dst (Some v) t)
  else if attr_type a =? CTA_IP_V6_SRC then
    Ran (if blen value =? 16 then with_src (Some (V6 (from_be value))) t else t)
  else if attr_type a =? CTA_IP_V6_DST then
    Ran (if blen value =? 16 then with_dst (Some (V6 (from_be value))) t else t)
  else Ran t.

Definition proto_attr_step (t : TupleAcc) (a : Attr) : Run TupleAcc :=
  let value := attr_value a in
  if attr_type a =? CTA_PROTO_NUM then
    Ran (mkTupleAcc (ta_src t) (ta_dst t) (head value) (ta_src_port t) (ta_dst_port t))
  else if attr_type a =? CTA_PROTO_SRC_PORT then
    Ran (mkTupleAcc (ta_src t) (ta_dst t) (ta_protocol t) (read_be16 value) (ta_dst_port t))
  else if attr_type a =? CTA_PROTO_DST_PORT then
    Ran (mkTupleAcc (ta_src t) (ta_dst t) (ta_protocol t) (ta_src_port t) (read_be16 value))
  else Ran t.

Definition tuple_attr_step (t : TupleAcc) (a : Attr) : Run TupleAcc :=
  if negb (attr_nested a) then Ran t
  else if attr_type a =? CTA_TUPLE_IP then
    l <-run parse_attrs (attr_value a); run_fold ip_attr_step l t
  else if attr_type a =? CTA_TUPLE_PROTO then
    l <-run parse_attrs (attr_value a); run_fold proto_attr_step l t
  else Ran t.

Definition FlowTuple_parse (tuple_value : bytes) : Run (option FlowTuple) :=
  l <-run parse_attrs tuple_value;
  t <-run run_fold tuple_attr_step l (mkTupleAcc None None None None None);
  src <-some ta_src t;
  dst <-some ta_dst t;
  protocol <-some ta_protocol t;
  Ran (Some (mkFlowTuple src dst protocol (ta_src_port t) (ta_dst_port t))).

Record FlowCounters := mkFlowCounters { fc_packets : Z; fc_bytes : Z }.

Definition counters_step (acc : option Z * option Z) (a : Attr) : Run (option Z * option Z) :=
  if attr_type a =? CTA_COUNTERS_PACKETS then v <-run read_be64 (attr_value a); Ran (v, acc.2)
  else if attr_type a =? CTA_COUNTERS_BYTES then v <-run read_be64 (attr_value a); Ran (acc.1, v)
  else Ran acc.

Definition FlowCounters_parse (value : bytes) : Run (option FlowCounters) :=
  l <-run parse_attrs value;
  acc <-run run_fold counters_step l (None, None);
  packets <-some acc.1;
  byts <-some acc.2;
  Ran (Some (mkFlowCounters packets byts)).

Inductive TcpState :=
  | TS_None | TS_SynSent | TS_SynRecv | TS_Established | TS_FinWait | TS_CloseWait
  | TS_LastAck | TS_TimeWait | TS_Close | TS_Listen | TS_Other (raw : Z).

Definition TcpState_from (raw : Z) : TcpState :=
  match raw with
  | 0 => TS_None | 1 => TS_SynSent | 2 => TS_SynRecv | 3 => TS_Established | 4 => TS_FinWait
  | 5 => TS_CloseWait | 6 => TS_LastAck | 7 => TS_TimeWait | 8 => TS_Close | 9 => TS_Listen
  | other => TS_Other other
  end.

(** The inner loop returns from the function at the first state attribute. *)
Fixpoint find_state (l : list Attr) : option (option TcpState) :=
  match l with
  | [] => None
  | a :: l => if attr_type a =? CTA_PROTOINFO_TCP_STATE then Some (TcpState_from <$> head (attr_value a))
              else find_state l
  end.
Fixpoint tcp_state_loop (l : list Attr) : Run (option TcpState) :=
  match l with
  | [] => Ran None
  | a :: l =>
      if (attr_type a =? CTA_PROTOINFO_TCP) && attr_nested a then
        inner <-run parse_attrs (attr_value a);
        match find_state inner with Some r => Ran r | None => tcp_state_loop l end
      else tcp_state_loop l
  end.
Definition parse_tcp_state (protoinfo_value : bytes) : Run (option TcpState) :=
  l <-run parse_attrs protoinfo_value; tcp_state_loop l.

Record ConntrackFlow := mkConntrackFlow {
  cf_orig : FlowTuple; cf_reply : FlowTuple; cf_status : Z; cf_timeout_secs : Z; cf_mark : Z; cf_id : Z;
  cf_counters_orig : option FlowCounters; cf_counters_reply : option FlowCounters;
  cf_tcp_state : option TcpState }.

(** The mutable variables of [ConntrackFlow::parse]. *)
Record FlowAcc := mkFlowAcc {
  fa_orig : option FlowTuple; fa_reply : option FlowTuple; fa_status : Z; fa_timeout : Z; fa_mark : Z;
  fa_id : Z; fa_counters_orig : option FlowCounters; fa_counters_reply : option FlowCounters;
  fa_tcp_state : option TcpState }.

Definition flow_attr_step (f : FlowAcc) (a : Attr) : Run FlowAcc :=
  let '(mkFlowAcc orig reply status timeout mark id co cr ts) := f in
  let v := attr_value a in
  let t := attr_type a in
  let n := attr_nested a in
  if (t =? CTA_TUPLE_ORIG) && n then
    orig <-run FlowTuple_parse v; Ran (mkFlowAcc orig reply status timeout mark id co cr ts)
  else if (t =? CTA_TUPLE_REPLY) && n then
    reply <-run FlowTuple_parse v; Ran (mkFlowAcc orig reply status timeout mark id co cr ts)
  else if t =? CTA_STATUS then
    x <-run read_be32 v; Ran (mkFlowAcc orig reply (default 0 x) timeout mark id co cr ts)
  else if t =? CTA_TIMEOUT then
    x <-run read_be32 v; Ran (mkFlowAcc orig reply status (default 0 x) mark id co cr ts)
  else if t =? CTA_MARK then
    x <-run read_be32 v; Ran (mkFlowAcc orig reply status timeout (default 0 x) id co cr ts)
  else if t =? CTA_ID then
    x <-run read_be32 v; Ran (mkFlowAcc orig reply status timeout mark (default 0 x) co cr ts)
  else if (t =? CTA_COUNTERS_ORIG) && n then
    co <-run FlowCounters_parse v; Ran (mkFlowAcc orig reply status timeout mark id co cr ts)
  else if (t =? CTA_COUNTERS_REPLY) && n then
    cr <-run FlowCounters_parse v; Ran (mkFlowAcc orig reply status timeout mark id co cr ts)
  else if (t =? CTA_PROTOINFO) && n then
    ts <-run parse_tcp_state v; Ran (mkFlowAcc orig reply status timeout mark id co cr ts)
  else Ran f.

Definition ConntrackFlow_parse (payload : bytes) : Run (option ConntrackFlow) :=
  l <-run parse_attrs payload;
  f <-run run_fold flow_attr_step l (mkFlowAcc None None 0 0 0 0 None None None);
  orig <-some fa_orig f;
  reply <-some fa_reply f;
  Ran (Some (mkConntrackFlow orig reply (fa_status f) (fa_timeout f) (fa_mark f) (fa_id f)
               (fa_counters_orig f) (fa_counters_reply f) (fa_tcp_state f))).

(** ** socket.rs, conntrack_socket.rs, proc_socket.rs *)

(** What a [recv] returns: a datagram, the timeout of the socket, an error. *)
Inductive Recv := Datagram (d : bytes) | TimedOut | RecvFails.
Definition RECV_BUF : Z := 65536.
(** [&buf[..received_len]]: the kernel cuts a datagram to the buffer. *)
Definition received (d : bytes) : bytes := take (Z.to_nat RECV_BUF) d.

Inductive NetlinkError := NetlinkError_Io | NetlinkError_Kernel (errno : Z).

(** [i32::from_ne_bytes] of the first four bytes, -1 for a shorter payload. *)
Definition as_i32 (z : Z) : Z := if z <? 2147483648 then z else z - 4294967296.
Definition error_errno (payload : bytes) : Z :=
  match payload with b0 :: b1 :: b2 :: b3 :: _ => as_i32 (from_le [b0; b1; b2; b3]) | _ => -1 end.

(** One message of a datagram: the loop goes on, leaves the outer loop
    ([break 'recv]), or the function returns an error. *)
Inductive Step (A : Type) := Continue (a : A) | Break (a : A) | Return (e : NetlinkError).
Arguments Continue {A} a.
Arguments Break {A} a.
Arguments Return {A} e.

(** [while let Some(header) = NlMsgHeader::parse(&received[offset..])]: the loop
    the three readers share.  [offset] grows by 16 or more in every round. *)
Fixpoint walk_frames {A : Type} (step : Z -> bytes -> A -> Run (Step A)) (fuel : nat) (buf : bytes) (offset : Z)
    (acc : A) : Run (Step A) :=
  rest <-run slice_from buf offset;
  header <-run NlMsgHeader_parse rest;
  match header with
  | None => Ran (Continue acc)
  | Some header =>
      match fuel with
      | O => Spun
      | S fuel =>
          let msg_len := nl_len header in
          if (msg_len <? NLMSG_HDR_LEN) || (blen buf <? offset + msg_len) then Ran (Continue acc) else
          payload <-run slice buf (offset + NLMSG_HDR_LEN) (offset + msg_len);
          s <-run step (nl_msg_type header) payload acc;
          match s with
          | Continue acc => walk_frames step fuel buf (offset + align4 msg_len) acc
          | s => Ran s
          end
      end
  end.
Definition walk_datagram {A : Type} (step : Z -> bytes -> A -> Run (Step A)) (d : bytes) (acc : A)
    : Run (Step A) := walk_frames step (length (received d)) (received d) 0 acc.

(** The end of a dump; [DumpBlocks]: it waits in [recv]. *)
Inductive Dump (A : Type) := DumpOk (a : A) | DumpErr (e : NetlinkError) | DumpBlocks.
Arguments DumpOk {A} a.
Arguments DumpErr {A} e.
Arguments DumpBlocks {A}.

(** ['recv: loop]. *)
Fixpoint read_dump_loop {A : Type} (step : Z -> bytes -> A -> Run (Step A)) (rs : list Recv) (acc : A)
    : Run (Dump A) :=
  match rs with
  | [] => Ran DumpBlocks
  | Datagram d :: rs =>
      s <-run walk_datagram step d acc;
      match s with
      | Continue acc => read_dump_loop step rs acc
      | Break acc => Ran (DumpOk acc)
      | Return e => Ran (DumpErr e)
      end
  | _ :: _ => Ran (DumpErr NetlinkError_Io)
  end.

Definition diag_step (msg_type : Z) (payload : bytes) (entries : list DiagMsg) : Run (Step (list DiagMsg)) :=
  if msg_type =? NLMSG_DONE then Ran (Break entries)
  else if msg_type =? NLMSG_ERROR then
    let errno := error_errno payload in
    Ran (if negb (errno =? 0) then Return (NetlinkError_Kernel errno) else Break entries)
  else if msg_type =? SOCK_DIAG_BY_FAMILY then
    if DIAG_MSG_LEN <=? blen payload then
      m <-run DiagMsg_parse payload;
      Ran (Continue (match m with Some msg => entries ++ [msg] | None => entries end))
    else Ran (Continue entries)
  else Ran (Continue entries).
Definition diag_read_dump (rs : list Recv) : Run (Dump (list DiagMsg)) := read_dump_loop diag_step rs [].

Definition diag_request (family states : Z) : bytes :=
  let req := DiagRequestV2_to_bytes (mkDiagRequestV2 family IPPROTO_TCP states) in
  NlMsgHeader_to_bytes (mkNlMsgHeader (wrap32 (NLMSG_HDR_LEN + blen req)) SOCK_DIAG_BY_FAMILY
                          (Z.lor NLM_F_REQUEST NLM_F_DUMP) 1 0) ++ req.

(** The kernel side of a socket: [None] when [socket], [bind] or [send] fails. *)
Definition Kernel : Type := bytes -> option (list Recv).

Definition diag_dump_one_family (k : Kernel) (family states : Z) : Run (Dump (list DiagMsg)) :=
  match k (diag_request family states) with
  | None => Ran (DumpErr NetlinkError_Io)
  | Some rs => diag_read_dump rs
  end.

(** [for family in [AF_INET, AF_INET6] { all.extend(dump_one_family(family)?) }]. *)
Fixpoint dump_families {A : Type} (dump_one : Z -> Run (Dump (list A))) (families : list Z) (all : list A)
    : Run (Dump (list A)) :=
  match families with
  | [] => Ran (DumpOk all)
  | family :: families =>
      d <-run dump_one family;
      match d with DumpOk l => dump_families dump_one families (all ++ l) | d => Ran d end
  end.

Definition query_tcp_sockets (k : Kernel) (states : Z) : Run (Dump (list DiagMsg)) :=
  dump_families (fun family => diag_dump_one_family k family states) [AF_INET; AF_INET6] [].

Definition NFNL_SUBSYS_CTNETLINK : Z := 1.
Definition IPCTNL_MSG_CT_GET : Z := 1.
Definition IPCTNL_MSG_CT_NEW : Z := 0.
Definition NFGENMSG_LEN : Z := 4.
Definition ct_new_type : Z := Z.lor (Z.shiftl NFNL_SUBSYS_CTNETLINK 8) IPCTNL_MSG_CT_NEW.

Definition conntrack_step (msg_type : Z) (payload : bytes) (entries : list ConntrackFlow)
    : Run (Step (list ConntrackFlow)) :=
  if msg_type =? NLMSG_DONE then Ran (Break entries)
  else if msg_type =? NLMSG_ERROR then
    let errno := error_errno payload in
    Ran (if negb (errno =? 0) then Return (NetlinkError_Kernel errno) else Break entries)
  else if msg_type =? ct_new_type then
    if NFGENMSG_LEN <=? blen payload then
      body <-run slice_from payload NFGENMSG_LEN;
      f <-run ConntrackFlow_parse body;
      Ran (Continue (match f with Some flow => entries ++ [flow] | None => entries end))
    else Ran (Continue entries)
  else Ran (Continue entries).
Definition conntrack_read_dump (rs : list Recv) : Run (Dump (list ConntrackFlow)) :=
  read_dump_loop conntrack_step rs [].

Definition conntrack_request (family : Z) : bytes :=
  NlMsgHeader_to_bytes (mkNlMsgHeader (wrap32 (NLMSG_HDR_LEN + NFGENMSG_LEN))
                          (Z.lor (Z.shiftl NFNL_SUBSYS_CTNETLINK 8) IPCTNL_MSG_CT_GET)
                          (Z.lor NLM_F_REQUEST NLM_F_DUMP) 1 0) ++ [family; 0; 0; 0].

Definition conntrack_dump_one_family (k : Kernel) (family : Z) : Run (Dump (list ConntrackFlow)) :=
  match k (conntrack_request family) with
  | None => Ran (DumpErr NetlinkError_Io)
  | Some rs => conntrack_read_dump rs
  end.
Definition dump_conntrack (k : Kernel) : Run (Dump (list ConntrackFlow)) :=
  dump_families (conntrack_dump_one_family k) [AF_INET; AF_INET6] [].

Definition proc_step (msg_type : Z) (payload : bytes) (events : list ProcEvent) : Run (Step (list ProcEvent)) :=
  if msg_type =? NLMSG_ERROR then
    let errno := error_errno payload in
    Ran (if negb (errno =? 0) then Return (NetlinkError_Kernel errno) else Continue events)
  else if msg_type =? NLMSG_DONE then
    h <-run CnMsgHeader_parse payload;
    match h with
    | Some h =>
        if (cn_idx h =? CN_IDX_PROC) && (cn_val h =? CN_VAL_PROC) then
          body <-run slice_from payload CN_MSG_HDR_LEN;
          e <-run ProcEvent_parse body;
          Ran (Continue (match e with Some event => events ++ [event] | None => events end))
        else Ran (Continue events)
    | None => Ran (Continue events)
    end
  else Ran (Continue events).

Definition recv_events (r : Recv) : Run (result (list ProcEvent) NetlinkError) :=
  match r with
  | TimedOut => Ran (Ok [])
  | RecvFails => Ran (Err NetlinkError_Io)
  | Datagram d =>
      s <-run walk_datagram proc_step d [];
      Ran (match s with Continue l | Break l => Ok l | Return e => Err e end)
  end.

Definition subscribe_request (own_pid : Z) : bytes :=
  let mcast_op := to_le 4 PROC_CN_MCAST_LISTEN in
  NlMsgHeader_to_bytes (mkNlMsgHeader (wrap32 (NLMSG_HDR_LEN + CN_MSG_HDR_LEN + blen mcast_op)) NLMSG_DONE 0 0
                          own_pid)
  ++ CnMsgHeader_to_bytes (mkCnMsgHeader CN_IDX_PROC CN_VAL_PROC 0 0 (blen mcast_op mod 65536) 0)
  ++ mcast_op.

(** ** proc_join.rs, proc_meta.rs *)

(** An entry of /proc: its name as text, and the targets of its [fd] links
    ([None] where a read fails). *)
Record ProcEntry := mkProcEntry { pe_name : option string; pe_fds : option (list (option string)) }.

Definition parse_socket_inode (link_target : string) : option Z :=
  r ← strip_prefix "socket:[" link_target; r ← strip_suffix "]" r; parse_u64 r.

Definition push_pid (pid inode : Z) (m : gmap Z (list Z)) : gmap Z (list Z) :=
  <[inode := default [] (m !! inode) ++ [pid]]> m.
Definition join_fd (pid : Z) (m : gmap Z (list Z)) (target : option string) : gmap Z (list Z) :=
  match target ≫= parse_socket_inode with Some inode => push_pid pid inode m | None => m end.
Definition join_entry (m : gmap Z (list Z)) (e : ProcEntry) : gmap Z (list Z) :=
  match pe_name e ≫= parse_upto U32_MAX, pe_fds e with
  | Some pid, Some fds => foldl (join_fd pid) m fds
  | _, _ => m
  end.
Definition inode_to_pids (proc : option (list ProcEntry)) : gmap Z (list Z) :=
  match proc with Some entries => foldl join_entry ∅ entries | None => ∅ end.

Record ProcInfo := mkProcInfo { pi_comm : string; pi_ppid : Z; pi_gid : Z }.

Definition status_line (s : option string * option Z * option Z) (line : string)
    : option string * option Z * option Z :=
  let '(comm, ppid, gid) := s in
  match strip_prefix "Name:" line with
  | Some rest => (Some (trim rest), ppid, gid)
  | None =>
      match strip_prefix "PPid:" line with
      | Some rest => (comm, parse_upto U32_MAX (trim rest), gid)
      | None =>
          match strip_prefix "Gid:" line with
          | Some rest => (comm, ppid, head (split_whitespace rest) ≫= parse_upto U32_MAX)
          | None => s
          end
      end
  end.
(** [content]: /proc/<pid>/status, [None] when it cannot be read. *)
Definition resolve (content : option string) : option ProcInfo :=
  content ← content;
  let '(comm, ppid, gid) := foldl status_line (None, None, None) (str_lines content) in
  comm ← comm; ppid ← ppid; gid ← gid; Some (mkProcInfo comm ppid gid).

(** ** lib.rs, normalize.rs *)

Inductive SocketState := SS_Established | SS_Listen | SS_Other (raw : Z).
#[global] Instance SocketState_eq_dec : EqDecision SocketState.
Proof. solve_decision. Defined.
Definition SocketState_from (raw : Z) : SocketState :=
  if raw =? TCP_ESTABLISHED then SS_Established else if raw =? TCP_LISTEN then SS_Listen else SS_Other raw.

(** [SocketAddr]: an address and a port. *)
Record SocketSnapshotEntry := mkSnapshotEntry {
  se_local : IpAddr * Z; se_remote : IpAddr * Z; se_state : SocketState; se_uid : Z; se_inode : Z;
  se_pids : list Z }.
Definition SocketSnapshotEntry_from (msg : DiagMsg) : SocketSnapshotEntry :=
  mkSnapshotEntry (dm_local msg, dm_local_port msg) (dm_remote msg, dm_remote_port msg)
    (SocketState_from (dm_state msg)) (dm_uid msg) (dm_inode msg) [].

Definition with_pids (m : gmap Z (list Z)) (e : SocketSnapshotEntry) : SocketSnapshotEntry :=
  mkSnapshotEntry (se_local e) (se_remote e) (se_state e) (se_uid e) (se_inode e)
    (default [] (m !! se_inode e)).

Definition SNAPSHOT_STATES : Z := Z.lor (Z.shiftl 1 TCP_ESTABLISHED) (Z.shiftl 1 TCP_LISTEN).
Definition map_dump {A B : Type} (f : A -> B) (d : Dump A) : Dump B :=
  match d with DumpOk a => DumpOk (f a) | DumpErr e => DumpErr e | DumpBlocks => DumpBlocks end.
Definition snapshot (k : Kernel) (proc : option (list ProcEntry)) : Run (Dump (list SocketSnapshotEntry)) :=
  msgs <-run query_tcp_sockets k SNAPSHOT_STATES;
  Ran (map_dump (fmap (fun msg => with_pids (inode_to_pids proc) (SocketSnapshotEntry_from msg))) msgs).

Definition proc_event_meta (pid uid : Z) (proc : ProcInfo) (timestamp_ns : Z) : EventMeta :=
  mkEventMeta pid (pi_ppid proc) (User_Unix uid (pi_gid proc)) timestamp_ns (pi_comm proc) None None None.

Definition listen_port_event (entry : SocketSnapshotEntry) (pid : Z) (proc : ProcInfo) (timestamp_ns : Z)
    : option Event :=
  if bool_decide (se_state entry = SS_Listen) then
    Some (Event_ListenPort (mkListenPortEvent (proc_event_meta pid (se_uid entry) proc timestamp_ns)
                              (se_local entry).1 (se_local entry).2))
  else None.

(** [SocketAddr] of the socket and of the tuple agree. *)
Definition same_endpoint (a : IpAddr * Z) (ip : IpAddr) (port : Z) : bool :=
  bool_decide (a.1 = ip) && (a.2 =? port).

Definition attribute_socket (flow : ConntrackFlow) (src_port dst_port : Z) (sock : SocketSnapshotEntry)
    : option (SocketSnapshotEntry * (IpAddr * Z) * bool) :=
  if negb (bool_decide (se_state sock = SS_Established)) then None
  else if same_endpoint (se_local sock) (ft_src (cf_orig flow)) src_port
          && same_endpoint (se_remote sock) (ft_dst (cf_orig flow)) dst_port
  then Some (sock, se_remote sock, true)
  else if same_endpoint (se_local sock) (ft_dst (cf_orig flow)) dst_port
          && same_endpoint (se_remote sock) (ft_src (cf_orig flow)) src_port
  then Some (sock, se_remote sock, false)
  else None.

(** [find_map]. *)
Fixpoint find_map {A B : Type} (f : A -> option B) (l : list A) : option B :=
  match l with [] => None | a :: l => match f a with Some b => Some b | None => find_map f l end end.

Definition attribute_flow (flow : ConntrackFlow) (sockets : list SocketSnapshotEntry)
    : option (SocketSnapshotEntry * (IpAddr * Z) * bool) :=
  if negb (ft_protocol (cf_orig flow) =? IPPROTO_TCP) then None else
  src_port ← ft_src_port (cf_orig flow);
  dst_port ← ft_dst_port (cf_orig flow);
  find_map (attribute_socket flow src_port dst_port) sockets.

Definition flow_event (flow : ConntrackFlow) (sock : SocketSnapshotEntry) (peer : IpAddr * Z)
    (sent received : option FlowCounters) (pid : Z) (proc : ProcInfo) (timestamp_ns : Z) : Event :=
  Event_NetworkFlow (mkNetworkFlowEvent (proc_event_meta pid (se_uid sock) proc timestamp_ns)
    (se_local sock).2 peer.1 peer.2 (ft_protocol (cf_orig flow))
    (fc_bytes <$> sent) (fc_bytes <$> received) (fc_packets <$> sent) (fc_packets <$> received)).

Definition conntrack_flow_events_for (flow : ConntrackFlow) (sockets : list SocketSnapshotEntry)
    (resolve : Z -> option ProcInfo) (timestamp_ns : Z) : list Event :=
  match attribute_flow flow sockets with
  | None => []
  | Some (sock, peer, outbound) =>
      let '(sent, received) := if (outbound : bool) then (cf_counters_orig flow, cf_counters_reply flow)
                               else (cf_counters_reply flow, cf_counters_orig flow) in
      omap (fun pid => proc ← resolve pid;
                       Some (flow_event flow sock peer sent received pid proc timestamp_ns)) (se_pids sock)
  end.

(** [status]: the contents of /proc/<pid>/status. *)
Definition listen_port_events (k : Kernel) (proc : option (list ProcEntry)) (status : Z -> option string)
    (timestamp_ns : Z) : Run (Dump (list Event)) :=
  entries <-run snapshot k proc;
  Ran (map_dump (fun entries =>
    concat ((fun entry => omap (fun pid => p ← resolve (status pid);
                                           listen_port_event entry pid p timestamp_ns) (se_pids entry))
            <$> entries)) entries).

Definition conntrack_flow_events (ct diag : Kernel) (proc : option (list ProcEntry)) (status : Z -> option string)
    (timestamp_ns : Z) : Run (Dump (list Event)) :=
  flows <-run dump_conntrack ct;
  match flows with
  | DumpOk flows =>
      sockets <-run snapshot diag proc;
      Ran (map_dump (fun sockets =>
        concat ((fun flow => conntrack_flow_events_for flow sockets (fun pid => resolve (status pid)) timestamp_ns)
                <$> flows)) sockets)
  | DumpErr e => Ran (DumpErr e)
  | DumpBlocks => Ran DumpBlocks
  end.
