(* ===== verification/NetlinkTheorems.v ===== *)
(** * NetlinkTheorems: what the netlink readers promise

    The layouts the kernel writes ([put_attr], [put_flow], [put_msg], [put_diag]) are
    the reference the decoders of [Netlink] are proved against.  The byte loop of a
    datagram refines a loop over its messages ([walk_put]); no input makes a decoder
    panic or loop, and a datagram makes a reader panic only when its last message is
    not padded. *)
From stdpp Require Import base gmap strings list.
From Stdlib Require Import ZArith Lia.
From S2P Require Import Prelude Str Text Fs Schema Bytes Netlink.
#[local] Open Scope string_scope.
#[local] Open Scope list_scope.
#[local] Open Scope Z_scope.
#[local] Open Scope edr_scope.

(** ** Alignment *)

Lemma align4_eq n : align4 n = (n + 3) / 4 * 4.
Proof. unfold align4. change 3 with (Z.ones 2) at 2. rewrite Z.ldiff_ones_r, Z.shiftl_mul_pow2, Z.shiftr_div_pow2 by lia. done. Qed.

Lemma align4_bounds n : n <= align4 n < n + 4.
Proof. rewrite align4_eq. pose proof (Z_div_mod_eq_full (n + 3) 4). pose proof (Z.mod_pos_bound (n + 3) 4). lia. Qed.

Lemma align4_mod n : align4 n mod 4 = 0.
Proof. rewrite align4_eq. apply Z_mod_mult. Qed.

Lemma align4_fits a b n : (a + n) mod 4 = 0 -> a mod 4 = 0 -> b <= n -> align4 b <= n.
Proof.
  intros H1 H2 Hb. pose proof (align4_bounds b). pose proof (align4_mod b) as H3.
  assert (H4 : n mod 4 = 0).
  { replace n with (a + n - a) by lia. rewrite Zminus_mod, H1, H2. done. }
  apply Z.mod_divide in H3 as [x Hx]; [|done]. apply Z.mod_divide in H4 as [y Hy]; [|done]. lia.
Qed.

(** ** The decoders return *)

Lemma header_parse_ran b : returns (NlMsgHeader_parse b).
Proof. unfold NlMsgHeader_parse, NLMSG_HDR_LEN. repeat run_step; apply Z.ltb_ge in E; lia. Qed.

Lemma header_parse_some b h : NlMsgHeader_parse b = Ran (Some h) -> NLMSG_HDR_LEN <= blen b.
Proof. unfold NlMsgHeader_parse. destruct (_ <? _) eqn:E; [done|]. apply Z.ltb_ge in E. done. Qed.

Lemma cn_header_parse_ran b : returns (CnMsgHeader_parse b).
Proof. unfold CnMsgHeader_parse, CN_MSG_HDR_LEN. repeat run_step; apply Z.ltb_ge in E; lia. Qed.

Lemma parse_addr_ran f b : blen b = 16 -> returns (parse_addr f b).
Proof. intros Hb. unfold parse_addr. repeat run_step; lia. Qed.

Lemma diag_parse_ran b : returns (DiagMsg_parse b).
Proof.
  unfold DiagMsg_parse, DIAG_MSG_LEN. destruct (blen b <? 72) eqn:E; [apply returns_ran|]. apply Z.ltb_ge in E.
  repeat first [run_step | apply parse_addr_ran; by erewrite slice_length by eassumption | lia].
Qed.

Lemma proc_event_parse_ran b : returns (ProcEvent_parse b).
Proof.
  unfold ProcEvent_parse, PROC_EVENT_HDR_LEN. destruct (blen b <? 16) eqn:E; [apply returns_ran|].
  apply Z.ltb_ge in E. apply returns_bind; [run_step; lia|intros what _].
  apply returns_bind; [run_step; lia|intros body _].
  repeat run_step; try (match goal with H : (blen body <? _) = false |- _ => apply Z.ltb_ge in H end); lia.
Qed.

Lemma parse_attrs_loop_ran fuel buf offset attrs :
  0 <= offset -> blen buf - offset < 4 * (Z.of_nat fuel + 1) -> returns (parse_attrs_loop fuel buf offset attrs).
Proof.
  revert offset attrs. induction fuel as [|fuel IH]; intros offset attrs Ho Hf; simpl;
    destruct (Z.leb_spec (offset + 4) (blen buf)); try apply returns_ran; [lia|].
  do 2 (apply returns_bind; [run_step; lia|intros ? _]).
  destruct ((a <? 4) || (blen buf <? offset + a)) eqn:E; [apply returns_ran|].
  apply orb_false_iff in E as [E1 E2]. apply Z.ltb_ge in E1, E2.
  apply returns_bind; [run_step; lia|intros ? _]. pose proof (align4_bounds a). apply IH; lia.
Qed.

Lemma parse_attrs_ran buf : returns (parse_attrs buf).
Proof. apply parse_attrs_loop_ran; unfold blen; lia. Qed.

Lemma read_be32_ran v : returns (read_be32 v).
Proof. unfold read_be32. repeat run_step; apply Z.ltb_ge in E; lia. Qed.

Lemma read_be64_ran v : returns (read_be64 v).
Proof. unfold read_be64. repeat run_step; apply Z.ltb_ge in E; lia. Qed.

(** [run_step], with the decoders above and the loops over attributes. *)
Ltac attr_step :=
  first [ run_step | apply parse_attrs_ran | apply read_be32_ran | apply read_be64_ran
        | apply returns_fold; intros ? ? _ ].

Lemma v4_of_ran v : blen v = 4 -> returns (v4_of v).
Proof. intros. unfold v4_of. repeat run_step; lia. Qed.

Lemma ip_attr_step_ran t a : returns (ip_attr_step t a).
Proof.
  unfold ip_attr_step. repeat run_step;
    match goal with H : (_ && _) = true |- _ => apply andb_true_iff in H as [_ ?%Z.eqb_eq] end; by apply v4_of_ran.
Qed.

Lemma proto_attr_step_ran t a : returns (proto_attr_step t a).
Proof. unfold proto_attr_step. repeat run_step. Qed.

Lemma tuple_parse_ran v : returns (FlowTuple_parse v).
Proof.
  unfold FlowTuple_parse. repeat attr_step. unfold tuple_attr_step.
  repeat first [attr_step | apply ip_attr_step_ran | apply proto_attr_step_ran].
Qed.

Lemma counters_parse_ran v : returns (FlowCounters_parse v).
Proof. unfold FlowCounters_parse. repeat attr_step. unfold counters_step. repeat attr_step. Qed.

Lemma tcp_state_ran v : returns (parse_tcp_state v).
Proof.
  unfold parse_tcp_state. apply returns_bind; [apply parse_attrs_ran|]. intros l _.
  induction l as [|a l IH]; simpl; [apply returns_ran|]. destruct (_ && _); [|done].
  apply returns_bind; [apply parse_attrs_ran|]. intros inner _. destruct (find_state inner); [apply returns_ran|done].
Qed.

Lemma flow_parse_ran b : returns (ConntrackFlow_parse b).
Proof.
  unfold ConntrackFlow_parse. repeat attr_step. unfold flow_attr_step.
  destruct s. repeat first [attr_step | apply tuple_parse_ran | apply counters_parse_ran | apply tcp_state_ran].
Qed.

(** ** The readers of datagrams *)

Lemma diag_step_ran t p l : returns (diag_step t p l).
Proof. unfold diag_step. repeat first [run_step | apply diag_parse_ran]. Qed.

Lemma conntrack_step_ran t p l : returns (conntrack_step t p l).
Proof.
  unfold conntrack_step, NFGENMSG_LEN.
  repeat first [run_step | apply flow_parse_ran]; apply Z.leb_le in E2; lia.
Qed.

Lemma proc_step_ran t p l : returns (proc_step t p l).
Proof.
  unfold proc_step. repeat first [run_step | apply cn_header_parse_ran | apply proc_event_parse_ran].
  destruct a as [h|]; [|apply returns_ran].
  unfold CnMsgHeader_parse in H. destruct (_ <? CN_MSG_HDR_LEN) eqn:Eb; [done|]. apply Z.ltb_ge in Eb.
  repeat first [run_step | apply proc_event_parse_ran]; unfold CN_MSG_HDR_LEN in *; lia.
Qed.

Section Readers.
Context {A : Type} (step : Z -> bytes -> A -> Run (Step A)).
Hypothesis step_ran : forall t p acc, returns (step t p acc).

Lemma walk_ran fuel buf offset acc :
  blen buf mod 4 = 0 -> offset mod 4 = 0 -> 0 <= offset <= blen buf ->
  blen buf - offset < 16 * (Z.of_nat fuel + 1) -> returns (walk_frames step fuel buf offset acc).
Proof using step_ran.
  intros Hb. revert offset acc. induction fuel as [|fuel IH]; intros offset acc Ho Hr Hf; simpl;
    (apply returns_bind; [run_step; lia|intros rest Hrest]);
    (apply returns_bind; [apply header_parse_ran|intros [h|] Hh; [|apply returns_ran]]);
    apply header_parse_some in Hh; unfold NLMSG_HDR_LEN in *; apply slice_length in Hrest.
  - lia.
  - destruct ((nl_len h <? 16) || _) eqn:E; [apply returns_ran|].
    apply orb_false_iff in E as [E1%Z.ltb_ge E2%Z.ltb_ge].
    apply returns_bind; [run_step; lia|intros payload _].
    apply returns_bind; [apply step_ran|intros [acc'|acc'|e] _]; try apply returns_ran.
    pose proof (align4_bounds (nl_len h)).
    assert (align4 (nl_len h) <= blen buf - offset).
    { apply (align4_fits offset); [by replace (offset + (blen buf - offset)) with (blen buf) by lia|done|lia]. }
    apply IH; [|lia..]. rewrite Zplus_mod, align4_mod, Ho. done.
Qed.

(** A datagram whose length is a multiple of four, as the kernel sends them. *)
Definition padded (r : Recv) : Prop :=
  match r with Datagram d => blen d mod 4 = 0 | _ => True end.

Lemma received_padded d : blen d mod 4 = 0 -> blen (received d) mod 4 = 0.
Proof.
  intros Hd. unfold received, blen in *. rewrite length_take.
  destruct (Nat.min_spec (Z.to_nat RECV_BUF) (length d)) as [[_ ->]|[_ ->]]; [|done].
  rewrite Z2Nat.id by done. done.
Qed.

Lemma walk_datagram_ran d acc : padded (Datagram d) -> returns (walk_datagram step d acc).
Proof using step_ran.
  intros Hd. apply received_padded in Hd. unfold walk_datagram. apply walk_ran; [done|done|..];
    unfold blen; lia.
Qed.

Lemma read_dump_loop_ran rs acc : Forall padded rs -> returns (read_dump_loop step rs acc).
Proof using step_ran.
  intros Hrs. revert acc. induction Hrs as [|r rs Hr _ IH]; intros acc; simpl; [apply returns_ran|].
  destruct r as [d| |]; try apply returns_ran.
  apply returns_bind; [by apply walk_datagram_ran|]. intros [acc'|acc'|e] _; [apply IH|apply returns_ran..].
Qed.
End Readers.

(** C25. Whatever bytes arrive, no decoder of a netlink message panics or loops:
    every payload decodes to a record or to nothing.  The readers of whole
    datagrams (socket dump, conntrack dump, process events) return for every
    sequence of datagrams, of any content, whose lengths are multiples of four. *)
Theorem netlink_safe (b : bytes) (rs : list Recv) (r : Recv) :
  Forall padded rs -> padded r ->
  returns (NlMsgHeader_parse b) /\ returns (DiagMsg_parse b) /\ returns (CnMsgHeader_parse b) /\
  returns (ProcEvent_parse b) /\ returns (ConntrackFlow_parse b) /\
  returns (diag_read_dump rs) /\ returns (conntrack_read_dump rs) /\ returns (recv_events r).
Proof.
  intros Hrs Hr. repeat split;
    [apply header_parse_ran | apply diag_parse_ran | apply cn_header_parse_ran | apply proc_event_parse_ran
    | apply flow_parse_ran | apply read_dump_loop_ran; [apply diag_step_ran|done]
    | apply read_dump_loop_ran; [apply conntrack_step_ran|done] | ].
  destruct r; simpl; try apply returns_ran.
  apply returns_bind; [by apply walk_datagram_ran; [apply proc_step_ran|]|intros; apply returns_ran].
Qed.

Lemma netlink_safe_witness :
  returns (diag_read_dump [Datagram [255; 255; 0; 0]; RecvFails]) /\ returns (recv_events (Datagram [1; 2; 3; 4])).
Proof.
  destruct (netlink_safe [] [Datagram [255; 255; 0; 0]; RecvFails] (Datagram [1; 2; 3; 4])) as (_ & _ & _ & _ & _ & H & _ & H').
  - repeat constructor.
  - reflexivity.
  - exact (conj H H').
Defined.

(** ** The kernel's layout of attributes *)

Definition padding (n : Z) : bytes := replicate (Z.to_nat (align4 n - n)) 0.
Definition put_attr (a : Attr) : bytes :=
  let len := 4 + blen (attr_value a) in
  to_le 2 len ++ to_le 2 (attr_type a + (if attr_nested a then NLA_F_NESTED else 0)) ++ attr_value a ++ padding len.
Definition put_attrs (l : list Attr) : bytes := concat (put_attr <$> l).
Definition attr_wf (a : Attr) : Prop := 0 <= attr_type a < NLA_F_NESTED /\ blen (attr_value a) <= 65531.

Lemma ldiff_lor t m : Z.land t m = 0 -> Z.ldiff (Z.lor t m) m = t /\ Z.ldiff t m = t.
Proof.
  intros Hl. split; apply Z.bits_inj'; intros i Hi; apply (f_equal (fun z => Z.testbit z i)) in Hl;
    rewrite Z.land_spec, Z.bits_0 in Hl; rewrite Z.ldiff_spec, ?Z.lor_spec; by destruct (Z.testbit t i), (Z.testbit m i).
Qed.

Lemma raw_type_bits t (n : bool) :
  0 <= t < NLA_F_NESTED ->
  let raw := t + (if n then NLA_F_NESTED else 0) in
  Z.ldiff raw NLA_F_NESTED = t /\ (Z.land raw NLA_F_NESTED =? 0) = negb n.
Proof.
  intros Ht raw. change NLA_F_NESTED with (2 ^ 15) in *.
  assert (Z.land t (2 ^ 15) = 0) as Hl.
  { apply Z.bits_inj'. intros i Hi. rewrite Z.land_spec, Z.bits_0, Z.pow2_bits_eqb by lia.
    destruct (Z.eqb_spec 15 i) as [<-|]; [|by rewrite andb_false_r]. by rewrite Z.testbit_eqb, Z.div_small by lia. }
  destruct n; subst raw.
  - rewrite Z.add_nocarry_lxor, Z.lxor_lor by exact Hl. split.
    + by apply ldiff_lor.
    + by rewrite Z.land_lor_distr_l, Hl, Z.land_diag.
  - rewrite Z.add_0_r, Hl. split; [by apply ldiff_lor|done].
Qed.

Lemma blen_padding n : blen (padding n) = align4 n - n.
Proof. unfold blen, padding. rewrite length_replicate. pose proof (align4_bounds n). lia. Qed.

Lemma blen_put_attr a : blen (put_attr a) = align4 (4 + blen (attr_value a)).
Proof. unfold put_attr. autorewrite with blen. rewrite blen_padding. lia. Qed.

Lemma parse_attrs_loop_put fuel p l attrs :
  Forall attr_wf l -> (length l <= fuel)%nat ->
  parse_attrs_loop fuel (p ++ put_attrs l) (blen p) attrs = Ran (attrs ++ l).
Proof.
  intros Hl. revert fuel p attrs. induction Hl as [|a l [Ht Hv] _ IH]; intros fuel p attrs Hf.
  - unfold put_attrs. simpl. rewrite !app_nil_r. destruct fuel; simpl; rewrite (proj2 (Z.leb_gt _ _)) by lia; done.
  - destruct fuel as [|fuel]; [simpl in Hf; lia|].
    change (put_attrs (a :: l)) with (put_attr a ++ put_attrs l).
    set (raw := attr_type a + (if attr_nested a then NLA_F_NESTED else 0)).
    set (len := 4 + blen (attr_value a)).
    assert (Hlen : fits 2 len) by (unfold fits, len; pose proof (blen_nonneg (attr_value a)); simpl; lia).
    assert (Hraw : fits 2 raw) by (unfold fits, raw, NLA_F_NESTED in *; destruct (attr_nested a); simpl; lia).
    pose proof (align4_bounds len). pose proof (blen_nonneg (attr_value a)). pose proof (blen_nonneg (put_attrs l)).
    assert (Htot : blen (p ++ put_attr a ++ put_attrs l) = blen p + align4 len + blen (put_attrs l)).
    { rewrite !blen_app, blen_put_attr. fold len. lia. }
    assert (E0 : p ++ put_attr a ++ put_attrs l = p ++ to_le 2 len ++ (to_le 2 raw ++ attr_value a ++ padding len ++ put_attrs l))
      by (unfold put_attr; by rewrite <- !app_assoc).
    assert (E1 : p ++ put_attr a ++ put_attrs l = (p ++ to_le 2 len) ++ to_le 2 raw ++ (attr_value a ++ padding len ++ put_attrs l))
      by (rewrite E0, <- !app_assoc; done).
    assert (E2 : p ++ put_attr a ++ put_attrs l = (p ++ to_le 2 len ++ to_le 2 raw) ++ attr_value a ++ (padding len ++ put_attrs l))
      by (rewrite E0, <- !app_assoc; done).
    cbn [parse_attrs_loop]. rewrite Htot, (proj2 (Z.leb_le _ _)) by (unfold len in *; lia).
    rewrite E0, (ne_at_mid 2) by done. cbn [run_bind]. rewrite <- E0, E1, (ne_at_mid 2); [|autorewrite with blen; lia|done].
    cbn [run_bind]. rewrite <- E1, (proj2 (Z.ltb_ge len 4)), (proj2 (Z.ltb_ge _ (blen p + len))) by (unfold len in *; lia).
    cbn [orb]. rewrite E2, slice_mid by (unfold len; autorewrite with blen; lia). cbn [run_bind]. rewrite <- E2.
    destruct (raw_type_bits (attr_type a) (attr_nested a) Ht) as [R1 R2]. fold raw in R1, R2. rewrite R1, R2, negb_involutive.
    replace (blen p + align4 len) with (blen (p ++ put_attr a)) by (rewrite blen_app, blen_put_attr; done).
    rewrite (app_assoc p), IH by (simpl in Hf; lia). rewrite <- app_assoc. by destruct a.
Qed.

Lemma parse_put_attrs l : Forall attr_wf l -> parse_attrs (put_attrs l) = Ran l.
Proof.
  intros Hl. unfold parse_attrs. apply (parse_attrs_loop_put _ [] l []); [done|].
  clear Hl. induction l as [|a l IH]; [simpl; lia|].
  change (put_attrs (a :: l)) with (put_attr a ++ put_attrs l). rewrite length_app, length_cons.
  pose proof (blen_put_attr a) as H. pose proof (align4_bounds (4 + blen (attr_value a))).
  pose proof (blen_nonneg (attr_value a)). unfold blen in *. lia.
Qed.

(** ** The kernel's layout of a conntrack entry *)

Definition put_src (a : IpAddr) : Attr :=
  match a with V4 z => mkAttr CTA_IP_V4_SRC false (to_be 4 z) | V6 z => mkAttr CTA_IP_V6_SRC false (to_be 16 z) end.
Definition put_dst (a : IpAddr) : Attr :=
  match a with V4 z => mkAttr CTA_IP_V4_DST false (to_be 4 z) | V6 z => mkAttr CTA_IP_V6_DST false (to_be 16 z) end.
Definition opt_attr {A : Type} (f : A -> Attr) (o : option A) : list Attr :=
  match o with Some a => [f a] | None => [] end.
Definition put_port (t : Z) (o : option Z) : list Attr := opt_attr (fun p => mkAttr t false (to_be 2 p)) o.
Definition put_tuple (t : FlowTuple) : bytes :=
  put_attrs [mkAttr CTA_TUPLE_IP true (put_attrs [put_src (ft_src t); put_dst (ft_dst t)]);
             mkAttr CTA_TUPLE_PROTO true
               (put_attrs (mkAttr CTA_PROTO_NUM false [ft_protocol t]
                           :: put_port CTA_PROTO_SRC_PORT (ft_src_port t) ++ put_port CTA_PROTO_DST_PORT (ft_dst_port t)))].
Definition put_counters (c : FlowCounters) : bytes :=
  put_attrs [mkAttr CTA_COUNTERS_PACKETS false (to_be 8 (fc_packets c)); mkAttr CTA_COUNTERS_BYTES false (to_be 8 (fc_bytes c))].
Definition TcpState_raw (s : TcpState) : Z :=
  match s with
  | TS_None => 0 | TS_SynSent => 1 | TS_SynRecv => 2 | TS_Established => 3 | TS_FinWait => 4 | TS_CloseWait => 5
  | TS_LastAck => 6 | TS_TimeWait => 7 | TS_Close => 8 | TS_Listen => 9 | TS_Other raw => raw
  end.
Definition put_state (s : TcpState) : bytes :=
  put_attrs [mkAttr CTA_PROTOINFO_TCP true (put_attrs [mkAttr CTA_PROTOINFO_TCP_STATE false [TcpState_raw s]])].
Definition put_flow (f : ConntrackFlow) : bytes :=
  put_attrs ([mkAttr CTA_TUPLE_ORIG true (put_tuple (cf_orig f)); mkAttr CTA_TUPLE_REPLY true (put_tuple (cf_reply f));
              mkAttr CTA_STATUS false (to_be 4 (cf_status f)); mkAttr CTA_TIMEOUT false (to_be 4 (cf_timeout_secs f))]
             ++ opt_attr (fun c => mkAttr CTA_COUNTERS_ORIG true (put_counters c)) (cf_counters_orig f)
             ++ opt_attr (fun c => mkAttr CTA_COUNTERS_REPLY true (put_counters c)) (cf_counters_reply f)
             ++ opt_attr (fun s => mkAttr CTA_PROTOINFO true (put_state s)) (cf_tcp_state f)
             ++ [mkAttr CTA_MARK false (to_be 4 (cf_mark f)); mkAttr CTA_ID false (to_be 4 (cf_id f))]).

Definition addr_wf (a : IpAddr) : Prop := match a with V4 z => fits 4 z | V6 z => fits 16 z end.
Definition same_family (a b : IpAddr) : Prop :=
  match a, b with V4 _, V4 _ | V6 _, V6 _ => True | _, _ => False end.
Definition tuple_fits (t : FlowTuple) : Prop :=
  addr_wf (ft_src t) /\ addr_wf (ft_dst t) /\
  from_option (fits 2) True (ft_src_port t) /\ from_option (fits 2) True (ft_dst_port t).
(** A tuple of the kernel: both addresses are of one family. *)
Definition tuple_wf (t : FlowTuple) : Prop := same_family (ft_src t) (ft_dst t) /\ tuple_fits t.
Definition counters_wf (c : FlowCounters) : Prop := fits 8 (fc_packets c) /\ fits 8 (fc_bytes c).
Definition state_wf (s : TcpState) : Prop := match s with TS_Other raw => 10 <= raw | _ => True end.
Definition flow_wf (f : ConntrackFlow) : Prop :=
  tuple_wf (cf_orig f) /\ tuple_wf (cf_reply f) /\
  fits 4 (cf_status f) /\ fits 4 (cf_timeout_secs f) /\ fits 4 (cf_mark f) /\ fits 4 (cf_id f) /\
  from_option counters_wf True (cf_counters_orig f) /\ from_option counters_wf True (cf_counters_reply f) /\
  from_option state_wf True (cf_tcp_state f).

Lemma blen_put_attrs_le l n :
  Forall (fun a => blen (attr_value a) <= n) l -> blen (put_attrs l) <= (n + 8) * Z.of_nat (length l).
Proof.
  induction 1 as [|a l Ha _ IH]; [unfold blen; simpl; lia|].
  change (put_attrs (a :: l)) with (put_attr a ++ put_attrs l). rewrite blen_app, blen_put_attr, length_cons.
  pose proof (align4_bounds (4 + blen (attr_value a))). lia.
Qed.

Lemma read_be16_put z : fits 2 z -> read_be16 (to_be 2 z) = Some z.
Proof. intros Hz. unfold read_be16. rewrite <- (from_to_be 2 z Hz) at 2. reflexivity. Qed.

Lemma be_at_whole n z : fits n z -> be_at (Z.of_nat n) (to_be n z) 0 = Ran z.
Proof. intros Hz. rewrite <- (app_nil_r (to_be n z)). by apply (be_at_mid n [] []). Qed.

Lemma read_be32_put z : fits 4 z -> read_be32 (to_be 4 z) = Ran (Some z).
Proof. intros Hz. unfold read_be32. rewrite blen_to_be. change (Z.of_nat 4 <? 4) with false. by rewrite (be_at_whole 4). Qed.

Lemma read_be64_put z : fits 8 z -> read_be64 (to_be 8 z) = Ran (Some z).
Proof. intros Hz. unfold read_be64. rewrite blen_to_be. change (Z.of_nat 8 <? 8) with false. by rewrite (be_at_whole 8). Qed.

Lemma v4_of_put z : fits 4 z -> v4_of (to_be 4 z) = Ran (V4 z).
Proof.
  intros Hz. unfold v4_of. rewrite <- (app_nil_r (to_be 4 z)), (slice_mid [] (to_be 4 z) []); [|done|by rewrite blen_to_be].
  simpl. by rewrite from_to_be.
Qed.

Lemma TcpState_from_raw s : state_wf s -> TcpState_from (TcpState_raw s) = s.
Proof.
  destruct s as [| | | | | | | | | |raw]; simpl; try done. intros H. unfold TcpState_from.
  destruct raw as [|p|p]; try lia. do 4 (destruct p as [p|p|]; try done; try lia).
Qed.

Lemma put_addr_small a : blen (attr_value (put_src a)) <= 16 /\ blen (attr_value (put_dst a)) <= 16.
Proof. destruct a; cbn [put_src put_dst attr_value]; rewrite blen_to_be; lia. Qed.

Lemma put_port_small t o : Forall (fun a => blen (attr_value a) <= 2) (put_port t o).
Proof. destruct o; simpl; constructor; [|done]. cbn [attr_value]. rewrite blen_to_be. done. Qed.

(** The parts of an entry are far below the 64 KiB of an attribute. *)
Lemma attr_wf_intro t n v : 0 <= t < NLA_F_NESTED -> blen v <= 65531 -> attr_wf (mkAttr t n v).
Proof. done. Qed.

Lemma ip_attrs_wf s d : Forall attr_wf [put_src s; put_dst d] /\ blen (put_attrs [put_src s; put_dst d]) <= 48.
Proof.
  destruct (put_addr_small s) as [Hs _], (put_addr_small d) as [_ Hd]. split.
  - repeat constructor; try lia; destruct s, d; simpl; unfold NLA_F_NESTED; try done.
  - pose proof (blen_put_attrs_le [put_src s; put_dst d] 16) as H. simpl in H. apply H. by repeat constructor.
Qed.

Lemma port_attrs_wf p sp dp :
  let l := mkAttr CTA_PROTO_NUM false [p] :: put_port CTA_PROTO_SRC_PORT sp ++ put_port CTA_PROTO_DST_PORT dp in
  Forall attr_wf l /\ blen (put_attrs l) <= 30.
Proof.
  intros l.
  assert (Hl : Forall (fun a => blen (attr_value a) <= 2) l).
  { constructor; [done|]. apply Forall_app; split; apply put_port_small. }
  split.
  - subst l. constructor; [done|].
    apply Forall_app; split; (destruct sp, dp; simpl; repeat constructor; try done; rewrite blen_to_be; done).
  - pose proof (blen_put_attrs_le l 2 Hl) as H. assert (length l <= 3)%nat by (subst l; destruct sp, dp; simpl; lia). lia.
Qed.

Lemma ip_step_src a t : addr_wf a -> ip_attr_step t (put_src a) = Ran (with_src (Some a) t).
Proof.
  intros Ha. destruct a; unfold ip_attr_step; cbn [put_src attr_type attr_value]; rewrite blen_to_be.
  - by rewrite v4_of_put.
  - by rewrite from_to_be.
Qed.

Lemma ip_step_dst a t : addr_wf a -> ip_attr_step t (put_dst a) = Ran (with_dst (Some a) t).
Proof.
  intros Ha. destruct a; unfold ip_attr_step; cbn [put_dst attr_type attr_value]; rewrite blen_to_be.
  - by rewrite v4_of_put.
  - by rewrite from_to_be.
Qed.

Lemma ip_steps s d t :
  addr_wf s -> addr_wf d ->
  run_fold ip_attr_step [put_src s; put_dst d] t
  = Ran (mkTupleAcc (Some s) (Some d) (ta_protocol t) (ta_src_port t) (ta_dst_port t)).
Proof. intros Hs Hd. cbn [run_fold]. rewrite ip_step_src by done. cbn [run_bind]. by rewrite ip_step_dst. Qed.

Lemma proto_steps p sp dp t :
  from_option (fits 2) True sp -> from_option (fits 2) True dp -> ta_src_port t = None -> ta_dst_port t = None ->
  run_fold proto_attr_step (mkAttr CTA_PROTO_NUM false [p] :: put_port CTA_PROTO_SRC_PORT sp ++ put_port CTA_PROTO_DST_PORT dp) t
  = Ran (mkTupleAcc (ta_src t) (ta_dst t) (Some p) sp dp).
Proof.
  intros Hs Hd H1 H2. destruct sp, dp; unfold proto_attr_step, put_port, opt_attr;
    cbn [run_fold app attr_type attr_value]; cbn -[read_be16 to_be]; simpl in Hs, Hd; rewrite ?read_be16_put by done; congruence.
Qed.

Lemma tuple_attrs_wf t :
  Forall attr_wf [mkAttr CTA_TUPLE_IP true (put_attrs [put_src (ft_src t); put_dst (ft_dst t)]);
             mkAttr CTA_TUPLE_PROTO true
               (put_attrs (mkAttr CTA_PROTO_NUM false [ft_protocol t]
                           :: put_port CTA_PROTO_SRC_PORT (ft_src_port t) ++ put_port CTA_PROTO_DST_PORT (ft_dst_port t)))]
  /\ blen (put_tuple t) <= 112.
Proof.
  destruct (ip_attrs_wf (ft_src t) (ft_dst t)) as [_ H1].
  destruct (port_attrs_wf (ft_protocol t) (ft_src_port t) (ft_dst_port t)) as [_ H2].
  split; [apply Forall_cons; split; [apply attr_wf_intro; [done|lia]|]; apply Forall_singleton, attr_wf_intro; [done|lia]|].
  unfold put_tuple. etrans; [apply (blen_put_attrs_le _ 48)|rewrite !length_cons; simpl; lia].
  apply Forall_cons; split; [|apply Forall_singleton]; cbn [attr_value]; lia.
Qed.

Lemma tuple_roundtrip t : tuple_fits t -> FlowTuple_parse (put_tuple t) = Ran (Some t).
Proof.
  intros (Hs & Hd & Hsp & Hdp). unfold FlowTuple_parse, put_tuple.
  rewrite parse_put_attrs by apply tuple_attrs_wf. cbn [run_bind run_fold].
  unfold tuple_attr_step at 1. cbn [attr_nested attr_type attr_value negb]. change (CTA_TUPLE_IP =? CTA_TUPLE_IP) with true.
  cbn [andb]. rewrite parse_put_attrs by apply ip_attrs_wf. cbn [run_bind]. rewrite ip_steps by done. cbn [run_bind].
  unfold tuple_attr_step. cbn [attr_nested attr_type attr_value negb].
  change (CTA_TUPLE_PROTO =? CTA_TUPLE_IP) with false. change (CTA_TUPLE_PROTO =? CTA_TUPLE_PROTO) with true.
  cbv iota. rewrite parse_put_attrs by apply port_attrs_wf. cbn [run_bind]. rewrite proto_steps by done.
  destruct t; reflexivity.
Qed.

Lemma counters_attrs_wf c :
  Forall attr_wf [mkAttr CTA_COUNTERS_PACKETS false (to_be 8 (fc_packets c)); mkAttr CTA_COUNTERS_BYTES false (to_be 8 (fc_bytes c))]
  /\ blen (put_counters c) <= 32.
Proof.
  split; [repeat constructor; cbn [attr_value]; try rewrite blen_to_be; done|].
  etrans; [apply (blen_put_attrs_le _ 8)|simpl; lia]. repeat constructor; cbn [attr_value]; by rewrite blen_to_be.
Qed.

Lemma counters_roundtrip c : counters_wf c -> FlowCounters_parse (put_counters c) = Ran (Some c).
Proof.
  intros [Hp Hb]. unfold FlowCounters_parse, put_counters. rewrite parse_put_attrs by apply counters_attrs_wf.
  cbn [run_bind run_fold]. unfold counters_step. cbn [attr_type attr_value].
  change (CTA_COUNTERS_PACKETS =? CTA_COUNTERS_PACKETS) with true. change (CTA_COUNTERS_BYTES =? CTA_COUNTERS_PACKETS) with false.
  change (CTA_COUNTERS_BYTES =? CTA_COUNTERS_BYTES) with true. cbv iota.
  rewrite !read_be64_put by done. destruct c; reflexivity.
Qed.

Lemma state_roundtrip s : state_wf s -> parse_tcp_state (put_state s) = Ran (Some s) /\ blen (put_state s) <= 32.
Proof.
  intros Hs. unfold parse_tcp_state, put_state.
  set (inner := [mkAttr CTA_PROTOINFO_TCP_STATE false [TcpState_raw s]]).
  assert (Hi : Forall attr_wf inner /\ blen (put_attrs inner) <= 9).
  { split; [by repeat constructor|]. apply (blen_put_attrs_le inner 1). by repeat constructor. }
  destruct Hi as [Hi1 Hi2]. split.
  - rewrite parse_put_attrs; [|constructor; [split; cbn [attr_type attr_value]; [done|lia]|done]].
    cbn [run_bind tcp_state_loop attr_type attr_nested attr_value]. change (CTA_PROTOINFO_TCP =? CTA_PROTOINFO_TCP) with true.
    cbn [andb]. rewrite parse_put_attrs by done. cbn. by rewrite TcpState_from_raw.
  - etrans; [apply (blen_put_attrs_le _ 9)|simpl; lia]. by repeat constructor.
Qed.

Lemma run_fold_app {S A} (f : S -> A -> Run S) l k s :
  run_fold f (l ++ k) s = (s <-run run_fold f l s; run_fold f k s).
Proof.
  revert s. induction l as [|a l IH]; intros s; [done|]. cbn [app run_fold]. destruct (f s a); cbn [run_bind]; [apply IH|done..].
Qed.

Section FlowSteps.
Context (orig reply : option FlowTuple) (status timeout mark id : Z) (co cr : option FlowCounters) (ts : option TcpState).
Abbreviation acc o r s t m i a b c := (mkFlowAcc o r s t m i a b c).
Abbreviation start := (acc orig reply status timeout mark id co cr ts).

Lemma step_orig t : tuple_fits t ->
  flow_attr_step start (mkAttr CTA_TUPLE_ORIG true (put_tuple t)) = Ran (acc (Some t) reply status timeout mark id co cr ts).
Proof. intros Ht. unfold flow_attr_step. cbn [attr_type attr_value attr_nested]. by rewrite tuple_roundtrip. Qed.

Lemma step_reply t : tuple_fits t ->
  flow_attr_step start (mkAttr CTA_TUPLE_REPLY true (put_tuple t)) = Ran (acc orig (Some t) status timeout mark id co cr ts).
Proof. intros Ht. unfold flow_attr_step. cbn [attr_type attr_value attr_nested]. by rewrite tuple_roundtrip. Qed.

Lemma step_u32 t z : fits 4 z ->
  flow_attr_step start (mkAttr t false (to_be 4 z))
  = Ran (acc orig reply (if t =? CTA_STATUS then z else status) (if t =? CTA_TIMEOUT then z else timeout)
             (if t =? CTA_MARK then z else mark) (if t =? CTA_ID then z else id) co cr ts).
Proof.
  intros Hz. unfold flow_attr_step. cbn [attr_type attr_value attr_nested]. rewrite read_be32_put by done.
  rewrite !andb_false_r. unfold CTA_STATUS, CTA_TIMEOUT, CTA_MARK, CTA_ID.
  repeat (case_bool; try lia); done.
Qed.

Lemma step_counters_orig o : from_option counters_wf True o -> co = None ->
  run_fold flow_attr_step (opt_attr (fun c => mkAttr CTA_COUNTERS_ORIG true (put_counters c)) o) start
  = Ran (acc orig reply status timeout mark id o cr ts).
Proof.
  intros Ho ->. destruct o; [|done]. cbn [opt_attr run_fold]. unfold flow_attr_step.
  cbn [attr_type attr_value attr_nested]. by rewrite counters_roundtrip.
Qed.

Lemma step_counters_reply o : from_option counters_wf True o -> cr = None ->
  run_fold flow_attr_step (opt_attr (fun c => mkAttr CTA_COUNTERS_REPLY true (put_counters c)) o) start
  = Ran (acc orig reply status timeout mark id co o ts).
Proof.
  intros Ho ->. destruct o; [|done]. cbn [opt_attr run_fold]. unfold flow_attr_step.
  cbn [attr_type attr_value attr_nested]. by rewrite counters_roundtrip.
Qed.

Lemma step_state o : from_option state_wf True o -> ts = None ->
  run_fold flow_attr_step (opt_attr (fun s => mkAttr CTA_PROTOINFO true (put_state s)) o) start
  = Ran (acc orig reply status timeout mark id co cr o).
Proof.
  intros Ho ->. destruct o as [s|]; [|done]. cbn [opt_attr run_fold]. unfold flow_attr_step.
  cbn [attr_type attr_value attr_nested]. destruct (state_roundtrip s Ho) as [E _]. by rewrite E.
Qed.
End FlowSteps.

Lemma flow_attrs_wf f :
  from_option state_wf True (cf_tcp_state f) ->
  Forall attr_wf
    ([mkAttr CTA_TUPLE_ORIG true (put_tuple (cf_orig f)); mkAttr CTA_TUPLE_REPLY true (put_tuple (cf_reply f));
      mkAttr CTA_STATUS false (to_be 4 (cf_status f)); mkAttr CTA_TIMEOUT false (to_be 4 (cf_timeout_secs f))]
     ++ opt_attr (fun c => mkAttr CTA_COUNTERS_ORIG true (put_counters c)) (cf_counters_orig f)
     ++ opt_attr (fun c => mkAttr CTA_COUNTERS_REPLY true (put_counters c)) (cf_counters_reply f)
     ++ opt_attr (fun s => mkAttr CTA_PROTOINFO true (put_state s)) (cf_tcp_state f)
     ++ [mkAttr CTA_MARK false (to_be 4 (cf_mark f)); mkAttr CTA_ID false (to_be 4 (cf_id f))]).
Proof.
  intros Hs.
  destruct (tuple_attrs_wf (cf_orig f)) as [_ Ho], (tuple_attrs_wf (cf_reply f)) as [_ Hr].
  assert (Hc : forall t o, 0 <= t < NLA_F_NESTED -> Forall attr_wf (opt_attr (fun c => mkAttr t true (put_counters c)) o)).
  { intros t [c|] Ht; [|done]. destruct (counters_attrs_wf c). apply Forall_singleton, attr_wf_intro; [done|lia]. }
  assert (Hu : forall t z, 0 <= t < NLA_F_NESTED -> attr_wf (mkAttr t false (to_be 4 z))).
  { intros t z Ht. apply attr_wf_intro; [done|by rewrite blen_to_be]. }
  rewrite !Forall_app, !Forall_cons, !Forall_nil.
  repeat match goal with |- _ /\ _ => split end; try done; try (by apply Hu); try (by apply Hc);
    try (apply attr_wf_intro; [done|lia]).
  destruct (cf_tcp_state f) as [s|]; [|done]. destruct (state_roundtrip s Hs) as [_ H].
  apply Forall_singleton, attr_wf_intro; [done|lia].
Qed.

(** C26. Decoding inverts the kernel's layout: every conntrack entry whose two tuples
    have addresses of one family each (IPv4 or IPv6, protocols with or without ports,
    with or without counters and TCP state) that is written as a tree of attributes is
    decoded to itself. *)
Theorem conntrack_roundtrip (f : ConntrackFlow) : flow_wf f -> ConntrackFlow_parse (put_flow f) = Ran (Some f).
Proof.
  intros ([_ Ho] & [_ Hr] & H1 & H2 & H3 & H4 & Hco & Hcr & Hs). unfold ConntrackFlow_parse, put_flow.
  rewrite parse_put_attrs by by apply flow_attrs_wf. cbn [run_bind].
  cbn [app run_fold]. rewrite step_orig by done. cbn [run_bind]. rewrite step_reply by done. cbn [run_bind].
  do 2 (rewrite step_u32 by done; cbn [run_bind]).
  rewrite run_fold_app, step_counters_orig by done. cbn [run_bind].
  rewrite run_fold_app, step_counters_reply by done. cbn [run_bind].
  rewrite run_fold_app, step_state by done. cbn [run_bind run_fold].
  rewrite !step_u32 by done. cbn [run_bind]. rewrite step_u32 by done. destruct f; reflexivity.
Qed.

Definition sample_flow : ConntrackFlow :=
  mkConntrackFlow (mkFlowTuple (V4 0xac1e8810) (V4 0x08080808) 6 (Some 50000) (Some 443))
    (mkFlowTuple (V6 1) (V6 2) 1 None None) 0x18e 100 0 7 (Some (mkFlowCounters 3 400)) None (Some TS_TimeWait).
Lemma conntrack_roundtrip_witness : ConntrackFlow_parse (put_flow sample_flow) = Ran (Some sample_flow).
Proof. apply (conntrack_roundtrip sample_flow). unfold flow_wf, tuple_wf, tuple_fits, counters_wf, fits. cbn. unfold fits, counters_wf, fits. cbn. lia. Defined.

(** ** The kernel's layout of a datagram *)

Record KMsg := mkKMsg { km_type : Z; km_flags : Z; km_seq : Z; km_pid : Z; km_payload : bytes }.
Definition km_header (m : KMsg) : NlMsgHeader :=
  mkNlMsgHeader (NLMSG_HDR_LEN + blen (km_payload m)) (km_type m) (km_flags m) (km_seq m) (km_pid m).
Definition put_msg (m : KMsg) : bytes :=
  NlMsgHeader_to_bytes (km_header m) ++ km_payload m ++ padding (NLMSG_HDR_LEN + blen (km_payload m)).
Definition put_msgs (ms : list KMsg) : bytes := concat (put_msg <$> ms).
Definition header_wf (h : NlMsgHeader) : Prop :=
  fits 4 (nl_len h) /\ fits 2 (nl_msg_type h) /\ fits 2 (nl_flags h) /\ fits 4 (nl_seq h) /\ fits 4 (nl_pid h).

Lemma blen_header h : blen (NlMsgHeader_to_bytes h) = NLMSG_HDR_LEN.
Proof. unfold NlMsgHeader_to_bytes. by autorewrite with blen. Qed.

Lemma header_roundtrip h q : header_wf h -> NlMsgHeader_parse (NlMsgHeader_to_bytes h ++ q) = Ran (Some h).
Proof.
  intros (H1 & H2 & H3 & H4 & H5). unfold NlMsgHeader_parse.
  rewrite (proj2 (Z.ltb_ge _ _)) by (rewrite blen_app, blen_header; pose proof (blen_nonneg q); lia).
  unfold NlMsgHeader_to_bytes.
  le_field 4%nat (@nil Z) (nl_len h).
  le_field 2%nat (to_le 4 (nl_len h)) (nl_msg_type h).
  le_field 2%nat (to_le 4 (nl_len h) ++ to_le 2 (nl_msg_type h)) (nl_flags h).
  le_field 4%nat (to_le 4 (nl_len h) ++ to_le 2 (nl_msg_type h) ++ to_le 2 (nl_flags h)) (nl_seq h).
  le_field 4%nat (to_le 4 (nl_len h) ++ to_le 2 (nl_msg_type h) ++ to_le 2 (nl_flags h) ++ to_le 4 (nl_seq h)) (nl_pid h).
  by destruct h.
Qed.

Lemma blen_put_msg m : blen (put_msg m) = align4 (NLMSG_HDR_LEN + blen (km_payload m)).
Proof. unfold put_msg. rewrite !blen_app, blen_header, blen_padding. lia. Qed.

Section WalkPut.
Context {A : Type} (step : Z -> bytes -> A -> Run (Step A)).

(** The loop of a reader over messages instead of bytes. *)
Fixpoint walk_msgs (ms : list KMsg) (acc : A) : Run (Step A) :=
  match ms with
  | [] => Ran (Continue acc)
  | m :: ms =>
      s <-run step (km_type m) (km_payload m) acc;
      match s with Continue acc => walk_msgs ms acc | s => Ran s end
  end.

(** One round of the loop at a message, whatever follows it. *)
Lemma walk_at_msg fuel p m q acc :
  header_wf (km_header m) -> NLMSG_HDR_LEN + blen (km_payload m) <= blen q ->
  take (Z.to_nat (NLMSG_HDR_LEN + blen (km_payload m))) q = NlMsgHeader_to_bytes (km_header m) ++ km_payload m ->
  walk_frames step (S fuel) (p ++ q) (blen p) acc
  = (s <-run step (km_type m) (km_payload m) acc;
     match s with
     | Continue acc => walk_frames step fuel (p ++ q) (blen p + align4 (NLMSG_HDR_LEN + blen (km_payload m))) acc
     | s => Ran s
     end).
Proof.
  intros Hh Hq Ht. set (len := NLMSG_HDR_LEN + blen (km_payload m)) in *.
  pose proof (blen_nonneg (km_payload m)). assert (16 <= len) by (unfold len, NLMSG_HDR_LEN; lia).
  assert (Eq : q = NlMsgHeader_to_bytes (km_header m) ++ km_payload m ++ drop (Z.to_nat len) q).
  { rewrite <- (take_drop (Z.to_nat len) q) at 1. rewrite Ht. by rewrite <- app_assoc. }
  cbn [walk_frames]. rewrite slice_from_app by done. cbn [run_bind].
  rewrite Eq at 1. rewrite header_roundtrip by done. cbn [run_bind].
  change (nl_len (km_header m)) with len. change (nl_msg_type (km_header m)) with (km_type m).
  rewrite (proj2 (Z.ltb_ge len NLMSG_HDR_LEN)), (proj2 (Z.ltb_ge (blen (p ++ q)) _)) by (rewrite ?blen_app; unfold NLMSG_HDR_LEN; lia).
  cbn [orb].
  replace (slice (p ++ q) (blen p + NLMSG_HDR_LEN) (blen p + len)) with (Ran (km_payload m)); [done|].
  rewrite Eq. rewrite (app_assoc p). symmetry. apply slice_mid; rewrite blen_app, blen_header; unfold len; lia.
Qed.

Lemma put_msg_take m q :
  take (Z.to_nat (NLMSG_HDR_LEN + blen (km_payload m))) (put_msg m ++ q)
  = NlMsgHeader_to_bytes (km_header m) ++ km_payload m.
Proof.
  unfold put_msg. rewrite <- !app_assoc, (app_assoc (NlMsgHeader_to_bytes _)). apply take_app_length'.
  rewrite length_app. pose proof (blen_header (km_header m)). unfold blen in *. lia.
Qed.

Lemma walk_put fuel p ms acc :
  Forall (fun m => header_wf (km_header m)) ms -> (length ms <= fuel)%nat ->
  walk_frames step fuel (p ++ put_msgs ms) (blen p) acc = walk_msgs ms acc.
Proof.
  intros Hms. revert fuel p acc. induction Hms as [|m ms Hm _ IH]; intros fuel p acc Hf.
  - unfold put_msgs. cbn [fmap list_fmap concat walk_msgs].
    destruct fuel; cbn [walk_frames]; rewrite slice_from_app by done; reflexivity.
  - destruct fuel as [|fuel]; [simpl in Hf; lia|].
    change (put_msgs (m :: ms)) with (put_msg m ++ put_msgs ms). pose proof (align4_bounds (NLMSG_HDR_LEN + blen (km_payload m))).
    rewrite (walk_at_msg fuel p m); [|done|rewrite blen_app, blen_put_msg; pose proof (blen_nonneg (put_msgs ms)); lia|apply put_msg_take].
    cbn [walk_msgs]. destruct (step _ _ _) as [[acc'|acc'|e]| |]; cbn [run_bind]; try done.
    rewrite <- blen_put_msg, <- blen_app, app_assoc. apply IH. simpl in Hf. lia.
Qed.

(** A datagram of whole messages that fits the buffer. *)
Definition whole (ms : list KMsg) : Prop :=
  Forall (fun m => header_wf (km_header m)) ms /\ blen (put_msgs ms) <= RECV_BUF.

Lemma walk_whole ms acc : whole ms -> walk_datagram step (put_msgs ms) acc = walk_msgs ms acc.
Proof.
  intros [Hms Hb]. unfold walk_datagram, received. rewrite take_ge by (unfold blen in Hb; lia).
  apply (walk_put _ []); [done|]. clear. induction ms as [|m ms IH]; [simpl; lia|].
  change (put_msgs (m :: ms)) with (put_msg m ++ put_msgs ms). rewrite length_app, length_cons.
  pose proof (blen_put_msg m). pose proof (align4_bounds (NLMSG_HDR_LEN + blen (km_payload m))).
  pose proof (blen_nonneg (km_payload m)). unfold NLMSG_HDR_LEN, blen in *. lia.
Qed.

Definition datagrams (bs : list (list KMsg)) : list Recv := (fun ms => Datagram (put_msgs ms)) <$> bs.

Lemma read_dump_whole bs rs acc :
  Forall whole bs ->
  read_dump_loop step (datagrams (bs ++ rs)) acc
  = (s <-run walk_msgs (concat bs) acc;
     match s with
     | Continue acc => read_dump_loop step (datagrams rs) acc
     | Break acc => Ran (DumpOk acc)
     | Return e => Ran (DumpErr e)
     end).
Proof.
  intros Hbs. revert acc. induction Hbs as [|b bs Hb _ IH]; intros acc; [done|].
  unfold datagrams in *. cbn [app fmap list_fmap read_dump_loop concat]. rewrite walk_whole by done.
  assert (Happ : forall l k acc, walk_msgs (l ++ k) acc
    = (s <-run walk_msgs l acc; match s with Continue acc => walk_msgs k acc | s => Ran s end)).
  { clear. induction l as [|m l IHl]; intros k acc; [done|]. cbn [app walk_msgs].
    destruct (step _ _ _) as [[acc'|acc'|e]| |]; cbn [run_bind]; done. }
  rewrite Happ. destruct (walk_msgs b acc) as [[acc'|acc'|e]| |]; cbn [run_bind]; done.
Qed.
End WalkPut.

(** ** Sockets *)

Definition put_addr16 (a : IpAddr) : bytes :=
  match a with V4 z => to_be 4 z ++ replicate 12 0 | V6 z => to_be 16 z end.
(** [struct inet_diag_msg]; the bytes the decoder does not read (timers, interface,
    cookie, queues) are arbitrary. *)
Definition put_diag (t1 t2 : Z) (mid : bytes) (m : DiagMsg) : bytes :=
  [dm_family m; dm_state m; t1; t2] ++ to_be 2 (dm_local_port m) ++ to_be 2 (dm_remote_port m)
  ++ put_addr16 (dm_local m) ++ put_addr16 (dm_remote m) ++ mid ++ to_le 4 (dm_uid m) ++ to_le 4 (dm_inode m).
Definition of_family (family : Z) (a : IpAddr) : Prop :=
  match a with V4 z => family = AF_INET /\ fits 4 z | V6 z => family = AF_INET6 /\ fits 16 z end.
Definition diag_wf (m : DiagMsg) : Prop :=
  of_family (dm_family m) (dm_local m) /\ of_family (dm_family m) (dm_remote m) /\
  fits 2 (dm_local_port m) /\ fits 2 (dm_remote_port m) /\ fits 4 (dm_uid m) /\ fits 4 (dm_inode m).

Lemma blen_put_addr16 a : blen (put_addr16 a) = 16.
Proof. destruct a; unfold put_addr16; autorewrite with blen; done. Qed.

Lemma parse_addr_put family a : of_family family a -> parse_addr family (put_addr16 a) = Ran (Some a).
Proof.
  destruct a; intros [-> Hz]; unfold parse_addr; cbn [put_addr16].
  - change (AF_INET =? AF_INET) with true. cbv iota.
    rewrite (slice_field [] (to_be 4 bits) (replicate 12 0)) by by rewrite ?blen_to_be. cbn [run_bind]. by rewrite from_to_be.
  - change (AF_INET6 =? AF_INET) with false. change (AF_INET6 =? AF_INET6) with true. cbv iota.
    rewrite blen_to_be. change (Z.of_nat 16 =? 16) with true. cbv iota. by rewrite from_to_be.
Qed.

Lemma blen_put_diag t1 t2 mid m : blen mid = 24 -> blen (put_diag t1 t2 mid m) = DIAG_MSG_LEN.
Proof. intros H. unfold put_diag. autorewrite with blen. rewrite !blen_put_addr16, H. done. Qed.

Lemma diag_roundtrip t1 t2 mid m :
  diag_wf m -> blen mid = 24 -> DiagMsg_parse (put_diag t1 t2 mid m) = Ran (Some m).
Proof.
  intros (Hl & Hr & Hp & Hq & Hu & Hi) Hm. unfold DiagMsg_parse. rewrite blen_put_diag by done.
  change (DIAG_MSG_LEN <? DIAG_MSG_LEN) with false. cbv iota. unfold put_diag.
  set (h := [dm_family m; dm_state m; t1; t2]).
  change (at_index (h ++ _) 0) with (Ran (dm_family m)). cbn [run_bind].
  change (at_index (h ++ _) 1) with (Ran (dm_state m)). cbn [run_bind].
  rewrite (be_at_field 2 h (dm_local_port m) _ _ _ eq_refl) by done. cbn [run_bind].
  erewrite (be_at_field 2 (h ++ to_be 2 (dm_local_port m)) (dm_remote_port m));
    [cbn [run_bind]|rewrite <- !app_assoc; reflexivity|autorewrite with blen; reflexivity|done].
  set (ports := to_be 2 (dm_local_port m) ++ to_be 2 (dm_remote_port m)).
  set (tail := mid ++ to_le 4 (dm_uid m) ++ to_le 4 (dm_inode m)).
  assert (Hports : blen (h ++ ports) = 8) by (unfold ports; by autorewrite with blen).
  assert (E : h ++ to_be 2 (dm_local_port m) ++ to_be 2 (dm_remote_port m) ++ put_addr16 (dm_local m) ++ put_addr16 (dm_remote m) ++ tail
              = (h ++ ports) ++ put_addr16 (dm_local m) ++ (put_addr16 (dm_remote m) ++ tail))
    by (unfold ports; by rewrite <- !app_assoc).
  rewrite E, slice_mid by (rewrite Hports, ?blen_put_addr16; done). cbn [run_bind].
  rewrite parse_addr_put by done. cbn [run_bind try_bind].
  rewrite (app_assoc (h ++ ports)), slice_mid by (rewrite blen_app, Hports, ?blen_put_addr16; done). cbn [run_bind].
  rewrite parse_addr_put by done. cbn [run_bind try_bind].
  erewrite (ne_at_field 4 (((h ++ ports) ++ put_addr16 (dm_local m)) ++ put_addr16 (dm_remote m) ++ mid) (dm_uid m));
    [cbn [run_bind]|unfold tail; rewrite <- !app_assoc; reflexivity|rewrite !(blen_app (_ ++ _)), Hports, blen_app, !blen_put_addr16, Hm; reflexivity|done].
  erewrite (ne_at_field 4 (((h ++ ports) ++ put_addr16 (dm_local m)) ++ put_addr16 (dm_remote m) ++ mid ++ to_le 4 (dm_uid m)) (dm_inode m) []);
    [cbn [run_bind]|unfold tail; rewrite <- !app_assoc, app_nil_r; reflexivity
    |rewrite !(blen_app (_ ++ _)), Hports, !blen_app, !blen_put_addr16, Hm, blen_to_le; reflexivity|done].
  by destruct m.
Qed.

(** ** Who holds a socket *)

(** A descriptor of a process: a socket, another file, or one that was closed during
    the scan. *)
Inductive FdTarget := FdSocket (inode : Z) | FdOther (target : string) | FdGone.
(** An entry of /proc: a process with its descriptors, if they can be listed, or a
    file that is not a process. *)
Inductive DirEntry := DirProcess (pid : Z) (fds : option (list FdTarget)) | DirOther (name : option string).

Definition fd_link (t : FdTarget) : option string :=
  match t with
  | FdSocket inode => Some ("socket:[" +:+ show_u64 inode +:+ "]")
  | FdOther target => Some target
  | FdGone => None
  end.
Definition proc_entry (e : DirEntry) : ProcEntry :=
  match e with
  | DirProcess pid fds => mkProcEntry (Some (show_u64 pid)) (fmap (M:=list) fd_link <$> fds)
  | DirOther name => mkProcEntry name None
  end.
Definition fd_wf (t : FdTarget) : Prop :=
  match t with
  | FdSocket inode => 0 <= inode <= U64_MAX
  | FdOther target => strip_prefix "socket:[" target = None
  | FdGone => True
  end.
Definition dirent_wf (e : DirEntry) : Prop :=
  match e with DirProcess pid fds => 0 <= pid <= U32_MAX /\ Forall fd_wf (default [] fds) | DirOther _ => True end.

(** The pids that hold the socket of an inode, once for each descriptor. *)
Definition holds (inode : Z) (t : FdTarget) : bool := match t with FdSocket i => i =? inode | _ => false end.
Definition entry_holders (inode : Z) (e : DirEntry) : list Z :=
  match e with
  | DirProcess pid fds => (fun _ => pid) <$> List.filter (holds inode) (default [] fds)
  | DirOther _ => []
  end.
Definition holders (dir : list DirEntry) (inode : Z) : list Z := dir ≫= entry_holders inode.

Lemma fd_link_inode t : fd_wf t -> fd_link t ≫= parse_socket_inode = match t with FdSocket i => Some i | _ => None end.
Proof.
  destruct t as [i|target|]; cbn [fd_wf fd_link mbind option_bind]; intros H; [|unfold parse_socket_inode; by rewrite H|done].
  unfold parse_socket_inode. rewrite (proj2 (strip_prefix_spec "socket:[" _ _) eq_refl). cbn [mbind option_bind].
  rewrite strip_suffix_app. cbn [mbind option_bind]. by apply parse_show.
Qed.

Lemma join_fds_holders pid fds inode m :
  Forall fd_wf fds ->
  default [] (foldl (join_fd pid) m (fd_link <$> fds) !! inode)
  = default [] (m !! inode) ++ ((fun _ => pid) <$> List.filter (holds inode) fds).
Proof.
  intros H. revert m. induction H as [|t fds Ht _ IH]; intros m; cbn [fmap list_fmap foldl List.filter]; [by rewrite app_nil_r|].
  rewrite IH. unfold join_fd. rewrite fd_link_inode by done. destruct t as [i|target|]; cbn [holds]; [|done..].
  unfold push_pid. destruct (Z.eqb_spec i inode) as [->|Hne]; [|by rewrite lookup_insert_ne].
  rewrite lookup_insert_eq. change (default [] (Some ?l)) with l. rewrite <- app_assoc. done.
Qed.

Lemma join_entries_holders dir inode m :
  Forall dirent_wf dir -> default [] (foldl join_entry m (proc_entry <$> dir) !! inode) = default [] (m !! inode) ++ holders dir inode.
Proof.
  intros H. revert m. induction H as [|e dir He _ IH]; intros m; cbn [fmap list_fmap foldl]; [by rewrite app_nil_r|].
  rewrite IH. unfold holders. rewrite bind_cons, app_assoc. f_equal. destruct e as [pid [fds|]|name]; cbn [entry_holders proc_entry].
  - destruct He as [Hp Hf]. unfold join_entry. cbn [pe_name pe_fds mbind option_bind fmap option_fmap option_map]. unfold parse_upto.
    rewrite parse_show by (unfold U32_MAX, U64_MAX in *; lia). cbn [mbind option_bind].
    rewrite (proj2 (Z.leb_le _ _)) by lia. by apply join_fds_holders.
  - unfold join_entry. cbn [pe_name pe_fds]. destruct (_ ≫= _); by rewrite app_nil_r.
  - unfold join_entry. cbn [pe_name pe_fds]. destruct (_ ≫= _); by rewrite app_nil_r.
Qed.

Lemma inode_to_pids_holders (dir : option (list DirEntry)) inode :
  Forall dirent_wf (default [] dir) ->
  default [] (inode_to_pids (fmap (M:=list) proc_entry <$> dir) !! inode) = holders (default [] dir) inode.
Proof.
  intros H. destruct dir as [dir|]; cbn [fmap option_fmap option_map inode_to_pids default from_option] in *; [|done].
  by rewrite join_entries_holders.
Qed.

Section DiagKernel.
(** The kernel: its table of sockets, its encoding of a record and how it cuts a
    dump into datagrams. *)
Context (table : list DiagMsg) (enc : DiagMsg -> bytes) (batch : list DiagMsg -> list (list DiagMsg)).

Definition diag_record (m : DiagMsg) : KMsg := mkKMsg SOCK_DIAG_BY_FAMILY 2 1 0 (enc m).
Definition done_record : KMsg := mkKMsg NLMSG_DONE 2 1 0 [0; 0; 0; 0].
Definition dump_reply (l : list DiagMsg) : list Recv :=
  datagrams (((fun b : list DiagMsg => diag_record <$> b) <$> batch l) ++ [[done_record]]).
Definition diag_kernel : Kernel := fun req =>
  match NlMsgHeader_parse req, at_index req 16, at_index req 17, ne_at 4 req 20 with
  | Ran (Some h), Ran family, Ran protocol, Ran states =>
      if (nl_len h =? blen req) && (nl_msg_type h =? SOCK_DIAG_BY_FAMILY) && (protocol =? IPPROTO_TCP)
      then Some (dump_reply (filter (fun m => dm_family m = family /\ Z.testbit states (dm_state m) = true) table))
      else None
  | _, _, _, _ => None
  end.

Hypothesis enc_ok : forall m, m ∈ table -> exists t1 t2 mid, blen mid = 24 /\ enc m = put_diag t1 t2 mid m.
Hypothesis batch_ok : forall l, concat (batch l) = l.
Hypothesis batch_small : forall l, Forall (fun b => length b <= 700)%nat (batch l).
Hypothesis table_ok : Forall diag_wf table.

Lemma enc_length m : m ∈ table -> blen (enc m) = DIAG_MSG_LEN.
Proof using enc_ok. intros Hm. destruct (enc_ok m Hm) as (t1 & t2 & mid & Hmid & ->). by apply blen_put_diag. Qed.

Lemma diag_records_read l acc :
  l ⊆ table -> walk_msgs diag_step (diag_record <$> l) acc = Ran (Continue (acc ++ l)).
Proof using enc_ok table_ok.
  revert acc. induction l as [|m l IH]; intros acc Hl; cbn [fmap list_fmap walk_msgs]; [by rewrite app_nil_r|].
  assert (Hm : m ∈ table) by (apply Hl; by left).
  cbn [diag_record km_type km_payload]. unfold diag_step.
  change (SOCK_DIAG_BY_FAMILY =? NLMSG_DONE) with false. change (SOCK_DIAG_BY_FAMILY =? NLMSG_ERROR) with false.
  change (SOCK_DIAG_BY_FAMILY =? SOCK_DIAG_BY_FAMILY) with true. cbv iota. rewrite enc_length by done.
  change (DIAG_MSG_LEN <=? DIAG_MSG_LEN) with true. cbv iota.
  destruct (enc_ok m Hm) as (t1 & t2 & mid & Hmid & ->).
  rewrite diag_roundtrip by (try done; by apply (proj1 (Forall_forall _ _) table_ok)). cbn [run_bind].
  rewrite IH by (intros x Hx; apply Hl; by right). by rewrite <- app_assoc.
Qed.

Lemma blen_put_msgs_le ms n :
  Forall (fun m => blen (km_payload m) <= n) ms -> blen (put_msgs ms) <= (n + 20) * Z.of_nat (length ms).
Proof.
  induction 1 as [|m ms Hm _ IH]; [unfold blen; simpl; lia|].
  change (put_msgs (m :: ms)) with (put_msg m ++ put_msgs ms). rewrite blen_app, blen_put_msg, length_cons.
  pose proof (align4_bounds (NLMSG_HDR_LEN + blen (km_payload m))). unfold NLMSG_HDR_LEN in *. lia.
Qed.

Lemma diag_batch_whole b : b ⊆ table -> (length b <= 700)%nat -> whole (diag_record <$> b).
Proof using enc_ok.
  intros Hb Hn. split.
  - apply Forall_fmap, Forall_forall. intros m Hm. cbn. unfold header_wf. cbn.
    rewrite enc_length by auto. unfold fits. cbn. done.
  - etrans; [apply (blen_put_msgs_le _ DIAG_MSG_LEN)|rewrite length_fmap; unfold DIAG_MSG_LEN, RECV_BUF; lia].
    apply Forall_fmap, Forall_forall. intros m Hm. cbn. rewrite enc_length by auto. done.
Qed.

Lemma dump_reply_read l : l ⊆ table -> diag_read_dump (dump_reply l) = Ran (DumpOk l).
Proof using enc_ok batch_ok batch_small table_ok.
  intros Hl. unfold diag_read_dump, dump_reply. rewrite read_dump_whole.
  - rewrite <- (batch_ok l) in Hl |- * at 2.
    replace (concat ((fun b : list DiagMsg => diag_record <$> b) <$> batch l)) with (diag_record <$> concat (batch l)).
    + rewrite diag_records_read by done. cbn [run_bind datagrams fmap list_fmap read_dump_loop]. rewrite walk_whole; [done|].
      split; [|done]. by repeat constructor.
    + clear. induction (batch l) as [|b bs IH]; [done|]. cbn [concat fmap list_fmap]. by rewrite fmap_app, IH.
  - apply Forall_fmap, Forall_forall. intros b Hb. apply diag_batch_whole.
    + intros m Hm. apply Hl. rewrite <- (batch_ok l). apply list_elem_of_In, in_concat. exists b.
      by rewrite <- !list_elem_of_In.
    + by apply (proj1 (Forall_forall _ _) (batch_small l)).
Qed.

Lemma kernel_answers family :
  family = AF_INET \/ family = AF_INET6 ->
  diag_kernel (diag_request family SNAPSHOT_STATES)
  = Some (dump_reply (filter (fun m => dm_family m = family /\ Z.testbit SNAPSHOT_STATES (dm_state m) = true) table)).
Proof. intros [H|H]; rewrite H; reflexivity. Qed.

Lemma snapshot_states_bits s : Z.testbit SNAPSHOT_STATES s = true <-> s = TCP_ESTABLISHED \/ s = TCP_LISTEN.
Proof.
  unfold TCP_ESTABLISHED, TCP_LISTEN. change SNAPSHOT_STATES with 1026.
  split; [|intros [E|E]; by rewrite E].
  intros H. destruct (decide (s < 0)) as [Hs|Hs]; [by rewrite Z.testbit_neg_r in H|].
  destruct (decide (s < 11)) as [Hs'|Hs'].
  - assert (s = 0 \/ s = 1 \/ s = 2 \/ s = 3 \/ s = 4 \/ s = 5 \/ s = 6 \/ s = 7 \/ s = 8 \/ s = 9 \/ s = 10) as Hin by lia.
    repeat (destruct Hin as [->|Hin]; [vm_compute in H; by auto|]). auto.
  - rewrite Z.bits_above_log2 in H by (simpl; lia). done.
Qed.

(** The sockets of one family that listen or are connected. *)
Definition wanted (family : Z) : list DiagMsg :=
  filter (fun m => dm_family m = family /\ (dm_state m = TCP_ESTABLISHED \/ dm_state m = TCP_LISTEN)) table.

(** C27. The socket snapshot is exact: against a kernel that reads the request the
    code sends and dumps its socket table in datagrams of any cut, and a /proc whose
    processes hold sockets and other files (some unreadable, some gone during the
    scan), the snapshot is the listening and connected TCP sockets of the table, IPv4
    then IPv6, in the table's order, each with its own addresses, ports, state and
    owner and with the pid of every readable process that holds it, once for each
    descriptor. *)
Theorem snapshot_exact (dir : option (list DirEntry)) :
  Forall dirent_wf (default [] dir) ->
  snapshot diag_kernel (fmap (M:=list) proc_entry <$> dir)
  = Ran (DumpOk ((fun m => mkSnapshotEntry (dm_local m, dm_local_port m) (dm_remote m, dm_remote_port m)
                             (if dm_state m =? TCP_LISTEN then SS_Listen else SS_Established)
                             (dm_uid m) (dm_inode m) (holders (default [] dir) (dm_inode m)))
                 <$> wanted AF_INET ++ wanted AF_INET6)).
Proof using enc_ok batch_ok batch_small table_ok.
  intros Hdir. unfold snapshot, query_tcp_sockets. cbn [dump_families]. unfold diag_dump_one_family at 1.
  assert (Hw : forall family, filter (fun m => dm_family m = family /\ Z.testbit SNAPSHOT_STATES (dm_state m) = true) table = wanted family).
  { intros family. apply filter_elem_iff. intros m _. by rewrite snapshot_states_bits. }
  assert (Hs : forall family, wanted family ⊆ table) by (intros family m Hm; by apply list_elem_of_filter in Hm as [_ ?]).
  rewrite kernel_answers, Hw, dump_reply_read by auto. cbn [run_bind].
  unfold diag_dump_one_family. rewrite kernel_answers, Hw, dump_reply_read by auto. cbn [run_bind map_dump]. do 2 f_equal.
  apply list_fmap_ext. intros i m Hm. apply list_elem_of_lookup_2 in Hm. unfold with_pids, SocketSnapshotEntry_from, SocketState_from.
  cbn [se_local se_remote se_state se_uid se_inode]. rewrite inode_to_pids_holders by done.
  assert (dm_state m = TCP_ESTABLISHED \/ dm_state m = TCP_LISTEN) as [-> | ->]; [|done..].
  apply elem_of_app in Hm as [Hm|Hm]; by apply list_elem_of_filter in Hm as [[_ ?] _].
Qed.
End DiagKernel.

Definition sample_sockets : list DiagMsg :=
  [mkDiagMsg AF_INET6 10 (V6 0) 22 (V6 0) 0 0 41; mkDiagMsg AF_INET 6 (V4 5) 80 (V4 6) 5000 33 42;
   mkDiagMsg AF_INET 1 (V4 0x7f000001) 5432 (V4 0x7f000001) 50100 33 43].
Definition sample_dir : list DirEntry :=
  [DirProcess 812 (Some [FdOther "/dev/null"; FdSocket 41; FdSocket 43; FdGone; FdSocket 41]); DirOther (Some "self");
   DirProcess 9 None; DirProcess 813 (Some [FdSocket 41])].
Lemma snapshot_exact_witness :
  snapshot (diag_kernel sample_sockets (put_diag 0 0 (replicate 24 7)) (fmap (fun m => [m]))) (Some (proc_entry <$> sample_dir))
  = Ran (DumpOk [mkSnapshotEntry (V4 0x7f000001, 5432) (V4 0x7f000001, 50100) SS_Established 33 43 [812];
                 mkSnapshotEntry (V6 0, 22) (V6 0, 0) SS_Listen 0 41 [812; 812; 813]]).
Proof.
  rewrite (snapshot_exact sample_sockets (put_diag 0 0 (replicate 24 7)) (fmap (fun m => [m])) ) with (dir := Some sample_dir).
  - vm_compute. reflexivity.
  - intros m _. exists 0, 0, (replicate 24 7). split; reflexivity.
  - intros l. induction l as [|m l IH]; [reflexivity|]. cbn [fmap list_fmap concat app]. f_equal. exact IH.
  - intros l. apply Forall_fmap, Forall_forall. intros m _. cbn. lia.
  - repeat constructor; vm_compute; congruence.
  - repeat constructor; vm_compute; congruence.
Defined.

(** ** A message without its padding *)

(** The bytes of a message whose padding the sender left out. *)
Definition unpadded (m : KMsg) : bytes := NlMsgHeader_to_bytes (km_header m) ++ km_payload m.

Lemma blen_unpadded m : blen (unpadded m) = NLMSG_HDR_LEN + blen (km_payload m).
Proof. unfold unpadded. by rewrite blen_app, blen_header. Qed.

Lemma walk_unpadded {A} (step : Z -> bytes -> A -> Run (Step A)) m acc acc' :
  header_wf (km_header m) -> blen (km_payload m) mod 4 <> 0 -> blen (unpadded m) <= RECV_BUF ->
  step (km_type m) (km_payload m) acc = Ran (Continue acc') ->
  walk_datagram step (unpadded m) acc = Panicked.
Proof.
  intros Hh Hmod Hb Hs. pose proof (blen_unpadded m) as Hl. pose proof (blen_nonneg (km_payload m)).
  unfold walk_datagram, received. rewrite take_ge by (unfold blen in Hb; lia).
  destruct (length (unpadded m)) as [|fuel] eqn:El; [unfold blen, NLMSG_HDR_LEN in *; lia|].
  assert (Ht : take (Z.to_nat (NLMSG_HDR_LEN + blen (km_payload m))) (unpadded m) = NlMsgHeader_to_bytes (km_header m) ++ km_payload m).
  { apply take_ge. rewrite <- Hl. fold (unpadded m). unfold blen. lia. }
  pose proof (walk_at_msg step fuel [] m (unpadded m) acc Hh ltac:(lia) Ht) as Hw. cbn [app] in Hw.
  change (blen (@nil Z)) with 0 in Hw. rewrite Hw, Hs. cbn [run_bind].
  assert (Hgt : blen (unpadded m) < align4 (NLMSG_HDR_LEN + blen (km_payload m))).
  { pose proof (align4_bounds (NLMSG_HDR_LEN + blen (km_payload m))). pose proof (align4_mod (NLMSG_HDR_LEN + blen (km_payload m))) as Hm.
    destruct (decide (align4 (NLMSG_HDR_LEN + blen (km_payload m)) = NLMSG_HDR_LEN + blen (km_payload m))) as [E|E]; [|lia].
    rewrite E, Z.add_comm in Hm. change NLMSG_HDR_LEN with (4 * 4) in Hm. by rewrite Z_mod_plus_full in Hm. }
  destruct fuel; cbn [walk_frames]; rewrite slice_from_panics; done.
Qed.

Lemma steps_continue t p :
  t <> NLMSG_ERROR -> t <> NLMSG_DONE ->
  (forall l, exists l', diag_step t p l = Ran (Continue l')) /\ (forall l, exists l', conntrack_step t p l = Ran (Continue l'))
  /\ (forall l, exists l', proc_step t p l = Ran (Continue l')).
Proof.
  intros He%Z.eqb_neq Hd%Z.eqb_neq. unfold diag_step, conntrack_step, proc_step. rewrite He, Hd.
  cbv beta iota zeta. split; [|split]; intros l; [| |by eexists].
  - destruct (t =? SOCK_DIAG_BY_FAMILY); [|by exists l]. destruct (DIAG_MSG_LEN <=? blen p); [|by exists l].
    destruct (diag_parse_ran p) as [r ->]. by eexists.
  - destruct (t =? ct_new_type); [|by exists l]. destruct (NFGENMSG_LEN <=? blen p) eqn:E; [|by exists l]. apply Z.leb_le in E.
    destruct (slice_from_ran p NFGENMSG_LEN) as [b ->]; [unfold NFGENMSG_LEN in *; lia|]. cbn [run_bind].
    destruct (flow_parse_ran b) as [r ->]. by eexists.
Qed.

(** A reader is not robust against a last message without padding: when the
    length of a well-formed message is no multiple of four and the datagram ends
    with it, [&received[offset..]] is out of range and all three readers panic,
    although each of their loops is written to stop at a malformed tail. *)
Theorem unaligned_tail_panics (m : KMsg) (rest : list Recv) :
  header_wf (km_header m) -> blen (km_payload m) mod 4 <> 0 -> blen (unpadded m) <= RECV_BUF ->
  km_type m <> NLMSG_ERROR -> km_type m <> NLMSG_DONE ->
  diag_read_dump (Datagram (unpadded m) :: rest) = Panicked /\
  conntrack_read_dump (Datagram (unpadded m) :: rest) = Panicked /\
  recv_events (Datagram (unpadded m)) = Panicked.
Proof.
  intros Hh Hmod Hb He Hd. destruct (steps_continue _ (km_payload m) He Hd) as (H1 & H2 & H3).
  destruct (H1 []) as [? E1], (H2 []) as [? E2], (H3 []) as [? E3].
  unfold diag_read_dump, conntrack_read_dump. cbn [read_dump_loop recv_events].
  rewrite (walk_unpadded diag_step m [] _ Hh Hmod Hb E1), (walk_unpadded conntrack_step m [] _ Hh Hmod Hb E2),
    (walk_unpadded proc_step m [] _ Hh Hmod Hb E3). done.
Qed.

Lemma unaligned_tail_panics_witness :
  diag_read_dump [Datagram (unpadded (mkKMsg 16 0 1 0 [1])); Datagram (put_msgs [done_record])] = Panicked.
Proof.
  apply (unaligned_tail_panics (mkKMsg 16 0 1 0 [1])); try (vm_compute; congruence).
  repeat split; vm_compute; congruence.
Defined.

(** ** Attribution of flows *)

Lemma find_map_some {A B} (f : A -> option B) l b :
  find_map f l = Some b -> exists l1 a l2, l = l1 ++ a :: l2 /\ f a = Some b /\ Forall (fun a => f a = None) l1.
Proof.
  induction l as [|a l IH]; [done|]. cbn. destruct (f a) eqn:E.
  - intros [= ->]. by exists [], a, l.
  - intros (l1 & a' & l2 & -> & H1 & H2)%IH. exists (a :: l1), a', l2. split; [done|]. split; [done|]. by constructor.
Qed.

Lemma find_map_none {A B} (f : A -> option B) l : find_map f l = None <-> Forall (fun a => f a = None) l.
Proof.
  induction l as [|a l IH]; cbn; [done|]. rewrite Forall_cons. destruct (f a); [split; [done|by intros [? _]]|].
  rewrite IH. tauto.
Qed.

Lemma same_endpoint_true a ip port : same_endpoint a ip port = true <-> a = (ip, port).
Proof.
  unfold same_endpoint. destruct a as [i p]. cbn. rewrite andb_true_iff, bool_decide_eq_true, Z.eqb_eq.
  split; [by intros [-> ->]|by intros [= -> ->]].
Qed.

(** The socket is connected and its end points are those of the tuple, from this
    host to the peer ([outbound]) or from the peer to this host. *)
Definition carries (flow : ConntrackFlow) (sock : SocketSnapshotEntry) (outbound : bool) : Prop :=
  exists sp dp, ft_src_port (cf_orig flow) = Some sp /\ ft_dst_port (cf_orig flow) = Some dp /\
    ft_protocol (cf_orig flow) = IPPROTO_TCP /\ se_state sock = SS_Established /\
    (if outbound then se_local sock = (ft_src (cf_orig flow), sp) /\ se_remote sock = (ft_dst (cf_orig flow), dp)
     else se_local sock = (ft_dst (cf_orig flow), dp) /\ se_remote sock = (ft_src (cf_orig flow), sp)).

Lemma attribute_socket_some flow sp dp sock r :
  attribute_socket flow sp dp sock = Some r ->
  exists outbound, r = (sock, se_remote sock, outbound) /\ se_state sock = SS_Established /\
    (if outbound then se_local sock = (ft_src (cf_orig flow), sp) /\ se_remote sock = (ft_dst (cf_orig flow), dp)
     else se_local sock = (ft_dst (cf_orig flow), dp) /\ se_remote sock = (ft_src (cf_orig flow), sp)).
Proof.
  unfold attribute_socket. case_bool_decide as Hs; cbn [negb]; [|done].
  match goal with |- (if ?b then _ else if ?c then _ else _) = _ -> _ => destruct b eqn:E1; [|destruct c eqn:E2; [|done]] end;
    intros [= <-]; [exists true|exists false]; [apply andb_true_iff in E1 as [E1%same_endpoint_true E1'%same_endpoint_true]
    |apply andb_true_iff in E2 as [E2%same_endpoint_true E2'%same_endpoint_true]]; auto.
Qed.

Lemma attribute_socket_carries flow sp dp sock outbound :
  ft_src_port (cf_orig flow) = Some sp -> ft_dst_port (cf_orig flow) = Some dp ->
  carries flow sock outbound -> attribute_socket flow sp dp sock <> None.
Proof.
  intros E1 E2 (sp' & dp' & E1' & E2' & _ & Hs & H). rewrite E1 in E1'. rewrite E2 in E2'. injection E1' as <-. injection E2' as <-.
  unfold attribute_socket. rewrite bool_decide_eq_true_2 by done. cbn [negb].
  destruct outbound, H as [Hl Hr]; apply same_endpoint_true in Hl, Hr; rewrite Hl, Hr; cbn [andb]; [done|].
  by destruct (_ && _).
Qed.

(** Flows are attributed exactly: a flow yields events iff some connected
    socket of the snapshot carries it, in either direction, and has a process that
    can be resolved; every event names a process of the first such socket and that
    socket's peer, and counts as sent the bytes of the direction that leaves this
    host, as received those of the other. *)
Theorem flow_attribution (flow : ConntrackFlow) (sockets : list SocketSnapshotEntry)
    (res : Z -> option ProcInfo) (now : Z) :
  (forall e, e ∈ conntrack_flow_events_for flow sockets res now ->
     exists sock outbound pid proc, sock ∈ sockets /\ carries flow sock outbound /\ pid ∈ se_pids sock /\
       res pid = Some proc /\
       e = flow_event flow sock (se_remote sock)
             (if outbound then cf_counters_orig flow else cf_counters_reply flow)
             (if outbound then cf_counters_reply flow else cf_counters_orig flow) pid proc now) /\
  (forall before sock outbound pid proc after,
     sockets = before ++ sock :: after -> (forall s o, s ∈ before -> ~ carries flow s o) ->
     carries flow sock outbound -> pid ∈ se_pids sock -> res pid = Some proc ->
     exists e, e ∈ conntrack_flow_events_for flow sockets res now /\ (Event_meta e).(meta_pid) = pid).
Proof.
  unfold conntrack_flow_events_for, attribute_flow. split.
  - intros e. destruct (Z.eqb_spec (ft_protocol (cf_orig flow)) IPPROTO_TCP) as [Ht|]; cbn [negb]; [|by intros ?%not_elem_of_nil].
    destruct (ft_src_port (cf_orig flow)) as [sp|] eqn:E1; cbn; [|by intros ?%not_elem_of_nil].
    destruct (ft_dst_port (cf_orig flow)) as [dp|] eqn:E2; cbn; [|by intros ?%not_elem_of_nil].
    destruct (find_map _ _) as [r|] eqn:Ef; [|by intros ?%not_elem_of_nil].
    apply find_map_some in Ef as (l1 & sock & l2 & -> & (o & -> & Hs & H)%attribute_socket_some & _).
    destruct o; intros (pid & Hp & He)%list_elem_of_omap; destruct (res pid) as [proc|] eqn:Er; try done; injection He as <-;
      [exists sock, true, pid, proc|exists sock, false, pid, proc];
      (split; [apply elem_of_app; right; by left|]); (split; [by exists sp, dp|]); auto.
  - intros before sock o pid proc after -> Hb Hc Hp Hr. destruct Hc as (sp & dp & E1 & E2 & Ht & Hc').
    assert (Hc : carries flow sock o) by by exists sp, dp.
    rewrite Ht, E1, E2. change (IPPROTO_TCP =? IPPROTO_TCP) with true. cbn [negb mbind option_bind].
    destruct (find_map _ _) as [r|] eqn:Ef.
    + apply find_map_some in Ef as (l1 & s' & l2 & E & Hs' & Hn).
      assert (s' = sock) as ->.
      { apply app_eq_app in E as (k & [[-> Ek]|[-> Ek]]); destruct k as [|x k]; cbn in Ek; try by injection Ek.
        - injection Ek as <- ->. exfalso. apply attribute_socket_some in Hs' as (o' & _ & ? & ?).
          apply (Hb s' o'); [apply elem_of_app; right; by left|by exists sp, dp].
        - injection Ek as <- ->. exfalso. apply Forall_app in Hn as [_ [Hn _]%Forall_cons].
          by apply (attribute_socket_carries flow sp dp sock o E1 E2 Hc). }
      apply attribute_socket_some in Hs' as (o' & -> & _).
      destruct o'; (eexists; split; [apply list_elem_of_omap; exists pid; split; [done|]; by rewrite Hr|done]).
    + exfalso. apply find_map_none in Ef. apply Forall_app in Ef as [_ [Hn _]%Forall_cons].
      by apply (attribute_socket_carries flow sp dp sock o E1 E2 Hc).
Qed.

Definition sample_established : SocketSnapshotEntry :=
  mkSnapshotEntry (V4 0x08080808, 443) (V4 0xac1e8810, 50000) SS_Established 0 9 [812].
Lemma flow_attribution_witness :
  exists e, e ∈ conntrack_flow_events_for sample_flow [sample_established] (fun _ => Some (mkProcInfo "nginx" 1 0)) 5
            /\ (Event_meta e).(meta_pid) = 812.
Proof.
  apply (proj2 (flow_attribution sample_flow [sample_established] (fun _ => Some (mkProcInfo "nginx" 1 0)) 5)
           [] sample_established false 812 (mkProcInfo "nginx" 1 0) []); [reflexivity| | | |reflexivity].
  - by intros s o ?%not_elem_of_nil.
  - exists 50000, 443. repeat split; reflexivity.
  - by left.
Defined.

(** ** Where the code departs from its documentation *)

(** A tuple without a protocol number is rejected as a whole, and ([tuple_roundtrip])
    one whose addresses are of different families is decoded: the documentation of
    [FlowTuple::parse] states the opposite of both. *)
Lemma tuple_without_protocol_rejected s d :
  addr_wf s -> addr_wf d ->
  FlowTuple_parse (put_attrs [mkAttr CTA_TUPLE_IP true (put_attrs [put_src s; put_dst d])]) = Ran None.
Proof.
  intros Hs Hd. destruct (ip_attrs_wf s d) as [H1 H2]. unfold FlowTuple_parse.
  rewrite parse_put_attrs by (apply Forall_singleton, attr_wf_intro; [done|lia]). cbn [run_bind run_fold].
  unfold tuple_attr_step. cbn [attr_nested attr_type attr_value negb]. change (CTA_TUPLE_IP =? CTA_TUPLE_IP) with true.
  cbv iota. rewrite parse_put_attrs by done. cbn [run_bind]. rewrite ip_steps by done. reflexivity.
Qed.

(** A connection over IPv4 that a dual-stack socket accepted has the IPv4-mapped
    address [::ffff:a.b.c.d] in the socket table and [a.b.c.d] in the conntrack
    table: no IPv6 socket carries an IPv4 flow, and the flow is never reported. *)
Lemma dual_stack_flow_lost flow sockets res now a b :
  ft_src (cf_orig flow) = V4 a -> ft_dst (cf_orig flow) = V4 b ->
  Forall (fun s => exists z p, se_local s = (V6 z, p)) sockets ->
  conntrack_flow_events_for flow sockets res now = [].
Proof.
  intros Hs Hd Hl. unfold conntrack_flow_events_for, attribute_flow. destruct (negb _); [done|].
  destruct (ft_src_port _) as [sp|]; cbn; [|done]. destruct (ft_dst_port _) as [dp|]; cbn; [|done].
  replace (find_map _ sockets) with (@None (SocketSnapshotEntry * (IpAddr * Z) * bool)); [done|].
  symmetry. apply find_map_none. eapply Forall_impl; [exact Hl|]. intros s (z & p & E).
  destruct (attribute_socket flow sp dp s) as [r|] eqn:Er; [|done].
  apply attribute_socket_some in Er as ([|] & _ & _ & [H _]); rewrite E, ?Hs, ?Hd in H; by injection H.
Qed.

(** A process that holds a listening socket on two descriptors is listed twice, and
    its listening port is reported twice. *)
Lemma duplicated_fd_reported_twice :
  listen_port_events
    (diag_kernel sample_sockets (put_diag 0 0 (replicate 24 7)) (fmap (fun m => [m])))
    (Some [mkProcEntry (Some "812") (Some [Some "socket:[41]"; Some "socket:[41]"])])
    (fun _ => Some (cat ["Name:	sshd"; String newline "PPid:	1"; String newline "Gid:	0	0	0	0"])) 7
  = Ran (DumpOk (replicate 2 (Event_ListenPort (mkListenPortEvent
      (mkEventMeta 812 1 (User_Unix 0 0) 7 "sshd" None None None) (V6 0) 22)))).
Proof. vm_compute. reflexivity. Qed.
