(* ===== verification/LinuxWire.v ===== *)
(** * LinuxWire: the records of the eBPF probes and their events

    Sources: src/crates/sensors/linux/wire/src/lib.rs (the records),
    src/crates/sensors/linux/userspace/src/normalize.rs and
    src/crates/sensors/linux/uprobes/src/normalize.rs, redact.rs (the mapping to
    events).  A fixed-size array is a list of bytes whose length the record's [_wf]
    predicate fixes; slicing it runs in [Run].  [read_link] is /proc; the regex
    engine and the display of an address are arguments. *)
From stdpp Require Import base gmap strings list.
From Stdlib Require Import ZArith Lia.
From S2P Require Import Prelude Str Text Fs Utf8 Schema Bytes.
#[local] Open Scope string_scope.
#[local] Open Scope list_scope.
#[local] Open Scope Z_scope.
#[local] Open Scope edr_scope.

(** ** The records *)

Definition WIRE_VERSION : Z := 21.
Definition TASK_COMM_LEN : Z := 16.
Definition MAX_PATH_LEN : Z := 256.
Definition MAX_XATTR_NAME_LEN : Z := 255.
Definition MAX_FS_TYPE_LEN : Z := 32.
Definition MAX_MODULE_NAME_LEN : Z := 64.
Definition MAX_DNS_QUERY_LEN : Z := 256.
Definition MAX_TLS_CAPTURE : Z := 256.
Definition MAX_READLINE_INPUT : Z := 512.
Definition PRIMED_GENERATION_BIT : Z := Z.shiftl 1 63.

Record wire_EventMeta := mk_wire_EventMeta {
  w_meta_pid : Z;
  w_meta_ppid : Z;
  w_meta_uid : Z;
  w_meta_gid : Z;
  w_meta_timestamp_ns : Z;
  w_meta_comm : bytes;
  w_meta_cgroup_id : Z;
  w_meta_process_generation : Z;
  w_meta_parent_generation : Z }.

Definition wire_EventMeta_wf (e : wire_EventMeta) : Prop := blen (w_meta_comm e) = TASK_COMM_LEN /\ 0 <= w_meta_timestamp_ns e <= U64_MAX.

Record wire_ExecEvent := mk_wire_ExecEvent {
  w_exec_meta : wire_EventMeta;
  w_exec_image : bytes;
  w_exec_image_len : Z;
  w_exec_pcomm : bytes }.

Definition wire_ExecEvent_wf (e : wire_ExecEvent) : Prop := wire_EventMeta_wf (w_exec_meta e) /\ blen (w_exec_image e) = MAX_PATH_LEN /\ blen (w_exec_pcomm e) = TASK_COMM_LEN /\ 0 <= w_exec_image_len e.

Record wire_LineageEntry := mk_wire_LineageEntry {
  w_lineage_ppid : Z;
  w_lineage_comm : bytes;
  w_lineage_reserved : Z;
  w_lineage_generation : Z;
  w_lineage_parent_generation : Z }.

Definition wire_LineageEntry_wf (e : wire_LineageEntry) : Prop := blen (w_lineage_comm e) = TASK_COMM_LEN.

Record wire_FileOpenEvent := mk_wire_FileOpenEvent {
  w_file_open_meta : wire_EventMeta;
  w_file_open_path : bytes;
  w_file_open_path_len : Z;
  w_file_open_flags : Z }.

Definition wire_FileOpenEvent_wf (e : wire_FileOpenEvent) : Prop := wire_EventMeta_wf (w_file_open_meta e) /\ blen (w_file_open_path e) = MAX_PATH_LEN /\ 0 <= w_file_open_path_len e.

Record wire_FileWriteEvent := mk_wire_FileWriteEvent {
  w_file_write_meta : wire_EventMeta;
  w_file_write_fd : Z;
  w_file_write_bytes_requested : Z }.

Definition wire_FileWriteEvent_wf (e : wire_FileWriteEvent) : Prop := wire_EventMeta_wf (w_file_write_meta e).

Record wire_FileDeleteEvent := mk_wire_FileDeleteEvent {
  w_file_delete_meta : wire_EventMeta;
  w_file_delete_path : bytes;
  w_file_delete_path_len : Z }.

Definition wire_FileDeleteEvent_wf (e : wire_FileDeleteEvent) : Prop := wire_EventMeta_wf (w_file_delete_meta e) /\ blen (w_file_delete_path e) = MAX_PATH_LEN /\ 0 <= w_file_delete_path_len e.

Record wire_FileRenameEvent := mk_wire_FileRenameEvent {
  w_file_rename_meta : wire_EventMeta;
  w_file_rename_old_path : bytes;
  w_file_rename_old_path_len : Z;
  w_file_rename_new_path : bytes;
  w_file_rename_new_path_len : Z;
  w_file_rename_reserved : Z;
  w_file_rename_old_dfd : Z;
  w_file_rename_new_dfd : Z }.

Definition wire_FileRenameEvent_wf (e : wire_FileRenameEvent) : Prop := wire_EventMeta_wf (w_file_rename_meta e) /\ blen (w_file_rename_old_path e) = MAX_PATH_LEN /\ blen (w_file_rename_new_path e) = MAX_PATH_LEN /\ 0 <= w_file_rename_old_path_len e /\ 0 <= w_file_rename_new_path_len e.

Record wire_FileChmodEvent := mk_wire_FileChmodEvent {
  w_file_chmod_meta : wire_EventMeta;
  w_file_chmod_path : bytes;
  w_file_chmod_path_len : Z;
  w_file_chmod_mode : Z }.

Definition wire_FileChmodEvent_wf (e : wire_FileChmodEvent) : Prop := wire_EventMeta_wf (w_file_chmod_meta e) /\ blen (w_file_chmod_path e) = MAX_PATH_LEN /\ 0 <= w_file_chmod_path_len e.

Record wire_FileChownEvent := mk_wire_FileChownEvent {
  w_file_chown_meta : wire_EventMeta;
  w_file_chown_path : bytes;
  w_file_chown_path_len : Z;
  w_file_chown_uid : Z;
  w_file_chown_gid : Z }.

Definition wire_FileChownEvent_wf (e : wire_FileChownEvent) : Prop := wire_EventMeta_wf (w_file_chown_meta e) /\ blen (w_file_chown_path e) = MAX_PATH_LEN /\ 0 <= w_file_chown_path_len e.

Record wire_FileSetxattrEvent := mk_wire_FileSetxattrEvent {
  w_file_setxattr_meta : wire_EventMeta;
  w_file_setxattr_path : bytes;
  w_file_setxattr_path_len : Z;
  w_file_setxattr_name : bytes;
  w_file_setxattr_name_len : Z }.

Definition wire_FileSetxattrEvent_wf (e : wire_FileSetxattrEvent) : Prop := wire_EventMeta_wf (w_file_setxattr_meta e) /\ blen (w_file_setxattr_path e) = MAX_PATH_LEN /\ blen (w_file_setxattr_name e) = MAX_XATTR_NAME_LEN /\ 0 <= w_file_setxattr_path_len e /\ 0 <= w_file_setxattr_name_len e.

Record wire_FileRemovexattrEvent := mk_wire_FileRemovexattrEvent {
  w_file_removexattr_meta : wire_EventMeta;
  w_file_removexattr_path : bytes;
  w_file_removexattr_path_len : Z;
  w_file_removexattr_name : bytes;
  w_file_removexattr_name_len : Z }.

Definition wire_FileRemovexattrEvent_wf (e : wire_FileRemovexattrEvent) : Prop := wire_EventMeta_wf (w_file_removexattr_meta e) /\ blen (w_file_removexattr_path e) = MAX_PATH_LEN /\ blen (w_file_removexattr_name e) = MAX_XATTR_NAME_LEN /\ 0 <= w_file_removexattr_path_len e /\ 0 <= w_file_removexattr_name_len e.

Record wire_ConnectEvent := mk_wire_ConnectEvent {
  w_connect_meta : wire_EventMeta;
  w_connect_daddr_v4 : bytes;
  w_connect_daddr_v6 : bytes;
  w_connect_dport : Z;
  w_connect_is_ipv6 : bool }.

Definition wire_ConnectEvent_wf (e : wire_ConnectEvent) : Prop := wire_EventMeta_wf (w_connect_meta e) /\ blen (w_connect_daddr_v4 e) = 4 /\ blen (w_connect_daddr_v6 e) = 16.

Record wire_SocketBindEvent := mk_wire_SocketBindEvent {
  w_socket_bind_meta : wire_EventMeta;
  w_socket_bind_laddr_v4 : bytes;
  w_socket_bind_laddr_v6 : bytes;
  w_socket_bind_lport : Z;
  w_socket_bind_is_ipv6 : bool }.

Definition wire_SocketBindEvent_wf (e : wire_SocketBindEvent) : Prop := wire_EventMeta_wf (w_socket_bind_meta e) /\ blen (w_socket_bind_laddr_v4 e) = 4 /\ blen (w_socket_bind_laddr_v6 e) = 16.

Record wire_UdpSendEvent := mk_wire_UdpSendEvent {
  w_udp_send_meta : wire_EventMeta;
  w_udp_send_daddr_v4 : bytes;
  w_udp_send_daddr_v6 : bytes;
  w_udp_send_dport : Z;
  w_udp_send_is_ipv6 : bool;
  w_udp_send_size : Z }.

Definition wire_UdpSendEvent_wf (e : wire_UdpSendEvent) : Prop := wire_EventMeta_wf (w_udp_send_meta e) /\ blen (w_udp_send_daddr_v4 e) = 4 /\ blen (w_udp_send_daddr_v6 e) = 16.

Record wire_SocketListenEvent := mk_wire_SocketListenEvent {
  w_socket_listen_meta : wire_EventMeta;
  w_socket_listen_laddr_v4 : bytes;
  w_socket_listen_laddr_v6 : bytes;
  w_socket_listen_lport : Z;
  w_socket_listen_is_ipv6 : bool;
  w_socket_listen_addr_resolved : bool;
  w_socket_listen_backlog : Z }.

Definition wire_SocketListenEvent_wf (e : wire_SocketListenEvent) : Prop := wire_EventMeta_wf (w_socket_listen_meta e) /\ blen (w_socket_listen_laddr_v4 e) = 4 /\ blen (w_socket_listen_laddr_v6 e) = 16.

Record wire_SocketAcceptEvent := mk_wire_SocketAcceptEvent {
  w_socket_accept_meta : wire_EventMeta;
  w_socket_accept_listen_fd : Z;
  w_socket_accept_accepted_fd : Z;
  w_socket_accept_peer_addr_v4 : bytes;
  w_socket_accept_peer_addr_v6 : bytes;
  w_socket_accept_peer_port : Z;
  w_socket_accept_is_ipv6 : bool }.

Definition wire_SocketAcceptEvent_wf (e : wire_SocketAcceptEvent) : Prop := wire_EventMeta_wf (w_socket_accept_meta e) /\ blen (w_socket_accept_peer_addr_v4 e) = 4 /\ blen (w_socket_accept_peer_addr_v6 e) = 16.

Record wire_MountEvent := mk_wire_MountEvent {
  w_mount_meta : wire_EventMeta;
  w_mount_mount_point : bytes;
  w_mount_mount_point_len : Z;
  w_mount_source : bytes;
  w_mount_source_len : Z;
  w_mount_fs_type : bytes;
  w_mount_fs_type_len : Z;
  w_mount_readonly : bool;
  w_mount_mounted : bool }.

Definition wire_MountEvent_wf (e : wire_MountEvent) : Prop := wire_EventMeta_wf (w_mount_meta e) /\ blen (w_mount_mount_point e) = MAX_PATH_LEN /\ blen (w_mount_source e) = MAX_PATH_LEN /\ blen (w_mount_fs_type e) = MAX_FS_TYPE_LEN /\ 0 <= w_mount_mount_point_len e /\ 0 <= w_mount_source_len e /\ 0 <= w_mount_fs_type_len e.

Record wire_SignalEvent := mk_wire_SignalEvent {
  w_signal_meta : wire_EventMeta;
  w_signal_signal : Z;
  w_signal_target_pid : Z }.

Definition wire_SignalEvent_wf (e : wire_SignalEvent) : Prop := wire_EventMeta_wf (w_signal_meta e).

Record wire_IdentityChangeEvent := mk_wire_IdentityChangeEvent {
  w_identity_change_meta : wire_EventMeta;
  w_identity_change_kind : Z;
  w_identity_change_real : Z;
  w_identity_change_effective : Z;
  w_identity_change_saved : Z }.

Definition wire_IdentityChangeEvent_wf (e : wire_IdentityChangeEvent) : Prop := wire_EventMeta_wf (w_identity_change_meta e).

Record wire_CapSetEvent := mk_wire_CapSetEvent {
  w_cap_set_meta : wire_EventMeta;
  w_cap_set_target_pid : Z;
  w_cap_set_effective : Z;
  w_cap_set_permitted : Z;
  w_cap_set_inheritable : Z }.

Definition wire_CapSetEvent_wf (e : wire_CapSetEvent) : Prop := wire_EventMeta_wf (w_cap_set_meta e).

Record wire_NamespaceEvent := mk_wire_NamespaceEvent {
  w_namespace_meta : wire_EventMeta;
  w_namespace_syscall : Z;
  w_namespace_fd : Z;
  w_namespace_flags : Z }.

Definition wire_NamespaceEvent_wf (e : wire_NamespaceEvent) : Prop := wire_EventMeta_wf (w_namespace_meta e).

Record wire_PrctlEvent := mk_wire_PrctlEvent {
  w_prctl_meta : wire_EventMeta;
  w_prctl_option : Z;
  w_prctl_arg : Z }.

Definition wire_PrctlEvent_wf (e : wire_PrctlEvent) : Prop := wire_EventMeta_wf (w_prctl_meta e).

Record wire_TlsCaptureEvent := mk_wire_TlsCaptureEvent {
  w_tls_capture_meta : wire_EventMeta;
  w_tls_capture_direction : Z;
  w_tls_capture_lib_type : Z;
  w_tls_capture_bytes_len : Z;
  w_tls_capture_data : bytes }.

Definition wire_TlsCaptureEvent_wf (e : wire_TlsCaptureEvent) : Prop := wire_EventMeta_wf (w_tls_capture_meta e) /\ blen (w_tls_capture_data e) = MAX_TLS_CAPTURE /\ 0 <= w_tls_capture_bytes_len e.

Record wire_ReadlineInputEvent := mk_wire_ReadlineInputEvent {
  w_readline_input_meta : wire_EventMeta;
  w_readline_input_shell_type : Z;
  w_readline_input_input_len : Z;
  w_readline_input_input : bytes }.

Definition wire_ReadlineInputEvent_wf (e : wire_ReadlineInputEvent) : Prop := wire_EventMeta_wf (w_readline_input_meta e) /\ blen (w_readline_input_input e) = MAX_READLINE_INPUT /\ 0 <= w_readline_input_input_len e.

Record wire_KernelModuleEvent := mk_wire_KernelModuleEvent {
  w_kernel_module_meta : wire_EventMeta;
  w_kernel_module_name : bytes;
  w_kernel_module_name_len : Z;
  w_kernel_module_fd : Z;
  w_kernel_module_image_len : Z;
  w_kernel_module_flags : Z;
  w_kernel_module_action : Z }.

Definition wire_KernelModuleEvent_wf (e : wire_KernelModuleEvent) : Prop := wire_EventMeta_wf (w_kernel_module_meta e) /\ blen (w_kernel_module_name e) = MAX_MODULE_NAME_LEN /\ 0 <= w_kernel_module_name_len e.

Record wire_BpfEvent := mk_wire_BpfEvent {
  w_bpf_meta : wire_EventMeta;
  w_bpf_cmd : Z }.

Definition wire_BpfEvent_wf (e : wire_BpfEvent) : Prop := wire_EventMeta_wf (w_bpf_meta e).

Record wire_PtraceEvent := mk_wire_PtraceEvent {
  w_ptrace_meta : wire_EventMeta;
  w_ptrace_request : Z;
  w_ptrace_target_pid : Z;
  w_ptrace_addr : Z;
  w_ptrace_data : Z }.

Definition wire_PtraceEvent_wf (e : wire_PtraceEvent) : Prop := wire_EventMeta_wf (w_ptrace_meta e).

Record wire_ProcessVmReadEvent := mk_wire_ProcessVmReadEvent {
  w_process_vm_read_meta : wire_EventMeta;
  w_process_vm_read_target_pid : Z;
  w_process_vm_read_local_iov_count : Z;
  w_process_vm_read_remote_iov_count : Z;
  w_process_vm_read_remote_iov_len : Z }.

Definition wire_ProcessVmReadEvent_wf (e : wire_ProcessVmReadEvent) : Prop := wire_EventMeta_wf (w_process_vm_read_meta e).

Record wire_ProcessVmWriteEvent := mk_wire_ProcessVmWriteEvent {
  w_process_vm_write_meta : wire_EventMeta;
  w_process_vm_write_target_pid : Z;
  w_process_vm_write_local_iov_count : Z;
  w_process_vm_write_remote_iov_count : Z;
  w_process_vm_write_remote_iov_len : Z }.

Definition wire_ProcessVmWriteEvent_wf (e : wire_ProcessVmWriteEvent) : Prop := wire_EventMeta_wf (w_process_vm_write_meta e).

Record wire_MemfdCreateEvent := mk_wire_MemfdCreateEvent {
  w_memfd_create_meta : wire_EventMeta;
  w_memfd_create_name : bytes;
  w_memfd_create_name_len : Z;
  w_memfd_create_flags : Z;
  w_memfd_create_fd : Z }.

Definition wire_MemfdCreateEvent_wf (e : wire_MemfdCreateEvent) : Prop := wire_EventMeta_wf (w_memfd_create_meta e) /\ blen (w_memfd_create_name e) = MAX_PATH_LEN /\ 0 <= w_memfd_create_name_len e.

Record wire_GetAddrInfoEvent := mk_wire_GetAddrInfoEvent {
  w_get_addr_info_meta : wire_EventMeta;
  w_get_addr_info_query : bytes;
  w_get_addr_info_query_len : Z;
  w_get_addr_info_status : Z;
  w_get_addr_info_addr_resolved : bool;
  w_get_addr_info_is_ipv6 : bool;
  w_get_addr_info_addr_v4 : bytes;
  w_get_addr_info_addr_v6 : bytes }.

Definition wire_GetAddrInfoEvent_wf (e : wire_GetAddrInfoEvent) : Prop := wire_EventMeta_wf (w_get_addr_info_meta e) /\ blen (w_get_addr_info_query e) = MAX_DNS_QUERY_LEN /\ blen (w_get_addr_info_addr_v4 e) = 4 /\ blen (w_get_addr_info_addr_v6 e) = 16 /\ 0 <= w_get_addr_info_query_len e.

(** ** Text in fixed buffers *)

(** [&raw[..raw.iter().position(|&b| b == 0).unwrap_or(raw.len())]]. *)
Fixpoint before_nul (raw : bytes) : bytes :=
  match raw with [] => [] | b :: raw => if b =? 0 then [] else b :: before_nul raw end.

Definition comm_str (comm : bytes) : string := from_utf8_lossy (before_nul comm).
Definition comm_opt (comm : bytes) : option string :=
  let c := before_nul comm in if negb (blen c =? 0) then Some (from_utf8_lossy c) else None.

(** [&buf[..(len as usize).min(MAX)]] up to its first NUL. *)
Definition raw_field (buf : bytes) (len max : Z) : Run bytes :=
  raw <-run slice buf 0 (Z.min len max); Ran (before_nul raw).
Definition text_field (buf : bytes) (len max : Z) : Run string :=
  raw <-run raw_field buf len max; Ran (from_utf8_lossy raw).
(** [(len > 0).then(|| ..)]. *)
Definition opt_text_field (buf : bytes) (len max : Z) : Run (option string) :=
  if 0 <? len then t <-run text_field buf len max; Ran (Some t) else Ran None.

(** ** normalize.rs of the tracepoint sensor *)

Section Normalize.
(** [fs::read_link]: the bytes of the target. *)
Variable read_link : string -> option bytes.
Variable boot_epoch_offset_ns : Z.

Definition meta (m : wire_EventMeta) (container : option ContainerContext) : EventMeta :=
  mkEventMeta (w_meta_pid m) (w_meta_ppid m) (User_Unix (w_meta_uid m) (w_meta_gid m))
    (sat_add (w_meta_timestamp_ns m) boot_epoch_offset_ns) (comm_str (w_meta_comm m)) container
    (if negb (w_meta_process_generation m =? 0) then Some (w_meta_process_generation m) else None)
    (if negb (w_meta_parent_generation m =? 0) then Some (w_meta_parent_generation m) else None).

(** [argv.join(" ")]. *)
Definition join_args (argv : list string) : string := String.concat " " argv.

Definition exec (event : wire_ExecEvent) (argv : list string) (env_security : list (string * string))
    (container : option ContainerContext) : Run Event :=
  image_path <-run text_field (w_exec_image event) (w_exec_image_len event) MAX_PATH_LEN;
  Ran (Event_Exec (mkExecEvent (meta (w_exec_meta event) container) image_path (join_args argv) argv
         (comm_opt (w_exec_pcomm event)) None None None env_security)).

Definition file_open (event : wire_FileOpenEvent) (container : option ContainerContext) : Run Event :=
  path <-run text_field (w_file_open_path event) (w_file_open_path_len event) MAX_PATH_LEN;
  Ran (Event_FileOpen (mkFileOpenEvent (meta (w_file_open_meta event) container) path (w_file_open_flags event))).

Definition file_write (event : wire_FileWriteEvent) (container : option ContainerContext) : Run Event :=
  Ran (Event_FileWrite (mkFileWriteEvent (meta (w_file_write_meta event) container) (w_file_write_fd event)
         (w_file_write_bytes_requested event))).

Definition file_delete (event : wire_FileDeleteEvent) (container : option ContainerContext) : Run Event :=
  path <-run text_field (w_file_delete_path event) (w_file_delete_path_len event) MAX_PATH_LEN;
  Ran (Event_FileDelete (mkFileDeleteEvent (meta (w_file_delete_meta event) container) path)).

Definition AT_FDCWD : Z := -100.

Definition join_resolved (base : bytes) (path : string) : option string :=
  base ← from_utf8 base;
  if negb (starts_with "/" base) || ends_with " (deleted)" base then None
  else Some (if ends_with "/" base then base +:+ path else base +:+ "/" +:+ path).

Definition resolve_dirfd_path (pid dfd : Z) (raw : bytes) : string :=
  let path := from_utf8_lossy raw in
  if str_is_empty path || starts_with "/" path then path
  else
    let resolved (link : string) : string :=
      match read_link link with Some base => default path (join_resolved base path) | None => path end in
    if dfd =? AT_FDCWD then resolved (cat ["/proc/"; show_u64 pid; "/cwd"])
    else if 0 <=? dfd then resolved (cat ["/proc/"; show_u64 pid; "/fd/"; show_u64 dfd])
    else path.

Definition exe_path_for_pid (pid : Z) : option string :=
  target ← read_link (cat ["/proc/"; show_u64 pid; "/exe"]); from_utf8 target.

Definition file_rename (event : wire_FileRenameEvent) (container : option ContainerContext) : Run Event :=
  old_raw <-run raw_field (w_file_rename_old_path event) (w_file_rename_old_path_len event) MAX_PATH_LEN;
  new_raw <-run raw_field (w_file_rename_new_path event) (w_file_rename_new_path_len event) MAX_PATH_LEN;
  let pid := w_meta_pid (w_file_rename_meta event) in
  Ran (Event_FileRename (mkFileRenameEvent (meta (w_file_rename_meta event) container)
         (resolve_dirfd_path pid (w_file_rename_old_dfd event) old_raw)
         (resolve_dirfd_path pid (w_file_rename_new_dfd event) new_raw) (exe_path_for_pid pid))).

Definition file_chmod (event : wire_FileChmodEvent) (container : option ContainerContext) : Run Event :=
  path <-run text_field (w_file_chmod_path event) (w_file_chmod_path_len event) MAX_PATH_LEN;
  Ran (Event_FileChmod (mkFileChmodEvent (meta (w_file_chmod_meta event) container) path (w_file_chmod_mode event))).

Definition file_chown (event : wire_FileChownEvent) (container : option ContainerContext) : Run Event :=
  path <-run text_field (w_file_chown_path event) (w_file_chown_path_len event) MAX_PATH_LEN;
  Ran (Event_FileChown (mkFileChownEvent (meta (w_file_chown_meta event) container) path (w_file_chown_uid event)
         (w_file_chown_gid event))).

Definition file_setxattr (event : wire_FileSetxattrEvent) (container : option ContainerContext) : Run Event :=
  path <-run text_field (w_file_setxattr_path event) (w_file_setxattr_path_len event) MAX_PATH_LEN;
  name <-run text_field (w_file_setxattr_name event) (w_file_setxattr_name_len event) MAX_XATTR_NAME_LEN;
  Ran (Event_FileSetxattr (mkFileSetxattrEvent (meta (w_file_setxattr_meta event) container) path name)).

Definition file_removexattr (event : wire_FileRemovexattrEvent) (container : option ContainerContext) : Run Event :=
  path <-run text_field (w_file_removexattr_path event) (w_file_removexattr_path_len event) MAX_PATH_LEN;
  name <-run text_field (w_file_removexattr_name event) (w_file_removexattr_name_len event) MAX_XATTR_NAME_LEN;
  Ran (Event_FileRemovexattr (mkFileRemovexattrEvent (meta (w_file_removexattr_meta event) container) path name)).

(** [if is_ipv6 { V6(v6.into()) } else { V4(v4.into()) }]. *)
Definition ip_of (is_ipv6 : bool) (v4 v6 : bytes) : IpAddr := if is_ipv6 then V6 (from_be v6) else V4 (from_be v4).

Definition connect (event : wire_ConnectEvent) (container : option ContainerContext) : Run Event :=
  Ran (Event_Connect (mkConnectEvent (meta (w_connect_meta event) container)
         (ip_of (w_connect_is_ipv6 event) (w_connect_daddr_v4 event) (w_connect_daddr_v6 event)) (w_connect_dport event))).

Definition socket_bind (event : wire_SocketBindEvent) (container : option ContainerContext) : Run Event :=
  Ran (Event_SocketBind (mkSocketBindEvent (meta (w_socket_bind_meta event) container)
         (ip_of (w_socket_bind_is_ipv6 event) (w_socket_bind_laddr_v4 event) (w_socket_bind_laddr_v6 event))
         (w_socket_bind_lport event))).

Definition udp_send (event : wire_UdpSendEvent) (container : option ContainerContext) : Run Event :=
  Ran (Event_UdpSend (mkUdpSendEvent (meta (w_udp_send_meta event) container)
         (ip_of (w_udp_send_is_ipv6 event) (w_udp_send_daddr_v4 event) (w_udp_send_daddr_v6 event))
         (w_udp_send_dport event) (w_udp_send_size event))).

Definition socket_listen (event : wire_SocketListenEvent) (container : option ContainerContext) : Run Event :=
  let '(local_addr, local_port) :=
    if w_socket_listen_addr_resolved event then
      (Some (ip_of (w_socket_listen_is_ipv6 event) (w_socket_listen_laddr_v4 event) (w_socket_listen_laddr_v6 event)),
       Some (w_socket_listen_lport event))
    else (None, None) in
  Ran (Event_SocketListen (mkSocketListenEvent (meta (w_socket_listen_meta event) container) local_addr local_port
         (w_socket_listen_backlog event))).

Definition socket_accept (event : wire_SocketAcceptEvent) (container : option ContainerContext) : Run Event :=
  Ran (Event_SocketAccept (mkSocketAcceptEvent (meta (w_socket_accept_meta event) container)
         (w_socket_accept_listen_fd event) (w_socket_accept_accepted_fd event)
         (ip_of (w_socket_accept_is_ipv6 event) (w_socket_accept_peer_addr_v4 event) (w_socket_accept_peer_addr_v6 event))
         (w_socket_accept_peer_port event))).

Definition mount (event : wire_MountEvent) (container : option ContainerContext) : Run Event :=
  mount_point <-run text_field (w_mount_mount_point event) (w_mount_mount_point_len event) MAX_PATH_LEN;
  source <-run opt_text_field (w_mount_source event) (w_mount_source_len event) MAX_PATH_LEN;
  fs_type <-run opt_text_field (w_mount_fs_type event) (w_mount_fs_type_len event) MAX_FS_TYPE_LEN;
  Ran (Event_Mount (mkMountEvent (meta (w_mount_meta event) container) mount_point source fs_type
         (w_mount_readonly event) (w_mount_mounted event))).

Definition signal (event : wire_SignalEvent) (target_image_path : option string)
    (container : option ContainerContext) : Run Event :=
  Ran (Event_Signal (mkSignalEvent (meta (w_signal_meta event) container) (w_signal_signal event)
         (w_signal_target_pid event) target_image_path)).

Definition kernel_module (event : wire_KernelModuleEvent) (fd_path : option string)
    (container : option ContainerContext) : Run Event :=
  let action := if w_kernel_module_action event =? 1 then KernelModuleAction_LoadFd
                else if w_kernel_module_action event =? 2 then KernelModuleAction_Unload
                else KernelModuleAction_Load in
  name <-run opt_text_field (w_kernel_module_name event) (w_kernel_module_name_len event) MAX_MODULE_NAME_LEN;
  Ran (Event_KernelModule (mkKernelModuleEvent (meta (w_kernel_module_meta event) container) action name
         (if 0 <=? w_kernel_module_fd event then Some (w_kernel_module_fd event) else None)
         (if w_kernel_module_action event =? 1 then fd_path else None)
         (if 0 <? w_kernel_module_image_len event then Some (w_kernel_module_image_len event) else None))).

Definition bpf_operation (event : wire_BpfEvent) (container : option ContainerContext) : Run Event :=
  Ran (Event_BpfOperation (mkBpfEvent (meta (w_bpf_meta event) container) (w_bpf_cmd event))).

Definition prctl (event : wire_PrctlEvent) (container : option ContainerContext) : Run Event :=
  Ran (Event_Prctl (mkPrctlEvent (meta (w_prctl_meta event) container) (w_prctl_option event) (w_prctl_arg event))).

Definition ptrace (event : wire_PtraceEvent) (container : option ContainerContext) : Run Event :=
  Ran (Event_Ptrace (mkPtraceEvent (meta (w_ptrace_meta event) container) (w_ptrace_request event)
         (w_ptrace_target_pid event) (w_ptrace_addr event) (w_ptrace_data event))).

Definition process_vm_read (event : wire_ProcessVmReadEvent) (container : option ContainerContext) : Run Event :=
  Ran (Event_ProcessVmRead (mkProcessVmReadEvent (meta (w_process_vm_read_meta event) container)
         (w_process_vm_read_target_pid event) (w_process_vm_read_local_iov_count event)
         (w_process_vm_read_remote_iov_count event) (w_process_vm_read_remote_iov_len event))).

Definition process_vm_write (event : wire_ProcessVmWriteEvent) (container : option ContainerContext) : Run Event :=
  Ran (Event_ProcessVmWrite (mkProcessVmWriteEvent (meta (w_process_vm_write_meta event) container)
         (w_process_vm_write_target_pid event) (w_process_vm_write_local_iov_count event)
         (w_process_vm_write_remote_iov_count event) (w_process_vm_write_remote_iov_len event))).

Definition memfd_create (event : wire_MemfdCreateEvent) (container : option ContainerContext) : Run Event :=
  name <-run text_field (w_memfd_create_name event) (w_memfd_create_name_len event) MAX_PATH_LEN;
  Ran (Event_MemfdCreate (mkMemfdCreateEvent (meta (w_memfd_create_meta event) container) name
         (w_memfd_create_flags event) (w_memfd_create_fd event))).

Definition identity_kind (kind : Z) : IdentityChangeKind * bool :=
  if kind =? 1 then (IdentityChangeKind_SetGid, false)
  else if kind =? 2 then (IdentityChangeKind_SetResUid, true)
  else if kind =? 3 then (IdentityChangeKind_SetResGid, true)
  else if kind =? 4 then (IdentityChangeKind_SetFsUid, false)
  else if kind =? 5 then (IdentityChangeKind_SetFsGid, false)
  else (IdentityChangeKind_SetUid, false).
Definition identity_change (event : wire_IdentityChangeEvent) (container : option ContainerContext) : Run Event :=
  let '(kind, is_res) := identity_kind (w_identity_change_kind event) in
  Ran (Event_IdentityChange (mkIdentityChangeEvent (meta (w_identity_change_meta event) container) kind
         (w_identity_change_real event)
         (if is_res : bool then Some (w_identity_change_effective event) else None)
         (if is_res : bool then Some (w_identity_change_saved event) else None))).

Definition cap_set (event : wire_CapSetEvent) (container : option ContainerContext) : Run Event :=
  Ran (Event_CapSet (mkCapSetEvent (meta (w_cap_set_meta event) container) (w_cap_set_target_pid event)
         (w_cap_set_effective event) (w_cap_set_permitted event) (w_cap_set_inheritable event))).

Definition namespace (event : wire_NamespaceEvent) (container : option ContainerContext) : Run Event :=
  let is_setns := w_namespace_syscall event =? 0 in
  Ran (Event_Namespace (mkNamespaceEvent (meta (w_namespace_meta event) container)
         (if is_setns then NamespaceSyscall_SetNs else NamespaceSyscall_Unshare)
         (if is_setns then Some (w_namespace_fd event) else None) (w_namespace_flags event))).

(** ** normalize.rs and redact.rs of the uprobe sensor *)

(** [Regex::new(pattern)] and [replace_all]: [None] when the pattern does not compile. *)
Variable replace_all : string -> string -> string -> option string.
Variable show_ip : IpAddr -> string.

Definition TLS_PATTERNS : list (string * string) :=
  [("(?i)authorization:\s*[^\r\n]+", "Authorization: [REDACTED]");
   ("(?i)cookie:\s*[^\r\n]+", "Cookie: [REDACTED]");
   ("(https?://)([^:@\s]+):([^@\s]+)@", "$1[REDACTED]:[REDACTED]@");
   ("[?&](api_key|token|key|apikey|access_token)=[^&\s]+", "?$1=[REDACTED]")].
Definition DNS_PATTERNS : list (string * string) :=
  [("(?i)^.+\.(local|internal|lan|home|corp|intranet)\.?$", "[REDACTED].$1")].

Definition redact_pattern (text : string) (p : string * string) : string :=
  default text (replace_all p.1 p.2 text).

Definition redact_tls_data (data : bytes) : bytes :=
  match from_utf8 data with
  | Some text => bytes_of_str (foldl redact_pattern text TLS_PATTERNS)
  | None => data
  end.
Definition redact_dns_query (query : string) : string := foldl redact_pattern query DNS_PATTERNS.

Definition tls_capture (event : wire_TlsCaptureEvent) (container : option ContainerContext) : Run Event :=
  let direction := if w_tls_capture_direction event =? 1 then TlsDirection_Write else TlsDirection_Read in
  let lib_type := if w_tls_capture_lib_type event =? 1 then TlsLibraryType_BoringSsl
                  else if w_tls_capture_lib_type event =? 2 then TlsLibraryType_GnuTls
                  else TlsLibraryType_OpenSsl in
  data <-run slice (w_tls_capture_data event) 0 (Z.min (w_tls_capture_bytes_len event) MAX_TLS_CAPTURE);
  Ran (Event_TlsCapture (mkTlsCaptureEvent (meta (w_tls_capture_meta event) container) direction lib_type
         (redact_tls_data data))).

Definition dquote : string := String (Ascii.ascii_of_nat 34) EmptyString.
(** The tail of a pattern that matches an optionally quoted value. *)
Definition quoted_value : string := cat ["(['"; dquote; "]?)([^'"; dquote; "\s]+)(['"; dquote; "]?)"].
Definition READLINE_PATTERNS : list (string * string) :=
  [("(?i)\b(export\s+\w+)=" +:+ quoted_value, "$1=[REDACTED]");
   ("(?i)--password[=\s]+" +:+ quoted_value, "--password=[REDACTED]");
   ("(?i)(^|[^-])-p\s*" +:+ quoted_value, "$1-p[REDACTED]");
   ("(?i)(aws_secret_access_key|aws_session_token)=([^\s]+)", "$1=[REDACTED]");
   ("-u\s+" +:+ quoted_value, "-u [REDACTED]")].
Definition redact_readline_input (input : string) : string := foldl redact_pattern input READLINE_PATTERNS.
Definition readline_input (event : wire_ReadlineInputEvent)
    (container : option ContainerContext) : Run Event :=
  let shell_type := if w_readline_input_shell_type event =? 1 then ShellType_Zsh else ShellType_Bash in
  input <-run slice (w_readline_input_input event) 0 (Z.min (w_readline_input_input_len event) MAX_READLINE_INPUT);
  Ran (Event_ReadlineInput (mkReadlineInputEvent (meta (w_readline_input_meta event) container) shell_type
         (redact_readline_input (from_utf8_lossy input)))).

Definition dns_query (event : wire_GetAddrInfoEvent) (container : option ContainerContext) : Run Event :=
  raw <-run raw_field (w_get_addr_info_query event) (w_get_addr_info_query_len event) MAX_DNS_QUERY_LEN;
  let query := redact_dns_query (from_utf8_lossy raw) in
  let '(qtype, result) :=
    if w_get_addr_info_addr_resolved event then
      (if w_get_addr_info_is_ipv6 event then 28 else 1,
       Some (show_ip (ip_of (w_get_addr_info_is_ipv6 event) (w_get_addr_info_addr_v4 event) (w_get_addr_info_addr_v6 event))))
    else (1, None) in
  Ran (Event_DnsQuery (mkDnsQueryEvent (meta (w_get_addr_info_meta event) container) query qtype result
         (if w_get_addr_info_status event =? 0 then 0 else Z.abs (w_get_addr_info_status event)))).
End Normalize.
