(* ===== verification/LinuxSensor.v ===== *)
(** * LinuxSensor: the loop that feeds the events of the probes to the sink

    Sources: src/crates/sensors/linux/userspace/src/ (proc.rs, container.rs,
    docker.rs, tracefs.rs, ebpf.rs, sensor.rs).  The files of /proc, the tree of
    cgroupfs, the Docker daemon's answers and the contents of the ring buffers are
    arguments.  One turn of the loop ([turn]) is one branch of the [select!]; a run is
    any list of turns. *)
From stdpp Require Import base gmap strings list.
From Stdlib Require Import ZArith Lia Ascii.
From S2P Require Import Prelude Str Text Fs Utf8 Schema Bytes LinuxWire.
#[local] Open Scope string_scope.
#[local] Open Scope list_scope.
#[local] Open Scope Z_scope.
#[local] Open Scope edr_scope.

(** ** proc.rs *)

(** [blob.split(|&b| b == 0)]. *)
Fixpoint split_nul (l : bytes) : list bytes :=
  match l with
  | [] => [[]]
  | b :: l =>
      if b =? 0 then [] :: split_nul l
      else match split_nul l with [] => [[b]] | p :: ps => (b :: p) :: ps end
  end.
(** [blob.strip_suffix(b"\0").unwrap_or(blob)]. *)
Definition strip_last_nul (blob : bytes) : bytes :=
  match last blob with Some b => if b =? 0 then removelast blob else blob | None => blob end.

Definition parse_proc_cmdline (blob : bytes) : list string :=
  let trimmed := strip_last_nul blob in
  if blen trimmed =? 0 then [] else from_utf8_lossy <$> split_nul trimmed.
Definition read_proc_cmdline (file : option bytes) : list string :=
  match file with Some blob => parse_proc_cmdline blob | None => [] end.

Definition SECURITY_ENV_NAMES : list string :=
  ["LD_PRELOAD"; "LD_LIBRARY_PATH"; "LD_AUDIT"; "LD_DEBUG_OUTPUT"; "GLIBC_TUNABLES"].
Definition security_entry (entry : bytes) : option (string * string) :=
  nv ← split_once "=" (from_utf8_lossy entry);
  if one_of SECURITY_ENV_NAMES nv.1 then Some nv else None.
Definition parse_proc_environ_security (blob : bytes) : list (string * string) :=
  let trimmed := strip_last_nul blob in
  if blen trimmed =? 0 then [] else omap security_entry (split_nul trimmed).
Definition read_proc_environ_security (file : option bytes) : list (string * string) :=
  match file with Some blob => parse_proc_environ_security blob | None => [] end.

Definition is_close (a : Ascii.ascii) : bool := Ascii.eqb a ")"%char.
(** [split_once "("] and [rsplit_byte is_close] are the text around the first [(]
    and the last [)]; the range between them is empty when [)] comes first. *)
Definition stat_rest (stat : string) : option string := snd <$> rsplit_byte is_close stat.
Definition stat_comm (stat : string) : option string :=
  '(before, _) ← rsplit_byte is_close stat; snd <$> split_once "(" before.
Definition parse_stat_ppid_comm (stat : string) : option (Z * string) :=
  comm ← stat_comm stat;
  rest ← stat_rest stat;
  match split_whitespace rest with
  | _ :: field :: _ => ppid ← parse_upto U32_MAX field; Some (ppid, comm)
  | _ => None
  end.
Definition parse_stat_starttime (stat : string) : option Z :=
  rest ← stat_rest stat; field ← split_whitespace rest !! 19%nat; parse_u64 field.

(** ** container.rs *)

Definition is_hex_id (s : string) : bool := (str_len s =? 64) && str_all is_hexdigit s.
Definition id_candidate (segment : string) : string :=
  default segment (s ← strip_suffix ".scope" segment;
                   match strip_prefix "docker-" s with Some r => Some r | None => strip_prefix "cri-containerd-" s end).
Fixpoint first_id (segments : list string) : option string :=
  match segments with
  | [] => None
  | segment :: segments => let c := id_candidate segment in if is_hex_id c then Some c else first_id segments
  end.
Definition extract_container_id (cgroup_path : string) : option string := first_id (str_split slash cgroup_path).

(** A directory of cgroupfs, as [read_dir] lists it: the name and inode of every
    subdirectory with its own listing; an unreadable directory has no listing. *)
Inductive CgDir := mkCgDir (entries : option (list (string * Z * CgDir))).
Definition MAX_WALK_DEPTH : Z := 12.

(** [walk]: structural in the room left below the depth bound. *)
Fixpoint walk_cgroup (room : nat) (cgroup_id : Z) (path : string) (dir : CgDir) : option string :=
  match dir, room with
  | mkCgDir (Some entries), S room =>
      (fix each (es : list (string * Z * CgDir)) : option string :=
         match es with
         | [] => None
         | (name, ino, sub) :: es =>
             let p := path +:+ "/" +:+ name in
             if ino =? cgroup_id then extract_container_id p
             else match walk_cgroup room cgroup_id p sub with Some id => Some id | None => each es end
         end) entries
  | _, _ => None
  end.
Definition container_id_from_cgroupfs (root_path : string) (root : CgDir) (cgroup_id : Z) : option string :=
  walk_cgroup (Z.to_nat (MAX_WALK_DEPTH + 1)) cgroup_id root_path root.
Definition CGROUPFS_ROOT : string := "/sys/fs/cgroup".

Record CgroupIdCache := mkCgroupIdCache { cg_entries : gmap Z (option string); cg_order : list Z }.
Definition CgroupIdCache_new : CgroupIdCache := mkCgroupIdCache ∅ [].
Definition CGROUP_ID_CACHE_CAP : Z := 4096.

Definition resolve_with (fetch : Z -> option string) (cgroup_id : Z) (c : CgroupIdCache) : option string * CgroupIdCache :=
  match cg_entries c !! cgroup_id with
  | Some cached => (cached, c)
  | None =>
      let id := fetch cgroup_id in
      let entries := <[cgroup_id := id]> (cg_entries c) in
      let order := cg_order c ++ [cgroup_id] in
      (id,
       if CGROUP_ID_CACHE_CAP <? blen order then
         match order with
         | oldest :: order => mkCgroupIdCache (delete oldest entries) order
         | [] => mkCgroupIdCache entries order
         end
       else mkCgroupIdCache entries order)
  end.
Definition cg_resolve (fetch : Z -> option string) (cgroup_id : Z) (c : CgroupIdCache) : option string * CgroupIdCache :=
  if cgroup_id =? 0 then (None, c) else resolve_with fetch cgroup_id c.

Record DockerContainerInfo := mkDockerInfo { di_image : option string; di_name : option string }.
Inductive DockerLookupState := Pending | Done (info : DockerContainerInfo).

(** The caches and the lookups in flight: the tasks [tokio::task::spawn] started. *)
Record Containers := mkContainers {
  ct_ids : CgroupIdCache; ct_docker : gmap string DockerLookupState; ct_spawned : list string }.

Definition container_context (fetch : Z -> option string) (cgroup_id : Z) (c : Containers)
    : option ContainerContext * Containers :=
  match cg_resolve fetch cgroup_id (ct_ids c) with
  | (None, ids) => (None, mkContainers ids (ct_docker c) (ct_spawned c))
  | (Some id, ids) =>
      let '(info, docker, spawned) :=
        match ct_docker c !! id with
        | Some (Done info) => (Some info, ct_docker c, ct_spawned c)
        | Some Pending => (None, ct_docker c, ct_spawned c)
        | None => (None, <[id := Pending]> (ct_docker c), ct_spawned c ++ [id])
        end in
      (Some (mkContainerContext id (info ≫= di_image) (info ≫= di_name)), mkContainers ids docker spawned)
  end.
(** A spawned task ends: [lookup(..).await.unwrap_or_default()]. *)
Definition lookup_done (id : string) (answer : option DockerContainerInfo) (c : Containers) : Containers :=
  mkContainers (ct_ids c) (<[id := Done (default (mkDockerInfo None None) answer)]> (ct_docker c)) (ct_spawned c).

(** ** docker.rs *)

(** [windows(p.len()).position(|w| w == p)]: the text around the first occurrence. *)
Fixpoint bytes_prefix (p l : bytes) : option bytes :=
  match p, l with
  | [], _ => Some l
  | a :: p, b :: l => if a =? b then bytes_prefix p l else None
  | _ :: _, [] => None
  end.
Fixpoint find_bytes (p l : bytes) : option (bytes * bytes) :=
  match bytes_prefix p l with
  | Some rest => Some ([], rest)
  | None => match l with
            | [] => None
            | b :: l => '(before, after) ← find_bytes p l; Some (b :: before, after)
            end
  end.
Definition CRLF : bytes := [13; 10].

Definition status_code (raw : bytes) : option Z :=
  first ← head (split_nl raw); line ← from_utf8 first; code ← split_whitespace line !! 1%nat; parse_upto 65535 code.
Definition status_line_is_2xx (raw : bytes) : bool :=
  match status_code raw with Some code => (200 <=? code) && (code <? 300) | None => false end.

(** [usize::from_str_radix(s, 16)]: an optional [+], hexadecimal digits, no overflow. *)
Definition hex_value (a : Ascii.ascii) : Z :=
  let n := Z.of_nat (Ascii.nat_of_ascii (ascii_lower a)) in if n <? 97 then n - 48 else n - 87.
Fixpoint hex_fold (s : string) (acc : Z) : Z :=
  match s with EmptyString => acc | String a s => hex_fold s (16 * acc + hex_value a) end.
Definition usize_from_hex (s : string) : option Z :=
  let digits := default s (strip_prefix "+" s) in
  if negb (str_is_empty digits) && str_all is_hexdigit digits then
    let z := hex_fold digits 0 in if z <=? U64_MAX then Some z else None
  else None.

(** [size + 2] wraps around in [usize].  Every chunk takes three bytes or more of
    [body], so its length bounds the rounds. *)
Fixpoint dechunk_loop (fuel : nat) (body out : bytes) : Run (option bytes) :=
  match fuel with
  | O => Spun
  | S fuel =>
      match find_bytes CRLF body with
      | None => Ran None
      | Some (line, rest) =>
          match from_utf8 line ≫= (fun s => usize_from_hex (trim s)) with
          | None => Ran None
          | Some size =>
              if size =? 0 then Ran (Some out)
              else if blen rest <? wrap64 (size + 2) then Ran None
              else
                chunk <-run slice rest 0 size;
                body <-run slice_from rest (wrap64 (size + 2));
                dechunk_loop fuel body (out ++ chunk)
          end
      end
  end.
Definition dechunk (body : bytes) : Run (option bytes) := dechunk_loop (S (length body)) body [].

Definition http_response_body (raw : bytes) : Run (option bytes) :=
  match find_bytes (CRLF ++ CRLF) raw with
  | None => Ran None
  | Some (before, body) =>
      match from_utf8 (before ++ CRLF ++ CRLF) with
      | None => Ran None
      | Some headers =>
          if str_contains "transfer-encoding: chunked" (to_ascii_lowercase headers) then dechunk body
          else Ran (Some body)
      end
  end.

(** ** tracefs.rs *)

Definition MAX_FIELD_OFFSET : Z := 4096.
Record ForkLayout := mkForkLayout {
  parent_comm_offset : Z; parent_comm_data_loc : bool; parent_pid_offset : Z; child_pid_offset : Z }.
Record FormatField := mkFormatField { fld_decl : string; fld_name : string; fld_offset : Z; fld_size : Z }.

Definition is_semicolon (c : string) : bool := String.eqb c ";".
Definition is_space_byte (a : Ascii.ascii) : bool := Ascii.eqb a " "%char.
Definition is_bracket (c : string) : bool := String.eqb c "[".
Definition parse_field_line (line : string) : option FormatField :=
  match trim <$> split_matches is_semicolon (trim line) with
  | a :: b :: c :: _ =>
      decl_and_name ← strip_prefix "field:" a;
      offset ← strip_prefix "offset:" b ≫= parse_upto U32_MAX;
      size ← strip_prefix "size:" c ≫= parse_upto U32_MAX;
      '(decl, name) ← rsplit_byte is_space_byte decl_and_name;
      name ← head (split_matches is_bracket name);
      Some (mkFormatField (trim decl) name offset size)
  | _ => None
  end.

Definition fork_field (s : option (Z * bool) * option Z * option Z) (line : string)
    : option (Z * bool) * option Z * option Z :=
  let '(parent_comm, parent_pid, child_pid) := s in
  match parse_field_line line with
  | None => s
  | Some f =>
      if String.eqb (fld_name f) "parent_comm" then
        let data_loc := starts_with "__data_loc" (fld_decl f) in
        let size_ok := if data_loc then fld_size f =? 4 else fld_size f =? 16 in
        (if size_ok && str_contains "char" (fld_decl f) then Some (fld_offset f, data_loc) else parent_comm,
         parent_pid, child_pid)
      else if String.eqb (fld_name f) "parent_pid" && (fld_size f =? 4) then (parent_comm, Some (fld_offset f), child_pid)
      else if String.eqb (fld_name f) "child_pid" && (fld_size f =? 4) then (parent_comm, parent_pid, Some (fld_offset f))
      else s
  end.
Definition parse_fork_format (format : string) : option ForkLayout :=
  let '(parent_comm, parent_pid, child_pid) := foldl fork_field (None, None, None) (str_lines format) in
  '(comm_offset, data_loc) ← parent_comm;
  pp ← parent_pid;
  cp ← child_pid;
  if forallb (fun o => o <? MAX_FIELD_OFFSET) [comm_offset; pp; cp]
  then Some (mkForkLayout comm_offset data_loc pp cp) else None.


(** ** ebpf.rs: seeding the lineage map *)

(** An entry of /proc: its name as text and its [stat] as text, where readable. *)
Record StatEntry := mkStatEntry { st_name : option string; st_stat : option bytes }.
Record Scanned := mkScanned { sc_pid : Z; sc_ppid : Z; sc_comm : string; sc_generation : Z }.

Definition scan_entry (e : StatEntry) : option Scanned :=
  pid ← st_name e ≫= parse_upto U32_MAX;
  stat ← st_stat e ≫= from_utf8;
  '(ppid, comm) ← parse_stat_ppid_comm stat;
  Some (mkScanned pid ppid comm
          (match parse_stat_starttime stat with Some ticks => Z.lor ticks PRIMED_GENERATION_BIT | None => 0 end)).

(** [val.comm[..n].copy_from_slice(&bytes[..n])] in sixteen zeroes. *)
Definition comm_buffer (comm : string) : bytes :=
  let b := take (Z.to_nat TASK_COMM_LEN) (bytes_of_str comm) in b ++ replicate (Z.to_nat TASK_COMM_LEN - length b) 0.
Definition generation_of (scanned : list Scanned) : gmap Z Z :=
  foldl (fun m s => <[sc_pid s := sc_generation s]> m) ∅ scanned.
Definition lineage_entry (gens : gmap Z Z) (s : Scanned) : wire_LineageEntry :=
  mk_wire_LineageEntry (sc_ppid s) (comm_buffer (sc_comm s)) 0 (sc_generation s) (default 0 (gens !! sc_ppid s)).

(** [capacity]: the size of the kernel's map, which refuses a new key when full. *)
Definition lineage_insert (capacity : Z) (pid : Z) (v : wire_LineageEntry) (m : gmap Z wire_LineageEntry)
    : option (gmap Z wire_LineageEntry) :=
  if bool_decide (is_Some (m !! pid)) || (Z.of_nat (size m) <? capacity) then Some (<[pid := v]> m) else None.
Definition prime_one (capacity : Z) (gens : gmap Z Z) (st : gmap Z wire_LineageEntry * Z) (s : Scanned)
    : gmap Z wire_LineageEntry * Z :=
  match lineage_insert capacity (sc_pid s) (lineage_entry gens s) st.1 with
  | Some m => (m, st.2 + 1)
  | None => st
  end.
Definition prime_proc_lineage (capacity : Z) (proc : list StatEntry) (m : gmap Z wire_LineageEntry)
    : gmap Z wire_LineageEntry * Z :=
  let scanned := omap scan_entry proc in
  foldl (prime_one capacity (generation_of scanned)) (m, 0) scanned.

(** ** sensor.rs *)

(** A record of one of the twenty-six ring buffers. *)
Inductive WireEvent :=
  | W_Exec (e : wire_ExecEvent) | W_FileOpen (e : wire_FileOpenEvent) | W_Connect (e : wire_ConnectEvent)
  | W_FileWrite (e : wire_FileWriteEvent) | W_FileDelete (e : wire_FileDeleteEvent)
  | W_FileRename (e : wire_FileRenameEvent) | W_SocketBind (e : wire_SocketBindEvent)
  | W_FileChmod (e : wire_FileChmodEvent) | W_FileChown (e : wire_FileChownEvent)
  | W_UdpSend (e : wire_UdpSendEvent) | W_SocketListen (e : wire_SocketListenEvent)
  | W_SocketAccept (e : wire_SocketAcceptEvent) | W_FileSetxattr (e : wire_FileSetxattrEvent)
  | W_FileRemovexattr (e : wire_FileRemovexattrEvent) | W_Mount (e : wire_MountEvent)
  | W_Signal (e : wire_SignalEvent) | W_KernelModule (e : wire_KernelModuleEvent) | W_Bpf (e : wire_BpfEvent)
  | W_Prctl (e : wire_PrctlEvent) | W_Ptrace (e : wire_PtraceEvent) | W_ProcessVmRead (e : wire_ProcessVmReadEvent)
  | W_ProcessVmWrite (e : wire_ProcessVmWriteEvent) | W_MemfdCreate (e : wire_MemfdCreateEvent)
  | W_IdentityChange (e : wire_IdentityChangeEvent) | W_CapSet (e : wire_CapSetEvent)
  | W_Namespace (e : wire_NamespaceEvent).

Definition wire_meta (w : WireEvent) : wire_EventMeta :=
  match w with
  | W_Exec e => w_exec_meta e | W_FileOpen e => w_file_open_meta e | W_Connect e => w_connect_meta e
  | W_FileWrite e => w_file_write_meta e | W_FileDelete e => w_file_delete_meta e
  | W_FileRename e => w_file_rename_meta e | W_SocketBind e => w_socket_bind_meta e
  | W_FileChmod e => w_file_chmod_meta e | W_FileChown e => w_file_chown_meta e
  | W_UdpSend e => w_udp_send_meta e | W_SocketListen e => w_socket_listen_meta e
  | W_SocketAccept e => w_socket_accept_meta e | W_FileSetxattr e => w_file_setxattr_meta e
  | W_FileRemovexattr e => w_file_removexattr_meta e | W_Mount e => w_mount_meta e
  | W_Signal e => w_signal_meta e | W_KernelModule e => w_kernel_module_meta e | W_Bpf e => w_bpf_meta e
  | W_Prctl e => w_prctl_meta e | W_Ptrace e => w_ptrace_meta e | W_ProcessVmRead e => w_process_vm_read_meta e
  | W_ProcessVmWrite e => w_process_vm_write_meta e | W_MemfdCreate e => w_memfd_create_meta e
  | W_IdentityChange e => w_identity_change_meta e | W_CapSet e => w_cap_set_meta e
  | W_Namespace e => w_namespace_meta e
  end.

(** What a record is enriched from at the moment it is drained. *)
Record Surroundings := mkSurroundings {
  sr_cmdline : Z -> option bytes; sr_environ : Z -> option bytes; sr_read_link : string -> option bytes;
  sr_cgroupfs : CgDir }.

Definition finit_module_path (read_link : string -> option bytes) (event : wire_KernelModuleEvent) : option string :=
  if negb (w_kernel_module_action event =? 1) || (w_kernel_module_fd event <? 0) then None
  else from_utf8_lossy <$> read_link (cat ["/proc/"; show_u64 (w_meta_pid (w_kernel_module_meta event)); "/fd/";
                                           show_u64 (w_kernel_module_fd event)]).

Section Sensor.
Variable offset own_pid : Z.
Variable self_exe : option string.

(** The closures the [drain!] branches pass: which function builds the event. *)
Definition to_event (sr : Surroundings) (w : WireEvent) (container : option ContainerContext) : Run Event :=
  let link := sr_read_link sr in
  let pid := w_meta_pid (wire_meta w) in
  match w with
  | W_Exec e => exec offset e (read_proc_cmdline (sr_cmdline sr pid)) (read_proc_environ_security (sr_environ sr pid)) container
  | W_FileOpen e => file_open offset e container
  | W_Connect e => connect offset e container
  | W_FileWrite e => file_write offset e container
  | W_FileDelete e => file_delete offset e container
  | W_FileRename e => file_rename link offset e container
  | W_SocketBind e => socket_bind offset e container
  | W_FileChmod e => file_chmod offset e container
  | W_FileChown e => file_chown offset e container
  | W_UdpSend e => udp_send offset e container
  | W_SocketListen e => socket_listen offset e container
  | W_SocketAccept e => socket_accept offset e container
  | W_FileSetxattr e => file_setxattr offset e container
  | W_FileRemovexattr e => file_removexattr offset e container
  | W_Mount e => mount offset e container
  | W_Signal e => signal offset e self_exe container
  | W_KernelModule e => kernel_module offset e (finit_module_path link e) container
  | W_Bpf e => bpf_operation offset e container
  | W_Prctl e => prctl offset e container
  | W_Ptrace e => ptrace offset e container
  | W_ProcessVmRead e => process_vm_read offset e container
  | W_ProcessVmWrite e => process_vm_write offset e container
  | W_MemfdCreate e => memfd_create offset e container
  | W_IdentityChange e => identity_change offset e container
  | W_CapSet e => cap_set offset e container
  | W_Namespace e => namespace offset e container
  end.

Definition MAX_ITEMS_PER_DRAIN : nat := 256.

(** An item of a ring buffer: [None] when it is shorter than the record. *)
Definition Item : Type := Surroundings * option WireEvent.

Definition drain_item (it : Item) (cs : Containers) : Run (list Event * Containers) :=
  match it.2 with
  | None => Ran ([], cs)
  | Some w =>
      let fetch := container_id_from_cgroupfs CGROUPFS_ROOT (sr_cgroupfs it.1) in
      let '(container, cs) := container_context fetch (w_meta_cgroup_id (wire_meta w)) cs in
      e <-run to_event it.1 w container;
      Ran (if negb (meta_pid (Event_meta e) =? own_pid) then [e] else [], cs)
  end.

(** [drain!]: at most [budget] items; the flag says whether readiness is cleared,
    which it is when the buffer ran dry below the bound. *)
Fixpoint drain_loop (budget : nat) (ring : list Item) (out : list Event) (cs : Containers)
    : Run (list Item * list Event * Containers * bool) :=
  match budget with
  | O => Ran (ring, out, cs, false)
  | S budget =>
      match ring with
      | [] => Ran (ring, out, cs, true)
      | it :: ring => '(es, cs) <-run drain_item it cs; drain_loop budget ring (out ++ es) cs
      end
  end.
Definition drain (ring : list Item) (cs : Containers) : Run (list Item * list Event * Containers * bool) :=
  drain_loop MAX_ITEMS_PER_DRAIN ring [] cs.

(** ** The record of the last SIGKILL *)

Definition SIGKILL_SURVIVED_AFTER_NS : Z := 1000000000.
Definition zero_signal : wire_SignalEvent :=
  mk_wire_SignalEvent (mk_wire_EventMeta 0 0 0 0 0 (replicate 16 0) 0 0 0) 0 0.
Definition read_tamper_slot (slot : wire_SignalEvent) : option wire_SignalEvent :=
  if negb (w_meta_timestamp_ns (w_signal_meta slot) =? 0) then Some slot else None.
Definition clear_tamper_slot (slot : wire_SignalEvent) : wire_SignalEvent := zero_signal.
(** A failing clear is logged; the slot stays ([cleared] is whether the write succeeds). *)
Definition sweep_survived_sigkill (slot : wire_SignalEvent) (now : Z) (cleared : bool) : wire_SignalEvent :=
  match read_tamper_slot slot with
  | None => slot
  | Some recorded =>
      let recorded_at := sat_add (w_meta_timestamp_ns (w_signal_meta recorded)) offset in
      let age := now -sat recorded_at in
      if (w_signal_target_pid recorded =? own_pid) && (SIGKILL_SURVIVED_AFTER_NS <? age) && cleared
      then clear_tamper_slot slot else slot
  end.

(** ** The loop *)

(** [sn_rings]: the ring buffers, by the position of their branch. *)
Record SensorState := mkSensorState {
  sn_rings : list (list Item); sn_containers : Containers; sn_slot : wire_SignalEvent; sn_delivered : list Event }.

(** What happens between two polls, and the branch the poll takes: the kernel
    appends to a ring or records a SIGKILL, a lookup ends, the sweep ticks, a ring
    is readable. *)
Inductive Turn :=
  | Produce (ring : nat) (items : list Item)
  | Killed (e : wire_SignalEvent)
  | LookupEnds (id : string) (answer : option DockerContainerInfo)
  | SweepTick (now : Z) (cleared : bool)
  | Readable (ring : nat).

Definition turn (t : Turn) (s : SensorState) : Run SensorState :=
  match t with
  | Produce ring items =>
      Ran (mkSensorState (alter (fun r => r ++ items) ring (sn_rings s)) (sn_containers s) (sn_slot s) (sn_delivered s))
  | Killed e => Ran (mkSensorState (sn_rings s) (sn_containers s) e (sn_delivered s))
  | LookupEnds id answer =>
      Ran (mkSensorState (sn_rings s) (lookup_done id answer (sn_containers s)) (sn_slot s) (sn_delivered s))
  | SweepTick now cleared =>
      Ran (mkSensorState (sn_rings s) (sn_containers s) (sweep_survived_sigkill (sn_slot s) now cleared) (sn_delivered s))
  | Readable ring =>
      match sn_rings s !! ring with
      | None => Ran s
      | Some r =>
          '(r, out, cs, _) <-run drain r (sn_containers s);
          Ran (mkSensorState (<[ring := r]> (sn_rings s)) cs (sn_slot s) (sn_delivered s ++ out))
      end
  end.
Definition turns (ts : list Turn) (s : SensorState) : Run SensorState := run_fold (fun s t => turn t s) ts s.

(** [run_async] up to the loop: the previous agent's SIGKILL is reported and cleared. *)
Definition sensor_start (sr : Surroundings) (slot : wire_SignalEvent) (rings : list (list Item)) : Run SensorState :=
  let cs := mkContainers CgroupIdCache_new ∅ [] in
  match read_tamper_slot slot with
  | None => Ran (mkSensorState rings cs slot [])
  | Some previous =>
      let '(container, cs) :=
        container_context (container_id_from_cgroupfs CGROUPFS_ROOT (sr_cgroupfs sr))
          (w_meta_cgroup_id (w_signal_meta previous)) cs in
      e <-run signal offset previous self_exe container;
      Ran (mkSensorState rings cs (clear_tamper_slot slot) [e])
  end.
End Sensor.
