(* ===== verification/LinuxSensorTheorems.v ===== *)
(** * LinuxSensorTheorems: what the Linux sensor delivers

    Every record becomes an event with its own identity, whatever its buffers hold;
    a ring buffer is delivered completely and in order; no run delivers the agent's
    own activity, and the container caches stay bounded and consistent. *)
From stdpp Require Import base gmap strings list.
From Stdlib Require Import ZArith Lia Ascii.
From S2P Require Import Prelude Str Text Scan Fs Utf8 Schema Bytes LinuxWire LinuxSensor.
#[local] Open Scope string_scope.
#[local] Open Scope list_scope.
#[local] Open Scope Z_scope.
#[local] Open Scope edr_scope.

(** ** Records become events *)

Definition wire_wf (w : WireEvent) : Prop :=
  match w with
  | W_Exec e => wire_ExecEvent_wf e | W_FileOpen e => wire_FileOpenEvent_wf e | W_Connect e => wire_ConnectEvent_wf e
  | W_FileWrite e => wire_FileWriteEvent_wf e | W_FileDelete e => wire_FileDeleteEvent_wf e
  | W_FileRename e => wire_FileRenameEvent_wf e | W_SocketBind e => wire_SocketBindEvent_wf e
  | W_FileChmod e => wire_FileChmodEvent_wf e | W_FileChown e => wire_FileChownEvent_wf e
  | W_UdpSend e => wire_UdpSendEvent_wf e | W_SocketListen e => wire_SocketListenEvent_wf e
  | W_SocketAccept e => wire_SocketAcceptEvent_wf e | W_FileSetxattr e => wire_FileSetxattrEvent_wf e
  | W_FileRemovexattr e => wire_FileRemovexattrEvent_wf e | W_Mount e => wire_MountEvent_wf e
  | W_Signal e => wire_SignalEvent_wf e | W_KernelModule e => wire_KernelModuleEvent_wf e | W_Bpf e => wire_BpfEvent_wf e
  | W_Prctl e => wire_PrctlEvent_wf e | W_Ptrace e => wire_PtraceEvent_wf e
  | W_ProcessVmRead e => wire_ProcessVmReadEvent_wf e | W_ProcessVmWrite e => wire_ProcessVmWriteEvent_wf e
  | W_MemfdCreate e => wire_MemfdCreateEvent_wf e | W_IdentityChange e => wire_IdentityChangeEvent_wf e
  | W_CapSet e => wire_CapSetEvent_wf e | W_Namespace e => wire_NamespaceEvent_wf e
  end.

Lemma raw_field_ran buf len max : blen buf = max -> 0 <= len -> returns (raw_field buf len max).
Proof. intros Hb Hl. unfold raw_field. pose proof (blen_nonneg buf). repeat run_step; lia. Qed.

Lemma text_field_ran buf len max : blen buf = max -> 0 <= len -> returns (text_field buf len max).
Proof. intros Hb Hl. unfold text_field. apply returns_bind; [by apply raw_field_ran|intros; apply returns_ran]. Qed.

Lemma opt_text_field_ran buf len max : blen buf = max -> 0 <= len -> returns (opt_text_field buf len max).
Proof.
  intros Hb Hl. unfold opt_text_field. destruct (0 <? len); [|apply returns_ran].
  apply returns_bind; [by apply text_field_ran|intros; apply returns_ran].
Qed.

(** Rewrites the next field read to its value. *)
Ltac read_field :=
  match goal with
  | |- context [text_field ?b ?l ?m] =>
      let t := fresh "t" in destruct (text_field_ran b l m) as [t ->]; [done|done|]; cbn [run_bind]
  | |- context [opt_text_field ?b ?l ?m] =>
      let t := fresh "t" in destruct (opt_text_field_ran b l m) as [t ->]; [done|done|]; cbn [run_bind]
  | |- context [raw_field ?b ?l ?m] =>
      let t := fresh "t" in destruct (raw_field_ran b l m) as [t ->]; [done|done|]; cbn [run_bind]
  end.

Lemma to_event_ran offset self_exe sr w c :
  wire_wf w -> exists e, to_event offset self_exe sr w c = Ran e /\ Event_meta e = meta offset (wire_meta w) c.
Proof.
  intros Hw. destruct w; cbn [wire_wf] in Hw; cbn [to_event wire_meta];
    unfold exec, file_open, connect, file_write, file_delete, file_rename, socket_bind, file_chmod, file_chown, udp_send,
      socket_listen, socket_accept, file_setxattr, file_removexattr, mount, signal, kernel_module, bpf_operation, prctl,
      ptrace, process_vm_read, process_vm_write, memfd_create, identity_change, cap_set, namespace.
  all: try (match type of Hw with ?P _ => unfold P in Hw end).
  all: try (destruct Hw as (Hm & Hw); repeat match type of Hw with _ /\ _ => destruct Hw as [? Hw] end).
  all: repeat read_field.
  all: try (destruct (w_socket_listen_addr_resolved _)).
  all: try (destruct (identity_kind _)).
  all: eexists; split; reflexivity.
Qed.

(** ** Text fields do not leak *)

Lemma before_nul_app p q : 0 ∉ p -> before_nul (p ++ 0 :: q) = p.
Proof.
  induction p as [|b p IH]; intros Hp; [done|]. apply not_elem_of_cons in Hp as [Hb Hp]. cbn.
  destruct (Z.eqb_spec b 0); [lia|]. by rewrite IH.
Qed.

Lemma before_nul_no_nul p : 0 ∉ p -> before_nul p = p.
Proof.
  induction p as [|b p IH]; intros Hp; [done|]. apply not_elem_of_cons in Hp as [Hb Hp]. cbn.
  destruct (Z.eqb_spec b 0); [lia|]. by rewrite IH.
Qed.

(** A name the probe wrote, NUL-terminated or cut by the declared length, is read
    as exactly that name, whatever follows it in the buffer. *)
Lemma text_field_exact p junk len max :
  0 ∉ p -> blen (p ++ junk) = max ->
  (len = blen p \/ (head junk = Some 0 /\ blen p < len)) ->
  text_field (p ++ junk) len max = Ran (from_utf8_lossy p).
Proof.
  intros Hp Hb Hl. pose proof (blen_nonneg p). pose proof (blen_nonneg junk). rewrite blen_app in Hb.
  assert (0 <= len) by (destruct Hl as [?|[_ ?]]; lia).
  unfold text_field, raw_field, slice. rewrite (proj2 (Z.leb_le 0 0)), (proj2 (Z.leb_le 0 _)), (proj2 (Z.leb_le _ (blen (p ++ junk))))
    by (rewrite ?blen_app; lia). cbn [andb run_bind]. rewrite Z.sub_0_r, drop_0. f_equal. f_equal.
  destruct Hl as [->|[Hh Hlt]].
  - rewrite Z.min_l by lia. unfold blen. rewrite Nat2Z.id, take_app_length. by apply before_nul_no_nul.
  - destruct junk as [|b junk]; [done|]. injection Hh as ->.
    rewrite take_app_ge by (unfold blen in *; lia).
    destruct (Z.to_nat (Z.min len max) - length p)%nat as [|n] eqn:En; [unfold blen in *; simpl in Hb; lia|].
    by apply before_nul_app.
Qed.

(** ** The container caches *)

Definition cache_ok (c : CgroupIdCache) : Prop :=
  NoDup (cg_order c) /\ blen (cg_order c) <= CGROUP_ID_CACHE_CAP /\
  (forall k, is_Some (cg_entries c !! k) <-> k ∈ cg_order c).

Lemma cache_ok_new : cache_ok CgroupIdCache_new.
Proof.
  split; [constructor|]. split; [done|]. intros k. cbn. rewrite lookup_empty. split; [by intros [? ?]|by intros ?%not_elem_of_nil].
Qed.

Lemma resolve_with_ok fetch k c : cache_ok c -> cache_ok (resolve_with fetch k c).2.
Proof.
  intros (Hn & Hb & Hd). unfold resolve_with. destruct (cg_entries c !! k) eqn:E; [done|]. cbn [snd].
  assert (Hk : k ∉ cg_order c) by (intros Hk%Hd; rewrite E in Hk; by destruct Hk).
  assert (Hn' : NoDup (cg_order c ++ [k])).
  { apply NoDup_app. split; [done|]. split; [|apply NoDup_singleton]. intros x Hx ->%list_elem_of_singleton. done. }
  assert (Hd' : forall x, is_Some (<[k:=fetch k]> (cg_entries c) !! x) <-> x ∈ cg_order c ++ [k]).
  { intros x. rewrite elem_of_app, list_elem_of_singleton, <- Hd. destruct (decide (k = x)) as [->|Hx].
    - rewrite lookup_insert_eq. split; auto.
    - rewrite lookup_insert_ne by done. split; [auto|]. intros [?|E0]; [done|congruence]. }
  destruct (CGROUP_ID_CACHE_CAP <? blen (cg_order c ++ [k])) eqn:Ecap.
  - destruct (cg_order c ++ [k]) as [|o order] eqn:Eo; [by destruct (cg_order c)|].
    apply NoDup_cons in Hn' as [Ho Hn']. split; [done|]. split.
    + cbn. assert (blen (o :: order) = blen (cg_order c) + 1) by (rewrite <- Eo, blen_app; done).
      rewrite blen_cons in *. lia.
    + intros x. cbn. destruct (decide (o = x)) as [->|Hx].
      * rewrite lookup_delete_eq. split; [by intros [? ?]|done].
      * rewrite lookup_delete_ne by done. rewrite Hd', elem_of_cons. split; [intros [?|?]; [congruence|done]|auto].
  - apply Z.ltb_ge in Ecap. done.
Qed.

Lemma cg_resolve_ok fetch k c : cache_ok c -> cache_ok (cg_resolve fetch k c).2.
Proof. intros H. unfold cg_resolve. destruct (k =? 0); [done|by apply resolve_with_ok]. Qed.

Definition cache_agrees (fetch : Z -> option string) (c : CgroupIdCache) : Prop :=
  forall k v, cg_entries c !! k = Some v -> v = fetch k.

Lemma cg_resolve_transparent fetch k c :
  cache_agrees fetch c ->
  (cg_resolve fetch k c).1 = (if k =? 0 then None else fetch k) /\ cache_agrees fetch (cg_resolve fetch k c).2.
Proof.
  intros Ha. unfold cg_resolve. destruct (k =? 0); [done|]. unfold resolve_with.
  destruct (cg_entries c !! k) as [v|] eqn:E; [split; [by apply Ha|done]|]. split; [done|].
  assert (Hi : cache_agrees fetch (mkCgroupIdCache (<[k:=fetch k]> (cg_entries c)) (cg_order c ++ [k]))).
  { intros x v. cbn. destruct (decide (k = x)) as [->|Hx].
    - rewrite lookup_insert_eq. by intros [= <-].
    - rewrite lookup_insert_ne by done. apply Ha. }
  cbn [snd]. destruct (_ <? _); [|done]. destruct (cg_order c ++ [k]); [done|].
  intros x v. cbn. intros [_ Hx]%lookup_delete_Some. by apply Hi.
Qed.

(** One lookup per container, and every id that was seen is being or was looked up. *)
Definition containers_ok (c : Containers) : Prop :=
  cache_ok (ct_ids c) /\ NoDup (ct_spawned c) /\ (forall id, is_Some (ct_docker c !! id) <-> id ∈ ct_spawned c).

Lemma container_context_ok fetch k c : containers_ok c -> containers_ok (container_context fetch k c).2.
Proof.
  intros (Hc & Hn & Hd). unfold container_context. pose proof (cg_resolve_ok fetch k _ Hc) as Hr.
  destruct (cg_resolve fetch k (ct_ids c)) as [[id|] ids]; cbn in Hr; [|done].
  destruct (ct_docker c !! id) as [[|info]|] eqn:E; cbn; try done.
  assert (Hid : id ∉ ct_spawned c) by (intros H%Hd; rewrite E in H; by destruct H).
  split; [done|]. split.
  - apply NoDup_app. split; [done|]. split; [|apply NoDup_singleton]. intros x Hx ->%list_elem_of_singleton. done.
  - intros x. cbn. rewrite elem_of_app, list_elem_of_singleton, <- Hd. destruct (decide (id = x)) as [->|Hx].
    + rewrite lookup_insert_eq. split; auto.
    + rewrite lookup_insert_ne by done. split; [auto|]. intros [?|E0]; [done|congruence].
Qed.

(** ** Draining *)

Section Drain.
Context (offset own_pid : Z) (self_exe : option string).
Abbreviation to_event := (to_event offset self_exe).
Abbreviation drain_item := (drain_item offset own_pid self_exe).
Abbreviation drain_loop := (drain_loop offset own_pid self_exe).
Abbreviation drain := (drain offset own_pid self_exe).
Abbreviation turn := (turn offset own_pid self_exe).
Abbreviation turns := (turns offset own_pid self_exe).

Definition item_wf (it : Item) : Prop := match it.2 with Some w => wire_wf w | None => True end.

(** What an item is to deliver: the event of a whole record of another process. *)
Definition delivers (it : Item) (es : list Event) : Prop :=
  match it.2 with
  | Some w => if w_meta_pid (wire_meta w) =? own_pid then es = []
              else exists e c, es = [e] /\ to_event it.1 w c = Ran e
  | None => es = []
  end.

Lemma drain_item_ran it cs :
  item_wf it -> containers_ok cs ->
  exists es cs', drain_item it cs = Ran (es, cs') /\ containers_ok cs' /\ delivers it es.
Proof.
  unfold LinuxSensor.drain_item, item_wf, delivers. destruct it as [sr [w|]]; cbn [fst snd]; intros Hw Hc; [|by exists [], cs].
  set (fetch := container_id_from_cgroupfs CGROUPFS_ROOT (sr_cgroupfs sr)).
  pose proof (container_context_ok fetch (w_meta_cgroup_id (wire_meta w)) cs Hc) as Hc'.
  destruct (container_context fetch _ cs) as [container cs'] eqn:E. cbn in Hc'.
  destruct (to_event_ran offset self_exe sr w container Hw) as (e & He & Hm). rewrite He. cbn [run_bind].
  assert (Hp : meta_pid (Event_meta e) = w_meta_pid (wire_meta w)) by (rewrite Hm; done).
  eexists _, cs'. split; [done|]. split; [done|]. rewrite Hp.
  destruct (w_meta_pid (wire_meta w) =? own_pid); cbn [negb]; [done|]. by exists e, container.
Qed.

Lemma drain_loop_ran budget ring out cs :
  Forall item_wf ring -> containers_ok cs ->
  exists ess cs', drain_loop budget ring out cs
    = Ran (drop budget ring, out ++ concat ess, cs', bool_decide (length ring < budget)%nat) /\
    containers_ok cs' /\ Forall2 delivers (take budget ring) ess.
Proof.
  revert ring out cs. induction budget as [|budget IH]; intros ring out cs Hr Hc.
  - exists [], cs. rewrite drop_0, app_nil_r. split; [|done]. by rewrite bool_decide_eq_false_2 by lia.
  - cbn [LinuxSensor.drain_loop]. destruct Hr as [|it ring Hit Hr].
    + exists [], cs. rewrite app_nil_r. split; [|done]. rewrite bool_decide_eq_true_2; [done|simpl; lia].
    + destruct (drain_item_ran it cs Hit Hc) as (es & cs1 & -> & Hc1 & Hd). cbn [run_bind].
      destruct (IH ring (out ++ es) cs1 Hr Hc1) as (ess & cs2 & -> & Hc2 & Hds).
      exists (es :: ess), cs2. cbn [concat drop take]. rewrite app_assoc. split; [|split; [done|by constructor]].
      repeat f_equal. apply bool_decide_ext. simpl. lia.
Qed.

(** [n] polls of one ring in a row. *)
Fixpoint drains (n : nat) (ring : list Item) (out : list Event) (cs : Containers) : Run (list Item * list Event * Containers) :=
  match n with
  | O => Ran (ring, out, cs)
  | S n => '(ring, es, cs, _) <-run drain ring cs; drains n ring (out ++ es) cs
  end.

Lemma drains_ran n ring out cs :
  Forall item_wf ring -> containers_ok cs ->
  exists ess cs', drains n ring out cs = Ran (drop (n * MAX_ITEMS_PER_DRAIN) ring, out ++ concat ess, cs') /\
    containers_ok cs' /\ Forall2 delivers (take (n * MAX_ITEMS_PER_DRAIN) ring) ess.
Proof.
  revert ring out cs. induction n as [|n IH]; intros ring out cs Hr Hc.
  - exists [], cs. cbn [drains Nat.mul]. rewrite drop_0, app_nil_r. split; [done|]. split; [done|]. rewrite take_0. constructor.
  - cbn [drains]. unfold LinuxSensor.drain.
    destruct (drain_loop_ran MAX_ITEMS_PER_DRAIN ring [] cs Hr Hc) as (ess1 & cs1 & -> & Hc1 & Hd1). cbn [run_bind app].
    destruct (IH (drop MAX_ITEMS_PER_DRAIN ring) (out ++ concat ess1) cs1) as (ess2 & cs2 & -> & Hc2 & Hd2);
      [by apply Forall_drop|done|].
    exists (ess1 ++ ess2), cs2. rewrite drop_drop, concat_app, app_assoc. split; [done|]. split; [done|].
    replace (take (S n * MAX_ITEMS_PER_DRAIN) ring)
      with (take MAX_ITEMS_PER_DRAIN ring ++ take (n * MAX_ITEMS_PER_DRAIN) (drop MAX_ITEMS_PER_DRAIN ring));
      [by apply Forall2_app|].
    rewrite take_take_drop. by rewrite Nat.mul_succ_l, Nat.add_comm.
Qed.

(** C28. A ring buffer is delivered completely and in order: after as many polls as
    it has blocks of 256 records, the ring is empty and the sink got, record by
    record, the event of every whole record of another process, built by the mapping
    of its type, and nothing for a record of the agent itself or one that is too
    short; the poll that leaves the ring empty below the bound, and only that, clears
    its readiness. *)
Theorem ring_delivered (ring : list Item) (cs : Containers) (n : nat) :
  Forall item_wf ring -> containers_ok cs -> (length ring <= n * MAX_ITEMS_PER_DRAIN)%nat ->
  (exists ess cs', drains n ring [] cs = Ran ([], concat ess, cs') /\ Forall2 delivers ring ess) /\
  (exists out cs', drain ring cs
     = Ran (drop MAX_ITEMS_PER_DRAIN ring, out, cs', bool_decide (length ring < MAX_ITEMS_PER_DRAIN)%nat)).
Proof.
  intros Hr Hc Hn. split.
  - destruct (drains_ran n ring [] cs Hr Hc) as (ess & cs' & E & _ & Hd). exists ess, cs'.
    rewrite drop_ge, app_nil_l in E by done. rewrite take_ge in Hd by done. done.
  - destruct (drain_loop_ran MAX_ITEMS_PER_DRAIN ring [] cs Hr Hc) as (ess & cs' & E & _).
    exists (concat ess), cs'. exact E.
Qed.

(** ** Whole runs *)

Definition state_ok (s : SensorState) : Prop :=
  Forall (Forall item_wf) (sn_rings s) /\ containers_ok (sn_containers s) /\
  Forall (fun e => meta_pid (Event_meta e) <> own_pid) (sn_delivered s).

(** The kernel writes whole records, and a lookup ends only if it was started. *)
Definition turn_ok (s : SensorState) (t : Turn) : Prop :=
  match t with
  | Produce _ items => Forall item_wf items
  | LookupEnds id _ => id ∈ ct_spawned (sn_containers s)
  | _ => True
  end.

Lemma delivers_foreign it es : delivers it es -> item_wf it -> Forall (fun e => meta_pid (Event_meta e) <> own_pid) es.
Proof.
  unfold delivers, item_wf. destruct it as [sr [w|]]; cbn [fst snd]; [|intros ->; constructor].
  destruct (Z.eqb_spec (w_meta_pid (wire_meta w)) own_pid) as [E|E]; [intros ->; constructor|].
  intros (e & c & -> & He) Hw. apply Forall_singleton.
  destruct (to_event_ran offset self_exe sr w c Hw) as (e' & He' & Hm). rewrite He in He'. injection He' as <-.
  by rewrite Hm.
Qed.

Lemma lookup_done_ok id a c : id ∈ ct_spawned c -> containers_ok c -> containers_ok (lookup_done id a c).
Proof.
  intros Hid (Hc & Hn & Hd). split; [done|]. split; [done|]. intros x. cbn. rewrite <- Hd.
  destruct (decide (id = x)) as [->|Hx]; [|by rewrite lookup_insert_ne].
  rewrite lookup_insert_eq. split; [|by eexists]. intros _. by apply Hd.
Qed.

Lemma turn_ran t s : state_ok s -> turn_ok s t -> exists s', turn t s = Ran s' /\ state_ok s'.
Proof.
  intros (Hr & Hc & Hd) Ht. destruct t as [ring items|e|id a|now cl|ring]; cbn [LinuxSensor.turn].
  - eexists. split; [done|]. split; [|done]. cbn. apply Forall_alter; [done|]. intros r _ Hrr.
    by apply Forall_app.
  - by eexists.
  - eexists. split; [done|]. split; [done|]. split; [by apply lookup_done_ok|done].
  - by eexists.
  - destruct (sn_rings s !! ring) as [r|] eqn:E; [|by eexists].
    assert (Hring : Forall item_wf r) by (eapply Forall_lookup_1; eauto). unfold LinuxSensor.drain.
    destruct (drain_loop_ran MAX_ITEMS_PER_DRAIN r [] (sn_containers s) Hring Hc) as (ess & cs' & -> & Hc' & Hds).
    cbn [run_bind]. eexists. split; [done|]. split; [|split]; cbn.
    + apply Forall_insert; [done|]. by apply Forall_drop.
    + done.
    + apply Forall_app. split; [done|]. apply Forall_concat, Forall_forall. intros es Hes.
      apply list_elem_of_lookup in Hes as [i Hi]. destruct (Forall2_lookup_r _ _ _ _ _ Hds Hi) as (it & Hit & Hdel).
      apply (delivers_foreign it es Hdel). eapply Forall_lookup_1; [|exact Hit]. by apply Forall_take.
Qed.

(** Every turn is one the kernel and the runtime can make. *)
Fixpoint turns_ok (s : SensorState) (ts : list Turn) : Prop :=
  match ts with
  | [] => True
  | t :: ts => turn_ok s t /\ forall s', turn t s = Ran s' -> turns_ok s' ts
  end.

(** C29. Whatever the probes write, in any interleaving of producers, polls, lookups
    and sweeps, the sensor's loop does not panic; it never delivers an event of the
    agent's own process; its cache of cgroup ids stays within its bound and agrees
    with its order of eviction; and it starts at most one lookup per container. *)
Theorem sensor_run_safe (ts : list Turn) (s : SensorState) :
  state_ok s -> turns_ok s ts ->
  exists s', turns ts s = Ran s' /\
    Forall (fun e => meta_pid (Event_meta e) <> own_pid) (sn_delivered s') /\
    blen (cg_order (ct_ids (sn_containers s'))) <= CGROUP_ID_CACHE_CAP /\
    (forall k, is_Some (cg_entries (ct_ids (sn_containers s')) !! k) <-> k ∈ cg_order (ct_ids (sn_containers s'))) /\
    NoDup (ct_spawned (sn_containers s')).
Proof.
  unfold LinuxSensor.turns. revert s. induction ts as [|t ts IH]; intros s Hs Ht; cbn [run_fold].
  - destruct Hs as (_ & ((_ & H1 & H2) & H3 & _) & H4). by exists s.
  - destruct Ht as [Ht Hts]. destruct (turn_ran t s Hs Ht) as (s1 & E & Hs1). rewrite E. cbn [run_bind].
    apply IH; [done|by apply Hts].
Qed.
End Drain.

(** A record of process [pid] and surroundings where nothing can be read. *)
Definition sample_meta (pid : Z) : wire_EventMeta := mk_wire_EventMeta pid 1 0 0 77 (replicate 16 0) 0 5 0.
Definition bare : Surroundings := mkSurroundings (fun _ => None) (fun _ => None) (fun _ => None) (mkCgDir None).
Definition sample_ring : list Item :=
  [(bare, Some (W_Prctl (mk_wire_PrctlEvent (sample_meta 900) 4 0)));
   (bare, None);
   (bare, Some (W_Prctl (mk_wire_PrctlEvent (sample_meta 41) 15 0)));
   (bare, Some (W_FileOpen (mk_wire_FileOpenEvent (sample_meta 42) (47 :: replicate 255 0) 300 0)))].
Definition no_containers : Containers := mkContainers CgroupIdCache_new ∅ [].

Lemma sample_ring_wf : Forall item_wf sample_ring.
Proof. repeat constructor; vm_compute; congruence. Qed.

Lemma no_containers_ok : containers_ok no_containers.
Proof.
  split; [apply cache_ok_new|]. split; [constructor|]. intros id. cbn. rewrite lookup_empty.
  split; [by intros [? ?]|by intros ?%not_elem_of_nil].
Qed.

Lemma ring_delivered_witness :
  exists ess cs', drains 1000 900 None 1 sample_ring [] no_containers = Ran ([], concat ess, cs') /\
    Forall2 (delivers 1000 900 None) sample_ring ess.
Proof.
  apply (ring_delivered 1000 900 None sample_ring no_containers 1 sample_ring_wf no_containers_ok).
  vm_compute. lia.
Defined.

Lemma sensor_run_safe_witness :
  exists s', turns 1000 900 None [Readable 0; Produce 1 sample_ring; SweepTick 50 true; Readable 1; Readable 7]
               (mkSensorState [sample_ring; []] no_containers zero_signal []) = Ran s'
             /\ Forall (fun e => meta_pid (Event_meta e) <> 900) (sn_delivered s').
Proof.
  destruct (sensor_run_safe 1000 900 None [Readable 0; Produce 1 sample_ring; SweepTick 50 true; Readable 1; Readable 7]
              (mkSensorState [sample_ring; []] no_containers zero_signal [])) as (s' & E & H & _).
  - split; [|split; [exact no_containers_ok|constructor]].
    constructor; [exact sample_ring_wf|repeat constructor].
  - split; [exact I|]. intros s1 _. split; [exact sample_ring_wf|]. intros s2 _. split; [exact I|].
    intros s3 _. split; [exact I|]. intros s4 _. split; [exact I|]. intros s5 _. exact I.
  - exists s'. split; [exact E|exact H].
Defined.

(** ** /proc *)

Lemma split_nul_app p l : 0 ∉ p -> split_nul (p ++ 0 :: l) = p :: split_nul l.
Proof.
  induction p as [|b p IH]; intros Hp; [done|]. apply not_elem_of_cons in Hp as [Hb Hp]. cbn.
  destruct (Z.eqb_spec b 0); [lia|]. by rewrite IH.
Qed.

Lemma split_nul_none p : 0 ∉ p -> split_nul p = [p].
Proof.
  induction p as [|b p IH]; intros Hp; [done|]. apply not_elem_of_cons in Hp as [Hb Hp]. cbn.
  destruct (Z.eqb_spec b 0); [lia|]. by rewrite IH.
Qed.

(** The kernel's [/proc/<pid>/cmdline]: every argument with its NUL. *)
Definition kernel_cmdline (argv : list bytes) : bytes := concat ((fun a => a ++ [0]) <$> argv).

Lemma kernel_cmdline_strip argv a :
  strip_last_nul (kernel_cmdline (argv ++ [a])) = kernel_cmdline argv ++ a.
Proof.
  unfold strip_last_nul, kernel_cmdline. rewrite fmap_app, concat_app. cbn [fmap list_fmap concat].
  rewrite app_nil_r, app_assoc, last_snoc. cbn [Z.eqb]. change (removelast ?l) with (removelast l).
  by rewrite removelast_app, app_nil_r.
Qed.

Lemma split_kernel_cmdline argv a :
  Forall (fun x => 0 ∉ x) argv -> 0 ∉ a -> split_nul (kernel_cmdline argv ++ a) = argv ++ [a].
Proof.
  intros Hv Ha. induction Hv as [|x argv Hx _ IH]; [by apply split_nul_none|].
  unfold kernel_cmdline in *. cbn [fmap list_fmap concat]. rewrite <- !app_assoc. cbn [app].
  by rewrite split_nul_app, IH.
Qed.

(** Reading back the command line gives the argument vector the process was
    started with, argument by argument, empty ones included, for every vector except
    the one with a single empty argument, which reads as no arguments at all. *)
Theorem cmdline_roundtrip (argv : list bytes) :
  Forall (fun a => 0 ∉ a) argv ->
  parse_proc_cmdline (kernel_cmdline argv) = if decide (argv = [[]]) then [] else from_utf8_lossy <$> argv.
Proof.
  intros Hv. unfold parse_proc_cmdline. destruct (destruct_last argv) as [->|(init & a & ->)]; [done|].
  apply Forall_app in Hv as [Hi [Ha _]%Forall_cons]. rewrite kernel_cmdline_strip.
  rewrite split_kernel_cmdline by assumption. case_decide as E.
  - destruct init as [|x init]; [|by destruct init]. injection E as ->. done.
  - replace (blen (kernel_cmdline init ++ a) =? 0) with false; [done|]. symmetry. apply Z.eqb_neq.
    rewrite blen_app. destruct init as [|x init].
    + destruct a; [done|]. rewrite blen_cons. pose proof (blen_nonneg (kernel_cmdline [])). pose proof (blen_nonneg a). lia.
    + unfold kernel_cmdline. cbn [fmap list_fmap concat]. rewrite !blen_app.
      pose proof (blen_nonneg x); pose proof (blen_nonneg a); pose proof (blen_nonneg (concat ((fun a => a ++ [0]) <$> init))).
      change (blen [0]) with 1. lia.
Qed.

Lemma cmdline_roundtrip_witness :
  parse_proc_cmdline (kernel_cmdline [[115; 104]; []; [45; 99]]) = ["sh"; ""; "-c"].
Proof.
  rewrite (cmdline_roundtrip [[115; 104]; []; [45; 99]]).
  - vm_compute. reflexivity.
  - repeat constructor; intros H; repeat (apply elem_of_cons in H as [H|H]; [discriminate H|]); by apply not_elem_of_nil in H.
Defined.

(** Only the names of the allow list are read out of an environment. *)
Lemma environ_allowlisted blob nv : nv ∈ parse_proc_environ_security blob -> nv.1 ∈ SECURITY_ENV_NAMES.
Proof.
  unfold parse_proc_environ_security. destruct (_ =? _); [by intros ?%not_elem_of_nil|].
  intros (entry & _ & He)%list_elem_of_omap. unfold security_entry in He.
  destruct (split_once "=" (from_utf8_lossy entry)) as [nv'|]; [|done]. cbn [mbind option_bind] in He.
  destruct (one_of SECURITY_ENV_NAMES nv'.1) eqn:E; [|done]. injection He as ->.
  unfold one_of in E. apply existsb_exists in E as (x & Hx & ->%String.eqb_eq). by apply list_elem_of_In.
Qed.

(** ** The stat line *)

Lemma split_once_open a b :
  str_all (fun c => negb (Ascii.eqb c "(")) a = true -> split_once "(" (a +:+ String "(" b) = Some (a, b).
Proof.
  induction a as [|c a IH]; [done|]. cbn [str_all]. intros [Hc Ha]%andb_true_iff. specialize (IH Ha).
  change ((String c a) +:+ String "(" b) with (String c (a +:+ String "(" b)). cbn [split_once].
  cbn [strip_prefix]. destruct (Ascii.eqb_spec "(" c) as [<-|_]; [done|]. by rewrite IH.
Qed.

(** The fields after the name in a stat line, and the line. *)
Fixpoint stat_fields (fields : list string) : string :=
  match fields with [] => String newline EmptyString | w :: fields => String " " (w +:+ stat_fields fields) end.
Definition stat_line (pid : Z) (comm : string) (fields : list string) : string :=
  show_u64 pid +:+ String " " (String "(" (comm +:+ String ")" (stat_fields fields))).
Definition field_word (w : string) : bool := str_all word_byte w && str_all (fun c => negb (is_close c)) w && negb (str_is_empty w).

Lemma stat_fields_shape fields :
  Forall (fun w => field_word w = true) fields ->
  str_all ascii_byte (stat_fields fields) = true /\ str_all (fun c => negb (is_close c)) (stat_fields fields) = true /\
  (exists c r, stat_fields fields = String c r /\ is_blank_byte c = true).
Proof.
  induction 1 as [|w fields Hw _ (H1 & H2 & _)]; [split; [done|split; [done|by eexists _, _]]|].
  unfold field_word in Hw. apply andb_true_iff in Hw as [[Hw Hc]%andb_true_iff _]. cbn [stat_fields str_all].
  rewrite !str_all_app, H1, H2, Hc, word_ascii by done. split; [done|]. split; [done|]. by eexists _, _.
Qed.

Lemma split_stat_fields fields :
  Forall (fun w => field_word w = true) fields -> split_whitespace (stat_fields fields) = fields.
Proof.
  induction 1 as [|w fields Hw Hf IH]; [reflexivity|].
  destruct (stat_fields_shape fields Hf) as (Ha & _ & c & r & E & Hc).
  unfold field_word in Hw. apply andb_true_iff in Hw as [[Hw _]%andb_true_iff Hne]. cbn [stat_fields].
  assert (Hr : str_all ascii_byte r = true) by (rewrite E in Ha; cbn [str_all] in Ha; by apply andb_true_iff in Ha as [_ ?]).
  rewrite split_leading_blank; [|done|rewrite str_all_app, word_ascii, Ha; done].
  rewrite E in IH |- *. rewrite split_leading_blank in IH by done.
  rewrite split_word, IH; try done. by intros ->.
Qed.

Lemma digits_no_open s : str_all is_digit s = true -> str_all (fun c => negb (Ascii.eqb c "(")) (s +:+ " ") = true.
Proof.
  intros Hs. rewrite str_all_app. apply andb_true_iff. split; [|done].
  induction s as [|a s IH]; [done|]. cbn [str_all] in *. apply andb_true_iff in Hs as [Ha Hs]. rewrite IH by done.
  replace (Ascii.eqb a "(") with false; [done|]. revert Ha. destruct a as [[] [] [] [] [] [] [] []]; vm_compute; done.
Qed.

(** The stat line of a process is read back whatever the process calls itself:
    for every name, spaces and parentheses included, the parent pid and the name are
    the kernel's, and the start time is its twentieth field after the name. *)
Theorem stat_line_roundtrip (pid ppid start : Z) (comm : string) (fields : list string) :
  Forall (fun w => field_word w = true) fields ->
  fields !! 1%nat = Some (show_u64 ppid) -> 0 <= ppid <= U32_MAX ->
  fields !! 19%nat = Some (show_u64 start) -> 0 <= start <= U64_MAX ->
  parse_stat_ppid_comm (stat_line pid comm fields) = Some (ppid, comm) /\
  parse_stat_starttime (stat_line pid comm fields) = Some start.
Proof.
  intros Hf Hp Hpr Hs Hsr. destruct (stat_fields_shape fields Hf) as (_ & Hc & _).
  assert (Er : rsplit_byte is_close (stat_line pid comm fields)
               = Some (show_u64 pid +:+ String " " (String "(" comm), stat_fields fields)).
  { unfold stat_line.
    change (String " " (String "(" (comm +:+ String ")" (stat_fields fields))))
      with (String " " (String "(" comm) +:+ String ")" (stat_fields fields)).
    rewrite <- str_app_assoc. by apply rsplit_byte_app. }
  assert (Eo : split_once "(" (show_u64 pid +:+ String " " (String "(" comm)) = Some (show_u64 pid +:+ " ", comm)).
  { change (String " " (String "(" comm)) with (" " +:+ String "(" comm). rewrite <- str_app_assoc.
    apply split_once_open, digits_no_open. apply string_of_uint_digits. }
  unfold parse_stat_ppid_comm, parse_stat_starttime, stat_comm, stat_rest. rewrite Er. cbn [fmap option_fmap option_map mbind option_bind fst snd].
  rewrite Eo. cbn [fmap option_fmap option_map mbind option_bind fst snd]. rewrite split_stat_fields by done. split.
  - destruct fields as [|f0 [|f1 fields]]; try done. injection Hp as ->. unfold parse_upto.
    rewrite parse_show by (unfold U32_MAX, U64_MAX in *; lia). cbn [mbind option_bind].
    by rewrite (proj2 (Z.leb_le ppid U32_MAX)) by lia.
  - rewrite Hs. cbn [mbind option_bind]. by rewrite parse_show.
Qed.

Definition sample_fields : list string :=
  ["S"; "1"] ++ replicate 17 "0" ++ ["8814"; "42"].
Lemma stat_line_roundtrip_witness :
  parse_stat_ppid_comm (stat_line 77 "a) S 9 (b" sample_fields) = Some (1, "a) S 9 (b").
Proof.
  apply (stat_line_roundtrip 77 1 8814 "a) S 9 (b" sample_fields); try (vm_compute; congruence); try (vm_compute; reflexivity).
  - repeat constructor.
  - split; vm_compute; congruence.
  - split; vm_compute; congruence.
Defined.

(** ** Redaction of TLS captures *)

(** A capture that ends inside a character is not redacted: the probe cuts the
    plaintext at 256 bytes, and when the cut falls inside a multi-byte character the
    bytes are no UTF-8, [redact_tls_data] takes them for a binary protocol, and the
    event carries the whole text before the cut verbatim, whatever credentials it
    holds and whatever the patterns would replace. *)
Theorem cut_capture_unredacted (replace_all : string -> string -> string -> option string) (offset : Z)
    (event : wire_TlsCaptureEvent) (text : bytes) (container : option ContainerContext) :
  utf8_valid text = true -> w_tls_capture_data event = text ++ [0xC3] -> blen text = MAX_TLS_CAPTURE - 1 ->
  MAX_TLS_CAPTURE <= w_tls_capture_bytes_len event ->
  exists direction lib,
    tls_capture offset replace_all event container
    = Ran (Event_TlsCapture (mkTlsCaptureEvent (meta offset (w_tls_capture_meta event) container) direction lib (text ++ [0xC3]))).
Proof.
  intros Hv Hd Hl Hb. unfold tls_capture. rewrite Hd.
  assert (Hlen : blen (text ++ [0xC3]) = MAX_TLS_CAPTURE) by (rewrite blen_app, Hl; done).
  rewrite Z.min_r by lia. pose proof (slice_mid [] (text ++ [0xC3]) [] 0 MAX_TLS_CAPTURE eq_refl) as Hsl.
  rewrite Hlen, app_nil_r in Hsl. specialize (Hsl eq_refl). cbn [app] in Hsl. rewrite Hsl. cbn [run_bind].
  assert (Hr : redact_tls_data replace_all (text ++ [0xC3]) = text ++ [0xC3]).
  { unfold redact_tls_data, from_utf8. by rewrite utf8_app. }
  rewrite Hr. by eexists _, _.
Qed.

Definition sample_capture : wire_TlsCaptureEvent :=
  mk_wire_TlsCaptureEvent (sample_meta 41) 1 0 4096
    ((bytes_of_str "Authorization: Bearer secret" ++ replicate 227 32) ++ [0xC3]).
Lemma cut_capture_unredacted_witness :
  exists direction lib,
    tls_capture 1000 (fun _ _ _ => Some "[REDACTED]") sample_capture None
    = Ran (Event_TlsCapture (mkTlsCaptureEvent (meta 1000 (sample_meta 41) None) direction lib
             ((bytes_of_str "Authorization: Bearer secret" ++ replicate 227 32) ++ [0xC3]))).
Proof.
  apply (cut_capture_unredacted (fun _ _ _ => Some "[REDACTED]") 1000 sample_capture
           (bytes_of_str "Authorization: Bearer secret" ++ replicate 227 32) None);
    [vm_compute; reflexivity|reflexivity|vm_compute; reflexivity|vm_compute; congruence].
Defined.

(** ** The SIGKILL record *)

(** The record of a SIGKILL is removed by the sweep exactly when it was aimed at
    this process and is more than a second old, which the process survived. *)
Lemma sweep_exact offset own_pid slot now :
  sweep_survived_sigkill offset own_pid slot now true
  = if negb (w_meta_timestamp_ns (w_signal_meta slot) =? 0) && (w_signal_target_pid slot =? own_pid)
       && (SIGKILL_SURVIVED_AFTER_NS <? now -sat (sat_add (w_meta_timestamp_ns (w_signal_meta slot)) offset))
    then zero_signal else slot.
Proof.
  unfold sweep_survived_sigkill, read_tamper_slot. destruct (_ =? 0); [done|]. cbn [negb andb].
  rewrite andb_true_r. by destruct (_ =? own_pid).
Qed.

(** A recorded SIGKILL is reported at the next start, once. *)
Lemma kill_reported_once offset self_exe sr slot rings s1 :
  w_meta_timestamp_ns (w_signal_meta slot) <> 0 ->
  sensor_start offset self_exe sr slot rings = Ran s1 ->
  (exists c, sn_delivered s1 = [Event_Signal (mkSignalEvent (meta offset (w_signal_meta slot) c) (w_signal_signal slot)
                                               (w_signal_target_pid slot) self_exe)]) /\
  exists s2, sensor_start offset self_exe sr (sn_slot s1) rings = Ran s2 /\ sn_delivered s2 = [].
Proof.
  intros Ht%Z.eqb_neq. unfold sensor_start, read_tamper_slot. rewrite Ht. cbn [negb].
  destruct (container_context _ _ _) as [c cs]. cbn. intros [= <-]. split; [by exists c|]. by eexists.
Qed.

(** ** Docker's answers *)

(** A chunk size of two below 2^64 wraps the bound of the check around: the slice
    that follows is out of range. *)
Lemma dechunk_size_overflow_panics : dechunk (bytes_of_str "fffffffffffffffe" ++ CRLF ++ [120]) = Panicked.
Proof. vm_compute. reflexivity. Qed.
