(* ===== verification/Logs.v ===== *)
(** * Logs: the parsers of service logs (crates/sensors/linux/logs)

    Web access logs ([access.rs], [tokenizer.rs]), the MySQL error log ([mysql.rs]),
    the request signatures and their event ([http.rs]), the window summary
    ([summary.rs]) and the watch for a source that is not understood ([health.rs]).
    Unicode lower-casing is an argument. *)
From stdpp Require Import base gmap strings list.
From Stdlib Require Import ZArith Lia Ascii.
From Stdlib Require String.
From S2P Require Import Prelude Order Str Text Scan Schema Net Fs Utf8.

(** ** [lib.rs] *)

Definition MAX_LINE_BYTES : nat := Z.to_nat (8 * 1024).

Inductive ParseError :=
| MissingField (field : string)
| Unterminated
| BadField (field value : string)
| TrailingData
| Truncated.

Definition is_terminator (a : ascii) : bool := Ascii.eqb a newline || Ascii.eqb a (ascii_of_nat 13).

Definition clamp (line : string) : string * bool :=
  let line := trim_end_byte is_terminator line in
  if (String.length line <=? MAX_LINE_BYTES)%nat then (line, false)
  else (str_take (floor_boundary line MAX_LINE_BYTES) line, true).

(** ** [tokenizer.rs]: the cursor is the rest of the line *)

Definition skip_spaces : string -> string := trim_start_byte is_space.

Definition at_end (rest : string) : bool := str_is_empty (skip_spaces rest).

Definition word (field : string) (rest : string) : result (string * string) ParseError :=
  let rest := skip_spaces rest in
  if str_is_empty rest then Err (MissingField field) else Ok (break_byte is_space rest).

Definition expect_open (open : ascii) (field : string) (rest : string) : result string ParseError :=
  let rest := skip_spaces rest in
  if str_is_empty rest then Err (MissingField field)
  else match strip_prefix (String open EmptyString) rest with
       | Some inner => Ok inner
       | None => Err (BadField field (String.append "expected '" (String open "'")))
       end.

Definition and_then {A B E : Type} (r : result A E) (k : A -> result B E) : result B E :=
  match r with Ok a => k a | Err e => Err e end.
Notation "' p '<-try' m ';' k" := (and_then m (fun x => let 'p := x in k))
  (at level 20, p pattern, m at level 100, k at level 200, right associativity) : edr_scope.
Notation "x '<-try' m ';' k" := (and_then m (fun x => k))
  (at level 20, m at level 100, k at level 200, right associativity) : edr_scope.
#[local] Open Scope edr_scope.

Definition bracketed (field : string) (rest : string) : result (string * string) ParseError :=
  inner <-try expect_open "[" field rest;
  match split_once "]" inner with Some r => Ok r | None => Err Unterminated end.

Definition backslash : ascii := ascii_of_nat 92.

(** A character after a backslash is a byte that is not a quote or a backslash, with
    its continuation bytes, which the loop copies as they are. *)
Fixpoint quoted_loop (inner : string) : result (string * string) ParseError :=
  match inner with
  | EmptyString => Err Unterminated
  | String c rest =>
      if Ascii.eqb c quote then Ok (EmptyString, rest)
      else if Ascii.eqb c backslash then
        match rest with
        | EmptyString => Err Unterminated
        | String e rest =>
            '(out, rest) <-try quoted_loop rest;
            Ok (if Ascii.eqb e quote || Ascii.eqb e backslash then String e out else String backslash (String e out), rest)
        end
      else '(out, rest) <-try quoted_loop rest; Ok (String c out, rest)
  end.
Definition quoted (field : string) (rest : string) : result (string * string) ParseError :=
  inner <-try expect_open quote field rest; quoted_loop inner.

(** ** [access.rs] *)

Inductive AccessFormat := Common | Combined.

Record AccessRecord := mkAccessRecord {
  ar_client : string;
  ar_user : option string;
  ar_time : string;
  ar_request : string;
  ar_status : Z;
  ar_bytes : option Z;
  ar_referer : option string;
  ar_user_agent : option string;
  ar_truncated : bool }.

Definition method (r : AccessRecord) : option string :=
  match str_split space (ar_request r) with m :: _ :: _ => Some m | _ => None end.
Definition target (r : AccessRecord) : option string := str_split space (ar_request r) !! 1%nat.

Definition dash (s : string) : option string := if String.eqb s "-" then None else Some s.

Definition parse_status (status_raw : string) : result Z ParseError :=
  match parse_upto 65535 status_raw with
  | Some s => if (100 <=? s) && (s <=? 599) then Ok s else Err (BadField "status" status_raw)
  | None => Err (BadField "status" status_raw)
  end.
Definition parse_bytes (bytes_raw : string) : result (option Z) ParseError :=
  if String.eqb bytes_raw "-" then Ok None
  else match parse_u64 bytes_raw with Some n => Ok (Some n) | None => Err (BadField "bytes" bytes_raw) end.

Definition parse_clamped (line : string) (truncated : bool) (format : AccessFormat) : result AccessRecord ParseError :=
  '(client, c) <-try word "client" line;
  '(_, c) <-try word "ident" c;
  '(user, c) <-try word "user" c;
  '(time, c) <-try bracketed "time" c;
  '(request, c) <-try quoted "request" c;
  '(status_raw, c) <-try word "status" c;
  status <-try parse_status status_raw;
  '(bytes_raw, c) <-try word "bytes" c;
  nbytes <-try parse_bytes bytes_raw;
  '(referer, user_agent, c) <-try
    match format with
    | Common => Ok (None, None, c)
    | Combined =>
        if truncated && at_end c then Ok (None, None, c)
        else '(referer, c) <-try quoted "referer" c;
             '(user_agent, c) <-try quoted "user_agent" c;
             Ok (dash referer, dash user_agent, c)
    end;
  if negb truncated && negb (at_end c) then Err TrailingData
  else Ok (mkAccessRecord client (dash user) time request status nbytes referer user_agent truncated).

Definition parse_access_line (line : string) (format : AccessFormat) : result AccessRecord ParseError :=
  let '(clamped, truncated) := clamp line in
  match parse_clamped clamped truncated format with
  | Err e => Err (if (truncated : bool) then Truncated else e)
  | ok => ok
  end.

(** ** [mysql.rs] *)

Record MysqlLoginFailure := mkMysqlLoginFailure {
  mf_timestamp : string;
  mf_user : string;
  mf_host : string;
  mf_used_password : option bool;
  mf_truncated : bool }.

Definition MARKER : string := "Access denied for user '".
Definition USING_YES : string := " (using password: YES)".
Definition USING_NO : string := " (using password: NO)".

(** Four digits, a dash, two digits, a dash, two digits. *)
Definition is_date (b : string) : bool :=
  match b with
  | String y1 (String y2 (String y3 (String y4 (String s1 (String m1 (String m2 (String s2 (String d1 (String d2 _))))))))) =>
      is_digit y1 && is_digit y2 && is_digit y3 && is_digit y4 && Ascii.eqb s1 "-" && is_digit m1 && is_digit m2
      && Ascii.eqb s2 "-" && is_digit d1 && is_digit d2
  | _ => false
  end.

Definition timestamp_prefix (head : string) : option string :=
  let head := trim_start head in
  let '(first, rest) := break_byte is_space head in
  if negb (is_date first) then None
  else if (10 <? String.length first)%nat then Some first
  else let after := trim_start_byte is_space rest in
       let '(time, _) := break_byte is_space after in
       if str_is_empty time then None
       else Some (str_take (String.length head - String.length after + String.length time) head).

Definition password_clause (body : string) : string * option bool :=
  match strip_suffix USING_YES body with
  | Some i => (i, Some true)
  | None => match strip_suffix USING_NO body with
            | Some i => (i, Some false)
            | None => (body, None)
            end
  end.

Definition parse_mysql_error_line (line : string) : result (option MysqlLoginFailure) ParseError :=
  let '(line, truncated) := clamp line in
  match split_once MARKER line with
  | None => Ok None
  | Some (head, body) =>
      match timestamp_prefix head with
      | None => Err (MissingField "timestamp")
      | Some timestamp =>
          let '(identity, used_password) := password_clause body in
          match rsplit_once "'@'" identity with
          | None => Err (BadField "host" identity)
          | Some (user, tail) =>
              if str_contains "' to database '" tail then Ok None
              else match strip_suffix "'" tail with
                   | None => Err (BadField "host" tail)
                   | Some host => Ok (Some (mkMysqlLoginFailure timestamp user host used_password truncated))
                   end
          end
      end
  end.

Definition MYSQL_LOG_COMM : string := "mysql-error-log".

Definition to_auth_event (failure : MysqlLoginFailure) (timestamp_ns : Z) : AuthEvent :=
  mkAuthEvent (mkEventMeta 0 0 User_Unknown timestamp_ns MYSQL_LOG_COMM None None None)
    AuthOutcome_Failure AuthKind_LogonFailure (mf_user failure) None (parse_ip (mf_host failure))
    ((fun used : bool => if used then "using_password" else "no_password") <$> mf_used_password failure).

(** ** [http.rs] *)

Definition EVIDENCE_MAX_CHARS : nat := 128.
Definition MAX_PARAM_NAMES : nat := 32.
Definition MAX_NAME_CHARS : nat := 64.
Definition MAX_PATH_CHARS : nat := 512.
Definition HTTP_LOG_COMM : string := "http-access-log".

Definition double_or : string := String quote (String.append " or " (String quote EmptyString)).

Definition SQLI_MARKERS : list string :=
  ["union select"; "union all select"; "' or '"; double_or; "' or 1=1"; " or 1=1"; "'or'1'='1"; "sleep("; "benchmark(";
   "waitfor delay"; "information_schema"; "xp_cmdshell"; "load_file("; "into outfile"; "; drop table"; "extractvalue(";
   "updatexml("].

Definition EXEC_MARKERS : list string :=
  ["base64_decode("; "eval("; "system("; "passthru("; "shell_exec("; "proc_open("; "cmd.exe"; "/bin/sh"; "/bin/bash";
   "wget http"; "curl http"; "uname -a"].

Definition SHELL_COMMANDS : list string := ["id"; "whoami"; "ls"; "pwd"; "ifconfig"; "ipconfig"].

Definition WEBSHELL_STEMS : list string :=
  ["c99"; "r57"; "wso"; "b374k"; "alfa"; "webshell"; "china"; "chopper"; "indoxploit"].

Definition SCANNERS : list (string * string) :=
  [("sqlmap", "sqlmap"); ("nikto", "nikto"); ("masscan", "masscan"); ("nmap scripting engine", "nmap");
   ("wpscan", "wpscan"); ("dirbuster", "dirbuster"); ("gobuster", "gobuster"); ("feroxbuster", "feroxbuster");
   ("ffuf", "ffuf"); ("nuclei", "nuclei"); ("acunetix", "acunetix"); ("nessus", "nessus"); ("openvas", "openvas");
   ("zgrab", "zgrab"); ("havij", "havij"); ("w3af", "w3af"); ("hydra", "hydra")].

Record Match := mkMatch {
  m_signature : HttpSignature;
  m_evidence : option (string * string);
  m_scanner : option string }.

(** The nibble of a hexadecimal digit. *)
Definition hex (b : Z) : option Z :=
  if (48 <=? b) && (b <=? 57) then Some (b - 48)
  else if (97 <=? b) && (b <=? 102) then Some (b - 97 + 10)
  else if (65 <=? b) && (b <=? 70) then Some (b - 65 + 10)
  else None.

(** The loop over the bytes: [%] with two digits behind it, [+], any other byte. *)
Fixpoint percent_decode_bytes (l : bytes) : bytes :=
  match l with
  | [] => []
  | b :: l1 =>
      if b =? 37 then
        match l1 with
        | h :: lo :: l3 =>
            match hex h, hex lo with
            | Some x, Some y => Z.lor (Z.shiftl x 4) y :: percent_decode_bytes l3
            | _, _ => b :: percent_decode_bytes l1
            end
        | _ => b :: percent_decode_bytes l1
        end
      else if b =? 43 then 32 :: percent_decode_bytes l1
      else b :: percent_decode_bytes l1
  end.
Definition percent_decode (s : string) : string := from_utf8_lossy (percent_decode_bytes (bytes_of_str s)).

Definition truncate_chars (s : string) (max : nat) : string := cat (take max (str_chars s)).

Definition split_target (t : string) : string * list (string * string) :=
  let '(path, query) := default (t, EmptyString) (split_once "?" t) in
  (path, (fun p => default (p, EmptyString) (split_once "=" p))
         <$> filter (fun p => p <> EmptyString) (str_split "&" query)).

Definition has_traversal (normalized : string) : bool :=
  str_contains "../" normalized || str_contains (String.append ".." (String backslash EmptyString)) normalized
  || ends_with "/.." normalized.

Definition file_stem (p : string) : string :=
  let name := match rsplit_byte is_slash p with Some (_, n) => n | None => p end in before_first "." name.

Definition evidence_match (signature : HttpSignature) (p : string * string) : Match :=
  mkMatch signature (Some (truncate_chars p.1 MAX_NAME_CHARS, truncate_chars p.2 EVIDENCE_MAX_CHARS)) None.

Section Signatures.
(** [str::to_lowercase]. *)
Context (lower : string -> string).

Definition normalize (s : string) : string :=
  let decoded := lower (percent_decode (percent_decode s)) in
  let decoded := str_replace "/**/" " " decoded in
  String.concat " " (split_whitespace decoded).

Definition is_sqli (p : string * string) : bool := existsb (fun m => str_contains m (normalize p.2)) SQLI_MARKERS.
Definition is_webshell (p : string * string) : bool :=
  existsb (fun m => str_contains m (normalize p.2)) EXEC_MARKERS || one_of SHELL_COMMANDS (normalize p.2).

Definition scanner_of (record : AccessRecord) : option Match :=
  agent ← lower <$> ar_user_agent record;
  (fun s => mkMatch HttpSignature_ScannerUserAgent None (Some s.2))
    <$> List.find (fun s => str_contains s.1 agent) SCANNERS.

Definition match_request (record : AccessRecord) : option Match :=
  t ← target record;
  let '(path, params) := split_target t in
  let norm_path := normalize path in
  match List.find is_sqli params with
  | Some p => Some (evidence_match HttpSignature_SqlInjection p)
  | None =>
  if has_traversal norm_path then Some (mkMatch HttpSignature_PathTraversal None None) else
  match List.find (fun p => has_traversal (normalize p.2)) params with
  | Some p => Some (evidence_match HttpSignature_PathTraversal p)
  | None =>
  match List.find is_webshell params with
  | Some p => Some (evidence_match HttpSignature_WebshellLike p)
  | None =>
  if (200 <=? ar_status record) && (ar_status record <? 300) && one_of WEBSHELL_STEMS (file_stem norm_path)
  then Some (mkMatch HttpSignature_WebshellLike None None)
  else scanner_of record
  end end end.

Definition to_http_request_event (record : AccessRecord) (matched : Match) (now_ns : Z) : HttpRequestEvent :=
  let '(path, params) := split_target (default EmptyString (target record)) in
  mkHttpRequestEvent (mkEventMeta 0 0 User_Unknown now_ns HTTP_LOG_COMM None None None)
    (parse_ip (ar_client record)) (method record) (truncate_chars path MAX_PATH_CHARS)
    ((fun p => truncate_chars p.1 MAX_NAME_CHARS) <$> take MAX_PARAM_NAMES params)
    (ar_status record) (m_signature matched)
    ((fun e => mkHttpEvidence e.1 e.2) <$> m_evidence matched) (m_scanner matched) (ar_truncated record).
End Signatures.

(** ** [summary.rs] *)

Definition WINDOW_SECS : Z := 60.
Definition MAX_TRACKED_CLIENTS : nat := Z.to_nat 4096.
Definition TOP_CLIENTS : nat := 5.

Record Summarizer := mkSummarizer {
  sm_source : string;
  sm_window_ns : Z;
  sm_window_start_ns : option Z;
  sm_requests : Z;
  sm_status_4xx : Z;
  sm_status_5xx : Z;
  sm_clients : gmap IpAddr Z }.

Definition Summarizer_new (source : string) : Summarizer :=
  mkSummarizer source (WINDOW_SECS * 1000000000) None 0 0 0 ∅.

(** [u32::saturating_add]. *)
Definition sat_add32 (a b : Z) : Z := Z.min (a + b) U32_MAX.

Definition is_4xx (status : Z) : bool := (400 <=? status) && (status <=? 499).
Definition is_5xx (status : Z) : bool := (500 <=? status) && (status <=? 599).
Definition bool_u32 (b : bool) : Z := if b then 1 else 0.

Definition track_client (client : string) (failed : bool) (clients : gmap IpAddr Z) : gmap IpAddr Z :=
  match parse_ip client with
  | None => clients
  | Some ip =>
      match clients !! ip with
      | Some failures => <[ip := sat_add32 failures (bool_u32 failed)]> clients
      | None => if (size clients <? MAX_TRACKED_CLIENTS)%nat then <[ip := bool_u32 failed]> clients else clients
      end
  end.

Definition sm_observe (s : Summarizer) (record : AccessRecord) (now_ns : Z) : Summarizer :=
  let failed4 := is_4xx (ar_status record) in
  let failed5 := is_5xx (ar_status record) in
  mkSummarizer (sm_source s) (sm_window_ns s) (Some (default now_ns (sm_window_start_ns s)))
    (sat_add32 (sm_requests s) 1)
    (if failed4 then sat_add32 (sm_status_4xx s) 1 else sm_status_4xx s)
    (if failed5 then sat_add32 (sm_status_5xx s) 1 else sm_status_5xx s)
    (track_client (ar_client record) (failed4 || failed5) (sm_clients s)).

(** [Ipv4Addr] before [Ipv6Addr], then by octets. *)
Definition ip_cmp (a b : IpAddr) : comparison :=
  match a, b with
  | V4 x, V4 y | V6 x, V6 y => Z.compare x y
  | V4 _, V6 _ => Lt
  | V6 _, V4 _ => Gt
  end.
(** [b.failures.cmp(&a.failures).then(a.client.cmp(&b.client))]. *)
Definition rank_cmp (a b : HttpClientCount) : comparison :=
  match Z.compare (http_client_count_failures b) (http_client_count_failures a) with
  | Eq => ip_cmp (http_client_count_client a) (http_client_count_client b)
  | c => c
  end.

Lemma ip_cmp_eq a b : ip_cmp a b = Eq <-> a = b.
Proof.
  destruct a, b; simpl; rewrite ?Z.compare_eq_iff; split; congruence.
Qed.

Lemma ip_cmp_opp a b : ip_cmp a b = CompOpp (ip_cmp b a).
Proof. destruct a, b; simpl; try done; apply Z.compare_antisym. Qed.

Lemma ip_cmp_trans a b c : ip_cmp a b = Lt -> ip_cmp b c = Lt -> ip_cmp a c = Lt.
Proof. destruct a, b, c; simpl; try done; rewrite !Z.compare_lt_iff; lia. Qed.

#[global] Program Instance rank : TotalCmp HttpClientCount := {| cmp := rank_cmp |}.
Next Obligation.
  intros [c1 f1] [c2 f2]. unfold rank_cmp. simpl. destruct (Z.compare_spec f2 f1) as [->|H|H].
  - rewrite ip_cmp_eq. split; congruence.
  - split; [done|]. intros [= -> ->]. lia.
  - split; [done|]. intros [= -> ->]. lia.
Qed.
Next Obligation.
  intros [c1 f1] [c2 f2]. unfold rank_cmp. simpl. rewrite (Z.compare_antisym f1 f2).
  destruct (Z.compare f1 f2); simpl; try done. apply ip_cmp_opp.
Qed.
Next Obligation.
  intros [c1 f1] [c2 f2] [c3 f3]. unfold rank_cmp. simpl.
  destruct (Z.compare_spec f2 f1), (Z.compare_spec f3 f2), (Z.compare_spec f3 f1); try done; try lia.
  apply ip_cmp_trans.
Qed.

Definition ranked (clients : gmap IpAddr Z) : list HttpClientCount :=
  take TOP_CLIENTS
    (cmp_sort ((fun c => mkHttpClientCount c.1 c.2) <$> filter (fun c => 0 < c.2) (map_to_list clients))).

Definition sm_tick (s : Summarizer) (now_ns : Z) : option HttpSummaryEvent * Summarizer :=
  match sm_window_start_ns s with
  | None => (None, s)
  | Some start =>
      if sat_sub now_ns start <? sm_window_ns s then (None, s)
      else
        (Some (mkHttpSummaryEvent (mkEventMeta 0 0 User_Unknown now_ns HTTP_LOG_COMM None None None)
                 (sm_source s) WINDOW_SECS (sm_requests s) (sm_status_4xx s) (sm_status_5xx s)
                 (Z.min (Z.of_nat (size (sm_clients s))) U32_MAX) (ranked (sm_clients s))),
         mkSummarizer (sm_source s) (sm_window_ns s) None 0 0 0 ∅)
  end.

(** ** [health.rs] *)

Definition MIN_LINES : Z := 10.
Record Misparse := mkMisparse { mis_parsed : Z; mis_failed : Z }.
Record MisparseWatch := mkMisparseWatch {
  mw_window_start_ns : option Z;
  mw_parsed : Z;
  mw_failed : Z;
  mw_reported : bool }.
Definition MisparseWatch_new : MisparseWatch := mkMisparseWatch None 0 0 false.

Definition mw_record (w : MisparseWatch) (ok : bool) (now_ns : Z) : MisparseWatch :=
  let start := Some (default now_ns (mw_window_start_ns w)) in
  if ok then mkMisparseWatch start (sat_add32 (mw_parsed w) 1) (mw_failed w) (mw_reported w)
  else mkMisparseWatch start (mw_parsed w) (sat_add32 (mw_failed w) 1) (mw_reported w).

Definition mw_tick (w : MisparseWatch) (now_ns : Z) : option Misparse * MisparseWatch :=
  match mw_window_start_ns w with
  | None => (None, w)
  | Some start =>
      if sat_sub now_ns start <? 60 * 1000000000 then (None, w)
      else
        let parsed := mw_parsed w in
        let failed := mw_failed w in
        let total := sat_add32 parsed failed in
        let misparsing := (MIN_LINES <=? total) && (total <=? Z.min (failed * 2) U32_MAX) in
        if misparsing && negb (mw_reported w) then (Some (mkMisparse parsed failed), mkMisparseWatch None 0 0 true)
        else (None, mkMisparseWatch None 0 0 (if negb misparsing then false else mw_reported w))
  end.
