(* ===== verification/LogTheorems.v ===== *)
(** * LogTheorems: what the log parsers promise

    A line whose text an attacker chose cannot move the fields around it; the event
    of a request is reduced; a window's summary is exact. *)
From stdpp Require Import base gmap strings list sorting.
From Stdlib Require Import ZArith Lia Ascii.
From Stdlib Require String.
From S2P Require Import Prelude Order Str Text Scan Schema Net Fs Utf8 Logs.
#[local] Open Scope string_scope.
#[local] Open Scope Z_scope.
#[local] Open Scope edr_scope.
#[local] Arguments String.append !_ _ / : simpl nomatch.

(** ** Access logs *)

(** The servers that write the format, and how each writes a byte of a client's text
    between quotes: Apache escapes a quote and a backslash by a backslash, five control
    characters by their letter and every other byte outside the printable range as
    [\xhh]; nginx writes all of them as [\xHH]. *)
Inductive LogServer := Apache | Nginx.

Definition hex_char (upper : bool) (n : nat) : ascii :=
  ascii_of_nat (if (n <? 10)%nat then 48 + n else (if upper then 55 else 87) + n).
Definition hex_escape (upper : bool) (a : ascii) : string :=
  let n := nat_of_ascii a in
  String backslash (String "x" (String (hex_char upper (n / 16)) (String (hex_char upper (n mod 16)) EmptyString))).
Definition printable (a : ascii) : bool := let n := nat_of_ascii a in (32 <=? n)%nat && (n <=? 126)%nat.
Definition control_letter (a : ascii) : option ascii :=
  match nat_of_ascii a with
  | 8 => Some "b"%char | 9 => Some "t"%char | 10 => Some "n"%char | 11 => Some "v"%char | 13 => Some "r"%char
  | _ => None
  end%nat.
Definition is_markup (a : ascii) : bool := Ascii.eqb a quote || Ascii.eqb a backslash.

Definition logged_char (srv : LogServer) (a : ascii) : string :=
  match srv with
  | Apache =>
      if is_markup a then String backslash (String a EmptyString)
      else if printable a then String a EmptyString
      else match control_letter a with
           | Some c => String backslash (String c EmptyString)
           | None => hex_escape false a
           end
  | Nginx => if is_markup a || negb (printable a) then hex_escape true a else String a EmptyString
  end.
(** How the sensor reads it back: Apache's two escapes of markup are undone, all other
    escapes stay as they are in the log. *)
Definition read_char (srv : LogServer) (a : ascii) : string :=
  match srv with
  | Apache => if is_markup a then String a EmptyString else logged_char Apache a
  | Nginx => logged_char Nginx a
  end.
Fixpoint str_bind (f : ascii -> string) (s : string) : string :=
  match s with EmptyString => EmptyString | String a s => f a +:+ str_bind f s end.
Definition logged (srv : LogServer) (s : string) : string := str_bind (logged_char srv) s.
Definition read_text (srv : LogServer) (s : string) : string := str_bind (read_char srv) s.

Definition quote_field (srv : LogServer) (s : string) : string := String quote (logged srv s +:+ String quote EmptyString).
Definition or_dash (o : option string) : string := default "-" o.

(** The [combined] format. *)
Definition combined_line (srv : LogServer) (r : AccessRecord) : string :=
  ar_client r +:+ " - " +:+ or_dash (ar_user r) +:+ " [" +:+ ar_time r +:+ "] " +:+ quote_field srv (ar_request r)
  +:+ " " +:+ show_u64 (ar_status r) +:+ " " +:+ or_dash (show_u64 <$> ar_bytes r)
  +:+ " " +:+ quote_field srv (or_dash (ar_referer r)) +:+ " " +:+ quote_field srv (or_dash (ar_user_agent r)).

(** A request as it is read back: the client's text in the form of [read_text], a
    header that is missing or a dash as none. *)
Definition read_header (srv : LogServer) (o : option string) : option string :=
  match o with Some t => if String.eqb t "-" then None else Some (read_text srv t) | None => None end.
Definition read_record (srv : LogServer) (r : AccessRecord) : AccessRecord :=
  mkAccessRecord (ar_client r) (ar_user r) (ar_time r) (read_text srv (ar_request r)) (ar_status r) (ar_bytes r)
    (read_header srv (ar_referer r)) (read_header srv (ar_user_agent r)) false.

Definition is_word (s : string) : bool := negb (str_is_empty s) && str_all (fun a => negb (is_space a)) s.

(** Fields a server writes: words without a space, a time without a bracket; the
    request, the referer and the user agent are any text. *)
Definition loggable (srv : LogServer) (r : AccessRecord) : Prop :=
  is_word (ar_client r) = true /\ is_word (or_dash (ar_user r)) = true /\ ar_user r <> Some "-"
  /\ str_all (not_byte "]") (ar_time r) = true /\ 100 <= ar_status r <= 599
  /\ (forall n, ar_bytes r = Some n -> 0 <= n <= U64_MAX)
  /\ (String.length (combined_line srv r) <= MAX_LINE_BYTES)%nat.

Lemma skip_space s : skip_spaces (String space s) = skip_spaces s.
Proof. done. Qed.

Lemma space_app s : " " +:+ s = String space s.
Proof. done. Qed.

Lemma skip_word w s : is_word w = true -> skip_spaces (w +:+ s) = w +:+ s.
Proof.
  unfold is_word. destruct w as [|a w]; [done|]. simpl. intros [Ha _]%andb_true_iff.
  unfold skip_spaces. simpl. by destruct (is_space a).
Qed.

Lemma word_app f w s :
  is_word w = true -> (match s with EmptyString => true | String a _ => is_space a end) = true ->
  word f (w +:+ s) = Ok (w, s).
Proof.
  intros Hw Hs. unfold word. rewrite skip_word by done.
  unfold is_word in Hw. apply andb_true_iff in Hw as [Hne Hw].
  assert (str_is_empty (w +:+ s) = false) as -> by (by destruct w). by rewrite break_byte_app.
Qed.

Lemma word_space f s : word f (String space s) = word f s.
Proof. unfold word. by rewrite skip_space. Qed.

(** Evaluates the escape of a given byte. *)
#[local] Ltac eval_escape :=
  repeat match goal with
  | |- context [logged_char ?srv ?a] =>
      let v := eval vm_compute in (logged_char srv a) in change (logged_char srv a) with v
  | |- context [read_char ?srv ?a] =>
      let v := eval vm_compute in (read_char srv a) in change (read_char srv a) with v
  end.

Lemma quoted_loop_char srv a tail :
  quoted_loop (logged_char srv a +:+ tail) = '(out, rest) <-try quoted_loop tail; Ok (read_char srv a +:+ out, rest).
Proof.
  destruct srv, a as [[] [] [] [] [] [] [] []]; eval_escape; cbn; destruct (quoted_loop tail) as [[out rest]|e]; reflexivity.
Qed.

Lemma quoted_loop_logged srv s rest : quoted_loop (logged srv s +:+ String quote rest) = Ok (read_text srv s, rest).
Proof.
  induction s as [|a s IH]; [reflexivity|]. unfold logged, read_text in *. cbn [str_bind].
  by rewrite str_app_assoc, quoted_loop_char, IH.
Qed.

Lemma quoted_app srv f s rest : quoted f (String space (quote_field srv s +:+ rest)) = Ok (read_text srv s, rest).
Proof.
  unfold quoted, expect_open, quote_field. rewrite skip_space. simpl.
  rewrite str_app_assoc. simpl. apply quoted_loop_logged.
Qed.

(** Only a dash reads as a dash. *)
Lemma read_char_shape srv a :
  exists b t, read_char srv a = String b t /\ (b = "-"%char -> t = EmptyString -> a = "-"%char).
Proof. destruct srv, a as [[] [] [] [] [] [] [] []]; eval_escape; do 2 eexists; (split; [reflexivity|]); congruence. Qed.

Lemma read_dash srv o : dash (read_text srv (or_dash o)) = read_header srv o.
Proof.
  destruct o as [t|]; [|destruct srv; reflexivity]. unfold dash, read_header, or_dash. change (default "-" (Some t)) with t.
  destruct (String.eqb_spec t "-") as [->|Hne]; [by destruct srv|].
  destruct (String.eqb_spec (read_text srv t) "-") as [E|]; [|done]. destruct Hne.
  destruct t as [|a t]; [done|]. unfold read_text in E. cbn [str_bind] in E.
  destruct (read_char_shape srv a) as (b & u & Ea & Hb). rewrite Ea in E. injection E as -> E.
  destruct u; [|done]. rewrite (Hb eq_refl eq_refl). destruct t as [|c t]; [done|]. cbn in E.
  destruct (read_char_shape srv c) as (b' & u' & Ec & _). by rewrite Ec in E.
Qed.

Lemma bracketed_app f t rest :
  str_all (not_byte "]") t = true -> bracketed f (String space (String "[" (t +:+ String "]" rest))) = Ok (t, rest).
Proof.
  intros Ht. unfold bracketed, expect_open. rewrite skip_space. simpl.
  change (String "]" rest) with (String "]" EmptyString +:+ rest). by rewrite split_once_first.
Qed.

Lemma show_word z : is_word (show_u64 z) = true.
Proof.
  unfold is_word. apply andb_true_iff. split; [pose proof (show_nonempty z); by destruct (show_u64 z)|].
  eapply str_all_impl; [|exact (show_digits z)]. intros a Ha.
  unfold is_space. destruct (Ascii.eqb_spec a space) as [->|]; [done|done].
Qed.

Lemma show_not_dash z : String.eqb (show_u64 z) "-" = false.
Proof.
  apply String.eqb_neq. intros E. pose proof (show_digits z) as H. by rewrite E in H.
Qed.

Lemma parse_status_show z : 100 <= z <= 599 -> parse_status (show_u64 z) = Ok z.
Proof.
  intros Hz. unfold parse_status, parse_upto. rewrite parse_show by (unfold U64_MAX; lia). simpl.
  destruct (Z.leb_spec z 65535); [|lia].
  by destruct (Z.leb_spec 100 z), (Z.leb_spec z 599); try lia.
Qed.

Lemma parse_bytes_show o :
  (forall n, o = Some n -> 0 <= n <= U64_MAX) -> parse_bytes (or_dash (show_u64 <$> o)) = Ok o.
Proof.
  destruct o as [n|]; [|done]. intros Hn. unfold parse_bytes. simpl. rewrite show_not_dash.
  by rewrite parse_show by (by apply Hn).
Qed.

Lemma dash_or o : o <> Some "-" -> dash (or_dash o) = o.
Proof.
  destruct o as [s|]; [|done]. intros Hs. unfold dash, or_dash. simpl.
  destruct (String.eqb_spec s "-") as [->|]; [done|done].
Qed.

Lemma bytes_word o : is_word (or_dash (show_u64 <$> o)) = true.
Proof. destruct o; [apply show_word|done]. Qed.

Lemma clamp_short s a :
  is_terminator a = false -> (String.length (s +:+ String a EmptyString) <= MAX_LINE_BYTES)%nat ->
  clamp (s +:+ String a EmptyString) = (s +:+ String a EmptyString, false).
Proof.
  intros Ha Hl. unfold clamp. rewrite trim_end_byte_keeps by done. by rewrite (proj2 (Nat.leb_le _ _) Hl).
Qed.

(** A line ends with the closing quote of its last field. *)
Lemma combined_line_ends srv r : exists s, combined_line srv r = s +:+ String quote EmptyString.
Proof.
  unfold combined_line. set (q := quote_field srv (or_dash (ar_user_agent r))).
  assert (exists t, q = t +:+ String quote EmptyString) as [t ->]
    by (exists (String quote (logged srv (or_dash (ar_user_agent r)))); done).
  eexists. rewrite <- !str_app_assoc. reflexivity.
Qed.


Definition sample_record : AccessRecord :=
  mkAccessRecord "203.0.113.9" None "10/Oct/2026:13:55:36 +0000"
    ("GET /?q=" +:+ String quote " 200 1" +:+ String backslash " HTTP/1.1") 404 (Some 512) None
    (Some ("x" +:+ String quote (String newline "127.0.0.1 - - "))) false.


(** ** The MySQL error log *)

Definition clause_text (used : option bool) : string :=
  match used with Some true => USING_YES | Some false => USING_NO | None => EmptyString end.
(** A refused login as the server writes it: the user name is what the client sent,
    unescaped. *)
Definition denied_line (head user host : string) (used : option bool) : string :=
  head +:+ MARKER +:+ user +:+ "'@'" +:+ host +:+ "'" +:+ clause_text used.

(** A host name or address: neither a quote nor an at sign. *)
Definition is_host (host : string) : bool := str_all (fun a => not_byte "'" a && not_byte "@" a) host.

Lemma str_snoc_inj a b x y : a +:+ String x EmptyString = b +:+ String y EmptyString -> a = b /\ x = y.
Proof.
  revert b. induction a as [|c a IH]; intros [|d b]; simpl.
  - by intros [= ->].
  - intros [= -> E]. by destruct b.
  - intros [= -> E]. by destruct a.
  - intros [= -> E]. apply IH in E as [-> ->]. done.
Qed.

Lemma strip_suffix_neq s p x y : x <> y -> strip_suffix (p +:+ String x EmptyString) (s +:+ String y EmptyString) = None.
Proof.
  intros Hxy. destruct (strip_suffix _ _) as [r|] eqn:E; [|done]. apply strip_suffix_some in E.
  rewrite <- str_app_assoc in E. apply str_snoc_inj in E as [_ E]. congruence.
Qed.

Lemma password_clause_print s used : password_clause ((s +:+ "'") +:+ clause_text used) = (s +:+ "'", used).
Proof.
  unfold password_clause. destruct used as [[]|]; simpl clause_text.
  - by rewrite strip_suffix_app.
  - assert (strip_suffix USING_YES ((s +:+ "'") +:+ USING_NO) = None) as ->.
    { destruct (strip_suffix _ _) as [r|] eqn:E; [|done]. apply strip_suffix_some in E.
      change USING_YES with ((" (using password: YE" +:+ "S") +:+ ")") in E.
      change USING_NO with ((" (using password: N" +:+ "O") +:+ ")") in E.
      rewrite <- !str_app_assoc in E. apply str_snoc_inj in E as [E _]. apply str_snoc_inj in E as [_ E]. done. }
    by rewrite strip_suffix_app.
  - rewrite str_app_nil_r. change "'" with (String "'" EmptyString).
    change USING_YES with (" (using password: YES" +:+ ")"). change USING_NO with (" (using password: NO" +:+ ")").
    by rewrite !strip_suffix_neq.
Qed.

Lemma contains_skip c p x y :
  str_all (not_byte c) x = true -> str_contains (String c p) (x +:+ y) = str_contains (String c p) y.
Proof.
  induction x as [|a x IH]; [done|]. cbn [str_all]. intros [Ha Hx]%andb_true_iff.
  change (String a x +:+ y) with (String a (x +:+ y)). cbn [str_contains]. unfold starts_with. cbn [strip_prefix].
  unfold not_byte in Ha. rewrite Ascii.eqb_sym. destruct (Ascii.eqb a c); [done|]. simpl. by apply IH.
Qed.

Lemma host_no_quote host : is_host host = true -> str_all (not_byte "'") host = true.
Proof. apply str_all_impl. intros a [H _]%andb_true_iff. done. Qed.

Lemma identity_split user host : is_host host = true -> rsplit_once "'@'" (user +:+ "'@'" +:+ host +:+ "'") = Some (user, host +:+ "'").
Proof.
  intros Hh. apply rsplit_once_last. destruct host as [|h host]; [reflexivity|].
  pose proof (host_no_quote _ Hh) as Hq. cbn [is_host str_all] in Hh. apply andb_true_iff in Hh as [Ha _].
  apply andb_true_iff in Ha as [_ Ha].
  change ("@'" +:+ String h host +:+ "'") with ("@" +:+ (String "'" (String h host +:+ "'"))).
  rewrite (contains_skip "'" "@'" "@") by done. cbn [str_contains].
  rewrite (contains_skip "'" "@'" (String h host)) by done.
  assert (starts_with "'@'" (String "'" (String h host +:+ "'")) = false) as ->; [|reflexivity].
  unfold starts_with, not_byte in *. change (String h host +:+ "'") with (String h (host +:+ "'")).
  cbn [strip_prefix]. rewrite Ascii.eqb_refl, Ascii.eqb_sym. by destruct (Ascii.eqb h "@").
Qed.

Lemma denied_line_ends head user host used : exists s a, denied_line head user host used = s +:+ String a EmptyString /\ is_terminator a = false.
Proof.
  unfold denied_line. destruct used as [[]|]; simpl clause_text.
  - eexists _, ")"%char. split; [|done]. change USING_YES with (" (using password: YES" +:+ String ")" EmptyString).
    rewrite <- !str_app_assoc. reflexivity.
  - eexists _, ")"%char. split; [|done]. change USING_NO with (" (using password: NO" +:+ String ")" EmptyString).
    rewrite <- !str_app_assoc. reflexivity.
  - eexists _, "'"%char. split; [|done]. change "'" with (String "'" EmptyString). rewrite str_app_nil_r, <- !str_app_assoc. reflexivity.
Qed.

(** C32. The user name of a refused login is the client's text and the server does not
    escape it.  For every user name, the line reads back as that user, the host the
    server saw and the password clause: a name that imitates the rest of the line,
    or another line, does not change them. *)
Theorem mysql_identity_exact head user host used ts :
  str_all (not_byte "A") head = true -> timestamp_prefix head = Some ts -> is_host host = true ->
  (String.length (denied_line head user host used) <= MAX_LINE_BYTES)%nat ->
  parse_mysql_error_line (denied_line head user host used) = Ok (Some (mkMysqlLoginFailure ts user host used false)).
Proof.
  intros Hh Hts Hhost Hl. destruct (denied_line_ends head user host used) as (s & a & Es & Ha).
  unfold parse_mysql_error_line. rewrite Es in Hl |- *. rewrite clamp_short by done. rewrite <- Es. clear Es Hl Ha.
  unfold denied_line. change MARKER with (String "A" "ccess denied for user '"). rewrite split_once_first by done.
  rewrite Hts. replace (user +:+ "'@'" +:+ host +:+ "'" +:+ clause_text used)
    with (((user +:+ "'@'" +:+ host) +:+ "'") +:+ clause_text used) by (by rewrite !str_app_assoc).
  rewrite password_clause_print. replace ((user +:+ "'@'" +:+ host) +:+ "'") with (user +:+ "'@'" +:+ host +:+ "'")
    by (by rewrite !str_app_assoc).
  rewrite identity_split by done. rewrite contains_skip by (by apply host_no_quote). cbn [str_contains starts_with strip_prefix].
  by rewrite strip_suffix_app.
Qed.

Lemma mysql_identity_exact_witness :
  parse_mysql_error_line
    (denied_line "2026-10-02  9:26:33 31 [Warning] " "x'@'10.0.0.1' to database 'y'@'z" "203.0.113.9" (Some true))
  = Ok (Some (mkMysqlLoginFailure "2026-10-02  9:26:33" "x'@'10.0.0.1' to database 'y'@'z" "203.0.113.9" (Some true) false)).
Proof.
  apply mysql_identity_exact; [reflexivity..|]. apply Nat.leb_le. vm_compute. reflexivity.
Defined.

(** ** Requests *)

Lemma cat_cons c cs : cat (c :: cs) = c +:+ cat cs.
Proof. done. Qed.

(** The characters of a string are not empty. *)
Lemma str_chars_cons a s : exists c cs, str_chars (String a s) = String a c :: cs.
Proof.
  cbn [str_chars]. destruct (str_chars s) as [|c cs]; [by eexists _, _|].
  destruct s as [|b s]; [by eexists _, _|]. destruct (starts_char b); by eexists _, _.
Qed.

Lemma str_chars_step a b s c cs :
  str_chars (String b s) = c :: cs ->
  str_chars (String a (String b s)) = if starts_char b then String a EmptyString :: c :: cs else String a c :: cs.
Proof. intros E. remember (String b s) as t eqn:Ht. cbn [str_chars]. by rewrite E, Ht. Qed.

Lemma str_chars_take n s : str_chars (cat (take n (str_chars s))) = take n (str_chars s).
Proof.
  revert n. induction s as [|a s IH]; intros [|n]; [done..|].
  destruct s as [|b s']; [by destruct n|]. destruct (str_chars_cons b s') as (c & cs & E).
  rewrite (str_chars_step a b s' _ _ E). destruct (starts_char b) eqn:Hb; cbn [take]; rewrite cat_cons.
  - specialize (IH n). rewrite E in IH. destruct n as [|n]; [done|]. cbn [take] in *. rewrite cat_cons in *.
    change (String b c +:+ cat (take n cs)) with (String b (c +:+ cat (take n cs))) in *.
    change (String a EmptyString +:+ ?x) with (String a x). rewrite (str_chars_step a b _ _ _ IH). by rewrite Hb.
  - specialize (IH (S n)). rewrite E in IH. cbn [take] in *. rewrite cat_cons in *.
    change (String b c +:+ cat (take n cs)) with (String b (c +:+ cat (take n cs))) in IH.
    change (String a (String b c) +:+ cat (take n cs)) with (String a (String b (c +:+ cat (take n cs)))).
    rewrite (str_chars_step a b _ _ _ IH). by rewrite Hb.
Qed.

Lemma truncate_chars_le s n : (length (str_chars (truncate_chars s n)) <= n)%nat.
Proof. unfold truncate_chars. rewrite str_chars_take, length_take. lia. Qed.

Section Requests.
Context (lower : string -> string).
#[local] Opaque SCANNERS one_of.

(** What a signature says of a request with this path and these parameters. *)
Definition signature_holds (r : AccessRecord) (path : string) (params : list (string * string)) (s : HttpSignature) : Prop :=
  match s with
  | HttpSignature_SqlInjection => Exists (fun p => is_sqli lower p = true) params
  | HttpSignature_PathTraversal =>
      has_traversal (normalize lower path) = true \/ Exists (fun p => has_traversal (normalize lower p.2) = true) params
  | HttpSignature_WebshellLike =>
      Exists (fun p => is_webshell lower p = true) params
      \/ (200 <= ar_status r < 300 /\ one_of WEBSHELL_STEMS (file_stem (normalize lower path)) = true)
  | HttpSignature_ScannerUserAgent =>
      exists agent, ar_user_agent r = Some agent /\ Exists (fun s => str_contains s.1 (lower agent) = true) SCANNERS
  end.

(** Every value but the evidence's is gone: an event is the same for any other values
    of the parameters. *)
Definition same_shape (r r' : AccessRecord) : Prop :=
  ar_client r' = ar_client r /\ method r' = method r /\ ar_status r' = ar_status r /\ ar_truncated r' = ar_truncated r
  /\ (split_target (default EmptyString (target r'))).1 = (split_target (default EmptyString (target r))).1
  /\ (split_target (default EmptyString (target r'))).2.*1 = (split_target (default EmptyString (target r))).2.*1.

Lemma find_Exists {A} (f : A -> bool) l a : List.find f l = Some a -> a ∈ l /\ f a = true.
Proof. intros [H1 H2]%find_some. by rewrite list_elem_of_In. Qed.

Lemma find_Exists_none {A} (f : A -> bool) l : List.find f l = None -> ~ Exists (fun a => f a = true) l.
Proof. intros H (a & Ha & Hf)%Exists_exists. apply (find_none f) with (x := a) in H; [congruence|]. by apply list_elem_of_In. Qed.

(** The parameter the evidence of a match was taken from. *)
Definition makes (s : HttpSignature) (p : string * string) : bool :=
  match s with
  | HttpSignature_SqlInjection => is_sqli lower p
  | HttpSignature_PathTraversal => has_traversal (normalize lower p.2)
  | HttpSignature_WebshellLike => is_webshell lower p
  | HttpSignature_ScannerUserAgent => false
  end.
Definition evidence_ok (params : list (string * string)) (m : Match) : Prop :=
  match m_evidence m with
  | None => True
  | Some e => exists p, p ∈ params /\ makes (m_signature m) p = true
                     /\ e = (truncate_chars p.1 MAX_NAME_CHARS, truncate_chars p.2 EVIDENCE_MAX_CHARS)
  end.

Lemma names_of_params (ps : list (string * string)) :
  (fun p => truncate_chars p.1 MAX_NAME_CHARS) <$> take MAX_PARAM_NAMES ps
  = (fun n => truncate_chars n MAX_NAME_CHARS) <$> take MAX_PARAM_NAMES ps.*1.
Proof. rewrite <- fmap_take. by rewrite <- list_fmap_compose. Qed.

Lemma match_request_sound r t m :
  target r = Some t -> match_request lower r = Some m ->
  signature_holds r (split_target t).1 (split_target t).2 (m_signature m) /\ evidence_ok (split_target t).2 m.
Proof.
  intros Ht. unfold match_request. rewrite Ht. simpl. destruct (split_target t) as [path params]. simpl.
  destruct (List.find (is_sqli lower) params) as [p|] eqn:E1.
  { apply find_Exists in E1 as [Hp Hs]. intros [= <-]. simpl. split; [apply Exists_exists; eauto|by exists p]. }
  destruct (has_traversal (normalize lower path)) eqn:E2; [intros [= <-]; simpl; split; [by left|done]|].
  destruct (List.find (fun p => has_traversal (normalize lower p.2)) params) as [p|] eqn:E3.
  { apply find_Exists in E3 as [Hp Hs]. intros [= <-]. simpl. split; [right; apply Exists_exists; eauto|by exists p]. }
  destruct (List.find (is_webshell lower) params) as [p|] eqn:E4.
  { apply find_Exists in E4 as [Hp Hs]. intros [= <-]. simpl. split; [left; apply Exists_exists; eauto|by exists p]. }
  destruct (_ && _ && _) eqn:E5.
  { intros [= <-]. simpl. apply andb_true_iff in E5 as [[H1 H2]%andb_true_iff H3]. split; [right|done]. split; [lia|done]. }
  unfold scanner_of. destruct (ar_user_agent r) as [agent|] eqn:Eu; [|done]. simpl.
  destruct (List.find _ SCANNERS) as [sc|] eqn:E6; [|done]. apply find_Exists in E6 as [Hs1 Hs2].
  intros [= <-]. simpl. split; [|done]. exists agent. split; [done|]. apply Exists_exists. eauto.
Qed.

Lemma match_request_complete r t s :
  target r = Some t -> match_request lower r = None -> ~ signature_holds r (split_target t).1 (split_target t).2 s.
Proof.
  intros Ht. unfold match_request. rewrite Ht. simpl. destruct (split_target t) as [path params]. simpl.
  destruct (List.find (is_sqli lower) params) eqn:E1; [done|].
  destruct (has_traversal (normalize lower path)) eqn:E2; [done|].
  destruct (List.find (fun p => has_traversal (normalize lower p.2)) params) eqn:E3; [done|]. destruct (List.find (is_webshell lower) params) eqn:E4; [done|].
  destruct (_ && _ && _) eqn:E5; [done|]. intros Hsc Hs.
  apply find_Exists_none in E1, E3, E4. destruct s; simpl in Hs.
  - destruct Hs as [Hs|Hs]; [congruence|done].
  - done.
  - destruct Hs as (agent & Ha & Hs). unfold scanner_of in Hsc. rewrite Ha in Hsc. simpl in Hsc.
    destruct (List.find _ SCANNERS) eqn:E6; [done|]. by apply find_Exists_none in E6.
  - destruct Hs as [Hs|[H1 H2]]; [done|]. rewrite H2 in E5.
    by destruct (Z.leb_spec 200 (ar_status r)), (Z.ltb_spec (ar_status r) 300); try lia.
Qed.

(** A request becomes an event exactly when one of the signatures holds of it, and
    the event is reduced as documented: the signature it names does hold, the
    evidence is one parameter that made it hold, cut to its bounds, and of the query
    nothing else is kept but at most 32 cut names: every request of the same
    shape, whatever its values, gives the same event. *)
Theorem http_event_reduced r t :
  target r = Some t ->
  (match_request lower r = None <-> forall s, ~ signature_holds r (split_target t).1 (split_target t).2 s)
  /\ forall m now, match_request lower r = Some m ->
     let e := to_http_request_event r m now in
     signature_holds r (split_target t).1 (split_target t).2 (http_request_signature e)
     /\ evidence_ok (split_target t).2 m
     /\ (length (str_chars (http_request_path e)) <= MAX_PATH_CHARS)%nat
     /\ (length (http_request_param_names e) <= MAX_PARAM_NAMES)%nat
     /\ Forall (fun n => length (str_chars n) <= MAX_NAME_CHARS)%nat (http_request_param_names e)
     /\ (forall ev, http_request_evidence e = Some ev ->
          (length (str_chars (http_evidence_param ev)) <= MAX_NAME_CHARS
           /\ length (str_chars (http_evidence_value ev)) <= EVIDENCE_MAX_CHARS)%nat)
     /\ (forall r', same_shape r r' -> to_http_request_event r' m now = e).
Proof.
  intros Ht. split.
  { split; [intros Hn s; by apply match_request_complete|]. intros Hs.
    destruct (match_request lower r) as [m|] eqn:E; [|done]. by destruct (match_request_sound r t m Ht E) as [H%Hs _]. }
  intros m now Hm. destruct (match_request_sound r t m Ht Hm) as [Hsig Hev].
  unfold to_http_request_event. rewrite Ht. simpl default. destruct (split_target t) as [path params] eqn:Es. simpl in *.
  split; [done|]. split; [done|]. split; [apply truncate_chars_le|]. split; [rewrite length_fmap, length_take; lia|].
  split; [apply Forall_fmap, Forall_true; intros; apply truncate_chars_le|]. split.
  - intros ev. unfold evidence_ok in Hev. destruct (m_evidence m) as [[n v]|]; [|done]. intros [= <-].
    destruct Hev as (p & _ & _ & [= -> ->]). split; apply truncate_chars_le.
  - intros r' (H1 & H2 & H3 & H4 & H5 & H6). rewrite Ht in H5, H6. simpl in H5, H6. rewrite Es in H5, H6.
    destruct (split_target (default EmptyString (target r'))) as [path' params']. simpl in *. subst path'.
    rewrite H1, H2, H3, H4. f_equal.
    by rewrite !names_of_params, H6.
Qed.
End Requests.

Definition probe : AccessRecord :=
  mkAccessRecord "203.0.113.9" None "t" "GET /a?token=secret&q=%2527%20UNION/**/Select%201 HTTP/1.1" 200 None None None false.

Lemma http_event_reduced_witness :
  exists m, match_request to_ascii_lowercase probe = Some m
    /\ http_request_evidence (to_http_request_event probe m 7) = Some (mkHttpEvidence "q" "%2527%20UNION/**/Select%201")
    /\ http_request_param_names (to_http_request_event probe m 7) = ["token"; "q"]
    /\ evidence_ok to_ascii_lowercase (split_target "/a?token=secret&q=%2527%20UNION/**/Select%201").2 m.
Proof.
  destruct (match_request to_ascii_lowercase probe) as [m|] eqn:E; [|vm_compute in E; discriminate E].
  exists m. split; [done|].
  pose proof (proj2 (http_event_reduced to_ascii_lowercase probe
    "/a?token=secret&q=%2527%20UNION/**/Select%201" eq_refl) m 7 E) as (_ & Hev & _).
  vm_compute in E. injection E as <-. split; [reflexivity|]. split; [reflexivity|]. exact Hev.
Defined.

(** ** Summaries *)

Definition count {A : Type} (f : A -> bool) (l : list A) : Z := Z.of_nat (length (List.filter f l)).
Definition is_failed (r : AccessRecord) : bool := is_4xx (ar_status r) || is_5xx (ar_status r).
Definition by_client (ip : IpAddr) (r : AccessRecord) : bool := bool_decide (parse_ip (ar_client r) = Some ip).
Definition failures (ip : IpAddr) (w : list AccessRecord) : Z := count (fun r => by_client ip r && is_failed r) w.
Definition seen (ip : IpAddr) (w : list AccessRecord) : Prop := exists r, r ∈ w /\ parse_ip (ar_client r) = Some ip.
Definition cap32 (n : Z) : Z := Z.min n U32_MAX.

Lemma count_snoc {A} (f : A -> bool) l a : count f (l ++ [a]) = count f l + bool_u32 (f a).
Proof.
  unfold count. rewrite List.filter_app, length_app. simpl. destruct (f a); simpl; lia.
Qed.

Lemma count_nonneg {A} (f : A -> bool) l : 0 <= count f l.
Proof. unfold count. lia. Qed.

Lemma cap32_add a b : 0 <= b -> sat_add32 (cap32 a) b = cap32 (a + b).
Proof. unfold sat_add32, cap32, U32_MAX. lia. Qed.

Lemma seen_snoc ip w r : seen ip (w ++ [r]) <-> seen ip w \/ parse_ip (ar_client r) = Some ip.
Proof.
  unfold seen. split.
  - intros (x & [Hx| ->%list_elem_of_singleton]%elem_of_app & E); eauto.
  - intros [(x & Hx & E)|E]; eexists; (split; [apply elem_of_app|exact E]); [by left|right; by apply list_elem_of_singleton].
Qed.

Lemma unseen_failures ip w : ~ seen ip w -> failures ip w = 0.
Proof.
  intros Hs. unfold failures, count. destruct (List.filter _ w) as [|r l] eqn:E; [done|]. exfalso. apply Hs.
  assert (In r (List.filter (fun r => by_client ip r && is_failed r) w)) as Hr by (rewrite E; by left).
  apply List.filter_In in Hr as [Hr [Hc _]%andb_true_iff]. apply bool_decide_eq_true in Hc.
  exists r. by rewrite list_elem_of_In.
Qed.

(** The table of clients after the window [w]: exact for every tracked client, and
    complete while it has room. *)
Definition clients_exact (w : list AccessRecord) (clients : gmap IpAddr Z) : Prop :=
  (forall ip n, clients !! ip = Some n -> seen ip w /\ n = cap32 (failures ip w))
  /\ (size clients <= MAX_TRACKED_CLIENTS)%nat
  /\ ((size clients < MAX_TRACKED_CLIENTS)%nat -> forall ip, seen ip w -> is_Some (clients !! ip)).

Lemma by_client_other ip r : parse_ip (ar_client r) <> Some ip -> by_client ip r = false.
Proof. apply bool_decide_eq_false_2. Qed.

Lemma failures_snoc ip w r : failures ip (w ++ [r]) = failures ip w + bool_u32 (by_client ip r && is_failed r).
Proof. exact (count_snoc (fun r => by_client ip r && is_failed r) w r). Qed.

Lemma track_client_exact w clients r :
  clients_exact w clients -> clients_exact (w ++ [r]) (track_client (ar_client r) (is_failed r) clients).
Proof.
  intros (Hx & Hsz & Hc). unfold track_client. destruct (parse_ip (ar_client r)) as [ip|] eqn:Eip.
  2:{ split; [|split; [done|]].
      - intros ip n [Hs ->]%Hx. rewrite failures_snoc, by_client_other by congruence. rewrite Z.add_0_r.
        split; [apply seen_snoc; by left|done].
      - intros Hlt ip [Hs|?]%seen_snoc; [by apply Hc|congruence]. }
  assert (Hip : failures ip (w ++ [r]) = failures ip w + bool_u32 (is_failed r)).
  { rewrite failures_snoc. unfold by_client. by rewrite bool_decide_eq_true_2. }
  assert (Ho : forall ip', ip' <> ip -> failures ip' (w ++ [r]) = failures ip' w).
  { intros ip' Hne. rewrite failures_snoc, by_client_other by congruence. simpl. lia. }
  assert (Hb : 0 <= bool_u32 (is_failed r)) by (by destruct (is_failed r)).
  assert (Hold : forall ip' n, ip' <> ip -> clients !! ip' = Some n -> seen ip' (w ++ [r]) /\ n = cap32 (failures ip' (w ++ [r]))).
  { intros ip' n Hne [Hs ->]%Hx. rewrite Ho by done. split; [apply seen_snoc; by left|done]. }
  destruct (clients !! ip) as [f|] eqn:Ef.
  - destruct (Hx ip f Ef) as [Hs ->]. rewrite cap32_add, <- Hip by done. split; [|split].
    + intros ip' n. destruct (decide (ip' = ip)) as [->|Hne].
      * rewrite lookup_insert_eq. intros [= <-]. split; [apply seen_snoc; by left|done].
      * rewrite lookup_insert_ne by done. by apply Hold.
    + by rewrite map_size_insert_Some by done.
    + rewrite map_size_insert_Some by done. intros Hlt ip' [Hs'|Hs']%seen_snoc; apply lookup_insert_is_Some'; [right; by apply Hc|left; congruence].
  - destruct (Nat.ltb_spec (size clients) MAX_TRACKED_CLIENTS) as [Hlt|Hge].
    + assert (Hns : ~ seen ip w) by (intros Hs; destruct (Hc Hlt ip Hs); congruence).
      rewrite (unseen_failures ip w Hns) in Hip. split; [|split].
      * intros ip' n. destruct (decide (ip' = ip)) as [->|Hne].
        -- rewrite lookup_insert_eq. intros [= <-]. rewrite Hip. split; [apply seen_snoc; by right|].
           unfold cap32, U32_MAX. by destruct (is_failed r).
        -- rewrite lookup_insert_ne by done. by apply Hold.
      * rewrite map_size_insert_None by done. lia.
      * intros _ ip' [Hs'|Hs']%seen_snoc; apply lookup_insert_is_Some'; [right; by apply Hc|left; congruence].
    + split; [|split; [done|lia]]. intros ip' n Hn. apply Hold; [congruence|done].
Qed.

(** The counters after the window [w], opened at [start]. *)
Definition summary_state (source : string) (start : option Z) (w : list AccessRecord) (s : Summarizer) : Prop :=
  sm_source s = source /\ sm_window_ns s = WINDOW_SECS * 1000000000 /\ sm_window_start_ns s = start
  /\ sm_requests s = cap32 (Z.of_nat (length w))
  /\ sm_status_4xx s = cap32 (count (fun r => is_4xx (ar_status r)) w)
  /\ sm_status_5xx s = cap32 (count (fun r => is_5xx (ar_status r)) w)
  /\ clients_exact w (sm_clients s).

Lemma summary_state_new source : summary_state source None [] (Summarizer_new source).
Proof.
  do 6 (split; [reflexivity|]). change (sm_clients (Summarizer_new source)) with (∅ : gmap IpAddr Z). split; [|split].
  - intros ip n. by rewrite lookup_empty.
  - rewrite map_size_empty. lia.
  - intros _ ip (r & Hr & _). by apply not_elem_of_nil in Hr.
Qed.

Lemma sat_add_if (b : bool) n : (if b then sat_add32 (cap32 n) 1 else cap32 n) = cap32 (n + bool_u32 b).
Proof. destruct b; [by rewrite cap32_add|]. simpl. by rewrite Z.add_0_r. Qed.

Lemma sm_observe_state source start w s r now :
  summary_state source start w s -> summary_state source (Some (default now start)) (w ++ [r]) (sm_observe s r now).
Proof.
  intros (H1 & H2 & H3 & H4 & H5 & H6 & H7). unfold summary_state, sm_observe. simpl.
  rewrite H3, H4, H5, H6, !sat_add_if, cap32_add, !count_snoc, length_app by lia.
  do 3 (split; [done|]). split; [f_equal; simpl; lia|]. do 2 (split; [done|]). by apply track_client_exact.
Qed.

Definition observe_all (s : Summarizer) (w : list (AccessRecord * Z)) : Summarizer :=
  foldl (fun s r => sm_observe s r.1 r.2) s w.

Lemma observe_all_state source w : summary_state source (snd <$> head w) w.*1 (observe_all (Summarizer_new source) w).
Proof.
  induction w as [|[r now] w IH] using rev_ind; [apply summary_state_new|].
  unfold observe_all in *. rewrite foldl_app, fmap_app. simpl.
  replace (snd <$> head (w ++ [(r, now)])) with (Some (default now (snd <$> head w))) by (by destruct w).
  by apply sm_observe_state.
Qed.

Lemma clients_exact_rank w clients ip n :
  clients_exact w clients -> clients !! ip = Some n -> 0 < n -> 0 < failures ip w /\ n = cap32 (failures ip w).
Proof. intros (Hx & _) [_ ->]%Hx H. split; [|done]. unfold cap32 in H. lia. Qed.

Definition entry (w : list AccessRecord) (ip : IpAddr) : HttpClientCount := mkHttpClientCount ip (cap32 (failures ip w)).

Lemma take_sorted {A} `{TotalCmp A} (l : list A) n x :
  x ∈ l -> x ∈ take n (cmp_sort l)
           \/ (length (take n (cmp_sort l)) = n /\ Forall (fun y => cmp_le y x) (take n (cmp_sort l))).
Proof.
  intros Hx. rewrite <- cmp_sort_perm in Hx. pose proof (cmp_sort_sorted l) as Hs. revert Hx Hs.
  generalize (cmp_sort l) as k. clear l. intros k. revert n. induction k as [|a k IH]; intros n Hx Hs; [by apply not_elem_of_nil in Hx|].
  destruct n as [|n]; [by right|]. apply StronglySorted_inv in Hs as [Hs Ha]. simpl.
  apply elem_of_cons in Hx as [->|Hx]; [left; by left|]. destruct (IH n Hx Hs) as [?|[Hl Hf]]; [left; by right|].
  right. split; [by rewrite Hl|]. constructor; [|done]. rewrite Forall_forall in Ha. by apply Ha.
Qed.

Lemma ranked_elem clients c :
  c ∈ (fun c : IpAddr * Z => mkHttpClientCount c.1 c.2) <$> filter (fun c : IpAddr * Z => 0 < c.2) (map_to_list clients)
  <-> clients !! http_client_count_client c = Some (http_client_count_failures c) /\ 0 < http_client_count_failures c.
Proof.
  rewrite list_elem_of_fmap. split.
  - intros ([ip n] & -> & [Hn H%elem_of_map_to_list]%list_elem_of_filter). done.
  - destruct c as [ip n]. simpl. intros [H Hn]. exists (ip, n). split; [done|]. apply list_elem_of_filter.
    split; [done|]. by apply elem_of_map_to_list.
Qed.

(** The summary of a window is exact: when the window closes, one event carries
    the number of requests and of each kind of failure since it opened, the worst
    clients in order with their exact failures, and the table starts empty again;
    before that nothing is sent.  The table never holds more than its bound, and
    while it has room no failing client is left out of the ranking. *)
Theorem summary_exact source w now start :
  snd <$> head w = Some start ->
  let s := observe_all (Summarizer_new source) w in
  (now -sat start < WINDOW_SECS * 1000000000 -> sm_tick s now = (None, s))
  /\ (WINDOW_SECS * 1000000000 <= now -sat start ->
      exists e, sm_tick s now = (Some e, Summarizer_new source)
        /\ http_summary_requests e = cap32 (Z.of_nat (length w))
        /\ http_summary_status_4xx e = cap32 (count (fun r => is_4xx (ar_status r)) w.*1)
        /\ http_summary_status_5xx e = cap32 (count (fun r => is_5xx (ar_status r)) w.*1)
        /\ http_summary_distinct_clients e <= Z.of_nat MAX_TRACKED_CLIENTS
        /\ (length (http_summary_top_clients e) <= TOP_CLIENTS)%nat
        /\ StronglySorted cmp_le (http_summary_top_clients e)
        /\ (forall c, c ∈ http_summary_top_clients e -> c = entry w.*1 (http_client_count_client c)
                      /\ 0 < failures (http_client_count_client c) w.*1)
        /\ (http_summary_distinct_clients e < Z.of_nat MAX_TRACKED_CLIENTS -> forall ip, 0 < failures ip w.*1 ->
            entry w.*1 ip ∈ http_summary_top_clients e
            \/ (length (http_summary_top_clients e) = TOP_CLIENTS
                /\ Forall (fun c => cmp_le c (entry w.*1 ip)) (http_summary_top_clients e)))).
Proof.
  intros Hst s. pose proof (observe_all_state source w) as (H1 & H2 & H3 & H4 & H5 & H6 & H7). fold s in H1, H2, H3, H4, H5, H6, H7.
  unfold sm_tick. rewrite H3, Hst, H2. split.
  { intros Hlt. by rewrite (proj2 (Z.ltb_lt _ _)). }
  intros Hge. rewrite (proj2 (Z.ltb_ge _ _)) by lia. eexists. split; [by rewrite H1|]. simpl.
  rewrite length_fmap in H4. pose proof (cmp_sort_perm ((fun c : IpAddr * Z => mkHttpClientCount c.1 c.2)
    <$> filter (fun c : IpAddr * Z => 0 < c.2) (map_to_list (sm_clients s)))) as Hp.
  split; [done|]. split; [done|]. split; [done|]. pose proof H7 as (Hx & Hsz & Hc).
  split; [lia|]. split; [unfold ranked; rewrite length_take; lia|]. split; [|split].
  - unfold ranked. pose proof (cmp_sort_sorted ((fun c : IpAddr * Z => mkHttpClientCount c.1 c.2)
      <$> filter (fun c : IpAddr * Z => 0 < c.2) (map_to_list (sm_clients s)))) as Hs.
    rewrite <- (take_drop TOP_CLIENTS) in Hs. by apply StronglySorted_app_1_l in Hs.
  - intros c Hin. unfold ranked in Hin. apply elem_of_take in Hin as (i & Hi & _). apply list_elem_of_lookup_2 in Hi.
    rewrite Hp in Hi. apply ranked_elem in Hi as [Hl Hpos].
    destruct (clients_exact_rank _ _ _ _ H7 Hl Hpos) as [Hf E]. split; [|done]. destruct c as [ip n]. simpl in *. by rewrite E.
  - intros Hlt ip Hf. apply take_sorted, ranked_elem. simpl.
    assert (Hseen : seen ip w.*1).
    { destruct (decide (Exists (fun r => parse_ip (ar_client r) = Some ip) w.*1)) as [(r & Hr & E)%Exists_exists|Hn]; [by exists r|].
      rewrite unseen_failures in Hf; [lia|]. intros (r & Hr & E). apply Hn, Exists_exists. eauto. }
    assert (Z.of_nat MAX_TRACKED_CLIENTS <= U32_MAX) by (vm_compute; discriminate).
    destruct (Hc ltac:(lia) ip Hseen) as [n Hn]. destruct (Hx ip n Hn) as [_ ->]. split; [done|]. unfold cap32, U32_MAX. lia.
Qed.

Lemma summary_exact_witness :
  let w := [(sample_record, 5); (probe, 6)] in
  let s := observe_all (Summarizer_new "access.log") w in
  exists e, sm_tick s (60 * 1000000000 + 5) = (Some e, Summarizer_new "access.log")
    /\ http_summary_requests e = 2 /\ http_summary_status_4xx e = 1.
Proof.
  intros w s. destruct (summary_exact "access.log" w (60 * 1000000000 + 5) 5 eq_refl) as [_ H].
  destruct H as (e & He & H1 & H2 & _); [vm_compute; discriminate|]. exists e. split; [done|].
  rewrite H1, H2. by vm_compute.
Defined.

(** ** Sources that are not understood *)

(** A window of lines, all recorded before its first tick past the minute. *)
Definition close_window (w : MisparseWatch) (flags : list bool) : option Misparse * MisparseWatch :=
  mw_tick (foldl (fun w ok => mw_record w ok 0) w flags) (60 * 1000000000).
Definition misparsing (flags : list bool) : bool :=
  (MIN_LINES <=? Z.of_nat (length flags)) && (Z.of_nat (length flags) <=? 2 * count negb flags).

Lemma count_negb flags : count id flags + count negb flags = Z.of_nat (length flags).
Proof. unfold count. induction flags as [|[] l IH]; simpl in *; lia. Qed.

Lemma record_window w flags :
  mw_window_start_ns w = None -> mw_parsed w = 0 -> mw_failed w = 0 -> flags <> [] ->
  foldl (fun w ok => mw_record w ok 0) w flags
  = mkMisparseWatch (Some 0) (cap32 (count id flags)) (cap32 (count negb flags)) (mw_reported w).
Proof.
  intros H1 H2 H3. induction flags as [|ok flags IH] using rev_ind; [done|]. intros _. rewrite foldl_app. simpl.
  destruct flags as [|b l]; [unfold mw_record; simpl; rewrite H1, H2, H3; by destruct ok|].
  rewrite IH by done. unfold mw_record. cbn [mw_window_start_ns mw_parsed mw_failed mw_reported default].
  rewrite !count_snoc. destruct ok; cbn [id negb bool_u32]; by rewrite cap32_add, Z.add_0_r.
Qed.

(** A source that stays blind is reported once: a window is reported exactly when it is
    misparsing and the window before it was not. *)
Lemma misparse_once_per_episode w flags :
  mw_window_start_ns w = None -> mw_parsed w = 0 -> mw_failed w = 0 -> flags <> [] -> Z.of_nat (length flags) < 2 ^ 31 ->
  close_window w flags
  = (if misparsing flags && negb (mw_reported w) then Some (mkMisparse (count id flags) (count negb flags)) else None,
     mkMisparseWatch None 0 0 (misparsing flags)).
Proof.
  intros H1 H2 H3 Hne Hlen. unfold close_window, mw_tick. rewrite record_window by done. simpl.
  pose proof (count_negb flags) as Hc. pose proof (count_nonneg id flags). pose proof (count_nonneg negb flags).
  unfold misparsing, sat_add32, cap32, U32_MAX. rewrite !Z.min_l by lia. rewrite Hc, Z.mul_comm.
  destruct ((MIN_LINES <=? Z.of_nat (length flags)) && (Z.of_nat (length flags) <=? 2 * count negb flags)); simpl; [|done].
  by destruct (mw_reported w).
Qed.
