(* ===== verification/LogTail.v ===== *)
(** * LogTail: following a log file (crates/sensors/linux/logs/src/tail.rs)

    The tailer against a file system in which the path names a file by identity and
    an open handle keeps its file.  [luck] is the number of system calls that
    succeed before one fails.  The file system does not change during a poll. *)
From stdpp Require Import base gmap strings list.
From Stdlib Require Import ZArith Lia Ascii.
From Stdlib Require String.
From S2P Require Import Prelude Str Text Scan Schema Fs Utf8 Bytes Logs.

Record FileId := mkFileId { fid_dev : Z; fid_ino : Z }.
#[global] Instance FileId_eq_dec : EqDecision FileId.
Proof. solve_decision. Defined.
#[global] Instance FileId_countable : Countable FileId.
Proof. refine (inj_countable' (fun f => (fid_dev f, fid_ino f)) (fun p => mkFileId p.1 p.2) _). by intros []. Defined.

Record Position := mkPosition { pos_id : option FileId; pos_offset : Z }.
#[global] Instance Position_eq_dec : EqDecision Position.
Proof. solve_decision. Defined.

Definition encode (p : Position) : string :=
  match pos_id p with
  | Some (mkFileId dev ino) => cat ["v1 "; show_u64 dev; " "; show_u64 ino; " "; show_u64 (pos_offset p)]
  | None => cat ["v1 - - "; show_u64 (pos_offset p)]
  end.

Definition decode (text : string) : option Position :=
  match split_whitespace text with
  | [v1; dev; ino; offset] =>
      if String.eqb v1 "v1" then
        offset ← parse_u64 offset;
        if String.eqb dev "-" && String.eqb ino "-" then Some (mkPosition None offset)
        else d ← parse_u64 dev; i ← parse_u64 ino; Some (mkPosition (Some (mkFileId d i)) offset)
      else None
  | _ => None
  end.

Record PollOutcome := mkPollOutcome { po_lines : Z; po_rotations : Z; po_truncations : Z }.
Definition PollOutcome_default : PollOutcome := mkPollOutcome 0 0 0.
(** The outcome with the lines handed to the callback so far. *)
Record Out := mkOut { out_lines : list string; out_outcome : PollOutcome }.

Record State := mkState {
  st_read_pos : Z;
  st_consumed : Z;
  st_line : bytes;
  st_overlong : bool }.
Definition State_default : State := mkState 0 0 [] false.

Definition reset (offset : Z) : State := mkState offset offset [] false.

Definition emit_line (s : State) (out : Out) : State * Out :=
  (mkState (st_read_pos s) (st_consumed s) [] false,
   match st_line s with
   | [] => out
   | line => mkOut (out_lines out ++ [from_utf8_lossy line])
               (mkPollOutcome (po_lines (out_outcome out) + 1) (po_rotations (out_outcome out)) (po_truncations (out_outcome out)))
   end).

(** [bytes.split_inclusive(|b| *b == b'\n')]. *)
Fixpoint split_inclusive (l : bytes) : list bytes :=
  match l with
  | [] => []
  | b :: l => if b =? NEWLINE then [b] :: split_inclusive l
              else match split_inclusive l with [] => [[b]] | c :: cs => (b :: c) :: cs end
  end.
(** [chunk.split_last()] with the newline taken off. *)
Definition split_end (chunk : bytes) : bytes * bool :=
  match last chunk with
  | Some b => if b =? NEWLINE then (removelast chunk, true) else (chunk, false)
  | None => (chunk, false)
  end.

Definition LINE_CAP : nat := MAX_LINE_BYTES + 1.

Definition feed_chunk (so : State * Out) (chunk : bytes) : State * Out :=
  let '(s, out) := so in
  let '(body, ended) := split_end chunk in
  let read_pos := st_read_pos s + blen chunk in
  let '(line, overlong) :=
    if st_overlong s then (st_line s, true)
    else let room := (LINE_CAP - length (st_line s))%nat in
         if (room <? length body)%nat then (st_line s ++ take room body, true) else (st_line s ++ body, false) in
  let s := mkState read_pos (st_consumed s) line overlong in
  if (ended : bool) then
    let '(s, out) := emit_line s out in
    (mkState (st_read_pos s) (st_read_pos s) (st_line s) (st_overlong s), out)
  else (s, out).

Definition feed (s : State) (b : bytes) (out : Out) : State * Out := foldl feed_chunk (s, out) (split_inclusive b).

(** ** The file system *)

Record World := mkWorld { w_named : option FileId; w_files : gmap FileId bytes }.
Definition content (w : World) (id : FileId) : bytes := default [] (w_files w !! id).

Record Tailer := mkTailer {
  t_saved : option Position;
  t_from_end : bool;
  t_from_start : bool;
  t_file : option (FileId * Z);
  t_id : option FileId;
  t_state : State }.

Definition Tailer_new (w : World) (saved : option Position) : Tailer :=
  mkTailer saved (match saved with None => bool_decide (is_Some (w_named w)) | Some _ => false end) false None None State_default.

Definition position (t : Tailer) : option Position :=
  match t_file t with Some _ => Some (mkPosition (t_id t) (st_consumed (t_state t))) | None => t_saved t end.

Definition start_offset (t : Tailer) (id : FileId) (len : Z) : Z :=
  if t_from_start t then 0
  else match t_saved t with
       | Some p => if bool_decide (pos_id p = Some id) && (pos_offset p <=? len) then pos_offset p else 0
       | None => if t_from_end t then len else 0
       end.

(** [File::open], [metadata], [seek]: three calls. *)
Definition open (w : World) (luck : nat) (t : Tailer) : result bool unit * nat * Tailer :=
  match luck with
  | O => (Err tt, O, t)
  | S luck =>
      match w_named w with
      | None => (Ok false, luck, t)
      | Some id =>
          match luck with
          | S (S luck) =>
              let start := start_offset t id (blen (content w id)) in
              (Ok true, luck, mkTailer None false false (Some (id, start)) (Some id) (reset start))
          | _ => (Err tt, O, t)
          end
      end
  end.

Definition READ_BUF : nat := Z.to_nat (16 * 1024).

(** The reads until one returns nothing: each is a call. *)
Fixpoint drain_loop (data : bytes) (luck : nat) (at_ : Z) (s : State) (out : Out) : result unit unit * nat * Z * State * Out :=
  match luck with
  | O => (Err tt, O, at_, s, out)
  | S luck =>
      match take READ_BUF (drop (Z.to_nat at_) data) with
      | [] => (Ok tt, luck, at_, s, out)
      | buf => let '(s, out) := feed s buf out in drain_loop data luck (at_ + blen buf) s out
      end
  end.

Definition with_read (t : Tailer) (id : FileId) (at_ : Z) (s : State) : Tailer :=
  mkTailer (t_saved t) (t_from_end t) (t_from_start t) (Some (id, at_)) (t_id t) s.

Definition drain (w : World) (luck : nat) (t : Tailer) (out : Out) : result unit unit * nat * Tailer * Out :=
  match t_file t with
  | None => (Ok tt, luck, t, out)
  | Some (id, at_) =>
      match luck with
      | O => (Err tt, O, t, out)
      | S luck =>
          let data := content w id in
          if blen data <? st_read_pos (t_state t) then
            match luck with
            | O => (Err tt, O, t, out)
            | S luck =>
                let o := out_outcome out in
                let out := mkOut (out_lines out) (mkPollOutcome (po_lines o) (po_rotations o) (po_truncations o + 1)) in
                let '(r, luck, at_, s, out) := drain_loop data luck 0 (reset 0) out in
                (r, luck, with_read t id at_ s, out)
            end
          else let '(r, luck, at_, s, out) := drain_loop data luck at_ (t_state t) out in
               (r, luck, with_read t id at_ s, out)
      end
  end.

(** The path names another file: the old one is left. *)
Definition rotate_away (t : Tailer) (out : Out) : Tailer * Out :=
  let '(s, out) := emit_line (t_state t) out in
  let o := out_outcome out in
  (mkTailer (t_saved t) (t_from_end t) true None (t_id t) s,
   mkOut (out_lines out) (mkPollOutcome (po_lines o) (po_rotations o + 1) (po_truncations o))).

(** [rounds] bounds the loop of [poll], which goes on only after a rotation. *)
Fixpoint poll_loop (rounds : nat) (w : World) (luck : nat) (t : Tailer) (out : Out) : Run (result PollOutcome unit * Tailer * list string) :=
  match rounds with
  | O => Spun
  | S rounds =>
      let '(opened, luck, t) := match t_file t with None => open w luck t | Some _ => (Ok true, luck, t) end in
      match opened with
      | Err e => Ran (Err e, t, out_lines out)
      | Ok false => Ran (Ok (out_outcome out), t, out_lines out)
      | Ok true =>
          let '(r, luck, t, out) := drain w luck t out in
          match r, luck with
          | Err e, _ => Ran (Err e, t, out_lines out)
          | Ok _, O => Ran (Err tt, t, out_lines out)
          | Ok _, S luck =>
              match w_named w with
              | None => Ran (Ok (out_outcome out), t, out_lines out)
              | Some id =>
                  if bool_decide (is_Some (t_id t)) && negb (bool_decide (Some id = t_id t)) then
                    let '(t, out) := rotate_away t out in poll_loop rounds w luck t out
                  else Ran (Ok (out_outcome out), t, out_lines out)
              end
          end
      end
  end.
(** After a rotation the file is opened under the name it has: two rounds. *)
Definition poll (w : World) (luck : nat) (t : Tailer) : Run (result PollOutcome unit * Tailer * list string) :=
  poll_loop 2 w luck t (mkOut [] PollOutcome_default).
