(* ===== verification/LogTailTheorems.v ===== *)
(** * LogTailTheorems: every line of a followed log, once and in order

    The tailer refines a reader that sees the whole text: whatever the order of
    appends, polls (failing ones too), restarts and rotations, the lines delivered
    are the lines written. *)
From stdpp Require Import base gmap strings list.
From Stdlib Require Import ZArith Lia Ascii.
From Stdlib Require String.
From S2P Require Import Prelude Str Text Scan Schema Fs Utf8 Bytes Logs LogTail.
#[local] Opaque LINE_CAP READ_BUF.

(** ** Feeding, byte by byte *)

Definition feed_byte (so : State * Out) (b : Z) : State * Out :=
  let '(s, out) := so in
  if b =? NEWLINE then
    let '(s', out) := emit_line s out in
    (mkState (st_read_pos s + 1) (st_read_pos s + 1) (st_line s') (st_overlong s'), out)
  else
    (mkState (st_read_pos s + 1) (st_consumed s)
       (if st_overlong s || (LINE_CAP <=? length (st_line s))%nat then st_line s else st_line s ++ [b])
       (st_overlong s || (LINE_CAP <=? length (st_line s))%nat), out).

Definition line_fits (s : State) : Prop := (length (st_line s) <= LINE_CAP)%nat.

Lemma feed_byte_fits s out b : line_fits s -> line_fits (feed_byte (s, out) b).1.
Proof.
  unfold line_fits, feed_byte. intros H. destruct (b =? NEWLINE); simpl; [lia|].
  destruct (st_overlong s); simpl; [done|]. destruct (Nat.leb_spec LINE_CAP (length (st_line s))); [done|].
  rewrite length_app. simpl. lia.
Qed.

(** A piece of a line. *)
Lemma feed_body s out body :
  line_fits s -> NEWLINE ∉ body ->
  foldl feed_byte (s, out) body
  = (let '(line, overlong) :=
       if st_overlong s then (st_line s, true)
       else let room := (LINE_CAP - length (st_line s))%nat in
            if (room <? length body)%nat then (st_line s ++ take room body, true) else (st_line s ++ body, false) in
     mkState (st_read_pos s + blen body) (st_consumed s) line overlong, out).
Proof.
  revert s. induction body as [|b body IH]; intros s Hf Hn.
  - simpl. unfold blen. simpl. rewrite app_nil_r, Z.add_0_r. by destruct s as [? ? ? []].
  - apply not_elem_of_cons in Hn as [Hb Hn]. cbn [foldl].
    pose proof (feed_byte_fits s out b Hf) as Hf'. unfold feed_byte in Hf' |- *.
    rewrite (proj2 (Z.eqb_neq b NEWLINE)) in Hf' |- * by congruence. rewrite IH by done. simpl.
    rewrite blen_cons, <- Z.add_assoc. unfold line_fits in Hf. destruct (st_overlong s); simpl; [done|].
    destruct (Nat.leb_spec LINE_CAP (length (st_line s))) as [Hge|Hlt].
    + replace (LINE_CAP - length (st_line s))%nat with O by lia. simpl. by rewrite app_nil_r.
    + rewrite length_app. simpl. destruct (Nat.ltb_spec (LINE_CAP - (length (st_line s) + 1)) (length body)),
        (Nat.ltb_spec (LINE_CAP - length (st_line s)) (S (length body))); try lia.
      * replace (LINE_CAP - length (st_line s))%nat with (S (LINE_CAP - (length (st_line s) + 1))) by lia. simpl.
        by rewrite <- app_assoc.
      * by rewrite <- app_assoc.
Qed.

(** What [split_inclusive] cuts: every chunk has its newline, if any, at the end. *)
Definition is_chunk (c : bytes) : Prop := exists body, NEWLINE ∉ body /\ (c = body \/ c = body ++ [NEWLINE]) /\ c <> [].

Lemma split_inclusive_chunks l : Forall is_chunk (split_inclusive l) /\ concat (split_inclusive l) = l.
Proof.
  induction l as [|b l [IH1 IH2]]; [done|]. cbn [split_inclusive]. destruct (Z.eqb_spec b NEWLINE) as [->|Hb].
  - split; [|simpl; by rewrite IH2]. constructor; [|done]. exists []. split; [apply not_elem_of_nil|]. split; [by right|done].
  - destruct (split_inclusive l) as [|c cs] eqn:E.
    + simpl in IH2. subst l. split; [|done]. constructor; [|constructor]. exists [b].
      split; [|split; [by left|done]]. intros H%list_elem_of_singleton. congruence.
    + split; [|simpl in *; by rewrite IH2]. apply Forall_cons in IH1 as [(body & Hn & Hc & Hne) IH1]. constructor; [|done].
      exists (b :: body). split; [apply not_elem_of_cons; split; [congruence|done]|]. split; [|done].
      destruct Hc as [->| ->]; [by left|by right].
Qed.

Lemma split_end_open body : NEWLINE ∉ body -> split_end body = (body, false).
Proof.
  intros Hn. unfold split_end. destruct (last body) as [b|] eqn:E; [|done].
  destruct (Z.eqb_spec b NEWLINE) as [->|]; [|done]. apply last_Some_elem_of in E. done.
Qed.

Lemma split_end_closed body : split_end (body ++ [NEWLINE]) = (body, true).
Proof. unfold split_end. rewrite last_snoc. simpl. by rewrite removelast_last. Qed.

Lemma feed_chunk_bytes s out c : line_fits s -> is_chunk c -> feed_chunk (s, out) c = foldl feed_byte (s, out) c.
Proof.
  intros Hf (body & Hn & [->| ->] & _); unfold feed_chunk.
  - rewrite split_end_open, feed_body by done. destruct (st_overlong s); [done|]. cbv zeta. by destruct (_ <? _)%nat.
  - rewrite split_end_closed, foldl_app, feed_body, blen_app by done. cbn [foldl]. unfold feed_byte. rewrite Z.eqb_refl.
    destruct (if st_overlong s then _ else _) as [line overlong]. simpl. unfold blen. simpl.
    by rewrite !Z.add_assoc.
Qed.

Lemma feed_bytes_fits s out l : line_fits s -> line_fits (foldl feed_byte (s, out) l).1.
Proof.
  revert s out. induction l as [|b l IH]; intros s out Hf; [done|]. cbn [foldl].
  pose proof (feed_byte_fits s out b Hf) as H. destruct (feed_byte (s, out) b). by apply IH.
Qed.

(** How the bytes arrive does not matter. *)
Lemma feed_bytes s out l : line_fits s -> feed s l out = foldl feed_byte (s, out) l.
Proof.
  unfold feed. intros Hf. destruct (split_inclusive_chunks l) as [Hc Hl]. rewrite <- Hl at 2. clear Hl.
  revert s out Hf. induction Hc as [|c cs Hc _ IH]; intros s out Hf; [done|]. cbn [foldl concat]. rewrite foldl_app.
  rewrite feed_chunk_bytes by done. pose proof (feed_bytes_fits s out c Hf) as H.
  destruct (foldl feed_byte (s, out) c) as [s' out']. by apply IH.
Qed.

(** ** The text read so far *)

(** The bytes after the last newline, and the lines before it. *)
Definition partial (l : bytes) : bytes := default [] (last (split_nl l)).
Definition complete (l : bytes) : list bytes := removelast (split_nl l).

Lemma split_nl_parts l : split_nl l = complete l ++ [partial l].
Proof.
  unfold complete, partial. pose proof (split_nl_ne l) as Hne.
  destruct (split_nl l) as [|p ps] using rev_ind; [done|]. by rewrite last_snoc, removelast_last.
Qed.

Lemma split_nl_app l k :
  split_nl (l ++ k) = complete l ++ match split_nl k with p :: ps => (partial l ++ p) :: ps | [] => [] end.
Proof.
  unfold complete, partial. induction l as [|b l IH].
  - simpl. pose proof (split_nl_ne k). by destruct (split_nl k).
  - pose proof (split_nl_ne l) as Hl. pose proof (split_nl_ne k) as Hk. cbn [split_nl app].
    destruct (b =? NEWLINE) eqn:E.
    + rewrite IH. destruct (split_nl l) as [|p ps]; [done|]. reflexivity.
    + rewrite IH. destruct (split_nl l) as [|p [|q ps]]; [done| |]; destruct (split_nl k) as [|r rs]; try done.
Qed.

Lemma split_nl_snoc_nl l : split_nl (l ++ [NEWLINE]) = split_nl l ++ [[]].
Proof. rewrite split_nl_app, (split_nl_parts l). simpl. by rewrite app_nil_r, <- app_assoc. Qed.

Lemma split_nl_snoc l b : b <> NEWLINE -> split_nl (l ++ [b]) = complete l ++ [partial l ++ [b]].
Proof. intros Hb. rewrite split_nl_app. simpl. by rewrite (proj2 (Z.eqb_neq _ _) Hb). Qed.

Lemma parts_unique l ps p : split_nl l = ps ++ [p] -> complete l = ps /\ partial l = p.
Proof. intros E. unfold complete, partial. by rewrite E, last_snoc, removelast_last. Qed.

(** A line as it is handed out: cut, decoded, not empty. *)
Definition shown (l : bytes) : string := from_utf8_lossy (take LINE_CAP l).
Definition lines_of (ls : list bytes) : list string := shown <$> filter (fun l => l <> []) ls.
Definition log_lines (l : bytes) : list string := lines_of (complete l).
Definition all_lines (l : bytes) : list string := lines_of (split_nl l).

Lemma lines_of_app a b : lines_of (a ++ b) = lines_of a ++ lines_of b.
Proof. unfold lines_of. by rewrite filter_app, fmap_app. Qed.

Lemma all_log l : all_lines l = log_lines l ++ lines_of [partial l].
Proof. unfold all_lines. by rewrite split_nl_parts, lines_of_app. Qed.

(** The state after the text [fed] from the offset [o]. *)
Definition view (o : Z) (fed : bytes) : State :=
  mkState (o + blen fed) (o + blen fed - blen (partial fed)) (take LINE_CAP (partial fed)) (LINE_CAP <? length (partial fed))%nat.

Lemma LINE_CAP_pos : (0 < LINE_CAP)%nat.
Proof. apply Nat.ltb_lt. by vm_compute. Qed.

Lemma view_fits o fed : line_fits (view o fed).
Proof. unfold line_fits. simpl. rewrite length_take. lia. Qed.

Lemma view_nil o : view o [] = reset o.
Proof.
  unfold view, reset. change (partial []) with (@nil Z). change (blen []) with 0.
  rewrite take_nil, Z.add_0_r, Z.sub_0_r. done.
Qed.

Lemma emit_partial s out p :
  st_line s = take LINE_CAP p ->
  (emit_line s out).1 = mkState (st_read_pos s) (st_consumed s) [] false
  /\ out_lines (emit_line s out).2 = out_lines out ++ lines_of [p].
Proof.
  intros Hl. unfold emit_line. rewrite Hl. split; [done|]. pose proof LINE_CAP_pos. unfold lines_of, shown.
  destruct p as [|b p].
  - rewrite take_nil. rewrite filter_cons_False by (intros H'; by apply H'). simpl. by rewrite app_nil_r.
  - rewrite filter_cons_True by done. simpl. destruct LINE_CAP; [lia|]. done.
Qed.

(** From the text [a] to the text [b] the lines handed out grow from [x] to [y]. *)
Definition adds (x y : list string) (a b : bytes) : Prop := exists new, y = x ++ new /\ log_lines b = log_lines a ++ new.

Lemma adds_refl x a : adds x x a a.
Proof. exists []. by rewrite !app_nil_r. Qed.

Lemma adds_trans x y z a b c : adds x y a b -> adds y z b c -> adds x z a c.
Proof. intros (n & -> & E) (m & -> & F). exists (n ++ m). rewrite F, E. by rewrite <- !app_assoc. Qed.

Lemma feed_byte_view o fed out b :
  exists out', feed_byte (view o fed, out) b = (view o (fed ++ [b]), out')
    /\ adds (out_lines out) (out_lines out') fed (fed ++ [b]).
Proof.
  unfold feed_byte. destruct (Z.eqb_spec b NEWLINE) as [->|Hb].
  - destruct (emit_partial (view o fed) out (partial fed) eq_refl) as [E1 E2].
    destruct (emit_line (view o fed) out) as [s' out']. simpl in E1, E2. subst s'. exists out'. split.
    + pose proof (split_nl_snoc_nl fed) as E. apply parts_unique in E as [_ E]. unfold view. rewrite E. simpl.
      rewrite take_nil, blen_app. change (blen [NEWLINE]) with 1. change (blen []) with 0. f_equal. f_equal; lia.
    + exists (lines_of [partial fed]). split; [done|]. unfold log_lines.
      pose proof (split_nl_snoc_nl fed) as E. apply parts_unique in E as [-> _]. by rewrite split_nl_parts, lines_of_app.
  - exists out. pose proof (split_nl_snoc fed b Hb) as E. apply parts_unique in E as [Ec Ep].
    split; [|exists []; unfold log_lines; by rewrite Ec, !app_nil_r].
    f_equal. unfold view. rewrite Ep. simpl. rewrite !blen_app, length_app, length_take. change (blen [b]) with 1. simpl. f_equal.
    + lia.
    + lia.
    + destruct (Nat.ltb_spec LINE_CAP (length (partial fed))); simpl; [rewrite take_app_le by lia; done|].
      destruct (Nat.leb_spec LINE_CAP (LINE_CAP `min` length (partial fed))).
      * by rewrite take_app_le by lia.
      * rewrite !take_ge by (rewrite ?length_app; simpl; lia). done.
    + destruct (Nat.ltb_spec LINE_CAP (length (partial fed))), (Nat.leb_spec LINE_CAP (LINE_CAP `min` length (partial fed))),
        (Nat.ltb_spec LINE_CAP (length (partial fed) + 1)); simpl; try done; lia.
Qed.

Lemma feed_view o fed k out :
  exists out', feed (view o fed) k out = (view o (fed ++ k), out')
    /\ adds (out_lines out) (out_lines out') fed (fed ++ k).
Proof.
  rewrite feed_bytes by apply view_fits. revert fed out. induction k as [|b k IH]; intros fed out.
  - exists out. rewrite app_nil_r. split; [done|apply adds_refl].
  - cbn [foldl]. destruct (feed_byte_view o fed out b) as (out1 & -> & H1).
    destruct (IH (fed ++ [b]) out1) as (out2 & -> & H2). exists out2. rewrite <- app_assoc in *. split; [done|].
    by eapply adds_trans.
Qed.

Lemma READ_BUF_pos : (0 < READ_BUF)%nat.
Proof. apply Nat.ltb_lt. by vm_compute. Qed.

(** A drain feeds a prefix of what is left, all of it when it succeeds. *)
Lemma drain_loop_view pre fed rest luck out :
  exists got left r luck' out',
    drain_loop (pre ++ fed ++ rest) luck (blen (pre ++ fed)) (view (blen pre) fed) out
    = (r, luck', blen (pre ++ fed ++ got), view (blen pre) (fed ++ got), out')
    /\ rest = got ++ left /\ (r = Ok tt -> left = [])
    /\ ((length rest < luck)%nat -> r = Ok tt /\ (luck - length rest - 1 <= luck')%nat)
    /\ adds (out_lines out) (out_lines out') fed (fed ++ got).
Proof.
  revert fed rest out. induction luck as [|luck IH]; intros fed rest out.
  - exists [], rest, (Err tt), O, out. rewrite !app_nil_r.
    split; [done|]. split; [done|]. split; [done|]. split; [lia|apply adds_refl].
  - cbn [drain_loop]. unfold blen at 1. rewrite Nat2Z.id, (app_assoc pre fed rest), drop_app_length.
    pose proof READ_BUF_pos as Hpos. destruct rest as [|b rest].
    + rewrite take_nil. exists [], [], (Ok tt), luck, out. rewrite !app_nil_r. split; [done|]. split; [done|]. split; [done|].
      split; [intros _; split; [done|simpl; lia]|apply adds_refl].
    + destruct (take READ_BUF (b :: rest)) as [|c chunk] eqn:Et; [destruct READ_BUF; [lia|done]|].
      pose proof (take_drop READ_BUF (b :: rest)) as Hsplit. rewrite Et in Hsplit. set (tl := drop READ_BUF (b :: rest)) in *.
      destruct (feed_view (blen pre) fed (c :: chunk) out) as (out1 & -> & H1).
      destruct (IH (fed ++ c :: chunk) tl out1) as (got & left & r & luck' & out' & E & E1 & E2 & E3 & E4).
      exists (c :: chunk ++ got), left, r, luck', out'. split; [|split; [|split; [done|split]]].
      * rewrite <- Hsplit. rewrite <- !app_assoc in *. simpl in *. rewrite <- E. f_equal. rewrite !blen_app. lia.
      * rewrite <- Hsplit, E1. simpl. by rewrite <- app_assoc.
      * intros Hl. assert (length (b :: rest) = length (c :: chunk) + length tl)%nat as El
          by (by rewrite <- length_app, Hsplit). simpl in El, Hl. destruct E3 as [-> ?]; [lia|]. split; [done|]. simpl. lia.
      * rewrite <- app_assoc in E4. by eapply adds_trans.
Qed.

Lemma log_lines_aligned d l : partial d = [] -> log_lines (d ++ l) = log_lines d ++ log_lines l.
Proof.
  intros Hd. unfold log_lines, complete at 1. rewrite split_nl_app, Hd. simpl.
  pose proof (split_nl_ne l) as Hne. destruct (split_nl l) as [|p ps] eqn:E; [done|].
  rewrite removelast_app by done. unfold complete. by rewrite E, lines_of_app.
Qed.

Lemma all_lines_aligned d l : partial d = [] -> all_lines (d ++ l) = log_lines d ++ all_lines l.
Proof.
  intros Hd. unfold all_lines, log_lines. rewrite split_nl_app, Hd. simpl. rewrite lines_of_app.
  pose proof (split_nl_ne l). by destruct (split_nl l).
Qed.

(** Without its last, unfinished line a text ends at a line's end. *)
Lemma partial_suffix l : exists d, l = d ++ partial l /\ partial d = [] /\ complete d = complete l.
Proof.
  induction l as [|b l (d & E & Hp & Hc)] using rev_ind; [by exists []|].
  destruct (decide (b = NEWLINE)) as [->|Hb].
  - exists (l ++ [NEWLINE]). pose proof (split_nl_snoc_nl l) as E1. apply parts_unique in E1 as [E1 E2].
    rewrite E2. by rewrite app_nil_r.
  - pose proof (split_nl_snoc l b Hb) as E1. apply parts_unique in E1 as [E1 E2]. exists d.
    rewrite E1, E2, app_assoc, <- E. done.
Qed.

(** ** A log followed through rotations and restarts *)

Record Sys := mkSys { s_world : World; s_tailer : Tailer; s_delivered : list string }.

Inductive LogEvent :=
| Append (bs : bytes)
| Rotate (id : FileId)
| Poll (luck : nat)
| Restart.

(** The handle is on the file the path names. *)
Definition attached (s : Sys) : bool :=
  match t_file (s_tailer s) with Some (id, _) => bool_decide (w_named (s_world s) = Some id) | None => false end.
(** Not yet reopened after a restart, at a position of the named file. *)
Definition resumable (s : Sys) : bool :=
  match t_file (s_tailer s), t_saved (s_tailer s) with
  | None, Some p => bool_decide (pos_id p = w_named (s_world s))
  | _, _ => false
  end.

Definition sys_step (e : LogEvent) (s : Sys) : option Sys :=
  let w := s_world s in
  match e with
  | Append bs =>
      id ← w_named w;
      Some (mkSys (mkWorld (w_named w) (<[id := content w id ++ bs]> (w_files w))) (s_tailer s) (s_delivered s))
  | Rotate id =>
      if attached s && bool_decide (w_files w !! id = None)
      then Some (mkSys (mkWorld (Some id) (<[id := []]> (w_files w))) (s_tailer s) (s_delivered s)) else None
  | Poll luck =>
      match poll w luck (s_tailer s) with
      | Ran (_, t, ls) => Some (mkSys w t (s_delivered s ++ ls))
      | _ => None
      end
  | Restart =>
      if attached s || resumable s
      then Some (mkSys w (Tailer_new w (position (s_tailer s))) (s_delivered s)) else None
  end.
Fixpoint sys_run (es : list LogEvent) (s : Sys) : option Sys :=
  match es with [] => Some s | e :: es => s ← sys_step e s; sys_run es s end.

(** The text written since the start: of the files rotated away, and of the current
    one. *)
Definition text_step (tx : list bytes * bytes) (e : LogEvent) : list bytes * bytes :=
  match e with
  | Append bs => (tx.1, tx.2 ++ bs)
  | Rotate _ => (tx.1 ++ [tx.2], [])
  | _ => tx
  end.
Definition texts (es : list LogEvent) : list bytes * bytes := foldl text_step ([], []) es.

(** The handle on [id], at the end of [fed], which was read from the end of [pre]. *)
Definition reading (id : FileId) (pre fed : bytes) : Tailer :=
  mkTailer None false false (Some (id, blen (pre ++ fed))) (Some id) (view (blen pre) fed).

Lemma drain_reading w luck id pre fed rest out :
  content w id = pre ++ fed ++ rest ->
  exists got left r luck' out',
    drain w luck (reading id pre fed) out = (r, luck', reading id pre (fed ++ got), out')
    /\ rest = got ++ left /\ (r = Ok tt -> left = [])
    /\ ((S (length rest) < luck)%nat -> r = Ok tt /\ (luck - length rest - 2 <= luck')%nat)
    /\ adds (out_lines out) (out_lines out') fed (fed ++ got).
Proof.
  intros Hc. unfold drain, reading. cbn [t_file t_state]. destruct luck as [|luck].
  { exists [], rest, (Err tt), O, out. rewrite !app_nil_r.
    split; [done|]. split; [done|]. split; [done|]. split; [lia|apply adds_refl]. }
  rewrite Hc. unfold view at 1. cbn [st_read_pos]. rewrite (proj2 (Z.ltb_ge _ _)) by (rewrite !blen_app; pose proof (blen_nonneg rest); lia).
  destruct (drain_loop_view pre fed rest luck out) as (got & left & r & luck' & out' & -> & E1 & E2 & E3 & E4).
  exists got, left, r, luck', out'. split; [done|]. split; [done|]. split; [done|]. split; [|done].
  intros Hl. destruct E3 as [-> ?]; [lia|]. split; [done|]. lia.
Qed.

(** What a poll that reads [rest] of the named file gives. *)
Definition polled (id : FileId) (pre fed rest : bytes) (luck : nat) (out : Out)
    (res : Run (result PollOutcome unit * Tailer * list string)) : Prop :=
  exists got left r ls,
    res = Ran (r, reading id pre (fed ++ got), ls) /\ rest = got ++ left
    /\ ((exists o, r = Ok o) -> left = [])
    /\ ((S (S (length rest)) < luck)%nat -> exists o, r = Ok o)
    /\ adds (out_lines out) ls fed (fed ++ got).

Lemma poll_reading rounds w luck id pre fed rest out :
  w_named w = Some id -> content w id = pre ++ fed ++ rest ->
  polled id pre fed rest luck out (poll_loop (S rounds) w luck (reading id pre fed) out).
Proof.
  intros Hn Hc. cbn [poll_loop]. change (t_file (reading id pre fed)) with (Some (id, blen (pre ++ fed))). cbv beta iota.
  destruct (drain_reading w luck id pre fed rest out Hc) as (got & left & r & luck' & out' & -> & E1 & E2 & E3 & E4).
  destruct r as [[]|[]]; [|exists got, left, (Err tt), (out_lines out'); split; [done|]; split; [done|];
    split; [by intros []|]; split; [intros Hl; destruct E3 as [? _]; [lia|done]|done]].
  destruct luck' as [|luck'].
  { exists got, left, (Err tt), (out_lines out'). split; [done|]. split; [done|]. split; [by intros []|].
    split; [intros Hl; destruct E3 as [_ ?]; lia|done]. }
  rewrite Hn. change (t_id (reading id pre (fed ++ got))) with (Some id).
  rewrite (bool_decide_eq_true_2 (Some id = Some id)) by done. rewrite andb_false_r.
  exists got, left, (Ok (out_outcome out')), (out_lines out'). split; [done|]. split; [done|]. split; [auto|]. split; [eauto|done].
Qed.

Lemma poll_opening rounds w luck id pre rest t out :
  w_named w = Some id -> content w id = pre ++ rest -> t_file t = None -> start_offset t id (blen (content w id)) = blen pre ->
  poll_loop (S rounds) w luck t out = Ran (Err tt, t, out_lines out) /\ (luck < 3)%nat
  \/ exists luck', luck = (3 + luck')%nat /\ polled id pre [] rest luck' out (poll_loop (S rounds) w luck t out).
Proof.
  intros Hn Hc Hf Hs. destruct (Nat.lt_ge_cases luck 3) as [Hl|Hl].
  - left. split; [|done]. cbn [poll_loop]. rewrite Hf. unfold open. rewrite Hn.
    destruct luck as [|[|[|]]]; [done..|lia].
  - right. exists (luck - 3)%nat. split; [lia|]. destruct luck as [|[|[|luck]]]; [lia..|].
    replace (S (S (S luck)) - 3)%nat with luck by lia.
    assert (poll_loop (S rounds) w (S (S (S luck))) t out = poll_loop (S rounds) w luck (reading id pre []) out) as ->.
    { cbn [poll_loop]. rewrite Hf. unfold open. rewrite Hn, Hs. unfold reading. rewrite view_nil, app_nil_r. done. }
    apply poll_reading; [done|]. by rewrite Hc.
Qed.

(** Waiting for the new file after a rotation. *)
Definition waiting (t : Tailer) : Prop := t_file t = None /\ t_saved t = None /\ t_from_start t = true.

Lemma waiting_start t id len : waiting t -> start_offset t id len = 0.
Proof. intros (_ & _ & Hs). unfold start_offset. by rewrite Hs. Qed.

(** A poll that finds the old file rotated away: it is left only when all of it has
    been handed out, its unfinished last line included. *)
Definition left_behind (old id : FileId) (pre fed rest cur : bytes) (x : list string)
    (r : result PollOutcome unit) (t : Tailer) (ls : list string) : Prop :=
  (exists got left, rest = got ++ left /\ t = reading old pre (fed ++ got) /\ (exists e, r = Err e) /\ adds x ls fed (fed ++ got))
  \/ (exists y, adds x y fed (fed ++ rest)
      /\ ((waiting t /\ (exists e, r = Err e) /\ ls = y ++ lines_of [partial (fed ++ rest)])
          \/ exists got left, cur = got ++ left /\ t = reading id [] got
              /\ ls = y ++ lines_of [partial (fed ++ rest)] ++ log_lines got /\ ((exists o, r = Ok o) -> left = []))).

Lemma poll_rotated rounds w luck id old pre fed rest cur out :
  w_named w = Some id -> old <> id -> content w old = pre ++ fed ++ rest -> content w id = cur ->
  exists r t ls, poll_loop (S (S rounds)) w luck (reading old pre fed) out = Ran (r, t, ls)
    /\ left_behind old id pre fed rest cur (out_lines out) r t ls
    /\ ((length rest + length cur + 8 < luck)%nat -> exists o, r = Ok o).
Proof.
  intros Hn Hne Hc Hcur. remember (S rounds) as k eqn:Hk. cbn [poll_loop].
  change (t_file (reading old pre fed)) with (Some (old, blen (pre ++ fed))). cbv beta iota.
  destruct (drain_reading w luck old pre fed rest out Hc) as (got & left & r & luck' & out' & -> & E1 & E2 & E3 & E4).
  destruct r as [[]|[]].
  2:{ exists (Err tt), (reading old pre (fed ++ got)), (out_lines out'). split; [done|].
      split; [left; exists got, left; eauto 10|]. intros Hl. destruct E3 as [? _]; [lia|done]. }
  rewrite E2, app_nil_r in E1 by done. subst got. destruct luck' as [|luck'].
  { exists (Err tt), (reading old pre (fed ++ rest)), (out_lines out'). split; [done|].
    split; [left; exists rest, []; rewrite app_nil_r; eauto 10|]. intros Hl. destruct E3 as [_ ?]; lia. }
  rewrite Hn. change (t_id (reading old pre (fed ++ rest))) with (Some old).
  rewrite (bool_decide_eq_false_2 (Some id = Some old)) by congruence. rewrite (bool_decide_eq_true_2 (is_Some (Some old))) by eauto.
  cbn [andb negb]. unfold rotate_away.
  destruct (emit_partial (t_state (reading old pre (fed ++ rest))) out' (partial (fed ++ rest)) eq_refl) as [_ Em].
  destruct (emit_line (t_state (reading old pre (fed ++ rest))) out') as [s' out1]. simpl in Em.
  set (t1 := mkTailer _ _ true None _ s'). set (out2 := mkOut (out_lines out1) _).
  assert (Hw : waiting t1) by done. subst k.
  destruct (poll_opening rounds w luck' id [] cur t1 out2 Hn Hcur eq_refl (waiting_start _ _ _ Hw)) as [[-> Hl]|(luck2 & -> & H)].
  - exists (Err tt), t1, (out_lines out2). split; [done|]. split; [right; exists (out_lines out'); eauto 10|].
    intros Hl'. destruct E3 as [_ ?]; lia.
  - destruct H as (got & left' & r & ls & -> & F1 & F2 & F3 & (new & F4 & F5)). exists r, (reading id [] got), ls. split; [done|]. split.
    + right. exists (out_lines out'). split; [done|]. right. exists got, left'. split; [done|]. split; [done|]. split; [|done].
      rewrite F4. change (out_lines out2) with (out_lines out1). rewrite Em, <- app_assoc. do 2 f_equal. symmetry. exact F5.
    + intros Hl'. apply F3. destruct E3 as [_ ?]; lia.
Qed.

Definition closed_lines (closed : list bytes) : list string := concat (all_lines <$> closed).

Inductive sys_inv (s : Sys) (closed : list bytes) (cur : bytes) : Prop :=
| inv_reading id d pre fed rest :
    w_named (s_world s) = Some id -> content (s_world s) id = pre ++ fed ++ rest -> cur = d ++ fed ++ rest ->
    partial d = [] -> s_tailer s = reading id pre fed -> s_delivered s = closed_lines closed ++ log_lines (d ++ fed) ->
    sys_inv s closed cur
| inv_restarted id d pre rest :
    w_named (s_world s) = Some id -> content (s_world s) id = pre ++ rest -> cur = d ++ rest ->
    partial d = [] -> s_tailer s = Tailer_new (s_world s) (Some (mkPosition (Some id) (blen pre))) ->
    s_delivered s = closed_lines closed ++ log_lines d ->
    sys_inv s closed cur
| inv_rotated id old d pre fed rest closed' :
    w_named (s_world s) = Some id -> old <> id -> content (s_world s) old = pre ++ fed ++ rest ->
    content (s_world s) id = cur -> closed = closed' ++ [d ++ fed ++ rest] ->
    partial d = [] -> s_tailer s = reading old pre fed -> s_delivered s = closed_lines closed' ++ log_lines (d ++ fed) ->
    sys_inv s closed cur
| inv_waiting id :
    w_named (s_world s) = Some id -> content (s_world s) id = cur -> waiting (s_tailer s) ->
    s_delivered s = closed_lines closed -> sys_inv s closed cur.

Lemma closed_lines_snoc closed l : closed_lines (closed ++ [l]) = closed_lines closed ++ all_lines l.
Proof. unfold closed_lines. rewrite fmap_app, concat_app. simpl. by rewrite app_nil_r. Qed.

Lemma restarted_start w id pre rest :
  content w id = pre ++ rest ->
  start_offset (Tailer_new w (Some (mkPosition (Some id) (blen pre)))) id (blen (content w id)) = blen pre.
Proof.
  intros ->. unfold start_offset, Tailer_new. cbn [t_from_start t_saved pos_id pos_offset].
  rewrite (bool_decide_eq_true_2 (Some id = Some id)) by done.
  rewrite (proj2 (Z.leb_le _ _)) by (rewrite blen_app; pose proof (blen_nonneg rest); lia). done.
Qed.

(** The calls a poll needs to finish. *)
Definition enough (w : World) (t : Tailer) : nat :=
  (match t_file t with Some (id, _) => length (content w id) | None => 0 end
   + match w_named w with Some id => length (content w id) | None => 0 end + 12)%nat.

Definition caught_up (s : Sys) (ls : list string) (closed : list bytes) (cur : bytes) : Prop :=
  s_delivered s ++ ls = closed_lines closed ++ log_lines cur.

(** What a poll of the named file adds. *)
Lemma reading_step closed d fed rest got left (r : result PollOutcome unit) luck out ls :
  out_lines out = [] -> partial d = [] ->
  rest = got ++ left /\ ((exists o, r = Ok o) -> left = [])
  /\ ((S (S (length rest)) < luck)%nat -> exists o, r = Ok o) /\ adds (out_lines out) ls fed (fed ++ got) ->
  (closed_lines closed ++ log_lines (d ++ fed)) ++ ls = closed_lines closed ++ log_lines (d ++ fed ++ got)
  /\ ((exists o, r = Ok o) -> (closed_lines closed ++ log_lines (d ++ fed)) ++ ls = closed_lines closed ++ log_lines (d ++ fed ++ rest)).
Proof.
  intros Ho Hd (Er & E2 & _ & (new & -> & E)). rewrite Ho. simpl.
  rewrite !(log_lines_aligned d) by done. assert (Hx : (closed_lines closed ++ log_lines d ++ log_lines fed) ++ new
    = closed_lines closed ++ log_lines d ++ log_lines (fed ++ got)) by (by rewrite E, <- !app_assoc).
  split; [done|]. intros Hok. rewrite Hx, Er, (E2 Hok), app_nil_r. done.
Qed.

Lemma poll_inv s closed cur luck :
  sys_inv s closed cur ->
  exists r t ls, poll (s_world s) luck (s_tailer s) = Ran (r, t, ls)
    /\ sys_inv (mkSys (s_world s) t (s_delivered s ++ ls)) closed cur
    /\ ((exists o, r = Ok o) -> caught_up s ls closed cur)
    /\ ((enough (s_world s) (s_tailer s) <= luck)%nat -> exists o, r = Ok o).
Proof.
  intros Hinv. unfold poll, caught_up. set (out := mkOut [] PollOutcome_default).
  destruct Hinv as [id d pre fed rest Hn Hc Hcur Hd Ht Hdel|id d pre rest Hn Hc Hcur Hd Ht Hdel
                   |id old d pre fed rest closed' Hn Hne Hold Hc Hcl Hd Ht Hdel|id Hn Hc Hw Hdel].
  - rewrite Ht. destruct (poll_reading 1 (s_world s) luck id pre fed rest out Hn Hc) as (got & left & r & ls & -> & E).
    exists r, (reading id pre (fed ++ got)), ls. split; [done|].
    destruct (reading_step closed d fed rest got left r luck out ls) as (E1 & E2); [done..|].
    rewrite Hdel, Hcur. destruct E as (Er & _ & E4 & _). split; [|split; [exact E2|]].
    + eapply (inv_reading _ _ _ id d pre (fed ++ got) left); simpl; try done; [by rewrite Hc, Er, <- !app_assoc|by rewrite Er, <- !app_assoc].
    + intros Hl. apply E4. unfold enough, reading in Hl. cbn [t_file] in Hl. rewrite Hc, !length_app in Hl. lia.
  - rewrite Ht. destruct (poll_opening 1 (s_world s) luck id pre rest
      (Tailer_new (s_world s) (Some (mkPosition (Some id) (blen pre)))) out Hn Hc eq_refl (restarted_start _ _ _ _ Hc))
      as [[-> Hl]|(luck' & -> & got & left & r & ls & -> & E)].
    + exists (Err tt), (Tailer_new (s_world s) (Some (mkPosition (Some id) (blen pre)))), []. split; [done|].
      split; [|split; [by intros []|unfold enough; lia]]. rewrite app_nil_r.
      by apply (inv_restarted _ _ _ id d pre rest).
    + exists r, (reading id pre got), ls. split; [done|].
      destruct (reading_step closed d [] rest got left r luck' out ls) as (E1 & E2); [done..|]. rewrite app_nil_r in E1, E2.
      rewrite Hdel, Hcur. destruct E as (Er & _ & E4 & _). split; [|split; [exact E2|]].
      * by apply (inv_reading _ _ _ id d pre got left); simpl; rewrite ?Hc, ?Er.
      * intros Hl. apply E4. unfold enough, Tailer_new in Hl. cbn [t_file] in Hl. rewrite Hn, Hc, !length_app in Hl. lia.
  - rewrite Ht. destruct (poll_rotated 0 (s_world s) luck id old pre fed rest cur out Hn Hne Hold Hc) as (r & t & ls & -> & E & El).
    exists r, t, ls. split; [done|]. assert (Hlive : (enough (s_world s) (reading old pre fed) <= luck)%nat -> exists o, r = Ok o).
    { intros Hl. apply El. unfold enough, reading in Hl. cbn [t_file] in Hl. rewrite Hn, Hold, Hc, !length_app in Hl. lia. }
    rewrite Hdel, Hcl, closed_lines_snoc. split; [|split; [|exact Hlive]].
    + destruct E as [(got & left & -> & -> & _ & (new & -> & E))|(y & (new & -> & E) & [(Hw & _ & ->)|(got & left & -> & -> & -> & _)])].
      * apply (inv_rotated _ _ _ id old d pre (fed ++ got) left closed'); simpl; try done.
        -- by rewrite Hold, <- !app_assoc.
        -- by rewrite <- !app_assoc.
        -- rewrite !(log_lines_aligned d), E by done. by rewrite <- !app_assoc.
      * apply (inv_waiting _ _ _ id); simpl; try done. rewrite closed_lines_snoc.
        rewrite (all_lines_aligned d), all_log, E, (log_lines_aligned d) by done. by rewrite <- !app_assoc.
      * apply (inv_reading _ _ _ id [] [] got left); simpl; try done. rewrite closed_lines_snoc.
        rewrite (all_lines_aligned d), all_log, E, (log_lines_aligned d) by done. by rewrite <- !app_assoc.
    + intros [o Ho]. destruct E as [(got & left & _ & _ & [e He] & _)|(y & (new & -> & E) & [(_ & [e He] & _)|(got & left & -> & _ & -> & Hlast)])];
        [congruence..|]. rewrite (Hlast ltac:(eauto)), app_nil_r.
      rewrite (all_lines_aligned d), all_log, E, (log_lines_aligned d) by done. by rewrite <- !app_assoc.
  - destruct (poll_opening 1 (s_world s) luck id [] cur (s_tailer s) out Hn Hc (proj1 Hw) (waiting_start _ _ _ Hw))
      as [[-> Hl]|(luck' & -> & got & left & r & ls & -> & E)].
    + exists (Err tt), (s_tailer s), []. split; [done|]. split; [|split; [by intros []|unfold enough; lia]].
      rewrite app_nil_r. by apply (inv_waiting _ _ _ id).
    + exists r, (reading id [] got), ls. split; [done|].
      destruct (reading_step closed [] [] cur got left r luck' out ls) as (E1 & E2); [done..|]. simpl in E1, E2.
      change (log_lines []) with (@nil string) in E1, E2. rewrite app_nil_r in E1, E2. rewrite Hdel.
      destruct E as (Er & _ & E4 & _). split; [|split; [exact E2|]].
      * by apply (inv_reading _ _ _ id [] [] got left); simpl; rewrite ?Hc, ?Er.
      * intros Hl. apply E4. unfold enough in Hl. rewrite Hn, Hc in Hl. lia.
Qed.

Lemma content_insert w id id' n l :
  content (mkWorld n (<[id := l]> (w_files w))) id' = if decide (id = id') then l else content w id'.
Proof.
  unfold content. simpl. destruct (decide (id = id')) as [<-|Hne]; [by rewrite lookup_insert_eq|by rewrite lookup_insert_ne].
Qed.

Lemma append_inv s closed cur bs s' :
  sys_inv s closed cur -> sys_step (Append bs) s = Some s' -> sys_inv s' closed (cur ++ bs).
Proof.
  intros Hinv. cbn [sys_step].
  destruct Hinv as [id d pre fed rest Hn Hc Hcur Hd Ht Hdel|id d pre rest Hn Hc Hcur Hd Ht Hdel
                   |id old d pre fed rest closed' Hn Hne Hold Hc Hcl Hd Ht Hdel|id Hn Hc Hw Hdel];
    rewrite Hn; intros [= <-].
  - apply (inv_reading _ _ _ id d pre fed (rest ++ bs)); simpl; try done.
    + rewrite content_insert, decide_True, Hc by done. by rewrite <- !app_assoc.
    + by rewrite Hcur, <- !app_assoc.
  - apply (inv_restarted _ _ _ id d pre (rest ++ bs)); simpl; try done.
    + rewrite content_insert, decide_True, Hc by done. by rewrite <- !app_assoc.
    + by rewrite Hcur, <- !app_assoc.
  - apply (inv_rotated _ _ _ id old d pre fed rest closed'); simpl; try done.
    + by rewrite content_insert, decide_False by congruence.
    + by rewrite content_insert, decide_True, Hc by done.
  - apply (inv_waiting _ _ _ id); simpl; try done. by rewrite content_insert, decide_True, Hc by done.
Qed.

Lemma rotate_inv s closed cur id' s' :
  sys_inv s closed cur -> sys_step (Rotate id') s = Some s' -> sys_inv s' (closed ++ [cur]) [].
Proof.
  intros Hinv. cbn [sys_step]. destruct (attached s && _) eqn:E; [|done]. intros [= <-].
  apply andb_true_iff in E as [Ha Hf%bool_decide_eq_true]. unfold attached in Ha.
  destruct Hinv as [id d pre fed rest Hn Hc Hcur Hd Ht Hdel|id d pre rest Hn Hc Hcur Hd Ht Hdel
                   |id old d pre fed rest closed' Hn Hne Hold Hc Hcl Hd Ht Hdel|id Hn Hc Hw Hdel].
  - assert (Hne : id <> id' \/ pre ++ fed ++ rest = []).
    { destruct (decide (id = id')) as [<-|]; [right|by left]. rewrite <- Hc. exact (f_equal (default []) Hf). }
    destruct (decide (id = id')) as [<-|Hid].
    + destruct Hne as [?|Hnil]; [done|]. apply app_nil in Hnil as [-> [-> ->]%app_nil].
      apply (inv_reading _ _ _ id [] [] [] []); simpl; try done; [by rewrite content_insert, decide_True by done|].
      rewrite Hdel, Hcur, closed_lines_snoc, !app_nil_r. f_equal. rewrite all_log, Hd. simpl. by rewrite app_nil_r.
    + apply (inv_rotated _ _ _ id' id d pre fed rest closed); simpl; try done.
      * by rewrite content_insert, decide_False by congruence.
      * by rewrite content_insert, decide_True by done.
      * by rewrite Hcur.
  - by rewrite Ht in Ha.
  - rewrite Ht in Ha. unfold reading in Ha. cbn [t_file] in Ha. apply bool_decide_eq_true in Ha. congruence.
  - destruct Hw as [Hw _]. by rewrite Hw in Ha.
Qed.

Lemma restart_inv s closed cur s' :
  sys_inv s closed cur -> sys_step Restart s = Some s' -> sys_inv s' closed cur.
Proof.
  intros Hinv. cbn [sys_step]. destruct (_ || _) eqn:E; [|done]. intros [= <-]. unfold attached, resumable in E.
  destruct Hinv as [id d pre fed rest Hn Hc Hcur Hd Ht Hdel|id d pre rest Hn Hc Hcur Hd Ht Hdel
                   |id old d pre fed rest closed' Hn Hne Hold Hc Hcl Hd Ht Hdel|id Hn Hc Hw Hdel].
  - destruct (partial_suffix fed) as (f1 & Ef & Hp & Hcf). set (tl := partial fed) in *.
    apply (inv_restarted _ _ _ id (d ++ f1) (pre ++ f1) (tl ++ rest)); simpl; try done.
    + rewrite Hc. rewrite Ef at 1. by rewrite <- !app_assoc.
    + rewrite Hcur. rewrite Ef at 1. by rewrite <- !app_assoc.
    + assert (split_nl (d ++ f1) = complete d ++ complete f1 ++ [[]]) as Es.
      { rewrite split_nl_app, Hd. simpl. pose proof (split_nl_parts f1) as H1. rewrite Hp in H1.
        transitivity (complete d ++ split_nl f1); [|f_equal; exact H1].
        pose proof (split_nl_ne f1). by destruct (split_nl f1). }
      rewrite app_assoc in Es. by apply parts_unique in Es as [_ ->].
    + rewrite Ht. unfold position, reading, view. cbn [t_file t_id t_state st_consumed]. do 3 f_equal.
      fold tl. rewrite blen_app. rewrite Ef at 1. rewrite blen_app. lia.
    + rewrite Hdel, !(log_lines_aligned d) by done. unfold log_lines. by rewrite Hcf.
  - rewrite Ht. apply (inv_restarted _ _ _ id d pre rest); simpl; try done.
  - rewrite Ht in E. unfold reading in E. cbn [t_file] in E. rewrite orb_false_r in E. apply bool_decide_eq_true in E. congruence.
  - destruct Hw as (Hw1 & Hw2 & _). by rewrite Hw1, Hw2 in E.
Qed.

Lemma sys_step_inv s closed cur e s' :
  sys_inv s closed cur -> sys_step e s = Some s' ->
  sys_inv s' (text_step (closed, cur) e).1 (text_step (closed, cur) e).2.
Proof.
  intros Hinv Hs. destruct e as [bs|id|luck|]; simpl.
  - by eapply append_inv.
  - by eapply rotate_inv.
  - cbn [sys_step] in Hs. destruct (poll_inv s closed cur luck Hinv) as (r & t & ls & E & Hi & _).
    rewrite E in Hs. injection Hs as <-. done.
  - by eapply restart_inv.
Qed.

Lemma sys_run_inv es s closed cur s' :
  sys_inv s closed cur -> sys_run es s = Some s' ->
  sys_inv s' (foldl text_step (closed, cur) es).1 (foldl text_step (closed, cur) es).2.
Proof.
  revert s closed cur. induction es as [|e es IH]; intros s closed cur Hinv; simpl; [by intros [= <-]|].
  destruct (sys_step e s) as [s1|] eqn:E; [|done]. simpl. intros Hr.
  pose proof (sys_step_inv _ _ _ _ _ Hinv E) as H1. destruct (text_step (closed, cur) e) as [c1 x1]. by apply (IH s1).
Qed.

(** A source as it is first opened, at the end of a file with the text [old]. *)
Definition first_open (id : FileId) (old : bytes) : Sys :=
  mkSys (mkWorld (Some id) {[ id := old ]}) (reading id old []) [].

(** C30. The tailer refines a reader of the whole text, under three conditions on what
    happens around it ([sys_run]): writers append to the file that has the log's name
    only; a rotation finds the tailer reading the current file, so that at most one
    file waits behind the new one; and a restart finds it on the current file or
    resuming it.  Then, after any such sequence of appends, rotations, restarts from
    the saved position and polls that fail at any system call, a poll that gets enough
    calls through ends, and what has then been delivered is exactly the lines written
    since the start: every file that was rotated away to its last, unfinished line,
    and the complete lines of the current one, each once and in order. *)
Theorem tail_exact id old es s :
  sys_run es (first_open id old) = Some s ->
  forall luck, (enough (s_world s) (s_tailer s) <= luck)%nat ->
  exists o t ls, poll (s_world s) luck (s_tailer s) = Ran (Ok o, t, ls)
    /\ s_delivered s ++ ls = concat (all_lines <$> (texts es).1) ++ log_lines (texts es).2.
Proof.
  intros Hr luck Hl. assert (Hi : sys_inv (first_open id old) [] []).
  { apply (inv_reading _ _ _ id [] old [] []); simpl; try done. unfold content. simpl.
    by rewrite lookup_singleton_eq, app_nil_r. }
  pose proof (sys_run_inv es _ _ _ _ Hi Hr) as Hs. fold (texts es) in Hs.
  destruct (poll_inv s _ _ luck Hs) as (r & t & ls & E & _ & H1 & H2). destruct (H2 Hl) as [o ->].
  exists o, t, ls. split; [done|]. apply H1. eauto.
Qed.

Definition demo_events : list LogEvent :=
  [Append (bytes_of_str "ab" ++ [NEWLINE] ++ bytes_of_str "c"); Poll 20; Restart; Append (bytes_of_str "d" ++ [NEWLINE]); Poll 20;
   Append (bytes_of_str "end"); Rotate (mkFileId 1 2); Append (bytes_of_str "x" ++ [NEWLINE]); Poll 2].

Lemma tail_exact_witness :
  exists s, sys_run demo_events (first_open (mkFileId 1 1) (bytes_of_str "old" ++ [NEWLINE])) = Some s
    /\ exists o t ls, poll (s_world s) 60 (s_tailer s) = Ran (Ok o, t, ls)
       /\ s_delivered s ++ ls = ["ab"; "cd"; "end"; "x"]%string.
Proof.
  destruct (sys_run demo_events (first_open (mkFileId 1 1) (bytes_of_str "old" ++ [NEWLINE]))) as [s|] eqn:E;
    [|vm_compute in E; discriminate E].
  exists s. split; [done|]. assert (Hl : (enough (s_world s) (s_tailer s) <= 60)%nat).
  { vm_compute in E. injection E as <-. apply Nat.leb_le. vm_compute. reflexivity. }
  destruct (tail_exact _ _ _ _ E 60 Hl) as (o & t & ls & E1 & E2). exists o, t, ls. split; [done|].
  rewrite E2. vm_compute. reflexivity.
Defined.

(** A writer that keeps the old file open after the rotation was seen, as a server
    does until it is told to reopen its log: what it writes there is never read. *)
Lemma late_lines_lost :
  let old := mkFileId 1 1 in let new := mkFileId 1 2 in
  let rotated := mkWorld (Some new) {[ old := []; new := [] ]} in
  let late := mkWorld (Some new) {[ old := bytes_of_str "late" ++ [NEWLINE]; new := [] ]} in
  exists o t, poll rotated 60 (reading old [] []) = Ran (Ok o, t, [])
    /\ exists o' t', poll late 60 t = Ran (Ok o', t', []).
Proof. do 2 eexists. split; [vm_compute; reflexivity|]. do 2 eexists. vm_compute. reflexivity. Qed.

Definition position_fits (p : Position) : Prop :=
  0 <= pos_offset p <= U64_MAX
  /\ forall id, pos_id p = Some id -> 0 <= fid_dev id <= U64_MAX /\ 0 <= fid_ino id <= U64_MAX.

Lemma show_not_minus z : String.eqb (show_u64 z) "-" = false.
Proof. apply String.eqb_neq. intros E. pose proof (show_digits z) as H. by rewrite E in H. Qed.

Lemma show_ascii z : str_all ascii_byte (show_u64 z) = true.
Proof. apply word_ascii, show_word_byte. Qed.

Lemma cat_words a b c d :
  str_all word_byte a = true -> a <> EmptyString -> str_all word_byte b = true -> b <> EmptyString ->
  str_all word_byte c = true -> c <> EmptyString -> str_all word_byte d = true -> d <> EmptyString ->
  split_whitespace (a +:+ String " " (b +:+ String " " (c +:+ String " " d))) = [a; b; c; d].
Proof.
  intros Ha Na Hb Nb Hc Nc Hd Nd.
  assert (A1 : str_all ascii_byte d = true) by (by apply word_ascii).
  assert (A2 : str_all ascii_byte (c +:+ String " " d) = true) by (rewrite str_all_app, word_ascii by done; exact A1).
  assert (A3 : str_all ascii_byte (b +:+ String " " (c +:+ String " " d)) = true)
    by (rewrite str_all_app, word_ascii by done; exact A2).
  by rewrite !split_word, split_last_word by done.
Qed.

(** The saved position reads back. *)
Lemma position_roundtrip p : position_fits p -> decode (encode p) = Some p.
Proof.
  intros [Ho Hid]. pose proof (show_word_byte (pos_offset p)) as Hw. pose proof (show_nonempty (pos_offset p)) as Hn.
  destruct p as [[[d i]|] o]; unfold encode, decode; cbn [pos_id pos_offset cat foldr] in *.
  - destruct (Hid _ eq_refl) as [Hd Hi]. simpl in Hd, Hi. rewrite str_app_nil_r.
    change ("v1 " +:+ show_u64 d +:+ " " +:+ show_u64 i +:+ " " +:+ show_u64 o)%string
      with ("v1" +:+ String " " (show_u64 d +:+ String " " (show_u64 i +:+ String " " (show_u64 o))))%string.
    rewrite cat_words by (done || apply show_word_byte || apply show_nonempty). cbn [String.eqb].
    rewrite show_not_minus, !parse_show by done. done.
  - rewrite str_app_nil_r.
    change ("v1 - - " +:+ show_u64 o)%string with ("v1" +:+ String " " ("-" +:+ String " " ("-" +:+ String " " (show_u64 o))))%string.
    rewrite cat_words by done. simpl. by rewrite parse_show.
Qed.
