(* ===== verification/EventLog.v ===== *)
(** * EventLog: the Windows event-log sensor (crates/sensors/windows/eventlog)

    The extraction of fields from rendered events ([xml.rs]) and the poll pipeline
    with its normalisers ([sensor.rs]).  [wevtutil]'s answers, the clock, the
    environment and the files of the task store are arguments. *)
From stdpp Require Import base gmap strings list.
From Stdlib Require Import ZArith Lia Ascii.
From Stdlib Require String.
From S2P Require Import Prelude Str Text Scan Schema Net Fs Utf8 Bytes.
#[local] Open Scope string_scope.
#[local] Open Scope Z_scope.

(** ** [xml.rs] *)

Definition EVENT_END : string := "</Event>".

(** Every block takes fifteen bytes or more of the text: its length bounds the rounds. *)
Fixpoint split_event_blocks_loop (fuel : nat) (rest : string) : Run (list string) :=
  match split_once "<Event " rest with
  | None => Ran []
  | Some (_, after) =>
      match fuel with
      | O => Spun
      | S fuel =>
          match split_once EVENT_END (String.append "<Event " after) with
          | None => Ran []
          | Some (block, rest) =>
              bs <-run split_event_blocks_loop fuel rest;
              Ran (String.append block EVENT_END :: bs)
          end
      end
  end.
Definition split_event_blocks (xml : string) : Run (list string) := split_event_blocks_loop (String.length xml) xml.

Definition extract_between (block start end_ : string) : option string :=
  '(_, rest) ← split_once start block; '(v, _) ← split_once end_ rest; Some v.

Definition xml_quote : string := String quote EmptyString.
Definition unescape_xml_entities (s : string) : string :=
  str_replace "&amp;" "&"
    (str_replace "&apos;" "'" (str_replace "&quot;" xml_quote (str_replace "&gt;" ">" (str_replace "&lt;" "<" s)))).

Definition record_id_of (block : string) : option Z :=
  extract_between block "<EventRecordID>" "</EventRecordID>" ≫= parse_u64.
Definition parse_u32 : string -> option Z := parse_upto U32_MAX.
Definition execution_pid (block : string) : Z := default 0 (extract_between block "ProcessID='" "'" ≫= parse_u32).

Record ServiceInstallEvent := mkServiceInstallEvent {
  si_record_id : Z;
  si_service_name : string;
  si_image_path : string;
  si_pid : Z }.

Definition parse_service_install_block (block : string) : option ServiceInstallEvent :=
  record_id ← record_id_of block;
  Some (mkServiceInstallEvent record_id
          (default EmptyString (extract_between block "<Data Name='ServiceName'>" "</Data>"))
          (trim (default EmptyString (extract_between block "<Data Name='ImagePath'>" "</Data>")))
          (execution_pid block)).

Record ScheduledTaskEvent := mkScheduledTaskEvent {
  te_record_id : Z;
  te_task_name : string;
  te_task_content : string;
  te_pid : Z }.

Definition data_open (name : string) : string := cat ["<Data Name='"; name; "'>"].

Definition parse_task_block_with_content_field (block content_field : string) : option ScheduledTaskEvent :=
  record_id ← record_id_of block;
  Some (mkScheduledTaskEvent record_id
          (default EmptyString (extract_between block "<Data Name='TaskName'>" "</Data>"))
          (unescape_xml_entities (default EmptyString (extract_between block (data_open content_field) "</Data>")))
          (default 0 (extract_between block "<Data Name='ClientProcessId'>" "</Data>" ≫= parse_u32))).
Definition parse_scheduled_task_block (block : string) : option ScheduledTaskEvent :=
  parse_task_block_with_content_field block "TaskContent".
Definition parse_scheduled_task_update_block (block : string) : option ScheduledTaskEvent :=
  parse_task_block_with_content_field block "TaskContentNew".

Definition MAX_TASK_ACTIONS : nat := 32.
Definition TASK_ACTION_SEPARATOR : string := " | ".
Definition TASK_ACTION_UNKNOWN : string := "<action unknown>".

Inductive TaskAction := Exec (command_line : string) | ComHandler (class_id : string).
Definition render (a : TaskAction) : string :=
  match a with Exec command_line => command_line | ComHandler class_id => String.append "com:" class_id end.

Inductive ActionKind := KindExec | KindComHandler.

Definition starts_with_tag (s name : string) : bool :=
  match strip_prefix name s with
  | Some rest =>
      match str_chars rest with
      | c :: _ => String.eqb c ">" || String.eqb c "/" || char_is_whitespace c
      | [] => false
      end
  | None => false
  end.

(** What follows the name of an element found at [after_lt]. *)
Definition action_element (kind : ActionKind) (name after_lt : string) : option (ActionKind * string * string) :=
  '(tag, after_tag) ← split_once ">" after_lt;
  if ends_with "/" tag then Some (kind, EmptyString, after_tag)
  else '(body, rest) ← split_once (cat ["</"; name; ">"]) after_tag; Some (kind, body, rest).

(** The loop over the tags: [s] is the text after [search_from]. *)
Fixpoint next_action_element (s : string) : option (ActionKind * string * string) :=
  match s with
  | EmptyString => None
  | String a after_lt =>
      if Ascii.eqb a "<" then
        if starts_with_tag after_lt "Exec" then action_element KindExec "Exec" after_lt
        else if starts_with_tag after_lt "ComHandler" then action_element KindComHandler "ComHandler" after_lt
        else next_action_element after_lt
      else next_action_element after_lt
  end.

Definition exec_command_line (body : string) : option string :=
  command ← trim <$> extract_between body "<Command>" "</Command>";
  if str_is_empty command then None
  else let arguments := trim (default EmptyString (extract_between body "<Arguments>" "</Arguments>")) in
       Some (if str_is_empty arguments then command else cat [command; " "; arguments]).

Definition read_action (kind : ActionKind) (body : string) : option TaskAction :=
  match kind with
  | KindExec => Exec <$> exec_command_line body
  | KindComHandler =>
      id ← trim <$> extract_between body "<ClassId>" "</ClassId>";
      if str_is_empty id then None else Some (ComHandler id)
  end.

(** Every element takes its tag of the text: the length bounds the rounds. *)
Fixpoint task_actions_loop (fuel : nat) (rest : string) (actions : list TaskAction) : Run (list TaskAction) :=
  if (length actions <? MAX_TASK_ACTIONS)%nat then
    match next_action_element rest with
    | None => Ran actions
    | Some (kind, body, after) =>
        match fuel with
        | O => Spun
        | S fuel => task_actions_loop fuel after (actions ++ match read_action kind body with Some a => [a] | None => [] end)
        end
    end
  else Ran actions.
Definition task_actions (task_content : string) : Run (list TaskAction) :=
  task_actions_loop (String.length task_content) task_content [].

Definition task_actions_display (task_content : string) : Run (option string) :=
  actions <-run task_actions task_content;
  Ran (match actions with [] => None | _ => Some (String.concat TASK_ACTION_SEPARATOR (render <$> actions)) end).

Definition is_backslash (a : ascii) : bool := Ascii.eqb a backslash_char.
Definition task_leaf_name (task_name : string) : string :=
  match rsplit_byte is_backslash task_name with Some (_, leaf) => leaf | None => task_name end.

Record LogonEvent := mkLogonEvent {
  le_record_id : Z;
  le_event_id : Z;
  le_pid : Z;
  le_subject_user_sid : option string;
  le_subject_user_name : option string;
  le_target_user_sid : option string;
  le_target_user_name : option string;
  le_ip_address : option string;
  le_status : option string;
  le_sub_status : option string }.

Definition opt_data (block name : string) : option string :=
  s ← trim <$> extract_between block (data_open name) "</Data>";
  if str_is_empty s || String.eqb s "-" then None else Some s.

Definition parse_logon_block (block : string) : option LogonEvent :=
  record_id ← record_id_of block;
  event_id ← extract_between block "<EventID>" "</EventID>" ≫= parse_u32;
  Some (mkLogonEvent record_id event_id (execution_pid block)
          (opt_data block "SubjectUserSid") (opt_data block "SubjectUserName") (opt_data block "TargetUserSid")
          (opt_data block "TargetUserName") (opt_data block "IpAddress") (opt_data block "Status") (opt_data block "SubStatus")).

Record AccountCreatedEvent := mkAccountCreatedEvent {
  ac_record_id : Z;
  ac_pid : Z;
  ac_target_user_sid : option string;
  ac_target_user_name : option string;
  ac_subject_user_sid : option string;
  ac_subject_user_name : option string }.

Definition parse_account_created_block (block : string) : option AccountCreatedEvent :=
  record_id ← record_id_of block;
  Some (mkAccountCreatedEvent record_id (execution_pid block)
          (opt_data block "TargetSid") (opt_data block "TargetUserName") (opt_data block "SubjectUserSid")
          (opt_data block "SubjectUserName")).

Record AppLockerEvent := mkAppLockerEvent {
  al_record_id : Z;
  al_event_id : Z;
  al_policy_name : string;
  al_target_user : option string;
  al_pid : Z;
  al_target_process_id : Z;
  al_file_path : string;
  al_full_file_path : option string }.

Definition nonempty (s : string) : option string := if str_is_empty s then None else Some s.

Definition parse_applocker_event (block : string) : option AppLockerEvent :=
  record_id ← record_id_of block;
  Some (mkAppLockerEvent record_id
          (default 0 (extract_between block "<EventID>" "</EventID>" ≫= (fun s => parse_u32 (trim s))))
          (default EmptyString (trim <$> extract_between block "<PolicyName>" "</PolicyName>"))
          (trim <$> extract_between block "<TargetUser>" "</TargetUser>" ≫= nonempty)
          (execution_pid block)
          (default 0 (extract_between block "<TargetProcessId>" "</TargetProcessId>" ≫= parse_u32))
          (default EmptyString ((fun s => unescape_xml_entities (trim s)) <$> extract_between block "<FilePath>" "</FilePath>"))
          (unescape_xml_entities <$> (trim <$> extract_between block "<FullFilePath>" "</FullFilePath>" ≫= nonempty))).

Definition VARIABLES : list (string * string * string) :=
  [("%OSDRIVE%", "SystemDrive", EmptyString); ("%WINDIR%", "SystemRoot", EmptyString);
   ("%SYSTEM32%", "SystemRoot", String backslash_char "System32"); ("%PROGRAMFILES%", "ProgramFiles", EmptyString)].

(** [raw.get(..n)]: none past the end or inside a character. *)
Definition get_prefix (n : nat) (raw : string) : option string :=
  if (n <=? String.length raw)%nat && is_char_boundary raw n then Some (str_take n raw) else None.
Definition names_variable (raw : string) (v : string * string * string) : bool :=
  match get_prefix (String.length v.1.1) raw with Some p => eq_ignore_ascii_case p v.1.1 | None => false end.
Definition expand_applocker_path (raw : string) (env : string -> option string) : string :=
  match List.find (names_variable raw) VARIABLES with
  | None => raw
  | Some (variable, env_name, suffix) =>
      match env env_name with
      | Some value => cat [value; suffix; str_drop (String.length variable) raw]
      | None => raw
      end
  end.

Record TaskSchedulerOpRegisteredEvent := mkTaskSchedulerOpRegisteredEvent {
  tr_record_id : Z;
  tr_pid : Z;
  tr_task_name : string;
  tr_user_context : string }.

Definition MAX_TASK_DEFINITION_BYTES : Z := 256 * 1024.

(** [char::is_control]. *)
Definition is_control (c : string) : bool :=
  match char_bytes c with
  | [n] => (n <? 32)%nat || (n =? 127)%nat
  | [194%nat; n] => (128 <=? n)%nat && (n <=? 159)%nat
  | _ => false
  end.
Definition is_reserved (c : string) : bool := one_of ["/"; ":"; "*"; "?"; xml_quote; "<"; ">"; "|"] c.
Definition plain_component (c : string) : bool :=
  negb (str_is_empty c) && negb (ends_with "." c || ends_with " " c)
  && negb (existsb (fun ch => is_control ch || is_reserved ch) (str_chars c)).
Definition task_definition_relative_path (task_name : string) : option string :=
  rest ← strip_prefix (String backslash_char EmptyString) task_name;
  let components := str_split backslash_char rest in
  if forallb plain_component components then Some (String.concat (String backslash_char EmptyString) components) else None.

(** [char::encode_utf8] of a scalar value. *)
Definition encode_utf8 (c : Z) : bytes :=
  if c <? 0x80 then [c]
  else if c <? 0x800 then [0xC0 + c / 64; 0x80 + c mod 64]
  else if c <? 0x10000 then [0xE0 + c / 4096; 0x80 + c / 64 mod 64; 0x80 + c mod 64]
  else [0xF0 + c / 262144; 0x80 + c / 4096 mod 64; 0x80 + c / 64 mod 64; 0x80 + c mod 64].
Definition is_high (u : Z) : bool := (0xD800 <=? u) && (u <=? 0xDBFF).
Definition is_low (u : Z) : bool := (0xDC00 <=? u) && (u <=? 0xDFFF).
#[local] Open Scope list_scope.
(** [String::from_utf16_lossy]. *)
Fixpoint utf16_lossy (units : list Z) : bytes :=
  match units with
  | [] => []
  | u :: us =>
      if is_high u then
        match us with
        | v :: vs => if is_low v then encode_utf8 (0x10000 + (u - 0xD800) * 1024 + (v - 0xDC00)) ++ utf16_lossy vs
                     else REPLACEMENT ++ utf16_lossy us
        | [] => REPLACEMENT
        end
      else if is_low u then REPLACEMENT ++ utf16_lossy us
      else encode_utf8 u ++ utf16_lossy us
  end.
(** [chunks_exact(2)] of little-endian pairs. *)
Fixpoint le_units (b : bytes) : list Z := match b with x :: y :: b => (x + 256 * y) :: le_units b | _ => [] end.

Definition decode_task_definition (b : bytes) : string :=
  match b with
  | 0xFF :: 0xFE :: utf16 => str_of_bytes (utf16_lossy (le_units utf16))
  | 0xEF :: 0xBB :: 0xBF :: utf8 => from_utf8_lossy utf8
  | _ => from_utf8_lossy b
  end.

Definition parse_task_scheduler_op_registered_block (block : string) : option TaskSchedulerOpRegisteredEvent :=
  record_id ← record_id_of block;
  Some (mkTaskSchedulerOpRegisteredEvent record_id (execution_pid block)
          (default EmptyString (opt_data block "TaskName")) (default EmptyString (opt_data block "UserContext"))).

(** ** [sensor.rs] *)

Definition ParsedBlock : Type := option (Z * option Event).
Definition LSASS_COMM : string := "lsass.exe".
Definition APPLOCKER_EVENT_BLOCKED : Z := 8004.
Definition APPLOCKER_EVENT_AUDITED : Z := 8003.
Definition POLICY_MECHANISM_APPLOCKER : string := "applocker".

Section Normalise.
Context (now_ns : Z) (env : string -> option string) (read_task_file : string -> option bytes).

Definition log_meta (pid : Z) (user : User) (comm : string) : EventMeta := mkEventMeta pid 0 user now_ns comm None None None.

Definition persistence_file_open (pid : Z) (comm path : string) (flags : Z) : Event :=
  Event_FileOpen (mkFileOpenEvent (log_meta pid User_Unknown comm) path flags).

Definition normalize_service_install (block : string) : Run ParsedBlock :=
  install <-some parse_service_install_block block;
  Ran (Some (si_record_id install,
    if str_is_empty (si_service_name install) || str_is_empty (si_image_path install) then None
    else Some (persistence_file_open (si_pid install) (si_service_name install) (si_image_path install) FLAG_PERSISTENCE_ARTIFACT))).

Definition normalize_task (task : ScheduledTaskEvent) (flag : Z) : Run (Z * option Event) :=
  if str_is_empty (te_task_name task) then Ran (te_record_id task, None)
  else
    actions <-run task_actions_display (te_task_content task);
    let '(path, flags) :=
      match actions with
      | Some actions => (actions, flag)
      | None => (TASK_ACTION_UNKNOWN, Z.lor flag FLAG_PERSISTENCE_TASK_ACTION_UNKNOWN)
      end in
    Ran (te_record_id task, Some (persistence_file_open (te_pid task) (task_leaf_name (te_task_name task)) path flags)).

Definition normalize_scheduled_task (block : string) : Run ParsedBlock :=
  task <-some parse_scheduled_task_block block;
  r <-run normalize_task task FLAG_PERSISTENCE_TASK_ARTIFACT; Ran (Some r).
Definition normalize_scheduled_task_update (block : string) : Run ParsedBlock :=
  task <-some parse_scheduled_task_update_block block;
  r <-run normalize_task task FLAG_PERSISTENCE_TASK_UPDATE_ARTIFACT; Ran (Some r).

Definition windows_user (sid : option string) : User :=
  match sid with Some sid => User_Windows sid None | None => User_Unknown end.

Definition logon_kind (event_id : Z) : option (AuthKind * AuthOutcome) :=
  if event_id =? 4624 then Some (AuthKind_Logon, AuthOutcome_Success)
  else if event_id =? 4625 then Some (AuthKind_LogonFailure, AuthOutcome_Failure)
  else if event_id =? 4648 then Some (AuthKind_ExplicitCredentials, AuthOutcome_Success)
  else if event_id =? 4672 then Some (AuthKind_PrivilegedSession, AuthOutcome_Success)
  else None.
Definition status_code_of (status sub : option string) : option string :=
  match status, sub with
  | Some status, Some sub => Some (cat [status; "/"; sub])
  | Some status, None => Some status
  | None, sub => sub
  end.
Definition to_auth_event (logon : LogonEvent) : option Event :=
  '(kind, outcome) ← logon_kind (le_event_id logon);
  let '(target_user, target_user_sid) :=
    if le_event_id logon =? 4672 then (le_subject_user_name logon, le_subject_user_sid logon)
    else (le_target_user_name logon, le_target_user_sid logon) in
  target_user ← target_user;
  Some (Event_Auth (mkAuthEvent (log_meta (le_pid logon) (windows_user (le_subject_user_sid logon)) LSASS_COMM)
          outcome kind target_user target_user_sid (le_ip_address logon ≫= parse_ip)
          (status_code_of (le_status logon) (le_sub_status logon)))).
Definition normalize_logon (block : string) : Run ParsedBlock :=
  logon <-some parse_logon_block block; Ran (Some (le_record_id logon, to_auth_event logon)).

Definition normalize_account_created (block : string) : Run ParsedBlock :=
  account <-some parse_account_created_block block;
  Ran (Some (ac_record_id account,
    (fun target_name =>
       let sid := default (cat ["(unknown-sid:"; target_name; ")"]) (ac_target_user_sid account) in
       persistence_file_open (ac_pid account) target_name sid FLAG_PERSISTENCE_ACCOUNT_ARTIFACT)
    <$> ac_target_user_name account)).

Definition applocker_event (ev : AppLockerEvent) (enforced : bool) : option Event :=
  if str_is_empty (al_file_path ev) then None
  else
    let path := match al_full_file_path ev with Some p => p | None => expand_applocker_path (al_file_path ev) env end in
    Some (Event_PolicyDenial (mkPolicyDenialEvent (log_meta (al_pid ev) (windows_user (al_target_user ev)) EmptyString)
            POLICY_MECHANISM_APPLOCKER None None (nonempty (al_policy_name ev)) (Some "execute") enforced (Some path))).
Definition normalize_applocker_block (block : string) : Run ParsedBlock :=
  ev <-some parse_applocker_event block;
  Ran (Some (al_record_id ev,
    if al_event_id ev =? APPLOCKER_EVENT_BLOCKED then applocker_event ev true
    else if al_event_id ev =? APPLOCKER_EVENT_AUDITED then applocker_event ev false
    else None)).

(** [read_task_file]: what opening and reading the file below the task store gives,
    none on an error. *)
Definition read_task_definition (task_name : string) : option string :=
  p ← task_definition_relative_path task_name;
  file ← read_task_file p;
  let b := take (Z.to_nat (MAX_TASK_DEFINITION_BYTES + 1)) file in
  if MAX_TASK_DEFINITION_BYTES <? blen b then None else Some (decode_task_definition b).

Definition normalize_task_registered_from (block : string) (tasks_dir : bool) : Run ParsedBlock :=
  ev <-some parse_task_scheduler_op_registered_block block;
  let task_content := default EmptyString (if tasks_dir then read_task_definition (tr_task_name ev) else None) in
  r <-run normalize_task (mkScheduledTaskEvent (tr_record_id ev) (tr_task_name ev) task_content (tr_pid ev))
            FLAG_PERSISTENCE_TASK_ARTIFACT;
  Ran (Some r).
Definition normalize_task_scheduler_op_registered (block : string) : Run ParsedBlock :=
  normalize_task_registered_from block (match env "SystemRoot" with Some _ => true | None => false end).
End Normalise.

(** *** The poll pipeline *)

Inductive EventLogTransport := Polling | Subscribe.
Record EventLogConfig := mkEventLogConfig {
  transport : EventLogTransport;
  service_installs_enabled : bool;
  scheduled_tasks_enabled : bool;
  account_creations_enabled : bool;
  logon_events_enabled : bool;
  applocker_blocks_enabled : bool;
  task_scheduler_op_enabled : bool }.
Definition EventLogConfig_default : EventLogConfig := mkEventLogConfig Polling true true true true true true.

Inductive Target := SERVICE_INSTALLS | SCHEDULED_TASKS | SCHEDULED_TASK_UPDATES | ACCOUNT_CREATIONS | LOGON_EVENTS
                  | APPLOCKER_BLOCKS | TASK_SCHEDULER_OP.
#[global] Instance Target_eq_dec : EqDecision Target.
Proof. solve_decision. Defined.
Definition TARGETS : list Target :=
  [SERVICE_INSTALLS; SCHEDULED_TASKS; SCHEDULED_TASK_UPDATES; ACCOUNT_CREATIONS; LOGON_EVENTS; APPLOCKER_BLOCKS; TASK_SCHEDULER_OP].

Definition channel (t : Target) : string :=
  match t with
  | SERVICE_INSTALLS => "System"
  | APPLOCKER_BLOCKS => "Microsoft-Windows-AppLocker/EXE and DLL"
  | TASK_SCHEDULER_OP => "Microsoft-Windows-TaskScheduler/Operational"
  | _ => "Security"
  end.
Definition id_filter (t : Target) : string :=
  match t with
  | SERVICE_INSTALLS => "EventID=7045"
  | SCHEDULED_TASKS => "EventID=4698"
  | SCHEDULED_TASK_UPDATES => "EventID=4702"
  | ACCOUNT_CREATIONS => "EventID=4720"
  | LOGON_EVENTS => "EventID=4624 or EventID=4625 or EventID=4648 or EventID=4672"
  | APPLOCKER_BLOCKS => "EventID=8003 or EventID=8004"
  | TASK_SCHEDULER_OP => "EventID=106"
  end.
Definition heartbeat (t : Target) : string :=
  match t with
  | SERVICE_INSTALLS => "windows-eventlog:service-install"
  | SCHEDULED_TASKS => "windows-eventlog:scheduled-task"
  | SCHEDULED_TASK_UPDATES => "windows-eventlog:scheduled-task-update"
  | ACCOUNT_CREATIONS => "windows-eventlog:account-creation"
  | LOGON_EVENTS => "windows-eventlog:logon"
  | APPLOCKER_BLOCKS => "windows-eventlog:applocker-block"
  | TASK_SCHEDULER_OP => "windows-eventlog:task-scheduler-op"
  end.
Definition enabled (t : Target) (c : EventLogConfig) : bool :=
  match t with
  | SERVICE_INSTALLS => service_installs_enabled c
  | SCHEDULED_TASKS | SCHEDULED_TASK_UPDATES => scheduled_tasks_enabled c
  | ACCOUNT_CREATIONS => account_creations_enabled c
  | LOGON_EVENTS => logon_events_enabled c
  | APPLOCKER_BLOCKS => applocker_blocks_enabled c
  | TASK_SCHEDULER_OP => task_scheduler_op_enabled c
  end.

(** The counters the sensor exposes for the silence monitor. *)
Definition liveness (c : EventLogConfig) : list string :=
  match transport c with
  | Subscribe => []
  | Polling => heartbeat <$> filter (fun t => enabled t c = true) TARGETS
  end.

Section Poll.
(** A parser of blocks, and [wevtutil]: the query and the arguments before it. *)
Context (parse_block : string -> Run ParsedBlock).

Definition newest_query (filter : string) : string := cat ["/q:*[System[("; filter; ")]]"].
Definition since_query (filter : string) (since : Z) : string :=
  cat ["/q:*[System[("; filter; ") and (EventRecordID>"; show_u64 since; ")]]"].

Fixpoint filter_map_blocks (blocks : list string) : Run (list (Z * option Event)) :=
  match blocks with
  | [] => Ran []
  | b :: bs => r <-run parse_block b; rs <-run filter_map_blocks bs; Ran (match r with Some x => x :: rs | None => rs end)
  end.

Definition last_known_record_id (answer : result string string) : Run (result Z string) :=
  match answer with
  | Err e => Ran (Err e)
  | Ok xml =>
      blocks <-run split_event_blocks xml;
      match blocks with
      | [] => Ran (Ok 0)
      | block :: _ => r <-run parse_block block; Ran (Ok (match r with Some (record_id, _) => record_id | None => 0 end))
      end
  end.

Definition new_blocks (answer : result string string) : Run (result (list (Z * option Event)) string) :=
  match answer with
  | Err e => Ran (Err e)
  | Ok xml => blocks <-run split_event_blocks xml; rs <-run filter_map_blocks blocks; Ran (Ok rs)
  end.

(** The events handed to the sink; the counter grows by their number. *)
Definition poll_once (wevtutil : list string -> result string string) (t : Target) (cursor : option Z)
    : Run (result Z string * list Event) :=
  match cursor with
  | None =>
      r <-run last_known_record_id (wevtutil ["qe"; channel t; "/c:1"; "/rd:true"; "/f:xml"; newest_query (id_filter t)]);
      Ran (r, [])
  | Some since =>
      r <-run new_blocks (wevtutil ["qe"; channel t; "/rd:false"; "/f:xml"; since_query (id_filter t) since]);
      match r with
      | Err e => Ran (Err e, [])
      | Ok rs => Ran (Ok (foldl Z.max since rs.*1), omap snd rs)
      end
  end.

(** One turn of the poll thread: the cursor, the liveness counter and the events. *)
Record PollState := mkPollState { ps_cursor : option Z; ps_liveness : Z; ps_counter : Z; ps_sink : list Event }.
Definition PollState_new : PollState := mkPollState None 0 0 [].
Definition poll_turn (wevtutil : list string -> result string string) (t : Target) (s : PollState) : Run PollState :=
  '(r, es) <-run poll_once wevtutil t (ps_cursor s);
  let counter := ps_counter s + Z.of_nat (length es) in
  let sink := ps_sink s ++ es in
  Ran (match r with
       | Ok newest => mkPollState (Some newest) (ps_liveness s + 1) counter sink
       | Err _ => mkPollState (ps_cursor s) (ps_liveness s) counter sink
       end).
End Poll.
