(* ===== verification/EventLogTheorems.v ===== *)
(** * EventLogTheorems: the Windows event-log sensor reports what the log says

    The escaping of XML text undone, the actions of a task definition reported in
    full, and the poll pipeline's exactly-once delivery through failures. *)
From stdpp Require Import base gmap strings list sorting.
From Stdlib Require Import ZArith Lia Ascii.
From Stdlib Require String.
From S2P Require Import Prelude Str Text Scan Schema Net Fs Utf8 Bytes EventLog.
#[local] Open Scope string_scope.
#[local] Open Scope Z_scope.

(** ** Searching *)

Definition lt_free (s : string) : bool := str_all (not_byte "<") s.

(** ** Escaped text *)

(** How XML writes the five reserved characters. *)
Definition entity (a : ascii) : string :=
  if Ascii.eqb a "<" then "&lt;" else if Ascii.eqb a ">" then "&gt;" else if Ascii.eqb a quote then "&quot;"
  else if Ascii.eqb a "'" then "&apos;" else if Ascii.eqb a "&" then "&amp;" else String a EmptyString.

(** The characters of [l] escaped, the others as they are. *)
Definition escape_char (l : list ascii) (a : ascii) : string := if existsb (Ascii.eqb a) l then entity a else String a EmptyString.
Fixpoint escape_only (l : list ascii) (s : string) : string :=
  match s with EmptyString => EmptyString | String a s => escape_char l a +:+ escape_only l s end.
Definition escape_xml : string -> string := escape_only ["<"; ">"; quote; "'"; "&"]%char.

Lemma escape_none s : escape_only [] s = s.
Proof. induction s as [|a s IH]; [done|]. cbn [escape_only]. by rewrite IH. Qed.

(** Undoing one entity, character by character. *)
Lemma replace_step l l' p r :
  (forall a rest, replace_from p r 0 (escape_char l a +:+ rest) = escape_char l' a +:+ replace_from p r 0 rest) ->
  forall s, str_replace p r (escape_only l s) = escape_only l' s.
Proof.
  intros H s. unfold str_replace. induction s as [|a s IH]; [done|]. cbn [escape_only]. by rewrite H, IH.
Qed.

Lemma single_app a x : String a EmptyString +:+ x = String a x.
Proof. done. Qed.

Ltac escape_cases a :=
  unfold escape_char, entity; cbn [existsb];
  destruct (Ascii.eqb_spec a "<") as [->|]; [reflexivity|];
  destruct (Ascii.eqb_spec a ">") as [->|]; [reflexivity|];
  destruct (Ascii.eqb_spec a quote) as [->|]; [reflexivity|];
  destruct (Ascii.eqb_spec a "'") as [->|]; [reflexivity|];
  destruct (Ascii.eqb_spec a "&") as [->|Hamp]; [reflexivity|];
  cbn [orb]; rewrite !single_app; cbn [replace_from];
  unfold starts_with; cbn [strip_prefix]; rewrite (Ascii.eqb_sym "&"); apply Ascii.eqb_neq in Hamp; by rewrite Hamp.

Lemma unescape_escape s : unescape_xml_entities (escape_xml s) = s.
Proof.
  unfold unescape_xml_entities, escape_xml.
  rewrite (replace_step _ [">"; quote; "'"; "&"]%char) by (intros a rest; escape_cases a).
  rewrite (replace_step _ [quote; "'"; "&"]%char) by (intros a rest; escape_cases a).
  rewrite (replace_step _ ["'"; "&"]%char) by (intros a rest; escape_cases a).
  rewrite (replace_step _ ["&"]%char) by (intros a rest; escape_cases a).
  rewrite (replace_step _ []) by (intros a rest; escape_cases a).
  apply escape_none.
Qed.

(** ** Markers in pieces of text *)

Lemma clear_of_free p s : lt_free s = true -> clear_of (String "<" p) s = true.
Proof. apply clear_of_byte. Qed.

(** The value between its markers, in a text written in pieces. *)
Lemma extract_pieces block pre c p v d q post :
  block = cat (pre ++ String c p :: v :: String d q :: post)%list ->
  Forall (fun x => clear_of (String c p) x = true) pre -> clear_of (String d q) v = true ->
  extract_between block (String c p) (String d q) = Some v.
Proof.
  intros -> Hpre Hv. unfold extract_between. rewrite cat_app_str.
  change (cat (String c p :: v :: String d q :: post)) with (String c p +:+ (v +:+ (String d q +:+ cat post))).
  rewrite (split_once_marker c p _ _ (clear_of_cat _ _ Hpre)). cbn. by rewrite (split_once_marker d q _ _ Hv).
Qed.

Lemma extract_absent block c p e : clear_of (String c p) block = true -> extract_between block (String c p) e = None.
Proof. intros H. unfold extract_between. by rewrite <- (str_app_nil_r block), split_once_clear. Qed.

(** A piece of text: a literal, a number, or text without a markup character. *)
Ltac piece := first [reflexivity | by apply clear_of_free | apply clear_of_byte, show_free; reflexivity].
Ltac pieces := repeat (constructor; [piece|]); constructor.

Ltac extracted := first [reflexivity | piece | pieces].

(** ** Totality *)

Lemma split_event_blocks_loop_returns fuel s : (String.length s <= fuel)%nat -> returns (split_event_blocks_loop fuel s).
Proof.
  revert s. induction fuel as [|fuel IH]; intros s Hs.
  - destruct s; simpl in *; [apply returns_ran|lia].
  - cbn [split_event_blocks_loop]. destruct (split_once "<Event " s) as [[x after]|] eqn:E1; [|apply returns_ran].
    destruct (split_once EVENT_END _) as [[block rest]|] eqn:E2; [|apply returns_ran].
    apply split_once_length in E1, E2. rewrite str_app_length in E2. cbn in E1, E2.
    destruct (IH rest) as [bs ->]; [lia|]. apply returns_ran.
Qed.

Lemma split_event_blocks_returns s : returns (split_event_blocks s).
Proof. by apply split_event_blocks_loop_returns. Qed.

Lemma action_element_shorter kind name s k body rest :
  action_element kind name s = Some (k, body, rest) -> (String.length rest < String.length s)%nat.
Proof.
  unfold action_element. destruct (split_once ">" s) as [[tag after]|] eqn:E1; [|done]. apply split_once_length in E1. cbn in *.
  destruct (ends_with "/" tag); [intros [= _ _ <-]; lia|].
  destruct (split_once _ after) as [[b r]|] eqn:E2; [|done]. apply split_once_length in E2. intros [= _ _ <-]. lia.
Qed.

Lemma next_action_shorter s k body rest :
  next_action_element s = Some (k, body, rest) -> (String.length rest < String.length s)%nat.
Proof.
  induction s as [|a s IH]; [done|]. cbn [next_action_element String.length].
  assert (forall kd n, action_element kd n s = Some (k, body, rest) -> (String.length rest < S (String.length s))%nat).
  { intros kd n H%action_element_shorter. lia. }
  destruct (Ascii.eqb a "<"); [destruct (starts_with_tag s "Exec"); [eauto|]; destruct (starts_with_tag s "ComHandler"); [eauto|]|];
    intros ?%IH; lia.
Qed.

Lemma task_actions_loop_returns fuel s acc :
  (String.length s <= fuel)%nat -> (length acc <= MAX_TASK_ACTIONS)%nat ->
  exists l, task_actions_loop fuel s acc = Ran l /\ (length l <= MAX_TASK_ACTIONS)%nat.
Proof.
  revert s acc. induction fuel as [|fuel IH]; intros s acc Hs Ha; cbn [task_actions_loop];
    (destruct (Nat.ltb_spec (length acc) MAX_TASK_ACTIONS); [|eauto]);
    destruct (next_action_element s) as [[[k body] after]|] eqn:E; [|eauto| |eauto]; apply next_action_shorter in E; [lia|].
  apply IH; [lia|]. rewrite length_app. destruct (read_action k body); simpl; lia.
Qed.

Lemma task_actions_returns s : exists l, task_actions s = Ran l /\ (length l <= MAX_TASK_ACTIONS)%nat.
Proof. apply task_actions_loop_returns; [done|unfold MAX_TASK_ACTIONS; simpl; lia]. Qed.

(** ** Task definitions *)

(** The actions the task scheduler's schema allows, and how a definition writes them. *)
Inductive ActionSpec := ExecAction (command : string) (arguments : option string) | ComAction (class_id : string).
Definition action_indent : string := String (ascii_of_nat 13) (String newline "      ").
Definition action_body (a : ActionSpec) : string :=
  match a with
  | ExecAction command arguments =>
      cat (action_indent :: "<Command>" :: command :: "</Command>" :: action_indent
           :: match arguments with Some args => ["<Arguments>"; args; "</Arguments>"; action_indent] | None => [] end)
  | ComAction class_id => cat [action_indent; "<ClassId>"; class_id; "</ClassId>"; action_indent]
  end.
Definition action_xml (a : ActionSpec) : string :=
  match a with
  | ExecAction _ _ => cat [action_indent; "<Exec>"; action_body a; "</Exec>"]
  | ComAction _ => cat [action_indent; "<ComHandler>"; action_body a; "</ComHandler>"]
  end.

(** The text of an element has no tag in it; everything else it may hold, entities
    among it. *)
Definition action_ok (a : ActionSpec) : bool :=
  match a with
  | ExecAction command arguments => lt_free command && match arguments with Some v => lt_free v | None => true end
  | ComAction class_id => lt_free class_id
  end.
(** A value as the element carries it, less the blanks around it. *)
Definition trimmed (v : string) : option string := if str_is_empty (trim v) then None else Some (trim v).
(** What is reported of an action; none without a command or a class. *)
Definition reported (a : ActionSpec) : option TaskAction :=
  match a with
  | ExecAction command arguments =>
      (fun c => Exec (String.concat " " (c :: option_list (arguments ≫= trimmed)))) <$> trimmed command
  | ComAction class_id => ComHandler <$> trimmed class_id
  end.
(** Text in which no action starts. *)
Definition no_action (s : string) : bool := clear_of "<Exec" s && clear_of "<ComHandler" s.

Lemma starts_with_tag_clear p c q y : mismatch (String c q) y = true -> p = String c q -> starts_with_tag y p = false.
Proof. intros H ->. unfold starts_with_tag. by rewrite (mismatch_strip _ _ H). Qed.

Lemma next_action_skip pre rest : no_action pre = true -> next_action_element (pre +:+ rest) = next_action_element rest.
Proof.
  unfold no_action. induction pre as [|a pre IH]; [done|]. cbn [clear_of]. rewrite !andb_true_iff.
  intros [[H1 H2] [H3 H4]]. change (String a pre +:+ rest) with (String a (pre +:+ rest)). cbn [next_action_element].
  rewrite IH by (by rewrite H2, H4). destruct (Ascii.eqb_spec a "<") as [->|]; [|done]. cbn [mismatch Ascii.eqb] in H1, H3.
  rewrite (starts_with_tag_clear "Exec" "E" "xec") by (try apply mismatch_app; done).
  by rewrite (starts_with_tag_clear "ComHandler" "C" "omHandler") by (try apply mismatch_app; done).
Qed.

Lemma body_clear a : action_ok a = true -> clear_of "</Exec>" (action_body a) = true /\ clear_of "</ComHandler>" (action_body a) = true.
Proof.
  destruct a as [c [v|]|i]; cbn [action_ok action_body]; rewrite ?andb_true_iff; intros H; destruct_and?;
    split; apply clear_of_cat; pieces.
Qed.

Definition kind_of (a : ActionSpec) : ActionKind := match a with ExecAction _ _ => KindExec | ComAction _ => KindComHandler end.

Lemma action_element_body kind name body rest :
  clear_of (cat ["</"; name; ">"]) body = true -> str_all (not_byte ">") name = true -> ends_with "/" name = false ->
  action_element kind name (name +:+ ">" +:+ body +:+ cat ["</"; name; ">"] +:+ rest) = Some (kind, body, rest).
Proof.
  intros Hb Hn He. unfold action_element. rewrite (split_once_first ">" EmptyString name _ Hn). cbn. rewrite He.
  rewrite (split_once_marker "<" (cat ["/"; name; ">"]) _ _ Hb). done.
Qed.

Lemma starts_with_tag_open name b rest : starts_char b = true -> starts_with_tag (name +:+ String ">" (String b rest)) name = true.
Proof.
  intros Hb. unfold starts_with_tag. rewrite (proj2 (strip_prefix_spec name _ _) eq_refl).
  remember (String b rest) as s eqn:Es. cbn [str_chars]. subst s. rewrite Hb. by destruct (str_chars (String b rest)).
Qed.

Lemma next_tag_exec s : starts_with_tag s "Exec" = true -> next_action_element (String "<" s) = action_element KindExec "Exec" s.
Proof. intros H. cbn [next_action_element]. by rewrite H. Qed.
Lemma next_tag_com s :
  starts_with_tag s "Exec" = false -> starts_with_tag s "ComHandler" = true ->
  next_action_element (String "<" s) = action_element KindComHandler "ComHandler" s.
Proof. intros H1 H2. cbn [next_action_element]. by rewrite H1, H2. Qed.

Lemma next_action_printed a rest :
  action_ok a = true -> next_action_element (action_xml a +:+ rest) = Some (kind_of a, action_body a, rest).
Proof.
  intros [HE HC]%body_clear. destruct a as [c o|i]; unfold action_xml; cbn [cat foldr]; rewrite str_app_nil_r, !str_app_assoc;
    rewrite next_action_skip by done.
  - transitivity (action_element KindExec "Exec" ("Exec" +:+ ">" +:+ action_body (ExecAction c o) +:+ "</Exec>" +:+ rest)).
    + apply next_tag_exec. by apply (starts_with_tag_open "Exec").
    + exact (action_element_body KindExec "Exec" _ rest HE eq_refl eq_refl).
  - transitivity (action_element KindComHandler "ComHandler" ("ComHandler" +:+ ">" +:+ action_body (ComAction i) +:+ "</ComHandler>" +:+ rest)).
    + apply next_tag_com; [done|]. by apply (starts_with_tag_open "ComHandler").
    + exact (action_element_body KindComHandler "ComHandler" _ rest HC eq_refl eq_refl).
Qed.

Lemma read_printed a : action_ok a = true -> read_action (kind_of a) (action_body a) = reported a.
Proof.
  destruct a as [c [v|]|i]; cbn [action_ok action_body kind_of reported read_action]; rewrite ?andb_true_iff; intros H; destruct_and?;
    unfold exec_command_line, trimmed.
  - rewrite (extract_pieces _ [action_indent] "<" "Command>" c "<" "/Command>" [action_indent; "<Arguments>"; v; "</Arguments>"; action_indent]) by extracted.
    rewrite (extract_pieces _ [action_indent; "<Command>"; c; "</Command>"; action_indent] "<" "Arguments>" v "<" "/Arguments>" [action_indent]) by extracted.
    cbn -[trim str_is_empty]. destruct (str_is_empty (trim c)); [done|]. by destruct (str_is_empty (trim v)); cbn; rewrite ?str_app_nil_r.
  - rewrite (extract_pieces _ [action_indent] "<" "Command>" c "<" "/Command>" [action_indent]) by extracted.
    rewrite (extract_absent _ "<" "Arguments>") by (apply clear_of_cat; pieces).
    cbn -[trim str_is_empty]. by destruct (str_is_empty (trim c)).
  - rewrite (extract_pieces _ [action_indent] "<" "ClassId>" i "<" "/ClassId>" [action_indent]) by extracted.
    cbn -[trim str_is_empty]. by destruct (str_is_empty (trim i)).
Qed.

Lemma task_actions_loop_printed fuel actions post acc :
  forallb action_ok actions = true -> no_action post = true -> (length actions <= fuel)%nat -> (length acc <= MAX_TASK_ACTIONS)%nat ->
  task_actions_loop fuel (cat (action_xml <$> actions) +:+ post) acc = Ran (take MAX_TASK_ACTIONS (acc ++ omap reported actions)%list).
Proof.
  intros Hok Hpost. revert fuel acc. induction actions as [|a actions IH]; intros fuel acc Hf Ha.
  - assert (next_action_element post = None) as E.
    { rewrite <- (str_app_nil_r post). by rewrite next_action_skip. }
    cbn [fmap list_fmap cat foldr]. rewrite app_nil_r, take_ge by done.
    destruct fuel; cbn [task_actions_loop]; change (EmptyString +:+ post) with post; rewrite E; by destruct (_ <? _)%nat.
  - cbn [forallb] in Hok. apply andb_true_iff in Hok as [Hok Hoks]. destruct fuel as [|fuel]; [simpl in Hf; lia|].
    cbn [task_actions_loop]. destruct (Nat.ltb_spec (length acc) MAX_TASK_ACTIONS).
    + change (cat (action_xml <$> a :: actions)) with (action_xml a +:+ cat (action_xml <$> actions)).
      rewrite str_app_assoc, next_action_printed, read_printed by done.
      rewrite (IH Hoks) by (rewrite ?length_app; destruct (reported a); simpl in *; lia).
      rewrite <- app_assoc. cbn [omap list_omap]. by destruct (reported a).
    + rewrite take_app_le, take_ge by lia. done.
Qed.

Lemma actions_length actions s : (length actions <= String.length (cat (action_xml <$> actions) +:+ s))%nat.
Proof.
  induction actions as [|a actions IH]; [simpl; lia|].
  change (cat (action_xml <$> a :: actions)) with (action_xml a +:+ cat (action_xml <$> actions)).
  rewrite str_app_assoc, str_app_length. enough (1 <= String.length (action_xml a))%nat by (simpl in *; lia).
  destruct a; simpl; lia.
Qed.

Lemma task_actions_printed pre actions post :
  no_action pre = true -> forallb action_ok actions = true -> no_action post = true ->
  task_actions (pre +:+ cat (action_xml <$> actions) +:+ post) = Ran (take MAX_TASK_ACTIONS (omap reported actions)).
Proof.
  intros Hpre Hok Hpost. unfold task_actions.
  change (omap reported actions) with (app [] (omap reported actions)).
  rewrite <- (task_actions_loop_printed (String.length (pre +:+ cat (action_xml <$> actions) +:+ post)) actions post []);
    [|done|done| |unfold MAX_TASK_ACTIONS; simpl; lia].
  2:{ rewrite str_app_length. pose proof (actions_length actions post). lia. }
  generalize (String.length (pre +:+ cat (action_xml <$> actions) +:+ post)). intros [|n]; cbn [task_actions_loop]; by rewrite next_action_skip.
Qed.

(** A 4698 record as [wevtutil] renders it: the definition escaped in [TaskContent]. *)
Definition task_record (record_id pid : Z) (name content : string) : string :=
  cat ["<Event xmlns='http://schemas.microsoft.com/win/2004/08/events/event'><System><EventID>4698</EventID>";
       "<EventRecordID>"; show_u64 record_id; "</EventRecordID>";
       "<Execution ProcessID='716' ThreadID='772'/></System><EventData>";
       "<Data Name='TaskName'>"; name; "</Data>"; "<Data Name='TaskContent'>"; escape_xml content; "</Data>";
       "<Data Name='ClientProcessId'>"; show_u64 pid; "</Data>"; "</EventData></Event>"].

Lemma escape_free s : lt_free (escape_xml s) = true.
Proof.
  unfold lt_free, escape_xml. induction s as [|a s IH]; [done|]. cbn [escape_only]. rewrite str_all_app, IH, andb_true_r.
  unfold escape_char, entity. cbn [existsb].
  repeat match goal with |- context [Ascii.eqb a ?c] => destruct (Ascii.eqb_spec a c) as [->|] end; try reflexivity.
  cbn. unfold not_byte. apply andb_true_iff. split; [|done]. by apply negb_true_iff, Ascii.eqb_neq.
Qed.

Lemma task_record_parsed record_id pid name content :
  0 <= record_id <= U64_MAX -> 0 <= pid <= U32_MAX -> lt_free name = true ->
  parse_scheduled_task_block (task_record record_id pid name content)
  = Some (mkScheduledTaskEvent record_id name content pid).
Proof.
  intros Hr Hp Hn. pose proof (escape_free content).
  unfold parse_scheduled_task_block, parse_task_block_with_content_field, record_id_of, data_open, task_record.
  set (head := "<Event xmlns='http://schemas.microsoft.com/win/2004/08/events/event'><System><EventID>4698</EventID>").
  set (mid := "<Execution ProcessID='716' ThreadID='772'/></System><EventData>").
  rewrite (extract_pieces _ [head] "<" "EventRecordID>" (show_u64 record_id) "<" "/EventRecordID>" _) by extracted.
  set (id_part := [head; "<EventRecordID>"; show_u64 record_id; "</EventRecordID>"; mid]).
  rewrite (extract_pieces _ id_part "<" "Data Name='TaskName'>" name "<" "/Data>" _) by extracted.
  rewrite (extract_pieces _ (id_part ++ ["<Data Name='TaskName'>"; name; "</Data>"])%list
             "<" "Data Name='TaskContent'>" (escape_xml content) "<" "/Data>" _) by extracted.
  rewrite (extract_pieces _ (id_part ++ ["<Data Name='TaskName'>"; name; "</Data>"; "<Data Name='TaskContent'>"; escape_xml content; "</Data>"])%list
             "<" "Data Name='ClientProcessId'>" (show_u64 pid) "<" "/Data>" _) by extracted.
  cbn -[unescape_xml_entities parse_u64 parse_u32 show_u64]. unfold parse_u32, parse_upto. rewrite (parse_show record_id) by done.
  rewrite (parse_show pid) by (unfold U32_MAX, U64_MAX in *; lia). cbn -[unescape_xml_entities]. rewrite unescape_escape.
  destruct (Z.leb_spec pid U32_MAX); [done|lia].
Qed.

Lemma task_leaf parent leaf :
  str_all (fun a => negb (is_backslash a)) leaf = true -> task_leaf_name (parent +:+ String backslash_char leaf) = leaf.
Proof. intros H. unfold task_leaf_name. by rewrite rsplit_byte_app. Qed.

(** The action list of an event and its flags. *)
Definition task_display (actions : list TaskAction) : string * Z :=
  match actions with
  | [] => (TASK_ACTION_UNKNOWN, Z.lor FLAG_PERSISTENCE_TASK_ARTIFACT FLAG_PERSISTENCE_TASK_ACTION_UNKNOWN)
  | _ => (String.concat " | " (render <$> actions), FLAG_PERSISTENCE_TASK_ARTIFACT)
  end.

(** C39. A scheduled task that gets registered is reported.  The record carries the
    task's name as an element's text and its definition in escaped form; a definition
    is any list of actions (a command with or without arguments, or a COM class) with
    text around them in which no action starts.  The record becomes one persistence
    event with the creating process and the part of the name
    after its last backslash, and its path is
    the first 32 actions that have a command or a class, in order: the texts as their
    elements carry them, less outer blanks and with XML entities left in.  When no
    action has one the event says so and sets the flag for it. *)
Theorem scheduled_task_reported now record_id pid parent leaf pre actions post :
  0 <= record_id <= U64_MAX -> 0 <= pid <= U32_MAX ->
  lt_free (parent +:+ String backslash_char leaf) = true -> str_all (fun a => negb (is_backslash a)) leaf = true ->
  no_action pre = true -> forallb action_ok actions = true -> no_action post = true ->
  normalize_scheduled_task now (task_record record_id pid (parent +:+ String backslash_char leaf) (pre +:+ cat (action_xml <$> actions) +:+ post))
  = let '(path, flags) := task_display (take MAX_TASK_ACTIONS (omap reported actions)) in
    Ran (Some (record_id, Some (Event_FileOpen (mkFileOpenEvent
      (mkEventMeta pid 0 User_Unknown now leaf None None None) path flags)))).
Proof.
  intros Hr Hp Hn Hleaf Hpre Hok Hpost. unfold normalize_scheduled_task. rewrite task_record_parsed by done.
  cbn [try_bind]. unfold normalize_task, task_actions_display. cbn [te_task_name te_task_content te_record_id te_pid].
  rewrite task_leaf, task_actions_printed by done.
  assert (str_is_empty (parent +:+ String backslash_char leaf) = false) as -> by (by destruct parent). by destruct (take MAX_TASK_ACTIONS (omap reported actions)).
Qed.
Lemma scheduled_task_reported_witness :
  normalize_scheduled_task 7 (task_record 41 900 (String "092" "Updater")
    ("<Task><Actions Context='Author'>" +:+ cat (action_xml <$> [ExecAction " " None; ExecAction " cmd.exe " (Some "/c a &amp; b"); ComAction "{0f87}"])
     +:+ "</Actions></Task>"))
  = Ran (Some (41, Some (Event_FileOpen (mkFileOpenEvent (mkEventMeta 900 0 User_Unknown 7 "Updater" None None None)
      "cmd.exe /c a &amp; b | com:{0f87}" FLAG_PERSISTENCE_TASK_ARTIFACT)))).
Proof.
  apply (scheduled_task_reported 7 41 900 EmptyString "Updater" "<Task><Actions Context='Author'>"
           [ExecAction " " None; ExecAction " cmd.exe " (Some "/c a &amp; b"); ComAction "{0f87}"] "</Actions></Task>"); try reflexivity; try done.
Defined.

(** ** The poll pipeline *)

(** A record of a channel: its number, the text of its block after the opening tag
    and the event the target's parser makes of it. *)
Record LogRecord := mkLogRecord { lr_id : Z; lr_body : string; lr_event : option Event }.
Definition record_text (r : LogRecord) : string := "<Event " +:+ lr_body r +:+ EVENT_END.
(** What [wevtutil] prints for a list of records: every block on a line. *)
Definition line_end : string := String (ascii_of_nat 13) (String newline EmptyString).
Definition rendered (rs : list LogRecord) : string := cat ((fun r => record_text r +:+ line_end) <$> rs).
Definition newest_id (rs : list LogRecord) : Z := foldl Z.max 0 (lr_id <$> rs).
Definition newer (since : Z) (rs : list LogRecord) : list LogRecord := filter (fun r => since < lr_id r) rs.

Definition newest_args (t : Target) : list string := ["qe"; channel t; "/c:1"; "/rd:true"; "/f:xml"; newest_query (id_filter t)].
Definition since_args (t : Target) (since : Z) : list string := ["qe"; channel t; "/rd:false"; "/f:xml"; since_query (id_filter t) since].

(** The documented answers of [wevtutil qe] on a channel that holds [rs]: the newest
    matching record, and the matching records after a number, oldest first. *)
Definition answers (t : Target) (rs : list LogRecord) (wevtutil : list string -> result string string) : Prop :=
  wevtutil (newest_args t) = Ok (rendered (option_list (last rs)))
  /\ forall since, 0 <= since <= U64_MAX -> wevtutil (since_args t since) = Ok (rendered (newer since rs)).

Lemma split_blocks_loop_rendered fuel rs :
  Forall (fun r => clear_of EVENT_END (lr_body r) = true) rs -> (length rs <= fuel)%nat ->
  split_event_blocks_loop fuel (rendered rs) = Ran (record_text <$> rs).
Proof.
  revert fuel. induction rs as [|r rs IH]; intros fuel Hrs Hf; [by destruct fuel|].
  apply Forall_cons in Hrs as [Hr Hrs]. destruct fuel as [|fuel]; [simpl in Hf; lia|].
  change (rendered (r :: rs)) with ((record_text r +:+ line_end) +:+ rendered rs). unfold record_text at 1.
  rewrite !str_app_assoc. cbn [split_event_blocks_loop].
  rewrite (split_once_first "<" "Event " EmptyString (lr_body r +:+ EVENT_END +:+ line_end +:+ rendered rs) eq_refl
           : split_once "<Event " ("<Event " +:+ _) = _).
  change (String.append "<Event " (lr_body r +:+ EVENT_END +:+ line_end +:+ rendered rs))
    with ("<Event " +:+ (lr_body r +:+ EVENT_END +:+ line_end +:+ rendered rs)).
  rewrite <- (str_app_assoc "<Event "). unfold EVENT_END at 1 2.
  rewrite (split_once_marker "<" "/Event>" ("<Event " +:+ lr_body r)) by (apply clear_of_app; done).
  assert (split_event_blocks_loop fuel (line_end +:+ rendered rs) = Ran (record_text <$> rs)) as ->.
  { rewrite <- (IH fuel Hrs) by (simpl in Hf; lia).
    destruct fuel; cbn [split_event_blocks_loop]; rewrite (split_once_skip "<" "Event " line_end) by done;
      by destruct (split_once "<Event " (rendered rs)) as [[u v]|]. }
  cbn [run_bind fmap list_fmap]. unfold record_text. by rewrite <- str_app_assoc.
Qed.

Lemma split_blocks_rendered rs :
  Forall (fun r => clear_of EVENT_END (lr_body r) = true) rs -> split_event_blocks (rendered rs) = Ran (record_text <$> rs).
Proof.
  intros Hrs. apply split_blocks_loop_rendered; [done|]. clear Hrs. induction rs as [|r rs IH]; [done|].
  change (rendered (r :: rs)) with ((record_text r +:+ line_end) +:+ rendered rs). rewrite str_app_length. simpl. lia.
Qed.

(** A turn of the poll thread: how many records the channel holds by then, whether
    it can be read, and the answers. *)
Record Turn := mkTurn { tn_seen : nat; tn_up : bool; tn_wevtutil : list string -> result string string }.

Fixpoint first_up (turns : list Turn) : option nat :=
  match turns with [] => None | tn :: turns => if tn_up tn then Some (tn_seen tn) else first_up turns end.
Fixpoint last_up (m : nat) (turns : list Turn) : nat :=
  match turns with [] => m | tn :: turns => last_up (if tn_up tn then tn_seen tn else m) turns end.
Definition ups (turns : list Turn) : Z := Z.of_nat (length (filter (fun tn => tn_up tn = true) turns)).

Lemma foldl_max_acc (l : list Z) acc : acc <= foldl Z.max acc l.
Proof. revert acc. induction l as [|x l IH]; intros acc; simpl; [lia|]. specialize (IH (Z.max acc x)). lia. Qed.
Lemma foldl_max_ge (l : list Z) acc z : z ∈ l -> z <= foldl Z.max acc l.
Proof.
  revert acc. induction l as [|x l IH]; intros acc; [by intros ?%not_elem_of_nil|]. simpl.
  intros [->|Hz]%elem_of_cons; [|by apply IH]. pose proof (foldl_max_acc l (Z.max acc x)). lia.
Qed.

Lemma sorted_from (m a : nat) l : Sorted le (a :: l) -> (m <= a)%nat -> Sorted le (m :: l).
Proof.
  intros [Hs Hd]%Sorted_inv Hm. constructor; [done|]. destruct l; constructor. apply HdRel_inv in Hd. lia.
Qed.

Section Polling.
Context (parse_block : string -> Run ParsedBlock) (t : Target) (all : list LogRecord).

Definition records_ok : Prop :=
  StronglySorted Z.lt (lr_id <$> all)
  /\ Forall (fun r => 0 < lr_id r <= U64_MAX /\ clear_of EVENT_END (lr_body r) = true
                      /\ parse_block (record_text r) = Ran (Some (lr_id r, lr_event r))) all.
Definition turn_ok (tn : Turn) : Prop :=
  if tn_up tn then answers t (take (tn_seen tn) all) (tn_wevtutil tn) else forall args, exists e, tn_wevtutil tn args = Err e.

(** The state after the records [n .. m] were handed on. *)
Definition delivered (n m : nat) : list Event := omap lr_event (drop n (take m all)).
Definition poll_state (n m : nat) (live : Z) : PollState :=
  mkPollState (Some (newest_id (take m all))) live (Z.of_nat (length (delivered n m))) (delivered n m).

Context (Hall : records_ok).

Lemma newest_snoc rs r : StronglySorted Z.lt (lr_id <$> (rs ++ [r])%list) -> Forall (fun r => 0 < lr_id r) (rs ++ [r])%list ->
  newest_id (rs ++ [r])%list = lr_id r.
Proof.
  intros Hs Hp. unfold newest_id. rewrite fmap_app, foldl_app. simpl. apply Z.max_r.
  assert (forall acc, acc <= lr_id r -> Forall (fun x => x <= lr_id r) (lr_id <$> rs) -> foldl Z.max acc (lr_id <$> rs) <= lr_id r) as H.
  { clear. induction (lr_id <$> rs) as [|x l IH]; intros acc Ha Hl; [done|]. apply Forall_cons in Hl as [Hx Hl]. simpl. apply IH; [lia|done]. }
  apply H.
  - rewrite Forall_app in Hp. destruct Hp as [_ Hp]. apply Forall_cons in Hp as [Hp _]. lia.
  - rewrite fmap_app in Hs. apply StronglySorted_app in Hs as (Hle & _ & _). apply Forall_forall. intros x Hx.
    pose proof (Hle x (lr_id r) Hx ltac:(simpl; apply elem_of_cons; by left)). lia.
Qed.

Lemma all_prefix m : StronglySorted Z.lt (lr_id <$> take m all) /\ Forall (fun r => 0 < lr_id r) (take m all).
Proof.
  destruct Hall as [Hs Hf]. split.
  - rewrite <- (take_drop m all), fmap_app in Hs. by apply StronglySorted_app in Hs as (_ & Hs & _).
  - apply Forall_take. eapply Forall_impl; [exact Hf|]. simpl. intros r (? & _). lia.
Qed.

Lemma newest_take m r : last (take m all) = Some r -> newest_id (take m all) = lr_id r.
Proof.
  intros H. destruct (all_prefix m) as [Hs Hp]. apply last_Some in H as [l E]. rewrite E in *. by apply newest_snoc.
Qed.

Lemma newest_bound m : 0 <= newest_id (take m all) <= U64_MAX.
Proof.
  destruct (last (take m all)) as [r|] eqn:E.
  - rewrite (newest_take _ _ E). destruct Hall as [_ Hf]. apply last_Some_elem_of, subseteq_take in E.
    apply (proj1 (Forall_forall _ _) Hf) in E as (? & _). lia.
  - apply last_None in E. rewrite E. unfold newest_id, U64_MAX. simpl. lia.
Qed.

Lemma filter_newer m k : (m <= k)%nat -> newer (newest_id (take m all)) (take k all) = drop m (take k all).
Proof.
  intros Hmk. unfold newer. destruct (all_prefix k) as [Hs Hp].
  assert (take k all = (take m all ++ drop m (take k all))%list) as Ek.
  { rewrite <- (take_drop m (take k all)) at 1. by rewrite take_take, Nat.min_l. }
  rewrite Ek in Hs, Hp |- * at 1. rewrite filter_app. rewrite fmap_app in Hs.
  apply StronglySorted_app in Hs as (Hlt & _ & _). apply Forall_app in Hp as [_ Hp].
  rewrite filter_none, filter_all; [done| |].
  - intros x Hx. destruct (last (take m all)) as [r|] eqn:E.
    + rewrite (newest_take _ _ E). apply last_Some_elem_of in E. by apply Hlt; apply list_elem_of_fmap_2.
    + apply last_None in E. rewrite E. by apply (proj1 (Forall_forall _ _) Hp).
  - intros x Hx. apply (proj2 (Z.nlt_ge _ _)). unfold newest_id.
    by apply foldl_max_ge, list_elem_of_fmap_2.
Qed.

Lemma filter_map_records rs :
  (forall r, r ∈ rs -> parse_block (record_text r) = Ran (Some (lr_id r, lr_event r))) ->
  filter_map_blocks parse_block (record_text <$> rs) = Ran ((fun r => (lr_id r, lr_event r)) <$> rs).
Proof.
  induction rs as [|r rs IH]; intros H; [done|].
  change (record_text <$> r :: rs) with (record_text r :: (record_text <$> rs)). cbn [filter_map_blocks].
  rewrite H, IH; [done| |apply elem_of_cons; by left]. intros. apply H, elem_of_cons. by right.
Qed.

Lemma fold_max_newest m k : (m <= k)%nat -> foldl Z.max (newest_id (take m all)) (lr_id <$> drop m (take k all)) = newest_id (take k all).
Proof.
  intros Hmk. unfold newest_id at 2. rewrite <- (take_drop m (take k all)) at 2. by rewrite take_take, Nat.min_l, fmap_app, foldl_app.
Qed.

Lemma delivered_step n m k : (n <= m <= k)%nat -> delivered n k = (delivered n m ++ omap lr_event (drop m (take k all)))%list.
Proof.
  intros H. unfold delivered. rewrite <- omap_app. f_equal.
  rewrite <- (take_drop m (take k all)) at 1. rewrite take_take, Nat.min_l, drop_app by lia. f_equal. rewrite length_take.
  destruct (decide (m <= length all)%nat); [by replace (n - m `min` length all)%nat with 0%nat by lia|].
  rewrite (drop_ge (take k all)) by (rewrite length_take; lia). by rewrite drop_nil.
Qed.

Lemma take_facts k :
  Forall (fun r => clear_of EVENT_END (lr_body r) = true) (take k all)
  /\ (forall r, r ∈ take k all -> parse_block (record_text r) = Ran (Some (lr_id r, lr_event r))).
Proof.
  destruct Hall as [_ Hf]. apply (Forall_take _ k) in Hf. split; [eapply Forall_impl; [exact Hf|]; by intros r (_ & ? & _)|].
  intros r Hr. apply (proj1 (Forall_forall _ _) Hf) in Hr. by destruct Hr as (_ & _ & ?).
Qed.

Lemma poll_turn_down w s : (forall args, exists e, w args = Err e) -> poll_turn parse_block w t s = Ran s.
Proof.
  intros Hw. unfold poll_turn, poll_once. destruct s as [[since|] live c sink]; cbn [ps_cursor].
  - destruct (Hw (since_args t since)) as [e E]. unfold since_args in E. rewrite E. cbn. by rewrite Z.add_0_r, app_nil_r.
  - destruct (Hw (newest_args t)) as [e E]. unfold newest_args in E. rewrite E. cbn. by rewrite Z.add_0_r, app_nil_r.
Qed.

Lemma poll_turn_start w k : answers t (take k all) w -> poll_turn parse_block w t PollState_new = Ran (poll_state k k 1).
Proof.
  intros [Hw _]. destruct (take_facts k) as [Hc Hp]. unfold poll_turn, poll_once. cbn [ps_cursor PollState_new].
  unfold newest_args in Hw. rewrite Hw. unfold last_known_record_id, poll_state, delivered. rewrite drop_ge by (rewrite length_take; lia).
  destruct (last (take k all)) as [r|] eqn:E.
  - pose proof (last_Some_elem_of _ _ E) as Hr. rewrite (newest_take _ _ E). cbn [option_list].
    rewrite split_blocks_rendered by (apply Forall_singleton; by apply (proj1 (Forall_forall _ _) Hc)).
    cbn. by rewrite (Hp r Hr).
  - apply last_None in E. by rewrite E.
Qed.

Lemma poll_turn_up w n m k live :
  (n <= m <= k)%nat -> answers t (take k all) w -> poll_turn parse_block w t (poll_state n m live) = Ran (poll_state n k (live + 1)).
Proof.
  intros Hk [_ Hw]. destruct (take_facts k) as [Hc Hp]. unfold poll_turn, poll_once. cbn [ps_cursor poll_state].
  unfold since_args in Hw. rewrite Hw by apply newest_bound. unfold new_blocks. rewrite filter_newer by lia.
  rewrite split_blocks_rendered by (by apply Forall_drop). cbn [run_bind].
  rewrite filter_map_records by (intros r Hr; by apply Hp, (subseteq_drop m)). cbn [run_bind].
  unfold poll_state. cbn [ps_liveness ps_counter ps_sink]. rewrite (delivered_step n m k), length_app, Nat2Z.inj_add by lia.
  rewrite <- list_fmap_compose. change (fst ∘ (fun r => (lr_id r, lr_event r))) with lr_id. rewrite fold_max_newest by lia.
  replace (omap snd ((fun r => (lr_id r, lr_event r)) <$> drop m (take k all))) with (omap lr_event (drop m (take k all))); [done|].
  induction (drop m (take k all)) as [|r l IH]; [done|]. cbn. destruct (lr_event r); by rewrite IH.
Qed.

Definition poll_turns (turns : list Turn) (s : PollState) : Run PollState :=
  run_fold (fun s tn => poll_turn parse_block (tn_wevtutil tn) t s) turns s.

Lemma poll_turns_from n m live turns :
  Forall turn_ok turns -> Sorted le (m :: (tn_seen <$> turns)) -> (n <= m)%nat ->
  poll_turns turns (poll_state n m live) = Ran (poll_state n (last_up m turns) (live + ups turns)).
Proof.
  unfold poll_turns. revert m live. induction turns as [|tn turns IH]; intros m live Hok Hs Hn.
  - cbn. by rewrite Z.add_0_r.
  - apply Forall_cons in Hok as [Htn Hok]. apply Sorted_inv in Hs as [Hs Hle%HdRel_inv]. cbn [run_fold last_up].
    unfold turn_ok in Htn. unfold ups. rewrite filter_cons. destruct (tn_up tn).
    + rewrite (poll_turn_up _ n m (tn_seen tn)) by (done || lia). cbn [run_bind]. rewrite IH by (done || lia).
      rewrite decide_True by done. unfold ups. do 2 f_equal. cbn [length]. lia.
    + rewrite poll_turn_down by done. cbn [run_bind]. rewrite decide_False by done. apply IH; [done| |done].
      by eapply sorted_from.
Qed.

Definition poll_outcome (turns : list Turn) : PollState :=
  match first_up turns with
  | None => PollState_new
  | Some n => poll_state n (last_up n turns) (ups turns)
  end.

Lemma poll_turns_outcome turns :
  Forall turn_ok turns -> Sorted le (tn_seen <$> turns) -> poll_turns turns PollState_new = Ran (poll_outcome turns).
Proof.
  unfold poll_outcome. induction turns as [|tn turns IH]; intros Hok Hs; [done|].
  apply Forall_cons in Hok as [Htn Hok]. pose proof Htn as Htn'. unfold turn_ok in Htn. cbn [first_up last_up].
  unfold poll_turns. cbn [run_fold]. destruct (tn_up tn) eqn:Eup.
  - rewrite (poll_turn_start _ (tn_seen tn)) by done. cbn [run_bind]. fold (poll_turns turns (poll_state (tn_seen tn) (tn_seen tn) 1)).
    rewrite poll_turns_from by done. unfold ups. rewrite filter_cons, decide_True by done. do 2 f_equal. cbn [length]. lia.
  - rewrite poll_turn_down by done. cbn [run_bind]. fold (poll_turns turns PollState_new).
    apply Sorted_inv in Hs as [Hs _]. rewrite IH by done. unfold ups. rewrite filter_cons, decide_False by (by rewrite Eup). done.
Qed.
End Polling.

(** C38. Exactly-once delivery from an event-log channel: whatever the sequence of
    polls, readable or failing in any order, over a channel that only grows, the
    sink receives the event of every record that appeared after the first readable
    poll and no later than the last one, once and in order, and nothing of the
    history before it; the cursor is the newest record seen, the volume counter the
    number of events and the liveness counter the number of readable polls. *)
Theorem poll_delivers_exactly parse_block t all turns :
  records_ok parse_block all -> Forall (turn_ok t all) turns -> Sorted le (tn_seen <$> turns) ->
  run_fold (fun s tn => poll_turn parse_block (tn_wevtutil tn) t s) turns PollState_new
  = Ran (match first_up turns with
         | None => PollState_new
         | Some n =>
             let m := last_up n turns in
             let events := omap lr_event (drop n (take m all)) in
             mkPollState (Some (newest_id (take m all))) (ups turns) (Z.of_nat (length events)) events
         end).
Proof. intros Hall Hok Hs. exact (poll_turns_outcome parse_block t all Hall turns Hok Hs). Qed.

(** A readable channel: [wevtutil] as a function of its records. *)
Definition channel_answer (rs : list LogRecord) (args : list string) : result string string :=
  match args with
  | [_; _; _; _; _; _] => Ok (rendered (option_list (last rs)))
  | [_; _; _; _; q] =>
      match extract_between q "EventRecordID>" ")" ≫= parse_u64 with
      | Some since => Ok (rendered (newer since rs))
      | None => Err "The specified query is invalid."
      end
  | _ => Err "The parameter is incorrect."
  end.

Lemma channel_answers t rs : answers t rs (channel_answer rs).
Proof.
  split; [done|]. intros since Hs. cbn [channel_answer since_args].
  assert (extract_between (since_query (id_filter t) since) "EventRecordID>" ")" = Some (show_u64 since)) as ->;
    [|cbn; by rewrite parse_show].
  apply (extract_pieces _ ["/q:*[System[("; id_filter t; ") and ("] "E" "ventRecordID>" (show_u64 since) ")" EmptyString ["]]"]);
    [destruct t; reflexivity| |piece].
  destruct t; pieces.
Qed.

Definition install_record (id : Z) (name path : string) : LogRecord :=
  mkLogRecord id (cat ["xmlns='e'><System><EventID>7045</EventID><EventRecordID>"; show_u64 id;
                       "</EventRecordID></System><EventData><Data Name='ServiceName'>"; name;
                       "</Data><Data Name='ImagePath'>"; path; "</Data></EventData>"])
              (Some (persistence_file_open 7 0 name path FLAG_PERSISTENCE_ARTIFACT)).
Definition demo_records : list LogRecord := [install_record 4 "Spooler" "spoolsv.exe"; install_record 9 "Evil" "evil.exe"].
Definition demo_turns : list Turn :=
  [mkTurn 0 false (fun _ => Err "access denied"); mkTurn 1 true (channel_answer (take 1 demo_records));
   mkTurn 1 false (fun _ => Err "timeout"); mkTurn 2 true (channel_answer demo_records)].

Lemma poll_delivers_exactly_witness :
  run_fold (fun s tn => poll_turn (normalize_service_install 7) (tn_wevtutil tn) SERVICE_INSTALLS s) demo_turns PollState_new
  = Ran (mkPollState (Some 9) 2 1 [persistence_file_open 7 0 "Evil" "evil.exe" FLAG_PERSISTENCE_ARTIFACT]).
Proof.
  apply (poll_delivers_exactly (normalize_service_install 7) SERVICE_INSTALLS demo_records demo_turns).
  - split; [repeat constructor|]. repeat (constructor; [vm_compute; repeat split; congruence|]). constructor.
  - repeat constructor; unfold turn_ok; cbn [tn_up tn_seen tn_wevtutil]; try (intros args; by eexists); apply channel_answers.
  - repeat constructor.
Defined.
