(* ===== verification/LinuxAudit.v ===== *)
(** * LinuxAudit: the Linux audit sensor (crates/sensors/linux/audit)

    The fallback sensor of hosts without eBPF: the record parser, the classifier
    with the kernel's value encoding undone, the events, and the drain loop over
    the socket.  The socket's answers are an argument. *)
From stdpp Require Import base gmap strings list.
From Stdlib Require Import ZArith Lia Ascii.
From Stdlib Require String.
From S2P Require Import Prelude Str Text Scan Schema Fs Utf8 Bytes Updater.
#[local] Open Scope string_scope.
#[local] Open Scope Z_scope.
#[local] Open Scope edr_scope.

(** ** [parse.rs] *)

Definition NLMSGHDR_SIZE : Z := 16.

Record AuditRecord := mkAuditRecord {
  ar_record_type : Z;
  ar_timestamp_sec : Z;
  ar_timestamp_ms : Z;
  ar_seq : Z;
  ar_fields : gmap string string;
  ar_unquoted_fields : gset string }.

Inductive AuditParseError := TooShort (len : Z) | BadHeader.

Definition parse_msg_header (msg : string) : option (Z * Z * Z) :=
  '(_, timestamp_on) ← split_once "audit(" msg;
  '(timestamp_str, seq_on) ← split_once ":" timestamp_on;
  '(sec, ms) ← match str_split "." timestamp_str with [a; b] => Some (a, b) | _ => None end;
  timestamp_sec ← parse_u64 sec;
  timestamp_ms ← parse_upto U32_MAX ms;
  '(seq_str, _) ← split_once ")" seq_on;
  seq ← parse_u64 seq_str;
  Some (timestamp_sec, timestamp_ms, seq).

Definition is_equals (a : ascii) : bool := Ascii.eqb a "=".
Definition is_quote (a : ascii) : bool := Ascii.eqb a quote.
Definition drop_first (s : string) : string := match s with EmptyString => EmptyString | String _ t => t end.

(** A value and the text after it: quoted up to the next quote, else up to a blank. *)
Definition field_value (s : string) : string * string * bool :=
  match s with
  | String a t =>
      if is_quote a then let '(v, rest) := break_byte is_quote t in (v, drop_first rest, true)
      else let '(v, rest) := break_byte is_space s in (v, rest, false)
  | EmptyString => (EmptyString, EmptyString, false)
  end.

(** Every pair takes its [=] of the text: the length bounds the rounds. *)
Fixpoint audit_fields_loop (fuel : nat) (s : string) (fields : gmap string string) (unquoted : gset string)
    : Run (gmap string string * gset string) :=
  match break_byte is_equals (trim_start_byte is_space s) with
  | (_, EmptyString) => Ran (fields, unquoted)
  | (key, String _ after) =>
      match fuel with
      | O => Spun
      | S fuel =>
          let '(value, rest, was_quoted) := field_value after in
          audit_fields_loop fuel rest (<[key := value]> fields)
            (if was_quoted then unquoted ∖ {[key]} else {[key]} ∪ unquoted)
      end
  end.
Definition parse_fields (msg : string) : Run (gmap string string * gset string) :=
  match split_once "): " msg with
  | None => Ran (∅, ∅)
  | Some (_, fields_str) => audit_fields_loop (String.length fields_str) fields_str ∅ ∅
  end.

Definition parse_audit_message (raw : bytes) : Run (result AuditRecord AuditParseError) :=
  if blen raw <? NLMSGHDR_SIZE then Ran (Err (TooShort (blen raw)))
  else
    let record_type := from_le (take 2 (drop 4 raw)) in
    let msg := from_utf8_lossy (drop (Z.to_nat NLMSGHDR_SIZE) raw) in
    match parse_msg_header msg with
    | None => Ran (Err BadHeader)
    | Some (sec, ms, seq) =>
        '(fields, unquoted) <-run parse_fields msg;
        Ran (Ok (mkAuditRecord record_type sec ms seq fields unquoted))
    end.

(** ** [classify.rs] *)

Inductive AuditEvent :=
  | AuditExec (pid uid gid : Z) (image_path : string) (argv : list string)
  | AuditConnect (pid uid gid : Z) (remote_ip : IpAddr) (remote_port : Z) (protocol : Z)
  | AuditPolicyDenial (comm scontext tcontext tclass : option string) (permissive : bool) (object_path : option string).

Definition AUDIT_EXECVE : Z := 1309.
Definition AUDIT_SOCKADDR : Z := 1306.
Definition AUDIT_AVC : Z := 1400.

Definition run_of {A : Type} (o : outcome A) : Run A := match o with Return a => Ran a | Panic => Panicked end.

Definition decode_audit_value (value : string) : Run string :=
  if Nat.even (String.length value) && str_all is_hexdigit value then
    b <-run run_of (hex_decode value);
    Ran (default value (b ≫= from_utf8))
  else Ran value.

Definition decoded_field (record : AuditRecord) (key : string) : Run (option string) :=
  match ar_fields record !! key with
  | None => Ran None
  | Some value =>
      if decide (key ∈ ar_unquoted_fields record) then v <-run decode_audit_value value; Ran (Some v)
      else Ran (Some value)
  end.

Definition id_field (record : AuditRecord) (key : string) : Z := default 0 (ar_fields record !! key ≫= parse_upto U32_MAX).

(** The arguments [i .. i + n], none when one is missing. *)
Fixpoint collect_argv (record : AuditRecord) (n : nat) (i : Z) : Run (option (list string)) :=
  match n with
  | O => Ran (Some [])
  | S n =>
      a <-run decoded_field record (cat ["a"; show_u64 i]);
      match a with
      | None => Ran None
      | Some a => rest <-run collect_argv record n (i + 1); Ran ((fun l => a :: l) <$> rest)
      end
  end.

Definition classify_exec (record : AuditRecord) : Run (option AuditEvent) :=
  argc <-some ar_fields record !! "argc" ≫= parse_u64;
  argv <-run collect_argv record (Z.to_nat argc) 0;
  Ran (argv ← argv; image_path ← head argv;
       Some (AuditExec (id_field record "pid") (id_field record "uid") (id_field record "gid") image_path argv)).

Definition parse_sockaddr (hex : string) : Run (option (IpAddr * Z)) :=
  b <-run run_of (hex_decode hex);
  Ran (b ← b;
       if blen b <? 4 then None
       else
         let family := from_le (take 2 b) in
         let port := from_be (take 2 (drop 2 b)) in
         if family =? 2 then if blen b <? 8 then None else Some (V4 (from_be (take 4 (drop 4 b))), port)
         else if family =? 10 then if blen b <? 28 then None else Some (V6 (from_be (take 16 (drop 8 b))), port)
         else None).

Definition classify_connect (record : AuditRecord) : Run (option AuditEvent) :=
  saddr_hex <-some ar_fields record !! "saddr";
  remote <-run parse_sockaddr saddr_hex;
  Ran ('(ip, port) ← remote;
       Some (AuditConnect (id_field record "pid") (id_field record "uid") (id_field record "gid") ip port 6)).

Definition classify_avc (record : AuditRecord) : Run (option AuditEvent) :=
  let scontext := ar_fields record !! "scontext" in
  let tclass := ar_fields record !! "tclass" in
  match scontext, tclass with
  | None, None => Ran None
  | _, _ =>
      path <-run decoded_field record "path";
      object_path <-run (match path with Some p => Ran (Some p) | None => decoded_field record "name" end);
      Ran (Some (AuditPolicyDenial (ar_fields record !! "comm") scontext (ar_fields record !! "tcontext") tclass
                   (match ar_fields record !! "permissive" with Some v => String.eqb v "1" | None => false end) object_path))
  end.

Definition classify (record : AuditRecord) : Run (option AuditEvent) :=
  if ar_record_type record =? AUDIT_EXECVE then classify_exec record
  else if ar_record_type record =? AUDIT_SOCKADDR then classify_connect record
  else if ar_record_type record =? AUDIT_AVC then classify_avc record
  else Ran None.

(** ** [normalize.rs] *)

Definition audit_meta (timestamp_ns pid : Z) (user : User) (comm : string) : EventMeta :=
  mkEventMeta pid 0 user timestamp_ns comm None None None.
Definition comm_from_path (p : string) : string := match rsplit_byte is_slash p with Some (_, leaf) => leaf | None => p end.

(** [exec_event], [connect_event] and [policy_denial_event], called on their own
    variant each. *)
Definition schema_event (evt : AuditEvent) (timestamp_ns : Z) : Event :=
  match evt with
  | AuditExec pid uid gid image_path argv =>
      Event_Exec (mkExecEvent (audit_meta timestamp_ns pid (User_Unix uid gid) (comm_from_path image_path))
        image_path (String.concat " " argv) argv None None None None [])
  | AuditConnect pid uid gid ip port _ =>
      Event_Connect (mkConnectEvent (audit_meta timestamp_ns pid (User_Unix uid gid) "unknown") ip port)
  | AuditPolicyDenial comm scontext tcontext tclass permissive object_path =>
      Event_PolicyDenial (mkPolicyDenialEvent (audit_meta timestamp_ns 0 User_Unknown (default "unknown" comm))
        "selinux" scontext tcontext tclass None (negb permissive) object_path)
  end.

(** ** [sensor.rs] *)

Definition DRAIN_BUDGET : nat := 256.
Definition audit_ts_to_epoch_ns (sec ms : Z) : Z := wrap64 (wrap64 (sec * 1000000000) + ms * 1000000).
Definition forward (record : AuditRecord) : Run (list Event) :=
  event <-run classify record;
  Ran (match event with
       | None => []
       | Some event => [schema_event event (audit_ts_to_epoch_ns (ar_timestamp_sec record) (ar_timestamp_ms record))]
       end).

(** What a call of [recv] finds: the next message, the note that messages were
    dropped, or another error; an empty queue answers [EAGAIN]. *)
Inductive AuditRecv := Message (b : bytes) | Overrun | RecvError (errno : Z).
Record AuditState := mkAuditState { as_sink : list Event; as_unparsed : Z; as_overruns : Z; as_ready : bool }.
Inductive Drained := Going (queue : list AuditRecv) (s : AuditState) | Stopped (s : AuditState).

Definition handle_message (s : AuditState) (b : bytes) : Run AuditState :=
  r <-run parse_audit_message b;
  match r with
  | Ok record => es <-run forward record; Ran (mkAuditState (as_sink s ++ es)%list (as_unparsed s) (as_overruns s) (as_ready s))
  | Err _ => Ran (mkAuditState (as_sink s) (as_unparsed s + 1) (as_overruns s) (as_ready s))
  end.

(** One wakeup: up to the budget, until the queue is empty. *)
Fixpoint drain_loop (budget : nat) (queue : list AuditRecv) (s : AuditState) : Run Drained :=
  match budget with
  | O => Ran (Going queue s)
  | S budget =>
      match queue with
      | [] => Ran (Going [] (mkAuditState (as_sink s) (as_unparsed s) (as_overruns s) false))
      | Message b :: queue => s <-run handle_message s b; drain_loop budget queue s
      | Overrun :: queue => drain_loop budget queue (mkAuditState (as_sink s) (as_unparsed s) (as_overruns s + 1) (as_ready s))
      | RecvError _ :: _ => Ran (Stopped s)
      end
  end.
Definition wakeup (queue : list AuditRecv) (s : AuditState) : Run Drained := drain_loop DRAIN_BUDGET queue s.
