(* ===== verification/LinuxAuditTheorems.v ===== *)
(** * LinuxAuditTheorems: execs through the audit record and back

    The kernel's way of writing an argument vector into a record, read back
    exactly; what a record of another shape loses; and the drain loop. *)
From stdpp Require Import base gmap strings list.
From Stdlib Require Import ZArith Lia Ascii.
From Stdlib Require String.
From S2P Require Import Prelude Str Text Scan Schema Fs Utf8 Bytes Updater LinuxAudit.
#[local] Open Scope string_scope.
#[local] Open Scope Z_scope.
#[local] Open Scope edr_scope.

(** ** How the kernel writes values *)

(** A byte that makes the kernel write a value in hexadecimal. *)
Definition needs_hex (a : ascii) : bool :=
  let n := nat_of_ascii a in is_quote a || (n <? 33)%nat || (126 <? n)%nat.
Definition hex_upper_digit (n : Z) : ascii := ascii_of_nat (Z.to_nat (if n <? 10 then 48 + n else 55 + n)).
Fixpoint hex_upper (b : bytes) : string :=
  match b with [] => EmptyString | x :: b => String (hex_upper_digit (x / 16)) (String (hex_upper_digit (x mod 16)) (hex_upper b)) end.

Inductive WireValue := Quoted (v : string) | Bare (v : string).
Definition wire_value (w : WireValue) : string := match w with Quoted v | Bare v => v end.
Definition wire_text (w : WireValue) : string := match w with Quoted v => String quote (v +:+ String quote EmptyString) | Bare v => v end.
Definition wire_ok (w : WireValue) : bool :=
  match w with
  | Quoted v => str_all (fun a => negb (is_quote a)) v
  | Bare v => negb (str_is_empty v) && str_all (fun a => negb (is_space a)) v && str_all (fun a => negb (is_quote a)) v
  end.
Definition arg_wire (s : string) : WireValue := if str_all (fun a => negb (needs_hex a)) s then Quoted s else Bare (hex_upper (bytes_of_str s)).

(** Pairs as a record lists them. *)
Definition key_byte (a : ascii) : bool := negb (is_equals a) && negb (is_space a).
Definition entry_ok (e : string * WireValue) : bool := negb (str_is_empty e.1) && str_all key_byte e.1 && wire_ok e.2.
Definition entry_text (e : string * WireValue) : string := " " +:+ e.1 +:+ "=" +:+ wire_text e.2.

(** ** Reading pairs *)

Definition put (fu : gmap string string * gset string) (e : string * WireValue) : gmap string string * gset string :=
  (<[e.1 := wire_value e.2]> fu.1, match e.2 with Quoted _ => fu.2 ∖ {[e.1]} | Bare _ => {[e.1]} ∪ fu.2 end).

Definition blank_or_end (s : string) : bool := match s with EmptyString => true | String a _ => is_space a end.

Lemma field_value_read w rest :
  wire_ok w = true -> blank_or_end rest = true ->
  field_value (wire_text w +:+ rest) = (wire_value w, rest, match w with Quoted _ => true | Bare _ => false end).
Proof.
  destruct w as [v|v]; cbn [wire_ok wire_text wire_value]; intros Hw Hr.
  - change (String quote (v +:+ String quote EmptyString) +:+ rest) with (String quote ((v +:+ String quote EmptyString) +:+ rest)).
    cbn [field_value is_quote]. rewrite str_app_assoc. change (Ascii.eqb quote quote) with true. cbv iota.
    rewrite break_byte_app; [done|exact Hw|done].
  - apply andb_true_iff in Hw as [[Hne Hs]%andb_true_iff Hq]. destruct v as [|a v]; [done|].
    cbn [str_all] in Hq. apply andb_true_iff in Hq as [Hq _]. apply negb_true_iff in Hq.
    assert (break_byte is_space (String a v +:+ rest) = (String a v, rest)) as E by (apply break_byte_app; [exact Hs|exact Hr]).
    change (String a v +:+ rest) with (String a (v +:+ rest)) in *. cbn [field_value]. by rewrite Hq, E.
Qed.

Lemma audit_fields_loop_step fuel e rest f u :
  entry_ok e = true -> blank_or_end rest = true ->
  audit_fields_loop (S fuel) (entry_text e +:+ rest) f u = audit_fields_loop fuel rest (put (f, u) e).1 (put (f, u) e).2.
Proof.
  intros [[Hne Hk]%andb_true_iff Hw]%andb_true_iff Hr. destruct e as [k w]. cbn [fst snd] in *. unfold entry_text. cbn [fst snd].
  rewrite !str_app_assoc. cbn [audit_fields_loop].
  assert (trim_start_byte is_space (" " +:+ k +:+ "=" +:+ wire_text w +:+ rest) = k +:+ "=" +:+ wire_text w +:+ rest) as ->.
  { rewrite (trim_start_byte_app is_space " ") by done. destruct k as [|a k]; [done|]. apply trim_start_byte_keeps.
    cbn [str_all] in Hk. apply andb_true_iff in Hk as [[_ Ha]%andb_true_iff _]. by apply negb_true_iff. }
  rewrite break_byte_app; [|eapply str_all_impl; [|exact Hk]; intros a [? _]%andb_true_iff; done|done].
  change ("=" +:+ wire_text w +:+ rest) with (String "=" (wire_text w +:+ rest)). cbv iota.
  rewrite (field_value_read w rest Hw Hr). by destruct w.
Qed.

Lemma entries_length es : (length es <= String.length (cat (entry_text <$> es)))%nat.
Proof.
  induction es as [|e es IH]; [done|].
  change (cat (entry_text <$> e :: es)) with (entry_text e +:+ cat (entry_text <$> es)). rewrite str_app_length. simpl in *. lia.
Qed.

Lemma entries_blank es : blank_or_end (cat (entry_text <$> es)) = true.
Proof. by destruct es. Qed.

Lemma audit_fields_loop_entries fuel es f u :
  forallb entry_ok es = true -> (length es <= fuel)%nat ->
  audit_fields_loop fuel (cat (entry_text <$> es)) f u = Ran (foldl put (f, u) es).
Proof.
  revert fuel f u. induction es as [|e es IH]; intros fuel f u Hok Hf; [by destruct fuel|].
  cbn [forallb] in Hok. apply andb_true_iff in Hok as [He Hok]. destruct fuel as [|fuel]; [simpl in Hf; lia|].
  change (cat (entry_text <$> e :: es)) with (entry_text e +:+ cat (entry_text <$> es)).
  rewrite audit_fields_loop_step by (done || apply entries_blank). rewrite IH; [|done|simpl in Hf; lia]. cbn [foldl]. by destruct (put (f, u) e).
Qed.

(** What a field holds when the keys are distinct. *)
Lemma put_other es fu k : k ∉ es.*1 -> (foldl put fu es).1 !! k = fu.1 !! k /\ (k ∈ (foldl put fu es).2 <-> k ∈ fu.2).
Proof.
  revert fu. induction es as [|[k' w] es IH]; intros fu Hk; [done|]. apply not_elem_of_cons in Hk as [Hne Hk]. cbn [fst] in Hne.
  cbn [foldl]. destruct (IH (put fu (k', w)) Hk) as [-> ->]. unfold put. cbn [fst snd]. rewrite lookup_insert_ne by done.
  split; [done|]. destruct w; set_solver.
Qed.

Lemma put_lookup es fu k w :
  NoDup es.*1 -> (k, w) ∈ es ->
  (foldl put fu es).1 !! k = Some (wire_value w) /\ (k ∈ (foldl put fu es).2 <-> match w with Quoted _ => False | Bare _ => True end).
Proof.
  revert fu. induction es as [|e es IH]; intros fu Hnd Hin; [by apply not_elem_of_nil in Hin|].
  apply NoDup_cons in Hnd as [Hk Hnd]. cbn [foldl]. apply elem_of_cons in Hin as [<-|Hin]; [|by apply IH].
  cbn [fst] in Hk. destruct (put_other es (put fu (k, w)) k Hk) as [-> ->]. unfold put. cbn [fst snd].
  rewrite lookup_insert_eq. split; [done|]. destruct w; set_solver.
Qed.

(** ** Reading values *)

Lemma hex_upper_facts n :
  0 <= n < 16 -> hex_val (hex_upper_digit n) = Some n /\ Ascii.eqb (hex_upper_digit n) "+" = false
  /\ is_continuation (hex_upper_digit n) = false /\ is_hexdigit (hex_upper_digit n) = true.
Proof.
  intros Hn.
  pose (f := fun n => match hex_val (hex_upper_digit n) with Some k => k =? n | None => false end
                      && negb (Ascii.eqb (hex_upper_digit n) "+") && negb (is_continuation (hex_upper_digit n)) && is_hexdigit (hex_upper_digit n)).
  assert (f n = true) as Hf by (by apply (forallb_seqZ f 16)). unfold f in Hf. rewrite !andb_true_iff, !negb_true_iff in Hf.
  destruct Hf as [[[H1 H2] H3] H4]. split_and!; try done. destruct (hex_val (hex_upper_digit n)); [|done]. f_equal. lia.
Qed.

Lemma hex_pairs_upper bs : Forall (fun b => 0 <= b < 256) bs -> hex_pairs (hex_upper bs) = Return (Some bs).
Proof.
  induction 1 as [|b bs Hb Hbs IH]; [done|]. cbn [hex_upper hex_pairs]. destruct (byte_digits b Hb) as [H1 H2].
  assert (at_boundary (hex_upper bs) = true) as ->.
  { destruct Hbs as [|c cs Hc]; [done|]. simpl. destruct (byte_digits c Hc) as [H3 _].
    by destruct (hex_upper_facts (c / 16) H3) as (_ & _ & -> & _). }
  destruct (hex_upper_facts _ H1) as (E1 & E2 & _). destruct (hex_upper_facts _ H2) as (E3 & _).
  unfold from_str_radix16. rewrite E2, E1, E3. simpl. rewrite IH. do 3 f_equal. pose proof (Z.div_mod b 16). lia.
Qed.

Lemma hex_upper_digits bs : Forall (fun b => 0 <= b < 256) bs -> str_all is_hexdigit (hex_upper bs) = true.
Proof.
  induction 1 as [|b bs Hb _ IH]; [done|]. cbn [hex_upper str_all]. destruct (byte_digits b Hb) as [H1 H2].
  destruct (hex_upper_facts _ H1) as (_ & _ & _ & ->). destruct (hex_upper_facts _ H2) as (_ & _ & _ & ->). done.
Qed.

Lemma hex_upper_even bs : Nat.even (String.length (hex_upper bs)) = true.
Proof. induction bs as [|b bs IH]; [done|]. exact IH. Qed.

Lemma bytes_of_str_range s : Forall (fun b => 0 <= b < 256) (bytes_of_str s).
Proof.
  unfold bytes_of_str. apply Forall_fmap, Forall_true. intros a. simpl. pose proof (nat_ascii_bounded a). lia.
Qed.

Lemma decode_arg s :
  utf8_valid (bytes_of_str s) = true ->
  match arg_wire s with Quoted v => v = s | Bare v => decode_audit_value v = Ran s end.
Proof.
  intros Hu. unfold arg_wire. destruct (str_all _ s); [done|]. unfold decode_audit_value, hex_decode.
  rewrite hex_upper_even, hex_upper_digits, hex_pairs_upper by apply bytes_of_str_range. cbn.
  unfold from_utf8. rewrite Hu. cbn. by rewrite str_of_bytes_of_str.
Qed.

(** No blank and no quote among digits. *)
Lemma hexdigit_plain a : is_hexdigit a = true -> is_space a = false /\ is_quote a = false /\ ascii_byte a = true.
Proof. destruct a as [[] [] [] [] [] [] [] []]; vm_compute; try discriminate; repeat split. Qed.

Lemma arg_wire_ok s : wire_ok (arg_wire s) = true /\ str_all ascii_byte (wire_text (arg_wire s)) = true.
Proof.
  unfold arg_wire. destruct (str_all _ s) eqn:Hs; cbn [wire_ok wire_text].
  - split; [|cbn [str_all]; rewrite str_all_app; apply andb_true_iff; split; [done|]; apply andb_true_iff; split; [|done]];
      (eapply str_all_impl; [|exact Hs]); intros a; destruct a as [[] [] [] [] [] [] [] []]; vm_compute; done.
  - pose proof (hex_upper_digits (bytes_of_str s) (bytes_of_str_range s)) as Hx.
    rewrite !andb_true_iff, negb_true_iff.
    split_and!; [by destruct s| | |]; (eapply str_all_impl; [|exact Hx]); intros a Ha; destruct (hexdigit_plain a Ha) as (E1 & E2 & E3); by rewrite ?E1, ?E2, ?E3.
Qed.

(** ** EXECVE records *)

Definition arg_key (i : Z) : string := cat ["a"; show_u64 i].
Definition arg_entries (i : Z) (args : list string) : list (string * WireValue) :=
  imap (fun j s => (arg_key (i + Z.of_nat j), arg_wire s)) args.
Definition exec_entries (args : list string) : list (string * WireValue) :=
  ("argc", Bare (show_u64 (Z.of_nat (length args)))) :: arg_entries 0 args.
(** The message of a record: its header and its pairs. *)
Definition record_message (sec ms seq : string) (es : list (string * WireValue)) : string :=
  "audit(" +:+ sec +:+ "." +:+ ms +:+ ":" +:+ seq +:+ "):" +:+ cat (entry_text <$> es).

Lemma arg_entries_cons i a args : arg_entries i (a :: args) = (arg_key i, arg_wire a) :: arg_entries (i + 1) args.
Proof.
  unfold arg_entries. rewrite imap_cons. f_equal; [by rewrite Z.add_0_r|]. apply imap_ext. intros j s _. simpl. do 2 f_equal. lia.
Qed.

Lemma arg_key_eq i : arg_key i = String "a" (show_u64 i).
Proof. unfold arg_key. cbn [cat foldr]. by rewrite str_app_nil_r. Qed.

Lemma arg_key_inj i j : 0 <= i <= U64_MAX -> 0 <= j <= U64_MAX -> arg_key i = arg_key j -> i = j.
Proof.
  rewrite !arg_key_eq. intros Hi Hj [= H]. by apply show_u64_inj in H.
Qed.

Lemma arg_key_not_word i w : str_all is_digit w = false -> arg_key i <> String "a" w.
Proof.
  rewrite arg_key_eq. intros Hw [= <-]. by rewrite show_digits in Hw.
Qed.

Lemma arg_entry_key i args e : e ∈ arg_entries i args -> exists j, i <= j < i + Z.of_nat (length args) /\ e.1 = arg_key j.
Proof.
  revert i. induction args as [|a args IH]; intros i; [by intros ?%not_elem_of_nil|]. rewrite arg_entries_cons.
  intros [->|H]%elem_of_cons; [exists i; simpl; split; [lia|done]|]. apply IH in H as (j & ? & ?). exists j. simpl. split; [lia|done].
Qed.

Lemma arg_keys_nodup i args : 0 <= i -> i + Z.of_nat (length args) <= U64_MAX -> NoDup (arg_entries i args).*1.
Proof.
  revert i. induction args as [|a args IH]; intros i Hi Hb; [constructor|]. rewrite arg_entries_cons. cbn [length] in Hb.
  cbn [fmap list_fmap fst]. apply NoDup_cons. split; [|apply IH; lia].
  intros (e & He & Hin)%list_elem_of_fmap. apply arg_entry_key in Hin as (j & Hj & Ej). rewrite Ej in He.
  apply arg_key_inj in He; lia.
Qed.

Lemma exec_entries_nodup args : Z.of_nat (length args) <= U64_MAX -> NoDup (exec_entries args).*1.
Proof.
  intros Hb. unfold exec_entries. cbn [fmap list_fmap fst]. apply NoDup_cons. split; [|by apply arg_keys_nodup].
  intros (e & He & Hin)%list_elem_of_fmap. apply arg_entry_key in Hin as (j & _ & Ej). rewrite Ej in He.
  symmetry in He. by eapply arg_key_not_word in He.
Qed.

(** A decimal field of the header: digits that parse. *)
Definition number_of (hi : Z) (s : string) (z : Z) : Prop := str_all is_digit s = true /\ parse_upto hi s = Some z.

Lemma number_u64 s z : number_of U64_MAX s z -> parse_u64 s = Some z.
Proof.
  intros [_ H]. unfold parse_upto in H. destruct (parse_u64 s) as [y|] eqn:E; [|done]. simpl in H. by destruct (y <=? U64_MAX).
Qed.

Lemma header_read sec ms seq zs zm zq rest :
  number_of U64_MAX sec zs -> number_of U32_MAX ms zm -> number_of U64_MAX seq zq ->
  parse_msg_header ("audit(" +:+ sec +:+ "." +:+ ms +:+ ":" +:+ seq +:+ "):" +:+ rest) = Some (zs, zm, zq).
Proof.
  intros Hs Hm Hq. pose proof (number_u64 _ _ Hs) as Es. pose proof (number_u64 _ _ Hq) as Eq.
  destruct Hs as [Ds _], Hm as [Dm Em], Hq as [Dq _]. unfold parse_msg_header.
  set (more := sec +:+ "." +:+ ms +:+ ":" +:+ seq +:+ "):" +:+ rest).
  assert (split_once "audit(" ("audit(" +:+ more) = Some (EmptyString, more)) as -> by exact (split_once_first "a" "udit(" EmptyString more eq_refl).
  cbn [mbind option_bind]. unfold more.
  assert (str_all (not_byte ":") (sec +:+ "." +:+ ms) = true) as Hc.
  { by rewrite !str_all_app, (digits_free ":" sec), (digits_free ":" ms). }
  assert (split_once ":" (sec +:+ "." +:+ ms +:+ ":" +:+ seq +:+ "):" +:+ rest) = Some (sec +:+ "." +:+ ms, seq +:+ "):" +:+ rest)) as ->.
  { rewrite <- (split_once_first ":" EmptyString _ (seq +:+ "):" +:+ rest) Hc). by rewrite !str_app_assoc. }
  cbn [mbind option_bind].
  assert (str_split "." (sec +:+ "." +:+ ms) = [sec; ms]) as ->.
  { change ("." +:+ ms) with (String "." ms). rewrite str_split_piece by (by apply digits_free). by rewrite str_split_nosep by (by apply digits_free). }
  cbn [mbind option_bind]. rewrite Es, Em. cbn [mbind option_bind].
  rewrite (split_once_first ")" EmptyString seq (":" +:+ rest) (digits_free ")" seq eq_refl Dq) : split_once ")" (seq +:+ "):" +:+ rest) = _).
  cbn [mbind option_bind]. by rewrite Eq.
Qed.

Lemma fields_read sec ms seq zs zm zq e es :
  number_of U64_MAX sec zs -> number_of U32_MAX ms zm -> number_of U64_MAX seq zq -> forallb entry_ok (e :: es) = true ->
  parse_fields (record_message sec ms seq (e :: es)) = Ran (foldl put (∅, ∅) (e :: es)).
Proof.
  intros [Ds _] [Dm _] [Dq _] Hok. unfold parse_fields, record_message.
  set (body := e.1 +:+ "=" +:+ wire_text e.2 +:+ cat (entry_text <$> es)).
  assert (cat (entry_text <$> e :: es) = " " +:+ body) as E.
  { change (cat (entry_text <$> e :: es)) with (entry_text e +:+ cat (entry_text <$> es)). unfold entry_text at 1, body. by rewrite !str_app_assoc. }
  assert (str_all (not_byte ")") ("audit(" +:+ sec +:+ "." +:+ ms +:+ ":" +:+ seq) = true) as Hc.
  { by rewrite !str_all_app, (digits_free ")" sec), (digits_free ")" ms), (digits_free ")" seq). }
  rewrite E.
  assert (split_once "): " ("audit(" +:+ sec +:+ "." +:+ ms +:+ ":" +:+ seq +:+ "):" +:+ " " +:+ body)
          = Some ("audit(" +:+ sec +:+ "." +:+ ms +:+ ":" +:+ seq, body)) as ->.
  { rewrite <- (split_once_first ")" ": " _ body Hc). by rewrite !str_app_assoc. }
  assert (forall fuel, audit_fields_loop fuel body ∅ ∅ = audit_fields_loop fuel (" " +:+ body) ∅ ∅) as Hsp.
  { intros fuel. destruct fuel; cbn [audit_fields_loop]; by rewrite (trim_start_byte_app is_space " " body eq_refl). }
  rewrite Hsp, <- E. apply audit_fields_loop_entries; [done|]. unfold body. rewrite str_app_length.
  pose proof (entries_length es) as Hl.
  cbn [length]. rewrite !str_app_length. simpl. lia.
Qed.

Lemma bytes_ascii s : str_all ascii_byte s = true -> from_utf8_lossy (bytes_of_str s) = s.
Proof.
  intros H. unfold from_utf8_lossy. rewrite ascii_lossy; [apply str_of_bytes_of_str|].
  induction s as [|a s IH]; [done|]. cbn [str_all] in H. apply andb_true_iff in H as [Ha H].
  unfold bytes_of_str. cbn [String.list_ascii_of_string fmap list_fmap forallb]. apply andb_true_iff. split; [|by apply IH].
  revert Ha. destruct a as [[] [] [] [] [] [] [] []]; vm_compute; done.
Qed.

(** A netlink message: its header around the record type, and the text. *)
Definition audit_message (len4 : bytes) (record_type : Z) (rest10 : bytes) (text : string) : bytes :=
  (len4 ++ to_le 2 record_type ++ rest10 ++ bytes_of_str text)%list.

Lemma message_parsed len4 ty rest10 sec ms seq zs zm zq e es :
  length len4 = 4%nat -> length rest10 = 10%nat -> 0 <= ty < 65536 ->
  number_of U64_MAX sec zs -> number_of U32_MAX ms zm -> number_of U64_MAX seq zq ->
  forallb entry_ok (e :: es) = true -> str_all ascii_byte (cat (entry_text <$> e :: es)) = true ->
  parse_audit_message (audit_message len4 ty rest10 (record_message sec ms seq (e :: es)))
  = Ran (Ok (mkAuditRecord ty zs zm zq (foldl put (∅, ∅) (e :: es)).1 (foldl put (∅, ∅) (e :: es)).2)).
Proof.
  intros H4 H10 Hty Hs Hm Hq Hok Ha. unfold parse_audit_message, audit_message.
  set (text := record_message sec ms seq (e :: es)).
  assert (16 <= blen (len4 ++ to_le 2 ty ++ rest10 ++ bytes_of_str text)%list) as Hlen.
  { unfold blen. rewrite !length_app, H4, H10, to_le_length. lia. }
  destruct (Z.ltb_spec (blen (len4 ++ to_le 2 ty ++ rest10 ++ bytes_of_str text)%list) NLMSGHDR_SIZE); [unfold NLMSGHDR_SIZE in *; lia|].
  rewrite (drop_app_length' len4 _ 4%nat) by (by rewrite H4). rewrite (take_app_length' (to_le 2 ty)) by (by rewrite to_le_length).
  rewrite from_to_le by (unfold fits; lia).
  assert (drop (Z.to_nat NLMSGHDR_SIZE) (len4 ++ to_le 2 ty ++ rest10 ++ bytes_of_str text)%list = bytes_of_str text) as ->.
  { change (Z.to_nat NLMSGHDR_SIZE) with (4 + (2 + 10))%nat. rewrite <- !drop_drop. rewrite (drop_app_length' len4 _ 4%nat) by (by rewrite H4).
    rewrite (drop_app_length' (to_le 2 ty)) by (by rewrite to_le_length). by rewrite (drop_app_length' rest10) by (by rewrite H10). }
  assert (str_all ascii_byte text = true) as Ht.
  { assert (forall d, str_all is_digit d = true -> str_all ascii_byte d = true) as Hd.
    { intros d. apply str_all_impl. intros a. destruct a as [[] [] [] [] [] [] [] []]; vm_compute; done. }
    unfold text, record_message. rewrite !str_all_app, Ha.
    rewrite (Hd sec) by apply Hs. rewrite (Hd ms) by apply Hm. rewrite (Hd seq) by apply Hq. done. }
  rewrite bytes_ascii by done. unfold text, record_message. rewrite (header_read _ _ _ zs zm zq) by done.
  fold (record_message sec ms seq (e :: es)). rewrite (fields_read _ _ _ zs zm zq) by done. by destruct (foldl put (∅, ∅) (e :: es)).
Qed.

Lemma arg_entries_ok i args : forallb entry_ok (arg_entries i args) = true /\ str_all ascii_byte (cat (entry_text <$> arg_entries i args)) = true.
Proof.
  assert (forall d, str_all is_digit d = true -> str_all key_byte d = true /\ str_all ascii_byte d = true) as Hd.
  { intros d H. split; eapply str_all_impl; try exact H; intros a; destruct a as [[] [] [] [] [] [] [] []]; vm_compute; done. }
  revert i. induction args as [|a args IH]; intros i; [done|]. rewrite arg_entries_cons. destruct (IH (i + 1)) as [IH1 IH2].
  destruct (arg_wire_ok a) as [Hw Ha]. destruct (Hd (show_u64 i) (show_digits i)) as [Hk Hka]. split.
  - cbn [forallb]. apply andb_true_iff. split; [|exact IH1]. unfold entry_ok. cbn [fst snd]. by rewrite arg_key_eq, Hw; cbn; rewrite Hk.
  - change (cat (entry_text <$> (arg_key i, arg_wire a) :: arg_entries (i + 1) args))
      with (entry_text (arg_key i, arg_wire a) +:+ cat (entry_text <$> arg_entries (i + 1) args)).
    rewrite str_all_app, IH2, andb_true_r. unfold entry_text. cbn [fst snd]. rewrite arg_key_eq, !str_all_app, Ha. cbn. by rewrite Hka.
Qed.

Lemma exec_entries_ok args :
  forallb entry_ok (exec_entries args) = true /\ str_all ascii_byte (cat (entry_text <$> exec_entries args)) = true.
Proof.
  destruct (arg_entries_ok 0 args) as [H1 H2]. set (n := Z.of_nat (length args)).
  assert (forall f : ascii -> bool, (forall a, is_digit a = true -> f a = true) -> str_all f (show_u64 n) = true) as Hd.
  { intros f Hf. eapply str_all_impl; [exact Hf|apply show_digits]. }
  assert (forall a, is_digit a = true -> negb (is_space a) = true /\ negb (is_quote a) = true /\ ascii_byte a = true) as Hdig.
  { intros a. destruct a as [[] [] [] [] [] [] [] []]; vm_compute; try discriminate; repeat split. }
  split.
  - unfold exec_entries. cbn [forallb]. rewrite H1, andb_true_r. unfold entry_ok. cbn [fst snd wire_ok]. fold n.
    rewrite (Hd (fun a => negb (is_space a))), (Hd (fun a => negb (is_quote a))) by (intros a Ha; apply Hdig, Ha).
    rewrite !andb_true_r. pose proof (show_nonempty n). by destruct (show_u64 n).
  - change (cat (entry_text <$> exec_entries args)) with (entry_text ("argc", Bare (show_u64 n)) +:+ cat (entry_text <$> arg_entries 0 args)).
    rewrite str_all_app, H2, andb_true_r. unfold entry_text. cbn [fst snd wire_text].
    rewrite !str_all_app, (Hd ascii_byte) by (intros a Ha; apply Hdig, Ha). done.
Qed.

(** The record of an exec: every argument is found under its key. *)
Lemma decoded_arg record args :
  NoDup (exec_entries args).*1 -> Forall (fun s => utf8_valid (bytes_of_str s) = true) args ->
  ar_fields record = (foldl put (∅, ∅) (exec_entries args)).1 -> ar_unquoted_fields record = (foldl put (∅, ∅) (exec_entries args)).2 ->
  forall i s, args !! i = Some s -> decoded_field record (arg_key (Z.of_nat i)) = Ran (Some s).
Proof.
  intros Hnd Hu Ef Eu i s Hi.
  assert ((arg_key (Z.of_nat i), arg_wire s) ∈ exec_entries args) as Hin.
  { apply elem_of_cons. right. unfold arg_entries. apply elem_of_lookup_imap. eauto. }
  destruct (put_lookup _ (∅, ∅) _ _ Hnd Hin) as [Hl Hq]. unfold decoded_field. rewrite Ef, Eu, Hl.
  pose proof (decode_arg s (proj1 (Forall_lookup _ _) Hu _ _ Hi)) as Hdec.
  destruct (arg_wire s) as [v|v]; cbn [wire_value] in *.
  - rewrite decide_False by (intros Hx; by apply Hq in Hx). by rewrite Hdec.
  - rewrite decide_True by (by apply Hq). by rewrite Hdec.
Qed.

Lemma collect_all record args i :
  (forall j s, args !! j = Some s -> decoded_field record (arg_key (i + Z.of_nat j)) = Ran (Some s)) ->
  collect_argv record (length args) i = Ran (Some args).
Proof.
  revert i. induction args as [|a args IH]; intros i H; [done|]. cbn [length collect_argv]. fold (arg_key i).
  specialize (H 0%nat a eq_refl) as Ha. rewrite Z.add_0_r in Ha. rewrite Ha. cbn [run_bind].
  rewrite IH; [done|]. intros j s Hj. specialize (H (S j) s Hj). rewrite <- H. do 2 f_equal. lia.
Qed.

Lemma exec_no_ids args key :
  key ∈ ["pid"; "uid"; "gid"] -> (foldl put (∅, ∅) (exec_entries args)).1 !! key = None.
Proof.
  intros Hk. assert (key ∉ (exec_entries args).*1) as Hn.
  { intros (e & -> & [->|He]%elem_of_cons)%list_elem_of_fmap; [set_solver|].
    apply arg_entry_key in He as (j & _ & Ej). rewrite Ej, arg_key_eq in Hk. set_solver. }
  by destruct (put_other (exec_entries args) (∅, ∅) key Hn) as [-> _].
Qed.

(** The most text of an exec record this file reads as the kernel's one record: past
    7500 bytes the kernel splits arguments and records; the margin covers the field
    names it counts ahead. *)
Definition UNSPLIT_EXEC_LEN : nat := 7000.

(** The message of an exec the kernel writes as one record; none where it splits it. *)
Definition exec_message (sec ms seq : string) (argv : list string) : option string :=
  if (String.length (cat (entry_text <$> exec_entries argv)) <=? UNSPLIT_EXEC_LEN)%nat
  then Some (record_message sec ms seq (exec_entries argv)) else None.

Lemma exec_message_some sec ms seq argv text :
  exec_message sec ms seq argv = Some text ->
  text = record_message sec ms seq (exec_entries argv) /\ Z.of_nat (length argv) <= U64_MAX.
Proof.
  unfold exec_message. destruct (Nat.leb_spec (String.length (cat (entry_text <$> exec_entries argv))) UNSPLIT_EXEC_LEN) as [Hl|]; [|done].
  intros [= <-]. split; [done|]. pose proof (entries_length (exec_entries argv)) as Hn.
  unfold exec_entries in Hn at 1. cbn [length] in Hn. unfold arg_entries in Hn. rewrite length_imap in Hn.
  assert (Z.of_nat UNSPLIT_EXEC_LEN <= U64_MAX) by (vm_compute; congruence). unfold U64_MAX in *. lia.
Qed.

(** The record of an exec names no process or user; those of the event are zero. *)
Lemma exec_without_identity s len4 rest10 sec ms seq zs zm zq img args :
  length len4 = 4%nat -> length rest10 = 10%nat ->
  number_of U64_MAX sec zs -> number_of U32_MAX ms zm -> number_of U64_MAX seq zq ->
  Forall (fun s => utf8_valid (bytes_of_str s) = true) (img :: args) -> Z.of_nat (length (img :: args)) <= U64_MAX ->
  handle_message s (audit_message len4 AUDIT_EXECVE rest10 (record_message sec ms seq (exec_entries (img :: args))))
  = Ran (mkAuditState
      (as_sink s ++ [Event_Exec (mkExecEvent
         (mkEventMeta 0 0 (User_Unix 0 0) (audit_ts_to_epoch_ns zs zm) (comm_from_path img) None None None)
         img (String.concat " " (img :: args)) (img :: args) None None None None [])])%list
      (as_unparsed s) (as_overruns s) (as_ready s)).
Proof.
  intros H4 H10 Hs Hm Hq Hu Hb. set (argv := img :: args) in *. destruct (exec_entries_ok argv) as [Hok Ha].
  pose proof (exec_entries_nodup argv Hb) as Hnd. unfold handle_message.
  assert (0 <= AUDIT_EXECVE < 65536) as Hty by (unfold AUDIT_EXECVE; lia).
  pose proof (message_parsed len4 AUDIT_EXECVE rest10 sec ms seq zs zm zq ("argc", Bare (show_u64 (Z.of_nat (length argv))))
    (arg_entries 0 argv) H4 H10 Hty Hs Hm Hq Hok Ha) as Hp.
  fold (exec_entries argv) in Hp. rewrite Hp. cbn [run_bind]. unfold forward, LinuxAudit.classify. cbn [ar_record_type]. change (AUDIT_EXECVE =? AUDIT_EXECVE) with true. cbv iota.
  unfold classify_exec, id_field. cbn [ar_fields].
  assert ((foldl put (∅, ∅) (exec_entries argv)).1 !! "argc" = Some (show_u64 (Z.of_nat (length argv)))) as ->.
  { apply (put_lookup _ _ "argc" (Bare (show_u64 (Z.of_nat (length argv)))) Hnd), elem_of_cons. by left. }
  rewrite !exec_no_ids by set_solver. cbn [mbind option_bind]. rewrite parse_show by lia. cbn [try_bind]. rewrite Nat2Z.id.
  rewrite (collect_all _ argv 0); [done|]. intros j v Hj. by eapply (decoded_arg _ argv).
Qed.

(** C35. An exec seen through the audit log: for every argument vector of text that the
    kernel writes as one record (within the length past which it splits arguments),
    whatever bytes the arguments hold, that record (an argument in quotes, or in
    hexadecimal when it has a blank, a quote or a byte outside the printable range) is
    delivered as exactly one exec event with exactly that vector, its first element as
    path, its command line, the name of the program and the record's time; nothing else
    of the sensor's state changes.  Which process and user the event names is not
    stated: the record has neither. *)
Theorem exec_record_roundtrip s len4 rest10 sec ms seq zs zm zq img args text :
  length len4 = 4%nat -> length rest10 = 10%nat ->
  number_of U64_MAX sec zs -> number_of U32_MAX ms zm -> number_of U64_MAX seq zq ->
  Forall (fun s => utf8_valid (bytes_of_str s) = true) (img :: args) ->
  exec_message sec ms seq (img :: args) = Some text ->
  exists pid ppid user,
    handle_message s (audit_message len4 AUDIT_EXECVE rest10 text)
    = Ran (mkAuditState
        (as_sink s ++ [Event_Exec (mkExecEvent
           (mkEventMeta pid ppid user (audit_ts_to_epoch_ns zs zm) (comm_from_path img) None None None)
           img (String.concat " " (img :: args)) (img :: args) None None None None [])])%list
        (as_unparsed s) (as_overruns s) (as_ready s)).
Proof.
  intros H4 H10 Hs Hm Hq Hu [-> Hb]%exec_message_some. do 3 eexists. by apply (exec_without_identity s len4 rest10 sec ms seq zs zm zq).
Qed.
Lemma exec_record_roundtrip_witness :
  exists pid ppid user,
  handle_message (mkAuditState [] 0 0 true)
    (audit_message [1; 2; 3; 4] AUDIT_EXECVE [0; 0; 0; 0; 0; 0; 0; 0; 0; 0] (record_message "7" "005" "9" (exec_entries ["/t"; "-c x"])))
  = Ran (mkAuditState [Event_Exec (mkExecEvent (mkEventMeta pid ppid user 7005000000 "t" None None None)
           "/t" "/t -c x" ["/t"; "-c x"] None None None None [])] 0 0 true).
Proof.
  apply (exec_record_roundtrip (mkAuditState [] 0 0 true) [1; 2; 3; 4] [0; 0; 0; 0; 0; 0; 0; 0; 0; 0] "7" "005" "9" 7 5 9 "/t" ["-c x"]);
    try reflexivity; try (split; reflexivity); repeat constructor.
Defined.

(** ** What other records lose *)

Lemma hex_pairs_returns s : str_all is_hexdigit s = true -> exists r, hex_pairs s = Return r.
Proof.
  assert (forall a, is_hexdigit a = true -> is_continuation a = false) as Hc.
  { intros a. destruct a as [[] [] [] [] [] [] [] []]; vm_compute; done. }
  remember (String.length s) as n eqn:En. revert s En. induction n as [n IH] using lt_wf_ind. intros s -> Hs.
  destruct s as [|a [|b s]]; [by eexists|by eexists|]. cbn [str_all] in Hs. rewrite !andb_true_iff in Hs. destruct Hs as (_ & _ & Hs).
  cbn [hex_pairs]. assert (at_boundary s = true) as ->.
  { destruct s as [|c s]; [done|]. cbn [str_all] in Hs. apply andb_true_iff in Hs as [H _]. cbn. by rewrite (Hc c H). }
  cbn [negb]. destruct (from_str_radix16 a b); [|by eexists].
  destruct (IH (String.length s) ltac:(simpl; lia) s eq_refl Hs) as [r ->]. destruct r; by eexists.
Qed.

Lemma decoded_field_returns record key : returns (decoded_field record key).
Proof.
  unfold decoded_field. destruct (ar_fields record !! key) as [v|]; [|apply returns_ran].
  destruct (decide _); [|apply returns_ran]. unfold decode_audit_value, hex_decode.
  destruct (Nat.even (String.length v)); cbn [andb]; [|apply returns_ran].
  destruct (str_all is_hexdigit v) eqn:E; [|apply returns_ran]. destruct (hex_pairs_returns v E) as [r ->]. apply returns_ran.
Qed.

Lemma collect_missing record n i k :
  0 <= k < Z.of_nat n -> ar_fields record !! arg_key (i + k) = None -> collect_argv record n i = Ran None.
Proof.
  revert i k. induction n as [|n IH]; intros i k Hk Hm; [lia|]. cbn [collect_argv]. fold (arg_key i).
  destruct (decide (k = 0)) as [->|].
  - rewrite Z.add_0_r in Hm. unfold decoded_field. by rewrite Hm.
  - destruct (decoded_field_returns record (arg_key i)) as [[a|] ->]; [|done]. cbn [run_bind].
    rewrite (IH (i + 1) (k - 1)); [done|lia|]. replace (i + 1 + (k - 1)) with (i + k) by lia. done.
Qed.

(** An exec with a long argument is not seen: the kernel splits an argument past
    its limit over several fields ([a1_len], [a1[0]], ...) and writes no [a1]; for
    every record of an exec in which the field of one argument is missing, whatever
    else it holds, no event is reported. *)
Theorem split_argument_hides_exec record argc k :
  ar_record_type record = AUDIT_EXECVE -> ar_fields record !! "argc" = Some (show_u64 argc) ->
  0 <= k < argc -> argc <= U64_MAX -> ar_fields record !! arg_key k = None -> forward record = Ran [].
Proof.
  intros Ht Hc Hk Hb Hm. unfold forward, LinuxAudit.classify. rewrite Ht. change (AUDIT_EXECVE =? AUDIT_EXECVE) with true. cbv iota.
  unfold classify_exec. rewrite Hc. cbn [mbind option_bind]. rewrite parse_show by lia. cbn [try_bind].
  rewrite (collect_missing record (Z.to_nat argc) 0 k); [done|lia|done].
Qed.
Lemma split_argument_hides_exec_witness :
  forward (mkAuditRecord AUDIT_EXECVE 1 0 1 (<["a1_len" := "8000"]> (<["a1[0]" := "x"]> (<["a0" := "/bin/sh"]> {["argc" := "2"]}))) ∅) = Ran [].
Proof. apply (split_argument_hides_exec _ 2 1); [reflexivity|reflexivity|lia|unfold U64_MAX; lia|reflexivity]. Defined.

(** An argument that is not text stays in the kernel's hexadecimal. *)
Lemma not_text_stays_encoded b :
  Forall (fun x => 0 <= x < 256) b -> utf8_valid b = false -> decode_audit_value (hex_upper b) = Ran (hex_upper b).
Proof.
  intros Hb Hu. unfold decode_audit_value, hex_decode. rewrite hex_upper_even, hex_upper_digits, hex_pairs_upper by done.
  cbn. unfold from_utf8. by rewrite Hu.
Qed.

(** ** Socket addresses *)

Lemma bytes_in n z : 0 <= z -> Forall (fun b => 0 <= b < 256) (to_be n z).
Proof.
  intros Hz. unfold to_be. apply Forall_rev. revert z Hz. induction n as [|n IH]; intros z Hz; cbn [to_le]; constructor.
  - apply Z.mod_pos_bound. lia.
  - apply IH, Z.div_pos; lia.
Qed.

Lemma to_be_length n z : length (to_be n z) = n.
Proof. unfold to_be. by rewrite length_rev, to_le_length. Qed.

(** A field in the middle of a structure. *)
Lemma be_field (p q : bytes) n z k : k = length p -> 0 <= z < 256 ^ Z.of_nat n -> from_be (take n (drop k (p ++ to_be n z ++ q)%list)) = z.
Proof. intros -> Hz. rewrite drop_app_length, take_app_length' by (by rewrite to_be_length). by apply from_to_be. Qed.

(** The structures [connect(2)] is given, in the order of their fields. *)
Definition sockaddr_in (port ip : Z) (pad : bytes) : bytes := ([2; 0] ++ to_be 2 port ++ to_be 4 ip ++ pad)%list.
Definition sockaddr_in6 (port flow ip scope : Z) : bytes := ([10; 0] ++ to_be 2 port ++ to_be 4 flow ++ to_be 16 ip ++ to_be 4 scope)%list.

Lemma sockaddr_v4_read port ip pad :
  0 <= port < 65536 -> 0 <= ip < 4294967296 -> Forall (fun b => 0 <= b < 256) pad ->
  parse_sockaddr (hex_upper (sockaddr_in port ip pad)) = Ran (Some (V4 ip, port)).
Proof.
  intros Hp Hi Hpad. unfold parse_sockaddr, hex_decode. rewrite hex_upper_even, hex_pairs_upper.
  2:{ unfold sockaddr_in. rewrite !Forall_app. split_and!; [repeat constructor; lia|apply bytes_in; lia|apply bytes_in; lia|done]. }
  cbn [run_of run_bind mbind option_bind].
  assert (8 <= blen (sockaddr_in port ip pad)) as Hl.
  { unfold sockaddr_in, blen. rewrite !length_app, !to_be_length. simpl. lia. }
  destruct (Z.ltb_spec (blen (sockaddr_in port ip pad)) 4); [lia|].
  change (from_le (take 2 (sockaddr_in port ip pad)) =? 2) with true. cbv iota.
  destruct (Z.ltb_spec (blen (sockaddr_in port ip pad)) 8); [lia|]. unfold sockaddr_in. do 3 f_equal.
  - f_equal. rewrite (app_assoc [2; 0]). rewrite be_field; [done|by rewrite length_app, to_be_length|lia].
  - rewrite be_field; [done|done|lia].
Qed.

Lemma sockaddr_v6_read port flow ip scope :
  0 <= port < 65536 -> 0 <= flow -> 0 <= ip < 2 ^ 128 -> 0 <= scope ->
  parse_sockaddr (hex_upper (sockaddr_in6 port flow ip scope)) = Ran (Some (V6 ip, port)).
Proof.
  intros Hp Hf Hi Hs. unfold parse_sockaddr, hex_decode. rewrite hex_upper_even, hex_pairs_upper.
  2:{ unfold sockaddr_in6. rewrite !Forall_app. split_and!; [repeat constructor; lia|..]; apply bytes_in; lia. }
  cbn [run_of run_bind mbind option_bind].
  assert (blen (sockaddr_in6 port flow ip scope) = 28) as Hl.
  { unfold sockaddr_in6, blen. rewrite !length_app, !to_be_length. simpl. lia. }
  rewrite Hl. change (28 <? 4) with false. change (28 <? 28) with false. cbv iota.
  change (from_le (take 2 (sockaddr_in6 port flow ip scope)) =? 2) with false.
  change (from_le (take 2 (sockaddr_in6 port flow ip scope)) =? 10) with true. cbv iota. unfold sockaddr_in6. do 3 f_equal.
  - f_equal. rewrite (app_assoc (to_be 2 port)), (app_assoc [10; 0]).
    rewrite be_field; [done|by rewrite !length_app, !to_be_length|lia].
  - rewrite be_field; [done|done|lia].
Qed.

(** ** The drain loop *)

(** What one message or note does, without the loop around it. *)
Definition recv_step (s : AuditState) (r : AuditRecv) : Run AuditState :=
  match r with
  | Message b => handle_message s b
  | Overrun => Ran (mkAuditState (as_sink s) (as_unparsed s) (as_overruns s + 1) (as_ready s))
  | RecvError _ => Panicked
  end.
Definition idle (s : AuditState) : AuditState := mkAuditState (as_sink s) (as_unparsed s) (as_overruns s) false.

Lemma drain_loop_steps budget queue s s' :
  run_fold recv_step queue s = Ran s' ->
  exists s1, run_fold recv_step (take budget queue) s = Ran s1 /\ run_fold recv_step (drop budget queue) s1 = Ran s'
  /\ drain_loop budget queue s = Ran (Going (drop budget queue) (if (length queue <? budget)%nat then idle s1 else s1)).
Proof.
  revert queue s. induction budget as [|budget IH]; intros queue s H; [by exists s|].
  destruct queue as [|r queue]; [exists s; split_and!; done|].
  cbn [run_fold take drop drain_loop length] in *.
  change (S (length queue) <? S budget)%nat with (length queue <? budget)%nat.
  destruct r as [b| |e]; cbn [recv_step] in *.
  - destruct (handle_message s b) as [s2| |]; [|done|done]. cbn [run_bind] in *. by apply IH.
  - cbn [run_bind] in *. by apply IH.
  - done.
Qed.

(** Wakeups in a row. *)
Fixpoint wakeups (wake : list AuditRecv -> AuditState -> Run Drained) (n : nat) (queue : list AuditRecv) (s : AuditState) : Run Drained :=
  match n with
  | O => Ran (Going queue s)
  | S n => d <-run wake queue s; match d with Going queue s => wakeups wake n queue s | Stopped s => Ran (Stopped s) end
  end.

Lemma drained_by_budget budget k queue s s' :
  budget <> 0%nat -> k = (length queue / budget)%nat -> run_fold recv_step queue s = Ran s' ->
  wakeups (drain_loop budget) (S k) queue s = Ran (Going [] (idle s')).
Proof.
  intros Hb. revert queue s. induction k as [|k IH]; intros queue s Ek H; cbn [wakeups];
    destruct (drain_loop_steps budget queue s s' H) as (s1 & _ & H2 & ->); cbn [run_bind].
  - assert (length queue < budget)%nat as Hl by (apply Nat.div_small_iff; [done|congruence]).
    rewrite drop_ge in * by lia. cbn in H2. injection H2 as ->. destruct (Nat.ltb_spec (length queue) budget); [done|lia].
  - assert (budget <= length queue)%nat as Hl.
    { destruct (Nat.le_gt_cases budget (length queue)) as [|Hlt]; [done|]. apply Nat.div_small in Hlt. lia. }
    destruct (Nat.ltb_spec (length queue) budget); [lia|]. apply IH; [|done].
    rewrite length_drop. replace (length queue) with (length queue - budget + 1 * budget)%nat in Ek by lia.
    rewrite Nat.div_add in Ek by done. lia.
Qed.

(** Bursts are drained to the end: whatever records, malformed messages and
    overrun notes are queued, as many wakeups as the queue has blocks of 256, and
    one more, deliver the event of every record in order and count every message
    that cannot be read and every overrun; the readiness is given up only on an
    empty queue, so that nothing waits for the next record to arrive. *)
Theorem audit_queue_drained queue s s' :
  run_fold recv_step queue s = Ran s' ->
  wakeups wakeup (S (length queue / DRAIN_BUDGET)) queue s = Ran (Going [] (idle s')).
Proof. intros H. by apply (drained_by_budget DRAIN_BUDGET). Qed.
Definition demo_queue : list AuditRecv :=
  [Message [0]; Overrun;
   Message (audit_message [1; 2; 3; 4] AUDIT_EXECVE [0; 0; 0; 0; 0; 0; 0; 0; 0; 0] (record_message "7" "005" "9" (exec_entries ["/t"])))].
Lemma audit_queue_drained_witness :
  wakeups wakeup 1 demo_queue (mkAuditState [] 0 0 true)
  = Ran (Going [] (mkAuditState [Event_Exec (mkExecEvent (mkEventMeta 0 0 (User_Unix 0 0) 7005000000 "t" None None None)
           "/t" "/t" ["/t"] None None None None [])] 1 1 false)).
Proof.
  apply (audit_queue_drained demo_queue (mkAuditState [] 0 0 true)
    (mkAuditState [Event_Exec (mkExecEvent (mkEventMeta 0 0 (User_Unix 0 0) 7005000000 "t" None None None)
           "/t" "/t" ["/t"] None None None None [])] 1 1 true)).
  vm_compute. reflexivity.
Defined.
