(* ===== verification/Response.v ===== *)
(** * Response: the automated responses
    (src/crates/response/src/kill.rs, escalate.rs, quarantine.rs; the response
    policy of src/crates/policy/src/lib.rs)

    The policy-gated kill, the escalation threshold, and quarantine with its
    reversal over the file system of [Fs].  SHA-256 and the text of a path in a
    sidecar are arguments.  A path names a regular file or a directory here:
    the reads follow no symbolic link; the read-only bit is not part of a node
    and setting it is here a call that can fail and changes no content;
    [QuarantineBits] adds the bit. *)
From stdpp Require Import base gmap strings list sorting.
From Stdlib Require Import ZArith Lia Ascii.
From Stdlib Require String.
From S2P Require Import Prelude Order Str Schema Fs Utf8 Updater Spool.

Record ResponsePolicy := mkResponsePolicy { kill_enabled : bool; quarantine_enabled : bool }.

(** ** Kill and escalation *)

Inductive KillOutcome :=
  | Killed (pid : Z)
  | KillObserveOnly (pid : Z)
  | KillFailed (pid : Z) (error : io_error)
  | KillRefused (pid : Z) (reason : string).

Definition I32_MAX : Z := 2147483647.

Definition protected_reason (pid own_pid : Z) : option string :=
  if pid =? 0 then Some "pid 0 addresses a process group, not a process"
  else if I32_MAX <? pid then Some "pid does not fit a signed pid_t and would address a process group"
  else if pid =? 1 then Some "pid 1 is init"
  else if pid =? own_pid then Some "the agent's own pid"
  else None.

(** The signals sent are returned with the outcome; [terminate] answers the
    platform's call. *)
Definition kill_process (pid own_pid : Z) (policy : ResponsePolicy) (terminate : Z -> result unit io_error)
    : KillOutcome * list Z :=
  match protected_reason pid own_pid with
  | Some reason => (KillRefused pid reason, [])
  | None =>
      if negb (kill_enabled policy) then (KillObserveOnly pid, [])
      else match terminate pid with
           | Ok _ => (Killed pid, [pid])
           | Err e => (KillFailed pid e, [pid])
           end
  end.

Definition ESCALATION_THRESHOLD : Severity := High.
Definition should_escalate (severity : Severity) : bool :=
  Severity_rank ESCALATION_THRESHOLD <=? Severity_rank severity.

(** ** Quarantine *)

(** [metadata] or [set_permissions] on an existing entry. *)
Definition fs_stat (p : path) : IO io_error unit :=
  syscall (fun m => match m !! p with Some _ => Ok (tt, m) | None => Err NotFound end) untouched.

(** [File::open] for reading. *)
Definition fs_open (p : path) : IO io_error unit :=
  syscall (fun m => match m !! p with
                    | Some (NFile _) => Ok (tt, m)
                    | None => Err NotFound
                    | Some _ => Err OtherIo
                    end) untouched.

(** Writing the whole content to a file already created. *)
Definition fs_fill (p : path) (b : bytes) : IO io_error unit :=
  syscall (fun m => Ok (tt, <[p := NFile b]> m)) (fun n m => <[p := NFile (take n b)]> m).

Definition fs_hard_link (src dst : path) : IO io_error unit :=
  syscall (fun m =>
    match m !! dst with
    | Some _ => Err AlreadyExists
    | None => if negb (can_create dst m) then Err NotFound
              else match m !! src with
                   | None => Err NotFound
                   | Some NDir => Err OtherIo
                   | Some x => Ok (tt, <[dst := x]> m)
                   end
    end) untouched.

(** [fs::copy]: the destination is created or truncated, then filled. *)
Definition fs_copy (src dst : path) : IO io_error unit :=
  b <-! fs_read src; fs_write dst b.

Definition is_lower_hex (a : ascii) : bool :=
  is_digit a || ((97 <=? nat_of_ascii a)%nat && (nat_of_ascii a <=? 102)%nat).
Definition is_sha256_hex (s : string) : bool := (str_len s =? 64) && str_all is_lower_hex s.

Definition origin_sidecar_path (quarantine_dir : path) (sha256_hex : string) : path :=
  quarantine_dir ++ [(sha256_hex +:+ ".origin")%string].

Definition move_file (from to : path) : IO io_error unit :=
  io_on_err (fs_rename from to) (fun _ => fs_copy from to ;;! fs_remove_file from).

Definition copy_no_clobber (from to : path) : IO io_error unit :=
  fs_open from ;;!
  fs_create_new to ;;!
  io_on_err (b <-! fs_read from; fs_fill to b ;;! fs_stat from ;;! fs_stat to)
    (fun e => io_ignore (fs_remove_file to) ;;! io_fail e).

Definition move_file_no_clobber (from to : path) : IO io_error unit :=
  io_on_err (fs_hard_link from to)
    (fun e => match e with AlreadyExists => io_fail AlreadyExists | _ => copy_no_clobber from to end) ;;!
  io_ignore (fs_remove_file from).

Inductive QuarantineOutcome :=
  | Quarantined (original quarantined_at : path) (sha256_hex : string)
  | QObserveOnly (p : path)
  | QFailed (p : path) (error : io_error).

Record QuarantinedFile := mkQuarantined { qf_sha256_hex : string; qf_original : path }.

Definition is_still_quarantined (quarantine_dir : path) (sha256_hex : string) (m : gmap path node) : bool :=
  is_sha256_hex sha256_hex &&
  (bool_decide (is_Some (m !! (quarantine_dir ++ [sha256_hex]))) ||
   bool_decide (is_Some (m !! origin_sidecar_path quarantine_dir sha256_hex))).

Section Quarantine.
Variable sha256 : bytes -> bytes.
(** [path.to_string_lossy()] and [PathBuf::from]. *)
Variable path_text : path -> bytes.
Variable text_path : bytes -> path.

Definition try_quarantine (p quarantine_dir : path) : IO io_error (path * string) :=
  sha256_hex <-! hash_file sha256 p;
  fs_create_dir_all quarantine_dir ;;!
  let quarantined_at := quarantine_dir ++ [sha256_hex] in
  move_file p quarantined_at ;;!
  fs_stat quarantined_at ;;!
  fs_stat quarantined_at ;;!
  fs_write (origin_sidecar_path quarantine_dir sha256_hex) (path_text p) ;;!
  io_ret (quarantined_at, sha256_hex).

Definition quarantine_file (p quarantine_dir : path) (policy : ResponsePolicy) (s : fsys)
    : QuarantineOutcome * fsys :=
  if negb (quarantine_enabled policy) then (QObserveOnly p, s)
  else match try_quarantine p quarantine_dir s with
       | (Ok (quarantined_at, sha256_hex), s) => (Quarantined p quarantined_at sha256_hex, s)
       | (Err e, s) => (QFailed p e, s)
       end.

Definition unquarantine (quarantine_dir : path) (sha256_hex : string) : IO io_error path :=
  if negb (is_sha256_hex sha256_hex) then io_fail InvalidData
  else
    let origin_path := origin_sidecar_path quarantine_dir sha256_hex in
    text <-! fs_read_to_string origin_path;
    let original := text_path text in
    let stored := quarantine_dir ++ [sha256_hex] in
    h <-! hash_file sha256 stored;
    if negb (String.eqb h sha256_hex) then io_fail InvalidData
    else
      move_file_no_clobber stored original ;;!
      io_ignore (fs_remove_file origin_path) ;;!
      io_ret original.

(** The loop over the directory's entries. *)
Fixpoint list_entries (quarantine_dir : path) (names : list string) : IO io_error (list QuarantinedFile) :=
  match names with
  | [] => io_ret []
  | name :: names =>
      match strip_suffix ".origin" name with
      | Some digest =>
          if is_sha256_hex digest then
            text <-! fs_read_to_string (quarantine_dir ++ [name]);
            fs <-! list_entries quarantine_dir names;
            io_ret (mkQuarantined digest (text_path text) :: fs)
          else list_entries quarantine_dir names
      | None => list_entries quarantine_dir names
      end
  end.

Definition quarantined_le (a b : QuarantinedFile) : Prop := cmp_le (qf_sha256_hex a) (qf_sha256_hex b).
#[global] Instance quarantined_le_dec : RelDecision quarantined_le.
Proof. intros a b. unfold quarantined_le. apply _. Defined.

Definition list_quarantined (quarantine_dir : path) : IO io_error (list QuarantinedFile) :=
  o <-! io_get (fun m => match m !! quarantine_dir with
                         | None => Ok []
                         | _ => match read_dir quarantine_dir m with Some ns => Ok ns | None => Err OtherIo end
                         end);
  match o with
  | Ok names => found <-! list_entries quarantine_dir names; io_ret (merge_sort quarantined_le found)
  | Err e => io_fail e
  end.
End Quarantine.

(** ** Lemmas *)

Lemma stat_inv p s r s' : fs_stat p s = (r, s') -> nodes s' = nodes s.
Proof.
  intros H. apply syscall_inv in H as [(n & _ & ->)|[([] & _ & H)|(e & _ & _ & ->)]]; [done| |done].
  repeat case_match; by simplify_eq.
Qed.

Lemma open_inv p s r s' : fs_open p s = (r, s') -> nodes s' = nodes s.
Proof.
  intros H. apply syscall_inv in H as [(n & _ & ->)|[([] & _ & H)|(e & _ & _ & ->)]]; [done| |done].
  repeat case_match; by simplify_eq.
Qed.

Lemma hash_file_inv sha256 p s r s' :
  hash_file sha256 p s = (r, s') ->
  nodes s' = nodes s /\
  ((exists b, r = Ok (hash_bytes sha256 b) /\ nodes s !! p = Some (NFile b)) \/ exists e, r = Err e).
Proof.
  unfold hash_file. intros [(b & s1 & Hr & E)|(e & Hr & ->)]%io_bind_inv;
    apply fs_read_inv in Hr as [Hn [(b' & Hb & Hl)|(e' & He & _)]]; simplify_eq.
  - unfold io_ret in E. injection E as <- <-. eauto 10.
  - eauto 10.
Qed.

Lemma read_to_string_inv p s r s' :
  fs_read_to_string p s = (r, s') ->
  nodes s' = nodes s /\
  ((exists b, r = Ok b /\ nodes s !! p = Some (NFile b)) \/ exists e, r = Err e).
Proof.
  unfold fs_read_to_string. intros [(b & s1 & Hr & E)|(e & Hr & ->)]%io_bind_inv;
    apply fs_read_inv in Hr as [Hn [(b' & Hb & Hl)|(e' & He & _)]]; simplify_eq; [|by eauto 10].
  destruct (utf8_valid b'); unfold io_ret, io_fail in E; injection E as <- <-; eauto 10.
Qed.

(** Creating the missing directories disturbs nothing that exists. *)
Lemma create_dir_all_keeps d s r s' q x :
  fs_create_dir_all d s = (r, s') -> nodes s !! q = Some x -> nodes s' !! q = Some x.
Proof.
  intros H Hq. apply syscall_inv in H as [(n & _ & ->)|[([] & _ & H)|(e & _ & _ & ->)]]; [done| |done].
  destruct (create_dirs_lookup _ _ _ _ q H) as [->|(E & _)]; [done|congruence].
Qed.

Lemma hash_at_sidecar dir (h : string) : dir ++ [h] <> origin_sidecar_path dir h.
Proof.
  unfold origin_sidecar_path. intros E%app_inv_head. injection E as E.
  apply (f_equal String.length) in E. rewrite str_app_length in E. simpl in E. lia.
Qed.

(** A move leaves the payload at one end or the other, and touches nothing
    else. *)
Lemma move_file_inv p q s r s' b :
  nodes s !! p = Some (NFile b) -> p <> q -> move_file p q s = (r, s') ->
  (forall z, z <> p -> z <> q -> nodes s' !! z = nodes s !! z) /\
  ((r = Ok tt /\ nodes s' !! q = Some (NFile b) /\ nodes s' !! p = None) \/
   (exists e, r = Err e /\ (nodes s' !! p = Some (NFile b) \/ nodes s' !! q = Some (NFile b)))).
Proof.
  intros Hp Hne. unfold move_file, io_on_err.
  destruct (fs_rename p q s) as [r1 s1] eqn:Er.
  eapply fs_rename_leaf_inv in Er as [(-> & Hn)|(e & -> & Hn)]; [..|done|done|done].
  { intros [= <- <-]. rewrite Hn. split; [intros; by simplify_map_eq|]. left. by simplify_map_eq. }
  intros [(u & s2 & Hc & Hr)|(e2 & Hc & ->)]%io_bind_inv; unfold fs_copy in Hc;
    apply io_bind_inv in Hc as [(b' & s3 & Hrd & Hw)|(e3 & Hrd & He)]; try done;
    apply fs_read_inv in Hrd as [Hn3 [(b'' & Hb & Hl)|(e' & He' & _)]]; try done.
  2, 3: simplify_eq; rewrite Hn in *.
  - simplify_eq. rewrite Hn, Hp in Hl. injection Hl as ->.
    apply fs_write_inv in Hw as [(_ & Hn2)|(e2 & ? & _)]; [|done].
    rewrite Hn3, Hn in Hn2.
    apply fs_remove_file_inv in Hr as [(-> & Hn')|(e' & -> & Hn' & _)]; rewrite Hn', Hn2.
    + split; [intros; by simplify_map_eq|]. left. by simplify_map_eq.
    + split; [intros; by simplify_map_eq|]. right. exists e'. split; [done|]. right. by simplify_map_eq.
  - apply fs_write_inv in Hw as [(? & _)|(e' & _ & [Hn2|[n Hn2]])]; [done|..]; rewrite Hn2, Hn3.
    + split; [done|]. right. eauto.
    + split; [intros; by simplify_map_eq|]. right. exists e2. split; [done|]. left. by simplify_map_eq.
  - rewrite Hn3. split; [done|]. right. eauto.
Qed.

(** Every entry of [s] is still there in [s']. *)
Definition keeps (s s' : fsys) : Prop := forall z x, nodes s !! z = Some x -> nodes s' !! z = Some x.

Lemma keeps_eq s s' : nodes s' = nodes s -> keeps s s'.
Proof. intros E z x. by rewrite E. Qed.

Lemma hard_link_inv a b s r s' :
  fs_hard_link a b s = (r, s') ->
  (r = Ok tt /\ nodes s !! b = None /\ exists x, nodes s !! a = Some x /\ nodes s' = <[b := x]> (nodes s)) \/
  (exists e, r = Err e /\ nodes s' = nodes s).
Proof.
  intros H. apply syscall_inv in H as [(n & -> & ->)|[([] & -> & H)|(e & -> & H & ->)]]; [by eauto| |by eauto].
  left. split; [done|]. destruct (nodes s !! b); [done|]. destruct (negb _); [done|].
  destruct (nodes s !! a) as [[]|]; simplify_eq; eauto.
Qed.

Lemma create_new_inv b s r s' :
  fs_create_new b s = (r, s') ->
  (r = Ok tt /\ nodes s !! b = None /\ nodes s' = <[b := NFile []]> (nodes s)) \/
  (exists e, r = Err e /\ nodes s' = nodes s).
Proof.
  intros H. apply syscall_inv in H as [(n & -> & ->)|[([] & -> & H)|(e & -> & H & ->)]]; [by eauto| |by eauto].
  left. split; [done|]. destruct (nodes s !! b); [done|]. destruct (can_create b _); by simplify_eq.
Qed.

Lemma fill_inv b c s r s' :
  fs_fill b c s = (r, s') ->
  exists c', nodes s' = <[b := NFile c']> (nodes s) /\ (r = Ok tt -> c' = c).
Proof.
  intros H. apply syscall_inv in H as [(n & -> & ->)|[([] & -> & H)|(e & -> & H & ->)]]; [by eexists| |done].
  injection H as H. exists c. by rewrite H.
Qed.

(** The body of the copy: on success the destination holds the source. *)
Lemma fill_step a b c s r s' :
  nodes s !! a = Some (NFile c) -> a <> b -> is_Some (nodes s !! b) ->
  (b' <-! fs_read a; fs_fill b b' ;;! fs_stat a ;;! fs_stat b) s = (r, s') ->
  (forall z, z <> b -> nodes s' !! z = nodes s !! z) /\ (r = Ok tt -> nodes s' !! b = Some (NFile c)).
Proof.
  intros Ha Hne Hb [(c1 & s1 & Hr & H)|(e & Hr & ->)]%io_bind_inv;
    apply fs_read_inv in Hr as [E1 [(c2 & ? & Hc)|(e' & ? & _)]]; simplify_eq; [|by rewrite E1].
  apply io_bind_inv in H as [(u & s2 & Hf & H)|(e & Hf & ->)];
    apply fill_inv in Hf as (c3 & E2 & H3); rewrite E1 in E2.
  2: { rewrite E2. split; [intros; by simplify_map_eq|done]. }
  destruct u. rewrite H3 in E2 by done.
  assert (nodes s' = nodes s2) as ->.
  { apply io_bind_inv in H as [(u & s3 & H4 & H5)|(e & H4 & ->)];
      [apply stat_inv in H5 as ->|]; by apply stat_inv in H4 as ->. }
  rewrite E2. split; intros; by simplify_map_eq.
Qed.

Lemma copy_no_clobber_inv a b c s r s' :
  nodes s !! a = Some (NFile c) -> copy_no_clobber a b s = (r, s') ->
  (r = Ok tt /\ nodes s !! b = None /\ nodes s' !! b = Some (NFile c) /\
     forall z, z <> b -> nodes s' !! z = nodes s !! z) \/
  (exists e, r = Err e /\ keeps s s').
Proof.
  intros Ha. unfold copy_no_clobber.
  intros [([] & s1 & Ho & H)|(e & Ho & ->)]%io_bind_inv; apply open_inv in Ho as E1;
    [|right; eauto using keeps_eq].
  apply io_bind_inv in H as [([] & s2 & Hc & H)|(e & Hc & ->)];
    apply create_new_inv in Hc as [(? & Hb & E2)|(e' & ? & E2)]; simplify_eq; rewrite E1 in *.
  2: { right. eauto using keeps_eq. }
  assert (a <> b) as Hne by congruence.
  unfold io_on_err in H. destruct ((_ <-! fs_read a; _) s2) as [r3 s3] eqn:Ef.
  destruct (fill_step a b c s2 r3 s3) as [Hz Hok]; [by rewrite E2; simplify_map_eq|done| |done|].
  { rewrite E2. simplify_map_eq. eauto. }
  assert (forall z, z <> b -> nodes s3 !! z = nodes s !! z) as Hz3.
  { intros z Hzb. rewrite Hz, E2 by done. by simplify_map_eq. }
  destruct r3 as [[]|e].
  - injection H as <- <-. left. eauto.
  - right. unfold io_bind, io_ignore, io_fail in H. injection H as <- <-. exists e. split; [done|].
    intros z x Hx. assert (z <> b) by congruence.
    destruct (fs_remove_file b s3) as [r4 s4] eqn:Er.
    apply fs_remove_file_inv in Er as [(_ & E4)|(e' & _ & E4 & _)]; simpl; rewrite E4; simplify_map_eq; by rewrite Hz3.
Qed.

Lemma move_no_clobber_inv a b c s r s' :
  nodes s !! a = Some (NFile c) -> move_file_no_clobber a b s = (r, s') ->
  (r = Ok tt /\ nodes s !! b = None /\ nodes s' !! b = Some (NFile c) /\
     (forall z, z <> a -> z <> b -> nodes s' !! z = nodes s !! z)) \/
  (exists e, r = Err e /\ keeps s s').
Proof.
  intros Ha. unfold move_file_no_clobber.
  assert (forall s1 r s', nodes s !! b = None -> nodes s1 !! b = Some (NFile c) ->
    (forall z, z <> b -> nodes s1 !! z = nodes s !! z) ->
    io_ignore (F := io_error) (fs_remove_file a) s1 = (r, s') ->
    r = Ok tt /\ nodes s !! b = None /\ nodes s' !! b = Some (NFile c) /\
    (forall z, z <> a -> z <> b -> nodes s' !! z = nodes s !! z)) as Htail.
  { intros s1 r1 s1' Hb Hc Hz [= <- <-]. destruct (fs_remove_file a s1) as [r2 s2] eqn:Er. simpl.
    assert (a <> b) by congruence.
    apply fs_remove_file_inv in Er as [(_ & E4)|(e' & _ & E4 & _)]; rewrite E4;
      split_and!; try done; intros; simplify_map_eq; auto. }
  intros [([] & s1 & Hl & H)|(e & Hl & ->)]%io_bind_inv; unfold io_on_err in Hl;
    destruct (fs_hard_link a b s) as [r2 s2] eqn:Eh;
    apply hard_link_inv in Eh as [(-> & Hb & x & Hx & E2)|(e2 & -> & E2)]; simplify_eq.
  - left. eapply Htail; [done|rewrite E2; by simplify_map_eq|intros; rewrite E2; by simplify_map_eq|done].
  - assert (copy_no_clobber a b s2 = (Ok tt, s1)) as Hc by (destruct e2; done).
    apply (copy_no_clobber_inv a b c) in Hc as [(_ & Hb & Hbc & Hz)|(e & ? & _)]; [|done|by rewrite E2].
    rewrite E2 in *. left. by eapply Htail.
  - right. exists e. split; [done|]. destruct e2; try by (injection Hl as <- <-; apply keeps_eq).
    all: apply (copy_no_clobber_inv a b c) in Hl as [(? & _)|(e' & _ & Hk)]; [done| |by rewrite E2];
      intros z x Hx; apply Hk; by rewrite E2.
Qed.

(** ** Theorems *)

Section Theorems.
Variable sha256 : bytes -> bytes.
Variable path_text : path -> bytes.
Variable text_path : bytes -> path.

(** C13. Quarantine never loses the payload and is gated by policy.  Whatever
    I/O fails on the way, the file's content is afterwards at its path or in the
    quarantine under its hash; success means it is stored there, gone from its
    path and paired with a sidecar; nothing else that existed is changed.  With
    quarantine disabled nothing happens at all. *)
Theorem quarantine_keeps_payload p dir b policy s r s' :
  nodes s !! p = Some (NFile b) -> let h := hash_bytes sha256 b in
  p <> dir ++ [h] -> quarantine_file sha256 path_text p dir policy s = (r, s') ->
  (quarantine_enabled policy = false -> r = QObserveOnly p /\ s' = s) /\
  (nodes s' !! p = Some (NFile b) \/ nodes s' !! (dir ++ [h]) = Some (NFile b)) /\
  (forall z x, nodes s !! z = Some x -> z <> p -> z <> dir ++ [h] -> z <> origin_sidecar_path dir h ->
     nodes s' !! z = Some x) /\
  (forall o at_ h', r = Quarantined o at_ h' -> o = p /\ at_ = dir ++ [h] /\ h' = h /\
     nodes s' !! at_ = Some (NFile b) /\ nodes s' !! origin_sidecar_path dir h = Some (NFile (path_text p)) /\
     (p <> origin_sidecar_path dir h -> nodes s' !! p = None)).
Proof.
  intros Hp h Hne. unfold quarantine_file. destruct (quarantine_enabled policy); cbn [negb].
  2: { intros [= <- <-]. split_and!; [done|by left|done|done]. }
  destruct (try_quarantine sha256 path_text p dir s) as [r0 s0] eqn:E.
  assert (forall e, r0 = Err e -> (nodes s0 !! p = Some (NFile b) \/ nodes s0 !! (dir ++ [h]) = Some (NFile b)) /\
    (forall z x, nodes s !! z = Some x -> z <> p -> z <> dir ++ [h] -> z <> origin_sidecar_path dir h ->
       nodes s0 !! z = Some x) ->
    (match r0 with Ok (a, h) => (Quarantined p a h, s0) | Err e => (QFailed p e, s0) end) = (r, s') ->
    (true = false -> r = QObserveOnly p /\ s' = s) /\
    (nodes s' !! p = Some (NFile b) \/ nodes s' !! (dir ++ [h]) = Some (NFile b)) /\
    (forall z x, nodes s !! z = Some x -> z <> p -> z <> dir ++ [h] -> z <> origin_sidecar_path dir h ->
       nodes s' !! z = Some x) /\
    (forall o at_ h', r = Quarantined o at_ h' -> o = p /\ at_ = dir ++ [h] /\ h' = h /\
       nodes s' !! at_ = Some (NFile b) /\ nodes s' !! origin_sidecar_path dir h = Some (NFile (path_text p)) /\
       (p <> origin_sidecar_path dir h -> nodes s' !! p = None))) as Herr.
  { intros e -> [H1 H2] [= <- <-]. split_and!; done. }
  unfold try_quarantine in E.
  apply io_bind_inv in E as [(h1 & s1 & Hh & E)|(e & Hh & ->)];
    apply hash_file_inv in Hh as [E1 [(b1 & ? & Hb1)|(e1 & ?)]]; simplify_eq.
  2: { apply (Herr _ eq_refl). rewrite E1. auto. }
  fold h in E.
  apply io_bind_inv in E as [([] & s2 & Hd & E)|(e & Hd & ->)];
    pose proof (fun z x => create_dir_all_keeps dir _ _ _ z x Hd) as Hk; rewrite E1 in Hk.
  2: { apply (Herr _ eq_refl). auto. }
  apply io_bind_inv in E as [([] & s3 & Hm & E)|(e & Hm & ->)];
    apply (move_file_inv _ _ _ _ _ b) in Hm as [Hz Hm]; auto.
  2: { apply (Herr _ eq_refl). destruct Hm as [(? & _)|(e' & _ & Hm)]; [done|].
       split; [done|]. intros. rewrite Hz by done. auto. }
  destruct Hm as [(_ & Hq & Hgone)|(? & ? & _)]; [|done].
  assert (forall z x, nodes s !! z = Some x -> z <> p -> z <> dir ++ [h] -> nodes s3 !! z = Some x) as Hk3.
  { intros. rewrite Hz by done. auto. }
  apply io_bind_inv in E as [([] & s4 & Hst & E)|(e & Hst & ->)]; apply stat_inv in Hst as E4.
  2: { apply (Herr _ eq_refl). rewrite E4. auto. }
  apply io_bind_inv in E as [([] & s5 & Hst5 & E)|(e & Hst5 & ->)]; apply stat_inv in Hst5 as E5; rewrite E4 in E5.
  2: { apply (Herr _ eq_refl). rewrite E5. auto. }
  pose proof (hash_at_sidecar dir h) as Hsc.
  apply io_bind_inv in E as [([] & s6 & Hw & E)|(e & Hw & ->)];
    apply fs_write_inv in Hw as [(? & E6)|(e' & ? & E6)]; simplify_eq; rewrite E5 in E6.
  - injection E as <- <-. intros [= <- <-]. rewrite E6. split_and!; [done|right; by simplify_map_eq| |].
    + intros. simplify_map_eq. auto.
    + intros o at_ h' [= <- <- <-]. split_and!; [done..| | |]; intros; by simplify_map_eq.
  - apply (Herr _ eq_refl). destruct E6 as [E6|[n E6]]; rewrite E6; (split; [right; by simplify_map_eq|]);
      intros; simplify_map_eq; auto.
Qed.

(** Restoring never destroys anything.  For any digest argument and any
    I/O failures: what is not a SHA-256 digest changes nothing; an entry outside
    the quarantine's two files for the digest is never changed or removed, so a
    file that has since taken the original's place survives; on failure the
    stored payload and its sidecar survive too; on success the returned path
    was free and now holds exactly the content the digest names. *)
Theorem restore_never_clobbers dir digest s r s' :
  unquarantine sha256 text_path dir digest s = (r, s') ->
  (is_sha256_hex digest = false -> r = Err InvalidData /\ s' = s) /\
  (forall z x, nodes s !! z = Some x -> z <> dir ++ [digest] -> z <> origin_sidecar_path dir digest ->
     nodes s' !! z = Some x) /\
  (forall e, r = Err e -> keeps s s') /\
  (forall p, r = Ok p -> nodes s !! p = None /\ exists b, nodes s' !! p = Some (NFile b) /\
     hash_bytes sha256 b = digest /\ nodes s !! (dir ++ [digest]) = Some (NFile b)).
Proof.
  unfold unquarantine. destruct (is_sha256_hex digest); cbn [negb]; [|intros [= <- <-]; split_and!; try done; intros; by apply keeps_eq].
  assert (forall e, r = Err e -> keeps s s' -> 
    (true = false -> r = Err InvalidData /\ s' = s) /\
    (forall z x, nodes s !! z = Some x -> z <> dir ++ [digest] -> z <> origin_sidecar_path dir digest ->
       nodes s' !! z = Some x) /\ (forall e, r = Err e -> keeps s s') /\
    (forall p, r = Ok p -> nodes s !! p = None /\ exists b, nodes s' !! p = Some (NFile b) /\
       hash_bytes sha256 b = digest /\ nodes s !! (dir ++ [digest]) = Some (NFile b))) as Herr.
  { intros e -> Hk. split_and!; [done|auto|done|done]. }
  intros [(text & s1 & Hr & E)|(e & Hr & ->)]%io_bind_inv; apply read_to_string_inv in Hr as [E1 Hr];
    [|apply (Herr e); [done|by apply keeps_eq]].
  apply io_bind_inv in E as [(h & s2 & Hh & E)|(e & Hh & ->)]; apply hash_file_inv in Hh as [E2 Hh]; rewrite E1 in *;
    [|apply (Herr e); [done|by apply keeps_eq]].
  destruct Hh as [(b & [= ->] & Hb)|(e & ?)]; [|done].
  destruct (String.eqb_spec (hash_bytes sha256 b) digest) as [Eh|Eh]; cbn [negb] in E.
  2: { injection E as <- <-. apply (Herr InvalidData); [done|by apply keeps_eq]. }
  apply io_bind_inv in E as [([] & s3 & Hm & E)|(e & Hm & ->)];
    apply (move_no_clobber_inv _ _ b) in Hm as [(? & Hfree & Hnew & Hz)|(e' & ? & Hk)];
    try done; try (by rewrite E2); rewrite ?E2 in *.
  2: { apply (Herr e); [done|]. intros z x Hx. apply Hk. by rewrite E2. }
  destruct Hr as [(t & [= <-] & Ht)|(e & ?)]; [|done].
  unfold io_bind, io_ignore, io_ret in E. injection E as <- <-.
  assert (text_path text <> origin_sidecar_path dir digest) as Hns by congruence.
  destruct (fs_remove_file _ s3) as [r4 s4] eqn:Er. simpl.
  assert (forall z, z <> origin_sidecar_path dir digest -> nodes s4 !! z = nodes s3 !! z) as H4.
  { intros z Hzne. apply fs_remove_file_inv in Er as [(_ & E4)|(e' & _ & E4 & _)]; rewrite E4; by simplify_map_eq. }
  split_and!; [done| |done|].
  - intros z x Hx Hz1 Hz2. rewrite H4 by done. rewrite Hz by congruence. done.
  - intros p [= <-]. split; [done|]. exists b. rewrite H4 by done. done.
Qed.

End Theorems.

(** ** The quiet disk *)

Section Quiet.
Variable sha256 : bytes -> bytes.
Variable path_text : path -> bytes.
Variable text_path : bytes -> path.
Context (pd dir : path) (n : string) (b : bytes) (m : gmap path node).
Let p : path := pd ++ [n].
Let h : string := hash_bytes sha256 b.
Let stored : path := dir ++ [h].
Let side : path := origin_sidecar_path dir h.

(** A file in an existing directory, and an existing quarantine directory. *)
Hypothesis file_here : m !! p = Some (NFile b).
Hypothesis above_file : dirs_ok pd m.
Hypothesis above_dir : dirs_ok dir m.
Hypothesis not_stored : p <> stored.
Hypothesis not_side : p <> side.
Hypothesis stored_leaf : m !! stored <> Some NDir.
Hypothesis side_leaf : m !! side <> Some NDir.

Definition quarantined_disk : gmap path node :=
  <[side := NFile (path_text p)]> (<[stored := NFile b]> (delete p m)).

Lemma dir_lookup (d : path) :
  m !! d = Some NDir -> quarantined_disk !! d = Some NDir.
Proof.
  intros Hd. unfold quarantined_disk.
  rewrite lookup_insert_ne, lookup_insert_ne, lookup_delete_ne by congruence. done.
Qed.

Lemma move_quiet :
  move_file p stored (mkFs m []) = (Ok tt, mkFs (<[stored := NFile b]> (delete p m)) []).
Proof.
  unfold move_file, io_on_err, fs_rename. rewrite syscall_ok, decide_False by done.
  rewrite decide_False.
  2: { intros [H|H].
       - assert (under p dir) as Hu.
         { destruct H as [k Hk]. destruct k as [|x k _] using rev_ind; [by rewrite app_nil_r in Hk|].
           unfold stored in Hk. rewrite app_assoc in Hk. apply app_inj_tail in Hk as [-> _]. apply under_app. }
         pose proof (above_dir p Hu). congruence.
       - assert (under stored pd) as Hu.
         { destruct H as [k Hk]. destruct k as [|x k _] using rev_ind; [by rewrite app_nil_r in Hk|].
           unfold p in Hk. rewrite app_assoc in Hk. apply app_inj_tail in Hk as [-> _]. apply under_app. }
         pose proof (above_file stored Hu). congruence. }
  unfold can_create, stored. rewrite parent_snoc, (dirs_ok_is_dir dir m above_dir). cbn [negb].
  fold stored. rewrite file_here. destruct (m !! stored) as [[]|] eqn:E; done.
Qed.

Lemma try_quarantine_quiet :
  try_quarantine sha256 path_text p dir (mkFs m []) = (Ok (stored, h), mkFs quarantined_disk []).
Proof.
  unfold try_quarantine, hash_file, fs_read, io_bind at 1, io_bind at 1. rewrite syscall_ok, file_here.
  unfold io_ret at 1. fold h. unfold io_bind at 1, fs_create_dir_all. rewrite syscall_ok.
  rewrite (create_dirs_ok dir [] m) by done. cbn [snd].
  unfold io_bind at 1. fold stored. rewrite move_quiet.
  assert (forall k : unit -> IO io_error (path * string),
    io_bind (fs_stat stored) k (mkFs (<[stored := NFile b]> (delete p m)) []) =
    k tt (mkFs (<[stored := NFile b]> (delete p m)) [])) as Hst.
  { intros k. unfold io_bind, fs_stat. by rewrite syscall_ok, lookup_insert_eq. }
  rewrite !Hst. fold side. unfold io_bind, fs_write. rewrite syscall_ok.
  assert (can_create side (<[stored := NFile b]> (delete p m)) = true) as ->.
  { unfold can_create, side, origin_sidecar_path. rewrite parent_snoc. unfold is_dir.
    pose proof (above_dir dir (under_refl dir)) as Hd.
    rewrite lookup_insert_ne, lookup_delete_ne by congruence. by rewrite Hd. }
  pose proof (hash_at_sidecar dir h) as Hsc. fold side stored in Hsc.
  rewrite lookup_insert_ne, lookup_delete_ne by congruence.
  destruct (m !! side) as [[]|] eqn:E; done.
Qed.

Hypothesis reads_back : text_path (path_text p) = p.
Hypothesis text_utf8 : utf8_valid (path_text p) = true.
Hypothesis digest_hex : is_sha256_hex h = true.

Lemma unquarantine_quiet :
  unquarantine sha256 text_path dir h (mkFs quarantined_disk []) =
  (Ok p, mkFs (delete side (delete stored (<[p := NFile b]> quarantined_disk))) []).
Proof.
  pose proof (hash_at_sidecar dir h) as Hsc. fold side stored in Hsc.
  unfold unquarantine. rewrite digest_hex. cbn [negb]. fold side stored.
  assert (quarantined_disk !! side = Some (NFile (path_text p))) as H1 by apply lookup_insert_eq.
  assert (quarantined_disk !! stored = Some (NFile b)) as H2.
  { unfold quarantined_disk. rewrite lookup_insert_ne by done. apply lookup_insert_eq. }
  assert (quarantined_disk !! p = None) as H3.
  { unfold quarantined_disk. rewrite lookup_insert_ne, lookup_insert_ne by congruence. apply lookup_delete_eq. }
  unfold io_bind at 1, fs_read_to_string, io_bind at 1, fs_read at 1.
  rewrite syscall_ok, H1, text_utf8. unfold io_ret at 1. rewrite reads_back.
  unfold io_bind at 1, hash_file, io_bind at 1, fs_read at 1. rewrite syscall_ok, H2. unfold io_ret at 1.
  fold h. rewrite String.eqb_refl. cbn [negb].
  unfold move_file_no_clobber, io_on_err, fs_hard_link, io_bind. rewrite syscall_ok, H3.
  assert (can_create p quarantined_disk = true) as ->.
  { unfold can_create, p. rewrite parent_snoc. unfold is_dir.
    by rewrite (dir_lookup pd (above_file pd (under_refl pd))). }
  rewrite H2. cbn [negb]. unfold io_ignore, fs_remove_file.
  rewrite syscall_ok, lookup_insert_ne, H2 by congruence. cbn [snd].
  rewrite syscall_ok, lookup_delete_ne, lookup_insert_ne, H1 by congruence. done.
Qed.
End Quiet.

(** What a restore assumes of the codecs for a given file. *)
Record codec_ok (sha256 : bytes -> bytes) (path_text : path -> bytes) (text_path : bytes -> path)
    (p : path) (b : bytes) : Prop := {
  ck_reads_back : text_path (path_text p) = p;
  ck_utf8 : utf8_valid (path_text p) = true;
  ck_digest : is_sha256_hex (hash_bytes sha256 b) = true }.

(** Two files with the same content share one quarantine entry: the second
    quarantine replaces the first's payload and origin, both are reported as
    quarantined, and the only restore possible brings back the second path and
    removes the entry: the first file is gone for good. *)
Theorem same_content_loses_origin sha256 path_text text_path pd1 n1 pd2 n2 dir b policy m :
  let p1 := pd1 ++ [n1] in let p2 := pd2 ++ [n2] in let h := hash_bytes sha256 b in
  codec_ok sha256 path_text text_path p2 b -> quarantine_enabled policy = true ->
  m !! p1 = Some (NFile b) -> m !! p2 = Some (NFile b) -> p1 <> p2 ->
  dirs_ok pd1 m -> dirs_ok pd2 m -> dirs_ok dir m ->
  m !! (dir ++ [h]) = None -> m !! origin_sidecar_path dir h = None ->
  exists m1 m2 m3,
    quarantine_file sha256 path_text p1 dir policy (mkFs m []) = (Quarantined p1 (dir ++ [h]) h, mkFs m1 []) /\
    quarantine_file sha256 path_text p2 dir policy (mkFs m1 []) = (Quarantined p2 (dir ++ [h]) h, mkFs m2 []) /\
    unquarantine sha256 text_path dir h (mkFs m2 []) = (Ok p2, mkFs m3 []) /\
    m3 !! p1 = None /\ is_still_quarantined dir h m3 = false.
Proof.
  cbn zeta. intros [Hc1 Hc2 Hc3] Hpol Hp1 Hp2 Hne Hpd1 Hpd2 Hdir Hf1 Hf2.
  pose proof (hash_at_sidecar dir (hash_bytes sha256 b)) as Hsc.
  assert ((pd1 ++ [n1]) <> dir ++ [(hash_bytes sha256 b)] /\ (pd1 ++ [n1]) <> origin_sidecar_path dir (hash_bytes sha256 b) /\ (pd2 ++ [n2]) <> dir ++ [(hash_bytes sha256 b)] /\ (pd2 ++ [n2]) <> origin_sidecar_path dir (hash_bytes sha256 b))
    as (Ha & Hb & Hc & Hd) by (split_and!; congruence).
  set (m1 := quarantined_disk sha256 path_text pd1 dir n1 b m).
  assert (forall d, dirs_ok d m -> dirs_ok d m1) as Hdirs.
  { intros d Hok q Hq. apply dir_lookup; try done; try congruence. by apply Hok. }
  assert (m1 !! (pd1 ++ [n1]) = None) as Hg1.
  { unfold m1, quarantined_disk. rewrite !lookup_insert_ne by congruence. apply lookup_delete_eq. }
  assert (m1 !! (pd2 ++ [n2]) = Some (NFile b)) as Hg2.
  { unfold m1, quarantined_disk. rewrite !lookup_insert_ne, lookup_delete_ne by congruence. done. }
  assert (m1 !! (dir ++ [(hash_bytes sha256 b)]) <> Some NDir /\ m1 !! origin_sidecar_path dir (hash_bytes sha256 b) <> Some NDir) as [Hl1 Hl2].
  { unfold m1, quarantined_disk. rewrite lookup_insert_eq, lookup_insert_ne, lookup_insert_eq by done. done. }
  exists m1, (quarantined_disk sha256 path_text pd2 dir n2 b m1). eexists.
  unfold quarantine_file. rewrite Hpol. cbn [negb].
  rewrite (try_quarantine_quiet sha256 path_text pd1 dir n1 b m); try done; try congruence.
  rewrite (try_quarantine_quiet sha256 path_text pd2 dir n2 b m1); try done; auto.
  rewrite (unquarantine_quiet sha256 path_text text_path pd2 dir n2 b m1); try done; auto.
  split_and!; [done..| |].
  - rewrite !lookup_delete_ne, lookup_insert_ne by done. unfold quarantined_disk.
    rewrite !lookup_insert_ne, lookup_delete_ne by done. exact Hg1.
  - unfold is_still_quarantined. rewrite Hc3, lookup_delete_eq, lookup_delete_ne, lookup_delete_eq by done. done.
Qed.

(** The kill switch: a signal is sent only when the policy enables it, only
    to the pid asked for, and never to pid 0, to init, to the agent itself or to
    a number that would address a process group; the outcome says which, and a
    permitted kill is always attempted. *)
Theorem kill_is_guarded pid own policy terminate :
  0 <= pid <= U32_MAX ->
  let '(outcome, signals) := kill_process pid own policy terminate in
  (signals = [] \/ signals = [pid]) /\
  (signals = [pid] <-> kill_enabled policy = true /\ 1 < pid <= I32_MAX /\ pid <> own) /\
  (outcome = Killed pid <-> signals = [pid] /\ terminate pid = Ok tt) /\
  ((exists reason, outcome = KillRefused pid reason) <-> ~ (1 < pid <= I32_MAX /\ pid <> own)).
Proof.
  intros Hp. unfold kill_process, protected_reason.
  assert (1 < pid <= I32_MAX /\ pid <> own <-> pid <> 0 /\ ~ I32_MAX < pid /\ pid <> 1 /\ pid <> own) as Hiff
    by (unfold I32_MAX; lia).
  destruct (Z.eqb_spec pid 0); [rewrite Hiff; naive_solver|].
  destruct (Z.ltb_spec I32_MAX pid); [rewrite Hiff; naive_solver|].
  destruct (Z.eqb_spec pid 1); [rewrite Hiff; naive_solver|].
  destruct (Z.eqb_spec pid own); [rewrite Hiff; naive_solver|].
  assert (~ I32_MAX < pid) by lia.
  destruct (kill_enabled policy); cbn [negb]; [|rewrite Hiff; naive_solver].
  destruct (terminate pid) as [[]|e]; rewrite Hiff; naive_solver.
Qed.

(** ** Witnesses: a disk with two copies of a file, and a quarantine *)

Definition slash_text (p : path) : bytes :=
  concat ((fun n => 47 :: ((fun a => Z.of_nat (nat_of_ascii a)) <$> String.list_ascii_of_string n)) <$> p).
Fixpoint split_slash (l : bytes) : list string :=
  match l with
  | [] => []
  | c :: l => if c =? 47 then EmptyString :: split_slash l
              else let a := ascii_of_nat (Z.to_nat c) in
                   match split_slash l with [] => [String a EmptyString] | n :: ns => String a n :: ns end
  end.
Definition slash_path (l : bytes) : path := tail (split_slash l).

(** A stand-in digest: 32 bytes that depend on the length. *)
Definition toy_digest (b : bytes) : bytes := repeat (Z.of_nat (length b) mod 256) 32.

Definition home : path := ["home"].
Definition jail : path := ["jail"].
Definition payload : bytes := [77; 90; 144].
Definition two_copies : gmap path node :=
  <[["home"; "a.exe"] := NFile payload]> (<[["home"; "b.exe"] := NFile payload]>
    {[ [] := NDir; home := NDir; jail := NDir ]}).
Definition act : ResponsePolicy := mkResponsePolicy true true.

Lemma two_copies_dirs (d : string) : d = "home" \/ d = "jail" -> dirs_ok [d] two_copies.
Proof.
  intros Hd p [k Hk]. destruct p as [|x p]; [reflexivity|]. injection Hk as Hx Hk. subst x.
  destruct p as [|y p]; [|discriminate Hk]. by destruct Hd as [-> | ->].
Qed.

Lemma slash_codec_ok (n : string) : n = "a.exe" \/ n = "b.exe" ->
  codec_ok toy_digest slash_text slash_path (home ++ [n]) payload.
Proof. intros [-> | ->]; split; reflexivity. Qed.

(** The rename and then the copy fail. *)
Definition failing_disk : fsys := mkFs two_copies [None; None; Some 0%nat; None; Some 1%nat].

Lemma quarantine_keeps_payload_witness :
  let p := home ++ ["a.exe"] in let h := hash_bytes toy_digest payload in
  let res := quarantine_file toy_digest slash_text p jail act failing_disk in
  res.1 = QFailed p OtherIo /\
  (nodes (snd res) !! p = Some (NFile payload) \/ nodes (snd res) !! (jail ++ [h]) = Some (NFile payload)).
Proof.
  cbn zeta. split; [vm_compute; reflexivity|].
  apply (quarantine_keeps_payload toy_digest slash_text (home ++ ["a.exe"]) jail payload act failing_disk
    (quarantine_file toy_digest slash_text (home ++ ["a.exe"]) jail act failing_disk).1);
    [reflexivity|discriminate|apply surjective_pairing].
Defined.

(** The digest's payload is stored, its original place free. *)
Definition stored_disk : fsys := (quarantine_file toy_digest slash_text (home ++ ["a.exe"]) jail act (mkFs two_copies [])).2.

Lemma restore_never_clobbers_witness :
  let h := hash_bytes toy_digest payload in
  let res := unquarantine toy_digest slash_path jail h stored_disk in
  nodes stored_disk !! (home ++ ["a.exe"]) = None /\
  exists b, nodes (snd res) !! (home ++ ["a.exe"]) = Some (NFile b) /\ hash_bytes toy_digest b = h /\
    nodes stored_disk !! (jail ++ [h]) = Some (NFile b).
Proof.
  cbn zeta. apply (restore_never_clobbers toy_digest slash_path jail (hash_bytes toy_digest payload) stored_disk
    (unquarantine toy_digest slash_path jail (hash_bytes toy_digest payload) stored_disk).1);
    [apply surjective_pairing|vm_compute; reflexivity].
Defined.

Lemma same_content_loses_origin_witness :
  let p1 := home ++ ["a.exe"] in let p2 := home ++ ["b.exe"] in let h := hash_bytes toy_digest payload in
  exists m1 m2 m3,
    quarantine_file toy_digest slash_text p1 jail act (mkFs two_copies []) = (Quarantined p1 (jail ++ [h]) h, mkFs m1 []) /\
    quarantine_file toy_digest slash_text p2 jail act (mkFs m1 []) = (Quarantined p2 (jail ++ [h]) h, mkFs m2 []) /\
    unquarantine toy_digest slash_path jail h (mkFs m2 []) = (Ok p2, mkFs m3 []) /\
    m3 !! p1 = None /\ is_still_quarantined jail h m3 = false.
Proof.
  apply (same_content_loses_origin toy_digest slash_text slash_path home "a.exe" home "b.exe" jail payload act two_copies).
  - apply slash_codec_ok. by right.
  - reflexivity.
  - reflexivity.
  - reflexivity.
  - discriminate.
  - apply two_copies_dirs. by left.
  - apply two_copies_dirs. by left.
  - apply two_copies_dirs. by right.
  - reflexivity.
  - reflexivity.
Defined.

Lemma kill_is_guarded_witness :
  let '(outcome, signals) := kill_process 4242 100 act (fun _ => Ok tt) in
  (signals = [] \/ signals = [4242]) /\
  (signals = [4242] <-> kill_enabled act = true /\ 1 < 4242 <= I32_MAX /\ 4242 <> 100) /\
  (outcome = Killed 4242 <-> signals = [4242] /\ (fun _ : Z => Ok tt) 4242 = Ok (E := io_error) tt) /\
  ((exists reason, outcome = KillRefused 4242 reason) <-> ~ (1 < 4242 <= I32_MAX /\ 4242 <> 100)).
Proof. apply (kill_is_guarded 4242 100 act (fun _ => Ok tt)). unfold U32_MAX. lia. Defined.
