(* ===== verification/QuarantineBits.v ===== *)
(** * QuarantineBits: quarantine and the read-only bit
    (src/crates/response/src/quarantine.rs)

    The calls of [Response] once more, over a file system that also says which
    paths are read-only.  The layer erases to the plain definitions, so what holds
    of their contents holds here; the bit does not stop a call, since the agent has
    the rights to replace and remove read-only files.  A hard link shares its
    target's bit: no call changes the bit of a file while it has two names. *)
From stdpp Require Import base gmap strings list sorting.
From Stdlib Require Import ZArith Lia Ascii.
From Stdlib Require String.
From S2P Require Import Prelude Order Str Schema Fs Utf8 Updater Spool Response.

(** ** The layer *)

(** The read-only paths. *)
Definition bits : Type := gset path.
Definition BitIO (A : Type) : Type := fsys * bits -> result A io_error * (fsys * bits).

Definition bit_ret {A} (a : A) : BitIO A := fun x => (Ok a, x).
Definition bit_fail {A} (e : io_error) : BitIO A := fun x => (Err e, x).
Definition bit_bind {A B} (m : BitIO A) (k : A -> BitIO B) : BitIO B :=
  fun x => match m x with (Ok a, x) => k a x | (Err e, x) => (Err e, x) end.
Definition bit_on_err {A} (m : BitIO A) (h : io_error -> BitIO A) : BitIO A :=
  fun x => match m x with (Ok a, x) => (Ok a, x) | (Err e, x) => h e x end.
Definition bit_ignore {A} (m : BitIO A) : BitIO unit := fun x => (Ok tt, (m x).2).
Notation "x '<-%' m ';' k" := (bit_bind m (fun x => k))
  (at level 20, m at level 100, k at level 200, right associativity).
Notation "m ';;%' k" := (bit_bind m (fun _ => k)) (at level 100, k at level 200, right associativity).

(** One call and what it does to the bits, when it succeeds and when it fails. *)
Definition call {A} (m : IO io_error A) (ok err : gmap path node -> bits -> bits) : BitIO A :=
  fun '(s, l) => match m s with
                 | (Ok a, s') => (Ok a, (s', ok (nodes s) l))
                 | (Err e, s') => (Err e, (s', err (nodes s) l))
                 end.
Definition same (m : gmap path node) (l : bits) : bits := l.
Definition keeping {A} (m : IO io_error A) : BitIO A := call m same same.

(** A new file is writable; an existing one keeps its bit. *)
Definition fresh (p : path) (m : gmap path node) (l : bits) : bits := if decide (is_Some (m !! p)) then l else l ∖ {[p]}.
(** [b] gets the bit of [a]. *)
Definition carry (a b : path) (l : bits) : bits := if decide (a ∈ l) then {[b]} ∪ l else l ∖ {[b]}.

Definition rename_bits (a b : path) : BitIO unit :=
  call (fs_rename a b) (fun _ l => if decide (a = b) then l else carry a b l ∖ {[a]}) same.
Definition write_bits (p : path) (b : bytes) : BitIO unit := call (fs_write p b) (fresh p) (fresh p).
(** [fs::copy] carries the permissions. *)
Definition copy_bits (a b : path) : BitIO unit :=
  c <-% keeping (fs_read a); call (fs_write b c) (fun _ => carry a b) (fresh b).
Definition hard_link_bits (a b : path) : BitIO unit := call (fs_hard_link a b) (fun _ => carry a b) same.
Definition create_new_bits (p : path) : BitIO unit := call (fs_create_new p) (fun _ l => l ∖ {[p]}) same.
Definition remove_bits (p : path) : BitIO unit := call (fs_remove_file p) (fun _ l => l ∖ {[p]}) same.
(** [set_permissions] with the read-only bit set, and with another file's. *)
Definition set_read_only (p : path) : BitIO unit := call (fs_stat p) (fun _ l => {[p]} ∪ l) same.
Definition set_permissions_of (a p : path) : BitIO unit := call (fs_stat p) (fun _ => carry a p) same.

Definition move_file_bits (from to : path) : BitIO unit :=
  bit_on_err (rename_bits from to) (fun _ => copy_bits from to ;;% remove_bits from).

Definition copy_no_clobber_bits (from to : path) : BitIO unit :=
  keeping (fs_open from) ;;%
  create_new_bits to ;;%
  bit_on_err (b <-% keeping (fs_read from); keeping (fs_fill to b) ;;% keeping (fs_stat from) ;;% set_permissions_of from to)
    (fun e => bit_ignore (remove_bits to) ;;% bit_fail e).

Definition move_file_no_clobber_bits (from to : path) : BitIO unit :=
  bit_on_err (hard_link_bits from to)
    (fun e => match e with AlreadyExists => bit_fail AlreadyExists | _ => copy_no_clobber_bits from to end) ;;%
  bit_ignore (remove_bits from).

Section Quarantine.
Variable sha256 : bytes -> bytes.
Variable path_text : path -> bytes.
Variable text_path : bytes -> path.

Definition try_quarantine_bits (p quarantine_dir : path) : BitIO (path * string) :=
  sha256_hex <-% keeping (hash_file sha256 p);
  keeping (fs_create_dir_all quarantine_dir) ;;%
  let quarantined_at := quarantine_dir ++ [sha256_hex] in
  move_file_bits p quarantined_at ;;%
  keeping (fs_stat quarantined_at) ;;%
  set_read_only quarantined_at ;;%
  write_bits (origin_sidecar_path quarantine_dir sha256_hex) (path_text p) ;;%
  bit_ret (quarantined_at, sha256_hex).

Definition quarantine_file_bits (p quarantine_dir : path) (policy : ResponsePolicy) (x : fsys * bits)
    : QuarantineOutcome * (fsys * bits) :=
  if negb (quarantine_enabled policy) then (QObserveOnly p, x)
  else match try_quarantine_bits p quarantine_dir x with
       | (Ok (quarantined_at, sha256_hex), x) => (Quarantined p quarantined_at sha256_hex, x)
       | (Err e, x) => (QFailed p e, x)
       end.

Definition unquarantine_bits (quarantine_dir : path) (sha256_hex : string) : BitIO path :=
  if negb (is_sha256_hex sha256_hex) then bit_fail InvalidData
  else
    let origin_path := origin_sidecar_path quarantine_dir sha256_hex in
    text <-% keeping (fs_read_to_string origin_path);
    let original := text_path text in
    let stored := quarantine_dir ++ [sha256_hex] in
    h <-% keeping (hash_file sha256 stored);
    if negb (String.eqb h sha256_hex) then bit_fail InvalidData
    else
      move_file_no_clobber_bits stored original ;;%
      bit_ignore (remove_bits origin_path) ;;%
      bit_ret original.
End Quarantine.

(** ** Erasure *)

(** Without the bits, [q] is [m]. *)
Definition erases {A} (q : BitIO A) (m : IO io_error A) : Prop :=
  forall s l, let '(r, (s', _)) := q (s, l) in m s = (r, s').

Section Erasure.
Context {A : Type}.

Lemma erases_call (m : IO io_error A) ok err : erases (call m ok err) m.
Proof. intros s l. unfold call. by destruct (m s) as [[]]. Qed.

Lemma erases_ret (a : A) : erases (bit_ret a) (io_ret a).
Proof. done. Qed.

Lemma erases_fail e : erases (A := A) (bit_fail e) (io_fail e).
Proof. done. Qed.

Lemma erases_bind {B} (q : BitIO A) (k : A -> BitIO B) m k' :
  erases q m -> (forall a, erases (k a) (k' a)) -> erases (bit_bind q k) (io_bind m k').
Proof.
  intros Hq Hk s l. unfold bit_bind, io_bind. specialize (Hq s l). destruct (q (s, l)) as [[a|e] [s1 l1]]; rewrite Hq; [|done].
  apply Hk.
Qed.

Lemma erases_on_err (q : BitIO A) h m h' :
  erases q m -> (forall e, erases (h e) (h' e)) -> erases (bit_on_err q h) (io_on_err m h').
Proof.
  intros Hq Hh s l. unfold bit_on_err, io_on_err. specialize (Hq s l). destruct (q (s, l)) as [[a|e] [s1 l1]]; rewrite Hq; [done|].
  apply Hh.
Qed.

Lemma erases_ignore (q : BitIO A) m : erases q m -> erases (bit_ignore q) (io_ignore m).
Proof.
  intros Hq s l. unfold bit_ignore, io_ignore. specialize (Hq s l). destruct (q (s, l)) as [r [s1 l1]]. by rewrite Hq.
Qed.

(** An outcome of the layer is an outcome of the plain call. *)
Lemma erases_inv (q : BitIO A) m s l r s' l' : erases q m -> q (s, l) = (r, (s', l')) -> m s = (r, s').
Proof. intros H E. specialize (H s l). by rewrite E in H. Qed.
End Erasure.

Ltac erase :=
  repeat (intros;
    lazymatch goal with
    | |- erases (if ?c then _ else _) _ => destruct c
    | |- erases (bit_bind _ _) _ => apply erases_bind
    | |- erases (bit_on_err _ _) _ => apply erases_on_err
    | |- erases (bit_ignore _) _ => apply erases_ignore
    | |- erases (bit_ret _) _ => apply erases_ret
    | |- erases (bit_fail _) _ => apply erases_fail
    | |- erases (call _ _ _) _ => apply erases_call
    | |- erases (keeping _) _ => apply erases_call
    end).
Create HintDb bit_calls.
#[local] Hint Unfold rename_bits write_bits copy_bits hard_link_bits create_new_bits remove_bits set_read_only
  set_permissions_of fs_copy : bit_calls.

Lemma move_file_erases a b : erases (move_file_bits a b) (move_file a b).
Proof. unfold move_file_bits, move_file. repeat autounfold with bit_calls. erase. Qed.

Lemma move_no_clobber_erases a b : erases (move_file_no_clobber_bits a b) (move_file_no_clobber a b).
Proof.
  unfold move_file_no_clobber_bits, move_file_no_clobber, copy_no_clobber_bits, copy_no_clobber. autounfold with bit_calls. erase.
  destruct e; erase.
Qed.

Lemma try_quarantine_erases sha256 path_text p dir :
  erases (try_quarantine_bits sha256 path_text p dir) (try_quarantine sha256 path_text p dir).
Proof. unfold try_quarantine_bits, try_quarantine. autounfold with bit_calls. erase; apply move_file_erases. Qed.

Lemma unquarantine_erases sha256 text_path dir h :
  erases (unquarantine_bits sha256 text_path dir h) (unquarantine sha256 text_path dir h).
Proof. unfold unquarantine_bits, unquarantine. autounfold with bit_calls. erase; apply move_no_clobber_erases. Qed.

(** ** Contents after two successes *)

Lemma create_dir_all_existing d s r s' : dirs_ok d (nodes s) -> fs_create_dir_all d s = (r, s') -> nodes s' = nodes s.
Proof.
  intros Hd H. apply syscall_inv in H as [(n & _ & ->)|[([] & _ & H)|(e & _ & _ & ->)]]; [done| |done].
  rewrite (create_dirs_ok d [] (nodes s)) in H by done. by simplify_eq.
Qed.

(** A successful quarantine of [b] at [p], whatever failed on its way. *)
Lemma try_quarantine_ok sha256 path_text p dir b s at_ h' s' :
  let h := hash_bytes sha256 b in
  nodes s !! p = Some (NFile b) -> dirs_ok dir (nodes s) -> p <> dir ++ [h] ->
  try_quarantine sha256 path_text p dir s = (Ok (at_, h'), s') ->
  at_ = dir ++ [h] /\ h' = h /\
  nodes s' = <[origin_sidecar_path dir h := NFile (path_text p)]> (<[dir ++ [h] := NFile b]> (delete p (nodes s))).
Proof.
  intros h Hp Hd Hne E. unfold try_quarantine in E.
  apply io_bind_inv in E as [(h1 & s1 & Hh & E)|(e & _ & ?)]; [|done].
  apply hash_file_inv in Hh as [E1 [(b1 & ? & Hb1)|(e1 & ?)]]; [|done]. simplify_eq. fold h in E.
  apply io_bind_inv in E as [([] & s2 & Hc & E)|(e & _ & ?)]; [|done].
  apply create_dir_all_existing in Hc as E2; [|by rewrite E1]. rewrite E1 in E2.
  apply io_bind_inv in E as [([] & s3 & Hm & E)|(e & _ & ?)]; [|done].
  apply (move_file_inv _ _ _ _ _ b) in Hm as [Hz [(_ & Hq & Hgone)|(? & ? & _)]]; [|done|by rewrite E2|done].
  apply io_bind_inv in E as [([] & s4 & Hst & E)|(e & _ & ?)]; [|done]. apply stat_inv in Hst as E4.
  apply io_bind_inv in E as [([] & s5 & Hst5 & E)|(e & _ & ?)]; [|done]. apply stat_inv in Hst5 as E5.
  apply io_bind_inv in E as [([] & s6 & Hw & E)|(e & _ & ?)]; [|done].
  apply fs_write_inv in Hw as [(_ & E6)|(e' & ? & _)]; [|done]. injection E as <- <- <-.
  split_and!; [done..|]. rewrite E6, E5, E4. f_equal. apply map_eq. intros z.
  destruct (decide (z = dir ++ [h])) as [->|]; [by rewrite lookup_insert_eq|].
  rewrite lookup_insert_ne by done. destruct (decide (z = p)) as [->|]; [by rewrite lookup_delete_eq|].
  rewrite lookup_delete_ne by done. by rewrite Hz, E2.
Qed.

(** A successful restore: the payload is at its origin and no path but the two of the
    digest has changed. *)
Lemma unquarantine_ok sha256 text_path dir digest text b s p s' :
  nodes s !! origin_sidecar_path dir digest = Some (NFile text) -> nodes s !! (dir ++ [digest]) = Some (NFile b) ->
  unquarantine sha256 text_path dir digest s = (Ok p, s') ->
  p = text_path text /\ nodes s !! p = None /\ nodes s' !! p = Some (NFile b) /\
  forall z, z <> dir ++ [digest] -> z <> origin_sidecar_path dir digest -> z <> p -> nodes s' !! z = nodes s !! z.
Proof.
  intros Ht Hb. unfold unquarantine. destruct (is_sha256_hex digest); cbn [negb]; [|done].
  intros [(text' & s1 & Hr & E)|(e & _ & ?)]%io_bind_inv; [|done]. apply read_to_string_inv in Hr as [E1 [(t & ? & Ht')|(e & ?)]]; [|done].
  apply io_bind_inv in E as [(h & s2 & Hh & E)|(e & _ & ?)]; [|done]. apply hash_file_inv in Hh as [E2 Hh]. rewrite E1 in *. simplify_eq.
  destruct (String.eqb h digest); cbn [negb] in E; [|done].
  apply io_bind_inv in E as [([] & s3 & Hm & E)|(e & _ & ?)]; [|done].
  apply (move_no_clobber_inv _ _ b) in Hm as [(_ & Hfree & Hnew & Hz)|(e' & ? & _)]; [|done|by rewrite E2].
  rewrite E2 in *. unfold io_bind, io_ignore, io_ret in E. injection E as <- <-.
  destruct (fs_remove_file _ s3) as [r4 s4] eqn:Er. simpl.
  assert (forall z, z <> origin_sidecar_path dir digest -> nodes s4 !! z = nodes s3 !! z) as H4.
  { intros z Hzne. apply fs_remove_file_inv in Er as [(_ & E4)|(e' & _ & E4 & _)]; rewrite E4; by simplify_map_eq. }
  split_and!; [done..| |]; [rewrite H4 by congruence; done|]. intros z H1 H2 H3. by rewrite H4, Hz.
Qed.
(** ** Bits after two successes *)

Lemma bit_bind_ok {A B} (m : BitIO A) (k : A -> BitIO B) x b x' :
  bit_bind m k x = (Ok b, x') -> exists a x1, m x = (Ok a, x1) /\ k a x1 = (Ok b, x').
Proof. unfold bit_bind. destruct (m x) as [[a|e] x1]; [eauto|done]. Qed.

Lemma call_ok {A} (m : IO io_error A) ok err s l a x' :
  call m ok err (s, l) = (Ok a, x') -> x'.2 = ok (nodes s) l.
Proof. unfold call. destruct (m s) as [[]]; by intros [= _ <-]. Qed.

Lemma call_err {A} (m : IO io_error A) ok err s l e x' :
  call m ok err (s, l) = (Err e, x') -> x'.2 = err (nodes s) l.
Proof. unfold call. destruct (m s) as [[]]; by intros [= _ <-]. Qed.

Lemma elem_of_carry a b l z : z ∈ carry a b l <-> (z = b /\ a ∈ l) \/ (z <> b /\ z ∈ l).
Proof. unfold carry. destruct (decide (a ∈ l)); destruct (decide (z = b)); set_solver. Qed.

Lemma elem_of_fresh p m l z : z <> p -> z ∈ fresh p m l <-> z ∈ l.
Proof. unfold fresh. destruct (decide _); set_solver. Qed.

Lemma move_file_bits_ok a b s l x' :
  a <> b -> move_file_bits a b (s, l) = (Ok tt, x') -> x'.2 = carry a b l ∖ {[a]}.
Proof.
  intros Hne. unfold move_file_bits, bit_on_err. destruct (rename_bits a b (s, l)) as [[[]|e] [s1 l1]] eqn:Er.
  - intros [= <-]. apply call_ok in Er. rewrite decide_False in Er by done. exact Er.
  - apply call_err in Er. cbn in Er. subst l1. intros H. apply bit_bind_ok in H as ([] & [s2 l2] & Hc & H).
    apply call_ok in H. rewrite H. apply bit_bind_ok in Hc as (c & [s3 l3] & Hr & Hw).
    apply call_ok in Hr, Hw. cbn [snd] in *. by subst.
Qed.

Lemma move_no_clobber_bits_ok a b s l x' z :
  a <> b -> move_file_no_clobber_bits a b (s, l) = (Ok tt, x') -> z <> a -> z ∈ x'.2 <-> z ∈ carry a b l.
Proof.
  intros Hne H Hz. apply bit_bind_ok in H as ([] & [s1 l1] & Hl & H).
  assert (z ∈ x'.2 <-> z ∈ l1) as ->.
  { unfold bit_ignore in H. injection H as <-. unfold remove_bits, call. destruct (fs_remove_file a s1) as [[]]; set_solver. }
  clear H. unfold bit_on_err in Hl. destruct (hard_link_bits a b (s, l)) as [[[]|e] [s2 l2]] eqn:Eh.
  { apply call_ok in Eh. cbn in Eh. by injection Hl as _ <-; subst. }
  apply call_err in Eh. cbn in Eh. subst l2.
  assert (copy_no_clobber_bits a b (s2, l) = (Ok tt, (s1, l1))) as Hc by (by destruct e). clear Hl.
  apply bit_bind_ok in Hc as ([] & [s3 l3] & Ho & Hc). apply bit_bind_ok in Hc as ([] & [s4 l4] & Hn & Hc).
  apply call_ok in Ho, Hn. cbn [snd] in Ho, Hn. unfold same in Ho. subst. unfold bit_on_err in Hc.
  destruct (bit_bind (B := unit) (keeping (fs_read a)) _ (s4, l ∖ {[b]})) as [[[]|e'] [s5 l5]] eqn:Ef; [|done]. injection Hc as _ <-.
  apply bit_bind_ok in Ef as (c & [s6 l6] & H1 & Ef). apply bit_bind_ok in Ef as ([] & [s7 l7] & H2 & Ef).
  apply bit_bind_ok in Ef as ([] & [s8 l8] & H3 & Ef). apply call_ok in H1, H2, H3, Ef. cbn [snd] in *. unfold same in *. subst.
  rewrite !elem_of_carry, !elem_of_difference, !not_elem_of_singleton. destruct (decide (z = b)); naive_solver.
Qed.

Lemma try_quarantine_bits_ok sha256 path_text p dir s l at_ h s' l' :
  p <> at_ -> try_quarantine_bits sha256 path_text p dir (s, l) = (Ok (at_, h), (s', l')) ->
  at_ = dir ++ [h] /\ at_ ∈ l' /\ forall z, z <> p -> z <> at_ -> z <> origin_sidecar_path dir h -> z ∈ l' <-> z ∈ l.
Proof.
  intros Hne H. apply bit_bind_ok in H as (h1 & [s1 l1] & H1 & H). apply bit_bind_ok in H as ([] & [s2 l2] & H2 & H).
  apply bit_bind_ok in H as ([] & [s3 l3] & H3 & H). apply bit_bind_ok in H as ([] & [s4 l4] & H4 & H).
  apply bit_bind_ok in H as ([] & [s5 l5] & H5 & H). apply bit_bind_ok in H as ([] & [s6 l6] & H6 & H).
  injection H as <- <- <- <-. apply move_file_bits_ok in H3; [|done]. apply call_ok in H1, H2, H4, H5, H6.
  cbn [snd] in *. unfold same in *. subst. pose proof (hash_at_sidecar dir h1) as Hsc.
  split_and!; [done|by rewrite elem_of_fresh; [set_solver|]|].
  intros z Hz1 Hz2 Hz3. rewrite elem_of_fresh by done. rewrite elem_of_union, elem_of_difference, elem_of_carry. set_solver.
Qed.

Lemma unquarantine_bits_ok sha256 text_path dir h s l p s' l' :
  p <> dir ++ [h] -> unquarantine_bits sha256 text_path dir h (s, l) = (Ok p, (s', l')) ->
  forall z, z <> dir ++ [h] -> z <> origin_sidecar_path dir h -> z ∈ l' <-> z ∈ carry (dir ++ [h]) p l.
Proof.
  intros Hne H z Hz1 Hz2. unfold unquarantine_bits in H. destruct (is_sha256_hex h); cbn [negb] in H; [|done].
  apply bit_bind_ok in H as (text & [s1 l1] & H1 & H). apply bit_bind_ok in H as (h1 & [s2 l2] & H2 & H).
  destruct (String.eqb h1 h); cbn [negb] in H; [|done]. apply bit_bind_ok in H as ([] & [s3 l3] & H3 & H).
  apply bit_bind_ok in H as ([] & [s4 l4] & H4 & H). injection H as <- <- <-.
  apply (move_no_clobber_bits_ok _ _ _ _ _ z) in H3; [|done|done]. apply call_ok in H1, H2. cbn [snd] in *. unfold same in *. subst.
  rewrite <- H3. unfold bit_ignore in H4. injection H4 as H4. apply (f_equal snd) in H4. cbn in H4. subst l4.
  unfold remove_bits, call. destruct (fs_remove_file _ s3) as [[]]; set_solver.
Qed.

(** The disk after a quarantine and a restore that left nothing behind. *)
Lemma disk_restored (m m2 : gmap path node) p stored side b text :
  m !! p = Some (NFile b) -> m !! stored = None -> m !! side = None ->
  m2 !! stored = None -> m2 !! side = None -> m2 !! p = Some (NFile b) ->
  (forall z, z <> stored -> z <> side -> z <> p -> m2 !! z = <[side := NFile text]> (<[stored := NFile b]> (delete p m)) !! z) ->
  m2 = m.
Proof.
  intros Hp H1 H2 H3 H4 H5 Hz. apply map_eq. intros z.
  destruct (decide (z = stored)) as [->|]; [congruence|]. destruct (decide (z = side)) as [->|]; [congruence|].
  destruct (decide (z = p)) as [->|]; [congruence|]. rewrite Hz by done. by simplify_map_eq.
Qed.

Lemma not_still_quarantined dir h m :
  is_sha256_hex h = true -> is_still_quarantined dir h m = false ->
  m !! (dir ++ [h]) = None /\ m !! origin_sidecar_path dir h = None.
Proof.
  intros Hh. unfold is_still_quarantined. rewrite Hh, !eq_None_not_Some. cbn [andb]. rewrite orb_false_iff, !bool_decide_eq_false. done.
Qed.

(** C14. Quarantine and restore round-trip.  A file in an existing directory is
    quarantined into an existing directory that has nothing under its digest.  Whatever
    calls failed on the way (a rename or a hard link across file systems, say): once
    the quarantine reports success the file is gone from its path and read-only in the
    quarantine; once the restore of its digest reports success too, the original path
    is the one returned, and when nothing of the digest is left behind, every path has
    the content it had before, the restored file is read-only and no other file's
    read-only bit has changed.  When no call fails both succeed and nothing is left. *)
Theorem quarantine_roundtrip sha256 path_text text_path pd n dir b policy s l :
  let p := pd ++ [n] in let h := hash_bytes sha256 b in let stored := dir ++ [h] in
  codec_ok sha256 path_text text_path p b -> quarantine_enabled policy = true ->
  nodes s !! p = Some (NFile b) -> dirs_ok pd (nodes s) -> dirs_ok dir (nodes s) ->
  p <> stored -> p <> origin_sidecar_path dir h ->
  nodes s !! stored = None -> nodes s !! origin_sidecar_path dir h = None ->
  let '(outcome, (s1, l1)) := quarantine_file_bits sha256 path_text p dir policy (s, l) in
  let '(restored, (s2, l2)) := unquarantine_bits sha256 text_path dir h (s1, l1) in
  (forall o at_ h', outcome = Quarantined o at_ h' ->
     o = p /\ at_ = stored /\ h' = h /\
     nodes s1 !! p = None /\ nodes s1 !! stored = Some (NFile b) /\ stored ∈ l1 /\
     forall p', restored = Ok p' ->
       p' = p /\
       (is_still_quarantined dir h (nodes s2) = false ->
        nodes s2 = nodes s /\ p ∈ l2 /\
        forall z x, nodes s !! z = Some x -> z <> p -> z ∈ l2 <-> z ∈ l)) /\
  (faults s = [] ->
   outcome = Quarantined p stored h /\ restored = Ok p /\ is_still_quarantined dir h (nodes s2) = false).
Proof.
  cbn zeta. intros [Hc1 Hc2 Hc3] Hpol Hp Hpd Hdir Hn1 Hn2 Hf1 Hf2. set (h := hash_bytes sha256 b) in *.
  pose proof (hash_at_sidecar dir h) as Hsc. unfold quarantine_file_bits. rewrite Hpol. cbn [negb].
  destruct (try_quarantine_bits sha256 path_text (pd ++ [n]) dir (s, l)) as [r [s1 l1]] eqn:Eq.
  pose proof (erases_inv _ _ _ _ _ _ _ (try_quarantine_erases _ _ _ _) Eq) as Hq.
  assert (match r with Ok (a, d) => (Quarantined (pd ++ [n]) a d, (s1, l1)) | Err e => (QFailed (pd ++ [n]) e, (s1, l1)) end
    = (match r with Ok (a, d) => Quarantined (pd ++ [n]) a d | Err e => QFailed (pd ++ [n]) e end, (s1, l1))) as ->
    by (by destruct r as [[]|]).
  destruct (unquarantine_bits sha256 text_path dir h (s1, l1)) as [r2 [s2 l2]] eqn:Eu.
  pose proof (erases_inv _ _ _ _ _ _ _ (unquarantine_erases _ _ _ _) Eu) as Hu. split.
  - intros o at_ h' Ho. destruct r as [[at1 h1]|e]; [|done]. injection Ho as <- <- <-.
    destruct (try_quarantine_ok sha256 path_text _ dir b _ _ _ _ Hp Hdir Hn1 Hq) as (-> & -> & E1). fold h in Eq, E1 |- *.
    destruct (try_quarantine_bits_ok sha256 path_text _ dir s l _ h s1 l1 Hn1 Eq) as (_ & Hro & Hbits).
    assert (nodes s1 !! origin_sidecar_path dir h = Some (NFile (path_text (pd ++ [n])))) as Hs1 by (rewrite E1; by simplify_map_eq).
    assert (nodes s1 !! (dir ++ [h]) = Some (NFile b)) as Hs2 by (rewrite E1; by simplify_map_eq).
    split_and!; [done..| |done|done|]; [rewrite E1; by simplify_map_eq|]. intros p' ->.
    destruct (unquarantine_ok sha256 text_path dir h _ b _ _ _ Hs1 Hs2 Hu) as (-> & _ & Hp2 & Hz). rewrite Hc1 in *. split; [done|].
    intros [Hg1 Hg2]%(not_still_quarantined _ _ _ Hc3). pose proof (unquarantine_bits_ok sha256 text_path dir h s1 l1 _ s2 l2 Hn1 Eu) as Hl2.
    split_and!.
    + rewrite E1 in Hz. by apply (disk_restored _ _ (pd ++ [n]) (dir ++ [h]) (origin_sidecar_path dir h) b (path_text (pd ++ [n]))).
    + rewrite Hl2, elem_of_carry by done. by left.
    + intros z x Hx Hzp. assert (z <> dir ++ [h] /\ z <> origin_sidecar_path dir h) as [Hz1 Hz2] by (split; congruence).
      rewrite Hl2, elem_of_carry by done. rewrite (Hbits z) by done. naive_solver.
  - destruct s as [m fs]. cbn [nodes faults] in *. intros ->.
    rewrite (try_quarantine_quiet sha256 path_text pd dir n b m) in Hq by (fold h; first [done | congruence]). injection Hq as <- <-.
    unfold h in Hu at 1. rewrite (unquarantine_quiet sha256 path_text text_path pd dir n b m) in Hu by (fold h; first [done | congruence]). injection Hu as <- <-.
    split_and!; [done..|]. unfold is_still_quarantined. cbn [nodes]. fold h. rewrite Hc3, lookup_delete_eq, lookup_delete_ne, lookup_delete_eq by done. done.
Qed.

(** A disk with two names for the payload; the first rename fails, so that the payload
    is copied. *)
Definition copying_disk : fsys := mkFs two_copies [None; None; Some 0%nat].

Lemma quarantine_roundtrip_witness :
  let p := home ++ ["a.exe"] in let h := hash_bytes toy_digest payload in
  let x1 := (quarantine_file_bits toy_digest slash_text p jail act (copying_disk, ∅)).2 in
  let x2 := (unquarantine_bits toy_digest slash_path jail h x1).2 in
  (jail ++ [h] ∈ x1.2) /\ nodes x2.1 = two_copies /\ p ∈ x2.2.
Proof.
  assert (dirs_ok home two_copies /\ dirs_ok jail two_copies) as [Hh Hj].
  { split; apply two_copies_dirs; [by left|by right]. }
  pose proof (quarantine_roundtrip toy_digest slash_text slash_path home "a.exe" jail payload act copying_disk ∅
    (slash_codec_ok "a.exe" (or_introl eq_refl)) eq_refl eq_refl Hh Hj ltac:(discriminate) ltac:(discriminate) eq_refl eq_refl) as H.
  cbn zeta. destruct (quarantine_file_bits _ _ _ _ _ _) as [o [s1 l1]] eqn:E1.
  destruct (unquarantine_bits _ _ _ _ _) as [r [s2 l2]] eqn:E2. cbn [fst snd] in *.
  destruct H as [H _].
  assert (o = Quarantined (home ++ ["a.exe"]) (jail ++ [hash_bytes toy_digest payload]) (hash_bytes toy_digest payload)) as Ho.
  { change o with (fst (o, (s1, l1))). rewrite <- E1. vm_compute. reflexivity. }
  destruct (H _ _ _ Ho) as (_ & _ & _ & _ & _ & Hl1 & Hr).
  assert (r = Ok (home ++ ["a.exe"]) /\ is_still_quarantined jail (hash_bytes toy_digest payload) (nodes s2) = false) as [Er Es].
  { assert ((s1, l1) = (quarantine_file_bits toy_digest slash_text (home ++ ["a.exe"]) jail act (copying_disk, ∅)).2) as Ex by (by rewrite E1).
    rewrite Ex in E2. pose proof (f_equal fst E2) as Er. pose proof (f_equal (fun x => nodes x.2.1) E2) as Es. cbn [fst snd] in Er, Es.
    rewrite <- Er, <- Es. split; vm_compute; reflexivity. }
  destruct (Hr _ Er) as [_ Hd]. destruct (Hd Es) as (Hn & Hp & _). split_and!; done.
Defined.
