(* ===== verification/Policy.v ===== *)
(** * Policy: the signed policy document and the exclusion gates
    (src/crates/policy/src/document.rs, canonical.rs, signature.rs, merge.rs,
    error.rs, lib.rs)

    The document types with their JSON form, the canonical serialisation that is
    signed, signature verification, the override merge, and the trust tests that
    gate name-keyed exclusions.  Arguments: [esc], serde_json's string escaping,
    and Ed25519's [ed_sign] and [ed_verify]. *)
From stdpp Require Import base gmap strings list.
From Stdlib Require Import ZArith Lia Ascii.
From S2P Require Import Prelude Order Str Fs.

(** ** JSON values *)

Inductive Value :=
  | JNull
  | JBool (b : bool)
  | JNumber (text : string)
  | JString (s : string)
  | JArray (items : list Value)
  | JObject (entries : list (string * Value)).

(** ** The document *)

Definition SCHEMA_VERSION : Z := 1.

Record PolicyMetadata := mkMetadata {
  md_schema_version : Z;
  md_policy_version : Z;
  md_issued_at_ns : Z;
  md_signature : string }.

Record RedactionPolicy := mkRedaction { pii_scrub_enabled : bool }.

Record WindowsEventlogSensorPolicy := mkEventlog {
  we_service_installs_enabled : bool;
  we_scheduled_tasks_enabled : bool;
  we_account_creations_enabled : bool;
  we_logon_events_enabled : bool;
  we_redaction : option RedactionPolicy }.

Record SensorSection := mkSensors { windows_eventlog : option WindowsEventlogSensorPolicy }.

Record ResponseSection := mkResponse { rs_kill_enabled : bool; rs_quarantine_enabled : bool }.

Inductive ComplianceMode := ComplianceNone | PciDss | Hipaa.

Inductive RulesSection := mkRules.
Inductive ModelsSection := mkModels.
Inductive ThresholdsSection := mkThresholds.

Record PolicyPayload := mkPayload {
  pl_sensors : SensorSection;
  pl_response : option ResponseSection;
  pl_compliance_mode : option ComplianceMode;
  pl_rules : option RulesSection;
  pl_models : option ModelsSection;
  pl_thresholds : option ThresholdsSection;
  pl_experimental : gmap string Value }.

Record Policy := mkPolicy { po_metadata : PolicyMetadata; po_payload : PolicyPayload }.

Definition sensors_is_empty (s : SensorSection) : bool :=
  match windows_eventlog s with None => true | Some _ => false end.

Definition default_payload : PolicyPayload :=
  mkPayload (mkSensors None) None None None None None ∅.

Inductive PolicyError :=
  | SchemaVersionMismatch (found expected : Z)
  | PolicyParse
  | SignatureInvalid
  | SignatureMalformed (found_len : Z)
  | PublicKeyMalformed (found_len : Z)
  | SafetyCriticalPartial (at_ : string) (missing : list string)
  | SignatureNotHex.

(** ** The derived serialisation *)

Definition field {A} (name : string) (f : A -> Value) (o : option A) : list (string * Value) :=
  match o with Some a => [(name, f a)] | None => [] end.

Definition metadata_value (m : PolicyMetadata) : Value :=
  JObject [("schema_version", JNumber (show_u64 (md_schema_version m)));
           ("policy_version", JNumber (show_u64 (md_policy_version m)));
           ("issued_at_ns", JNumber (show_u64 (md_issued_at_ns m)));
           ("signature", JString (md_signature m))].

Definition redaction_value (r : RedactionPolicy) : Value :=
  JObject [("pii_scrub_enabled", JBool (pii_scrub_enabled r))].

Definition eventlog_value (w : WindowsEventlogSensorPolicy) : Value :=
  JObject ([("service_installs_enabled", JBool (we_service_installs_enabled w));
            ("scheduled_tasks_enabled", JBool (we_scheduled_tasks_enabled w));
            ("account_creations_enabled", JBool (we_account_creations_enabled w));
            ("logon_events_enabled", JBool (we_logon_events_enabled w))]
           ++ field "redaction" redaction_value (we_redaction w)).

Definition sensors_value (s : SensorSection) : Value :=
  JObject (field "windows_eventlog" eventlog_value (windows_eventlog s)).

Definition response_value (r : ResponseSection) : Value :=
  JObject [("kill_enabled", JBool (rs_kill_enabled r));
           ("quarantine_enabled", JBool (rs_quarantine_enabled r))].

Definition compliance_value (c : ComplianceMode) : Value :=
  JString match c with ComplianceNone => "none" | PciDss => "pci_dss" | Hipaa => "hipaa" end.

Definition payload_value (p : PolicyPayload) : Value :=
  JObject ((if sensors_is_empty (pl_sensors p) then [] else [("sensors", sensors_value (pl_sensors p))])
           ++ field "response" response_value (pl_response p)
           ++ field "compliance_mode" compliance_value (pl_compliance_mode p)
           ++ field "rules" (fun _ => JObject []) (pl_rules p)
           ++ field "models" (fun _ => JObject []) (pl_models p)
           ++ field "thresholds" (fun _ => JObject []) (pl_thresholds p)
           ++ (if bool_decide (pl_experimental p = ∅) then []
               else [("experimental", JObject (map_to_list (pl_experimental p)))])).

Definition policy_value (p : Policy) : Value :=
  JObject [("metadata", metadata_value (po_metadata p)); ("payload", payload_value (po_payload p))].

(** ** Canonical form *)

Fixpoint indent (depth : nat) : string :=
  match depth with O => EmptyString | S d => ("  " +:+ indent d)%string end.

Definition newline : string := String (ascii_of_nat 10) EmptyString.

(** The items of an array or object, each on a line of its own. *)
Fixpoint write_items (depth : nat) (items : list string) : string :=
  match items with
  | [] => EmptyString
  | [x] => (newline +:+ (indent (S depth) +:+ x))%string
  | x :: items => (newline +:+ (indent (S depth) +:+ (x +:+ ("," +:+ write_items depth items))))%string
  end.

Definition obj_insert (k : string) (v : Value) (es : list (string * Value)) : list (string * Value) :=
  if bool_decide (k ∈ es.*1)
  then (fun e => if String.eqb e.1 k then (k, v) else e) <$> es
  else es ++ [(k, v)].

(** [v.get_mut("metadata").and_then(as_object_mut)] and the insertion. *)
Definition blank_signature (v : Value) : Value :=
  match v with
  | JObject es =>
      JObject ((fun e => if String.eqb e.1 "metadata"
                         then match e.2 with
                              | JObject md => (e.1, JObject (obj_insert "signature" (JString "") md))
                              | _ => e
                              end
                         else e) <$> es)
  | _ => v
  end.

Section Canonical.
Variable esc : string -> string.

(** The keys of an object are distinct, so ordering the written entries by
    (key, text) orders them by key. *)
Fixpoint write_sorted (v : Value) (depth : nat) : string :=
  match v with
  | JNull => "null"
  | JBool true => "true"
  | JBool false => "false"
  | JNumber n => n
  | JString s => esc s
  | JArray [] => "[]"
  | JArray items =>
      ("[" +:+ (write_items depth (map (fun x => write_sorted x (S depth)) items)
       +:+ (newline +:+ (indent depth +:+ "]"))))%string
  | JObject [] => "{}"
  | JObject es =>
      let written := map (fun e => let '(k, x) := e in (k, write_sorted x (S depth))) es in
      ("{" +:+ (write_items depth (map (fun e => (esc e.1 +:+ (": " +:+ e.2))%string) (cmp_sort written))
       +:+ (newline +:+ (indent depth +:+ "}"))))%string
  end.

Definition to_canonical_bytes (p : Policy) : string := write_sorted (blank_signature (policy_value p)) 0.

(** ** Signatures *)

Definition SIGNATURE_LEN_BYTES : Z := 64.
Definition PUBLIC_KEY_LEN_BYTES : Z := 32.

Definition hex_lower (n : Z) : ascii := ascii_of_nat (Z.to_nat (if n <? 10 then 48 + n else 87 + n)).

Fixpoint hex_lowercase (bs : bytes) : string :=
  match bs with
  | [] => EmptyString
  | b :: bs => String (hex_lower (Z.shiftr b 4)) (String (hex_lower (Z.land b 15)) (hex_lowercase bs))
  end.

Definition from_hex_nibble (c : ascii) : option Z :=
  let n := Z.of_nat (nat_of_ascii c) in
  if (48 <=? n) && (n <=? 57) then Some (n - 48)
  else if (97 <=? n) && (n <=? 102) then Some (10 + n - 97)
  else None.

(** [chunks_exact(2)] over an even number of bytes. *)
Fixpoint decode_pairs (s : string) : option bytes :=
  match s with
  | String a (String b s) =>
      hi ← from_hex_nibble a; lo ← from_hex_nibble b; bs ← decode_pairs s;
      Some (Z.lor (Z.shiftl hi 4) lo :: bs)
  | _ => Some []
  end.
Definition decode_hex_lowercase (s : string) : option bytes :=
  if Nat.even (String.length s) then decode_pairs s else None.

Variable ed_sign : string -> bytes.
Variable ed_verify : bytes -> string -> bytes -> bool.

Definition with_signature (sig : string) (p : Policy) : Policy :=
  let m := po_metadata p in
  mkPolicy (mkMetadata (md_schema_version m) (md_policy_version m) (md_issued_at_ns m) sig) (po_payload p).

Definition policy_sign (p : Policy) : Policy :=
  with_signature (hex_lowercase (ed_sign (to_canonical_bytes p))) p.

Definition policy_verify (p : Policy) (public_key : bytes) : result unit PolicyError :=
  if negb (Z.of_nat (length public_key) =? PUBLIC_KEY_LEN_BYTES)
  then Err (PublicKeyMalformed (Z.of_nat (length public_key)))
  else
    let sig_hex := md_signature (po_metadata p) in
    if negb (str_len sig_hex =? SIGNATURE_LEN_BYTES * 2) then Err (SignatureMalformed (str_len sig_hex))
    else match decode_hex_lowercase sig_hex with
         | None => Err SignatureNotHex
         | Some sig_bytes =>
             if ed_verify public_key (to_canonical_bytes p) sig_bytes then Ok tt else Err SignatureInvalid
         end.
End Canonical.

(** ** Overrides *)

Definition SAFETY_CRITICAL_PATHS : list string := ["compliance_mode"; "sensors.*.redaction"].

Definition option_or {A} (a b : option A) : option A := match a with Some x => Some x | None => b end.

Definition apply_sensors (baseline overrides : SensorSection) : SensorSection :=
  mkSensors
    match windows_eventlog overrides with
    | None => windows_eventlog baseline
    | Some ov =>
        Some (mkEventlog (we_service_installs_enabled ov) (we_scheduled_tasks_enabled ov)
                (we_account_creations_enabled ov) (we_logon_events_enabled ov)
                match we_redaction ov with
                | None => base ← windows_eventlog baseline; we_redaction base
                | r => r
                end)
    end.

Definition merge_experimental (baseline overrides : gmap string Value) : gmap string Value :=
  foldl (fun out e => <[e.1 := e.2]> out) baseline (map_to_list overrides).

Definition apply_payload (baseline overrides : PolicyPayload) : PolicyPayload :=
  mkPayload (apply_sensors (pl_sensors baseline) (pl_sensors overrides))
    (option_or (pl_response overrides) (pl_response baseline))
    (option_or (pl_compliance_mode overrides) (pl_compliance_mode baseline))
    (option_or (pl_rules overrides) (pl_rules baseline))
    (option_or (pl_models overrides) (pl_models baseline))
    (option_or (pl_thresholds overrides) (pl_thresholds baseline))
    (merge_experimental (pl_experimental baseline) (pl_experimental overrides)).

Definition apply_overrides (baseline overrides : Policy) : Policy :=
  mkPolicy (po_metadata overrides) (apply_payload (po_payload baseline) (po_payload overrides)).

(** ** Exclusion gates *)

Definition backslash : ascii := ascii_of_nat 92.
Definition to_backslash (a : ascii) : ascii := if Ascii.eqb a "/"%char then backslash else a.

Definition UNIX_PREFIXES : list string :=
  ["/usr/"; "/bin/"; "/sbin/"; "/lib/"; "/opt/"; "/system/"; "/applications/"].

Definition is_trusted_system_path (p : string) : bool :=
  let lower := to_ascii_lowercase p in
  match lower with
  | String _ (String c rest) =>
      if Ascii.eqb c ":"%char then
        let rest := str_map to_backslash rest in
        if starts_with "\windows\" rest then
          negb (starts_with "\windows\temp\" rest || starts_with "\windows\tasks\" rest
                || starts_with "\windows\tracing\" rest)
        else starts_with "\program files\" rest || starts_with "\program files (x86)\" rest
      else existsb (fun pre => starts_with pre lower) UNIX_PREFIXES
  | _ => existsb (fun pre => starts_with pre lower) UNIX_PREFIXES
  end.

Definition name_exclusion_applies (image_path : option string) : bool :=
  match image_path with
  | None | Some EmptyString => true
  | Some p => is_trusted_system_path p
  end.

Definition ADDRESS_SELECTION_PROBE_PORT : Z := 65535.
Definition is_address_selection_probe (daddr_unspecified : bool) (dport : Z) : bool :=
  daddr_unspecified && (dport =? ADDRESS_SELECTION_PROBE_PORT).

(** [s.rsplit('\\').next()]: what follows the last backslash. *)
Definition base_name (s : string) : string := default s (last (str_split backslash s)).

Definition EXPECTED_PARENTS : list (string * list string) :=
  [("smss.exe", ["system"]); ("csrss.exe", ["smss.exe"]); ("wininit.exe", ["smss.exe"]);
   ("winlogon.exe", ["smss.exe"]); ("services.exe", ["wininit.exe"]); ("svchost.exe", ["services.exe"]);
   ("taskhostw.exe", ["services.exe"; "svchost.exe"]); ("taskhost.exe", ["services.exe"; "svchost.exe"]);
   ("spoolsv.exe", ["services.exe"]); ("lsass.exe", ["wininit.exe"]); ("userinit.exe", ["winlogon.exe"]);
   ("explorer.exe", ["userinit.exe"])].

Definition expected_parents (comm : string) : list string :=
  let name := to_ascii_lowercase (base_name comm) in
  match List.find (fun e => String.eqb e.1 name) EXPECTED_PARENTS with Some e => e.2 | None => [] end.

Definition parent_exclusion_applies (comm : string) (parent_comm : option string) : bool :=
  let expected := expected_parents comm in
  if bool_decide (expected = []) then true
  else match parent_comm with
       | None | Some EmptyString => true
       | Some parent => existsb (fun e => eq_ignore_ascii_case e (base_name parent)) expected
       end.

Record EventLogPolicy := mkEventLogPolicy {
  el_service_installs_enabled : bool;
  el_scheduled_tasks_enabled : bool;
  el_account_creations_enabled : bool;
  el_logon_events_enabled : bool }.
Definition default_event_log_policy : EventLogPolicy := mkEventLogPolicy true true true true.

(** ** Lemmas *)

Lemma nibble_hex a n : from_hex_nibble a = Some n -> 0 <= n < 16 /\ hex_lower n = a.
Proof.
  destruct a as [[] [] [] [] [] [] [] []]; cbv; intros H; try discriminate H; injection H as <-;
    (split; [split; [discriminate|reflexivity]|reflexivity]).
Qed.

Lemma hex_nibble n : 0 <= n < 16 -> from_hex_nibble (hex_lower n) = Some n.
Proof.
  intros Hn. pose (f n := match from_hex_nibble (hex_lower n) with Some k => k =? n | None => false end).
  assert (f n = true) as Hf by (by apply (forallb_seqZ f 16)). unfold f in Hf.
  destruct (from_hex_nibble _); [|done]. f_equal. lia.
Qed.

Lemma nibbles_byte hi lo :
  0 <= hi < 16 -> 0 <= lo < 16 ->
  let b := Z.lor (Z.shiftl hi 4) lo in 0 <= b < 256 /\ Z.shiftr b 4 = hi /\ Z.land b 15 = lo.
Proof.
  intros Hh Hl. cbn zeta.
  pose (f k := let hi := k / 16 in let lo := k mod 16 in let b := Z.lor (Z.shiftl hi 4) lo in
    (0 <=? b) && (b <? 256) && (Z.shiftr b 4 =? hi) && (Z.land b 15 =? lo)).
  assert (f (16 * hi + lo) = true) as Hf by (apply (forallb_seqZ f 256); [vm_compute; reflexivity|lia]).
  unfold f in Hf. rewrite !andb_true_iff in Hf. cbn zeta in Hf.
  assert ((16 * hi + lo) / 16 = hi) as E1 by (rewrite Z.mul_comm, Z.div_add_l, Z.div_small; lia).
  assert ((16 * hi + lo) mod 16 = lo) as E2 by (rewrite Z.add_comm, Z.mul_comm, Z.mod_add, Z.mod_small; lia).
  rewrite E1, E2 in Hf. lia.
Qed.

Lemma byte_nibbles b :
  0 <= b < 256 -> 0 <= Z.shiftr b 4 < 16 /\ 0 <= Z.land b 15 < 16 /\ Z.lor (Z.shiftl (Z.shiftr b 4) 4) (Z.land b 15) = b.
Proof.
  intros Hb. pose (f b := (0 <=? Z.shiftr b 4) && (Z.shiftr b 4 <? 16) && (0 <=? Z.land b 15) && (Z.land b 15 <? 16)
    && (Z.lor (Z.shiftl (Z.shiftr b 4) 4) (Z.land b 15) =? b)).
  assert (f b = true) as Hf by (apply (forallb_seqZ f 256); [vm_compute; reflexivity|lia]).
  unfold f in Hf. rewrite !andb_true_iff in Hf. lia.
Qed.

Lemma hex_lowercase_length bs : str_len (hex_lowercase bs) = 2 * Z.of_nat (length bs).
Proof.
  unfold str_len. induction bs as [|b bs IH]; [done|]. cbn [hex_lowercase String.length length]. lia.
Qed.

(** The strict decoding accepts exactly one spelling of each byte string. *)
Lemma decode_hex_exact s bs :
  decode_hex_lowercase s = Some bs <-> s = hex_lowercase bs /\ Forall (fun b => 0 <= b < 256) bs.
Proof.
  unfold decode_hex_lowercase. split.
  - destruct (Nat.even (String.length s)) eqn:Ev; [|done]. revert s bs Ev.
    assert (forall n s bs, (String.length s < n)%nat -> Nat.even (String.length s) = true ->
      decode_pairs s = Some bs -> s = hex_lowercase bs /\ Forall (fun b => 0 <= b < 256) bs) as H;
      [|intros s bs; apply (H (S (String.length s))); lia].
    induction n as [|n IH]; intros s bs Hn Ev; [lia|].
    destruct s as [|a [|b s]]; [by intros [= <-]|done|]. cbn [decode_pairs].
    destruct (from_hex_nibble a) as [hi|] eqn:Ea; [|done]. destruct (from_hex_nibble b) as [lo|] eqn:Eb; [|done].
    cbn [mbind option_bind]. destruct (decode_pairs s) as [bs'|] eqn:Es; [|done]. intros [= <-].
    apply nibble_hex in Ea as [Hh <-]. apply nibble_hex in Eb as [Hl <-].
    destruct (nibbles_byte hi lo Hh Hl) as (Hb & E1 & E2).
    destruct (IH s bs') as [-> Hf]; [simpl in Hn; lia|done|done|].
    cbn [hex_lowercase]. rewrite E1, E2. split; [done|by constructor].
  - intros [-> Hb].
    assert (Nat.even (String.length (hex_lowercase bs)) = true) as ->.
    { pose proof (hex_lowercase_length bs) as Hl. unfold str_len in Hl. apply Nat.even_spec. exists (length bs). lia. }
    induction Hb as [|b bs Hb _ IH]; [done|]. cbn [hex_lowercase decode_pairs].
    destruct (byte_nibbles b Hb) as (H1 & H2 & H3). rewrite !hex_nibble by done. cbn [mbind option_bind].
    rewrite IH. cbn [mbind option_bind]. by rewrite H3.
Qed.

Lemma merge_experimental_union b o : merge_experimental b o = o ∪ b.
Proof.
  unfold merge_experimental.
  assert (forall (l : list (string * Value)) (b : gmap string Value),
    foldl (fun out e => <[e.1 := e.2]> out) b l = list_to_map (rev l) ∪ b) as H.
  { induction l as [|[k v] l IH]; intros b'; cbn [foldl rev]; [cbn; by rewrite (left_id_L ∅ (∪))|].
    rewrite IH, list_to_map_app, <- (assoc_L (∪)). f_equal. cbn. by rewrite insert_union_singleton_l. }
  rewrite H. f_equal. rewrite <- (list_to_map_to_list o) at 2. symmetry. apply list_to_map_proper.
  - apply NoDup_fst_map_to_list.
  - apply Permutation_rev.
Qed.

(** ** Theorems *)

(** Two JSON trees that differ only in the order of object entries. *)
Inductive same_json : Value -> Value -> Prop :=
  | SJ_refl v : same_json v v
  | SJ_trans v1 v2 v3 : same_json v1 v2 -> same_json v2 v3 -> same_json v1 v3
  | SJ_perm es es' : es ≡ₚ es' -> same_json (JObject es) (JObject es')
  | SJ_entry l k v v' r : same_json v v' -> same_json (JObject (l ++ (k, v) :: r)) (JObject (l ++ (k, v') :: r))
  | SJ_item l v v' r : same_json v v' -> same_json (JArray (l ++ v :: r)) (JArray (l ++ v' :: r)).

(** The canonical form is canonical: it does not depend on the order in
    which any object's entries were built, at any depth, nor on the signature
    already in the document, so signer and verifier see the same bytes. *)
Theorem canonical_form_stable esc :
  (forall v v' depth, same_json v v' -> write_sorted esc v depth = write_sorted esc v' depth) /\
  (forall p sig, to_canonical_bytes esc (with_signature sig p) = to_canonical_bytes esc p).
Proof.
  split; [|done]. intros v v' depth Hs. revert depth.
  induction Hs as [v|v1 v2 v3 _ IH1 _ IH2|es es' Hp|l k v v' r _ IH|l v v' r _ IH]; intros depth.
  - done.
  - by rewrite IH1.
  - assert (es = [] /\ es' = [] \/ es <> [] /\ es' <> []) as [[-> ->]|[H1 H2]]; [|done|].
    { destruct es as [|e es]; [left; by apply Permutation_nil in Hp|right]. split; [done|].
      intros ->. symmetry in Hp. by apply Permutation_nil in Hp. }
    destruct es as [|e es]; [done|]. destruct es' as [|e' es']; [done|]. cbn [write_sorted].
    do 3 f_equal. f_equal. apply cmp_sort_unique. by apply Permutation_map.
  - destruct l as [|e l]; cbn [app write_sorted map]; rewrite ?map_app; cbn [map]; by rewrite IH.
  - destruct l as [|e l]; cbn [app write_sorted map]; rewrite ?map_app; cbn [map]; by rewrite IH.
Qed.

(** C15. Signature verification, exactly: it succeeds if and only if the key has
    32 bytes and the signature field is the lowercase hex of 64 bytes that the
    Ed25519 check accepts for the canonical form; each signature has only one
    accepted spelling; and a document signed by a key verifies under it. *)
Theorem policy_verify_exact esc ed_sign ed_verify p pk :
  (policy_verify esc ed_verify p pk = Ok tt <->
     Z.of_nat (length pk) = 32 /\
     exists sig, length sig = 64%nat /\ Forall (fun b => 0 <= b < 256) sig /\
       md_signature (po_metadata p) = hex_lowercase sig /\
       ed_verify pk (to_canonical_bytes esc p) sig = true) /\
  ((forall msg, length (ed_sign msg) = 64%nat /\ Forall (fun b => 0 <= b < 256) (ed_sign msg) /\
      ed_verify pk msg (ed_sign msg) = true) ->
   length pk = 32%nat -> policy_verify esc ed_verify (policy_sign esc ed_sign p) pk = Ok tt).
Proof.
  assert (forall p, policy_verify esc ed_verify p pk = Ok tt <->
     Z.of_nat (length pk) = 32 /\
     exists sig, length sig = 64%nat /\ Forall (fun b => 0 <= b < 256) sig /\
       md_signature (po_metadata p) = hex_lowercase sig /\
       ed_verify pk (to_canonical_bytes esc p) sig = true) as Hexact.
  { clear p. intros p. unfold policy_verify, PUBLIC_KEY_LEN_BYTES, SIGNATURE_LEN_BYTES.
    destruct (Z.eqb_spec (Z.of_nat (length pk)) 32) as [Hpk|Hpk]; cbn [negb]; [|naive_solver].
    destruct (Z.eqb_spec (str_len (md_signature (po_metadata p))) (64 * 2)) as [Hl|Hl]; cbn [negb].
    2: { split; [done|]. intros (_ & sig & Hs & _ & E & _). rewrite E, hex_lowercase_length in Hl. lia. }
    destruct (decode_hex_lowercase _) as [sig|] eqn:Ed.
    - apply decode_hex_exact in Ed as [E Hb]. rewrite E, hex_lowercase_length in Hl.
      assert (forall sig', hex_lowercase sig = hex_lowercase sig' -> Forall (fun b => 0 <= b < 256) sig' -> sig' = sig)
        as Hinj.
      { intros sig' E' Hb'. assert (decode_hex_lowercase (hex_lowercase sig) = Some sig') as H1 by (by apply decode_hex_exact).
        assert (decode_hex_lowercase (hex_lowercase sig) = Some sig) as H2 by (by apply decode_hex_exact). congruence. }
      destruct (ed_verify pk _ sig) eqn:Ev.
      + split; [|done]. intros _. split; [done|]. exists sig. split_and!; [lia|done..].
      + split; [done|]. intros (_ & sig' & _ & Hb' & E' & Hv). rewrite E in E'. apply Hinj in E' as ->; [congruence|done].
    - split; [done|]. intros (_ & sig & _ & Hb & E & _).
      assert (decode_hex_lowercase (md_signature (po_metadata p)) = Some sig) by (by apply decode_hex_exact). congruence. }
  split; [apply Hexact|]. intros Hsig Hpk. apply Hexact. split; [lia|].
  destruct (Hsig (to_canonical_bytes esc p)) as (H1 & H2 & H3). eexists. split_and!; [exact H1|exact H2|done|exact H3].
Qed.

(** Overrides compose: applying one override document and then another is
    applying their combination, an empty override changes nothing, a section the
    override is silent about keeps the baseline's value, and a sensor override
    that does not mention redaction cannot drop the baseline's redaction. *)
Theorem overrides_compose b o1 o2 :
  apply_payload (apply_payload b o1) o2 = apply_payload b (apply_payload o1 o2) /\
  apply_payload b default_payload = b /\ apply_payload default_payload b = b /\
  (forall k, pl_experimental (apply_payload b o1) !! k = option_or (pl_experimental o1 !! k) (pl_experimental b !! k)) /\
  (forall base r, windows_eventlog (pl_sensors b) = Some base -> we_redaction base = Some r ->
     exists w r', windows_eventlog (pl_sensors (apply_payload b o1)) = Some w /\ we_redaction w = Some r' /\
       (r' = r \/ exists ov, windows_eventlog (pl_sensors o1) = Some ov /\ we_redaction ov = Some r')).
Proof.
  assert (forall A (x y z : option A), option_or z (option_or y x) = option_or (option_or z y) x) as Hor
    by (by intros A [] [] []).
  split_and!.
  - unfold apply_payload. cbn [pl_sensors pl_response pl_compliance_mode pl_rules pl_models pl_thresholds pl_experimental].
    rewrite !merge_experimental_union, !Hor, (assoc_L (∪)). f_equal.
    unfold apply_sensors. f_equal.
    destruct (windows_eventlog (pl_sensors o2)) as [[? ? ? ? [r2|]]|]; cbn; [done| |done].
    destruct (windows_eventlog (pl_sensors o1)) as [[? ? ? ? [r1|]]|]; done.
  - destruct b as [[w] ? ? ? ? ? e]. unfold apply_payload. cbn. by rewrite merge_experimental_union, (left_id_L ∅ (∪)).
  - destruct b as [[[[? ? ? ? []]|]] [] [] [] [] [] e]; unfold apply_payload, apply_sensors; cbn;
      by rewrite merge_experimental_union, (right_id_L ∅ (∪)).
  - intros k. cbn. rewrite merge_experimental_union. destruct (pl_experimental o1 !! k) as [v|] eqn:E; cbn.
    + by apply lookup_union_Some_l.
    + by apply lookup_union_r.
  - intros base r Hw Hr. cbn. unfold apply_sensors. cbn. rewrite Hw.
    destruct (windows_eventlog (pl_sensors o1)) as [[? ? ? ? [r1|]]|] eqn:E; cbn.
    + do 2 eexists. split_and!; [done|done|]. right. eexists. split; [done|done].
    + do 2 eexists. rewrite Hr. split_and!; [done|done|by left].
    + exists base, r. split_and!; [done|done|by left].
Qed.

Lemma canonical_form_stable_witness :
  write_sorted id (JObject [("b", JNull); ("a", JArray [JObject [("y", JBool true); ("x", JNull)]])]) 0 =
  write_sorted id (JObject [("a", JArray [JObject [("x", JNull); ("y", JBool true)]]); ("b", JNull)]) 0.
Proof.
  apply (proj1 (canonical_form_stable id)).
  eapply SJ_trans; [apply SJ_perm, perm_swap|].
  apply (SJ_entry [] "a" _ _ [("b", JNull)]). apply (SJ_item [] _ _ []). apply SJ_perm, perm_swap.
Defined.

Definition demo_policy : Policy := mkPolicy (mkMetadata 1 7 0 "") default_payload.

(** A stand-in signature scheme: the key, padded by the message's length. *)
Definition toy_sign (msg : string) : bytes := repeat 7 63 ++ [Z.of_nat (String.length msg) mod 256].
Definition toy_verify (pk : bytes) (msg : string) (sig : bytes) : bool :=
  bool_decide (pk = repeat 7 32) && bool_decide (sig = toy_sign msg).

Lemma policy_verify_exact_witness :
  policy_verify id toy_verify (policy_sign id toy_sign demo_policy) (repeat 7 32) = Ok tt.
Proof.
  apply (policy_verify_exact id toy_sign toy_verify demo_policy (repeat 7 32)); [|reflexivity].
  intros msg. unfold toy_sign, toy_verify. split_and!.
  - reflexivity.
  - apply Forall_app. split; [repeat constructor; done|].
    constructor; [apply Z.mod_pos_bound; lia|constructor].
  - apply andb_true_intro. split; apply bool_decide_eq_true; reflexivity.
Defined.

Definition eventlog_baseline : PolicyPayload :=
  mkPayload (mkSensors (Some (mkEventlog true true true true (Some (mkRedaction true))))) None (Some Hipaa)
    None None None ∅.
Definition eventlog_override : PolicyPayload :=
  mkPayload (mkSensors (Some (mkEventlog false true true true None))) None None None None None ∅.

Lemma overrides_compose_witness :
  exists w r', windows_eventlog (pl_sensors (apply_payload eventlog_baseline eventlog_override)) = Some w /\
    we_redaction w = Some r' /\
    (r' = mkRedaction true \/ exists ov, windows_eventlog (pl_sensors eventlog_override) = Some ov /\ we_redaction ov = Some r').
Proof.
  destruct (overrides_compose eventlog_baseline eventlog_override default_payload) as (_ & _ & _ & _ & H).
  apply (H (mkEventlog true true true true (Some (mkRedaction true)))); reflexivity.
Defined.
