(* ===== verification/Journal.v ===== *)
(** * Journal: the journald tail (crates/sensors/linux/journal and the agent's use of it)

    The record and its classification, the authentication and first-start events,
    the iterator over [journalctl]'s lines, the cursor file and the thread that
    joins them.  The JSON reader and [journalctl]'s output are arguments. *)
From stdpp Require Import base gmap strings list.
From Stdlib Require Import ZArith Lia Ascii.
From Stdlib Require String.
From S2P Require Import Prelude Str Text Scan Schema Net Fs Utf8 Bytes Policy.
#[local] Open Scope string_scope.
#[local] Open Scope Z_scope.

(** ** [record.rs] *)

Inductive JournalError := JsonError | MissingField (field : string) | IoError | SpawnError.

Record JournalRecord := mkJournalRecord {
  jr_cursor : string;
  jr_realtime_us : Z;
  jr_boot_id : option string;
  jr_syslog_identifier : option string;
  jr_uid : option string;
  jr_pid : option string;
  jr_gid : option string;
  jr_message : string;
  jr_job_type : option string;
  jr_job_result : option string;
  jr_unit : option string }.

(** [Value::get] with [as_str]: the last entry of a repeated key. *)
Definition get_str (v : Value) (key : string) : option string :=
  match v with
  | JObject entries =>
      match List.find (fun kv => String.eqb kv.1 key) (rev entries) with Some (_, JString s) => Some s | _ => None end
  | _ => None
  end.

Definition ok_or {A E : Type} (o : option A) (e : E) : result A E := match o with Some a => Ok a | None => Err e end.
Definition and_try {A B E : Type} (m : result A E) (k : A -> result B E) : result B E :=
  match m with Ok a => k a | Err e => Err e end.
Notation "x '<-ok' m ';' k" := (and_try m (fun x => k)) (at level 20, m at level 100, k at level 200, right associativity).

Section Record.
Context (from_str : string -> option Value).

Definition parse_record (line : string) : result JournalRecord JournalError :=
  value <-ok ok_or (from_str line) JsonError;
  cursor <-ok ok_or (get_str value "__CURSOR") (MissingField "__CURSOR");
  message <-ok ok_or (get_str value "MESSAGE") (MissingField "MESSAGE");
  realtime_us <-ok ok_or (get_str value "__REALTIME_TIMESTAMP" ≫= parse_u64) (MissingField "__REALTIME_TIMESTAMP");
  Ok (mkJournalRecord cursor realtime_us (get_str value "_BOOT_ID") (get_str value "SYSLOG_IDENTIFIER")
        (get_str value "_UID") (get_str value "_PID") (get_str value "_GID") message
        (get_str value "JOB_TYPE") (get_str value "JOB_RESULT")
        (match get_str value "UNIT" with Some u => Some u | None => get_str value "USER_UNIT" end)).
End Record.

(** ** [classify.rs] *)

Inductive JournalEvent :=
  | SshAccepted (user source_addr : option string)
  | SshFailed (user source_addr : option string)
  | PamSessionOpened (service : string) (target_user : option string)
  | PamSessionClosed (service : string)
  | SudoCommand (invoking_user target_user command : option string)
  | UnitStarted (unit_ : option string)
  | UnitStopped (unit_ : option string)
  | UnitFailed (unit_ : option string).

Definition text_between (haystack start end_ : string) : option string :=
  '(_, after_start) ← split_once start haystack; Some (trim (before_first end_ after_start)).
Definition extract_before (haystack end_ : string) : option string := Some (trim (before_first end_ haystack)).
Definition is_field_end (a : ascii) : bool := is_space a || Ascii.eqb a ";".
Definition extract_field (haystack key : string) : option string :=
  '(_, after) ← split_once key haystack; Some (trim (break_byte is_field_end after).1).

Definition classify_unit_job (record : JournalRecord) : option JournalEvent :=
  job_type ← jr_job_type record;
  job_result ← jr_job_result record;
  if String.eqb job_type "start" then
    if String.eqb job_result "done" then Some (UnitStarted (jr_unit record))
    else if String.eqb job_result "failed" then Some (UnitFailed (jr_unit record)) else None
  else if String.eqb job_type "stop" && String.eqb job_result "done" then Some (UnitStopped (jr_unit record))
  else None.

Definition ssh_failed (rest : string) : JournalEvent :=
  SshFailed (extract_before rest " from") (text_between rest " from " " port").
Definition classify_sshd (message : string) : option JournalEvent :=
  match strip_prefix "Accepted " message with
  | Some rest => Some (SshAccepted (text_between rest " for " " from") (text_between rest " from " " port"))
  | None =>
      match strip_prefix "Failed password for invalid user " message with
      | Some rest => Some (ssh_failed rest)
      | None =>
          match strip_prefix "Failed password for " message with
          | Some rest => Some (ssh_failed rest)
          | None => ssh_failed <$> strip_prefix "Invalid user " message
          end
      end
  end.

Definition classify_sudo_command (message : string) : option JournalEvent :=
  '(_, command) ← split_once "COMMAND=" message;
  let invoking_user := (fun ab => trim ab.1) <$> split_once " :" (trim_start message) in
  Some (SudoCommand invoking_user (extract_field message "USER=") (Some (trim command))).

Definition classify_pam_session (message : string) : option JournalEvent :=
  rest ← strip_prefix "pam_unix(" message;
  '(service, _) ← split_once ":" rest;
  if str_contains "session opened for user" message then
    Some (PamSessionOpened service (text_between message "session opened for user " "("))
  else if str_contains "session closed for user" message then Some (PamSessionClosed service)
  else None.

Definition or_else {A : Type} (o p : option A) : option A := match o with Some a => Some a | None => p end.
Definition classify (record : JournalRecord) : option JournalEvent :=
  let identifier := default EmptyString (jr_syslog_identifier record) in
  or_else (classify_unit_job record)
    (or_else (if String.eqb identifier "sshd" || String.eqb identifier "sshd-session" then classify_sshd (jr_message record) else None)
       (or_else (if String.eqb identifier "sudo" then classify_sudo_command (jr_message record) else None)
          (classify_pam_session (jr_message record)))).

(** ** [auth.rs] *)

Definition parse_source_addr (addr : option string) : option IpAddr := addr ≫= parse_ip.

Definition record_ns (record : JournalRecord) : Z := sat_mul (jr_realtime_us record) 1000.
Definition reporter_meta (record : JournalRecord) : option EventMeta :=
  pid ← jr_pid record ≫= parse_upto U32_MAX;
  uid ← jr_uid record ≫= parse_upto U32_MAX;
  let user := match jr_gid record ≫= parse_upto U32_MAX with Some gid => User_Unix uid gid | None => User_Unknown end in
  Some (mkEventMeta pid 0 user (record_ns record) (default "journald" (jr_syslog_identifier record)) None None None).

Definition auth_parts (event : JournalEvent) : option (AuthOutcome * AuthKind * string * option IpAddr) :=
  match event with
  | SshAccepted user source_addr => (fun u => (AuthOutcome_Success, AuthKind_Logon, u, parse_source_addr source_addr)) <$> user
  | SshFailed user source_addr => (fun u => (AuthOutcome_Failure, AuthKind_LogonFailure, u, parse_source_addr source_addr)) <$> user
  | SudoCommand _ target_user _ =>
      (fun u => (AuthOutcome_Success,
                 if String.eqb u "root" then AuthKind_PrivilegedSession else AuthKind_ExplicitCredentials, u, None)) <$> target_user
  | PamSessionOpened service target_user =>
      if String.eqb service "su" then (fun u => (AuthOutcome_Success, AuthKind_ExplicitCredentials, u, None)) <$> target_user
      else if String.eqb service "login" then (fun u => (AuthOutcome_Success, AuthKind_Logon, u, None)) <$> target_user
      else None
  | _ => None
  end.
Definition to_auth_event (record : JournalRecord) (event : JournalEvent) : option AuthEvent :=
  '(outcome, kind, target_user, source_address) ← auth_parts event;
  meta ← reporter_meta record;
  Some (mkAuthEvent meta outcome kind target_user None source_address None).

(** ** [persistence.rs] *)

Record UnitPersistenceTracker := mkUnitPersistenceTracker { seen : gset string }.
Definition UnitPersistenceTracker_new : UnitPersistenceTracker := mkUnitPersistenceTracker ∅.

Definition unit_event (record : JournalRecord) (u : string) : Event :=
  Event_FileOpen (mkFileOpenEvent
    (mkEventMeta (default 1 (jr_pid record ≫= parse_upto U32_MAX)) 0 User_Unknown (record_ns record) u None None None)
    u FLAG_PERSISTENCE_SYSTEMD_ARTIFACT).
Definition unit_observe (t : UnitPersistenceTracker) (record : JournalRecord) (event : JournalEvent)
    : option Event * UnitPersistenceTracker :=
  match event with
  | UnitStarted (Some u) =>
      if decide (u ∈ seen t) then (None, t) else (Some (unit_event record u), mkUnitPersistenceTracker ({[u]} ∪ seen t))
  | _ => (None, t)
  end.

(** ** [tail.rs] *)

Section Tail.
Context (from_str : string -> option Value).

(** The lines [reader.lines()] yields: text, or an error of the reader. *)
Fixpoint next (lines : list (result string unit)) : option (result (JournalRecord * JournalEvent) JournalError * list (result string unit)) :=
  match lines with
  | [] => None
  | Err _ :: lines => Some (Err IoError, lines)
  | Ok line :: lines =>
      if str_is_empty (trim line) then next lines
      else match parse_record from_str line with
           | Ok record => match classify record with Some event => Some (Ok (record, event), lines) | None => next lines end
           | Err (MissingField _) => next lines
           | Err e => Some (Err e, lines)
           end
  end.

(** The cursor of [journalctl --show-cursor -n0]: its exit status and output. *)
Definition current_cursor (output : option (bool * bytes)) : result string JournalError :=
  match output with
  | Some (true, stdout) =>
      ok_or (head (omap (strip_prefix "-- cursor: ") (str_lines (from_utf8_lossy stdout)))) (MissingField "-- cursor: line")
  | _ => Err SpawnError
  end.
Definition spawn_follow_args (after_cursor : option string) : list string :=
  app ["-f"; "-o"; "json"] (match after_cursor with Some cursor => [cat ["--after-cursor="; cursor]] | None => ["--since"; "now"] end).

(** ** The agent's thread (commands/linux.rs) *)

(** What the thread does, in order: pulse the heartbeat, write the cursor, hand an
    event to the sink. *)
Inductive TailOp := Pulse | Persist (cursor : string) | Deliver (e : Event).

Definition item_events (t : UnitPersistenceTracker) (record : JournalRecord) (event : JournalEvent) : list Event * UnitPersistenceTracker :=
  let auth := option_list (Event_Auth <$> to_auth_event record event) in
  let '(p, t) := unit_observe t record event in
  (app auth (option_list p), t).

(** Every item takes a line or more: the number of lines bounds the rounds. *)
Fixpoint tail_loop (fuel : nat) (lines : list (result string unit)) (t : UnitPersistenceTracker) : Run (list TailOp) :=
  match next lines with
  | None => Ran []
  | Some (Err _, _) => Ran [Pulse]
  | Some (Ok (record, event), lines) =>
      match fuel with
      | O => Spun
      | S fuel =>
          let '(es, t) := item_events t record event in
          rest <-run tail_loop fuel lines t;
          Ran (app (Pulse :: Persist (jr_cursor record) :: map Deliver es) rest)
      end
  end.
Definition journal_tail (lines : list (result string unit)) : Run (list TailOp) :=
  tail_loop (length lines) lines UnitPersistenceTracker_new.
End Tail.

(** ** [journal_cursor.rs] *)

(** [Path::with_extension] on the last component. *)
Definition is_dot (a : ascii) : bool := Ascii.eqb a ".".
Definition with_extension (ext name : string) : string :=
  match rsplit_byte is_dot name with
  | Some (EmptyString, _) | None => cat [name; "."; ext]
  | Some (stem, _) => cat [stem; "."; ext]
  end.
Definition on_file_name (f : string -> string) (p : list string) : list string :=
  match last p with Some name => app (removelast p) [f name] | None => p end.
Definition cursor_path_for (alerts : list string) : list string := on_file_name (with_extension "journal-cursor") alerts.
Definition cursor_tmp (p : list string) : list string := on_file_name (fun name => cat [name; ".tmp"]) p.

Definition cursor_text (b : bytes) : option string :=
  s ← from_utf8 b; let cursor := trim s in if str_is_empty cursor then None else Some cursor.
Definition cursor_read (p : list string) (s : fsys) : option string * fsys :=
  let '(r, s) := fs_read p s in (match r with Ok b => cursor_text b | Err _ => None end, s).
Definition cursor_write (p : list string) (cursor : string) (s : fsys) : fsys :=
  let '(r, s) := fs_write (cursor_tmp p) (bytes_of_str cursor) s in
  match r with Ok _ => (fs_rename (cursor_tmp p) p s).2 | Err _ => s end.

Record TailState := mkTailState { tl_fs : fsys; tl_pulses : Z; tl_sink : list Event }.
Definition perform (cursor_path : list string) (s : TailState) (op : TailOp) : TailState :=
  match op with
  | Pulse => mkTailState (tl_fs s) (tl_pulses s + 1) (tl_sink s)
  | Persist cursor => mkTailState (cursor_write cursor_path cursor (tl_fs s)) (tl_pulses s) (tl_sink s)
  | Deliver e => mkTailState (tl_fs s) (tl_pulses s) (app (tl_sink s) [e])
  end.
(** Where the next start resumes: the persisted cursor, else the current one. *)
Definition resume_cursor (cursor_path : list string) (now : option string) (s : fsys) : option string :=
  match (cursor_read cursor_path s).1 with Some c => Some c | None => now end.
