(* ===== verification/JournalTheorems.v ===== *)
(** * JournalTheorems: what the journald tail delivers, and what it can be told

    The thread's effects as a function of the journal's lines, its state after
    being killed at any point, the cursor file under failing writes, and the
    source address of a refused login. *)
From stdpp Require Import base gmap strings list.
From Stdlib Require Import ZArith Lia Ascii.
From Stdlib Require String.
From S2P Require Import Prelude Str Text Scan Schema Net Fs Utf8 Bytes Policy Journal.
#[local] Open Scope string_scope.
#[local] Open Scope Z_scope.

(** ** The lines *)

Section Lines.
Context (from_str : string -> option Value).

(** The classified records of the lines before the first one that ends the stream. *)
Fixpoint classified (lines : list (result string unit)) : list (JournalRecord * JournalEvent) :=
  match lines with
  | [] | Err _ :: _ => []
  | Ok line :: lines =>
      if str_is_empty (trim line) then classified lines
      else match parse_record from_str line with
           | Ok record => match classify record with Some event => (record, event) :: classified lines | None => classified lines end
           | Err (MissingField _) => classified lines
           | Err _ => []
           end
  end.
(** Whether such a line exists. *)
Fixpoint broken_off (lines : list (result string unit)) : bool :=
  match lines with
  | [] => false
  | Err _ :: _ => true
  | Ok line :: lines =>
      if str_is_empty (trim line) then broken_off lines
      else match parse_record from_str line with Ok _ | Err (MissingField _) => broken_off lines | Err _ => true end
  end.

Lemma next_spec lines :
  match next from_str lines with
  | None => classified lines = [] /\ broken_off lines = false
  | Some (Err _, _) => classified lines = [] /\ broken_off lines = true
  | Some (Ok item, rest) =>
      classified lines = item :: classified rest /\ broken_off lines = broken_off rest /\ (length rest < length lines)%nat
  end.
Proof.
  induction lines as [|[line|e] lines IH]; [done| |done]. cbn [next classified broken_off].
  assert (forall A : Prop, (match next from_str lines with
     | None => classified lines = [] /\ broken_off lines = false
     | Some (Err _, _) => classified lines = [] /\ broken_off lines = true
     | Some (Ok item, rest) => classified lines = item :: classified rest /\ broken_off lines = broken_off rest /\ (length rest < S (length lines))%nat
     end -> A) -> A) as Hnext.
  { intros A HA. apply HA. destruct (next from_str lines) as [[[item|err] rest]|]; [|done|done]. naive_solver lia. }
  destruct (str_is_empty (trim line)); [by apply Hnext|].
  destruct (parse_record from_str line) as [r|[]]; [|done|by apply Hnext|done|done].
  destruct (classify r) as [ev|]; [|by apply Hnext]. simpl. split_and!; [done|done|lia].
Qed.

(** What the thread does for the items, in order. *)
Fixpoint item_ops (t : UnitPersistenceTracker) (items : list (JournalRecord * JournalEvent)) : list TailOp :=
  match items with
  | [] => []
  | (record, event) :: items =>
      let '(es, t) := item_events t record event in
      (Pulse :: Persist (jr_cursor record) :: map Deliver es ++ item_ops t items)%list
  end.

Lemma tail_loop_ops fuel lines t :
  (length lines <= fuel)%nat ->
  tail_loop from_str fuel lines t = Ran (item_ops t (classified lines) ++ if broken_off lines then [Pulse] else [])%list.
Proof.
  revert lines t. induction fuel as [|fuel IH]; intros lines t Hf; cbn [tail_loop]; pose proof (next_spec lines) as Hn;
    destruct (next from_str lines) as [[[[r e]|err] rest]|]; destruct Hn as [-> Hn]; cbn [item_ops].
  - destruct Hn as [_ Hn]. lia.
  - by rewrite Hn.
  - by rewrite Hn.
  - destruct Hn as [-> Hn]. destruct (item_events t r e) as [es t']. rewrite IH by lia. cbn [run_bind]. f_equal.
    cbn [app]. by rewrite <- app_assoc.
  - by rewrite Hn.
  - by rewrite Hn.
Qed.

Lemma journal_tail_ops lines :
  journal_tail from_str lines
  = Ran (item_ops UnitPersistenceTracker_new (classified lines) ++ if broken_off lines then [Pulse] else [])%list.
Proof. by apply tail_loop_ops. Qed.
End Lines.

(** At most one event comes of a record: logins are no unit starts. *)
Lemma item_events_one t r e : (length (item_events t r e).1 <= 1)%nat.
Proof.
  assert (forall (o : option Event), (length (option_list o) <= 1)%nat) as Hone by (intros []; simpl; lia).
  unfold item_events. destruct e as [| | | | |[u|]| |]; cbn [unit_observe];
    try (cbn [fst option_list]; rewrite app_nil_r; apply Hone).
  change (to_auth_event r (UnitStarted (Some u))) with (@None AuthEvent). cbn [fmap option_fmap option_map option_list app].
  destruct (decide (u ∈ seen t)); simpl; lia.
Qed.

(** ** Killed at any point *)

Fixpoint events_of (t : UnitPersistenceTracker) (items : list (JournalRecord * JournalEvent)) : list Event :=
  match items with
  | [] => []
  | (record, event) :: items => let '(es, t) := item_events t record event in (es ++ events_of t items)%list
  end.

(** What a file at [p] would give the next start. *)
Definition persisted (p : list string) (s : fsys) : option string :=
  match nodes s !! p with Some (NFile b) => cursor_text b | _ => None end.
Definition plain_cursor (c : string) : Prop := cursor_text (bytes_of_str c) = Some c.

Lemma cursor_tmp_ne p :
  p <> [] -> cursor_tmp p <> p /\ parent (cursor_tmp p) = parent p /\ length (cursor_tmp p) = length p /\ (length (parent p) < length p)%nat.
Proof.
  intros Hp. destruct (last p) as [name|] eqn:E; [|by apply last_None in E].
  apply last_Some in E as [l ->]. unfold cursor_tmp, on_file_name, parent. rewrite last_snoc, !removelast_last, !length_app.
  split_and!; [|done|done|simpl; lia].
  intros [_ [= H]]%app_inj_2; [|done]. apply (f_equal String.length) in H. unfold cat in H. cbn in H. rewrite str_app_length in H. simpl in H. lia.
Qed.

Lemma cursor_write_either p c s :
  p <> [] -> plain_cursor c ->
  persisted p (cursor_write p c s) = Some c \/ persisted p (cursor_write p c s) = persisted p s.
Proof.
  intros Hp Hc. destruct (cursor_tmp_ne p Hp) as (Hne & _). unfold cursor_write.
  destruct (fs_write (cursor_tmp p) (bytes_of_str c) s) as [r s1] eqn:Ew.
  apply fs_write_inv in Ew as [[-> Hn]|(e & -> & Hn)].
  - destruct (fs_rename (cursor_tmp p) p s1) as [r2 s2] eqn:Er. cbn [snd].
    apply (fs_rename_leaf_inv _ _ _ _ _ (NFile (bytes_of_str c))) in Er; [|by rewrite Hn, lookup_insert_eq|done|done].
    unfold persisted. destruct Er as [[_ ->]|(e & _ & ->)].
    + left. by rewrite lookup_insert_eq.
    + right. by rewrite Hn, lookup_insert_ne.
  - right. unfold persisted. destruct Hn as [->|[n ->]]; [done|]. by rewrite lookup_insert_ne.
Qed.

(** A directory in which nothing stands in the way and no call fails. *)
Definition fs_ready (p : list string) (s : fsys) : Prop :=
  faults s = [] /\ is_dir (parent p) (nodes s) = true
  /\ nodes s !! p <> Some NDir /\ nodes s !! cursor_tmp p <> Some NDir.

Lemma cursor_write_ready p c s :
  p <> [] -> plain_cursor c -> fs_ready p s ->
  persisted p (cursor_write p c s) = Some c /\ fs_ready p (cursor_write p c s).
Proof.
  intros Hp Hc (Hf & Hd & Hnp & Hnt). destruct (cursor_tmp_ne p Hp) as (Hne & Hpar & Hlen & Hshort). unfold cursor_write.
  set (m1 := <[cursor_tmp p := NFile (bytes_of_str c)]> (nodes s)).
  assert (fs_write (cursor_tmp p) (bytes_of_str c) s = (Ok tt, mkFs m1 [])) as ->.
  { unfold fs_write, syscall, next_fault. rewrite Hf. unfold can_create. rewrite Hpar, Hd, <- Hf. by destruct (nodes s !! cursor_tmp p) as [[]|]. }
  assert (is_dir (parent p) m1 = true) as Hd1.
  { unfold is_dir, m1. rewrite lookup_insert_ne; [done|]. intros E. apply (f_equal length) in E. lia. }
  assert (fs_rename (cursor_tmp p) p (mkFs m1 []) = (Ok tt, mkFs (<[p := NFile (bytes_of_str c)]> (delete (cursor_tmp p) m1)) [])) as ->.
  { unfold fs_rename, syscall, next_fault. cbn [faults nodes]. rewrite decide_False by done.
    rewrite decide_False; [|intros [[k E]|[k E]]; assert (k = []) as -> by (apply nil_length_inv; apply (f_equal length) in E; rewrite length_app in E; lia);
                            rewrite app_nil_r in E; congruence].
    unfold can_create. rewrite Hd1. cbn [negb].
    assert (m1 !! cursor_tmp p = Some (NFile (bytes_of_str c))) as -> by apply lookup_insert_eq.
    assert (m1 !! p = nodes s !! p) as -> by (by apply lookup_insert_ne).
    by destruct (nodes s !! p) as [[]|]. }
  unfold persisted, fs_ready. cbn [snd nodes faults]. rewrite lookup_insert_eq. split_and!; try done.
  - unfold is_dir. rewrite lookup_insert_ne, lookup_delete_ne; [done| |]; intros E; apply (f_equal length) in E; lia.
  - rewrite lookup_insert_ne, lookup_delete_eq; done.
Qed.

(** The cursor a start would find once the first [j] items' cursors were written. *)
Definition resume_at (p : list string) (s : fsys) (items : list (JournalRecord * JournalEvent)) (j : nat) : option string :=
  match j with O => persisted p s | S i => (fun it => jr_cursor it.1) <$> items !! i end.

(** After [st]: [k] items delivered, the cursor of the [j]th persisted. *)
Definition reached (p : list string) (t : UnitPersistenceTracker) (items : list (JournalRecord * JournalEvent))
    (st0 st : TailState) (k j : nat) : Prop :=
  (k <= length items)%nat /\ (j <= S k)%nat
  /\ tl_sink st = (tl_sink st0 ++ events_of t (take k items))%list
  /\ persisted p (tl_fs st) = resume_at p (tl_fs st0) items j
  /\ (fs_ready p (tl_fs st0) -> (k <= j)%nat).

Lemma pulses_only p st (ops : list TailOp) :
  Forall (eq Pulse) ops -> tl_sink (foldl (perform p) st ops) = tl_sink st /\ tl_fs (foldl (perform p) st ops) = tl_fs st.
Proof.
  intros H. revert st. induction H as [|op ops <- _ IH]; intros st; [done|]. cbn [foldl]. destruct (IH (perform p st Pulse)) as [-> ->]. done.
Qed.

Lemma deliver_all p st es : foldl (perform p) st (map Deliver es) = mkTailState (tl_fs st) (tl_pulses st) (tl_sink st ++ es)%list.
Proof.
  revert st. induction es as [|e es IH]; intros st; simpl; [rewrite app_nil_r; by destruct st|]. rewrite IH. simpl. by rewrite <- app_assoc.
Qed.

Lemma reached_step p t t' r e es items st0 st1 st k j :
  p <> [] -> plain_cursor (jr_cursor r) -> item_events t r e = (es, t') ->
  st1 = mkTailState (cursor_write p (jr_cursor r) (tl_fs st0)) (tl_pulses st0 + 1) (tl_sink st0 ++ es)%list ->
  reached p t' items st1 st k j -> exists j', reached p t ((r, e) :: items) st0 st (S k) j'.
Proof.
  intros Hp Hc Hes -> (Hk & Hj & Hsink & Hcur & Hready). cbn [tl_fs tl_sink] in *.
  assert (tl_sink st = (tl_sink st0 ++ events_of t (take (S k) ((r, e) :: items)))%list) as Hs.
  { cbn [take events_of]. rewrite Hes, Hsink. by rewrite <- app_assoc. }
  assert (fs_ready p (tl_fs st0) -> persisted p (cursor_write p (jr_cursor r) (tl_fs st0)) = Some (jr_cursor r) /\ (k <= j)%nat) as Hok.
  { intros H. destruct (cursor_write_ready p (jr_cursor r) (tl_fs st0) Hp Hc H) as [? H2]. auto. }
  destruct j as [|i].
  - cbn [resume_at] in Hcur. destruct (decide (persisted p (cursor_write p (jr_cursor r) (tl_fs st0)) = Some (jr_cursor r))) as [D|D].
    + exists 1%nat. rewrite D in Hcur. split_and!; [simpl; lia|lia|done|done|]. intros [_ ?]%Hok. lia.
    + exists 0%nat. destruct (cursor_write_either p (jr_cursor r) (tl_fs st0) Hp Hc) as [?|E]; [done|]. rewrite E in Hcur.
      split_and!; [simpl; lia|lia|done|done|]. by intros [? _]%Hok.
  - exists (S (S i)). split_and!; [simpl; lia|lia|done|done|]. intros [_ ?]%Hok. lia.
Qed.

Lemma killed_items p t items rest n st0 :
  p <> [] -> Forall (fun it => plain_cursor (jr_cursor it.1)) items -> Forall (eq Pulse) rest ->
  exists k j, reached p t items st0 (foldl (perform p) st0 (take n (item_ops t items ++ rest)%list)) k j
              /\ (length (item_ops t items ++ rest)%list <= n -> k = length items)%nat.
Proof.
  intros Hp Hc Hrest. revert t n st0. induction items as [|[r e] items IH]; intros t n st0.
  - exists 0%nat, 0%nat. split; [|done]. cbn [item_ops app].
    destruct (pulses_only p st0 (take n rest)) as [E1 E2]; [by apply Forall_take|].
    unfold reached. rewrite E1, E2. split_and!; [done|lia|by rewrite app_nil_r|done|done].
  - apply Forall_cons in Hc as [Hcr Hc]. cbn [fst] in Hcr. cbn [item_ops]. destruct (item_events t r e) as [es t'] eqn:Ees.
    set (more := (item_ops t' items ++ rest)%list).
    assert (length es <= 1)%nat as Hone by (pose proof (item_events_one t r e) as H; by rewrite Ees in H).
    assert (forall st, tl_sink st = tl_sink st0 -> tl_fs st = tl_fs st0 -> reached p t ((r, e) :: items) st0 st 0 0) as Hstay.
    { intros st E1 E2. unfold reached. rewrite E1, E2. split_and!; [simpl; lia|lia|by rewrite app_nil_r|done|done]. }
    destruct n as [|[|n]].
    { exists 0%nat, 0%nat. split; [by apply Hstay|simpl; lia]. }
    { exists 0%nat, 0%nat. split; [by apply Hstay|simpl; lia]. }
    change ((Pulse :: Persist (jr_cursor r) :: map Deliver es ++ item_ops t' items)%list ++ rest)%list
      with (Pulse :: Persist (jr_cursor r) :: ((map Deliver es ++ item_ops t' items)%list ++ rest)%list).
    rewrite <- app_assoc. fold more. cbn [take foldl]. set (st1 := perform p (perform p st0 Pulse) (Persist (jr_cursor r))).
    destruct (decide (length es <= n)%nat) as [Hn|Hn].
    + rewrite take_app, take_ge, length_map by (by rewrite length_map). rewrite foldl_app, deliver_all.
      destruct (IH Hc t' (n - length es)%nat (mkTailState (tl_fs st1) (tl_pulses st1) (tl_sink st1 ++ es)%list)) as (k & j & Hr & Hall).
      destruct (reached_step p t t' r e es items st0 _ _ k j Hp Hcr Ees eq_refl Hr) as [j' Hr'].
      exists (S k), j'. split; [exact Hr'|]. cbn [length]. rewrite length_app, length_map. intros ?. f_equal. apply Hall. fold more. lia.
    + assert (n = 0%nat) as -> by lia. cbn [take foldl].
      exists 0%nat. rewrite !length_cons, !length_app, length_map.
      destruct (cursor_write_either p (jr_cursor r) (tl_fs st0) Hp Hcr) as [E|E]; [exists 1%nat|exists 0%nat];
        (split; [|lia]); (split_and!; [simpl; lia|lia|by rewrite app_nil_r|exact E|lia]).
Qed.

(** C36. The journald tail killed at any moment: whatever the lines, wherever the
    stream breaks off and whichever writes of the cursor file fail, the thread
    never panics or hangs, the sink has received the events of the first [k]
    classified records before the break, in order and each once, and the cursor a
    restart finds is whole: the one before, or that of a record at most one past
    the delivered ones.  Without failing writes the restart skips at most the one
    record in hand and repeats none, and a thread that ran to the end has delivered
    everything. *)
Theorem journal_killed_anywhere from_str lines p s n :
  p <> [] -> Forall (fun it => plain_cursor (jr_cursor it.1)) (classified from_str lines) ->
  exists ops, journal_tail from_str lines = Ran ops
  /\ exists k j, reached p UnitPersistenceTracker_new (classified from_str lines) (mkTailState s 0 [])
                  (foldl (perform p) (mkTailState s 0 []) (take n ops)) k j
                /\ (length ops <= n -> k = length (classified from_str lines))%nat.
Proof.
  intros Hp Hc. eexists. split; [apply journal_tail_ops|]. apply killed_items; [done|done|].
  destruct (broken_off from_str lines); repeat constructor.
Qed.

Definition demo_json (line : string) : option Value :=
  if String.eqb line "a" then
    Some (JObject [("__CURSOR", JString "s=1;i=4"); ("__REALTIME_TIMESTAMP", JString "9"); ("SYSLOG_IDENTIFIER", JString "sshd");
                   ("_PID", JString "77"); ("_UID", JString "0"); ("_GID", JString "0");
                   ("MESSAGE", JString "Accepted password for alice from 10.0.0.5 port 51000 ssh2")])
  else if String.eqb line "b" then
    Some (JObject [("__CURSOR", JString "s=1;i=5"); ("__REALTIME_TIMESTAMP", JString "10"); ("MESSAGE", JString "started");
                   ("JOB_TYPE", JString "start"); ("JOB_RESULT", JString "done"); ("UNIT", JString "evil.service")])
  else None.
Definition demo_lines : list (result string unit) := [Ok "a"; Ok EmptyString; Ok "b"; Ok "{"; Ok "a"].

Lemma journal_killed_anywhere_witness :
  exists ops, journal_tail demo_json demo_lines = Ran ops
  /\ exists k j, reached ["var"; "cursor"] UnitPersistenceTracker_new (classified demo_json demo_lines) (mkTailState (mkFs ∅ []) 0 [])
                  (foldl (perform ["var"; "cursor"]) (mkTailState (mkFs ∅ []) 0 []) (take 4 ops)) k j
                /\ (length ops <= 4 -> k = length (classified demo_json demo_lines))%nat.
Proof.
  apply (journal_killed_anywhere demo_json demo_lines ["var"; "cursor"] (mkFs ∅ []) 4); [done|].
  repeat constructor.
Defined.

(** ** Refused logins *)

Lemma before_first_marker c p x y :
  str_all (not_byte c) p = true -> str_contains (String c p) x = false -> before_first (String c p) (x +:+ String c p +:+ y) = x.
Proof. intros Hp Hx. unfold before_first. by rewrite split_once_fresh. Qed.

Lemma str_contains_app_l p x y : str_contains p (x +:+ y) = false -> str_contains p x = false.
Proof.
  induction x as [|a x IH]; [by destruct p; destruct y|]. change (String a x +:+ y) with (String a (x +:+ y)).
  cbn [str_contains]. intros [H1 H2]%orb_false_iff. rewrite (IH H2), orb_false_r.
  destruct (starts_with p (String a x)) eqn:E; [|done]. unfold starts_with in *.
  destruct (strip_prefix p (String a x)) as [r|] eqn:E2; [|done]. apply strip_prefix_spec in E2.
  assert (strip_prefix p (String a (x +:+ y)) = Some (r +:+ y)) as E3.
  { apply strip_prefix_spec. change (String a (x +:+ y)) with (String a x +:+ y). by rewrite E2, str_app_assoc. }
  by rewrite E3 in H1.
Qed.

Definition blank_free (s : string) : bool := str_all (not_byte space) s && String.eqb (trim s) s.
Lemma blank_free_spec s : blank_free s = true -> str_all (not_byte space) s = true /\ trim s = s.
Proof. unfold blank_free. by intros [H1 H2%String.eqb_eq]%andb_true_iff. Qed.

(** The first address of the line is the one that counts. *)
Lemma ssh_failed_first v b rest :
  blank_free v = true -> blank_free b = true ->
  ssh_failed (v +:+ " from " +:+ b +:+ " port" +:+ rest) = SshFailed (Some v) (Some b).
Proof.
  intros [Hv Hv']%blank_free_spec [Hb Hb']%blank_free_spec. unfold ssh_failed, extract_before, text_between, before_first.
  assert (split_once " from" (v +:+ " from " +:+ b +:+ " port" +:+ rest) = Some (v, " " +:+ b +:+ " port" +:+ rest)) as ->
    by exact (split_once_first " " "from" v (" " +:+ b +:+ " port" +:+ rest) Hv).
  assert (split_once " from " (v +:+ " from " +:+ b +:+ " port" +:+ rest) = Some (v, b +:+ " port" +:+ rest)) as ->
    by exact (split_once_first " " "from " v (b +:+ " port" +:+ rest) Hv).
  cbn -[trim split_once]. rewrite (split_once_first " " "port" b rest Hb : split_once " port" (b +:+ " port" +:+ rest) = _). by rewrite Hv', Hb'.
Qed.

(** C37. The source address of a refused login is the attacker's to choose: a user
    name of the form [v from b port N] makes the tail report a failure of user [v]
    from the address [b], whatever the address [a] the connection came from. *)
Theorem ssh_source_forged record v b port a rest :
  blank_free v = true -> blank_free b = true ->
  jr_syslog_identifier record = Some "sshd" -> jr_job_type record = None ->
  jr_message record = "Failed password for invalid user " +:+ (v +:+ " from " +:+ b +:+ " port" +:+ port) +:+ " from " +:+ a +:+ " port" +:+ rest ->
  classify record = Some (SshFailed (Some v) (Some b))
  /\ (to_auth_event record (SshFailed (Some v) (Some b)) ≫= auth_source_address) = (reporter_meta record ≫= fun _ => parse_ip b).
Proof.
  intros Hv Hb Hi Hj Hm. split.
  - unfold classify, classify_unit_job. rewrite Hj, Hi, Hm. cbn [mbind option_bind or_else default from_option id String.eqb].
    assert (forall x, classify_sshd ("Failed password for invalid user " +:+ x) = Some (ssh_failed x)) as E by done.
    rewrite E. rewrite !str_app_assoc, ssh_failed_first by done. done.
  - unfold to_auth_event. cbn. by destruct (reporter_meta record).
Qed.
Definition forged_record : JournalRecord :=
  mkJournalRecord "c" 1 None (Some "sshd") (Some "0") (Some "77") (Some "0")
    "Failed password for invalid user x from 192.0.2.1 port 22 from 10.6.6.6 port 50000 ssh2" None None None.
Lemma ssh_source_forged_witness :
  classify forged_record = Some (SshFailed (Some "x") (Some "192.0.2.1"))
  /\ (to_auth_event forged_record (SshFailed (Some "x") (Some "192.0.2.1")) ≫= auth_source_address) = parse_ip "192.0.2.1".
Proof. apply (ssh_source_forged forged_record "x" "192.0.2.1" " 22" "10.6.6.6" " 50000 ssh2"); reflexivity. Defined.

(** The same through a working directory: [sudo] logs it before the real target. *)
Lemma sudo_target_forged :
  classify_sudo_command "   eve : TTY=pts/0 ; PWD=/tmp/USER=nobody ; USER=root ; COMMAND=/bin/sh"
  = Some (SudoCommand (Some "eve") (Some "nobody") (Some "/bin/sh")).
Proof. vm_compute. reflexivity. Qed.

(** A PAM session line counts whoever wrote it: no identifier is asked for. *)
Lemma pam_session_any_writer record who :
  jr_job_type record = None -> jr_syslog_identifier record = Some who ->
  String.eqb who "sshd" = false -> String.eqb who "sshd-session" = false -> String.eqb who "sudo" = false ->
  jr_message record = "pam_unix(su:session): session opened for user root(uid=0) by eve(uid=1000)" ->
  classify record = Some (PamSessionOpened "su" (Some "root")).
Proof. intros Hj Hi H1 H2 H3 Hm. unfold classify, classify_unit_job. rewrite Hj, Hi, Hm. cbn -[classify_pam_session]. by rewrite H1, H2, H3. Qed.
