(* ===== verification/LdTrust.v ===== *)
(** * LdTrust: the dynamic linker's trust set (src/crates/rules/src/ld_trust.rs)

    [ld.so.conf] parsing, the walk over its includes and the wildcard matcher.
    The file system enters as the two closures of the source: [read] and [list].
    A path is the list of its components: [Path] compares, hashes and sorts by
    components. *)
From stdpp Require Import base gmap strings list.
From Stdlib Require Import ZArith Lia Ascii.
From Stdlib Require String.
From S2P Require Import Prelude Order Str Text.
#[local] Open Scope nat_scope.

Definition LD_TRUST_PREFIXES : list string := ["/lib/"; "/lib64/"; "/usr/lib/"; "/usr/lib64/"; "/usr/local/lib/"].
Definition NEVER_TRUSTED : list string := ["/tmp/"; "/var/tmp/"; "/dev/shm/"].
Definition MAX_INCLUDE_DEPTH : nat := 8.
Definition LD_SO_CONF : string := "/etc/ld.so.conf".

Definition entry_trusted (extra : list string) (p : string) : bool :=
  negb (starts_with "/" p)
  || existsb (fun prefix => starts_with prefix p) LD_TRUST_PREFIXES
  || existsb (fun dir => starts_with dir p) extra.

Definition all_paths_trusted (value : string) (extra : list string) : bool :=
  forallb (entry_trusted extra) (List.filter (fun p => negb (str_is_empty p)) (str_split ":"%char value)).

Inductive LdConfEntry := Dir (d : string) | Include (pattern : string).

Definition first_piece (c : ascii) (s : string) : string := default EmptyString (head (str_split c s)).

Definition dir_separator (c : string) : bool :=
  char_is_whitespace c || String.eqb c "," || String.eqb c ":".

Definition parse_line (raw : string) : list LdConfEntry :=
  let line := trim (first_piece "#"%char raw) in
  if str_is_empty line then []
  else
    let words := split_whitespace line in
    let dirs := omap (fun dir => let dir := trim (first_piece "="%char dir) in
                                 if str_is_empty dir then None else Some (Dir dir))
                  (split_matches dir_separator line) in
    match words with
    | w :: rest => if String.eqb w "include" then Include <$> rest
                   else if String.eqb w "hwcap" then [] else dirs
    | [] => dirs
    end.

Definition parse_ld_so_conf (text : string) : list LdConfEntry := mjoin (parse_line <$> str_lines text).

(** ** Wildcards *)

Definition star_char : ascii := "*"%char.
Definition qmark_char : ascii := "?"%char.

(** The [while] loop on the indices [p], [t] and the last star; [None] is out
    of fuel. *)
Fixpoint wildcard_loop (fuel : nat) (pattern text : list ascii) (p t : nat) (star : option (nat * nat))
    : option bool :=
  match fuel with
  | O => None
  | S fuel =>
      match text !! t with
      | None => Some (forallb (Ascii.eqb star_char) (drop p pattern))
      | Some x =>
          let backtrack :=
            match star with
            | Some (sp, st) => wildcard_loop fuel pattern text (sp + 1) (st + 1) (Some (sp, st + 1))
            | None => Some false
            end in
          match pattern !! p with
          | Some c =>
              if Ascii.eqb c qmark_char || Ascii.eqb c x
              then wildcard_loop fuel pattern text (p + 1) (t + 1) star
              else if Ascii.eqb c star_char
              then wildcard_loop fuel pattern text (p + 1) t (Some (p, t))
              else backtrack
          | None => backtrack
          end
      end
  end.

(** Iterations that always suffice. *)
Definition wildcard_fuel (pattern text : list ascii) : nat :=
  (length pattern + length text + 2) * (length text + 1).

Definition wildcard_match (pattern text : list ascii) : option bool :=
  wildcard_loop (wildcard_fuel pattern text) pattern text 0 0 None.

(** ** The walk *)

Definition lpath : Type := list string.

Definition components (s : string) : lpath :=
  List.filter (fun c => negb (str_is_empty c) && negb (String.eqb c ".")) (str_split slash s).

Definition file_name (p : lpath) : option string :=
  match last p with Some n => if String.eqb n ".." then None else Some n | None => None end.

Definition join (base : lpath) (s : string) : lpath :=
  if starts_with "/" s then components s else base ++ components s.

Definition has_wildcard (name : string) : bool :=
  str_any (fun a => Ascii.eqb a star_char || Ascii.eqb a qmark_char) name.

Definition glob_hit (name : string) (q : lpath) : bool :=
  match file_name q with
  | Some n => bool_decide (wildcard_match (String.list_ascii_of_string name) (String.list_ascii_of_string n)
                           = Some true)
  | None => false
  end.

Definition expand_glob (pattern : lpath) (list_dir : lpath -> list lpath) : list lpath :=
  match file_name pattern with
  | None => []
  | Some name =>
      if negb (has_wildcard name) then [pattern]
      else List.filter (glob_hit name) (list_dir (removelast pattern))
  end.

Definition is_slash_char (c : string) : bool := String.eqb c "/".

Definition trust_prefix (dir : string) : option string :=
  if negb (starts_with "/" dir) then None
  else
    let prefix := (trim_end_matches is_slash_char dir +:+ "/")%string in
    if existsb (fun bad => starts_with bad prefix) NEVER_TRUSTED then None else Some prefix.

Record WalkState := mkWalk { seen_files : gset lpath; dirs : list string }.

(** [seen_dirs] holds exactly the directories pushed to [dirs]. *)
Definition add_dir (dir : string) (s : WalkState) : WalkState :=
  match trust_prefix dir with
  | Some prefix => if bool_decide (prefix ∈ dirs s) then s else mkWalk (seen_files s) (dirs s ++ [prefix])
  | None => s
  end.

Section Walk.
Variable read : lpath -> option string.
Variable list_dir : lpath -> list lpath.

(** [room] is how many levels remain: [MAX_INCLUDE_DEPTH + 1 - depth]. *)
Fixpoint walk (room : nat) (file : lpath) (s : WalkState) : WalkState :=
  match room with
  | O => s
  | S room =>
      if bool_decide (file ∈ seen_files s) then s
      else
        let s := mkWalk ({[file]} ∪ seen_files s) (dirs s) in
        match read file with
        | None => s
        | Some text =>
            let base := removelast file in
            foldl (fun s entry =>
                     match entry with
                     | Dir dir => add_dir dir s
                     | Include pattern =>
                         foldl (fun s included => walk room included s) s
                           (cmp_sort (expand_glob (join base pattern) list_dir))
                     end) s (parse_ld_so_conf text)
        end
  end.

Definition collect_ld_dirs (root : lpath) : list string :=
  dirs (walk (MAX_INCLUDE_DEPTH + 1) root (mkWalk ∅ [])).
End Walk.

(** ** The wildcard matcher *)

(** What a pattern means: [?] one character, [*] any run of characters. *)
Inductive Glob : list ascii -> list ascii -> Prop :=
| Glob_nil : Glob [] []
| Glob_char c x p t : c <> star_char -> c = qmark_char \/ c = x -> Glob p t -> Glob (c :: p) (x :: t)
| Glob_star_skip p t : Glob p t -> Glob (star_char :: p) t
| Glob_star_take p x t : Glob (star_char :: p) t -> Glob (star_char :: p) (x :: t).
#[local] Hint Constructors Glob : ld.

Definition star_free (p : list ascii) : Prop := Forall (fun c => c <> star_char) p.

Lemma glob_nil_r p : Glob p [] <-> forallb (Ascii.eqb star_char) p = true.
Proof.
  induction p as [|c p IH]; [split; [done|constructor]|]. cbn [forallb]. rewrite andb_true_iff, Ascii.eqb_eq, <- IH.
  split; [inversion 1; subst; auto|]. intros [<- H]. by constructor.
Qed.

Lemma glob_cons c p x t :
  c <> star_char -> Glob (c :: p) (x :: t) <-> (c = qmark_char \/ c = x) /\ Glob p t.
Proof. intros Hc. split; [inversion 1; subst; done|]. intros [H1 H2]. by constructor. Qed.

Lemma glob_star p x t : Glob (star_char :: p) (x :: t) <-> Glob p (x :: t) \/ Glob (star_char :: p) t.
Proof. split; [inversion 1; subst; auto; done|]. intros [H|H]; [by apply Glob_star_skip|by apply Glob_star_take]. Qed.

Lemma glob_star_grow p u t : Glob (star_char :: p) t -> Glob (star_char :: p) (u ++ t).
Proof. intros H. induction u as [|x u IH]; [done|]. simpl. by apply Glob_star_take. Qed.

(** Literal characters consume exactly their number of characters. *)
Lemma glob_literal l p t :
  star_free l -> Glob (l ++ p) t -> length l <= length t /\ Glob p (drop (length l) t).
Proof.
  intros Hl. revert t. induction Hl as [|c l Hc Hl IH]; intros t H; [split; [simpl; lia|done]|].
  inversion H; subst; try done. edestruct IH as [? ?]; [eassumption|]. simpl. split; [lia|done].
Qed.

Lemma glob_star_literal l p t :
  star_free l -> Glob (star_char :: l ++ p) t ->
  exists u v, t = u ++ v /\ length l <= length v /\ Glob p (drop (length l) v).
Proof.
  intros Hl H. remember (star_char :: l ++ p) as q eqn:Eq. revert Eq.
  induction H as [|c x p' t Hc Hx H IH|p' t H IH|p' x t H IH]; intros Eq; try done.
  - injection Eq as -> Eq. done.
  - injection Eq as ->. exists [], t. split; [done|]. by apply glob_literal.
  - destruct (IH Eq) as (u & v & -> & H1). by exists (x :: u), v.
Qed.

(** A later star subsumes an earlier one once the characters between them have
    been matched. *)
Lemma earlier_star_subsumed l p text st :
  star_free l -> Glob (star_char :: l ++ star_char :: p) (drop (st + 1) text) ->
  Glob (star_char :: p) (drop (st + length l) text).
Proof.
  intros Hl H. destruct (glob_star_literal l _ _ Hl H) as (u & v & Hv & Hlen & Hp).
  assert (drop (length l) v = drop (1 + length u) (drop (st + length l) text)) as E.
  { assert (v = drop (st + 1 + length u) text) as ->.
    { rewrite <- drop_drop, Hv, drop_app_length. done. }
    rewrite !drop_drop. f_equal. lia. }
  rewrite E in Hp. set (w := drop (st + length l) text) in *.
  rewrite <- (take_drop (1 + length u) w). by apply glob_star_grow.
Qed.

(** The loop's invariant and what it decides: the remaining pattern matches the
    remaining text, or the last star can take more. *)
Definition star_inv (pattern text : list ascii) (p t : nat) (star : option (nat * nat)) : Prop :=
  match star with
  | None => True
  | Some (sp, st) =>
      exists l, drop sp pattern = star_char :: l ++ drop p pattern /\ star_free l /\ t = st + length l
                /\ p = sp + 1 + length l
  end.

Definition loop_goal (pattern text : list ascii) (p t : nat) (star : option (nat * nat)) : Prop :=
  Glob (drop p pattern) (drop t text) \/
  match star with
  | None => False
  | Some (sp, st) => Glob (drop sp pattern) (drop (st + 1) text)
  end.

Lemma drop_lookup {A} (l : list A) i x : l !! i = Some x -> drop i l = x :: drop (S i) l.
Proof. intros H. by rewrite (drop_S l x i H). Qed.

(** The loop's measure. *)
Definition loop_measure (pattern text : list ascii) (t : nat) (star : option (nat * nat)) : nat :=
  (length pattern + length text + 1 - match star with Some (sp, st) => sp + 1 + st | None => 0 end)
    * (length text + 1) + (length text - t).

Definition loop_bounds (pattern text : list ascii) (p t : nat) (star : option (nat * nat)) : Prop :=
  p <= length pattern /\ t <= length text /\
  match star with Some (sp, st) => sp < length pattern /\ st <= t /\ sp < p | None => True end.

Section Steps.
Variables pattern text : list ascii.
Hypothesis text_literal : star_free text.
#[local] Notation goal := (loop_goal pattern text).
#[local] Notation inv := (star_inv pattern text).
#[local] Notation bounds := (loop_bounds pattern text).
#[local] Notation measure := (loop_measure pattern text).

(** Each way round the loop stays in bounds and decreases the measure. *)
Lemma step_match p t star :
  bounds p t star -> t < length text -> p < length pattern ->
  bounds (p + 1) (t + 1) star /\ measure (t + 1) star < measure t star.
Proof.
  unfold loop_bounds, loop_measure. intros (Hp & Ht & Hs) Hlt Hlp. destruct star as [[sp st]|]; split_and!; lia.
Qed.

Lemma step_star p t star :
  bounds p t star -> t < length text -> p < length pattern ->
  bounds (p + 1) t (Some (p, t)) /\ measure t (Some (p, t)) < measure t star.
Proof.
  unfold loop_bounds, loop_measure. intros (Hp & Ht & Hs) Hlt Hlp. split_and!; [lia..|].
  apply Nat.add_lt_mono_r, Nat.mul_lt_mono_pos_r; [lia|]. destruct star as [[sp st]|]; lia.
Qed.

Lemma step_back p t sp st :
  bounds p t (Some (sp, st)) -> t < length text ->
  bounds (sp + 1) (st + 1) (Some (sp, st + 1)) /\
  measure (st + 1) (Some (sp, st + 1)) < measure t (Some (sp, st)).
Proof.
  unfold loop_bounds, loop_measure. intros (Hp & Ht & Hs & Hst & Hsp) Hlt. split_and!; [lia..|].
  set (m := length text) in *. set (n := length pattern) in *.
  assert (exists k, n + m + 1 - (sp + 1 + st) = S k /\ n + m + 1 - (sp + 1 + (st + 1)) = k) as (k & -> & ->).
  { exists (n + m + 1 - (sp + 1 + (st + 1))). lia. }
  simpl. lia.
Qed.

Lemma wildcard_loop_total fuel p t star :
  bounds p t star -> measure t star < fuel -> exists b, wildcard_loop fuel pattern text p t star = Some b.
Proof.
  revert p t star. induction fuel as [|fuel IH]; intros p t star Hb Hm; [lia|].
  cbn [wildcard_loop]. destruct (text !! t) as [x|] eqn:Ex; [|by eexists].
  pose proof (lookup_lt_Some _ _ _ Ex) as Hlt.
  assert (exists b, match star with
    | Some (sp, st) => wildcard_loop fuel pattern text (sp + 1) (st + 1) (Some (sp, st + 1))
    | None => Some false
    end = Some b) as Hback.
  { destruct star as [[sp st]|]; [|by eexists]. destruct (step_back p t sp st Hb Hlt). apply IH; [done|lia]. }
  destruct (pattern !! p) as [c|] eqn:Ec; [|done]. pose proof (lookup_lt_Some _ _ _ Ec) as Hlp.
  destruct (_ || _); [destruct (step_match p t star Hb Hlt Hlp); apply IH; [done|lia]|].
  destruct (Ascii.eqb c star_char); [|done].
  destruct (step_star p t star Hb Hlt Hlp). apply IH; [done|lia].
Qed.

Lemma goal_end p t star :
  bounds p t star -> inv p t star -> text !! t = None ->
  forallb (Ascii.eqb star_char) (drop p pattern) = true <-> goal p t star.
Proof.
  intros (_ & Ht & _) Hinv Ex. apply lookup_ge_None in Ex. unfold loop_goal.
  rewrite <- glob_nil_r, (drop_ge text t) by done.
  split; [auto|]. intros [H|H]; [done|]. destruct star as [[sp st]|]; [|done].
  destruct Hinv as (l & Hl & Hf & -> & ->). rewrite Hl in H.
  destruct (glob_star_literal l _ _ Hf H) as (u & v & Hv & Hlen & Hp).
  apply (f_equal length) in Hv. rewrite length_drop, length_app in Hv.
  assert (v = []) as -> by (apply nil_length_inv; lia). by rewrite drop_nil in Hp.
Qed.

Lemma goal_match p t star c x :
  bounds p t star -> inv p t star -> text !! t = Some x -> pattern !! p = Some c ->
  c = qmark_char \/ c = x -> c <> star_char ->
  (goal p t star <-> goal (p + 1) (t + 1) star) /\ inv (p + 1) (t + 1) star.
Proof.
  intros (Hp & Ht & Hs) Hinv Ex Ec Hcx Hc.
  pose proof (lookup_lt_Some _ _ _ Ex) as Hlt. pose proof (lookup_lt_Some _ _ _ Ec) as Hlp.
  unfold loop_goal. rewrite (drop_lookup _ _ _ Ex), (drop_lookup _ _ _ Ec), glob_cons by done.
  rewrite !Nat.add_1_r. split; [tauto|].
  destruct star as [[sp st]|]; [|done]. destruct Hinv as (l & Hl & Hf & -> & ->).
  exists (l ++ [c]). rewrite Hl, (drop_lookup _ _ _ Ec), <- app_assoc, length_app. simpl.
  split_and!; [done| |lia|lia]. apply Forall_app. split; [done|]. by constructor.
Qed.

Lemma goal_star p t star x :
  bounds p t star -> inv p t star -> text !! t = Some x -> pattern !! p = Some star_char ->
  (goal p t star <-> goal (p + 1) t (Some (p, t))) /\ inv (p + 1) t (Some (p, t)).
Proof.
  intros (Hp & Ht & Hs) Hinv Ex Ec.
  pose proof (lookup_lt_Some _ _ _ Ex) as Hlt. pose proof (lookup_lt_Some _ _ _ Ec) as Hlp.
  unfold loop_goal. rewrite !Nat.add_1_r. split.
  - rewrite (drop_lookup _ _ _ Ec), (drop_lookup _ _ _ Ex), glob_star. split; [|tauto].
    intros [H|H]; [done|]. destruct star as [[sp st]|]; [|done].
    destruct Hinv as (l & Hl & Hf & -> & ->). rewrite Hl, (drop_lookup _ _ _ Ec) in H.
    apply earlier_star_subsumed in H; [|done].
    by rewrite (drop_lookup _ _ _ Ex), glob_star in H.
  - exists []. rewrite (drop_lookup _ _ _ Ec). simpl. split_and!; [done|constructor|lia|lia].
Qed.

Lemma goal_back p t sp st :
  bounds p t (Some (sp, st)) -> inv p t (Some (sp, st)) -> t < length text ->
  ~ Glob (drop p pattern) (drop t text) ->
  (goal p t (Some (sp, st)) <-> goal (sp + 1) (st + 1) (Some (sp, st + 1))) /\
  inv (sp + 1) (st + 1) (Some (sp, st + 1)).
Proof.
  intros (Hp & Ht & Hs & Hst & Hsp) (l & Hl & Hf & -> & ->) Hlt Hno.
  assert (drop sp pattern = star_char :: drop (sp + 1) pattern) as Hd.
  { destruct (lookup_lt_is_Some_2 pattern sp) as [c Ec]; [lia|].
    rewrite (drop_lookup _ _ _ Ec) in Hl |- *. injection Hl as -> _. by rewrite Nat.add_1_r. }
  unfold loop_goal. split.
  - rewrite Hd. destruct (text !! (st + 1)) as [y|] eqn:Ey.
    + rewrite (drop_lookup _ _ _ Ey), glob_star. rewrite (Nat.add_1_r (st + 1)). tauto.
    + apply lookup_ge_None in Ey. rewrite (drop_ge text (st + 1)), (drop_ge text (st + 1 + 1)) by lia.
      split; [tauto|]. intros [H|H]; right; [by apply Glob_star_skip|done].
  - exists []. rewrite Hd. simpl. split_and!; [done|constructor|lia|lia].
Qed.

(** The loop decides its goal, with any fuel above the measure. *)
Lemma wildcard_loop_correct fuel p t star :
  bounds p t star -> inv p t star -> measure t star < fuel ->
  exists b, wildcard_loop fuel pattern text p t star = Some b /\ (b = true <-> goal p t star).
Proof.
  revert p t star. induction fuel as [|fuel IH]; intros p t star Hb Hinv Hm; [lia|].
  cbn [wildcard_loop]. destruct (text !! t) as [x|] eqn:Ex.
  2: { eexists. split; [done|]. by apply goal_end. }
  pose proof (lookup_lt_Some _ _ _ Ex) as Hlt.
  assert (forall p' t' star', (goal p t star <-> goal p' t' star') /\ inv p' t' star' ->
    bounds p' t' star' /\ measure t' star' < measure t star ->
    exists b, wildcard_loop fuel pattern text p' t' star' = Some b /\ (b = true <-> goal p t star)) as Hcont.
  { intros p' t' star' [H1 H2] [H3 H4]. destruct (IH p' t' star') as (b & Hr & Hg); [done|done|lia|].
    exists b. split; [done|]. by rewrite H1. }
  assert (forall b, b = None \/ (exists c, b = Some c /\ c <> star_char /\ ~ (c = qmark_char \/ c = x)) ->
    pattern !! p = b ->
    exists b, match star with
      | Some (sp, st) => wildcard_loop fuel pattern text (sp + 1) (st + 1) (Some (sp, st + 1))
      | None => Some false
      end = Some b /\ (b = true <-> goal p t star)) as Hback.
  { intros b Hcase Eb. assert (~ Glob (drop p pattern) (drop t text)) as Hno.
    { rewrite (drop_lookup _ _ _ Ex). destruct Hcase as [->|(c & -> & Hc & Hcx)].
      - apply lookup_ge_None in Eb. rewrite drop_ge by done. inversion 1.
      - rewrite (drop_lookup _ _ _ Eb), glob_cons by done. tauto. }
    destruct star as [[sp st]|]; [|exists false; unfold loop_goal; naive_solver].
    apply Hcont; [by apply goal_back|by apply (step_back p)]. }
  destruct (pattern !! p) as [c|] eqn:Ec; [|apply (Hback None); auto].
  pose proof (lookup_lt_Some _ _ _ Ec) as Hlp.
  destruct (Ascii.eqb c qmark_char || Ascii.eqb c x) eqn:E.
  - apply orb_true_iff in E. rewrite !Ascii.eqb_eq in E.
    assert (c <> star_char) as Hc.
    { destruct E as [->| ->]; [done|]. apply list_elem_of_lookup_2 in Ex.
      by apply (proj1 (Forall_forall _ _) text_literal). }
    apply Hcont; [by eapply goal_match|by apply (step_match p)].
  - apply orb_false_iff in E. rewrite !Ascii.eqb_neq in E. destruct (Ascii.eqb_spec c star_char) as [->|Hc].
    + apply Hcont; [by eapply goal_star|by apply (step_star p)].
    + apply (Hback (Some c)); [right; naive_solver|done].
Qed.
End Steps.

(** ** Prefixes and the walk *)

(** What a collected directory looks like. *)
Definition trust_dir (d : string) : Prop :=
  ends_with "/" d = true /\ forall bad, bad ∈ NEVER_TRUSTED -> starts_with bad d = false.

Lemma trust_prefix_dir dir d : trust_prefix dir = Some d -> trust_dir d.
Proof.
  unfold trust_prefix. destruct (negb _); [done|]. cbn zeta. destruct (existsb _ _) eqn:E; [done|].
  intros [= <-]. split; [apply ends_with_spec; by eexists|].
  intros bad Hb. apply not_true_is_false. intros H.
  assert (existsb (fun bad => starts_with bad (trim_end_matches is_slash_char dir +:+ "/")%string) NEVER_TRUSTED = true)
    by (apply existsb_exists; exists bad; split; [by apply list_elem_of_In|done]).
  congruence.
Qed.

(** The files the walk may read: the root and what a file read includes. *)
Inductive included (read : lpath -> option string) (list_dir : lpath -> list lpath) (root : lpath) : lpath -> Prop :=
| included_root : included read list_dir root root
| included_step file text pattern q :
    included read list_dir root file -> read file = Some text -> Include pattern ∈ parse_ld_so_conf text ->
    q ∈ expand_glob (join (removelast file) pattern) list_dir -> included read list_dir root q.

(** What every step of the walk keeps: directories distinct, trusted and declared
    by a file in reach. *)
Definition walk_ok read list_dir (root : lpath) (s : WalkState) : Prop :=
  NoDup (dirs s) /\
  forall d, d ∈ dirs s -> trust_dir d /\
    exists file text dir, included read list_dir root file /\ read file = Some text /\
      Dir dir ∈ parse_ld_so_conf text /\ trust_prefix dir = Some d.

Lemma add_dir_ok read list_dir root file text dir s :
  included read list_dir root file -> read file = Some text -> Dir dir ∈ parse_ld_so_conf text ->
  walk_ok read list_dir root s -> walk_ok read list_dir root (add_dir dir s).
Proof.
  intros Hf Ht Hd [Hnd Hs]. unfold add_dir. destruct (trust_prefix dir) as [d|] eqn:E; [|done].
  case_bool_decide as Hin; [done|]. split; cbn [dirs].
  - apply NoDup_app. split_and!; [done| |apply NoDup_singleton]. intros x Hx Hx2.
    apply list_elem_of_singleton in Hx2 as ->. done.
  - intros x Hx. apply elem_of_app in Hx as [Hx|Hx]; [by apply Hs|]. apply list_elem_of_singleton in Hx as ->.
    split; [by eapply trust_prefix_dir|]. naive_solver.
Qed.

(** A fold keeps what each step on an element of the list keeps. *)
Lemma foldl_invariant {A S} (P : S -> Prop) (f : S -> A -> S) (l : list A) s :
  P s -> (forall s x, x ∈ l -> P s -> P (f s x)) -> P (foldl f s l).
Proof.
  revert s. induction l as [|x l IH]; intros s Hs Hf; [done|]. simpl. apply IH.
  - apply Hf; [by left|done].
  - intros. apply Hf; [by right|done].
Qed.

Lemma walk_keeps read list_dir root room file s :
  included read list_dir root file -> walk_ok read list_dir root s ->
  walk_ok read list_dir root (walk read list_dir room file s) /\
  seen_files s ⊆ seen_files (walk read list_dir room file s) /\
  (forall d, d ∈ dirs s -> d ∈ dirs (walk read list_dir room file s)).
Proof.
  revert file s. induction room as [|room IH]; intros file s Hf Hs; [done|]. cbn [walk].
  case_bool_decide; [done|]. set (s1 := mkWalk _ (dirs s)).
  assert (walk_ok read list_dir root s1) as Hs1 by (by destruct Hs).
  assert (seen_files s ⊆ seen_files s1) as Hsub by set_solver.
  destruct (read file) as [text|] eqn:Et; [|done].
  pose (P := fun s' => walk_ok read list_dir root s' /\ seen_files s ⊆ seen_files s' /\
                       forall d, d ∈ dirs s -> d ∈ dirs s').
  apply (foldl_invariant P); [split_and!; done|]. intros s2 entry He (K1 & K2 & K3).
  destruct entry as [dir|pattern].
  - split_and!; [by eapply add_dir_ok| |]; unfold add_dir; destruct (trust_prefix dir); try done;
      case_bool_decide; cbn [seen_files dirs]; try done. intros d Hd. apply elem_of_app. left. by apply K3.
  - apply (foldl_invariant P); [done|]. intros s3 q Hq (L1 & L2 & L3). rewrite cmp_sort_perm in Hq.
    destruct (IH q s3) as (M1 & M2 & M3); [by eapply included_step|done|].
    split_and!; [done|set_solver|]. intros d Hd. by apply M3, L3.
Qed.

(** ** Theorems *)

(** The wildcard loop terminates: for every pattern and text the bounded
    number of iterations [wildcard_fuel] is enough for an answer. *)
Theorem wildcard_terminates pattern text : exists b, wildcard_match pattern text = Some b.
Proof.
  apply wildcard_loop_total; [unfold loop_bounds; split_and!; lia|].
  unfold loop_measure, wildcard_fuel. nia.
Qed.

(** The backtracking loop decides the meaning of the pattern, on any text
    without a literal star. *)
Theorem wildcard_match_exact pattern text :
  star_free text -> exists b, wildcard_match pattern text = Some b /\ (b = true <-> Glob pattern text).
Proof.
  intros Ht. destruct (wildcard_loop_correct pattern text Ht (wildcard_fuel pattern text) 0 0 None) as (b & Hb & Hg);
    [unfold loop_bounds; split_and!; lia|done|unfold loop_measure, wildcard_fuel; nia|].
  exists b. split; [done|]. rewrite Hg. unfold loop_goal. rewrite !drop_0. tauto.
Qed.

(** A literal star in the text is taken for the pattern's star, which then
    cannot take anything else: "*" does not match "*a". *)
Theorem literal_star_mismatch x :
  Glob [star_char] [star_char; x] /\ wildcard_match [star_char] [star_char; x] = Some false.
Proof.
  split; [|reflexivity]. apply Glob_star_take, Glob_star_take, Glob_star_skip, Glob_nil.
Qed.

(** The trust set the walk returns: directories without repetition, each one
    declared by a file reachable through includes, ending in a slash and under
    none of the scratch directories. *)
Theorem collected_dirs_sound read list_dir root :
  let ds := collect_ld_dirs read list_dir root in
  NoDup ds /\
  forall d, d ∈ ds -> ends_with "/" d = true /\ (forall bad, bad ∈ NEVER_TRUSTED -> starts_with bad d = false) /\
    exists file text dir, included read list_dir root file /\ read file = Some text /\
      Dir dir ∈ parse_ld_so_conf text /\ trust_prefix dir = Some d.
Proof.
  cbn zeta. destruct (walk_keeps read list_dir root (MAX_INCLUDE_DEPTH + 1) root (mkWalk ∅ [])) as ([H1 H2] & _).
  - constructor.
  - split; [constructor|]. intros d Hd. by apply elem_of_nil in Hd.
  - split; [done|]. intros d Hd. destruct (H2 d Hd) as ([] & ?). done.
Qed.

(** Scratch space is exempted by no configuration that names it: an entry
    under "/tmp/", "/var/tmp/" or "/dev/shm/" is reported unless [ld.so.conf]
    declares one of their ancestors, "/", "/var/" or "/dev/". *)
Theorem scratch_exempt_only_by_ancestor read list_dir root bad r :
  bad ∈ NEVER_TRUSTED -> str_all (fun a => negb (Ascii.eqb a ":"%char)) r = true ->
  all_paths_trusted (bad +:+ r)%string (collect_ld_dirs read list_dir root) = true ->
  exists d, d ∈ collect_ld_dirs read list_dir root /\ d ∈ ["/"; "/var/"; "/dev/"].
Proof.
  intros Hbad Hr Htr.
  assert (starts_with bad (bad +:+ r)%string = true) as Hs by apply starts_with_app.
  assert (str_split ":"%char (bad +:+ r)%string = [(bad +:+ r)%string]) as Hsplit.
  { apply str_split_nosep. rewrite str_all_app, Hr. apply list_elem_of_In in Hbad.
    by repeat destruct Hbad as [<-|Hbad]. }
  unfold all_paths_trusted in Htr. rewrite Hsplit in Htr. cbn [List.filter] in Htr.
  assert (starts_with "/" (bad +:+ r)%string = true /\ str_is_empty (bad +:+ r)%string = false /\
    existsb (fun prefix => starts_with prefix (bad +:+ r)%string) LD_TRUST_PREFIXES = false) as (E1 & E2 & E3).
  { apply list_elem_of_In in Hbad. repeat destruct Hbad as [<-|Hbad]; done. }
  rewrite E2 in Htr. cbn [negb forallb] in Htr. rewrite andb_true_r in Htr. unfold entry_trusted in Htr.
  rewrite E1, E3 in Htr. cbn [negb orb] in Htr. apply existsb_exists in Htr as (d & Hd & Hpre).
  apply list_elem_of_In in Hd. exists d. split; [done|].
  destruct (walk_keeps read list_dir root (MAX_INCLUDE_DEPTH + 1) root (mkWalk ∅ [])) as ([_ H2] & _).
  { constructor. }
  { split; [constructor|]. intros x Hx. by apply elem_of_nil in Hx. }
  destruct (H2 d Hd) as ((Hend & Hnever) & _).
  destruct (starts_with_comparable d bad _ Hpre Hs) as [H|H]; [|by rewrite Hnever in H].
  apply elem_of_prefixes in H.
  assert (forallb (fun bad => forallb (fun d => negb (ends_with "/" d) || starts_with bad d
    || bool_decide (d ∈ ["/"; "/var/"; "/dev/"])) (prefixes bad)) NEVER_TRUSTED = true) as Hall by reflexivity.
  rewrite forallb_forall in Hall. specialize (Hall bad). rewrite forallb_forall in Hall.
  rewrite <- list_elem_of_In in Hall. specialize (Hall Hbad d). rewrite <- list_elem_of_In in Hall.
  specialize (Hall H). cbv beta in Hall. rewrite Hend, Hnever in Hall by done. by apply bool_decide_eq_true in Hall.
Qed.

(** A preload entry given as a relative path is always trusted, also one with
    a directory part, which the linker resolves against the working directory. *)
Theorem relative_entry_trusted p extra :
  starts_with "/" p = false -> str_all (fun a => negb (Ascii.eqb a ":"%char)) p = true ->
  all_paths_trusted p extra = true.
Proof.
  intros Hp Hc. unfold all_paths_trusted. rewrite str_split_nosep by done. cbn [List.filter].
  destruct (negb (str_is_empty p)); [|done]. cbn [forallb]. unfold entry_trusted. by rewrite Hp.
Qed.

(** ** Witnesses *)

Definition demo_read (p : lpath) : option string :=
  if bool_decide (p = ["etc"; "ld.so.conf"])
  then Some (cat ["include /etc/ld.so.conf.d/*.conf"; String newline EmptyString; "/tmp/evil /opt/app/lib # x"])
  else if bool_decide (p = ["etc"; "ld.so.conf.d"; "a.conf"]) then Some "/var"%string
  else None.
Definition demo_list (p : lpath) : list lpath :=
  if bool_decide (p = ["etc"; "ld.so.conf.d"])
  then [["etc"; "ld.so.conf.d"; "b.txt"]; ["etc"; "ld.so.conf.d"; "a.conf"]] else [].

Example collect_demo : collect_ld_dirs demo_read demo_list (components LD_SO_CONF) = ["/var/"; "/opt/app/lib/"].
Proof. vm_compute. reflexivity. Qed.

Lemma wildcard_match_exact_witness :
  exists b, wildcard_match [star_char; "a"%char; star_char; "b"%char] ["a"%char; "a"%char; "b"%char] = Some b /\
    (b = true <-> Glob [star_char; "a"%char; star_char; "b"%char] ["a"%char; "a"%char; "b"%char]).
Proof. apply wildcard_match_exact. repeat constructor; discriminate. Defined.

Lemma scratch_exempt_only_by_ancestor_witness :
  exists d, d ∈ collect_ld_dirs demo_read demo_list (components LD_SO_CONF) /\ d ∈ ["/"; "/var/"; "/dev/"].
Proof.
  apply (scratch_exempt_only_by_ancestor demo_read demo_list (components LD_SO_CONF) "/var/tmp/" "x.so").
  - right; left.
  - reflexivity.
  - vm_compute. reflexivity.
Defined.

Lemma relative_entry_trusted_witness : all_paths_trusted "./tmp/evil.so" [] = true.
Proof. apply relative_entry_trusted; reflexivity. Defined.
