(* ===== verification/Stateless.v ===== *)
(** * Stateless: the single-event rules (src/crates/rules/src/stateless.rs, exclusions.rs, amsi.rs)

    One function per rule, from an event to an optional alert, in the source's
    order; the tables of names, windows and thresholds the stateful rules share.
    Arguments: the display of an address, and for the AMSI rules the Unicode
    tables ([str::to_lowercase], the non-ASCII part of [char::is_alphanumeric]). *)
From stdpp Require Import base gmap strings list.
From Stdlib Require Import ZArith Lia Ascii.
From Stdlib Require String.
From S2P Require Import Prelude Str Text Schema Policy LdTrust.

Record Alert := mkRuleAlert { al_technique : string; al_severity : Severity; al_message : string }.

(** ** exclusions.rs *)

Definition DOWNLOADER_COMMS : list string := ["curl"; "wget"; "curl.exe"; "wget.exe"; "certutil.exe"].
Definition SHELL_COMMS : list string := ["sh"; "bash"; "dash"; "zsh"; "ash"].
Definition SERVICE_COMMS : list string := ["nginx"; "apache2"; "httpd"; "mysqld"; "mariadbd"; "postgres"].
Definition SERVICE_COMM_PREFIXES : list string := ["php-fpm"].
Definition DOWNLOAD_EXEC_WINDOW_NS : Z := 60000000000.
Definition MEMFD_EXEC_WINDOW_NS : Z := 5000000000.
Definition QUARANTINE_EXEC_WINDOW_NS : Z := 600000000000.
Definition SELF_SPAWN_THRESHOLD : Z := 3.
Definition SELF_SPAWN_WINDOW_NS : Z := 30000000000.
Definition AUTH_FAILURE_THRESHOLD : Z := 5.
Definition AUTH_FAILURE_WINDOW_NS : Z := 60000000000.
Definition BEACON_THRESHOLD : Z := 3.
Definition BEACON_WINDOW_NS : Z := 60000000000.
Definition SCAN_SPREAD_THRESHOLD : Z := 20.
Definition SCAN_SPREAD_WINDOW_NS : Z := 10000000000.
Definition RANSOMWARE_RENAME_THRESHOLD : Z := 20.
Definition RANSOMWARE_RENAME_WINDOW_NS : Z := 5000000000.
Definition RANSOMWARE_LOOP_CHILD_MAX : Z := 3.
Definition BURST_WRITE_BYTES_THRESHOLD : Z := 100 * 1024 * 1024.
Definition RANSOMWARE_EXCLUDED_PATH_PREFIXES : list string := ["/tmp/"; "/var/tmp/"].
Definition PACKAGE_MANAGER_TEMP_RENAME_SUFFIXES : list string := [".dpkg-new"; ".apk-new"].
Definition APK_STAGING_FILE_PREFIX : string := ".apk.".
Definition PACKAGE_MANAGER_COMMS : list string := ["dpkg"; "dpkg-deb"; "apt"; "apt-get"; "apk"].
Definition IN_PLACE_EDIT_COMMS : list string := ["sed"].
Definition MAILDIR_FLAG_LETTERS : string := "DFPRST".
Definition COMPRESSOR_COMMS : list string := ["gzip"; "bzip2"; "xz"; "zstd"; "lz4"; "pigz"; "pbzip2"; "lzma"].
Definition COMPRESSION_DRIVER_COMMS : list string := ["logrotate"].
Definition COMPRESSION_SUFFIXES : list string := [".gz"; ".xz"; ".bz2"; ".zst"; ".lz4"; ".lzma"].
Definition CREATE_UNLINK_PAIR_WINDOW_NS : Z := 60000000000.
Definition CREATE_UNLINK_HISTORY_PER_PID : nat := 64.
Definition CREATE_UNLINK_PID_CAP : Z := 1024.
Definition TASK_REGISTRATION_DEDUP_WINDOW_NS : Z := 60000000000.
Definition SELF_SPAWN_EXCLUSIONS : list string :=
  ["MpCmdRun.exe"; "mpcmdrun.exe"; "TiWorker.exe"; "svchost.exe"; "wermgr.exe"; "WerFault.exe";
   "WerFaultSecure.exe"; "SecurityHealthH"; "SecurityHealthHost.exe"].
Definition SELF_SPAWN_PARENT_EXCLUSIONS : list string := ["RuntimeBroker.exe"].
Definition AGENT_CHILD_EXCLUSIONS : list string := ["wevtutil.exe"; "auditpol.exe"; "logman.exe"].
Definition LOLBINS : list string :=
  ["aspnet_compiler.exe"; "aspnet_compiler"; "msbuild.exe"; "installutil.exe"; "regasm.exe"; "regsvcs.exe";
   "ieexec.exe"; "msdeploy.exe"; "dfsvc.exe"; "cmstp.exe"; "wab.exe"; "odbcconf.exe"].
Definition LOLBIN_LEGIT_PARENTS : list string := ["devenv.exe"; "msbuild.exe"; "dotnet.exe"; "nuget.exe"].
Definition SUSPECT_PARENTS_WIN : list string :=
  ["winword.exe"; "excel.exe"; "powerpnt.exe"; "outlook.exe"; "acrord32.exe"; "acrobat.exe"; "foxit.exe";
   "iexplore.exe"].
Definition SUSPECT_CHILDREN_WIN : list string :=
  ["cmd.exe"; "powershell.exe"; "pwsh.exe"; "wscript.exe"; "cscript.exe"; "mshta.exe"; "certutil.exe";
   "regsvr32.exe"; "rundll32.exe"; "bitsadmin.exe"; "wmic.exe"; "msiexec.exe"].
Definition STANDARD_PORTS : list Z :=
  [80; 443; 53; 8080; 8443; 8000; 25; 587; 465; 993; 995; 143; 137; 138; 5353; 5355; 3478].
Definition BROWSERS : list string :=
  ["chrome.exe"; "firefox.exe"; "msedge.exe"; "opera.exe"; "brave.exe"; "iexplore.exe"; "vivaldi.exe"].

(** ** stateless.rs *)

Definition exec_pid (e : ExecEvent) : string := show_u64 (meta_pid (exec_meta e)).
Definition exec_comm (e : ExecEvent) : string := meta_comm (exec_meta e).
Definition open_pid (e : FileOpenEvent) : string := show_u64 (meta_pid (file_open_meta e)).
Definition open_comm (e : FileOpenEvent) : string := meta_comm (file_open_meta e).
Definition flag_set (flag flags : Z) : bool := negb (Z.land flags flag =? 0).

Definition check_base64_decode (event : ExecEvent) : option Alert :=
  let cmdline := exec_cmdline event in
  let has_base64 := str_contains "base64" cmdline in
  let has_decode_flag := str_contains "-d" cmdline || str_contains "-D" cmdline || str_contains "--decode" cmdline in
  if has_base64 && has_decode_flag
  then Some (mkRuleAlert "T1059.004" Medium
               (cat ["pid="; exec_pid event; " comm="; exec_comm event;
                     ": command line contains a base64 decode: "; cmdline]))
  else None.

Definition NUL : string := String (ascii_of_nat 0) EmptyString.

Definition check_encoded_powershell (event : ExecEvent) : option Alert :=
  let cmdline := exec_cmdline event in
  let cmdline_lower := to_ascii_lowercase cmdline in
  if negb (str_contains "powershell" cmdline_lower || str_contains "pwsh" cmdline_lower) then None
  else if existsb (fun token => String.eqb token "-encodedcommand" || String.eqb token "-enc")
            (split_matches (fun c => char_is_whitespace c || String.eqb c NUL) cmdline_lower)
  then Some (mkRuleAlert "T1059.001" Medium
               (cat ["pid="; exec_pid event; " comm="; exec_comm event;
                     ": PowerShell EncodedCommand invocation: "; cmdline]))
  else None.

Definition UNIX_SHELL_CONFIG_MODIFICATION : string := "T1546.004".
Definition CRON : string := "T1053.003".
Definition SYSTEMD_SERVICE : string := "T1543.002".
Definition MACOS_PATHS_PENDING_REVIEW : string := "T1037.004/T1053.003".

Definition PERSISTENCE_PATH_PATTERNS : list (string * string) :=
  [(UNIX_SHELL_CONFIG_MODIFICATION, ".bashrc"); (UNIX_SHELL_CONFIG_MODIFICATION, ".zshrc");
   (UNIX_SHELL_CONFIG_MODIFICATION, "/etc/profile.d/"); (CRON, "/etc/cron.d/");
   (SYSTEMD_SERVICE, "/etc/systemd/system/");
   (MACOS_PATHS_PENDING_REVIEW, "/Library/LaunchAgents/"); (MACOS_PATHS_PENDING_REVIEW, "/Library/LaunchDaemons/");
   (MACOS_PATHS_PENDING_REVIEW, "/etc/periodic/"); (MACOS_PATHS_PENDING_REVIEW, "/var/at/tabs/")].

Definition check_persistence_write (event : FileOpenEvent) : option Alert :=
  let p := file_open_path event in
  '(technique, matched_pattern) ← List.find (fun tp => str_contains tp.2 p) PERSISTENCE_PATH_PATTERNS;
  if negb (has_write_intent (file_open_flags event)) then None
  else Some (mkRuleAlert technique High
               (cat ["pid="; open_pid event; " comm="; open_comm event;
                     ": write to a known persistence path ("; matched_pattern; "): "; p])).

Definition check_proc_root_escape (event : FileOpenEvent) : option Alert :=
  container ← meta_container (file_open_meta event);
  let segments := List.filter (fun s => negb (str_is_empty s)) (str_split slash (file_open_path event)) in
  let is_proc_pid_root :=
    match segments with
    | a :: b :: c :: _ =>
        String.eqb a "proc" && match parse_u64 b with Some _ => true | None => false end && String.eqb c "root"
    | _ => false
    end in
  if negb is_proc_pid_root then None
  else Some (mkRuleAlert "T1611" High
               (cat ["pid="; open_pid event; " comm="; open_comm event; " container="; container_id container;
                     ": opened "; file_open_path event;
                     " — containerized process reaching into another process's root filesystem via procfs, a common container-escape path"])).

Definition check_scheduled_task_persistence (event : FileOpenEvent) : option Alert :=
  if negb (flag_set FLAG_PERSISTENCE_TASK_ARTIFACT (file_open_flags event)) then None
  else Some (mkRuleAlert "T1053.005" Medium
               (cat ["task="; open_comm event; " pid="; open_pid event;
                     ": scheduled task persistence created — action path: "; file_open_path event])).

Definition TASK_HIJACK_ACTION_PATTERNS : list string :=
  ["\appdata\"; "\temp\"; "\downloads\"; "\users\public\"; "\programdata\"; "%temp%"; "%tmp%"; "%appdata%";
   "%localappdata%"; "%public%"; "%userprofile%"; "%programdata%"; "cmd.exe"; "powershell"; "pwsh"; "mshta";
   "wscript"; "cscript"; "rundll32"; "regsvr32"].

Definition check_scheduled_task_update_persistence (event : FileOpenEvent) : option Alert :=
  if negb (flag_set FLAG_PERSISTENCE_TASK_UPDATE_ARTIFACT (file_open_flags event)) then None
  else
    reason ← (if negb (flag_set FLAG_PERSISTENCE_TASK_ACTION_UNKNOWN (file_open_flags event))
              then let path_lower := str_map to_backslash (to_ascii_lowercase (file_open_path event)) in
                   List.find (fun pattern => str_contains pattern path_lower) TASK_HIJACK_ACTION_PATTERNS
              else Some "action unreadable");
    Some (mkRuleAlert "T1053.005" High
            (cat ["task="; open_comm event; " pid="; open_pid event; ": existing scheduled task repointed ("; reason;
                  ") — new action path: "; file_open_path event])).

Definition check_service_install_persistence (event : FileOpenEvent) : option Alert :=
  if negb (flag_set FLAG_PERSISTENCE_ARTIFACT (file_open_flags event)) then None
  else Some (mkRuleAlert "T1543.003" High
               (cat ["service="; open_comm event; " pid="; open_pid event;
                     ": service persistence installed — image path: "; file_open_path event])).

Definition check_account_creation_persistence (event : FileOpenEvent) : option Alert :=
  if negb (flag_set FLAG_PERSISTENCE_ACCOUNT_ARTIFACT (file_open_flags event)) then None
  else Some (mkRuleAlert "T1136.001" High
               (cat ["account="; open_comm event; " pid="; open_pid event;
                     ": local account persistence created — sid: "; file_open_path event])).

Definition check_systemd_service_persistence (event : FileOpenEvent) : option Alert :=
  if negb (flag_set FLAG_PERSISTENCE_SYSTEMD_ARTIFACT (file_open_flags event)) then None
  else Some (mkRuleAlert "T1543.002" Medium
               (cat ["unit="; open_comm event; " pid="; open_pid event;
                     ": systemd service first seen starting — unit: "; file_open_path event])).

Definition check_btm_launch_item_persistence (event : FileOpenEvent) : option Alert :=
  if negb (flag_set FLAG_PERSISTENCE_BTM_ARTIFACT (file_open_flags event)) then None
  else Some (mkRuleAlert "T1543.001/T1547.015" Medium
               (cat ["instigator="; open_comm event; " pid="; open_pid event;
                     ": macOS launch item registered — payload: "; file_open_path event])).

Definition MYSQL_SERVICE_COMMS : list string := ["mysqld"; "mariadbd"].
Definition MYSQL_WRITE_PATH_PREFIXES : list string :=
  ["/var/lib/mysql/"; "/var/lib/mariadb/"; "/var/log/mysql/"; "/var/log/mariadb/"; "/run/mysqld/";
   "/var/run/mysqld/"; "/tmp/"].

Definition check_service_write_outside_datadir (event : FileOpenEvent) (resolve_comm : Z -> option Z -> option string)
    : option Alert :=
  let p := file_open_path event in
  if negb (has_write_intent (file_open_flags event)) || negb (starts_with "/" p) || String.eqb p "/tmp"
     || existsb (fun pre => starts_with pre p) MYSQL_WRITE_PATH_PREFIXES
  then None
  else
    let m := file_open_meta event in
    comm ← resolve_comm (meta_pid m) (meta_process_generation m);
    if negb (one_of MYSQL_SERVICE_COMMS comm) then None
    else Some (mkRuleAlert "T1190" High
                 (cat ["pid="; open_pid event; " comm="; comm;
                       ": wrote outside its data/log/temp directories: "; p;
                       " — signature of SQL injection (SELECT ... INTO OUTFILE) or a malicious UDF"])).

Definition evaluate_file_open (event : FileOpenEvent) : list Alert :=
  option_list (check_persistence_write event)
  ++ option_list (check_proc_root_escape event)
  ++ option_list (check_scheduled_task_update_persistence event)
  ++ option_list (check_service_install_persistence event)
  ++ option_list (check_account_creation_persistence event)
  ++ option_list (check_systemd_service_persistence event)
  ++ option_list (check_btm_launch_item_persistence event).

Definition MASQUERADE_UNIX : list (string * list string) :=
  [("bash", ["/bin/"; "/usr/bin/"; "/usr/local/bin/"]); ("sh", ["/bin/"; "/usr/bin/"]);
   ("zsh", ["/bin/"; "/usr/bin/"]);
   ("sshd", ["/usr/sbin/"; "/usr/libexec/"; "/usr/lib/ssh/"; "/usr/lib/openssh/"]);
   ("sudo", ["/usr/bin/"; "/bin/"]); ("systemd", ["/usr/lib/systemd/"; "/lib/systemd/"]); ("launchd", ["/sbin/"]);
   ("cron", ["/usr/sbin/"; "/usr/bin/"]); ("login", ["/usr/bin/"; "/bin/"])].

Definition MASQUERADE_WINDOWS : list (string * list string) :=
  [("svchost.exe", ["c:\windows\system32\"; "c:\windows\syswow64\"]); ("lsass.exe", ["c:\windows\system32\"]);
   ("services.exe", ["c:\windows\system32\"]); ("csrss.exe", ["c:\windows\system32\"]);
   ("winlogon.exe", ["c:\windows\system32\"]); ("smss.exe", ["c:\windows\system32\"]);
   ("explorer.exe", ["c:\windows\"; "c:\windows\syswow64\"]);
   ("powershell.exe", ["c:\windows\system32\windowspowershell\"; "c:\windows\syswow64\windowspowershell\"]);
   ("rundll32.exe", ["c:\windows\system32\"; "c:\windows\syswow64\"])].

(** [path.rsplit(['/', '\\']).next()]: what follows the last separator. *)
Definition leaf_name (p : string) : string :=
  match rsplit_byte is_sep p with Some (_, leaf) => leaf | None => p end.

(** [path.as_bytes().get(1) == Some(&b':')]. *)
Definition drive_absolute (p : string) : bool :=
  match p with String _ (String c _) => Ascii.eqb c ":"%char | _ => false end.

Definition masquerade_entry (p : string) : option (string * list string) :=
  if starts_with "/" p then List.find (fun e => String.eqb e.1 (leaf_name p)) MASQUERADE_UNIX
  else if negb (drive_absolute p) then None
  else List.find (fun e => String.eqb e.1 (to_ascii_lowercase (leaf_name p))) MASQUERADE_WINDOWS.

Definition check_masquerading (event : ExecEvent) : option Alert :=
  let p := exec_image_path event in
  if str_is_empty (leaf_name p) then None
  else
    '(matched, allowed) ← masquerade_entry p;
    if existsb (fun prefix => starts_with prefix (to_ascii_lowercase p)) allowed then None
    else Some (mkRuleAlert "T1036.005" High
                 (cat ["pid="; exec_pid event; " comm="; exec_comm event; ": system-binary name `"; matched;
                       "` executing from outside its legitimate location: "; p])).

Definition check_ld_preload_hijack (event : ExecEvent) (extra_trust : list string) : option Alert :=
  '(name, value) ← List.find (fun nv => String.eqb nv.1 "LD_PRELOAD" || String.eqb nv.1 "LD_AUDIT")
                     (exec_env_security event);
  if all_paths_trusted value extra_trust then None
  else Some (mkRuleAlert "T1574.006" High
               (cat ["pid="; exec_pid event; " comm="; exec_comm event; ": "; name; "="; value;
                     " loads a shared object outside the dynamic linker's trusted search path"])).

Definition RECOVERY_PATTERNS : list (string * list string) :=
  [("shadow-copy deletion", ["vssadmin"; "delete"; "shadows"]); ("shadow-copy deletion", ["wmic"; "shadowcopy"; "delete"]);
   ("backup catalog wipe", ["wbadmin"; "delete"; "catalog"]);
   ("recovery boot disabled", ["bcdedit"; "recoveryenabled"; "no"]);
   ("local snapshot destruction", ["tmutil"; "deletelocalsnapshots"])].

Definition check_recovery_inhibit (event : ExecEvent) : option Alert :=
  let cmdline := to_ascii_lowercase (exec_cmdline event) in
  '(label, _) ← List.find (fun lt => forallb (fun t => str_contains t cmdline) lt.2) RECOVERY_PATTERNS;
  Some (mkRuleAlert "T1490" High
          (cat ["pid="; exec_pid event; " comm="; exec_comm event; ": "; label; " — the pre-encryption tell: ";
                exec_cmdline event])).

Definition CLEAR_WINDOWS_EVENT_LOGS : string := "T1070.001".
Definition CLEAR_UNIX_SYSTEM_LOGS : string := "T1070.002".

Definition LOG_CLEAR_PATTERNS : list (string * list string) :=
  [(CLEAR_WINDOWS_EVENT_LOGS, ["wevtutil"; "cl"]); (CLEAR_WINDOWS_EVENT_LOGS, ["wevtutil"; "clear-log"]);
   (CLEAR_WINDOWS_EVENT_LOGS, ["clear-eventlog"]); (CLEAR_UNIX_SYSTEM_LOGS, ["log"; "erase"]);
   (CLEAR_UNIX_SYSTEM_LOGS, ["journalctl"; "--vacuum"])].

Definition check_log_clear_exec (event : ExecEvent) : option Alert :=
  let cmdline := to_ascii_lowercase (exec_cmdline event) in
  '(technique, _) ← List.find (fun lt => forallb (fun t => str_contains t cmdline) lt.2) LOG_CLEAR_PATTERNS;
  Some (mkRuleAlert technique High
          (cat ["pid="; exec_pid event; " comm="; exec_comm event; ": log-clearing command: "; exec_cmdline event])).

Definition evaluate_exec (event : ExecEvent) : list Alert :=
  option_list (check_base64_decode event)
  ++ option_list (check_encoded_powershell event)
  ++ option_list (check_masquerading event)
  ++ option_list (check_recovery_inhibit event)
  ++ option_list (check_log_clear_exec event).

Definition LOG_PATH_PATTERNS : list (string * string) :=
  [(CLEAR_UNIX_SYSTEM_LOGS, "/var/log/"); (CLEAR_UNIX_SYSTEM_LOGS, "/private/var/log/");
   (CLEAR_UNIX_SYSTEM_LOGS, "/log/journal/"); (CLEAR_WINDOWS_EVENT_LOGS, ".evtx")].

Definition check_log_file_delete (event : FileDeleteEvent) : option Alert :=
  let p := file_delete_path event in
  '(technique, matched) ← List.find (fun tp => str_contains tp.2 p) LOG_PATH_PATTERNS;
  Some (mkRuleAlert technique Medium
          (cat ["pid="; show_u64 (meta_pid (file_delete_meta event)); " comm="; meta_comm (file_delete_meta event);
                ": log file deleted ("; matched; "): "; p])).

Definition evaluate_file_delete (event : FileDeleteEvent) : list Alert := option_list (check_log_file_delete event).

(** [macos]: the build's [cfg!(target_os)]. *)
Definition SIGSTOP (macos : bool) : Z := if macos then 17 else 19.

Definition tamper_signal_name (macos : bool) (signal : Z) : option string :=
  if signal =? 1 then Some "SIGHUP"
  else if signal =? 2 then Some "SIGINT"
  else if signal =? 3 then Some "SIGQUIT"
  else if signal =? 6 then Some "SIGABRT"
  else if signal =? 9 then Some "SIGKILL"
  else if signal =? 15 then Some "SIGTERM"
  else if signal =? SIGSTOP macos then Some "SIGSTOP"
  else None.

Definition check_security_process_signal (macos : bool) (event : SignalEvent) : option Alert :=
  let m := signal_meta event in
  name ← tamper_signal_name macos (signal_signal event);
  let target := default "?" (signal_target_image_path event) in
  let sender_uid := match meta_user m with User_Unix uid _ => cat [" uid="; show_u64 uid] | _ => EmptyString end in
  Some (mkRuleAlert "T1562.001" High
          (cat ["pid="; show_u64 (meta_pid m); " comm="; meta_comm m; sender_uid; ": sent "; name; " (";
                show_u64 (signal_signal event); ") to security process pid="; show_u64 (signal_target_pid event);
                " ("; target; ")"])).

Definition evaluate_signal (macos : bool) (event : SignalEvent) : list Alert :=
  option_list (check_security_process_signal macos event).

Definition SERVICE_OUTBOUND_STANDARD_PORTS : list Z :=
  [80; 443; 8080; 8443; 8000; 3306; 5432; 6379; 11211; 9200; 27017].

Definition is_service_comm (comm : string) : bool :=
  one_of SERVICE_COMMS comm || existsb (fun p => starts_with p comm) SERVICE_COMM_PREFIXES.

Section Connect.
Variable show_ip : IpAddr -> string.

Definition check_service_unusual_outbound (event : ConnectEvent) : option Alert :=
  let comm := meta_comm (connect_meta event) in
  if negb (is_service_comm comm) then None
  else if is_loopback (connect_daddr event) || is_unspecified (connect_daddr event)
          || existsb (Z.eqb (connect_dport event)) SERVICE_OUTBOUND_STANDARD_PORTS
  then None
  else Some (mkRuleAlert "T1071" Medium
               (cat ["pid="; show_u64 (meta_pid (connect_meta event)); " comm="; comm; ": outbound connection to ";
                     show_ip (connect_daddr event); ":"; show_u64 (connect_dport event);
                     " — port outside this service's routine set, possible reverse shell after exploitation"])).

Definition evaluate_connect (event : ConnectEvent) : list Alert :=
  option_list (check_service_unusual_outbound event).
End Connect.
