(* ===== verification/Amsi.v ===== *)
(** * Amsi: the rules on script content (src/crates/rules/src/amsi.rs)

    The Antimalware Scan Interface hands over the text a script host is about to
    run.  Arguments: [lower], Unicode's [str::to_lowercase], and [uni_alnum],
    [char::is_alphanumeric] on non-ASCII characters. *)
From stdpp Require Import base gmap strings list.
From Stdlib Require Import ZArith Lia Ascii.
From Stdlib Require String.
From S2P Require Import Prelude Str Text Schema Stateless Scan.

Definition AMSI_RESULT_DETECTED : Z := 32768.
Definition EXCERPT_CHARS : nat := 200.
Definition CRADLE_SPAN : Z := 300.

Definition DOWNLOAD_CRADLE : string := "T1059.001/T1105".
Definition AMSI_TAMPERING : string := "T1562.001".
Definition REFLECTIVE_LOAD : string := "T1620".
Definition CREDENTIAL_DUMPING : string := "T1003.001".
Definition SCRIPT_HOST_LAUNCH : string := "T1059.005/T1059.007".
Definition PROVIDER_DETECTED : string := "T1059".

Definition severity (technique : string) : Severity :=
  if String.eqb technique SCRIPT_HOST_LAUNCH then Medium else High.

Definition DOWNLOAD_MARKERS : list string :=
  ["downloadstring("; "downloaddata("; "downloadfile("; "net.webclient"; "invoke-webrequest"; "invoke-restmethod";
   "start-bitstransfer"; "system.net.http.httpclient"].
Definition DOWNLOAD_WORDS : list string := ["iwr"; "irm"; "wget"; "curl"].
Definition EXEC_MARKERS : list string := ["invoke-expression"; "[scriptblock]::create("].
Definition EXEC_WORDS : list string := ["iex"].
Definition REFLECTIVE_LOAD_MARKERS : list string := ["reflection.assembly]::load("; "assembly]::load("].
Definition IN_MEMORY_BYTES_MARKERS : list string := ["frombase64string("; "decompress"; "gzipstream"].
Definition LAUNCHED_BINARIES : list string :=
  ["powershell"; "pwsh"; "mshta"; "rundll32"; "regsvr32"; "certutil"; "bitsadmin"; "wscript"; "cscript"].
Definition LAUNCH_CALLS : list string := ["iwshshell3.run("; "iwshshell3.exec("; "shell("; ".shellexecute("].

(** ** The masked markers *)

Definition MASK_KEY : N := 0x5A.
Definition xor_key (a : ascii) : ascii := ascii_of_N (N.lxor (N_of_ascii a) MASK_KEY).
Definition mask (plain : string) : string := str_map xor_key plain.

(** [char::from(u8)]: the UTF-8 of the code point. *)
Definition char_from (a : ascii) : string :=
  let n := nat_of_ascii a in
  if (n <? 128)%nat then String a EmptyString
  else String (ascii_of_nat (192 + n / 64)) (String (ascii_of_nat (128 + n mod 64)) EmptyString).
Definition unmask_one (m : string) : string := cat (char_from ∘ xor_key <$> String.list_ascii_of_string m).
Definition unmask (masked : list string) : list string := unmask_one <$> masked.

Definition AMSI_TAMPER_MASKED : list string :=
  mask <$> ["amsiutils"; "amsiinitfailed"; "amsiscanbuffer"; "amsicontext"; "amsiopensession"].
Definition AMSI_TAMPER_MARKERS : list string := unmask AMSI_TAMPER_MASKED.
Definition MIMIKATZ_MASKED : list string :=
  mask <$> ["invoke-mimikatz"; "sekurlsa::"; "lsadump::"; "kerberos::golden"; "kerberos::ptt"; "privilege::debug"].
Definition MIMIKATZ_MARKERS : list string := unmask MIMIKATZ_MASKED.

(** ** Searching *)

(** [haystack.match_indices(p)], for a non-empty [p]: after a match the search
    resumes behind it. *)
Fixpoint match_from (i skip : nat) (p s : string) : list nat :=
  match s with
  | EmptyString => []
  | String _ r =>
      match skip with
      | S k => match_from (S i) k p r
      | O => if starts_with p s then i :: match_from (S i) (String.length p - 1) p r
             else match_from (S i) 0 p r
      end
  end.
Definition match_indices (p s : string) : list nat := match_from 0 0 p s.

Definition contains_any (haystack : string) (needles : list string) : bool :=
  existsb (fun n => str_contains n haystack) needles.

Definition is_module_manifest (lower : string) : bool :=
  starts_with "@{" (trim_start lower)
  && existsb (fun key => str_contains key lower) ["moduleversion"; "cmdletstoexport"; "functionstoexport"].

Definition is_script_host (app_name : string) : bool :=
  let app := to_ascii_lowercase app_name in
  starts_with "vbscript" app || starts_with "jscript" app || starts_with "office_vba" app.

Definition runtime (app_name : string) : string := default app_name (head (str_split "_"%char app_name)).

Definition char_is_control (c : string) : bool :=
  match char_bytes c with
  | [n] => ((n <? 32) || (n =? 127))%nat
  | [194; n] => (n <? 160)%nat
  | _ => false
  end%nat.

Definition excerpt (text : option string) : string :=
  match text with
  | None => "(no text)"
  | Some t =>
      let cs := str_chars t in
      let one_line := cat (take EXCERPT_CHARS ((fun c => if char_is_control c then " " else c) <$> cs)) in
      if (EXCERPT_CHARS <? length cs)%nat then (one_line +:+ "…")%string else one_line
  end.

Section Amsi.
Variable lower : string -> string.
Variable uni_alnum : string -> bool.

Definition char_is_alphanumeric (c : string) : bool :=
  match c with
  | String a EmptyString => is_alpha a || is_digit a
  | _ => uni_alnum c
  end.

Definition is_part (c : string) : bool := char_is_alphanumeric c || String.eqb c "_" || String.eqb c "-".

Definition is_whole_word (haystack : string) (start len : nat) : bool :=
  let before := last (str_chars (str_take start haystack)) in
  let after := head (str_chars (str_drop (start + len) haystack)) in
  negb (match before with Some c => is_part c | None => false end)
  && negb (match after with Some c => is_part c | None => false end).

Definition has_word (haystack word : string) : bool :=
  existsb (fun i => is_whole_word haystack i (String.length word)) (match_indices word haystack).

Definition positions (haystack : string) (markers words : list string) : list nat :=
  mjoin ((fun m => match_indices m haystack) <$> markers)
  ++ mjoin ((fun w => List.filter (fun i => is_whole_word haystack i (String.length w)) (match_indices w haystack))
            <$> words).

Definition is_download_cradle (lower : string) : bool :=
  let fetches := positions lower DOWNLOAD_MARKERS DOWNLOAD_WORDS in
  let runs := positions lower EXEC_MARKERS EXEC_WORDS in
  existsb (fun f => existsb (fun r => abs_diff (Z.of_nat f) (Z.of_nat r) <=? CRADLE_SPAN) runs) fetches.

Definition evaluate_amsi_content (event : AmsiContentEvent) : list Alert :=
  let m := amsi_content_meta event in
  let alert technique what :=
    mkRuleAlert technique (severity technique)
      (cat ["pid="; show_u64 (meta_pid m); " comm="; meta_comm m; ": "; what; " (AMSI, app=";
            runtime (amsi_content_app_name event); "): "; excerpt (amsi_content_text event)]) in
  let provider :=
    if AMSI_RESULT_DETECTED <=? amsi_content_scan_result event
    then [alert PROVIDER_DETECTED
            (cat ["antimalware provider flagged the content (AMSI_RESULT ";
                  show_u64 (amsi_content_scan_result event); ")"])]
    else [] in
  match amsi_content_text event with
  | None => provider
  | Some text =>
      let l := lower text in
      provider
      ++ (if negb (is_module_manifest l) && is_download_cradle l
          then [alert DOWNLOAD_CRADLE "download cradle executed in memory"] else [])
      ++ (if contains_any l AMSI_TAMPER_MARKERS
          then [alert AMSI_TAMPERING "script references AMSI internals (bypass attempt)"] else [])
      ++ (if contains_any l REFLECTIVE_LOAD_MARKERS && contains_any l IN_MEMORY_BYTES_MARKERS
          then [alert REFLECTIVE_LOAD ".NET assembly loaded from in-memory bytes"] else [])
      ++ (if contains_any l MIMIKATZ_MARKERS
          then [alert CREDENTIAL_DUMPING "Mimikatz credential-dumping module"] else [])
      ++ (if is_script_host (amsi_content_app_name event) && contains_any l LAUNCH_CALLS
             && existsb (has_word l) LAUNCHED_BINARIES
          then [alert SCRIPT_HOST_LAUNCH "script host launched an interpreter or proxy-execution binary"] else [])
  end.
End Amsi.

(** ** Lemmas *)

Lemma xor_key_involutive a : xor_key (xor_key a) = a.
Proof. by destruct a as [[] [] [] [] [] [] [] []]. Qed.

Lemma unmask_mask_one s : str_all (fun a => (nat_of_ascii a <? 128)%nat) s = true -> unmask_one (mask s) = s.
Proof.
  induction s as [|a s IH]; [done|]. cbn [str_all]. rewrite andb_true_iff. intros [Ha Hs].
  unfold unmask_one, mask in *. cbn [str_map String.list_ascii_of_string fmap list_fmap cat foldr]. simpl.
  rewrite xor_key_involutive. unfold char_from at 1. rewrite Ha. simpl. f_equal. by apply IH.
Qed.

(** No proper suffix of [p] is also a prefix: occurrences cannot overlap. *)
Definition borderless (p : string) : bool :=
  negb (str_is_empty p)
  && forallb (fun k => negb (starts_with (str_drop k p) p)) (seq 1 (String.length p - 1)).

(** [p] occurs in [s] at byte [i]. *)
Definition occurs (p s : string) (i : nat) : Prop := (i < String.length s)%nat /\ starts_with p (str_drop i s) = true.

Lemma str_drop_app p r k : (k <= String.length p)%nat -> str_drop k (p +:+ r)%string = (str_drop k p +:+ r)%string.
Proof.
  revert k. induction p as [|a p IH]; intros [|k] Hk; simpl in *; try done; [lia|]. apply IH. lia.
Qed.

Lemma str_drop_length k s : String.length (str_drop k s) = (String.length s - k)%nat.
Proof. revert k. induction s as [|a s IH]; intros [|k]; simpl; try done. Qed.

Lemma starts_with_length p s : starts_with p s = true -> (String.length p <= String.length s)%nat.
Proof. rewrite starts_with_spec. intros [r ->]. rewrite str_app_length. lia. Qed.

(** Behind a match there is no other one before the match ends. *)
Lemma borderless_gap p s k :
  borderless p = true -> starts_with p s = true -> (1 <= k < String.length p)%nat ->
  starts_with p (str_drop k s) = false.
Proof.
  intros Hb Hs Hk. apply not_true_is_false. intros H. unfold borderless in Hb. apply andb_true_iff in Hb as [_ Hb].
  rewrite forallb_forall in Hb. specialize (Hb k). rewrite in_seq in Hb. specialize (Hb ltac:(lia)).
  apply negb_true_iff in Hb. apply starts_with_spec in Hs as [r ->]. rewrite str_drop_app in H by lia.
  destruct (starts_with_comparable p (str_drop k p) _ H (starts_with_app _ _)) as [E|E]; [|congruence].
  apply starts_with_length in E. rewrite str_drop_length in E. lia.
Qed.

Lemma match_from_exact p s i skip j :
  borderless p = true ->
  (forall k, (k < skip)%nat -> starts_with p (str_drop k s) = false) ->
  j ∈ match_from i skip p s <-> (i <= j)%nat /\ occurs p s (j - i).
Proof.
  intros Hb. revert i skip. induction s as [|a s IH]; intros i skip Hskip; cbn [match_from].
  { rewrite elem_of_nil. unfold occurs. simpl. lia. }
  assert (forall skip', (forall k, (k < skip')%nat -> starts_with p (str_drop k s) = false) ->
    j ∈ match_from (S i) skip' p s <-> (i < j)%nat /\ occurs p (String a s) (j - i)) as Hrec.
  { intros skip' H'. rewrite IH by done. unfold occurs. cbn [String.length].
    split; intros [Hj Ho]; [split; [lia|]|split; [lia|]].
    - replace (j - i)%nat with (S (j - S i)) by lia. simpl. destruct Ho. split; [lia|done].
    - replace (j - i)%nat with (S (j - S i)) in Ho by lia. simpl in Ho. destruct Ho. split; [lia|done]. }
  assert (occurs p (String a s) (i - i) <-> starts_with p (String a s) = true) as H0.
  { rewrite Nat.sub_diag. unfold occurs. cbn [str_drop String.length]. split; [tauto|]. split; [lia|done]. }
  destruct skip as [|k].
  - destruct (starts_with p (String a s)) eqn:E.
    + rewrite elem_of_cons, Hrec.
      * destruct (decide (j = i)) as [->|]; [|intuition lia].
        split; [intros _; split; [lia|by apply H0]|by left].
      * intros k Hk. change (str_drop k s) with (str_drop (S k) (String a s)). apply (borderless_gap p _ _ Hb E). lia.
    + rewrite Hrec by (intros; lia). destruct (decide (j = i)) as [->|]; [|intuition lia].
      rewrite H0. intuition (lia || done).
  - rewrite Hrec by (intros k' Hk'; apply (Hskip (S k')); lia).
    destruct (decide (j = i)) as [->|]; [|intuition lia].
    rewrite H0. specialize (Hskip 0%nat ltac:(lia)). simpl in Hskip. rewrite Hskip. intuition (lia || done).
Qed.

Lemma match_indices_exact p s j : borderless p = true -> j ∈ match_indices p s <-> occurs p s j.
Proof.
  intros Hb. unfold match_indices. rewrite match_from_exact; [|done|intros; lia]. rewrite Nat.sub_0_r.
  split; [tauto|]. split; [lia|done].
Qed.

(** A fetch (or a run) at byte [i]: a marker, or a whole word. *)
Definition keyword_at uni_alnum (markers words : list string) (s : string) (i : nat) : Prop :=
  (exists m, m ∈ markers /\ occurs m s i) \/
  (exists w, w ∈ words /\ occurs w s i /\ is_whole_word uni_alnum s i (String.length w) = true).

Lemma elem_of_positions uni_alnum s markers words i :
  forallb borderless markers = true -> forallb borderless words = true ->
  i ∈ positions uni_alnum s markers words <-> keyword_at uni_alnum markers words s i.
Proof.
  rewrite !forallb_forall. intros Hm Hw. unfold positions, keyword_at.
  rewrite elem_of_app, !list_elem_of_join. setoid_rewrite list_elem_of_fmap.
  split; (intros [H|H]; [left|right]).
  - destruct H as (l & Hi & m & -> & Hin). exists m. split; [done|].
    apply match_indices_exact in Hi; [done|]. by apply Hm, list_elem_of_In.
  - destruct H as (l & Hi & w & -> & Hin). apply elem_of_bool_filter in Hi as [Hi Hwh]. exists w.
    apply match_indices_exact in Hi; [done|]. by apply Hw, list_elem_of_In.
  - destruct H as (m & Hin & Ho). exists (match_indices m s). split; [|by exists m].
    apply match_indices_exact; [|done]. by apply Hm, list_elem_of_In.
  - destruct H as (w & Hin & Ho & Hwh). eexists. split; [|by exists w].
    apply elem_of_bool_filter. split; [|done]. apply match_indices_exact; [|done]. by apply Hw, list_elem_of_In.
Qed.

(** ** Theorems *)

(** The download-cradle rule finds exactly the scripts in which a fetching
    keyword and a running keyword, each anywhere in the text, stand at most
    [CRADLE_SPAN] bytes apart: skipping over matches loses none of them. *)
Theorem download_cradle_exact uni_alnum s :
  is_download_cradle uni_alnum s = true <->
  exists f r, keyword_at uni_alnum DOWNLOAD_MARKERS DOWNLOAD_WORDS s f /\
    keyword_at uni_alnum EXEC_MARKERS EXEC_WORDS s r /\ abs_diff (Z.of_nat f) (Z.of_nat r) <= CRADLE_SPAN.
Proof.
  unfold is_download_cradle. rewrite existsb_exists. setoid_rewrite existsb_exists.
  setoid_rewrite <- list_elem_of_In. setoid_rewrite Z.leb_le.
  setoid_rewrite elem_of_positions; [|reflexivity..]. naive_solver.
Qed.

(** The masked marker tables decode to the plain markers. *)
Theorem unmask_mask ms :
  Forall (fun s => str_all (fun a => (nat_of_ascii a <? 128)%nat) s = true) ms -> unmask (mask <$> ms) = ms.
Proof.
  intros H. unfold unmask. rewrite <- list_fmap_compose. rewrite <- (list_fmap_id ms) at 2.
  apply list_fmap_ext. intros i s Hs. simpl. apply unmask_mask_one.
  apply (proj1 (Forall_lookup _ _) H i s Hs).
Qed.

Lemma unmask_mask_witness : unmask AMSI_TAMPER_MASKED =
  ["amsiutils"; "amsiinitfailed"; "amsiscanbuffer"; "amsicontext"; "amsiopensession"].
Proof. apply unmask_mask. repeat constructor. Defined.
