(* ===== verification/Sigma.v ===== *)
(** * Sigma: the Sigma rule engine (src/crates/sigma)

    The supported rule subset ([rule.rs]), its validation at load time
    ([validate.rs]), evaluation on an exec event ([eval.rs]) and the directory
    walk that loads rules ([engine.rs]).  Arguments: [lower], Unicode's
    [str::to_lowercase]; [yaml], the YAML parser on the derived fields, which
    leaves the [level] text to [deserialize_level].  A hash map of fields is the
    list of its entries in iteration order. *)
From stdpp Require Import base gmap strings list.
From Stdlib Require Import ZArith Lia Ascii.
From Stdlib Require String.
From S2P Require Import Prelude Str Text Fs Schema.
#[local] Open Scope string_scope.
#[local] Open Scope Z_scope.
#[local] Open Scope list_scope.

(** ** Rules (rule.rs) *)

Inductive ValueList := Single (s : string) | Many (v : list string).
Inductive Selection := FieldMap (fields : list (string * ValueList)) | Keywords (keywords : list string).

Record SigmaDetection := mkSigmaDetection {
  sd_selections : gmap string Selection;
  sd_condition : string }.

Record SigmaRule := mkSigmaRule {
  sr_title : string;
  sr_description : string;
  sr_tags : list string;
  sr_severity : option Severity;
  sr_falsepositives : list string;
  sr_detection : SigmaDetection }.

Record SigmaAlert := mkSigmaAlert {
  sa_title : string;
  sa_tags : list string;
  sa_description : string;
  sa_severity : Severity;
  sa_techniques : list string }.

Definition as_slice (v : ValueList) : list string :=
  match v with Single s => [s] | Many v => v end.

(** The [spec] up to the first [|], and what follows it. *)
Definition parse_field_spec (spec : string) : string * option string :=
  match split_once "|" spec with
  | Some (field, modifier) => (field, Some modifier)
  | None => (spec, None)
  end.

(** [s.trim_matches('*')]: the bytes of [*] at both ends. *)
Definition star : ascii := "*"%char.
Fixpoint drop_byte (c : ascii) (s : string) : string :=
  match s with
  | EmptyString => EmptyString
  | String a s' => if Ascii.eqb a c then drop_byte c s' else s
  end.
Fixpoint drop_byte_end (c : ascii) (s : string) : string :=
  match s with
  | EmptyString => EmptyString
  | String a s' =>
      match drop_byte_end c s' with
      | EmptyString => if Ascii.eqb a c then EmptyString else String a EmptyString
      | t => String a t
      end
  end.
Definition trim_byte (c : ascii) (s : string) : string := drop_byte_end c (drop_byte c s).

(** ** Evaluation (eval.rs) *)

Definition glob_match (haystack pattern : string) : bool :=
  if String.eqb pattern "*" then true
  else
    let inner := trim_byte star pattern in
    match starts_with "*" pattern, ends_with "*" pattern with
    | true, true => str_contains inner haystack
    | true, false => ends_with inner haystack
    | false, true => starts_with inner haystack
    | false, false => String.eqb haystack pattern
    end.

Section Sigma.
Variable lower : string -> string.

Definition match_value (haystack pattern : string) (modifier : option string) : bool :=
  let h := lower haystack in
  let p := lower pattern in
  match lower <$> modifier with
  | None => glob_match h p
  | Some m =>
      if String.eqb m "contains" then str_contains p h
      else if String.eqb m "startswith" then starts_with p h
      else if String.eqb m "endswith" then ends_with p h
      else glob_match h p
  end.

Definition field_text (field : string) (event : ExecEvent) : option string :=
  let f := lower field in
  if String.eqb f "image" then Some (exec_image_path event)
  else if String.eqb f "commandline" then Some (exec_cmdline event)
  else if String.eqb f "parentimage" then exec_parent_image_path event
  else None.

Definition eval_field (field_spec : string) (values : ValueList) (event : ExecEvent) : bool :=
  let '(field, modifier) := parse_field_spec field_spec in
  match field_text field event with
  | Some haystack => existsb (fun v => match_value haystack v modifier) (as_slice values)
  | None => false
  end.

Definition eval_keywords (keywords : list string) (cmdline : string) : bool :=
  let low := lower cmdline in
  existsb (fun kw =>
    let k := lower kw in
    if str_contains "*" k then glob_match low k else str_contains k low) keywords.

Definition eval_selection_exec (selection : Selection) (event : ExecEvent) : bool :=
  match selection with
  | FieldMap fields => forallb (fun fv => eval_field fv.1 fv.2 event) fields
  | Keywords keywords => eval_keywords keywords (exec_cmdline event)
  end.

(** ** Validation (validate.rs) *)

Definition SUPPORTED_FIELDS : list string := ["image"; "commandline"; "parentimage"].
Definition SUPPORTED_MODIFIERS : list string := ["contains"; "startswith"; "endswith"].
Definition KNOWN_PLATFORMS : list string := ["linux"; "windows"; "macos"].

Inductive SigmaError :=
  | SigmaIo (path : string)
  | SigmaYaml (path : string)
  | Unsupported (path what : string)
  | MissingMetadata (path what : string).

Definition unsupported (path what : string) : SigmaError := Unsupported path what.
Definition missing_metadata (path what : string) : SigmaError := MissingMetadata path what.

(** [attack.tNNNN] or [attack.tNNNN.MMM], as an ATT&CK technique id. *)
Definition technique_id (tag : string) : option string :=
  match strip_prefix "attack.t" (lower tag) with
  | None => None
  | Some rest =>
      let '(id, sub) := match split_once "." rest with
                        | Some (id, sub) => (id, Some sub)
                        | None => (rest, None)
                        end in
      if negb (str_len id =? 4)%Z || negb (str_all is_digit id) then None
      else match sub with
           | None => Some (cat ["T"; id])
           | Some sub =>
               if (str_len sub =? 3)%Z && str_all is_digit sub
               then Some (cat ["T"; id; "."; sub]) else None
           end
  end.

Definition validate_condition (rule : SigmaRule) (path : string) : result unit SigmaError :=
  let condition := trim (sd_condition (sr_detection rule)) in
  if String.eqb condition "selection" then Ok tt
  else Err (unsupported path
         (cat ["condition `"; condition; "` (only `condition: selection` is supported)"])).

Definition validate_edge_only_wildcard (value path kind : string) : result unit SigmaError :=
  if str_contains "*" (trim_byte star value)
  then Err (unsupported path
         (cat ["interior wildcard in "; kind; "`"; value; "` (only leading/trailing `*`)"]))
  else Ok tt.

(** [for x in xs { f(x)?; }]. *)
Fixpoint check_all {A : Type} (f : A -> result unit SigmaError) (xs : list A) : result unit SigmaError :=
  match xs with
  | [] => Ok tt
  | x :: xs => match f x with Ok _ => check_all f xs | Err e => Err e end
  end.

Definition validate_field (path : string) (fv : string * ValueList) : result unit SigmaError :=
  let '(field, modifier) := parse_field_spec fv.1 in
  if negb (one_of SUPPORTED_FIELDS (lower field))
  then Err (unsupported path
         (cat ["field `"; field; "` (supported: Image, CommandLine, ParentImage)"]))
  else match modifier with
       | Some m =>
           if negb (one_of SUPPORTED_MODIFIERS (lower m))
           then Err (unsupported path
                  (cat ["modifier `"; m; "` (supported: contains, startswith, endswith)"]))
           else Ok tt
       | None => check_all (fun v => validate_edge_only_wildcard v path "") (as_slice fv.2)
       end.

Definition validate_field_map (fields : list (string * ValueList)) (path : string) : result unit SigmaError :=
  match fields with
  | [] => Err (unsupported path "empty selection (would match everything)")
  | _ => check_all (validate_field path) fields
  end.

Definition validate_keywords (keywords : list string) (path : string) : result unit SigmaError :=
  match keywords with
  | [] => Err (unsupported path "empty keyword list (would match nothing)")
  | _ => check_all (fun kw => validate_edge_only_wildcard kw path "keyword ") keywords
  end.

(** [path.replace('\\', "/")]. *)
Definition forward_slashes (s : string) : string :=
  str_map (fun a => if Ascii.eqb a backslash_char then slash else a) s.

Definition validate_metadata (rule : SigmaRule) (path : string) : result unit SigmaError :=
  match sr_severity rule, sr_falsepositives rule with
  | None, _ => Err (missing_metadata path "missing `level`")
  | Some _, [] => Err (missing_metadata path "missing `falsepositives` (must list at least one known FP scenario, or explain why none are known)")
  | Some _, _ =>
      if negb (existsb (fun t => bool_decide (is_Some (technique_id t))) (sr_tags rule))
      then Err (missing_metadata path "no ATT&CK technique tag in `tags` (expected e.g. `attack.t1059.004`)")
      else if negb (existsb (fun p => str_contains (cat ["/"; p; "/"]) (forward_slashes path)) KNOWN_PLATFORMS)
      then Err (missing_metadata path "not under a known platform directory (linux/windows/macos)")
      else Ok tt
  end.

Definition validate (rule : SigmaRule) (path : string) : result unit SigmaError :=
  match validate_condition rule path with
  | Err e => Err e
  | Ok _ =>
      match sd_selections (sr_detection rule) !! "selection" with
      | None => Err (unsupported path "missing `selection` block")
      | Some selection =>
          match (match selection with
                 | FieldMap fields => validate_field_map fields path
                 | Keywords keywords => validate_keywords keywords path
                 end) with
          | Err e => Err e
          | Ok _ => validate_metadata rule path
          end
      end
  end.

Definition eval_rule_exec (rule : SigmaRule) (event : ExecEvent) : option SigmaAlert :=
  match sd_selections (sr_detection rule) !! "selection" with
  | None => None
  | Some selection =>
      if eval_selection_exec selection event
      then Some (mkSigmaAlert (sr_title rule) (sr_tags rule) (sr_description rule)
                   (default Low (sr_severity rule)) (omap technique_id (sr_tags rule)))
      else None
  end.

(** ** The engine (engine.rs) *)

Record SigmaEngine := mkSigmaEngine { se_rules : list SigmaRule }.

Definition eval_exec (e : SigmaEngine) (event : ExecEvent) : list SigmaAlert :=
  omap (fun rule => eval_rule_exec rule event) (se_rules e).
Definition rule_count (e : SigmaEngine) : Z := Z.of_nat (length (se_rules e)).
Definition rule_titles (e : SigmaEngine) : list string := sr_title <$> se_rules e.

(** What the derived deserialiser leaves of a document: every field, the level
    as text. *)
Record RawRule := mkRawRule { raw_level : option string; raw_rule : SigmaRule }.

Definition deserialize_level (raw : option string) : result (option Severity) string :=
  match raw with
  | None => Ok None
  | Some raw =>
      let l := lower raw in
      if one_of ["informational"; "low"] l then Ok (Some Low)
      else if String.eqb l "medium" then Ok (Some Medium)
      else if String.eqb l "high" then Ok (Some High)
      else if String.eqb l "critical" then Ok (Some Critical)
      else Err (cat ["unrecognized Sigma `level` value `"; l;
                     "` (expected informational/low/medium/high/critical)"])
  end.

Definition with_level (level : option Severity) (r : SigmaRule) : SigmaRule :=
  mkSigmaRule (sr_title r) (sr_description r) (sr_tags r) level (sr_falsepositives r) (sr_detection r).

Variable yaml : string -> option RawRule.

(** A file of the rule tree: its path, its extension and its text when it can be
    read.  A directory: its path and its listing when it can be read. *)
Record RuleFile := mkRuleFile { rf_path : string; rf_extension : option string; rf_content : option string }.
Inductive RuleDir := mkRuleDir (path : string) (listing : option (list (RuleFile + RuleDir))).

Definition load_rule (f : RuleFile) : result SigmaRule SigmaError :=
  match rf_content f with
  | None => Err (SigmaIo (rf_path f))
  | Some content =>
      match yaml content with
      | None => Err (SigmaYaml (rf_path f))
      | Some raw =>
          match deserialize_level (raw_level raw) with
          | Err _ => Err (SigmaYaml (rf_path f))
          | Ok level =>
              let rule := with_level level (raw_rule raw) in
              match validate rule (rf_path f) with
              | Ok _ => Ok rule
              | Err e => Err e
              end
          end
      end
  end.

Definition is_rule_file (f : RuleFile) : bool :=
  match rf_extension f with Some e => one_of ["yml"; "yaml"] e | None => false end.

(** One directory's entries: rules are appended in listing order, directories are
    pushed. *)
Fixpoint load_entries (entries : list (RuleFile + RuleDir)) (rules : list SigmaRule) (stack : list RuleDir)
    : list SigmaRule * list RuleDir :=
  match entries with
  | [] => (rules, stack)
  | inr d :: entries => load_entries entries rules (d :: stack)
  | inl f :: entries =>
      let rules := if is_rule_file f
                   then match load_rule f with Ok rule => rules ++ [rule] | Err _ => rules end
                   else rules in
      load_entries entries rules stack
  end.

(** The stack, top first; [None] is fuel run out. *)
Fixpoint load_loop (fuel : nat) (rules : list SigmaRule) (stack : list RuleDir)
    : option (result SigmaEngine SigmaError) :=
  match stack with
  | [] => Some (Ok (mkSigmaEngine rules))
  | mkRuleDir path listing :: stack =>
      match fuel with
      | O => None
      | S fuel =>
          match listing with
          | None => Some (Err (SigmaIo path))
          | Some entries =>
              let '(rules, stack) := load_entries entries rules stack in
              load_loop fuel rules stack
          end
      end
  end.

Fixpoint dir_size (d : RuleDir) : nat :=
  match d with
  | mkRuleDir _ None => 1
  | mkRuleDir _ (Some entries) =>
      S ((fix go es := match es with
                       | [] => 0
                       | inl _ :: es => go es
                       | inr d :: es => dir_size d + go es
                       end) entries)
  end%nat.

Definition load_dir (dir : RuleDir) : option (result SigmaEngine SigmaError) :=
  load_loop (dir_size dir) [] [dir].

End Sigma.

(** ** Globs *)

(** What a pattern with [*] means. *)
Inductive Glob : string -> string -> Prop :=
  | glob_nil : Glob "" ""
  | glob_char a p s : a <> star -> Glob p s -> Glob (String a p) (String a s)
  | glob_star p x s : Glob p s -> Glob (String star p) (x +:+ s).

Fixpoint stars (n : nat) : string := match n with O => EmptyString | S n => String star (stars n) end.

Lemma glob_nil_inv s : Glob "" s <-> s = "".
Proof. split; [by inversion 1|intros ->; constructor]. Qed.

Lemma glob_star_inv p s : Glob (String star p) s <-> exists x t, s = x +:+ t /\ Glob p t.
Proof.
  split.
  - inversion 1; subst; [done|]. eauto.
  - intros (x & t & -> & H). by constructor.
Qed.

(** A run of stars means one. *)
Lemma glob_stars n p s : Glob (stars (S n) +:+ p) s <-> exists x t, s = x +:+ t /\ Glob p t.
Proof.
  revert s. induction n as [|n IH]; intros s; [apply glob_star_inv|].
  change (stars (S (S n)) +:+ p) with (String star (stars (S n) +:+ p)).
  rewrite glob_star_inv. split.
  - intros (x & t & -> & H). apply IH in H as (y & u & -> & H). exists (x +:+ y), u.
    by rewrite str_app_assoc.
  - intros (x & t & -> & H). exists x, t. split; [done|]. apply IH. by exists "", t.
Qed.

Definition no_star (s : string) : bool := negb (str_contains "*" s).

Lemma no_star_cons a s : no_star (String a s) = negb (Ascii.eqb a star) && no_star s.
Proof.
  unfold no_star. change (str_contains "*" (String a s))
    with (starts_with "*" (String a s) || str_contains "*" s).
  unfold starts_with, strip_prefix. change "*"%char with star.
  rewrite (Ascii.eqb_sym star a). by destruct (Ascii.eqb a star).
Qed.

Lemma glob_literal_app l p s :
  no_star l = true -> Glob (l +:+ p) s <-> exists t, s = l +:+ t /\ Glob p t.
Proof.
  revert s. induction l as [|a l IH]; intros s Hl; simpl.
  { split; [eauto|]. by intros (t & -> & H). }
  rewrite no_star_cons in Hl. apply andb_true_iff in Hl as [Ha Hl].
  apply negb_true_iff, Ascii.eqb_neq in Ha. split.
  - inversion 1; subst; [|done]. apply IH in H4 as (t & -> & H'); [|done]. by exists t.
  - intros (t & -> & H'). constructor; [done|]. apply IH; [done|]. by exists t.
Qed.

(** ** Trimming *)

Lemma drop_byte_spec s :
  exists n, s = stars n +:+ drop_byte star s /\ starts_with "*" (drop_byte star s) = false.
Proof.
  induction s as [|a s (n & Hs & Hn)]; [by exists 0%nat|]. simpl.
  destruct (Ascii.eqb_spec a star) as [->|Ha].
  - exists (S n). split; [exact (f_equal (String star) Hs)|done].
  - exists 0%nat. split; [done|]. unfold starts_with, strip_prefix. change "*"%char with star.
    destruct (Ascii.eqb_spec star a); congruence.
Qed.

Lemma drop_byte_end_spec s :
  exists n, s = drop_byte_end star s +:+ stars n /\ ends_with "*" (drop_byte_end star s) = false.
Proof.
  induction s as [|a s (n & Hs & Hn)]; [by exists 0%nat|]. simpl.
  destruct (drop_byte_end star s) as [|b t] eqn:E.
  - destruct (Ascii.eqb_spec a star) as [->|Ha].
    + exists (S n). split; [exact (f_equal (String star) Hs)|done].
    + exists n. split; [exact (f_equal (String a) Hs)|].
      unfold ends_with. cbn [strip_suffix]. by destruct (String.eqb_spec (String a "") "*") as [[= ->]|].
  - exists n. split; [exact (f_equal (String a) Hs)|].
    unfold ends_with in *. change (strip_suffix "*" (String a (String b t)))
      with (if String.eqb (String a (String b t)) "*" then Some "" else String a <$> strip_suffix "*" (String b t)).
    destruct (String.eqb_spec (String a (String b t)) "*") as [[=]|]; [].
    destruct (strip_suffix "*" (String b t)); done.
Qed.

Lemma starts_with_stars n s :
  starts_with "*" s = false -> starts_with "*" (stars n +:+ s) = (0 <? n)%nat.
Proof. destruct n as [|n]; [by intros H|done]. Qed.

Lemma ends_with_app_nonempty s t :
  ends_with "*" t = false -> t <> "" -> ends_with "*" (s +:+ t) = false.
Proof.
  intros Ht Hne. destruct (ends_with "*" (s +:+ t)) eqn:E; [|done]. rewrite <- Ht. symmetry.
  apply ends_with_spec in E as [r Hr]. apply ends_with_spec. revert r Hr.
  induction s as [|a s IH]; intros r Hr; [by exists r|].
  destruct r as [|b r]; [|injection Hr as -> Hr; eauto].
  injection Hr as -> Hr. by destruct s, t.
Qed.

Lemma stars_snoc n : String star (stars n) = stars n +:+ String star "".
Proof. induction n as [|n IH]; [done|]. exact (f_equal (String star) IH). Qed.

Lemma ends_with_stars s n : ends_with "*" (s +:+ stars (S n)) = true.
Proof.
  apply ends_with_spec. exists (s +:+ stars n). rewrite str_app_assoc. f_equal. apply stars_snoc.
Qed.

(** A pattern is its trimmed middle between the stars the two edge tests see. *)
Lemma trim_byte_spec p :
  exists n m, p = stars n +:+ trim_byte star p +:+ stars m /\
    starts_with "*" p = (0 <? n)%nat /\
    (trim_byte star p <> "" -> ends_with "*" p = (0 <? m)%nat) /\
    (trim_byte star p = "" -> ends_with "*" p = (0 <? n)%nat /\ m = 0%nat).
Proof.
  destruct (drop_byte_spec p) as (n & Hp & Hs). destruct (drop_byte_end_spec (drop_byte star p)) as (m & Hd & He).
  fold (trim_byte star p) in Hd, He. exists n, m. split_and!.
  - by rewrite <- Hd.
  - rewrite Hp at 1. by apply starts_with_stars.
  - intros Hne. rewrite Hp, Hd. destruct m as [|m].
    + rewrite str_app_nil_r. by apply ends_with_app_nonempty.
    + rewrite <- str_app_assoc. exact (ends_with_stars _ m).
  - intros Hnil. rewrite Hnil in Hd. simpl in Hd. rewrite Hd in Hs. destruct m as [|m]; [|done].
    split; [|done]. rewrite Hp, Hd, str_app_nil_r. destruct n as [|n]; [done|exact (ends_with_stars "" n)].
Qed.

Lemma glob_all_stars n s : Glob (stars (S n)) s.
Proof. rewrite <- (str_app_nil_r (stars (S n))). apply glob_stars. exists s, "". split; [by rewrite str_app_nil_r|constructor]. Qed.

(** On a pattern with stars only at its edges, the four cases of [glob_match] are
    the meaning of the pattern. *)
Lemma glob_match_spec h p :
  no_star (trim_byte star p) = true -> glob_match h p = true <-> Glob p h.
Proof.
  intros Hns. unfold glob_match.
  destruct (String.eqb_spec p "*") as [->|_]; [split; [intros _; apply (glob_all_stars 0)|done]|].
  destruct (trim_byte_spec p) as (n & m & Hp & Hst & Hne & Hnil). revert Hp Hst Hne Hnil Hns.
  generalize (trim_byte star p) as t. intros t Hp -> Hne Hnil Hns.
  destruct (decide (t = "")) as [->|Ht].
  { destruct (Hnil eq_refl) as [-> ->]. subst p. destruct n as [|n]; simpl.
    - change ("" +:+ "" +:+ "") with "". rewrite glob_nil_inv. destruct (String.eqb_spec h ""); by split.
    - change ("" +:+ "") with "". rewrite str_app_nil_r.
      split; [intros _; apply (glob_all_stars n)|intros _; by destruct h]. }
  rewrite (Hne Ht). clear Hne Hnil. subst p. destruct n as [|n], m as [|m]; cbn [Nat.ltb Nat.leb stars].
  - change (stars 0) with "". rewrite str_app_nil_r.
    change ("" +:+ t) with t. rewrite <- (str_app_nil_r t), glob_literal_app by done.
    rewrite str_app_nil_r. destruct (String.eqb_spec h t) as [->|Hn]; split; try done.
    + intros _. exists "". rewrite str_app_nil_r. split; [done|constructor].
    + intros (x & -> & H). apply glob_nil_inv in H as ->. by rewrite str_app_nil_r in Hn.
  - change ("" +:+ t +:+ String star (stars m)) with (t +:+ stars (S m)).
    rewrite starts_with_spec, glob_literal_app by done.
    split; [intros [r ->]; exists r; split; [done|apply glob_all_stars]|intros (r & -> & _); eauto].
  - change (String star (stars n)) with (stars (S n)). change (stars 0) with "".
    rewrite str_app_nil_r, glob_stars, ends_with_spec.
    split.
    + intros [r ->]. exists r, t. split; [done|]. rewrite <- (str_app_nil_r t) at 1.
      apply glob_literal_app; [done|]. exists "". rewrite str_app_nil_r. split; [done|constructor].
    + intros (x & u & -> & H). rewrite <- (str_app_nil_r t) in H. apply glob_literal_app in H as (w & -> & H); [|done].
      apply glob_nil_inv in H as ->. exists x. by rewrite str_app_nil_r.
  - change (String star (stars n)) with (stars (S n)). change (String star (stars m)) with (stars (S m)).
    rewrite glob_stars, str_contains_spec. split.
    + intros (a & b & ->). exists a, (t +:+ b). split; [done|]. apply glob_literal_app; [done|]. exists b.
      split; [done|apply glob_all_stars].
    + intros (x & u & -> & H). apply glob_literal_app in H as (w & -> & _); [|done]. by exists x, w.
Qed.

(** ** Validated rules *)

Lemma check_all_ok {A : Type} (f : A -> result unit SigmaError) xs :
  check_all f xs = Ok tt -> forall x, x ∈ xs -> f x = Ok tt.
Proof.
  induction xs as [|y xs IH]; simpl; [by intros _ x Hx%elem_of_nil|].
  destruct (f y) as [[]|] eqn:E; [|done]. intros H x [->|Hx]%elem_of_cons; auto.
Qed.

Lemma validate_edge_only_ok v path kind :
  validate_edge_only_wildcard v path kind = Ok tt -> no_star (trim_byte star v) = true.
Proof. unfold validate_edge_only_wildcard, no_star. by destruct (str_contains _ _). Qed.

Lemma one_of_spec xs s : one_of xs s = true <-> s ∈ xs.
Proof.
  unfold one_of. rewrite existsb_exists. split.
  - by intros (x & Hx%list_elem_of_In & ->%String.eqb_eq).
  - intros H. exists s. split; [by apply list_elem_of_In|apply String.eqb_refl].
Qed.

(** The text a field names, and what its modifier asks of a value: the documented
    subset, with no other case. *)
Definition field_means (field : string) (ev : ExecEvent) (text : string) : Prop :=
  (field = "image" /\ text = exec_image_path ev) \/
  (field = "commandline" /\ text = exec_cmdline ev) \/
  (field = "parentimage" /\ exec_parent_image_path ev = Some text).

Definition modifier_means (modifier : option string) (h p : string) : Prop :=
  (modifier = None /\ Glob p h) \/
  (modifier = Some "contains" /\ exists a b, h = a +:+ p +:+ b) \/
  (modifier = Some "startswith" /\ exists b, h = p +:+ b) \/
  (modifier = Some "endswith" /\ exists a, h = a +:+ p).

Definition keyword_means (k h : string) : Prop :=
  if str_contains "*" k then Glob k h else exists a b, h = a +:+ k +:+ b.

Section Validated.
Context (lower : string -> string).
(** Lower case neither makes nor moves a star. *)
Hypothesis lower_stars :
  forall v, no_star (trim_byte star v) = true -> no_star (trim_byte star (lower v)) = true.

Lemma field_text_means field ev text :
  field_text lower field ev = Some text <-> field_means (lower field) ev text.
Proof.
  unfold field_text, field_means.
  destruct (String.eqb_spec (lower field) "image") as [->|]; [naive_solver|].
  destruct (String.eqb_spec (lower field) "commandline") as [->|]; [naive_solver|].
  destruct (String.eqb_spec (lower field) "parentimage") as [->|]; naive_solver.
Qed.

Lemma match_value_means text v modifier :
  (forall m, modifier = Some m -> lower m ∈ SUPPORTED_MODIFIERS) ->
  (modifier = None -> no_star (trim_byte star v) = true) ->
  match_value lower text v modifier = true <-> modifier_means (lower <$> modifier) (lower text) (lower v).
Proof.
  intros Hm Hv. unfold match_value, modifier_means. destruct modifier as [m|]; simpl.
  - specialize (Hm m eq_refl). unfold SUPPORTED_MODIFIERS in Hm. rewrite !elem_of_cons in Hm.
    destruct Hm as [->|[->|[->|[]%elem_of_nil]]]; simpl;
      rewrite ?str_contains_spec, ?starts_with_spec, ?ends_with_spec; naive_solver.
  - rewrite glob_match_spec by auto. naive_solver.
Qed.

Lemma validate_field_ok path spec values field modifier :
  parse_field_spec spec = (field, modifier) -> validate_field lower path (spec, values) = Ok tt ->
  lower field ∈ SUPPORTED_FIELDS /\
  (forall m, modifier = Some m -> lower m ∈ SUPPORTED_MODIFIERS) /\
  (modifier = None -> forall v, v ∈ as_slice values -> no_star (trim_byte star v) = true).
Proof.
  unfold validate_field. cbn [fst snd]. intros ->. destruct (one_of SUPPORTED_FIELDS (lower field)) eqn:Ef; [cbn [negb]|done].
  apply one_of_spec in Ef. destruct modifier as [m|].
  - destruct (one_of SUPPORTED_MODIFIERS (lower m)) eqn:Em; [|done]. intros _. apply one_of_spec in Em. naive_solver.
  - intros Hc. split_and!; [done..|]. intros _ v Hv.
    apply (check_all_ok _ _ Hc) in Hv. by eapply validate_edge_only_ok.
Qed.

Lemma eval_field_means path spec values ev :
  validate_field lower path (spec, values) = Ok tt ->
  eval_field lower spec values ev = true <->
  exists text v, field_means (lower (parse_field_spec spec).1) ev text /\ v ∈ as_slice values /\
    modifier_means (lower <$> (parse_field_spec spec).2) (lower text) (lower v).
Proof.
  intros Hv. unfold eval_field. destruct (parse_field_spec spec) as [field modifier] eqn:Es. simpl.
  destruct (validate_field_ok _ _ _ _ _ Es Hv) as (_ & Hm & Hs).
  setoid_rewrite <- field_text_means. destruct (field_text lower field ev) as [text|]; [|naive_solver].
  rewrite existsb_exists. split.
  - intros (v & Hin & Hmv). apply list_elem_of_In in Hin. apply match_value_means in Hmv; [|eauto..]. eauto.
  - intros (t & v & [= <-] & Hin & Hmv). exists v. split; [by apply list_elem_of_In|].
    apply match_value_means; eauto.
Qed.

Lemma eval_keywords_means path kws cmdline :
  check_all (fun kw => validate_edge_only_wildcard kw path "keyword ") kws = Ok tt ->
  eval_keywords lower kws cmdline = true <->
  exists kw, kw ∈ kws /\ keyword_means (lower kw) (lower cmdline).
Proof.
  intros Hc. unfold eval_keywords, keyword_means. rewrite existsb_exists. split.
  - intros (kw & Hin & H). apply list_elem_of_In in Hin. exists kw. split; [done|].
    apply (check_all_ok _ _ Hc) in Hin. apply validate_edge_only_ok, lower_stars in Hin.
    destruct (str_contains "*" (lower kw)); [by apply glob_match_spec|by apply str_contains_spec].
  - intros (kw & Hin & H). exists kw. split; [by apply list_elem_of_In|].
    apply (check_all_ok _ _ Hc) in Hin. apply validate_edge_only_ok, lower_stars in Hin.
    destruct (str_contains "*" (lower kw)); [by apply glob_match_spec|by apply str_contains_spec].
Qed.

Lemma validate_inv rule path :
  validate lower rule path = Ok tt ->
  exists sel, sd_selections (sr_detection rule) !! "selection" = Some sel /\
    match sel with
    | FieldMap fields => fields <> [] /\ check_all (validate_field lower path) fields = Ok tt
    | Keywords kws => kws <> [] /\ check_all (fun kw => validate_edge_only_wildcard kw path "keyword ") kws = Ok tt
    end /\ validate_metadata lower rule path = Ok tt.
Proof.
  unfold validate. destruct (validate_condition rule path) as [[]|]; [|done].
  destruct (_ !! "selection") as [[[|x fields]|[|x kws]]|]; simpl; try done.
  - destruct (validate_field lower path x) as [[]|] eqn:E; [|done].
    destruct (check_all _ fields) as [[]|] eqn:E'; [|done]. intros H. exists (FieldMap (x :: fields)).
    split_and!; [done|done| |done]. simpl. by rewrite E.
  - destruct (validate_edge_only_wildcard x path _) as [[]|] eqn:E; [|done].
    destruct (check_all _ kws) as [[]|] eqn:E'; [|done]. intros H. exists (Keywords (x :: kws)).
    split_and!; [done|done| |done]. simpl. by rewrite E.
Qed.

Lemma validate_metadata_inv rule path :
  validate_metadata lower rule path = Ok tt ->
  is_Some (sr_severity rule) /\ omap (technique_id lower) (sr_tags rule) <> [].
Proof.
  unfold validate_metadata. destruct (sr_severity rule), (sr_falsepositives rule); try done.
  destruct (existsb _ (sr_tags rule)) eqn:E; [|done]. intros _. split; [done|].
  apply existsb_exists in E as (t & Hin%list_elem_of_In & Ht%bool_decide_eq_true).
  destruct Ht as [i Hi]. intros Hn. apply (elem_of_nil i). rewrite <- Hn. apply list_elem_of_omap. eauto.
Qed.

(** C19. A rule the validator accepts means what the documentation of the supported
    subset says, on every event: its field selection asks for every field one of
    its values, under the glob meaning of edge wildcards or the named modifier (no
    unsupported field or modifier is ever reached), a keyword selection for one of
    its keywords; an alert carries the rule's own level and at least one ATT&CK
    technique. *)
Theorem validated_rule_semantics rule path ev :
  validate lower rule path = Ok tt ->
  exists sel, sd_selections (sr_detection rule) !! "selection" = Some sel /\
  (is_Some (eval_rule_exec lower rule ev) <->
   match sel with
   | FieldMap fields =>
       fields <> [] /\
       forall spec values, (spec, values) ∈ fields ->
         exists text v, field_means (lower (parse_field_spec spec).1) ev text /\ v ∈ as_slice values /\
           modifier_means (lower <$> (parse_field_spec spec).2) (lower text) (lower v)
   | Keywords kws => exists kw, kw ∈ kws /\ keyword_means (lower kw) (lower (exec_cmdline ev))
   end) /\
  (forall al, eval_rule_exec lower rule ev = Some al ->
     sr_severity rule = Some (sa_severity al) /\ sa_techniques al <> []).
Proof.
  intros Hv. apply validate_inv in Hv as (sel & Hsel & Hok & Hmeta).
  apply validate_metadata_inv in Hmeta as [[sev Hsev] Htech].
  exists sel. split; [done|]. unfold eval_rule_exec. rewrite Hsel, Hsev. simpl. split.
  - transitivity (eval_selection_exec lower sel ev = true).
    { destruct (eval_selection_exec lower sel ev); split; naive_solver eauto. }
    destruct sel as [fields|kws]; simpl; destruct Hok as [Hne Hc].
    + rewrite forallb_forall. split.
      * intros H. split; [done|]. intros spec values Hin. eapply eval_field_means; [by eapply check_all_ok|].
        by apply (H (spec, values)), list_elem_of_In.
      * intros [_ H] [spec values] Hin. apply list_elem_of_In in Hin. simpl.
        eapply eval_field_means; [by eapply check_all_ok|]. by apply H.
    + by apply (eval_keywords_means path).
  - intros al. destruct (eval_selection_exec lower sel ev); [|done]. by intros [= <-].
Qed.
End Validated.

(** ** Loading a directory *)

(** The files and the directories of a rule tree. *)
Inductive in_tree (f : RuleFile) : RuleDir -> Prop :=
  | in_tree_here p es : inl f ∈ es -> in_tree f (mkRuleDir p (Some es))
  | in_tree_below p es d : inr d ∈ es -> in_tree f d -> in_tree f (mkRuleDir p (Some es)).

Inductive unreadable (p : string) : RuleDir -> Prop :=
  | unreadable_here : unreadable p (mkRuleDir p None)
  | unreadable_below q es d : inr d ∈ es -> unreadable p d -> unreadable p (mkRuleDir q (Some es)).

Definition sizes (ds : list RuleDir) : nat := foldr (fun d n => dir_size d + n)%nat 0%nat ds.

Fixpoint subdirs (es : list (RuleFile + RuleDir)) : list RuleDir :=
  match es with [] => [] | inl _ :: es => subdirs es | inr d :: es => d :: subdirs es end.

Lemma elem_of_subdirs d es : d ∈ subdirs es <-> inr d ∈ es.
Proof. induction es as [|[f|d'] es IH]; simpl; rewrite ?elem_of_cons; [by rewrite !elem_of_nil| |]; naive_solver. Qed.

Lemma dir_size_unfold p es : dir_size (mkRuleDir p (Some es)) = S (sizes (subdirs es)).
Proof. cbn [dir_size]. f_equal. induction es as [|[f|d] es IH]; [done..|]. simpl. by f_equal. Qed.

Section Loading.
Context (lower : string -> string) (yaml : string -> option RawRule).
Notation load_rule := (load_rule lower yaml).

Definition loads (f : RuleFile) (rule : SigmaRule) : Prop :=
  is_rule_file f = true /\ load_rule f = Ok rule.

Lemma load_rule_validated f rule : load_rule f = Ok rule -> validate lower rule (rf_path f) = Ok tt.
Proof.
  unfold Sigma.load_rule. destruct (rf_content f) as [c|]; [|done]. destruct (yaml c) as [raw|]; [|done].
  destruct (deserialize_level lower (raw_level raw)); [|done].
  destruct (validate _ _ _) as [[]|] eqn:E; [|done]. by intros [= <-].
Qed.

Lemma load_file_spec f rules rule :
  rule ∈ (if is_rule_file f
          then match load_rule f with Ok rule => rules ++ [rule] | Err _ => rules end else rules)
  <-> rule ∈ rules \/ loads f rule.
Proof.
  unfold loads. destruct (is_rule_file f); [destruct (load_rule f) as [r|]|].
  - rewrite elem_of_app, list_elem_of_singleton. split; [intros [?| ->]; auto|intros [?|[_ [= <-]]]; auto].
  - split; [by left|]. by intros [?|[_ ?]].
  - split; [by left|]. by intros [?|[? _]].
Qed.

Lemma load_entries_spec es rules stack rules' stack' :
  load_entries lower yaml es rules stack = (rules', stack') ->
  (sizes stack' = sizes (subdirs es) + sizes stack)%nat /\
  (forall d, d ∈ stack' <-> inr d ∈ es \/ d ∈ stack) /\
  (forall rule, rule ∈ rules' <-> rule ∈ rules \/ exists f, inl f ∈ es /\ loads f rule).
Proof.
  revert rules stack. induction es as [|[f|d] es IH]; intros rules stack; cbn [load_entries subdirs].
  - intros [= <- <-]. setoid_rewrite elem_of_nil. split_and!; [done|naive_solver..].
  - intros H. apply IH in H as (Hs & Hd & Hr). split_and!; [done| |].
    + intros d. rewrite Hd, elem_of_cons. naive_solver.
    + intros rule. rewrite Hr, load_file_spec. setoid_rewrite elem_of_cons. split.
      * intros [[K|K]|(g & Hg & K)]; [by left|right; exists f; auto|right; exists g; auto].
      * intros [K|(g & [[= ->]|Hg] & K)]; [by left; left|by left; right|right; eauto].
  - intros H. apply IH in H as (Hs & Hd & Hr). split_and!.
    + simpl in *. lia.
    + intros d'. rewrite Hd, !elem_of_cons. naive_solver.
    + intros rule. rewrite Hr. setoid_rewrite elem_of_cons. naive_solver.
Qed.

Lemma load_loop_spec fuel rules stack :
  (sizes stack <= fuel)%nat ->
  exists r, load_loop lower yaml fuel rules stack = Some r /\
  match r with
  | Ok e => (forall rule, rule ∈ se_rules e <->
               rule ∈ rules \/ exists d f, d ∈ stack /\ in_tree f d /\ loads f rule) /\
            forall d p, d ∈ stack -> ~ unreadable p d
  | Err e => exists d p, e = SigmaIo p /\ d ∈ stack /\ unreadable p d
  end.
Proof.
  revert rules stack. induction fuel as [|fuel IH]; intros rules [|[p [es|]] stack] Hf; cbn [load_loop].
  1, 4: eexists; split; [done|]; split;
    [intros rule; split; [by left|by intros [?|(? & ? & []%elem_of_nil & _)]]|by intros d p []%elem_of_nil].
  1: { unfold sizes in Hf. cbn [foldr] in Hf. rewrite dir_size_unfold in Hf. lia. }
  1: { unfold sizes in Hf. cbn [foldr dir_size] in Hf. lia. }
  2: { eexists; split; [done|]. exists (mkRuleDir p None), p. split_and!; [done|apply elem_of_cons; by left|constructor]. }
  destruct (load_entries lower yaml es rules stack) as [rules' stack'] eqn:E.
  apply load_entries_spec in E as (Hs & Hd & Hr).
  destruct (IH rules' stack') as (r & -> & Hspec).
  { unfold sizes in Hf. cbn [foldr] in Hf. rewrite dir_size_unfold in Hf. fold (sizes stack) in Hf. lia. }
  exists r. split; [done|]. destruct r as [e|e].
  - destruct Hspec as [He Hu]. split.
    + intros rule. rewrite He, Hr. setoid_rewrite Hd. setoid_rewrite elem_of_cons. split.
      * intros [[H|(f & Hin & Hl)]|(d & f & [Hin|Hin] & Ht & Hl)]; [by left|right..].
        -- exists (mkRuleDir p (Some es)), f. split_and!; [by left|by constructor|done].
        -- exists (mkRuleDir p (Some es)), f. split_and!; [by left|by econstructor|done].
        -- exists d, f. auto.
      * intros [H|(d & f & [->|Hin] & Ht & Hl)]; [by left; left| |right; exists d, f; auto].
        inversion Ht as [? ? Hin|? ? d' Hin Ht']; subst; [left; right; by exists f|right; exists d', f; auto].
    + intros d q [->|Hin]%elem_of_cons Hun; [|eapply Hu; [apply Hd; by right|done]].
      inversion Hun; subst. eapply Hu; [apply Hd; left; done|done].
  - destruct Hspec as (d & q & -> & Hin & Hun). apply Hd in Hin as [Hin|Hin].
    + exists (mkRuleDir p (Some es)), q. split_and!; [done|apply elem_of_cons; by left|by econstructor].
    + exists d, q. split_and!; [done|apply elem_of_cons; by right|done].
Qed.

(** Loading a rule directory always ends.  It fails only on a directory that
    cannot be listed; otherwise the engine holds exactly the rules of the tree's
    [.yml] and [.yaml] files that load, every one of them validated: a bad file
    costs that file only. *)
Theorem load_dir_exact dir :
  exists r, load_dir lower yaml dir = Some r /\
  match r with
  | Ok e => (forall p, ~ unreadable p dir) /\
            forall rule, rule ∈ se_rules e <-> exists f, in_tree f dir /\ loads f rule /\
                           validate lower rule (rf_path f) = Ok tt
  | Err e => exists p, e = SigmaIo p /\ unreadable p dir
  end.
Proof.
  unfold load_dir. destruct (load_loop_spec (dir_size dir) [] [dir]) as (r & -> & H).
  { simpl. lia. }
  exists r. split; [done|]. destruct r as [e|e].
  - destruct H as [He Hu]. split; [intros p; by apply Hu, list_elem_of_singleton|].
    intros rule. rewrite He, elem_of_nil. split.
    + intros [[]|(d & f & ->%list_elem_of_singleton & Ht & Hl)]. exists f. split_and!; [done..|].
      by apply load_rule_validated, Hl.
    + intros (f & Ht & Hl & _). right. exists dir, f. by rewrite list_elem_of_singleton.
  - destruct H as (d & p & -> & ->%list_elem_of_singleton & Hun). eauto.
Qed.
End Loading.

(** ** Examples *)

Definition sample_sigma (sel : Selection) : SigmaRule :=
  mkSigmaRule "r" "" ["attack.t1059.004"] (Some High) ["none"]
    (mkSigmaDetection {[ "selection" := sel ]} "selection").

(** A field with an empty value list passes validation although the rule can
    then never match: the validator refuses an empty keyword list as one that would
    match nothing, but not an empty list of values. *)
Theorem empty_values_accepted_never_match :
  validate to_ascii_lowercase (sample_sigma (FieldMap [("Image", Many [])])) "rules/linux/r.yml" = Ok tt /\
  forall ev, eval_rule_exec to_ascii_lowercase (sample_sigma (FieldMap [("Image", Many [])])) ev = None.
Proof. split; [by vm_compute|]. intros ev. reflexivity. Qed.

Lemma ascii_lower_star a : ascii_lower a = star <-> a = star.
Proof. split; [|by intros ->]. destruct a as [[] [] [] [] [] [] [] []]; vm_compute; congruence. Qed.

Lemma ascii_lower_trim v : trim_byte star (to_ascii_lowercase v) = to_ascii_lowercase (trim_byte star v).
Proof.
  assert (forall a, Ascii.eqb (ascii_lower a) star = Ascii.eqb a star) as Ha.
  { intros a. apply eq_bool_prop_intro. rewrite !Is_true_true, !Ascii.eqb_eq. apply ascii_lower_star. }
  unfold trim_byte.
  assert (drop_byte star (to_ascii_lowercase v) = to_ascii_lowercase (drop_byte star v)) as ->.
  { induction v as [|a v IH]; [done|]. cbn. rewrite Ha. by destruct (Ascii.eqb a star). }
  induction (drop_byte star v) as [|a s IH]; [done|]. cbn. unfold to_ascii_lowercase in IH. rewrite IH, Ha.
  destruct (drop_byte_end star s); [by destruct (Ascii.eqb a star)|done].
Qed.

Lemma ascii_lower_stars v :
  no_star (trim_byte star v) = true -> no_star (trim_byte star (to_ascii_lowercase v)) = true.
Proof.
  rewrite ascii_lower_trim. induction (trim_byte star v) as [|a s IH]; [done|]. cbn [to_ascii_lowercase str_map].
  rewrite !no_star_cons, !andb_true_iff, !negb_true_iff, !Ascii.eqb_neq. rewrite ascii_lower_star.
  intros [H1 H2]. split; [done|]. by apply IH.
Qed.

Definition sample_sigma_exec : ExecEvent :=
  mkExecEvent sample_meta "/usr/bin/nc" "nc -e /bin/sh" [] None None None None [].

Lemma validated_rule_semantics_witness :
  exists text v, field_means "image" sample_sigma_exec text /\ v ∈ ["/NC"] /\
    modifier_means (Some "endswith") (to_ascii_lowercase text) (to_ascii_lowercase v).
Proof.
  destruct (validated_rule_semantics to_ascii_lowercase ascii_lower_stars
    (sample_sigma (FieldMap [("Image|EndsWith", Single "/NC")])) "rules/linux/r.yml" sample_sigma_exec)
    as (sel & Hsel & Hiff & _); [reflexivity|].
  injection Hsel as <-. destruct Hiff as [Hiff _].
  destruct Hiff as [_ Hiff]; [eexists; reflexivity|].
  apply (Hiff "Image|EndsWith" (Single "/NC")). apply elem_of_cons. by left.
Defined.
