(* ===== verification/RuleState.v ===== *)
(** * RuleState: the state of the stateful rules (src/crates/rules/src/state.rs)

    The record of bounded maps, the path helpers of the rules, and the way a
    handler reads and writes one of the maps.  A handler is a computation in
    [Rules]: it threads the state, and [None] is a panic. *)
From stdpp Require Import base gmap strings list.
From Stdlib Require Import ZArith Lia Ascii.
From Stdlib Require String.
From S2P Require Import Prelude Bounded Sliding Str Text Schema Policy Stateless.

Record RecentWrite := mkRecentWrite { rw_pid : Z; rw_comm : string; rw_timestamp_ns : Z }.
Record RecentQuarantine := mkRecentQuarantine {
  rq_timestamp_ns : Z; rq_agent : option string; rq_origin_url : option string; rq_alerted : bool }.
Record ReportedTaskRegistration := mkTaskRegistration { tr_timestamp_ns : Z; tr_actions : option string }.
Record PidFact := mkPidFact { pf_generation : option Z; pf_value : string }.
Record PendingProcFdExec := mkPending { pp_path : string; pp_fd : Z; pp_comm : string; pp_timestamp_ns : Z }.

Definition PidFact_seeded (value : string) : PidFact := mkPidFact None value.

Definition PidFact_current (map : BoundedMap Z PidFact) (pid : Z) (generation : option Z) : option string :=
  fact ← bm_peek pid map;
  match pf_generation fact, generation with
  | Some recorded, Some wanted => if recorded =? wanted then Some (pf_value fact) else None
  | _, _ => Some (pf_value fact)
  end.

Definition MEMFD_CREATES_PER_PID : nat := 8.
Definition PID_COMM_CAP : Z := 65536.
Definition COUNTER_CAP : Z := 16384.
Definition RECENT_WRITES_CAP : Z := 4096.

Record RuleState := mkRules {
  pid_comm : BoundedMap Z PidFact;
  pid_image_path : BoundedMap Z PidFact;
  recent_writes : BoundedMap string RecentWrite;
  recent_quarantines : BoundedMap string RecentQuarantine;
  self_spawn : BoundedMap (Z * string) SlidingCounter;
  beacon : BoundedMap (string * string * Z) SlidingCounter;
  beacon_flow_dedup : BoundedMap (string * string * Z) FlowPortDedup;
  scan_spread : BoundedMap (Z * Z) (SlidingDistinct IpAddr);
  known_listeners : BoundedMap (IpAddr * Z) unit;
  auth_failures : BoundedMap (string * string) SlidingCounter;
  recent_creates : BoundedMap Z (list (Z * string));
  pending_unlinks : BoundedMap Z (list (Z * string));
  ransomware_unlink : BoundedMap Z SlidingCounter;
  ransomware_rename : BoundedMap Z SlidingCounter;
  ransomware_rename_by_ppid : BoundedMap Z SlidingCounter;
  write_volume : BoundedMap Z SlidingSum;
  rename_count : BoundedMap Z SlidingCounter;
  task_registrations : BoundedMap string ReportedTaskRegistration;
  recent_memfd_creates : BoundedMap Z (list (Z * Z));
  pending_proc_fd_exec : BoundedMap Z PendingProcFdExec;
  own_pid : option Z;
  ld_trust_extra : list string }.

(** [None]: the assertion of [BoundedMap::new]. *)
Definition RuleState_new : option RuleState :=
  pid_comm_0 ← bm_new PID_COMM_CAP;
  pid_image_path_0 ← bm_new PID_COMM_CAP;
  recent_writes_0 ← bm_new RECENT_WRITES_CAP;
  recent_quarantines_0 ← bm_new RECENT_WRITES_CAP;
  self_spawn_0 ← bm_new COUNTER_CAP;
  beacon_0 ← bm_new COUNTER_CAP;
  beacon_flow_dedup_0 ← bm_new COUNTER_CAP;
  scan_spread_0 ← bm_new COUNTER_CAP;
  known_listeners_0 ← bm_new COUNTER_CAP;
  auth_failures_0 ← bm_new COUNTER_CAP;
  recent_creates_0 ← bm_new CREATE_UNLINK_PID_CAP;
  pending_unlinks_0 ← bm_new CREATE_UNLINK_PID_CAP;
  ransomware_unlink_0 ← bm_new COUNTER_CAP;
  ransomware_rename_0 ← bm_new COUNTER_CAP;
  ransomware_rename_by_ppid_0 ← bm_new COUNTER_CAP;
  write_volume_0 ← bm_new COUNTER_CAP;
  rename_count_0 ← bm_new COUNTER_CAP;
  task_registrations_0 ← bm_new COUNTER_CAP;
  recent_memfd_creates_0 ← bm_new PID_COMM_CAP;
  pending_proc_fd_exec_0 ← bm_new PID_COMM_CAP;
  Some (mkRules pid_comm_0 pid_image_path_0 recent_writes_0 recent_quarantines_0 self_spawn_0 beacon_0
    beacon_flow_dedup_0 scan_spread_0 known_listeners_0 auth_failures_0 recent_creates_0 pending_unlinks_0
    ransomware_unlink_0 ransomware_rename_0 ransomware_rename_by_ppid_0 write_volume_0 rename_count_0
    task_registrations_0 recent_memfd_creates_0 pending_proc_fd_exec_0 None []).

(** ** Access to one map *)

Record Field (K V : Type) `{Countable K} := mkField {
  fget : RuleState -> BoundedMap K V;
  fset : BoundedMap K V -> RuleState -> RuleState }.
Arguments mkField {K V _ _}.
Arguments fget {K V _ _}.
Arguments fset {K V _ _}.

Definition L_pid_comm : Field Z PidFact :=
  mkField pid_comm (fun b s =>
    mkRules b (pid_image_path s) (recent_writes s) (recent_quarantines s) (self_spawn s) (beacon s)
    (beacon_flow_dedup s) (scan_spread s) (known_listeners s) (auth_failures s) (recent_creates s)
    (pending_unlinks s) (ransomware_unlink s) (ransomware_rename s) (ransomware_rename_by_ppid s)
    (write_volume s) (rename_count s) (task_registrations s) (recent_memfd_creates s)
    (pending_proc_fd_exec s) (own_pid s) (ld_trust_extra s)).
Definition L_pid_image_path : Field Z PidFact :=
  mkField pid_image_path (fun b s =>
    mkRules (pid_comm s) b (recent_writes s) (recent_quarantines s) (self_spawn s) (beacon s)
    (beacon_flow_dedup s) (scan_spread s) (known_listeners s) (auth_failures s) (recent_creates s)
    (pending_unlinks s) (ransomware_unlink s) (ransomware_rename s) (ransomware_rename_by_ppid s)
    (write_volume s) (rename_count s) (task_registrations s) (recent_memfd_creates s)
    (pending_proc_fd_exec s) (own_pid s) (ld_trust_extra s)).
Definition L_recent_writes : Field string RecentWrite :=
  mkField recent_writes (fun b s =>
    mkRules (pid_comm s) (pid_image_path s) b (recent_quarantines s) (self_spawn s) (beacon s)
    (beacon_flow_dedup s) (scan_spread s) (known_listeners s) (auth_failures s) (recent_creates s)
    (pending_unlinks s) (ransomware_unlink s) (ransomware_rename s) (ransomware_rename_by_ppid s)
    (write_volume s) (rename_count s) (task_registrations s) (recent_memfd_creates s)
    (pending_proc_fd_exec s) (own_pid s) (ld_trust_extra s)).
Definition L_recent_quarantines : Field string RecentQuarantine :=
  mkField recent_quarantines (fun b s =>
    mkRules (pid_comm s) (pid_image_path s) (recent_writes s) b (self_spawn s) (beacon s)
    (beacon_flow_dedup s) (scan_spread s) (known_listeners s) (auth_failures s) (recent_creates s)
    (pending_unlinks s) (ransomware_unlink s) (ransomware_rename s) (ransomware_rename_by_ppid s)
    (write_volume s) (rename_count s) (task_registrations s) (recent_memfd_creates s)
    (pending_proc_fd_exec s) (own_pid s) (ld_trust_extra s)).
Definition L_self_spawn : Field (Z * string) SlidingCounter :=
  mkField self_spawn (fun b s =>
    mkRules (pid_comm s) (pid_image_path s) (recent_writes s) (recent_quarantines s) b (beacon s)
    (beacon_flow_dedup s) (scan_spread s) (known_listeners s) (auth_failures s) (recent_creates s)
    (pending_unlinks s) (ransomware_unlink s) (ransomware_rename s) (ransomware_rename_by_ppid s)
    (write_volume s) (rename_count s) (task_registrations s) (recent_memfd_creates s)
    (pending_proc_fd_exec s) (own_pid s) (ld_trust_extra s)).
Definition L_beacon : Field (string * string * Z) SlidingCounter :=
  mkField beacon (fun b s =>
    mkRules (pid_comm s) (pid_image_path s) (recent_writes s) (recent_quarantines s) (self_spawn s) b
    (beacon_flow_dedup s) (scan_spread s) (known_listeners s) (auth_failures s) (recent_creates s)
    (pending_unlinks s) (ransomware_unlink s) (ransomware_rename s) (ransomware_rename_by_ppid s)
    (write_volume s) (rename_count s) (task_registrations s) (recent_memfd_creates s)
    (pending_proc_fd_exec s) (own_pid s) (ld_trust_extra s)).
Definition L_beacon_flow_dedup : Field (string * string * Z) FlowPortDedup :=
  mkField beacon_flow_dedup (fun b s =>
    mkRules (pid_comm s) (pid_image_path s) (recent_writes s) (recent_quarantines s) (self_spawn s)
    (beacon s) b (scan_spread s) (known_listeners s) (auth_failures s) (recent_creates s) (pending_unlinks s)
    (ransomware_unlink s) (ransomware_rename s) (ransomware_rename_by_ppid s) (write_volume s)
    (rename_count s) (task_registrations s) (recent_memfd_creates s) (pending_proc_fd_exec s) (own_pid s)
    (ld_trust_extra s)).
Definition L_scan_spread : Field (Z * Z) (SlidingDistinct IpAddr) :=
  mkField scan_spread (fun b s =>
    mkRules (pid_comm s) (pid_image_path s) (recent_writes s) (recent_quarantines s) (self_spawn s)
    (beacon s) (beacon_flow_dedup s) b (known_listeners s) (auth_failures s) (recent_creates s)
    (pending_unlinks s) (ransomware_unlink s) (ransomware_rename s) (ransomware_rename_by_ppid s)
    (write_volume s) (rename_count s) (task_registrations s) (recent_memfd_creates s)
    (pending_proc_fd_exec s) (own_pid s) (ld_trust_extra s)).
Definition L_known_listeners : Field (IpAddr * Z) unit :=
  mkField known_listeners (fun b s =>
    mkRules (pid_comm s) (pid_image_path s) (recent_writes s) (recent_quarantines s) (self_spawn s)
    (beacon s) (beacon_flow_dedup s) (scan_spread s) b (auth_failures s) (recent_creates s)
    (pending_unlinks s) (ransomware_unlink s) (ransomware_rename s) (ransomware_rename_by_ppid s)
    (write_volume s) (rename_count s) (task_registrations s) (recent_memfd_creates s)
    (pending_proc_fd_exec s) (own_pid s) (ld_trust_extra s)).
Definition L_auth_failures : Field (string * string) SlidingCounter :=
  mkField auth_failures (fun b s =>
    mkRules (pid_comm s) (pid_image_path s) (recent_writes s) (recent_quarantines s) (self_spawn s)
    (beacon s) (beacon_flow_dedup s) (scan_spread s) (known_listeners s) b (recent_creates s)
    (pending_unlinks s) (ransomware_unlink s) (ransomware_rename s) (ransomware_rename_by_ppid s)
    (write_volume s) (rename_count s) (task_registrations s) (recent_memfd_creates s)
    (pending_proc_fd_exec s) (own_pid s) (ld_trust_extra s)).
Definition L_recent_creates : Field Z (list (Z * string)) :=
  mkField recent_creates (fun b s =>
    mkRules (pid_comm s) (pid_image_path s) (recent_writes s) (recent_quarantines s) (self_spawn s)
    (beacon s) (beacon_flow_dedup s) (scan_spread s) (known_listeners s) (auth_failures s) b
    (pending_unlinks s) (ransomware_unlink s) (ransomware_rename s) (ransomware_rename_by_ppid s)
    (write_volume s) (rename_count s) (task_registrations s) (recent_memfd_creates s)
    (pending_proc_fd_exec s) (own_pid s) (ld_trust_extra s)).
Definition L_pending_unlinks : Field Z (list (Z * string)) :=
  mkField pending_unlinks (fun b s =>
    mkRules (pid_comm s) (pid_image_path s) (recent_writes s) (recent_quarantines s) (self_spawn s)
    (beacon s) (beacon_flow_dedup s) (scan_spread s) (known_listeners s) (auth_failures s) (recent_creates s)
    b (ransomware_unlink s) (ransomware_rename s) (ransomware_rename_by_ppid s) (write_volume s)
    (rename_count s) (task_registrations s) (recent_memfd_creates s) (pending_proc_fd_exec s) (own_pid s)
    (ld_trust_extra s)).
Definition L_ransomware_unlink : Field Z SlidingCounter :=
  mkField ransomware_unlink (fun b s =>
    mkRules (pid_comm s) (pid_image_path s) (recent_writes s) (recent_quarantines s) (self_spawn s)
    (beacon s) (beacon_flow_dedup s) (scan_spread s) (known_listeners s) (auth_failures s) (recent_creates s)
    (pending_unlinks s) b (ransomware_rename s) (ransomware_rename_by_ppid s) (write_volume s)
    (rename_count s) (task_registrations s) (recent_memfd_creates s) (pending_proc_fd_exec s) (own_pid s)
    (ld_trust_extra s)).
Definition L_ransomware_rename : Field Z SlidingCounter :=
  mkField ransomware_rename (fun b s =>
    mkRules (pid_comm s) (pid_image_path s) (recent_writes s) (recent_quarantines s) (self_spawn s)
    (beacon s) (beacon_flow_dedup s) (scan_spread s) (known_listeners s) (auth_failures s) (recent_creates s)
    (pending_unlinks s) (ransomware_unlink s) b (ransomware_rename_by_ppid s) (write_volume s)
    (rename_count s) (task_registrations s) (recent_memfd_creates s) (pending_proc_fd_exec s) (own_pid s)
    (ld_trust_extra s)).
Definition L_ransomware_rename_by_ppid : Field Z SlidingCounter :=
  mkField ransomware_rename_by_ppid (fun b s =>
    mkRules (pid_comm s) (pid_image_path s) (recent_writes s) (recent_quarantines s) (self_spawn s)
    (beacon s) (beacon_flow_dedup s) (scan_spread s) (known_listeners s) (auth_failures s) (recent_creates s)
    (pending_unlinks s) (ransomware_unlink s) (ransomware_rename s) b (write_volume s) (rename_count s)
    (task_registrations s) (recent_memfd_creates s) (pending_proc_fd_exec s) (own_pid s) (ld_trust_extra s)).
Definition L_write_volume : Field Z SlidingSum :=
  mkField write_volume (fun b s =>
    mkRules (pid_comm s) (pid_image_path s) (recent_writes s) (recent_quarantines s) (self_spawn s)
    (beacon s) (beacon_flow_dedup s) (scan_spread s) (known_listeners s) (auth_failures s) (recent_creates s)
    (pending_unlinks s) (ransomware_unlink s) (ransomware_rename s) (ransomware_rename_by_ppid s) b
    (rename_count s) (task_registrations s) (recent_memfd_creates s) (pending_proc_fd_exec s) (own_pid s)
    (ld_trust_extra s)).
Definition L_rename_count : Field Z SlidingCounter :=
  mkField rename_count (fun b s =>
    mkRules (pid_comm s) (pid_image_path s) (recent_writes s) (recent_quarantines s) (self_spawn s)
    (beacon s) (beacon_flow_dedup s) (scan_spread s) (known_listeners s) (auth_failures s) (recent_creates s)
    (pending_unlinks s) (ransomware_unlink s) (ransomware_rename s) (ransomware_rename_by_ppid s)
    (write_volume s) b (task_registrations s) (recent_memfd_creates s) (pending_proc_fd_exec s) (own_pid s)
    (ld_trust_extra s)).
Definition L_task_registrations : Field string ReportedTaskRegistration :=
  mkField task_registrations (fun b s =>
    mkRules (pid_comm s) (pid_image_path s) (recent_writes s) (recent_quarantines s) (self_spawn s)
    (beacon s) (beacon_flow_dedup s) (scan_spread s) (known_listeners s) (auth_failures s) (recent_creates s)
    (pending_unlinks s) (ransomware_unlink s) (ransomware_rename s) (ransomware_rename_by_ppid s)
    (write_volume s) (rename_count s) b (recent_memfd_creates s) (pending_proc_fd_exec s) (own_pid s)
    (ld_trust_extra s)).
Definition L_recent_memfd_creates : Field Z (list (Z * Z)) :=
  mkField recent_memfd_creates (fun b s =>
    mkRules (pid_comm s) (pid_image_path s) (recent_writes s) (recent_quarantines s) (self_spawn s)
    (beacon s) (beacon_flow_dedup s) (scan_spread s) (known_listeners s) (auth_failures s) (recent_creates s)
    (pending_unlinks s) (ransomware_unlink s) (ransomware_rename s) (ransomware_rename_by_ppid s)
    (write_volume s) (rename_count s) (task_registrations s) b (pending_proc_fd_exec s) (own_pid s)
    (ld_trust_extra s)).
Definition L_pending_proc_fd_exec : Field Z PendingProcFdExec :=
  mkField pending_proc_fd_exec (fun b s =>
    mkRules (pid_comm s) (pid_image_path s) (recent_writes s) (recent_quarantines s) (self_spawn s)
    (beacon s) (beacon_flow_dedup s) (scan_spread s) (known_listeners s) (auth_failures s) (recent_creates s)
    (pending_unlinks s) (ransomware_unlink s) (ransomware_rename s) (ransomware_rename_by_ppid s)
    (write_volume s) (rename_count s) (task_registrations s) (recent_memfd_creates s) b (own_pid s)
    (ld_trust_extra s)).

Definition with_own_pid (p : option Z) (s : RuleState) : RuleState :=
  mkRules (pid_comm s) (pid_image_path s) (recent_writes s) (recent_quarantines s) (self_spawn s)
  (beacon s) (beacon_flow_dedup s) (scan_spread s) (known_listeners s) (auth_failures s) (recent_creates s)
  (pending_unlinks s) (ransomware_unlink s) (ransomware_rename s) (ransomware_rename_by_ppid s)
  (write_volume s) (rename_count s) (task_registrations s) (recent_memfd_creates s)
  (pending_proc_fd_exec s) p (ld_trust_extra s).
Definition with_ld_trust_extra (d : list string) (s : RuleState) : RuleState :=
  mkRules (pid_comm s) (pid_image_path s) (recent_writes s) (recent_quarantines s) (self_spawn s)
  (beacon s) (beacon_flow_dedup s) (scan_spread s) (known_listeners s) (auth_failures s) (recent_creates s)
  (pending_unlinks s) (ransomware_unlink s) (ransomware_rename s) (ransomware_rename_by_ppid s)
  (write_volume s) (rename_count s) (task_registrations s) (recent_memfd_creates s)
  (pending_proc_fd_exec s) (own_pid s) d.

Definition Rules (A : Type) : Type := RuleState -> option (A * RuleState).
Definition r_ret {A} (a : A) : Rules A := fun s => Some (a, s).
Definition r_bind {A B} (c : Rules A) (f : A -> Rules B) : Rules B :=
  fun s => match c s with Some (a, s) => f a s | None => None end.
Definition r_read {A} (f : RuleState -> A) : Rules A := fun s => Some (f s, s).
Definition r_modify (f : RuleState -> RuleState) : Rules unit := fun s => Some (tt, f s).

Declare Scope rules_scope.
Delimit Scope rules_scope with rules.
Notation "x '<~' c ';' k" := (r_bind c (fun x => k))
  (at level 100, c at next level, right associativity) : rules_scope.
Notation "c '~;' k" := (r_bind c (fun _ => k)) (at level 100, right associativity) : rules_scope.
#[global] Open Scope rules_scope.

Section Access.
Context {K V : Type} `{Countable K}.

(** [self.field.get_or_insert_with(k, || d)] and what the caller computes and
    writes through the reference. *)
Definition r_entry {A} (F : Field K V) (k : K) (d : V) (f : V -> A * V) : Rules A := fun s =>
  match bm_get_or_insert_with k d (fun v => (f v).2) (fget F s) with
  | Some (v, b) => Some ((f v).1, fset F b s)
  | None => None
  end.
(** [get_mut] with the caller's use of the reference; [None] on a miss. *)
Definition r_get_mut {A} (F : Field K V) (k : K) (f : V -> A * V) : Rules (option A) := fun s =>
  let '(o, b) := bm_get_mut k (fun v => (f v).2) (fget F s) in
  Some ((fun v => (f v).1) <$> o, fset F b s).
Definition r_get (F : Field K V) (k : K) : Rules (option V) := fun s =>
  let '(o, b) := bm_get k (fget F s) in Some (o, fset F b s).
Definition r_insert (F : Field K V) (k : K) (v : V) : Rules unit :=
  r_modify (fun s => fset F (bm_insert k v (fget F s)) s).
Definition r_remove (F : Field K V) (k : K) : Rules unit :=
  r_modify (fun s => fset F (bm_remove k (fget F s)).2 s).
Definition r_extend (F : Field K V) (kvs : list (K * V)) : Rules unit :=
  r_modify (fun s => fset F (bm_extend kvs (fget F s)) s).
Definition r_peek (F : Field K V) (k : K) : Rules (option V) := r_read (fun s => bm_peek k (fget F s)).
End Access.

(** ** Paths *)

Definition is_rotation_suffix (suffix : string) : bool := negb (str_any is_alpha suffix).
Definition is_all_digits (s : string) : bool := negb (str_is_empty s) && str_all is_digit s.

Definition is_dev_fd_path (p : string) : bool :=
  match strip_prefix "/dev/fd/" p with Some rest => is_all_digits rest | None => false end.

Definition I32_MAX : Z := 2147483647.

Definition proc_fd_number (p : string) (own : Z) : option Z :=
  rest ← strip_prefix "/proc/" p;
  '(pid_or_self, fd) ← split_once "/fd/" rest;
  let is_own := String.eqb pid_or_self "self"
                || (is_all_digits pid_or_self && bool_decide (parse_upto U32_MAX pid_or_self = Some own)) in
  if negb is_own || negb (is_all_digits fd) then None else parse_upto I32_MAX fd.

Definition rsplit_slash (p : string) : string * string := default (EmptyString, p) (rsplit_byte is_slash p).

Definition is_apk_staging_rename (old_path new_path : string) : bool :=
  let '(old_dir, old_base) := rsplit_slash old_path in
  let '(new_dir, _) := rsplit_slash new_path in
  String.eqb old_dir new_dir
  && match strip_prefix APK_STAGING_FILE_PREFIX old_base with
     | Some hex => negb (str_is_empty hex) && str_all is_hexdigit hex
     | None => false
     end.

Definition is_package_manager_temp_rename (old_path new_path comm : string) : bool :=
  one_of PACKAGE_MANAGER_COMMS comm
  && (match strip_prefix new_path old_path with
      | Some suffix => one_of PACKAGE_MANAGER_TEMP_RENAME_SUFFIXES suffix
      | None => false
      end
      || is_apk_staging_rename old_path new_path).

Definition split_dir_base (p : string) : string * string := default (EmptyString, p) (rsplit_byte is_sep p).

Definition appended_suffix (old_path new_path : string) : option string :=
  match strip_prefix old_path new_path with
  | Some suffix => Some suffix
  | None =>
      let old_base := (split_dir_base old_path).2 in
      let new_base := (split_dir_base new_path).2 in
      if str_is_empty old_base then None else strip_prefix old_base new_base
  end.

Definition is_flag_letter (a : ascii) : bool :=
  existsb (Ascii.eqb a) (String.list_ascii_of_string MAILDIR_FLAG_LETTERS).
Fixpoint trim_flag_letters (s : string) : string :=
  match s with String a r => if is_flag_letter a then trim_flag_letters r else s | EmptyString => s end.
Definition is_lower (a : ascii) : bool := let n := nat_of_ascii a in (97 <=? n)%nat && (n <=? 122)%nat.
Definition is_maildir_flags (flags : string) : bool := str_all is_lower (trim_flag_letters flags).

Definition is_maildir_info_suffix (suffix : string) : bool :=
  match strip_prefix ":2," suffix with Some flags => is_maildir_flags flags | None => false end.

Definition is_maildir_delivery (old_path new_path suffix : string) : bool :=
  if negb (is_maildir_info_suffix suffix) then false
  else
    let old_dir := (split_dir_base old_path).1 in
    let new_dir := (split_dir_base new_path).1 in
    let '(old_parent, old_leaf) := split_dir_base old_dir in
    let '(new_parent, new_leaf) := split_dir_base new_dir in
    String.eqb old_leaf "new" && String.eqb new_leaf "cur" && String.eqb old_parent new_parent.

(** What follows the last [p] in [s]: [&s[s.rfind(p)? + p.len()..]]. *)
Fixpoint after_last (p s : string) : option string :=
  match s with
  | EmptyString => strip_prefix p s
  | String _ r => match after_last p r with Some x => Some x | None => strip_prefix p s end
  end.

Definition is_maildir_flag_change (old_path suffix : string) : bool :=
  if str_is_empty suffix || negb (is_maildir_flags suffix) then false
  else match after_last ":2," old_path with Some flags => is_maildir_flags flags | None => false end.

Definition pairs_create_and_unlink (created_ts : Z) (created : string) (deleted_ts : Z) (deleted : string) : bool :=
  (created_ts <=? deleted_ts)
  && (deleted_ts - created_ts <=? CREATE_UNLINK_PAIR_WINDOW_NS)
  && match appended_suffix deleted created with
     | Some suffix => negb (str_is_empty suffix) && negb (is_rotation_suffix suffix)
                      && negb (is_maildir_delivery deleted created suffix)
     | None => false
     end.

Definition written_file_is (p comm : string) : bool :=
  if drive_absolute p || starts_with "\\" p
  then eq_ignore_ascii_case (base_name p) comm
  else String.eqb (rsplit_slash p).2 comm.
