(* ===== verification/RuleEngine.v ===== *)
(** * RuleEngine: the stateful rules (src/crates/rules/src/state.rs)

    One definition per rule and per event handler of [RuleState], in the order
    the source runs them.  Arguments: [show_ip], the display of an address;
    [lower], Unicode's [str::to_lowercase]; [show_secs], the [{:.1}] display of a
    number; [read_proc_comm], what reading [/proc/<pid>/comm] gives. *)
From stdpp Require Import base gmap strings list.
From Stdlib Require Import ZArith Lia Ascii.
From Stdlib Require String.
From S2P Require Import Prelude Bounded Sliding Str Text Float Schema Policy LdTrust Stateless RuleState.

(** Counting one more occurrence, and alerting at the threshold once per window:
    [entry.record(..)], [count >= threshold && entry.try_alert(..)]. *)
Definition count_and_alert (ts window_ns threshold : Z) (c : SlidingCounter) : (Z * bool) * SlidingCounter :=
  let '(count, c) := SlidingCounter_record ts window_ns c in
  if threshold <=? count
  then let '(fire, c) := SlidingCounter_try_alert ts window_ns c in ((count, fire), c)
  else ((count, false), c).

(** A deque of at most [cap] elements: the oldest goes first. *)
Definition push_history {A} (cap : nat) (x : A) (l : list A) : list A :=
  (if (cap <=? length l)%nat then tail l else l) ++ [x].

(** [position]/[rposition] and [remove]: the first (last) element that satisfies
    [f], and the rest. *)
Fixpoint take_first {A} (f : A -> bool) (l : list A) : option (A * list A) :=
  match l with
  | [] => None
  | x :: l => if f x then Some (x, l) else (fun r => (r.1, x :: r.2)) <$> take_first f l
  end.
Definition take_last {A} (f : A -> bool) (l : list A) : option (A * list A) :=
  (fun r => (r.1, rev r.2)) <$> take_first f (rev l).

Definition memfd_dev_fd_exec_alert (pid : Z) (comm p : string) : Alert :=
  mkRuleAlert "T1620" High
    (cat ["pid="; show_u64 pid; " comm="; comm; ": executed from a file descriptor ("; p;
          "), not a real path — no payload ever touched disk"]).
Definition memfd_proc_fd_exec_alert (pid : Z) (comm p : string) (fd : Z) : Alert :=
  mkRuleAlert "T1620" High
    (cat ["pid="; show_u64 pid; " comm="; comm; ": executed from file descriptor "; show_u64 fd; " ("; p;
          "), the memfd this process created moments earlier — a payload that never touched disk"]).

Section Engine.
Variable show_ip : IpAddr -> string.
Variable lower : string -> string.
Variable show_secs : f64 -> string.
Variable read_proc_comm : Z -> option string.

Definition format_delta (delta_ns : Z) : string :=
  (show_secs (f64_div (f64_of_Z delta_ns) (f64_of_Z 1000000000)) +:+ "s")%string.

(** ** Seeding *)

Definition seed_own_pid (pid : Z) : Rules unit := r_modify (with_own_pid (Some pid)).
Definition seed_ld_trust_dirs (ds : list string) : Rules unit := r_modify (with_ld_trust_extra ds).
Definition seed_ld_trust_from_system (read : lpath -> option string) (list_dir : lpath -> list lpath) : Rules unit :=
  seed_ld_trust_dirs (collect_ld_dirs read list_dir (components LD_SO_CONF)).
Fixpoint seed_listen_ports (ports : list (IpAddr * Z)) : Rules unit :=
  match ports with
  | [] => r_ret tt
  | key :: ports => r_insert L_known_listeners key tt ~; seed_listen_ports ports
  end.
Definition seed_pid_comm (map : list (Z * string)) : Rules unit :=
  r_extend L_pid_comm ((fun pc => (pc.1, PidFact_seeded pc.2)) <$> map).
(** The entries of /proc with the contents of their [comm] file. *)
Fixpoint seed_from_proc (entries : list (string * option string)) : Rules unit :=
  match entries with
  | [] => r_ret tt
  | (name, comm) :: entries =>
      match parse_upto U32_MAX name, comm with
      | Some pid, Some comm => r_insert L_pid_comm pid (PidFact_seeded (trim_end comm)) ~; seed_from_proc entries
      | _, _ => seed_from_proc entries
      end
  end.

Definition resolve_comm (s : RuleState) (pid : Z) (generation : option Z) : option string :=
  match PidFact_current (pid_comm s) pid generation with
  | Some comm => Some comm
  | None => trim_end <$> read_proc_comm pid
  end.

(** ** Exec rules *)

Definition check_web_server_spawns_shell (event : ExecEvent) (s : RuleState) : option Alert :=
  let m := exec_meta event in
  let comm := meta_comm m in
  if negb (one_of SHELL_COMMS comm) then None
  else
    parent_comm ← resolve_comm s (meta_ppid m) (meta_parent_process_generation m);
    if negb (is_service_comm parent_comm) then None
    else Some (mkRuleAlert "T1059" Medium
                 (cat ["pid="; show_u64 (meta_pid m); " comm="; comm; " executed directly by ppid=";
                       show_u64 (meta_ppid m); " comm="; parent_comm; " (service) — suspicious process lineage"])).

(** [iter().find(..)] in one iteration order of the hash map. *)
Definition check_download_then_exec (event : ExecEvent) (s : RuleState) : option Alert :=
  let m := exec_meta event in
  let comm := meta_comm m in
  let age w := meta_timestamp_ns m -sat rw_timestamp_ns w in
  '(p, w) ← List.find (fun pw => written_file_is pw.1 comm && (age pw.2 <=? DOWNLOAD_EXEC_WINDOW_NS))
              (bm_iter (recent_writes s));
  Some (mkRuleAlert "T1105" High
          (cat ["pid="; show_u64 (meta_pid m); " comm="; comm; " executes "; p; ", written ";
                format_delta (age w); " earlier by pid="; show_u64 (rw_pid w); " comm="; rw_comm w])).

Definition quarantine_hit (event : ExecEvent) (mark : RecentQuarantine) : option Alert * RecentQuarantine :=
  let m := exec_meta event in
  let age := meta_timestamp_ns m -sat rq_timestamp_ns mark in
  if rq_alerted mark || (QUARANTINE_EXEC_WINDOW_NS <? age) then (None, mark)
  else
    (Some (mkRuleAlert "T1204.002" High
             (cat ["pid="; show_u64 (meta_pid m); " comm="; meta_comm m; " executes "; exec_image_path event;
                   ", downloaded "; format_delta age; " earlier (origin: ";
                   default "unrecorded" (rq_origin_url mark); ", marked by "; default "unknown" (rq_agent mark); ")"])),
     mkRecentQuarantine (rq_timestamp_ns mark) (rq_agent mark) (rq_origin_url mark) true).

Definition check_quarantined_exec (event : ExecEvent) : Rules (option Alert) :=
  r <~ r_get_mut L_recent_quarantines (lower (exec_image_path event)) (quarantine_hit event);
  r_ret (mjoin r).

Definition is_windows_user (u : User) : bool := match u with User_Windows _ _ => true | _ => false end.
Definition is_unix_user (u : User) : bool := match u with User_Unix _ _ => true | _ => false end.

Definition self_spawn_excluded (event : ExecEvent) (s : RuleState) : bool :=
  let m := exec_meta event in
  let comm := meta_comm m in
  (bool_decide (own_pid s = Some (meta_ppid m)) && one_of_nocase AGENT_CHILD_EXCLUSIONS comm
   && name_exclusion_applies (Some (exec_image_path event)))
  || (one_of_nocase SELF_SPAWN_EXCLUSIONS comm && name_exclusion_applies (Some (exec_image_path event))
      && parent_exclusion_applies comm (exec_parent_comm event))
  || (one_of_nocase SELF_SPAWN_PARENT_EXCLUSIONS
        (default EmptyString (PidFact_current (pid_comm s) (meta_ppid m) (meta_parent_process_generation m)))
      && name_exclusion_applies (exec_parent_image_path event)).

Definition check_self_spawn (event : ExecEvent) : Rules (option Alert) :=
  let m := exec_meta event in
  let comm := meta_comm m in
  if negb (is_windows_user (meta_user m)) then r_ret None
  else
    excluded <~ r_read (self_spawn_excluded event);
    if (excluded : bool) then r_ret None
    else
      r <~ r_entry L_self_spawn (meta_ppid m, comm) SlidingCounter_default
             (count_and_alert (meta_timestamp_ns m) SELF_SPAWN_WINDOW_NS SELF_SPAWN_THRESHOLD);
      r_ret (if (r : Z * bool).2
             then Some (mkRuleAlert "T1059" Medium
                          (cat ["pid="; show_u64 (meta_pid m); " comm="; comm; " spawned "; show_u64 r.1; "x in ";
                                show_u64 (SELF_SPAWN_WINDOW_NS / 1000000000); "s by ppid="; show_u64 (meta_ppid m);
                                " — suspected self-spawn"]))
             else None).

Definition check_parent_suspect (event : ExecEvent) (s : RuleState) : option Alert :=
  let m := exec_meta event in
  let comm := meta_comm m in
  if negb (one_of_nocase SUSPECT_CHILDREN_WIN comm) then None
  else
    parent_comm ← resolve_comm s (meta_ppid m) (meta_parent_process_generation m);
    if negb (one_of_nocase SUSPECT_PARENTS_WIN parent_comm) then None
    else Some (mkRuleAlert "T1204/T1059" High
                 (cat ["pid="; show_u64 (meta_pid m); " comm="; comm; " spawned by ppid="; show_u64 (meta_ppid m);
                       " comm="; parent_comm; " — Office→interpreter lineage"])).

Definition check_lolbin (event : ExecEvent) (s : RuleState) : option Alert :=
  let m := exec_meta event in
  let comm := meta_comm m in
  if negb (one_of_nocase LOLBINS comm) then None
  else
    parent_comm ← resolve_comm s (meta_ppid m) (meta_parent_process_generation m);
    if one_of_nocase LOLBIN_LEGIT_PARENTS parent_comm then None
    else Some (mkRuleAlert "T1218/T1127" Medium
                 (cat ["pid="; show_u64 (meta_pid m); " comm="; comm; " (LOLBin) spawned by ppid=";
                       show_u64 (meta_ppid m); " comm="; parent_comm])).

(** [created_fd == fd && created_ts <= ts && ts - created_ts <= window]. *)
Definition memfd_matches (fd created_ts created_fd exec_ts : Z) : bool :=
  (created_fd =? fd) && (created_ts <=? exec_ts) && (exec_ts - created_ts <=? MEMFD_EXEC_WINDOW_NS).

Definition check_memfd_exec (event : ExecEvent) : Rules (option Alert) :=
  let m := exec_meta event in
  let p := exec_image_path event in
  if is_dev_fd_path p
  then r_ret (if negb (starts_with "memfd:" (meta_comm m)) then None
              else Some (memfd_dev_fd_exec_alert (meta_pid m) (meta_comm m) p))
  else match proc_fd_number p (meta_pid m) with
       | None => r_ret None
       | Some fd =>
           creates <~ r_peek L_recent_memfd_creates (meta_pid m);
           if existsb (fun c : Z * Z => memfd_matches fd c.1 c.2 (meta_timestamp_ns m)) (default [] creates)
           then r_ret (Some (memfd_proc_fd_exec_alert (meta_pid m) (meta_comm m) p fd))
           else r_insert L_pending_proc_fd_exec (meta_pid m) (mkPending p fd (meta_comm m) (meta_timestamp_ns m)) ~;
                r_ret None
       end.

Definition on_exec (event : ExecEvent) : Rules (list Alert) :=
  let m := exec_meta event in
  a1 <~ r_read (check_web_server_spawns_shell event);
  a2 <~ r_read (check_download_then_exec event);
  a3 <~ check_quarantined_exec event;
  a4 <~ check_self_spawn event;
  a5 <~ r_read (check_parent_suspect event);
  a6 <~ r_read (check_lolbin event);
  a7 <~ check_memfd_exec event;
  a8 <~ r_read (fun s => check_ld_preload_hijack event (ld_trust_extra s));
  r_insert L_pid_comm (meta_pid m) (mkPidFact (meta_process_generation m) (meta_comm m)) ~;
  r_insert L_pid_image_path (meta_pid m) (mkPidFact (meta_process_generation m) (exec_image_path event)) ~;
  r_ret (mjoin (option_list <$> [a1; a2; a3; a4; a5; a6; a7; a8])).

Definition on_memfd_create (event : MemfdCreateEvent) : Rules (list Alert) :=
  let m := memfd_create_meta event in
  r_entry L_recent_memfd_creates (meta_pid m) []
    (fun l => (tt, push_history MEMFD_CREATES_PER_PID (meta_timestamp_ns m, memfd_create_fd event) l)) ~;
  pending <~ r_peek L_pending_proc_fd_exec (meta_pid m);
  match pending with
  | Some q =>
      if memfd_matches (memfd_create_fd event) (meta_timestamp_ns m) (pp_fd q) (pp_timestamp_ns q)
      then r_remove L_pending_proc_fd_exec (meta_pid m) ~;
           r_ret [memfd_proc_fd_exec_alert (meta_pid m) (pp_comm q) (pp_path q) (pp_fd q)]
      else r_ret []
  | None => r_ret []
  end.

(** ** Network rules *)

Definition beacon_excluded (comm : string) (daddr : IpAddr) (dport : Z) : bool :=
  one_of_nocase BROWSERS comm
  || existsb (Z.eqb dport) STANDARD_PORTS
  || is_address_selection_probe (is_unspecified daddr) dport
  || match daddr with
     | V4 bits => (224 <=? Z.shiftr bits 24) || (Z.land bits 255 =? 255)
     | V6 _ => false
     end.

Definition record_beacon (pid : Z) (comm : string) (daddr : IpAddr) (dport ts : Z) : Rules (option Alert) :=
  r <~ r_entry L_beacon (comm, show_ip daddr, dport) SlidingCounter_default
         (count_and_alert ts BEACON_WINDOW_NS BEACON_THRESHOLD);
  r_ret (if (r : Z * bool).2
         then Some (mkRuleAlert "T1071/T1041" High
                      (cat ["pid="; show_u64 pid; " comm="; comm; " → "; show_ip daddr; ":"; show_u64 dport; " | ";
                            show_u64 r.1; "x in "; show_u64 (BEACON_WINDOW_NS / 1000000000);
                            "s — suspected beaconing"]))
         else None).

Definition check_beacon (event : ConnectEvent) : Rules (option Alert) :=
  let m := connect_meta event in
  if meta_pid m =? 4 then r_ret None
  else if beacon_excluded (meta_comm m) (connect_daddr event) (connect_dport event) then r_ret None
  else record_beacon (meta_pid m) (meta_comm m) (connect_daddr event) (connect_dport event) (meta_timestamp_ns m).

Definition distinct_and_alert (addr : IpAddr) (ts : Z) (d : SlidingDistinct IpAddr)
    : (Z * bool) * SlidingDistinct IpAddr :=
  let '(distinct, d) := SlidingDistinct_record addr ts SCAN_SPREAD_WINDOW_NS d in
  if SCAN_SPREAD_THRESHOLD <=? distinct
  then let '(fire, d) := SlidingDistinct_try_alert ts SCAN_SPREAD_WINDOW_NS d in ((distinct, fire), d)
  else ((distinct, false), d).

Definition check_scan_spread (event : ConnectEvent) : Rules (option Alert) :=
  let m := connect_meta event in
  if meta_pid m =? 4 then r_ret None
  else
    r <~ r_entry L_scan_spread (meta_pid m, connect_dport event) SlidingDistinct_default
           (distinct_and_alert (connect_daddr event) (meta_timestamp_ns m));
    r_ret (if (r : Z * bool).2
           then Some (mkRuleAlert "T1046/T1210" Medium
                        (cat ["pid="; show_u64 (meta_pid m); " comm="; meta_comm m; " contacted "; show_u64 r.1;
                              " distinct destinations on port "; show_u64 (connect_dport event); " in ";
                              show_u64 (SCAN_SPREAD_WINDOW_NS / 1000000000); "s — suspected scan/spread burst"]))
           else None).

Definition check_beacon_flow (event : NetworkFlowEvent) : Rules (option Alert) :=
  let m := network_flow_meta event in
  if beacon_excluded (meta_comm m) (network_flow_daddr event) (network_flow_dport event) then r_ret None
  else
    fresh <~ r_entry L_beacon_flow_dedup
               (meta_comm m, show_ip (network_flow_daddr event), network_flow_dport event) FlowPortDedup_default
               (FlowPortDedup_is_new (network_flow_local_port event) (meta_timestamp_ns m) BEACON_WINDOW_NS);
    if negb fresh then r_ret None
    else record_beacon (meta_pid m) (meta_comm m) (network_flow_daddr event) (network_flow_dport event)
           (meta_timestamp_ns m).

Definition on_connect (event : ConnectEvent) : Rules (list Alert) :=
  a1 <~ check_beacon event; a2 <~ check_scan_spread event; r_ret (option_list a1 ++ option_list a2).

Definition on_network_flow (event : NetworkFlowEvent) : Rules (list Alert) :=
  a <~ check_beacon_flow event; r_ret (option_list a).

Definition check_listen_port_drift (event : ListenPortEvent) : Rules (option Alert) :=
  let m := listen_port_meta event in
  let key := (listen_port_local_addr event, listen_port_local_port event) in
  known <~ r_get L_known_listeners key;
  match known with
  | Some _ => r_ret None
  | None =>
      r_insert L_known_listeners key tt ~;
      r_ret (Some (mkRuleAlert "T1571" Medium
                     (cat ["pid="; show_u64 (meta_pid m); " comm="; meta_comm m; " new listener on ";
                           show_ip (listen_port_local_addr event); ":"; show_u64 (listen_port_local_port event);
                           " — not seen at agent startup"])))
  end.

Definition on_listen_port (event : ListenPortEvent) : Rules (list Alert) :=
  a <~ check_listen_port_drift event; r_ret (option_list a).

Definition auth_source (event : AuthEvent) : string :=
  match auth_source_address event with Some a => show_ip a | None => "local" end.

Definition on_auth (event : AuthEvent) : Rules (list Alert) :=
  if negb (bool_decide (auth_outcome event = AuthOutcome_Failure)) then r_ret []
  else
    let source := auth_source event in
    r <~ r_entry L_auth_failures (auth_target_user event, source) SlidingCounter_default
           (count_and_alert (meta_timestamp_ns (auth_meta event)) AUTH_FAILURE_WINDOW_NS AUTH_FAILURE_THRESHOLD);
    r_ret (if (r : Z * bool).2
           then [mkRuleAlert "T1110" Medium
                   (cat ["target="; auth_target_user event; " source="; source; ": "; show_u64 r.1;
                         " failed authentications in "; show_u64 (AUTH_FAILURE_WINDOW_NS / 1000000000);
                         "s —                      brute-force/spray burst"])]
           else []).

(** ** File rules *)

Definition on_file_quarantine (event : FileQuarantineEvent) : Rules unit :=
  r_insert L_recent_quarantines (lower (file_quarantine_path event))
    (mkRecentQuarantine (meta_timestamp_ns (file_quarantine_meta event)) (file_quarantine_agent event)
       (file_quarantine_origin_url event) false).

Definition task_duplicate (now : Z) (actions : option string) (previous : ReportedTaskRegistration) : bool :=
  (abs_diff (tr_timestamp_ns previous) now <=? TASK_REGISTRATION_DEDUP_WINDOW_NS)
  && (bool_decide (actions = None) || bool_decide (actions = tr_actions previous)).

Definition check_task_registration (event : FileOpenEvent) : Rules (option Alert) :=
  match check_scheduled_task_persistence event with
  | None => r_ret None
  | Some alert =>
      let actions := if flag_set FLAG_PERSISTENCE_TASK_ACTION_UNKNOWN (file_open_flags event) then None
                     else Some (file_open_path event) in
      let now := meta_timestamp_ns (file_open_meta event) in
      let comm := meta_comm (file_open_meta event) in
      previous <~ r_peek L_task_registrations comm;
      if match previous with Some p => task_duplicate now actions p | None => false end then r_ret None
      else r_insert L_task_registrations comm (mkTaskRegistration now actions) ~; r_ret (Some alert)
  end.

Definition record_downloader_write (event : FileOpenEvent) : Rules unit :=
  let m := file_open_meta event in
  if negb (one_of DOWNLOADER_COMMS (meta_comm m)) || negb (has_write_intent (file_open_flags event)) then r_ret tt
  else r_insert L_recent_writes (file_open_path event)
         (mkRecentWrite (meta_pid m) (meta_comm m) (meta_timestamp_ns m)).

Definition runs_trusted_binary_named (m : EventMeta) (s : RuleState) : bool :=
  match PidFact_current (pid_image_path s) (meta_pid m) (meta_process_generation m) with
  | Some p => negb (str_is_empty p) && name_exclusion_applies (Some p) && written_file_is p (meta_comm m)
  | None => false
  end.

Definition is_compressor (m : EventMeta) (s : RuleState) : bool :=
  one_of COMPRESSOR_COMMS (meta_comm m) && runs_trusted_binary_named m s.

Definition is_compression_driver (m : EventMeta) (deleted created : string) (s : RuleState) : bool :=
  one_of COMPRESSION_DRIVER_COMMS (meta_comm m)
  && match appended_suffix deleted created with Some x => one_of COMPRESSION_SUFFIXES x | None => false end
  && runs_trusted_binary_named m s.

Definition count_create_unlink_pair (m : EventMeta) (ts : Z) (deleted created : string) : Rules (option Alert) :=
  excluded <~ r_read (fun s => is_compressor m s || is_compression_driver m deleted created s);
  if (excluded : bool) then r_ret None
  else
    r <~ r_entry L_ransomware_unlink (meta_pid m) SlidingCounter_default
           (count_and_alert ts RANSOMWARE_RENAME_WINDOW_NS RANSOMWARE_RENAME_THRESHOLD);
    r_ret (if (r : Z * bool).2
           then Some (mkRuleAlert "T1486" Critical
                        (cat ["pid="; show_u64 (meta_pid m); " comm="; meta_comm m; ": "; show_u64 r.1;
                              " files replaced by a new file with an appended suffix and then unlinked in ";
                              show_u64 (RANSOMWARE_RENAME_WINDOW_NS / 1000000000); "s (e.g. "; deleted; " → "; created;
                              ") — suspected ransomware encryption pass (write-new-then-unlink)"]))
           else None).

(** A pairing partner taken out of a history; the history when there is none. *)
Definition take_partner (r : option ((Z * string) * list (Z * string))) (l : list (Z * string))
    : option (Z * string) * list (Z * string) :=
  match r with Some (x, rest) => (Some x, rest) | None => (None, l) end.

Definition record_create (event : FileOpenEvent) : Rules (option Alert) :=
  let m := file_open_meta event in
  let flags := file_open_flags event in
  if (Z.land flags O_CREAT =? 0) || negb (has_write_intent flags) || negb (is_unix_user (meta_user m)) then r_ret None
  else
    let created_ts := meta_timestamp_ns m in
    let p := file_open_path event in
    unlinked <~ r_get_mut L_pending_unlinks (meta_pid m)
                  (fun l => take_partner (take_first (fun u : Z * string => pairs_create_and_unlink created_ts p u.1 u.2) l) l);
    match mjoin unlinked with
    | Some (unlink_ts, deleted) => count_create_unlink_pair m unlink_ts deleted p
    | None =>
        r_entry L_recent_creates (meta_pid m) []
          (fun l => (tt, push_history CREATE_UNLINK_HISTORY_PER_PID (created_ts, p) l)) ~;
        r_ret None
    end.

Definition check_write_new_then_unlink (event : FileDeleteEvent) : Rules (option Alert) :=
  let m := file_delete_meta event in
  if negb (is_unix_user (meta_user m)) then r_ret None
  else
    let ts := meta_timestamp_ns m in
    let p := file_delete_path event in
    created <~ r_get_mut L_recent_creates (meta_pid m)
                 (fun l => take_partner (take_last (fun c : Z * string => pairs_create_and_unlink c.1 c.2 ts p) l) l);
    match mjoin created with
    | Some (_, created) => count_create_unlink_pair m ts p created
    | None =>
        r_entry L_pending_unlinks (meta_pid m) []
          (fun l => (tt, push_history CREATE_UNLINK_HISTORY_PER_PID (ts, p) l)) ~;
        r_ret None
    end.

Definition on_file_delete (event : FileDeleteEvent) : Rules (list Alert) :=
  a <~ check_write_new_then_unlink event; r_ret (option_list a).

Definition on_file_open (event : FileOpenEvent) : Rules (list Alert) :=
  a1 <~ check_task_registration event;
  a2 <~ r_read (fun s => check_service_write_outside_datadir event (resolve_comm s));
  a3 <~ record_create event;
  record_downloader_write event ~;
  r_ret (option_list a1 ++ option_list a2 ++ option_list a3).

Definition is_in_place_edit_backup (event : FileRenameEvent) (s : RuleState) : bool :=
  let m := file_rename_meta event in
  if negb (one_of IN_PLACE_EDIT_COMMS (meta_comm m)) then false
  else
    let known := PidFact_current (pid_image_path s) (meta_pid m) (meta_process_generation m) in
    match (match known with Some p => Some p | None => file_rename_executable_path event end) with
    | Some p => negb (str_is_empty p) && name_exclusion_applies (Some p) && written_file_is p (meta_comm m)
    | None => false
    end.

Definition rename_seconds : string := show_u64 (RANSOMWARE_RENAME_WINDOW_NS / 1000000000).

Definition check_mass_rename_pattern (event : FileRenameEvent) : Rules (option Alert) :=
  let m := file_rename_meta event in
  let old := file_rename_old_path event in
  let new := file_rename_new_path event in
  match appended_suffix old new with
  | None => r_ret None
  | Some suffix =>
      backup <~ r_read (is_in_place_edit_backup event);
      if str_is_empty suffix || is_rotation_suffix suffix || backup || is_maildir_flag_change old suffix
         || is_maildir_delivery old new suffix
      then r_ret None
      else
        let ts := meta_timestamp_ns m in
        r <~ r_entry L_ransomware_rename (meta_pid m) SlidingCounter_default
               (count_and_alert ts RANSOMWARE_RENAME_WINDOW_NS RANSOMWARE_RENAME_THRESHOLD);
        if (r : Z * bool).2
        then r_ret (Some (mkRuleAlert "T1486" Critical
                            (cat ["pid="; show_u64 (meta_pid m); " comm="; meta_comm m; ": "; show_u64 r.1;
                                  " files renamed with an appended suffix in "; rename_seconds; "s (e.g. "; old; " → ";
                                  new; ") — suspected ransomware encryption pass"])))
        else if (RANSOMWARE_LOOP_CHILD_MAX <? r.1) || (meta_ppid m <=? 1) then r_ret None
        else
          q <~ r_entry L_ransomware_rename_by_ppid (meta_ppid m) SlidingCounter_default
                 (count_and_alert ts RANSOMWARE_RENAME_WINDOW_NS RANSOMWARE_RENAME_THRESHOLD);
          r_ret (if (q : Z * bool).2
                 then Some (mkRuleAlert "T1486" Critical
                              (cat ["ppid="; show_u64 (meta_ppid m); ": "; show_u64 q.1;
                                    " files renamed with an appended suffix by short-lived children in ";
                                    rename_seconds; "s (e.g. "; old; " → "; new; ", comm="; meta_comm m;
                                    ") — suspected ransomware encryption pass (shell-loop pattern)"]))
                 else None)
  end.

(** Counting a rename, with the alert gated on the bytes written as well. *)
Definition count_and_alert_bytes (ts bytes_written : Z) (c : SlidingCounter) : (Z * bool) * SlidingCounter :=
  let '(count, c) := SlidingCounter_record ts RANSOMWARE_RENAME_WINDOW_NS c in
  if (RANSOMWARE_RENAME_THRESHOLD <=? count) && (BURST_WRITE_BYTES_THRESHOLD <=? bytes_written)
  then let '(fire, c) := SlidingCounter_try_alert ts RANSOMWARE_RENAME_WINDOW_NS c in ((count, fire), c)
  else ((count, false), c).

Definition check_burst_write_volume (event : FileRenameEvent) : Rules (option Alert) :=
  let m := file_rename_meta event in
  let old := file_rename_old_path event in
  let new := file_rename_new_path event in
  if existsb (fun prefix => starts_with prefix new) RANSOMWARE_EXCLUDED_PATH_PREFIXES
     || is_package_manager_temp_rename old new (meta_comm m)
  then r_ret None
  else
    let ts := meta_timestamp_ns m in
    bytes_written <~ r_entry L_write_volume (meta_pid m) SlidingSum_default
                       (SlidingSum_total_in ts RANSOMWARE_RENAME_WINDOW_NS);
    r <~ r_entry L_rename_count (meta_pid m) SlidingCounter_default (count_and_alert_bytes ts bytes_written);
    r_ret (if (r : Z * bool).2
           then Some (mkRuleAlert "T1486" Critical
                        (cat ["pid="; show_u64 (meta_pid m); " comm="; meta_comm m; " wrote ";
                              show_u64 (bytes_written / (1024 * 1024)); "MB and renamed "; show_u64 r.1; "x in ";
                              rename_seconds; "s — suspected ransomware kill chain"]))
           else None).

Definition on_file_rename (event : FileRenameEvent) : Rules (list Alert) :=
  a1 <~ check_mass_rename_pattern event; a2 <~ check_burst_write_volume event;
  r_ret (option_list a1 ++ option_list a2).

Definition on_file_write (event : FileWriteEvent) : Rules unit :=
  let m := file_write_meta event in
  r_entry L_write_volume (meta_pid m) SlidingSum_default
    (fun v => (tt, (SlidingSum_add (meta_timestamp_ns m) (file_write_bytes_requested event)
                      RANSOMWARE_RENAME_WINDOW_NS v).2)).
End Engine.
