(* ===== verification/RuleSafety.v ===== *)
(** * RuleSafety: the stateful rules are total and their memory is bounded

    [rs_ok n s] is the invariant of [RuleState]: every map is well-formed, has its
    capacity, keeps bounded values (at most 256 timestamps in a counter, 64 paths
    in a history, 8 descriptors), and has at least [n] clock ticks left.
    [runs m c] says that the computation [c] returns, whatever it reads, and takes
    at most [m] ticks.  Both compose along the handlers' structure. *)
From stdpp Require Import base gmap strings list.
From Stdlib Require Import ZArith Lia Ascii.
From S2P Require Import Prelude Bounded Sliding Str Text Float Schema LdTrust Stateless RuleState RuleEngine.

(** ** Bounded values *)

Class ValOk (V : Type) := val_ok : V -> Prop.
#[export] Instance ok_PidFact : ValOk PidFact := fun _ => True.
#[export] Instance ok_RecentWrite : ValOk RecentWrite := fun _ => True.
#[export] Instance ok_RecentQuarantine : ValOk RecentQuarantine := fun _ => True.
#[export] Instance ok_Task : ValOk ReportedTaskRegistration := fun _ => True.
#[export] Instance ok_Pending : ValOk PendingProcFdExec := fun _ => True.
#[export] Instance ok_unit : ValOk unit := fun _ => True.
#[export] Instance ok_Counter : ValOk SlidingCounter := fun c => (length (timestamps c) <= SLIDING_TIMESTAMPS_CAP)%nat.
#[export] Instance ok_Dedup : ValOk FlowPortDedup := fun d => (length (ports d) <= FLOW_PORT_DEDUP_CAP)%nat.
#[export] Instance ok_Sum : ValOk SlidingSum := fun s => (length (slots s) <= SLIDING_SUM_CAP)%nat.
#[export] Instance ok_Distinct : ValOk (SlidingDistinct IpAddr) :=
  fun d => (length (dentries d) <= SLIDING_DISTINCT_CAP)%nat.
#[export] Instance ok_history : ValOk (list (Z * string)) := fun l => (length l <= CREATE_UNLINK_HISTORY_PER_PID)%nat.
#[export] Instance ok_memfds : ValOk (list (Z * Z)) := fun l => (length l <= MEMFD_CREATES_PER_PID)%nat.

Definition bm_room {K V} `{Countable K} `{ValOk V} (n c : Z) (b : BoundedMap K V) : Prop :=
  bm_ok b /\ tick b + n <= U64_MAX /\ cap b = c /\ forall k v, bm_peek k b = Some v -> val_ok v.

Definition rs_ok (n : Z) (s : RuleState) : Prop :=
  bm_room n PID_COMM_CAP (pid_comm s) /\
  bm_room n PID_COMM_CAP (pid_image_path s) /\
  bm_room n RECENT_WRITES_CAP (recent_writes s) /\
  bm_room n RECENT_WRITES_CAP (recent_quarantines s) /\
  bm_room n COUNTER_CAP (self_spawn s) /\
  bm_room n COUNTER_CAP (beacon s) /\
  bm_room n COUNTER_CAP (beacon_flow_dedup s) /\
  bm_room n COUNTER_CAP (scan_spread s) /\
  bm_room n COUNTER_CAP (known_listeners s) /\
  bm_room n COUNTER_CAP (auth_failures s) /\
  bm_room n CREATE_UNLINK_PID_CAP (recent_creates s) /\
  bm_room n CREATE_UNLINK_PID_CAP (pending_unlinks s) /\
  bm_room n COUNTER_CAP (ransomware_unlink s) /\
  bm_room n COUNTER_CAP (ransomware_rename s) /\
  bm_room n COUNTER_CAP (ransomware_rename_by_ppid s) /\
  bm_room n COUNTER_CAP (write_volume s) /\
  bm_room n COUNTER_CAP (rename_count s) /\
  bm_room n COUNTER_CAP (task_registrations s) /\
  bm_room n PID_COMM_CAP (recent_memfd_creates s) /\
  bm_room n PID_COMM_CAP (pending_proc_fd_exec s).

Class FieldOk {K V} `{Countable K} `{ValOk V} (F : Field K V) (c : Z) := {
  field_get : forall n s, rs_ok n s -> bm_room n c (fget F s);
  field_set : forall n s b, rs_ok n s -> bm_room n c b -> rs_ok n (fset F b s) }.

Ltac solve_field :=
  split; [by unfold rs_ok; intros n s H; intuition
         |by unfold rs_ok; intros n s b H1 H2; cbn; intuition].

#[export] Instance ok_pid_comm : FieldOk L_pid_comm PID_COMM_CAP.
Proof. solve_field. Qed.
#[export] Instance ok_pid_image_path : FieldOk L_pid_image_path PID_COMM_CAP.
Proof. solve_field. Qed.
#[export] Instance ok_recent_writes : FieldOk L_recent_writes RECENT_WRITES_CAP.
Proof. solve_field. Qed.
#[export] Instance ok_recent_quarantines : FieldOk L_recent_quarantines RECENT_WRITES_CAP.
Proof. solve_field. Qed.
#[export] Instance ok_self_spawn : FieldOk L_self_spawn COUNTER_CAP.
Proof. solve_field. Qed.
#[export] Instance ok_beacon : FieldOk L_beacon COUNTER_CAP.
Proof. solve_field. Qed.
#[export] Instance ok_beacon_flow_dedup : FieldOk L_beacon_flow_dedup COUNTER_CAP.
Proof. solve_field. Qed.
#[export] Instance ok_scan_spread : FieldOk L_scan_spread COUNTER_CAP.
Proof. solve_field. Qed.
#[export] Instance ok_known_listeners : FieldOk L_known_listeners COUNTER_CAP.
Proof. solve_field. Qed.
#[export] Instance ok_auth_failures : FieldOk L_auth_failures COUNTER_CAP.
Proof. solve_field. Qed.
#[export] Instance ok_recent_creates : FieldOk L_recent_creates CREATE_UNLINK_PID_CAP.
Proof. solve_field. Qed.
#[export] Instance ok_pending_unlinks : FieldOk L_pending_unlinks CREATE_UNLINK_PID_CAP.
Proof. solve_field. Qed.
#[export] Instance ok_ransomware_unlink : FieldOk L_ransomware_unlink COUNTER_CAP.
Proof. solve_field. Qed.
#[export] Instance ok_ransomware_rename : FieldOk L_ransomware_rename COUNTER_CAP.
Proof. solve_field. Qed.
#[export] Instance ok_ransomware_rename_by_ppid : FieldOk L_ransomware_rename_by_ppid COUNTER_CAP.
Proof. solve_field. Qed.
#[export] Instance ok_write_volume : FieldOk L_write_volume COUNTER_CAP.
Proof. solve_field. Qed.
#[export] Instance ok_rename_count : FieldOk L_rename_count COUNTER_CAP.
Proof. solve_field. Qed.
#[export] Instance ok_task_registrations : FieldOk L_task_registrations COUNTER_CAP.
Proof. solve_field. Qed.
#[export] Instance ok_recent_memfd_creates : FieldOk L_recent_memfd_creates PID_COMM_CAP.
Proof. solve_field. Qed.
#[export] Instance ok_pending_proc_fd_exec : FieldOk L_pending_proc_fd_exec PID_COMM_CAP.
Proof. solve_field. Qed.

Lemma rs_ok_weaken n n' s : n' <= n -> rs_ok n s -> rs_ok n' s.
Proof.
  intros Hn. unfold rs_ok, bm_room. intros H. intuition lia.
Qed.

(** ** Computations that return *)

Definition runs {A} (m : Z) (c : Rules A) : Prop :=
  forall n s, 0 <= n -> rs_ok (n + m) s -> exists a s', c s = Some (a, s') /\ rs_ok n s'.

Lemma runs_ret {A} (a : A) : runs 0 (r_ret a).
Proof. intros n s Hn Hs. rewrite Z.add_0_r in Hs. by exists a, s. Qed.

Lemma runs_read {A} (f : RuleState -> A) : runs 0 (r_read f).
Proof. intros n s Hn Hs. rewrite Z.add_0_r in Hs. by exists (f s), s. Qed.

Lemma runs_bind {A B} m1 m2 (c : Rules A) (f : A -> Rules B) :
  0 <= m2 -> runs m1 c -> (forall a, runs m2 (f a)) -> runs (m1 + m2) (r_bind c f).
Proof.
  intros Hm Hc Hf n s Hn Hs. unfold r_bind.
  destruct (Hc (n + m2) s) as (a & s' & -> & Hs'); [lia|by replace (n + m2 + m1) with (n + (m1 + m2)) by lia|].
  by apply Hf.
Qed.

Lemma runs_weaken {A} m m' (c : Rules A) : m <= m' -> runs m c -> runs m' c.
Proof. intros Hm Hc n s Hn Hs. apply Hc; [done|]. apply (rs_ok_weaken (n + m')); [lia|done]. Qed.

Section Field.
Context {K V : Type} `{Countable K} `{ValOk V} (F : Field K V) (c : Z) `{!FieldOk F c}.

Lemma runs_entry {A} k d (f : V -> A * V) :
  val_ok d -> (forall v, val_ok v -> val_ok (f v).2) -> runs 1 (r_entry F k d f).
Proof.
  intros Hd Hf n s Hn Hs. unfold r_entry. destruct (field_get (c := c) _ _ Hs) as (H1 & H2 & H3 & H4).
  destruct (bm_get_or_insert_client (fget F s) k d (fun v => (f v).2) H1) as (b & -> & K1 & K2 & [K3 _] & K4 & K5); [lia|].
  do 2 eexists. split; [done|]. apply (field_set (c := c)); [by apply (rs_ok_weaken (n + 1)); [lia|]|].
  split_and!; [done|lia|by rewrite K4|]. intros k' v Hv. destruct (decide (k' = k)) as [->|Hne].
  - rewrite K2 in Hv. injection Hv as <-. apply Hf. destruct (bm_peek k (fget F s)) eqn:E; [by eapply H4|done].
  - destruct (K3 k' Hne) as [E|E]; rewrite E in Hv; [by eapply H4|done].
Qed.

Lemma runs_get_mut {A} k (f : V -> A * V) :
  (forall v, val_ok v -> val_ok (f v).2) -> runs 1 (r_get_mut F k f).
Proof.
  intros Hf n s Hn Hs. unfold r_get_mut. destruct (field_get (c := c) _ _ Hs) as (H1 & H2 & H3 & H4).
  destruct (bm_get_mut_client (fget F s) k (fun v => (f v).2) H1) as (K0 & K1 & K2 & K3 & _ & K4 & K5); [lia|].
  destruct (bm_get_mut k (fun v => (f v).2) (fget F s)) as [o b]. cbn [fst snd] in *.
  do 2 eexists. split; [done|]. apply (field_set (c := c)); [by apply (rs_ok_weaken (n + 1)); [lia|]|].
  split_and!; [done|lia|by rewrite K4|]. intros k' v Hv. destruct (decide (k' = k)) as [->|Hne].
  - rewrite K2 in Hv. destruct (bm_peek k (fget F s)) eqn:E; [|done]. injection Hv as <-. apply Hf. by eapply H4.
  - rewrite K3 in Hv by done. by eapply H4.
Qed.

Lemma runs_get k : runs 1 (r_get F k).
Proof.
  intros n s Hn Hs. unfold r_get. destruct (field_get (c := c) _ _ Hs) as (H1 & H2 & H3 & H4).
  destruct (bm_get_client (fget F s) k H1) as (K0 & K1 & K2 & _ & K4 & K5); [lia|].
  destruct (bm_get k (fget F s)) as [o b]. cbn [fst snd] in *.
  do 2 eexists. split; [done|]. apply (field_set (c := c)); [by apply (rs_ok_weaken (n + 1)); [lia|]|].
  split_and!; [done|lia|by rewrite K4|]. intros k' v Hv. rewrite K2 in Hv. by eapply H4.
Qed.

Lemma runs_insert k v : val_ok v -> runs 1 (r_insert F k v).
Proof.
  intros Hval n s Hn Hs. unfold r_insert, r_modify. destruct (field_get (c := c) _ _ Hs) as (H1 & H2 & H3 & H4).
  destruct (bm_insert_client (fget F s) k v H1) as (K1 & K2 & [K3 _]); [lia|].
  destruct (bm_insert_counters (fget F s) k v) as (K4 & K5 & _); [lia|by apply bm_ok_tick|].
  do 2 eexists. split; [done|]. apply (field_set (c := c)); [by apply (rs_ok_weaken (n + 1)); [lia|]|].
  split_and!; [done|lia|by rewrite K4|]. intros k' v' Hv. destruct (decide (k' = k)) as [->|Hne]; [congruence|].
  destruct (K3 k' Hne) as [E|E]; rewrite E in Hv; [by eapply H4|done].
Qed.

Lemma runs_remove k : runs 0 (r_remove F k).
Proof.
  intros n s Hn Hs. rewrite Z.add_0_r in Hs. unfold r_remove, r_modify.
  destruct (field_get (c := c) _ _ Hs) as (H1 & H2 & H3 & H4).
  destruct (bm_remove_client (fget F s) k H1) as (K1 & K2 & K3 & _).
  do 2 eexists. split; [done|]. apply (field_set (c := c)); [done|].
  split_and!; [done|done|done|]. intros k' v' Hv. destruct (decide (k' = k)) as [->|Hne]; [congruence|].
  rewrite K3 in Hv by done. by eapply H4.
Qed.

Lemma runs_peek k : runs 0 (r_peek F k).
Proof. apply runs_read. Qed.
End Field.

(** ** Bounded values stay bounded *)

Create HintDb rules.

Lemma push_capped_length {A} cap (x : A) l : (length l <= cap)%nat -> (1 <= cap)%nat -> (length (push_capped cap x l) <= cap)%nat.
Proof. intros Hl Hc. destruct (push_capped_split cap x l Hl) as (_ & _ & _ & H). lia. Qed.

Lemma pop_while_length {A} (p : A -> bool) l : (length (pop_while p l) <= length l)%nat.
Proof. destruct (pop_while_split p l) as (pre & H & _). apply (f_equal length) in H. rewrite length_app in H. lia. Qed.

Lemma record_ok ts w c : val_ok c -> val_ok (SlidingCounter_record ts w c).2.
Proof.
  intros H. unfold val_ok, ok_Counter in *. cbn. apply push_capped_length; [|unfold SLIDING_TIMESTAMPS_CAP; lia].
  etrans; [apply pop_while_length|done].
Qed.

Lemma try_alert_ok ts w c : val_ok c -> val_ok (SlidingCounter_try_alert ts w c).2.
Proof. intros H. unfold SlidingCounter_try_alert. by destruct (alert_in_window _ _ _). Qed.

Lemma count_and_alert_ok ts w th c : val_ok c -> val_ok (count_and_alert ts w th c).2.
Proof.
  intros H. unfold count_and_alert. pose proof (record_ok ts w c H) as Hr.
  destruct (SlidingCounter_record ts w c) as [n c']. cbn [snd] in Hr. destruct (th <=? n); [|done].
  pose proof (try_alert_ok ts w c' Hr). by destruct (SlidingCounter_try_alert ts w c').
Qed.

Lemma count_and_alert_bytes_ok ts bytes c : val_ok c -> val_ok (count_and_alert_bytes ts bytes c).2.
Proof.
  intros H. unfold count_and_alert_bytes. pose proof (record_ok ts RANSOMWARE_RENAME_WINDOW_NS c H) as Hr.
  destruct (SlidingCounter_record ts _ c) as [n c']. cbn [snd] in Hr. destruct (_ && _); [|done].
  pose proof (try_alert_ok ts RANSOMWARE_RENAME_WINDOW_NS c' Hr). by destruct (SlidingCounter_try_alert ts _ c').
Qed.

Lemma is_new_ok port ts w d : val_ok d -> val_ok (FlowPortDedup_is_new port ts w d).2.
Proof.
  intros H. unfold FlowPortDedup_is_new, val_ok, ok_Dedup in *.
  pose proof (pop_while_length (fun e => expired ts w e.2) (ports d)).
  destruct (existsb _ _); cbn [snd ports]; [lia|].
  apply push_capped_length; [lia|unfold FLOW_PORT_DEDUP_CAP; lia].
Qed.

Lemma distinct_and_alert_ok a ts d : val_ok d -> val_ok (distinct_and_alert a ts d).2.
Proof.
  intros H. unfold distinct_and_alert.
  assert (val_ok (SlidingDistinct_record a ts SCAN_SPREAD_WINDOW_NS d).2) as Hr.
  { unfold SlidingDistinct_record, val_ok, ok_Distinct in *. cbn.
    pose proof (pop_while_length (fun e => expired ts SCAN_SPREAD_WINDOW_NS e.2) (dentries d)).
    destruct (existsb _ _); [lia|]. apply push_capped_length; [lia|unfold SLIDING_DISTINCT_CAP; lia]. }
  destruct (SlidingDistinct_record a ts SCAN_SPREAD_WINDOW_NS d) as [n d']. cbn [snd] in Hr.
  destruct (_ <=? n); [|done]. unfold SlidingDistinct_try_alert. by destruct (alert_in_window _ _ _).
Qed.

Lemma prune_loop_length ts w l t : (length (SlidingSum_prune_loop ts w l t).1 <= length l)%nat.
Proof.
  revert t. induction l as [|x l IH]; intros t; simpl; [done|]. destruct (expired _ _ _); [|done].
  etrans; [apply IH|lia].
Qed.

Lemma total_in_ok ts w s : val_ok s -> val_ok (SlidingSum_total_in ts w s).2.
Proof.
  intros H. unfold SlidingSum_total_in, SlidingSum_prune, val_ok, ok_Sum in *.
  pose proof (prune_loop_length ts w (slots s) (total s)).
  destruct (SlidingSum_prune_loop ts w (slots s) (total s)). cbn in *. lia.
Qed.

Lemma coalesce_length ts v l : (length (SlidingSum_coalesce ts v l) <= S (length l))%nat.
Proof.
  induction l as [|x l IH]; simpl; [done|]. destruct l as [|y l]; [destruct (_ <? _); simpl; lia|]. simpl in *. lia.
Qed.

Lemma sum_add_ok ts v w s : val_ok s -> val_ok (SlidingSum_add ts v w s).2.
Proof.
  intros H. unfold SlidingSum_add, SlidingSum_prune. pose proof (prune_loop_length ts w (slots s) (total s)) as Hp.
  destruct (SlidingSum_prune_loop ts w (slots s) (total s)) as [l t]. cbn [fst slots] in *.
  pose proof (coalesce_length ts v l) as Hc. unfold val_ok, ok_Sum in *.
  destruct (SlidingSum_coalesce ts v l) as [|front l'] eqn:E; cbn [snd slots length] in *; [lia|].
  destruct (Nat.ltb_spec SLIDING_SUM_CAP (S (length l'))); cbn [snd slots length]; lia.
Qed.

Lemma push_history_length {A} cap (x : A) l : (length l <= cap)%nat -> (1 <= cap)%nat -> (length (push_history cap x l) <= cap)%nat.
Proof.
  intros Hl Hc. unfold push_history. rewrite length_app. simpl.
  destruct (Nat.leb_spec cap (length l)); [|lia]. destruct l; simpl in *; lia.
Qed.

Lemma take_first_length {A} (f : A -> bool) l x r : take_first f l = Some (x, r) -> length l = S (length r).
Proof.
  revert r. induction l as [|y l IH]; intros r; simpl; [done|]. destruct (f y); [by intros [= _ <-]|].
  destruct (take_first f l) as [[x' r']|]; [|done]. intros [= -> <-]. simpl. by rewrite (IH r').
Qed.

Lemma take_last_length {A} (f : A -> bool) l x r : take_last f l = Some (x, r) -> length l = S (length r).
Proof.
  unfold take_last. destruct (take_first f (rev l)) as [[x' r']|] eqn:E; [|done]. intros [= <- <-].
  apply take_first_length in E. rewrite length_rev in E. by rewrite E, length_rev.
Qed.

Lemma take_partner_ok (r : option ((Z * string) * list (Z * string))) l :
  (forall x rest, r = Some (x, rest) -> length l = S (length rest)) -> val_ok l -> val_ok (take_partner r l).2.
Proof.
  intros Hr Hl. unfold take_partner, val_ok, ok_history in *. destruct r as [[x rest]|]; [|done].
  specialize (Hr _ _ eq_refl). cbn. lia.
Qed.

#[export] Hint Resolve count_and_alert_ok count_and_alert_bytes_ok is_new_ok distinct_and_alert_ok total_in_ok
  sum_add_ok : rules.

(** ** Handlers *)

Lemma runs_bind_budget {A B} m M (c : Rules A) (f : A -> Rules B) :
  runs m c -> m <= M -> (forall a, runs (M - m) (f a)) -> runs M (r_bind c f).
Proof.
  intros Hc Hm Hf. replace M with (m + (M - m)) by lia. apply runs_bind; [lia|done|done].
Qed.

Lemma runs_leaf {A} M (a : A) : 0 <= M -> runs M (r_ret a).
Proof. intros. apply (runs_weaken 0); [done|apply runs_ret]. Qed.

Ltac runs_side :=
  lazymatch goal with
  | |- FieldOk _ _ => apply _
  | |- val_ok _ => first [exact I | apply Nat.le_0_l]
  | |- _ => cbn beta iota delta [fst snd]; eauto with rules
  end.
Ltac runs_op :=
  lazymatch goal with
  | |- runs _ (r_read _) => apply runs_read
  | |- runs _ (r_peek _ _) => apply runs_read
  | |- runs _ (r_entry ?F _ _ _) => eapply (runs_entry F); runs_side
  | |- runs _ (r_get_mut ?F _ _) => eapply (runs_get_mut F); runs_side
  | |- runs _ (r_get ?F _) => eapply (runs_get F); runs_side
  | |- runs _ (r_insert ?F _ _) => eapply (runs_insert F); runs_side
  | |- runs _ (r_remove ?F _) => eapply (runs_remove F); runs_side
  | |- _ => eauto with rules
  end.
Ltac runs_step :=
  cbn zeta;
  lazymatch goal with
  | |- runs _ (r_ret _) => apply runs_leaf; lia
  | |- runs _ (r_bind _ _) => eapply runs_bind_budget; [runs_op|lia|intros]
  | |- runs _ (if ?b then _ else _) => destruct b
  | |- runs _ (match ?o with _ => _ end) => destruct o
  | |- runs _ _ => eapply runs_weaken; [|runs_op]; lia
  end.
Ltac runs_auto := repeat runs_step.

Section Handlers.
Variable show_ip : IpAddr -> string.
Variable lower : string -> string.
Variable show_secs : f64 -> string.
Variable read_proc_comm : Z -> option string.

Lemma runs_quarantined_exec e : runs 1 (check_quarantined_exec lower show_secs e).
Proof. unfold check_quarantined_exec. runs_auto. Qed.

Lemma runs_self_spawn e : runs 1 (check_self_spawn e).
Proof. unfold check_self_spawn. runs_auto. Qed.

Lemma runs_memfd_exec e : runs 1 (check_memfd_exec e).
Proof. unfold check_memfd_exec. runs_auto. Qed.

Hint Resolve runs_quarantined_exec runs_self_spawn runs_memfd_exec : rules.

Lemma runs_on_exec e : runs 5 (on_exec lower show_secs read_proc_comm e).
Proof. unfold on_exec. runs_auto. Qed.

Lemma runs_on_memfd_create e : runs 1 (on_memfd_create e).
Proof.
  unfold on_memfd_create. runs_auto.
  intros l Hl. apply push_history_length; [done|unfold MEMFD_CREATES_PER_PID; lia].
Qed.

Lemma runs_record_beacon pid comm a p ts : runs 1 (record_beacon show_ip pid comm a p ts).
Proof. unfold record_beacon. runs_auto. Qed.
Hint Resolve runs_record_beacon : rules.

Lemma runs_on_connect e : runs 2 (on_connect show_ip e).
Proof.
  assert (runs 1 (check_beacon show_ip e)) by (unfold check_beacon; runs_auto).
  assert (runs 1 (check_scan_spread e)) by (unfold check_scan_spread; runs_auto).
  unfold on_connect. runs_auto.
Qed.

Lemma runs_on_network_flow e : runs 2 (on_network_flow show_ip e).
Proof.
  assert (runs 2 (check_beacon_flow show_ip e)) by (unfold check_beacon_flow; runs_auto).
  unfold on_network_flow. runs_auto.
Qed.

Lemma runs_on_listen_port e : runs 2 (on_listen_port show_ip e).
Proof.
  assert (runs 2 (check_listen_port_drift show_ip e)) by (unfold check_listen_port_drift; runs_auto).
  unfold on_listen_port. runs_auto.
Qed.

Lemma runs_on_auth e : runs 1 (on_auth show_ip e).
Proof. unfold on_auth. runs_auto. Qed.

Lemma runs_on_file_quarantine e : runs 1 (on_file_quarantine lower e).
Proof. unfold on_file_quarantine. runs_auto. Qed.

Lemma runs_count_pair m ts d c : runs 1 (count_create_unlink_pair m ts d c).
Proof. unfold count_create_unlink_pair. runs_auto. Qed.
Hint Resolve runs_count_pair : rules.

Lemma push_path_ok x l : val_ok l -> val_ok (push_history CREATE_UNLINK_HISTORY_PER_PID (x : Z * string) l).
Proof. intros Hl. apply push_history_length; [done|unfold CREATE_UNLINK_HISTORY_PER_PID; lia]. Qed.
Hint Resolve push_path_ok : rules.

Lemma runs_record_create e : runs 2 (record_create e).
Proof.
  unfold record_create. runs_auto. intros l Hl. apply take_partner_ok; [|done]. intros x r. apply take_first_length.
Qed.

Lemma runs_write_new_then_unlink e : runs 2 (check_write_new_then_unlink e).
Proof.
  unfold check_write_new_then_unlink. runs_auto. intros l Hl. apply take_partner_ok; [|done].
  intros x r. apply take_last_length.
Qed.
Hint Resolve runs_record_create runs_write_new_then_unlink : rules.

Lemma runs_on_file_delete e : runs 2 (on_file_delete e).
Proof. unfold on_file_delete. runs_auto. Qed.

Lemma runs_on_file_open e : runs 4 (on_file_open read_proc_comm e).
Proof.
  assert (runs 1 (check_task_registration e)) by (unfold check_task_registration; runs_auto).
  assert (runs 1 (record_downloader_write e)) by (unfold record_downloader_write; runs_auto).
  unfold on_file_open. runs_auto.
Qed.

Lemma runs_on_file_rename e : runs 4 (on_file_rename e).
Proof.
  assert (runs 2 (check_mass_rename_pattern e)) by (unfold check_mass_rename_pattern; runs_auto).
  assert (runs 2 (check_burst_write_volume e)) by (unfold check_burst_write_volume; runs_auto).
  unfold on_file_rename. runs_auto.
Qed.

Lemma runs_on_file_write e : runs 1 (on_file_write e).
Proof. unfold on_file_write. runs_auto. Qed.
End Handlers.
