(* ===== verification/RuleTheorems.v ===== *)
(** * RuleTheorems: what the stateful rules report

    Totality and memory bounds over any event sequence; the brute-force rule
    against a per-source reference; the order-independence of the rules that
    pair two events. *)
From stdpp Require Import base gmap strings list sorting.
From Stdlib Require Import ZArith Lia Ascii FunctionalExtensionality.
From S2P Require Import Prelude Bounded Sliding Str Text Float Schema LdTrust Stateless RuleState RuleEngine RuleSafety.

(** ** Every event *)

Section Dispatch.
Variable show_ip : IpAddr -> string.
Variable lower : string -> string.
Variable show_secs : f64 -> string.
Variable read_proc_comm : Z -> option string.

Definition no_alerts (c : Rules unit) : Rules (list Alert) := c ~; r_ret [].

(** The handler the agent calls for an event. *)
Definition rule_handler (event : Event) : Rules (list Alert) :=
  match event with
  | Event_Exec e => on_exec lower show_secs read_proc_comm e
  | Event_FileOpen e => on_file_open read_proc_comm e
  | Event_FileQuarantine e => no_alerts (on_file_quarantine lower e)
  | Event_Connect e => on_connect show_ip e
  | Event_NetworkFlow e => on_network_flow show_ip e
  | Event_ListenPort e => on_listen_port show_ip e
  | Event_Auth e => on_auth show_ip e
  | Event_FileDelete e => on_file_delete e
  | Event_FileRename e => on_file_rename e
  | Event_FileWrite e => no_alerts (on_file_write e)
  | Event_MemfdCreate e => on_memfd_create e
  | _ => r_ret []
  end.

Fixpoint rules_run (es : list Event) : Rules (list Alert) :=
  match es with
  | [] => r_ret []
  | e :: es => a <~ rule_handler e; b <~ rules_run es; r_ret (a ++ b)
  end.

Lemma runs_handler e : runs 5 (rule_handler e).
Proof.
  assert (forall c, runs 1 c -> runs 5 (no_alerts c)) as Hno.
  { intros c Hc. apply (runs_weaken 1); [lia|]. unfold no_alerts.
    eapply runs_bind_budget; [exact Hc|lia|]. intros. apply runs_leaf. lia. }
  unfold rule_handler. destruct e; try (apply runs_leaf; lia); try apply Hno.
  all: first [apply runs_on_file_quarantine | apply runs_on_file_write | apply runs_on_exec
    | apply (runs_weaken 4); [lia|first [apply runs_on_file_open | apply runs_on_file_rename]]
    | apply (runs_weaken 2); [lia|first [apply runs_on_connect | apply runs_on_network_flow | apply runs_on_listen_port
        | apply runs_on_file_delete]]
    | apply (runs_weaken 1); [lia|first [apply runs_on_auth | apply runs_on_memfd_create]]].
Qed.

Lemma runs_all es : runs (5 * Z.of_nat (length es)) (rules_run es).
Proof.
  induction es as [|e es IH]; [apply runs_ret|]. cbn [rules_run length].
  replace (5 * Z.of_nat (S (length es))) with (5 + (5 * Z.of_nat (length es) + 0)) by lia.
  apply runs_bind; [lia|apply runs_handler|]. intros a. apply runs_bind; [lia|done|]. intros b. apply runs_ret.
Qed.
End Dispatch.

Lemma fresh_room {K V} `{Countable K} `{ValOk V} c :
  1 <= c -> bm_room U64_MAX c (mkBounded ∅ c 0 0 : BoundedMap K V).
Proof.
  intros Hc. split_and!; [|cbn; lia|done|].
  - exists []. apply (bm_abs_new c). unfold bm_new. case_bool; [done|lia].
  - intros k v Hv. unfold bm_peek in Hv. cbn in Hv. by rewrite lookup_empty in Hv.
Qed.

(** What [RuleState::new] builds. *)
Definition fresh {K V} `{Countable K} (c : Z) : BoundedMap K V := mkBounded ∅ c 0 0.
Definition fresh_rules : RuleState :=
  mkRules (fresh PID_COMM_CAP) (fresh PID_COMM_CAP) (fresh RECENT_WRITES_CAP) (fresh RECENT_WRITES_CAP)
  (fresh COUNTER_CAP) (fresh COUNTER_CAP) (fresh COUNTER_CAP) (fresh COUNTER_CAP) (fresh COUNTER_CAP)
  (fresh COUNTER_CAP) (fresh CREATE_UNLINK_PID_CAP) (fresh CREATE_UNLINK_PID_CAP) (fresh COUNTER_CAP)
  (fresh COUNTER_CAP) (fresh COUNTER_CAP) (fresh COUNTER_CAP) (fresh COUNTER_CAP) (fresh COUNTER_CAP)
  (fresh PID_COMM_CAP) (fresh PID_COMM_CAP) None [].

Lemma RuleState_new_eq : RuleState_new = Some fresh_rules.
Proof. reflexivity. Qed.

Lemma fresh_rules_ok : rs_ok U64_MAX fresh_rules.
Proof. unfold rs_ok. cbn. split_and!; apply fresh_room; vm_compute; discriminate. Qed.

Lemma RuleState_new_ok : exists s, RuleState_new = Some s /\ rs_ok U64_MAX s /\
  forall k : string * string, bm_peek k (auth_failures s) = None.
Proof. exists fresh_rules. split; [done|]. split; [apply fresh_rules_ok|done]. Qed.

(** ** The brute-force rule *)

(** The reference for one key: the failures so far, and the last alert. *)
Definition burst_step (w threshold : Z) (st : list Z * option Z) (ts : Z) : bool * (list Z * option Z) :=
  let h := st.1 ++ [ts] in
  let fire := (threshold <=? Z.of_nat (length (in_window w ts h))) && negb (alert_in_window st.2 ts w) in
  (fire, (h, if fire then Some ts else st.2)).
Definition burst_run (w threshold : Z) (tss : list Z) : list Z * option Z :=
  foldl (fun st ts => (burst_step w threshold st ts).2) ([], None) tss.

Lemma burst_run_history w th tss : (burst_run w th tss).1 = tss.
Proof.
  induction tss as [|ts tss IH] using rev_ind; [done|]. unfold burst_run. rewrite foldl_app. cbn [foldl].
  fold (burst_run w th tss). unfold burst_step. cbn [fst snd]. by rewrite IH.
Qed.

(** A counter that has recorded the history [st.1] and alerted at [st.2]. *)
Definition counter_of (w : Z) (st : list Z * option Z) (c : SlidingCounter) : Prop :=
  timestamps c = timestamps (counter_run w st.1) /\ last_alert_ns c = st.2.

Lemma record_timestamps ts w c c' :
  timestamps c = timestamps c' ->
  (SlidingCounter_record ts w c).1 = (SlidingCounter_record ts w c').1 /\
  timestamps (SlidingCounter_record ts w c).2 = timestamps (SlidingCounter_record ts w c').2.
Proof. intros E. unfold SlidingCounter_record. cbn. by rewrite E. Qed.

(** The record-and-alert step of a counter is the reference's step. *)
Lemma count_and_alert_burst w th ts st c :
  0 <= w -> th <= 256 -> StronglySorted Z.le (st.1 ++ [ts]) -> counter_of w st c ->
  ((count_and_alert ts w th c).1).2 = (burst_step w th st ts).1 /\
  counter_of w (burst_step w th st ts).2 (count_and_alert ts w th c).2.
Proof.
  intros Hw Hth Hs [Et Ea]. destruct st as [h last]. cbn [fst snd] in *.
  destruct (record_timestamps ts w c (counter_run w h) Et) as [R1 R2].
  pose proof (counter_inv_count w h ts Hw Hs) as R3. rewrite <- R1 in R3.
  unfold count_and_alert, burst_step. cbn [fst snd].
  assert (last_alert_ns (SlidingCounter_record ts w c).2 = last) as R4 by done.
  destruct (SlidingCounter_record ts w c) as [n c']. cbn [fst snd] in *.
  assert (timestamps c' = timestamps (counter_run w (h ++ [ts]))) as R5.
  { rewrite R2. unfold counter_run. by rewrite foldl_app. }
  set (k := Z.of_nat (length (in_window w ts (h ++ [ts])))) in *.
  assert ((th <=? n) = (th <=? k)) as ->.
  { subst n. destruct (Z.leb_spec th (Z.min 256 k)), (Z.leb_spec th k); try done; lia. }
  destruct (th <=? k); cbn [andb fst snd]; [|split; [done|split; done]].
  unfold SlidingCounter_try_alert. rewrite R4. destruct (alert_in_window last ts w); cbn; split; done.
Qed.

(** The key a failed authentication counts under, and the failures of a key. *)
Definition auth_key show_ip (e : AuthEvent) : string * string := (auth_target_user e, auth_source show_ip e).
Definition auth_ts (e : AuthEvent) : Z := meta_timestamp_ns (auth_meta e).
Definition is_failure_of show_ip (key : string * string) (e : AuthEvent) : Prop :=
  auth_outcome e = AuthOutcome_Failure /\ auth_key show_ip e = key.
#[export] Instance is_failure_of_dec show_ip key e : Decision (is_failure_of show_ip key e) := _.
Definition failure_times show_ip (key : string * string) (es : list AuthEvent) : list Z :=
  auth_ts <$> filter (is_failure_of show_ip key) es.

Fixpoint auth_run show_ip (es : list AuthEvent) : Rules (list Alert) :=
  match es with
  | [] => r_ret []
  | e :: es => a <~ on_auth show_ip e; b <~ auth_run show_ip es; r_ret (a ++ b)
  end.

#[local] Notation W := AUTH_FAILURE_WINDOW_NS.
#[local] Notation TH := AUTH_FAILURE_THRESHOLD.

(** The table agrees with the reference on every key. *)
Definition auth_sim show_ip (es : list AuthEvent) (s : RuleState) : Prop :=
  bm_len (auth_failures s) <= Z.of_nat (length es) /\
  forall key, counter_of W (burst_run W TH (failure_times show_ip key es))
                (default SlidingCounter_default (bm_peek key (auth_failures s))).

Lemma failure_times_snoc show_ip key es e :
  failure_times show_ip key (es ++ [e]) =
  failure_times show_ip key es ++ (if decide (is_failure_of show_ip key e) then [auth_ts e] else []).
Proof.
  unfold failure_times. rewrite filter_app, fmap_app. f_equal. rewrite filter_cons, filter_nil. by case_decide.
Qed.

Lemma burst_run_snoc w th tss ts : burst_run w th (tss ++ [ts]) = (burst_step w th (burst_run w th tss) ts).2.
Proof. unfold burst_run. by rewrite foldl_app. Qed.

Lemma sorted_failures show_ip key es e :
  StronglySorted Z.le (auth_ts <$> es ++ [e]) -> StronglySorted Z.le (failure_times show_ip key es ++ [auth_ts e]).
Proof.
  intros Hs. rewrite fmap_app in Hs. refine (StronglySorted_sublist _ _ _ _ Hs). cbn [fmap list_fmap].
  apply sublist_app; [|done]. unfold failure_times. apply fmap_sublist, sublist_filter.
Qed.

Lemma sorted_failures_run show_ip key es e :
  StronglySorted Z.le (auth_ts <$> es ++ [e]) ->
  StronglySorted Z.le ((burst_run W TH (failure_times show_ip key es)).1 ++ [auth_ts e]).
Proof. rewrite burst_run_history. apply sorted_failures. Qed.

(** One event keeps the simulation, and its alert is the reference's. *)
Lemma on_auth_sim show_ip es e s n :
  0 <= n -> rs_ok (n + 1) s -> Z.of_nat (length es) < COUNTER_CAP -> auth_sim show_ip es s ->
  StronglySorted Z.le (auth_ts <$> es ++ [e]) ->
  exists al s', on_auth show_ip e s = Some (al, s') /\ rs_ok n s' /\ auth_sim show_ip (es ++ [e]) s' /\
    (al <> [] <-> auth_outcome e = AuthOutcome_Failure /\
       (burst_step W TH (burst_run W TH (failure_times show_ip (auth_key show_ip e) es)) (auth_ts e)).1 = true).
Proof.
  intros Hn Hok Hcap [Hlen Hsim] Hs. destruct (runs_on_auth show_ip e n s Hn Hok) as (al & s' & Hrun & Hok').
  exists al, s'. split; [done|]. split; [done|]. revert Hrun. unfold on_auth. case_bool_decide as Hf; cbn [negb].
  2: { intros [= <- <-]. split; [|naive_solver]. split; [rewrite length_app; lia|]. intros key.
       rewrite failure_times_snoc, decide_False, app_nil_r by (by intros [? ?]). apply Hsim. }
  cbn zeta. unfold r_bind, r_entry, r_ret. cbn [fget L_auth_failures].
  destruct (field_get (F := L_auth_failures) (c := COUNTER_CAP) _ _ Hok) as (H1 & H2 & H3 & H4). cbn [fget L_auth_failures] in *.
  fold (auth_ts e). fold (auth_key show_ip e). set (key := auth_key show_ip e).
  set (step := count_and_alert (auth_ts e) W TH).
  destruct (bm_get_or_insert_client (auth_failures s) key SlidingCounter_default (fun c => (step c).2) H1)
    as (b & Hb & K1 & K2 & [_ K3] & K4 & K5); [lia|]. pose proof (bm_get_or_insert_len _ _ _ _ _ _ Hb) as Hlen'.
  rewrite Hb.
  pose proof (count_and_alert_burst W TH (auth_ts e) _ _ ltac:(done) ltac:(done)
    (sorted_failures_run show_ip key es e Hs) (Hsim key)) as [B1 B2]. fold step in B1, B2.
  set (c := default SlidingCounter_default (bm_peek key (auth_failures s))) in *.
  destruct (step c) as [[count fire] c'] eqn:Ec. cbn [fst snd] in *.
  intros [= <- <-]. split.
  - split; [cbn; rewrite length_app; cbn; lia|]. intros key'. cbn [auth_failures fset L_auth_failures].
    rewrite failure_times_snoc. destruct (decide (is_failure_of show_ip key' e)) as [[_ <-]|Hne].
    + rewrite burst_run_snoc. fold key. rewrite K2. exact B2.
    + rewrite app_nil_r, K3; [apply Hsim|lia|]. intros ->. apply Hne. by split.
  - rewrite <- B1. destruct fire; naive_solver.
Qed.

Lemma auth_run_sim show_ip done_ es s n :
  0 <= n -> rs_ok (n + Z.of_nat (length es)) s -> Z.of_nat (length (done_ ++ es)) <= COUNTER_CAP ->
  auth_sim show_ip done_ s -> StronglySorted Z.le (auth_ts <$> done_ ++ es) ->
  exists al s', auth_run show_ip es s = Some (al, s') /\ rs_ok n s' /\ auth_sim show_ip (done_ ++ es) s'.
Proof.
  intros Hn. revert done_ s. induction es as [|e es IH]; intros past s Hok Hcap Hsim Hs.
  { rewrite app_nil_r. cbn [length] in Hok. rewrite Z.add_0_r in Hok. do 2 eexists. split; [done|]. done. }
  assert (past ++ e :: es = (past ++ [e]) ++ es) as Happ by (by rewrite <- app_assoc).
  rewrite Happ in *. cbn [length] in Hok. rewrite !length_app in Hcap. cbn [length] in Hcap.
  destruct (on_auth_sim show_ip past e s (n + Z.of_nat (length es))) as (al & s1 & H1 & H2 & H3 & _);
    [lia|by replace (n + Z.of_nat (length es) + 1) with (n + Z.of_nat (S (length es))) by lia|lia|done| |].
  { rewrite fmap_app in Hs. by apply StronglySorted_app_1_l in Hs. }
  destruct (IH (past ++ [e]) s1) as (al2 & s2 & H4 & H5 & H6);
    [done|rewrite !length_app; cbn; lia|done|done|].
  cbn [auth_run]. unfold r_bind, r_ret. rewrite H1, H4. eauto.
Qed.

(** ** Theorems *)

(** C18. The stateful rules never panic and their memory stays bounded: from the
    state [RuleState::new] builds, any sequence of events (fewer than the clock of
    the maps can count) is handled, and every map stays within its capacity with
    bounded entries. *)
Theorem rules_total_and_bounded show_ip lower show_secs read_proc_comm es :
  5 * Z.of_nat (length es) <= U64_MAX ->
  exists s alerts s', RuleState_new = Some s /\
    rules_run show_ip lower show_secs read_proc_comm es s = Some (alerts, s') /\ rs_ok 0 s'.
Proof.
  intros Hes. destruct RuleState_new_ok as (s & Hnew & Hok & _).
  destruct (runs_all show_ip lower show_secs read_proc_comm es 0 s) as (al & s' & H1 & H2); [lia| |by exists s, al, s'].
  apply (rs_ok_weaken U64_MAX); [lia|done].
Qed.

(** The brute-force rule is exact per source: after any authentications in
    time order, the next one raises an alert if and only if it is a failure, at
    least five failures of the same target and source lie in the last minute, and
    the last alert for them is more than a minute old, whatever other targets and
    sources did in between. *)
Theorem brute_force_exact show_ip es e :
  Z.of_nat (length es) < COUNTER_CAP -> StronglySorted Z.le (auth_ts <$> es ++ [e]) ->
  exists s0 al0 s al s', RuleState_new = Some s0 /\ auth_run show_ip es s0 = Some (al0, s) /\
    on_auth show_ip e s = Some (al, s') /\
    let tss := failure_times show_ip (auth_key show_ip e) es in
    (al <> [] <-> auth_outcome e = AuthOutcome_Failure /\
       AUTH_FAILURE_THRESHOLD <= Z.of_nat (length (in_window AUTH_FAILURE_WINDOW_NS (auth_ts e) (tss ++ [auth_ts e]))) /\
       alert_in_window (burst_run AUTH_FAILURE_WINDOW_NS AUTH_FAILURE_THRESHOLD tss).2 (auth_ts e)
         AUTH_FAILURE_WINDOW_NS = false).
Proof.
  intros Hcap Hs. destruct RuleState_new_ok as (s0 & Hnew & Hok & Hnone).
  destruct (auth_run_sim show_ip [] es s0 1) as (al0 & s & H1 & H2 & H3).
  - lia.
  - apply (rs_ok_weaken U64_MAX); [|done]. unfold COUNTER_CAP in Hcap. unfold U64_MAX. lia.
  - simpl. lia.
  - split; [|intros key; by rewrite Hnone]. rewrite RuleState_new_eq in Hnew. injection Hnew as <-. done.
  - simpl. rewrite fmap_app in Hs. by apply StronglySorted_app_1_l in Hs.
  - destruct (on_auth_sim show_ip es e s 0) as (al & s' & K1 & K2 & K3 & K4); [lia|done|done|done|done|].
    exists s0, al0, s, al, s'. split_and!; [done..|]. cbn zeta. rewrite K4. unfold burst_step.
    rewrite burst_run_history. cbn [fst]. rewrite andb_true_iff, Z.leb_le, negb_true_iff. done.
Qed.

(** ** Rules that pair two events *)

Lemma take_last_snoc {A} (f : A -> bool) l x : f x = true -> take_last f (l ++ [x]) = Some (x, l).
Proof. intros Hf. unfold take_last. rewrite rev_unit. cbn [take_first]. rewrite Hf. cbn. by rewrite rev_involutive. Qed.

Lemma take_first_snoc {A} (f : A -> bool) l x :
  f x = true -> exists y r, take_first f (l ++ [x]) = Some (y, r) /\ f y = true /\ y ∈ l ++ [x].
Proof.
  intros Hf. induction l as [|z l IH]; cbn [take_first app].
  - rewrite Hf. exists x, []. split_and!; [done|done|left].
  - destruct (f z) eqn:Ez; [exists z, (l ++ [x]); split_and!; [done|done|left]|].
    destruct IH as (y & r & -> & H1 & H2). exists y, (z :: r). split_and!; [done|done|by right].
Qed.

Lemma push_history_last {A} cap (x : A) l : exists l0, push_history cap x l = l0 ++ [x] /\ l0 = if (cap <=? length l)%nat then tail l else l.
Proof. by eexists. Qed.

(** Reading a map entry through [r_entry] and [r_get_mut], for a well-formed state. *)
Section FieldSpec.
Context {K V : Type} `{Countable K} `{ValOk V} (F : Field K V) (c : Z) `{!FieldOk F c}.

Lemma r_entry_spec {A} k d (f : V -> A * V) n s :
  val_ok d -> (forall v, val_ok v -> val_ok (f v).2) -> 0 <= n -> rs_ok (n + 1) s ->
  exists b, r_entry F k d f s = Some ((f (default d (bm_peek k (fget F s)))).1, fset F b s) /\
    rs_ok n (fset F b s) /\ bm_peek k b = Some (f (default d (bm_peek k (fget F s)))).2.
Proof.
  intros Hd Hf Hn Hs. destruct (runs_entry F c k d f Hd Hf n s Hn Hs) as (a & s' & Hr & Hok).
  destruct (field_get (c := c) _ _ Hs) as (H1 & H2 & _). unfold r_entry in *.
  destruct (bm_get_or_insert_client (fget F s) k d (fun v => (f v).2) H1) as (b & Hb & _ & K2 & _); [lia|].
  rewrite Hb in *. injection Hr as _ <-. by exists b.
Qed.

Lemma r_get_mut_spec {A} k (f : V -> A * V) n s :
  (forall v, val_ok v -> val_ok (f v).2) -> 0 <= n -> rs_ok (n + 1) s ->
  exists b, r_get_mut F k f s = Some ((fun v => (f v).1) <$> bm_peek k (fget F s), fset F b s) /\
    rs_ok n (fset F b s) /\ bm_peek k b = (fun v => (f v).2) <$> bm_peek k (fget F s).
Proof.
  intros Hf Hn Hs. destruct (runs_get_mut F c k f Hf n s Hn Hs) as (a & s' & Hr & Hok).
  destruct (field_get (c := c) _ _ Hs) as (H1 & H2 & _). unfold r_get_mut in *.
  destruct (bm_get_mut_client (fget F s) k (fun v => (f v).2) H1) as (K0 & K1 & K2 & _); [lia|].
  destruct (bm_get_mut k (fun v => (f v).2) (fget F s)) as [o b]. cbn [fst snd] in *. subst o.
  injection Hr as _ <-. by exists b.
Qed.

Lemma r_insert_spec k v n s :
  val_ok v -> 0 <= n -> rs_ok (n + 1) s ->
  exists b, r_insert F k v s = Some (tt, fset F b s) /\ rs_ok n (fset F b s) /\ bm_peek k b = Some v.
Proof.
  intros Hv Hn Hs. destruct (runs_insert F c k v Hv n s Hn Hs) as (a & s' & Hr & Hok).
  destruct (field_get (c := c) _ _ Hs) as (H1 & H2 & _). unfold r_insert, r_modify in *.
  destruct (bm_insert_client (fget F s) k v H1) as (_ & K2 & _); [lia|]. injection Hr as _ <-. by eexists.
Qed.
End FieldSpec.

(** Fileless execution is reported in either order.  For an exec of
    "/proc/self/fd/N" and the creation of the memfd N by the same process at most
    five seconds earlier, processing the creation first makes the exec alert, and
    processing the exec first makes the creation alert, with the same alert, and
    the pending exec is forgotten. *)
Theorem memfd_either_order s x c fd :
  let m := exec_meta x in
  let alert := memfd_proc_fd_exec_alert (meta_pid m) (meta_comm m) (exec_image_path x) fd in
  rs_ok 2 s -> is_dev_fd_path (exec_image_path x) = false ->
  proc_fd_number (exec_image_path x) (meta_pid m) = Some fd ->
  memfd_create_fd c = fd -> meta_pid (memfd_create_meta c) = meta_pid m ->
  memfd_matches fd (meta_timestamp_ns (memfd_create_meta c)) fd (meta_timestamp_ns m) = true ->
  (exists al s1, on_memfd_create c s = Some (al, s1) /\ check_memfd_exec x s1 = Some (Some alert, s1)) /\
  (forall s1, check_memfd_exec x s = Some (None, s1) ->
     exists s2, on_memfd_create c s1 = Some ([alert], s2) /\ bm_peek (meta_pid m) (pending_proc_fd_exec s2) = None).
Proof.
  intros m alert Hok Hdev Hfd Hc Hpid Hm. unfold on_memfd_create, check_memfd_exec. rewrite Hdev. fold m. rewrite Hfd, Hpid, Hc.
  set (ct := meta_timestamp_ns (memfd_create_meta c)) in *.
  set (push := fun l => (tt, push_history MEMFD_CREATES_PER_PID (ct, fd) l)).
  assert (forall v, val_ok v -> val_ok (push v).2) as Hpush.
  { intros v Hv. apply push_history_length; [done|unfold MEMFD_CREATES_PER_PID; lia]. }
  split.
  - destruct (r_entry_spec L_recent_memfd_creates PID_COMM_CAP (meta_pid m) [] push 1 s) as (b & He & _ & Hb);
      [apply Nat.le_0_l|apply Hpush|lia|done|].
    assert (existsb (fun c0 : Z * Z => memfd_matches fd c0.1 c0.2 (meta_timestamp_ns m))
      (default [] (bm_peek (meta_pid m) b)) = true) as Hex.
    { rewrite Hb. cbn. apply existsb_exists. exists (ct, fd). split; [|done]. apply in_app_iff. right. by left. }
    unfold r_bind, r_peek, r_read, r_ret in *. rewrite He. cbn [fget L_pending_proc_fd_exec fset L_recent_memfd_creates pending_proc_fd_exec].
    destruct (bm_peek (meta_pid m) (pending_proc_fd_exec s)) as [q|]; [destruct (memfd_matches fd ct (pp_fd q) (pp_timestamp_ns q))|];
      do 2 eexists; (split; [reflexivity|]); cbn; by rewrite Hex.
  - unfold r_bind at 1, r_peek at 1, r_read at 1. intros s1.
    destruct (existsb _ _); [done|]. cbn [r_bind r_ret].
    destruct (r_insert_spec L_pending_proc_fd_exec PID_COMM_CAP (meta_pid m)
      (mkPending (exec_image_path x) fd (meta_comm m) (meta_timestamp_ns m)) 1 s I) as (b & Hi & Hok1 & Hb); [lia|done|].
    unfold r_bind at 1. rewrite Hi.
    assert (bm_peek (meta_pid m) (pending_proc_fd_exec (fset L_pending_proc_fd_exec b s)) = Some
      (mkPending (exec_image_path x) fd (meta_comm m) (meta_timestamp_ns m))) as Hb' by exact Hb.
    set (t1 := fset L_pending_proc_fd_exec b s) in *. clearbody t1. intros [= <-].
    destruct (r_entry_spec L_recent_memfd_creates PID_COMM_CAP (meta_pid m) [] push 0 _
      (Nat.le_0_l _) Hpush (Z.le_refl 0) Hok1) as (b2 & He & _ & Hb2).
    unfold r_bind at 1. rewrite He. unfold r_bind, r_peek, r_read, r_ret. cbn. rewrite Hb'. cbn. rewrite Hm.
    eexists. split; [reflexivity|]. cbn. unfold bm_peek. cbn. by rewrite lookup_delete_eq.
Qed.

(** The two rules that pair a creation with a deletion look for the partner in
    one history and otherwise remember the event in the other. *)
Section PairStep.
Variables F G : Field Z (list (Z * string)).
Context `{!FieldOk F CREATE_UNLINK_PID_CAP} `{!FieldOk G CREATE_UNLINK_PID_CAP}.
Variable take : list (Z * string) -> option ((Z * string) * list (Z * string)).
Hypothesis take_shorter : forall l x r, take l = Some (x, r) -> length l = S (length r).
Variables (pid : Z) (x : Z * string) (k : Z * string -> Rules (option Alert)).

Definition pair_step : Rules (option Alert) :=
  o <~ r_get_mut F pid (fun l => take_partner (take l) l);
  match mjoin o with
  | Some u => k u
  | None => r_entry G pid [] (fun l => (tt, push_history CREATE_UNLINK_HISTORY_PER_PID x l)) ~; r_ret None
  end.

Lemma pair_step_spec s n :
  0 <= n -> rs_ok (n + 2) s ->
  match take (default [] (bm_peek pid (fget F s))) with
  | Some (u, r) => exists b, pair_step s = k u (fset F b s) /\ bm_peek pid b = Some r
  | None => exists b1 b2, pair_step s = Some (None, fset G b2 (fset F b1 s)) /\ rs_ok n (fset G b2 (fset F b1 s)) /\
      bm_peek pid b2 =
        Some (push_history CREATE_UNLINK_HISTORY_PER_PID x (default [] (bm_peek pid (fget G (fset F b1 s)))))
  end.
Proof.
  intros Hn Hok. set (g := fun l => take_partner (take l) l).
  destruct (r_get_mut_spec F CREATE_UNLINK_PID_CAP pid g (n + 1) s) as (b1 & E1 & Hok1 & K1);
    [|lia|by replace (n + 1 + 1) with (n + 2) by lia|].
  { intros l Hl. apply take_partner_ok; [|done]. intros y r. apply take_shorter. }
  set (push := fun l => (tt, push_history CREATE_UNLINK_HISTORY_PER_PID x l)).
  destruct (r_entry_spec G CREATE_UNLINK_PID_CAP pid [] push n (fset F b1 s)) as (b2 & E2 & Hok2 & K2);
    [apply Nat.le_0_l|by intros l; apply push_path_ok|done|done|].
  assert (pair_step s = match mjoin ((fun v => (g v).1) <$> bm_peek pid (fget F s)) with
                        | Some u => k u (fset F b1 s)
                        | None => Some (None, fset G b2 (fset F b1 s))
                        end) as ->.
  { unfold pair_step, r_bind. fold g push. rewrite E1. destruct (mjoin _); [done|]. by rewrite E2. }
  destruct (bm_peek pid (fget F s)) as [l|]; cbn in K1 |- *.
  - unfold g, take_partner in *. change (id l) with l. destruct (take l) as [[u r]|]; [by exists b1|by exists b1, b2].
  - destruct (take []) as [[u r]|] eqn:E; [by apply take_shorter in E|]. by exists b1, b2.
Qed.
End PairStep.

(** The file opens [record_create] looks at. *)
Definition creates_file (e : FileOpenEvent) : bool :=
  negb (Z.land (file_open_flags e) O_CREAT =? 0) && has_write_intent (file_open_flags e)
  && is_unix_user (meta_user (file_open_meta e)).

(** [u], a deletion, pairs with the creation [c]; [v], a creation, with the
    deletion [d]. *)
Definition deletion_of (c : FileOpenEvent) (u : Z * string) : bool :=
  pairs_create_and_unlink (meta_timestamp_ns (file_open_meta c)) (file_open_path c) u.1 u.2.
Definition creation_for (d : FileDeleteEvent) (v : Z * string) : bool :=
  pairs_create_and_unlink v.1 v.2 (meta_timestamp_ns (file_delete_meta d)) (file_delete_path d).

Lemma record_create_pair c :
  creates_file c = true ->
  record_create c = pair_step L_pending_unlinks L_recent_creates (take_first (deletion_of c)) (meta_pid (file_open_meta c))
    (meta_timestamp_ns (file_open_meta c), file_open_path c)
    (fun u => count_create_unlink_pair (file_open_meta c) u.1 u.2 (file_open_path c)).
Proof.
  intros Hc. apply andb_true_iff in Hc as [Hc Hu]. apply andb_true_iff in Hc as [Hc1 Hc2]. apply negb_true_iff in Hc1.
  unfold record_create. rewrite Hc1, Hc2, Hu. cbn [negb orb]. unfold pair_step, deletion_of, r_bind.
  apply functional_extensionality. intros s. destruct (r_get_mut _ _ _ s) as [[o s']|]; [|done].
  by destruct (mjoin o) as [[]|].
Qed.

Lemma write_new_then_unlink_pair d :
  is_unix_user (meta_user (file_delete_meta d)) = true ->
  check_write_new_then_unlink d =
  pair_step L_recent_creates L_pending_unlinks (take_last (creation_for d)) (meta_pid (file_delete_meta d))
    (meta_timestamp_ns (file_delete_meta d), file_delete_path d)
    (fun v => count_create_unlink_pair (file_delete_meta d) (meta_timestamp_ns (file_delete_meta d))
                (file_delete_path d) v.2).
Proof.
  intros Hu. unfold check_write_new_then_unlink. rewrite Hu. cbn [negb]. unfold pair_step, creation_for, r_bind.
  apply functional_extensionality. intros s. destruct (r_get_mut _ _ _ s) as [[o s']|]; [|done].
  by destruct (mjoin o) as [[]|].
Qed.

(** Write-new-then-unlink is counted in either order.  For the creation of a
    file and the deletion of its original by the same process: when the creation
    is seen first it is remembered, and the deletion counts that very pair and
    takes the creation out of the history; when the deletion is seen first it is
    remembered, and the creation counts a pair with a remembered deletion. *)
Theorem create_unlink_either_order s c d :
  let pid := meta_pid (file_open_meta c) in
  let dts := meta_timestamp_ns (file_delete_meta d) in
  rs_ok 4 s -> creates_file c = true -> is_unix_user (meta_user (file_delete_meta d)) = true ->
  meta_pid (file_delete_meta d) = pid -> deletion_of c (dts, file_delete_path d) = true ->
  (take_first (deletion_of c) (default [] (bm_peek pid (pending_unlinks s))) = None ->
   exists s1 s2 h, record_create c s = Some (None, s1) /\
     check_write_new_then_unlink d s1 =
       count_create_unlink_pair (file_delete_meta d) dts (file_delete_path d) (file_open_path c) s2 /\
     bm_peek pid (recent_creates s2) = Some h /\ h `suffix_of` default [] (bm_peek pid (recent_creates s))) /\
  (take_last (creation_for d) (default [] (bm_peek pid (recent_creates s))) = None ->
   exists s1 s2 u, check_write_new_then_unlink d s = Some (None, s1) /\
     record_create c s1 = count_create_unlink_pair (file_open_meta c) u.1 u.2 (file_open_path c) s2 /\
     deletion_of c u = true).
Proof.
  intros pid dts Hok Hc Hu Hpid Hpair.
  rewrite record_create_pair, write_new_then_unlink_pair by done. rewrite Hpid. fold pid dts.
  set (k1 := fun u : Z * string => count_create_unlink_pair (file_open_meta c) u.1 u.2 (file_open_path c)).
  set (k2 := fun v : Z * string => count_create_unlink_pair (file_delete_meta d) dts (file_delete_path d) v.2).
  set (xc := (meta_timestamp_ns (file_open_meta c), file_open_path c)). set (xd := (dts, file_delete_path d)).
  pose proof (fun s n => pair_step_spec L_pending_unlinks L_recent_creates _ (take_first_length (deletion_of c)) pid xc k1 s n) as SC.
  pose proof (fun s n => pair_step_spec L_recent_creates L_pending_unlinks _ (take_last_length (creation_for d)) pid xd k2 s n) as SD.
  split; intros Hnone.
  - specialize (SC s 2 ltac:(lia) Hok). cbn [fget L_pending_unlinks] in SC. rewrite Hnone in SC.
    destruct SC as (b1 & b2 & E1 & Hok1 & K1). specialize (SD _ 0 ltac:(lia) Hok1).
    cbn [fget fset L_recent_creates L_pending_unlinks recent_creates] in SD, K1. rewrite K1 in SD.
    destruct (push_history_last CREATE_UNLINK_HISTORY_PER_PID xc (default [] (bm_peek pid (recent_creates s)))) as (h & Eh & Et).
    cbn [default from_option id] in SD. rewrite Eh, take_last_snoc in SD by done. destruct SD as (b3 & E2 & K2).
    eexists _, _, h. split; [exact E1|]. split; [exact E2|]. split; [exact K2|]. rewrite Et.
    destruct (_ <=? _)%nat; [|done]. destruct (default [] _) as [|y l]; [done|]. by exists [y].
  - specialize (SD s 2 ltac:(lia) Hok). cbn [fget L_recent_creates] in SD. rewrite Hnone in SD.
    destruct SD as (b1 & b2 & E1 & Hok1 & K1). specialize (SC _ 0 ltac:(lia) Hok1).
    cbn [fget fset L_recent_creates L_pending_unlinks pending_unlinks] in SC, K1. rewrite K1 in SC.
    destruct (push_history_last CREATE_UNLINK_HISTORY_PER_PID xd (default [] (bm_peek pid (pending_unlinks s)))) as (h & Eh & _).
    destruct (take_first_snoc (deletion_of c) h xd Hpair) as (u & r & Hu1 & Hu3 & _).
    cbn [default from_option id] in SC. rewrite Eh, Hu1 in SC. destruct SC as (b3 & E2 & K2).
    eexists _, _, u. split; [exact E1|]. split; [exact E2|done].
Qed.

(** A listener is reported once: the alert for an address and port comes if
    and only if they are not known yet, and never again afterwards. *)
Theorem listener_reported_once show_ip s e1 e2 :
  let key := (listen_port_local_addr e1, listen_port_local_port e1) in
  rs_ok 4 s -> (listen_port_local_addr e2, listen_port_local_port e2) = key ->
  exists al s1 s2, on_listen_port show_ip e1 s = Some (al, s1) /\
    (al = [] <-> bm_peek key (known_listeners s) <> None) /\ on_listen_port show_ip e2 s1 = Some ([], s2).
Proof.
  intros key Hok Hkey.
  assert (forall e n s, 0 <= n -> rs_ok (n + 2) s ->
    (listen_port_local_addr e, listen_port_local_port e) = key ->
    exists al s', on_listen_port show_ip e s = Some (al, s') /\ rs_ok n s' /\
      (al = [] <-> bm_peek key (known_listeners s) <> None) /\ bm_peek key (known_listeners s') <> None) as Hstep.
  { clear. intros e n s Hn Hok Hkey. destruct (runs_on_listen_port show_ip e n s Hn Hok) as (al & s' & Hr & Hok').
    exists al, s'. split; [done|]. split; [done|]. revert Hr.
    unfold on_listen_port, check_listen_port_drift, r_bind, r_get, r_ret. cbn zeta. rewrite Hkey.
    destruct (field_get (F := L_known_listeners) (c := COUNTER_CAP) _ _ Hok) as (H1 & H2 & H3 & _).
    cbn [fget L_known_listeners] in *.
    destruct (bm_get_client (known_listeners s) key H1) as (K0 & K1 & K2 & K3 & K4 & K5); [lia|].
    destruct (bm_get key (known_listeners s)) as [o b]. cbn [fst snd] in *. subst o.
    destruct (bm_peek key (known_listeners s)) as [[]|] eqn:E.
    - intros [= <- <-]. cbn [known_listeners fset fget L_known_listeners option_list]. rewrite K2, E. naive_solver.
    - unfold r_insert, r_modify. intros [= <- <-]. cbn [known_listeners fset fget L_known_listeners option_list].
      destruct (bm_insert_client b key tt K1) as (_ & -> & _); [lia|]. naive_solver. }
  destruct (Hstep e1 2 s ltac:(lia) Hok eq_refl) as (al & s1 & H1 & H2 & H3 & H4).
  destruct (Hstep e2 0 s1 ltac:(lia) H2 Hkey) as (al2 & s2 & H5 & _ & H6 & _).
  exists al, s1, s2. split; [done|]. split; [done|]. rewrite H5. by rewrite (proj2 H6).
Qed.

(** A downloaded file is reported at its first execution within ten minutes
    of the quarantine mark, and not again. *)
Theorem quarantined_exec_once lower show_secs s q x1 x2 :
  rs_ok 3 s -> lower (exec_image_path x1) = lower (file_quarantine_path q) ->
  lower (exec_image_path x2) = lower (file_quarantine_path q) ->
  meta_timestamp_ns (exec_meta x1) -sat meta_timestamp_ns (file_quarantine_meta q) <= QUARANTINE_EXEC_WINDOW_NS ->
  exists s1 a s2 s3, on_file_quarantine lower q s = Some (tt, s1) /\
    check_quarantined_exec lower show_secs x1 s1 = Some (Some a, s2) /\ al_technique a = "T1204.002" /\
    check_quarantined_exec lower show_secs x2 s2 = Some (None, s3).
Proof.
  intros Hok H1 H2 Hw. set (key := lower (file_quarantine_path q)) in *.
  set (mark := mkRecentQuarantine (meta_timestamp_ns (file_quarantine_meta q)) (file_quarantine_agent q)
                 (file_quarantine_origin_url q) false).
  destruct (r_insert_spec L_recent_quarantines RECENT_WRITES_CAP key mark 2 s I) as (b & E1 & Hok1 & K1); [lia|done|].
  destruct (r_get_mut_spec L_recent_quarantines RECENT_WRITES_CAP key (quarantine_hit show_secs x1) 1 _
    (fun _ _ => I) ltac:(lia) Hok1) as (b2 & E2 & Hok2 & K2).
  destruct (r_get_mut_spec L_recent_quarantines RECENT_WRITES_CAP key (quarantine_hit show_secs x2) 0 _
    (fun _ _ => I) ltac:(lia) Hok2) as (b3 & E3 & _).
  cbn [fget fset L_recent_quarantines recent_quarantines] in K2. rewrite K1 in K2. cbn [fmap option_fmap option_map] in K2.
  assert (exists a, quarantine_hit show_secs x1 mark = (Some a, mkRecentQuarantine (rq_timestamp_ns mark) (rq_agent mark)
    (rq_origin_url mark) true) /\ al_technique a = "T1204.002") as (a & Ha & Ht).
  { unfold quarantine_hit. cbn [mark rq_alerted rq_timestamp_ns orb].
    destruct (Z.ltb_spec QUARANTINE_EXEC_WINDOW_NS
      (meta_timestamp_ns (exec_meta x1) -sat meta_timestamp_ns (file_quarantine_meta q))); [lia|]. by eexists. }
  rewrite Ha in K2. eexists _, a, _, _.
  unfold on_file_quarantine, check_quarantined_exec, r_bind, r_ret. fold key mark. rewrite H1, H2.
  split; [exact E1|]. rewrite E2. change (fget L_recent_quarantines (fset L_recent_quarantines b s)) with b.
  rewrite K1. cbn [fmap option_fmap option_map mjoin option_join]. rewrite Ha. split; [done|]. split; [done|].
  rewrite E3. change (fget L_recent_quarantines (fset L_recent_quarantines b2 _)) with b2. rewrite K2. done.
Qed.

(** ** Witnesses *)

Lemma fresh_rules_room n : n <= U64_MAX -> rs_ok n fresh_rules.
Proof. intros Hn. apply (rs_ok_weaken U64_MAX); [done|apply fresh_rules_ok]. Qed.

Definition demo_meta (pid : Z) (comm : string) (ts : Z) : EventMeta :=
  mkEventMeta pid 1 (User_Unix 0 0) ts comm None None None.
Definition demo_failure (ts : Z) : AuthEvent :=
  mkAuthEvent (demo_meta 1 "sshd" ts) AuthOutcome_Failure AuthKind_LogonFailure "root" None None None.
Definition no_ip (_ : IpAddr) : string := "".

Lemma rules_total_and_bounded_witness :
  exists s alerts s', RuleState_new = Some s /\
    rules_run no_ip id (fun _ => "") (fun _ => None) (Event_Auth <$> [demo_failure 1; demo_failure 2]) s
      = Some (alerts, s') /\ rs_ok 0 s'.
Proof. apply rules_total_and_bounded. vm_compute. discriminate. Defined.

Lemma brute_force_exact_witness :
  exists s0 al0 s al s', RuleState_new = Some s0 /\
    auth_run no_ip [demo_failure 1; demo_failure 2; demo_failure 3; demo_failure 4] s0 = Some (al0, s) /\
    on_auth no_ip (demo_failure 5) s = Some (al, s') /\ al <> [].
Proof.
  destruct (brute_force_exact no_ip [demo_failure 1; demo_failure 2; demo_failure 3; demo_failure 4] (demo_failure 5))
    as (s0 & al0 & s & al & s' & H1 & H2 & H3 & H4);
    [vm_compute; reflexivity|repeat constructor; vm_compute; discriminate|].
  exists s0, al0, s, al, s'. split; [exact H1|]. split; [exact H2|]. split; [exact H3|].
  apply H4. split; [reflexivity|]. split; [vm_compute; discriminate|reflexivity].
Defined.

Definition demo_memfd : MemfdCreateEvent := mkMemfdCreateEvent (demo_meta 7 "loader" 10) "" 0 3.
Definition demo_fd_exec : ExecEvent :=
  mkExecEvent (demo_meta 7 "loader" 20) "/proc/self/fd/3" "x" [] None None None None [].

Lemma memfd_either_order_witness :
  exists al s1, on_memfd_create demo_memfd fresh_rules = Some (al, s1) /\
    check_memfd_exec demo_fd_exec s1 = Some (Some (memfd_proc_fd_exec_alert 7 "loader" "/proc/self/fd/3" 3), s1).
Proof.
  destruct (memfd_either_order fresh_rules demo_fd_exec demo_memfd 3) as [H _];
    [apply fresh_rules_room; unfold U64_MAX; lia|reflexivity|reflexivity|reflexivity|reflexivity|reflexivity|].
  exact H.
Defined.

Definition demo_create : FileOpenEvent := mkFileOpenEvent (demo_meta 7 "enc" 10) "/home/a.txt.locked" 65.
Definition demo_delete : FileDeleteEvent := mkFileDeleteEvent (demo_meta 7 "enc" 20) "/home/a.txt".

Lemma create_unlink_either_order_witness :
  exists s1 s2 h, record_create demo_create fresh_rules = Some (None, s1) /\
     check_write_new_then_unlink demo_delete s1 =
       count_create_unlink_pair (demo_meta 7 "enc" 20) 20 "/home/a.txt" "/home/a.txt.locked" s2 /\
     bm_peek 7 (recent_creates s2) = Some h /\ h `suffix_of` [].
Proof.
  destruct (create_unlink_either_order fresh_rules demo_create demo_delete) as [H _];
    [apply fresh_rules_room; unfold U64_MAX; lia|reflexivity|reflexivity|reflexivity|reflexivity|].
  apply H. reflexivity.
Defined.

Definition demo_listen : ListenPortEvent := mkListenPortEvent (demo_meta 7 "nc" 10) (V4 0) 4444.

Lemma listener_reported_once_witness :
  exists al s1 s2, on_listen_port no_ip demo_listen fresh_rules = Some (al, s1) /\
    (al = [] <-> bm_peek (V4 0, 4444) (known_listeners fresh_rules) <> None) /\
    on_listen_port no_ip demo_listen s1 = Some ([], s2).
Proof.
  apply (listener_reported_once no_ip fresh_rules demo_listen demo_listen);
    [apply fresh_rules_room; unfold U64_MAX; lia|reflexivity].
Defined.

Definition demo_mark : FileQuarantineEvent := mkFileQuarantineEvent (demo_meta 7 "curl" 10) "/tmp/x" None None None.
Definition demo_run : ExecEvent := mkExecEvent (demo_meta 8 "x" 20) "/tmp/x" "x" [] None None None None [].

Lemma quarantined_exec_once_witness :
  exists s1 a s2 s3, on_file_quarantine id demo_mark fresh_rules = Some (tt, s1) /\
    check_quarantined_exec id (fun _ => "") demo_run s1 = Some (Some a, s2) /\ al_technique a = "T1204.002" /\
    check_quarantined_exec id (fun _ => "") demo_run s2 = Some (None, s3).
Proof.
  apply (quarantined_exec_once id (fun _ => "") fresh_rules demo_mark demo_run demo_run);
    [apply fresh_rules_room; unfold U64_MAX; lia|reflexivity|reflexivity|vm_compute; discriminate].
Defined.
