(* ===== verification/Correlator.v ===== *)
(** * Correlator: the event bus, behaviour vectors and Bayesian beliefs
    (src/crates/correlator/src/bus.rs, event.rs, behavior.rs, bayes.rs)

    Floating point is IEEE binary32 ([Float]); [f32::exp] is an argument, since
    its last bit is the platform's. *)
From stdpp Require Import base gmap strings list.
From Stdlib Require Import ZArith Lia.
From S2P Require Import Prelude Str Float Schema.

(** ** event.rs *)

Definition is_file_write (event : Event) : bool :=
  match event with Event_FileOpen f => has_write_intent (file_open_flags f) | _ => false end.

Definition is_correlated (event : Event) : bool :=
  match event with
  | Event_Exec _ | Event_Connect _ | Event_FileOpen _ | Event_DnsQuery _ | Event_AssemblyLoad _
  | Event_SmbConnect _ | Event_UdpSend _ | Event_NetworkFlow _ | Event_HttpRequest _ => true
  | _ => false
  end.

(** ** bus.rs *)

Definition same_generation (recorded wanted : option Z) : bool :=
  match recorded, wanted with Some a, Some b => a =? b | _, _ => true end.

Record EventBus := mkBus { bus_events : list Event; bus_window : Z; bus_max_seen_ns : Z }.

(** [window] in nanoseconds. *)
Definition bus_new (window : Z) : EventBus := mkBus [] window 0.

Definition ev_ts (e : Event) : Z := meta_timestamp_ns (Event_meta e).

Definition evict (b : EventBus) : EventBus :=
  let mx := match last (bus_events b) with
            | Some latest => Z.max (bus_max_seen_ns b) (ev_ts latest)
            | None => bus_max_seen_ns b
            end in
  let window_ns := wrap64 (bus_window b) in
  let cutoff := mx -sat window_ns in
  mkBus (filter (fun e => cutoff <= ev_ts e) (bus_events b)) (bus_window b) mx.

Definition bus_push (event : Event) (b : EventBus) : EventBus :=
  evict (mkBus (bus_events b ++ [event]) (bus_window b) (bus_max_seen_ns b)).

Definition for_pid (pid : Z) (generation : option Z) (e : Event) : bool :=
  (meta_pid (Event_meta e) =? pid) && same_generation (meta_process_generation (Event_meta e)) generation.

Definition events_for_pid (pid : Z) (generation : option Z) (b : EventBus) : list Event :=
  List.filter (for_pid pid generation) (bus_events b).

Definition events_for_ppid_comm (ppid : Z) (parent_generation : option Z) (comm : string) (b : EventBus)
    : list Event :=
  List.filter (fun e => (meta_ppid (Event_meta e) =? ppid) && String.eqb (meta_comm (Event_meta e)) comm
                   && same_generation (meta_parent_process_generation (Event_meta e)) parent_generation)
    (bus_events b).

(** ** behavior.rs *)

Record BehaviorVector := mkBehavior {
  has_exec : f32;
  has_connect : f32;
  has_filewrite : f32;
  time_exec_to_connect_ms : f32;
  time_exec_to_filewrite_ms : f32;
  is_suspicious_path : f32;
  connect_count : f32;
  distinct_dports : f32;
  dest_is_external : f32 }.

Definition bv_to_vec (v : BehaviorVector) : list f32 :=
  [has_exec v; has_connect v; has_filewrite v; time_exec_to_connect_ms v; time_exec_to_filewrite_ms v;
   is_suspicious_path v; connect_count v; distinct_dports v; dest_is_external v].

Definition bool_feature (b : bool) : f32 := if b then f32_of_Z 1 else f32_of_Z 0.

(** The octets of an IPv4 address. *)
Definition octet (i bits : Z) : Z := Z.land (Z.shiftr bits (8 * (3 - i))) 255.

Definition is_private_ipv4 (bits : Z) : bool :=
  let o0 := octet 0 bits in let o1 := octet 1 bits in
  (bits =? 0) || (o0 =? 10) || ((o0 =? 172) && (16 <=? o1) && (o1 <=? 31)) || ((o0 =? 192) && (o1 =? 168))
  || (o0 =? 127).

Definition is_non_global_ipv6 (bits : Z) : bool :=
  let seg0 := Z.shiftr bits 112 in
  (bits =? 1) || (bits =? 0) || (Z.land seg0 0xffc0 =? 0xfe80) || (Z.land seg0 0xfe00 =? 0xfc00)
  || (Z.land seg0 0xff00 =? 0xff00).

Definition is_external (a : IpAddr) : bool :=
  match a with V4 bits => negb (is_private_ipv4 bits) | V6 bits => negb (is_non_global_ipv6 bits) end.

Definition connect_features (connects : list ConnectEvent) : f32 * bool :=
  (f32_of_Z (Z.of_nat (size (list_to_set (connect_dport <$> connects) : gset Z))),
   existsb (fun c => is_external (connect_daddr c)) connects).

Definition the_exec (e : Event) : option ExecEvent := match e with Event_Exec x => Some x | _ => None end.
Definition the_connect (e : Event) : option ConnectEvent := match e with Event_Connect c => Some c | _ => None end.

Definition delta_ms (from to : option Z) : f32 :=
  match from, to with
  | Some f, Some t => f32_div (f32_of_Z (t -sat f)) (f32_of_Z 1000000)
  | _, _ => f32_of_Z 0
  end.

Definition timing_features (events : list Event) (connects : list ConnectEvent) : f32 * f32 :=
  let first_exec_ns := (fun x => meta_timestamp_ns (exec_meta x)) <$> head (omap the_exec events) in
  let first_connect_ns := (fun c => meta_timestamp_ns (connect_meta c)) <$> head connects in
  let first_filewrite_ns := ev_ts <$> List.find is_file_write events in
  (delta_ms first_exec_ns first_connect_ns, delta_ms first_exec_ns first_filewrite_ns).

Definition is_suspicious_image_path (p : string) : bool :=
  let lower := to_ascii_lowercase p in
  existsb (fun s => str_contains s lower) ["appdata"; "\temp\"; "downloads"; "desktop"; "\public\"].

Definition suspicious_path_feature (events : list Event) : f32 :=
  match head (omap the_exec events) with
  | Some x => bool_feature (is_suspicious_image_path (exec_image_path x))
  | None => f32_of_Z 0
  end.

Definition is_exec (e : Event) : bool := match e with Event_Exec _ => true | _ => false end.

Definition from_window (events : list Event) : option BehaviorVector :=
  match events with
  | [] => None
  | _ =>
      let connects := omap the_connect events in
      let '(dports, external) := connect_features connects in
      let '(to_connect, to_filewrite) := timing_features events connects in
      Some (mkBehavior (bool_feature (existsb is_exec events))
              (bool_feature (negb (bool_decide (connects = [] :> list ConnectEvent))))
              (bool_feature (existsb is_file_write events))
              to_connect to_filewrite (suspicious_path_feature events)
              (f32_of_Z (Z.of_nat (length connects))) dports (bool_feature external))
  end.

(** ** bayes.rs *)

Definition PRIOR_LOG_ODDS : f32 := f32_lit (-46) 10.
Definition DECAY_TAU_S : f32 := f32_of_Z 300.
Definition BAYES_THRESHOLD : f32 := f32_of_Z 2.

Record BeliefState := mkBelief { log_odds : f32; last_update_ns : Z; bl_alerted : bool }.

Definition belief_new (now_ns : Z) : BeliefState := mkBelief PRIOR_LOG_ODDS now_ns false.

Definition f32_eq (a b : f32) : bool := f_le a b && f_le b a.

Definition log_likelihood_ratio (idx : nat) (value : f32) : f32 :=
  let c := f32_of_Z in
  match idx with
  | 0%nat => c 0
  | 1%nat => if f_gt value (f32_lit 1 2) then f32_lit 119 100 else f32_lit (-93) 100
  | 2%nat => c 0
  | 3%nat => if f_gt value (c 0) && f_lt value (c 2000) then f32_lit 190 100
             else if f_gt value (c 0) then f32_lit (-22) 100
             else f32_lit (-9) 100
  | 4%nat => c 0
  | 5%nat => if f_gt value (f32_lit 1 2) then f32_lit 360 100 else f32_lit (-20) 100
  | 6%nat => if f32_eq value (c 0) then f32_lit (-96) 100
             else if f_lt value (c 5) then f32_lit 41 100
             else if f_lt value (c 15) then f32_lit 222 100
             else f32_lit 87 100
  | 7%nat => if f_le value (c 1) then f32_lit 2 100
             else if f_le value (c 3) then f32_lit (-54) 100
             else c 0
  | 8%nat => if f_gt value (f32_lit 1 2) then f32_lit 123 100 else f32_lit (-44) 100
  | _ => c 0
  end.

Section Bayes.
Variable exp : f32 -> f32.

Definition f32_neg (a : f32) : f32 := Floats.SpecFloat.SFopp a.

Definition probability (s : BeliefState) : f32 :=
  let odds := exp (log_odds s) in f32_div odds (f32_add (f32_of_Z 1) odds).

Definition add_llrs (lo : f32) (v : list f32) : f32 :=
  foldl (fun lo iv => f32_add lo (log_likelihood_ratio iv.1 iv.2)) lo (zip (seq 0 (length v)) v).

Definition update_belief (v : BehaviorVector) (ml_llr : option f32) (now_ns : Z) (s : BeliefState) : BeliefState :=
  let dt_s := f32_div (f32_of_Z (now_ns -sat last_update_ns s)) (f32_of_Z 1000000000) in
  let decay := f32_sub (f32_of_Z 1) (exp (f32_div (f32_neg dt_s) DECAY_TAU_S)) in
  let lo := f32_add (log_odds s) (f32_mul (f32_sub PRIOR_LOG_ODDS (log_odds s)) decay) in
  let lo := add_llrs lo (bv_to_vec v) in
  let lo := match ml_llr with Some llr => f32_add lo llr | None => lo end in
  mkBelief lo now_ns (bl_alerted s).
End Bayes.

Definition apply_ml_llr (llr : f32) (s : BeliefState) : BeliefState :=
  mkBelief (f32_add (log_odds s) llr) (last_update_ns s) (bl_alerted s).

(** ** Lemmas *)

(** The events pushed and the latest timestamp among them. *)
Definition bus_pushes (es : list Event) (b : EventBus) : EventBus := foldl (fun b e => bus_push e b) b es.
Definition max_ts (es : list Event) : Z := foldr (fun e m => Z.max (ev_ts e) m) 0 es.

Lemma max_ts_snoc es e : max_ts (es ++ [e]) = Z.max (max_ts es) (ev_ts e).
Proof. unfold max_ts. induction es as [|x es IH]; simpl; [lia|]. rewrite IH. lia. Qed.

Lemma bus_push_live w mx live e :
  0 <= w <= U64_MAX ->
  bus_push e (mkBus live w mx) =
  let mx := Z.max mx (ev_ts e) in
  mkBus (filter (fun x => mx -sat w <= ev_ts x) (live ++ [e])) w mx.
Proof.
  intros Hw. unfold bus_push, evict. cbn [bus_events bus_window bus_max_seen_ns].
  rewrite last_snoc, wrap64_small by done. done.
Qed.

(** ** Theorems *)

(** C16. The bus is the window: after any sequence of pushes it holds, in
    arrival order, exactly the events within the window before the latest
    timestamp seen, however out of order they came; an event is dropped for
    good once a later one pushes it out. *)
Theorem bus_exact window es :
  0 <= window <= U64_MAX -> Forall (fun e => 0 <= ev_ts e) es ->
  let b := bus_pushes es (bus_new window) in
  bus_events b = filter (fun e => max_ts es - window <= ev_ts e) es /\ bus_max_seen_ns b = max_ts es /\
  (forall pid generation e, e ∈ events_for_pid pid generation b <->
     e ∈ es /\ max_ts es - window <= ev_ts e /\ meta_pid (Event_meta e) = pid /\
     same_generation (meta_process_generation (Event_meta e)) generation = true).
Proof.
  intros Hw Hts b.
  assert (b = mkBus (filter (fun e => max_ts es - window <= ev_ts e) es) window (max_ts es)) as Hb.
  { unfold b. clear b. induction es as [|e es IH] using rev_ind; [done|].
    apply Forall_app in Hts as [Hts He]. apply Forall_cons in He as [He _].
    unfold bus_pushes in *. rewrite foldl_app, (IH Hts). cbn [foldl]. rewrite bus_push_live, max_ts_snoc by done.
    cbn zeta. f_equal. rewrite !filter_app, list_filter_filter. f_equal.
    - apply filter_elem_iff. intros x Hx. unfold sat_sub. rewrite Forall_forall in Hts.
      specialize (Hts x Hx). simpl in Hts. lia.
    - apply filter_elem_iff. intros x Hx. apply list_elem_of_singleton in Hx as ->. unfold sat_sub. lia. }
  rewrite Hb. cbn [bus_events bus_max_seen_ns]. split_and!; [done..|].
  intros pid generation e. unfold events_for_pid. cbn [bus_events].
  rewrite elem_of_bool_filter, list_elem_of_filter. unfold for_pid. rewrite andb_true_iff, Z.eqb_eq. tauto.
Qed.

Definition demo_meta (pid ppid : Z) (comm : string) (ts : Z) : EventMeta :=
  mkEventMeta pid ppid User_Unknown ts comm None (Some 1) None.
Definition demo_exec (pid : Z) (comm img : string) (ts : Z) : Event :=
  Event_Exec (mkExecEvent (demo_meta pid 1 comm ts) img img [] None None None None []).
Definition demo_connect (pid : Z) (comm : string) (ts : Z) : Event :=
  Event_Connect (mkConnectEvent (demo_meta pid 1 comm ts) (V4 134744072) 443).

Lemma bus_exact_witness :
  let es := [demo_exec 7 "a" "/tmp/a" 10; demo_connect 7 "a" 100; demo_connect 7 "a" 60] in
  bus_events (bus_pushes es (bus_new 60)) = [demo_connect 7 "a" 100; demo_connect 7 "a" 60].
Proof.
  intros es. destruct (bus_exact 60 es) as (H & _ & _);
    [unfold U64_MAX; lia|repeat constructor; vm_compute; discriminate|].
  rewrite H. reflexivity.
Defined.
