(* ===== verification/CorrelatorRules.v ===== *)
(** * CorrelatorRules: the co-occurrence rules (src/crates/correlator/src/rules.rs)

    Each rule looks at the bus and may produce an alert.  Arguments: [log2], the
    platform's [f64::log2], and [show_ip], the display of an address.  The
    entropy sum runs over the letter counts in one fixed order; a hash map's own
    order can differ in the sum's last bit. *)
From stdpp Require Import base gmap strings list.
From Stdlib Require Import ZArith Lia Ascii.
From Stdlib Require String.
From S2P Require Import Prelude Str Text Float Schema Policy Correlator.

Record CorrelationAlert := mkAlert { ca_technique : string; ca_severity : Severity; ca_message : string }.

Definition is_network_connect (e : Event) : bool :=
  match e with
  | Event_Connect c => negb (is_address_selection_probe (is_unspecified (connect_daddr c)) (connect_dport c))
  | _ => false
  end.

Definition rule_spawn_connect (pid : Z) (generation : option Z) (bus : EventBus) : option CorrelationAlert :=
  let events := events_for_pid pid generation bus in
  if existsb is_exec events && existsb is_network_connect events
  then Some (mkAlert "T1059/T1071" Medium
               (cat ["pid="; show_u64 pid; ": spawn + network connection in the same time window"]))
  else None.

Definition PAYLOAD_EXTENSIONS : list string :=
  [".exe"; ".dll"; ".bat"; ".ps1"; ".vbs"; ".hta"; ".cmd"; ".scr"; ".msi"; ".jar"; ".js"; ".jse"].

(** [to_lowercase] maps no other letter onto the letters of these patterns. *)
Definition is_payload_file (p : string) : bool :=
  let p := to_ascii_lowercase p in
  existsb (fun x => ends_with x p) PAYLOAD_EXTENSIONS
  || existsb (fun x => str_contains x p) ["\temp\"; "\tmp\"; "\downloads\"; "\startup\"]
  || existsb (fun x => starts_with x p) ["/tmp/"; "/var/tmp/"; "/dev/shm/"]
  || str_contains "/downloads/" p.

Definition writes_payload_file (e : Event) : bool :=
  match e with Event_FileOpen f => is_file_write e && is_payload_file (file_open_path f) | _ => false end.

Definition rule_connect_filewrite (pid : Z) (generation : option Z) (bus : EventBus) : option CorrelationAlert :=
  let events := events_for_pid pid generation bus in
  if existsb is_network_connect events && existsb writes_payload_file events
  then Some (mkAlert "T1105" Medium
               (cat ["pid="; show_u64 pid;
                     ": network connection + file write in the same window — suspected staging"]))
  else None.

Definition rule_spawn_connect_filewrite (pid : Z) (generation : option Z) (bus : EventBus)
    : option CorrelationAlert :=
  let events := events_for_pid pid generation bus in
  if existsb is_exec events && existsb is_network_connect events && existsb writes_payload_file events
  then Some (mkAlert "T1105/T1059/T1071" High
               (cat ["pid="; show_u64 pid;
                     ": spawn + network connection + file write — complete dropper chain"]))
  else None.

Definition RESPAWN_THRESHOLD : Z := 3.

Definition rule_respawn_connect (pid : Z) (generation : option Z) (bus : EventBus) : option CorrelationAlert :=
  match last (events_for_pid pid generation bus) with
  | None => None
  | Some e =>
      let ppid := meta_ppid (Event_meta e) in
      let comm := meta_comm (Event_meta e) in
      let events := events_for_ppid_comm ppid (meta_parent_process_generation (Event_meta e)) comm bus in
      let spawn_count := Z.of_nat (length (List.filter is_exec events)) in
      if (RESPAWN_THRESHOLD <=? spawn_count) && existsb is_network_connect events
      then Some (mkAlert "T1059/T1071" Medium
                   (cat ["ppid="; show_u64 ppid; " comm="; comm; ": "; show_u64 spawn_count;
                         " spawns + network connection — automatic respawn with suspected beaconing"]))
      else None
  end.

Definition is_assembly (e : Event) : bool := match e with Event_AssemblyLoad _ => true | _ => false end.
Definition is_smb (e : Event) : bool := match e with Event_SmbConnect _ => true | _ => false end.
Definition the_assembly (e : Event) : option string :=
  match e with Event_AssemblyLoad a => Some (assembly_load_assembly_name a) | _ => None end.
Definition the_server (e : Event) : option string :=
  match e with Event_SmbConnect s => Some (smb_connect_server_name s) | _ => None end.

(** [find_map(..).map(|n| format!(..)).unwrap_or_default()]. *)
Definition optional_note (pre post : string) (o : option string) : string :=
  match o with Some n => cat [pre; n; post] | None => EmptyString end.

Definition rule_assembly_connect (pid : Z) (generation : option Z) (bus : EventBus) : option CorrelationAlert :=
  let events := events_for_pid pid generation bus in
  if existsb is_assembly events && existsb is_network_connect events
  then Some (mkAlert "T1055/T1620" High
               (cat ["pid="; show_u64 pid;
                     ": in-memory .NET assembly + network connection — suspected execute-assembly C2";
                     optional_note " (assembly: " ")" (head (omap the_assembly events))]))
  else None.

Definition rule_exec_smb (pid : Z) (generation : option Z) (bus : EventBus) : option CorrelationAlert :=
  let events := events_for_pid pid generation bus in
  if existsb is_exec events && existsb is_smb events
  then Some (mkAlert "T1021.002" Medium
               (cat ["pid="; show_u64 pid;
                     ": process spawn + SMB connection — suspected lateral movement";
                     optional_note " (server: " ")" (head (omap the_server events))]))
  else None.

Definition rule_assembly_smb (pid : Z) (generation : option Z) (bus : EventBus) : option CorrelationAlert :=
  let events := events_for_pid pid generation bus in
  if existsb is_assembly events && existsb is_smb events
  then Some (mkAlert "T1021.002/T1055" High
               (cat ["pid="; show_u64 pid;
                     ": in-memory .NET assembly + SMB connection — suspected fileless lateral movement";
                     optional_note " (assembly: " ")" (head (omap the_assembly events));
                     optional_note " → " "" (head (omap the_server events))]))
  else None.

(** ** DNS tunnelling *)

Definition DNS_TUNNEL_MIN_QUERIES : Z := 10.
Definition DNS_TUNNEL_LABEL_MIN_LEN : Z := 30.
Definition DNS_TUNNEL_LABEL_MIN_ENTROPY : f64 := f64_lit 35 10.

Definition char_counts (s : string) : gmap string Z :=
  foldl (fun m c => <[c := default 0 (m !! c) + 1]> m) ∅ (str_chars s).

(** [trim_end_matches('.')]. *)
Fixpoint trim_end_dots (s : string) : string :=
  match s with
  | EmptyString => EmptyString
  | String a r =>
      match trim_end_dots r with
      | EmptyString => if Ascii.eqb a "."%char then EmptyString else String a EmptyString
      | r => String a r
      end
  end.

Definition split_leftmost_label (query : string) : option (string * string) :=
  let labels := List.filter (fun l => negb (String.eqb l EmptyString)) (str_split "."%char (trim_end_dots query)) in
  match labels with
  | leftmost :: _ :: _ :: _ =>
      match rev labels with
      | b :: a :: _ => Some (leftmost, cat [a; "."; b])
      | _ => None
      end
  | _ => None
  end.

Section DnsRules.
Variable log2 : f64 -> f64.

Definition shannon_entropy (s : string) : f64 :=
  if String.eqb s EmptyString then f64_of_Z 0
  else
    let len := f64_of_Z (Z.of_nat (length (str_chars s))) in
    foldl (fun acc n => let p := f64_div (f64_of_Z n) len in
                        f64_add acc (f64_mul (Floats.SpecFloat.SFopp p) (log2 p)))
      (f64_of_Z 0) (map_to_list (char_counts s)).*2.

Definition is_tunnel_like_label (label : string) : bool :=
  (DNS_TUNNEL_LABEL_MIN_LEN <? str_len label)
  && f_gt (shannon_entropy (to_ascii_lowercase label)) DNS_TUNNEL_LABEL_MIN_ENTROPY.

(** One query's contribution to the per-parent label sets. *)
Definition note_query (acc : gmap string (gset string)) (e : Event) : gmap string (gset string) :=
  match e with
  | Event_DnsQuery dns =>
      match split_leftmost_label (dns_query_query dns) with
      | Some (label, parent) =>
          if is_tunnel_like_label label
          then <[parent := {[ to_ascii_lowercase label ]} ∪ default ∅ (acc !! parent)]> acc
          else acc
      | None => acc
      end
  | _ => acc
  end.

(** [into_iter().max_by_key(..)]: the last maximum in iteration order. *)
Fixpoint max_by_size (l : list (string * gset string)) : option (string * gset string) :=
  match l with
  | [] => None
  | x :: l => match max_by_size l with
              | Some y => if bool_decide (size (x.2) <= size (y.2))%nat then Some y else Some x
              | None => Some x
              end
  end.

Definition rule_dns_exfil (pid : Z) (generation : option Z) (bus : EventBus) : option CorrelationAlert :=
  let events := events_for_pid pid generation bus in
  match last events with
  | None => None
  | Some e =>
      let per_parent := foldl note_query ∅ events in
      match max_by_size (map_to_list per_parent) with
      | None => None
      | Some (parent, labels) =>
          let count := Z.of_nat (size labels) in
          if DNS_TUNNEL_MIN_QUERIES <=? count
          then Some (mkAlert "T1048.003/T1071.004" Medium
                       (cat ["pid="; show_u64 pid; " comm="; meta_comm (Event_meta e); ": "; show_u64 count;
                             " distinct high-entropy subdomains of "; parent;
                             " within the window — suspected DNS tunnelling / exfiltration"]))
          else None
      end
  end.
End DnsRules.

(** ** Web shells *)

Definition WEB_SERVER_COMMS : list string := ["nginx"; "apache2"; "httpd"; "lighttpd"; "php-cgi"].
Definition WEB_SERVER_COMM_PREFIXES : list string := ["php-fpm"].
Definition SHELL_NAMES : list string := ["sh"; "bash"; "dash"; "zsh"; "ash"].

Definition is_web_server_shell (exec : ExecEvent) : bool :=
  match exec_parent_comm exec with
  | None => false
  | Some parent =>
      let parent_is_web := existsb (String.eqb parent) WEB_SERVER_COMMS
                           || existsb (fun p => starts_with p parent) WEB_SERVER_COMM_PREFIXES in
      let name := default (exec_image_path exec) (last (str_split "/"%char (exec_image_path exec))) in
      parent_is_web && existsb (String.eqb name) SHELL_NAMES
  end.

Record WebShellCase := mkCase {
  ws_pid : Z; ws_generation : option Z; ws_timestamp_ns : Z; ws_alert : CorrelationAlert }.

Definition the_request (e : Event) : option HttpRequestEvent :=
  match e with Event_HttpRequest r => Some r | _ => None end.

Definition request_ts (r : HttpRequestEvent) : Z := meta_timestamp_ns (http_request_meta r).

(** [min_by_key]: the first minimum. *)
Fixpoint nearest_request (ts : Z) (rs : list HttpRequestEvent) : option HttpRequestEvent :=
  match rs with
  | [] => None
  | r :: rs => match nearest_request ts rs with
               | Some r' => if abs_diff (request_ts r') ts <? abs_diff (request_ts r) ts then Some r' else Some r
               | None => Some r
               end
  end.

(** The [Debug] text of the signature enum. *)
Definition show_signature (s : HttpSignature) : string :=
  match s with
  | HttpSignature_PathTraversal => "PathTraversal"
  | HttpSignature_SqlInjection => "SqlInjection"
  | HttpSignature_ScannerUserAgent => "ScannerUserAgent"
  | HttpSignature_WebshellLike => "WebshellLike"
  end.

Section WebRules.
Variable show_ip : IpAddr -> string.

Definition web_shell_case (requests : list HttpRequestEvent) (e : Event) : option WebShellCase :=
  match e with
  | Event_Exec exec =>
      if is_web_server_shell exec then
        let meta := Event_meta e in
        request ← nearest_request (meta_timestamp_ns meta) requests;
        let delta_s := abs_diff (request_ts request) (meta_timestamp_ns meta) / 1000000000 in
        let client := match http_request_client request with Some c => show_ip c | None => "unknown" end in
        let param := match http_request_evidence request with
                     | Some ev => cat [" param="; http_evidence_param ev] | None => EmptyString end in
        Some (mkCase (meta_pid meta) (meta_process_generation meta) (meta_timestamp_ns meta)
          (mkAlert "T1505.003" High
             (cat ["pid="; show_u64 (meta_pid meta); " comm="; meta_comm meta; " parent=";
                   default "?" (exec_parent_comm exec); ": shell spawned by a web server "; show_u64 delta_s;
                   "s from a "; show_signature (http_request_signature request); " request (";
                   default "?" (http_request_method request); " "; http_request_path request; param; ", status ";
                   show_u64 (http_request_status request); ", client "; client;
                   ") — suspected web shell or exploited web application"])))
      else None
  | _ => None
  end.

Definition rule_web_request_shell (bus : EventBus) : list WebShellCase :=
  let requests := omap the_request (bus_events bus) in
  if bool_decide (length requests = 0%nat) then [] else omap (web_shell_case requests) (bus_events bus).
End WebRules.
