(* ===== verification/CorrelatorEngine.v ===== *)
(** * CorrelatorEngine: the correlation engine (src/crates/correlator/src/engine.rs)

    The engine's state is the bus and four bounded maps; [on_event] records an
    event, updates the entity's belief and evaluates the rules.  Arguments:
    [exp] and [log2] of the platform, the display of an address and of a belief
    (the [{:.2}] and [{:.0}] of the alert text). *)
From stdpp Require Import base gmap strings list.
From Stdlib Require Import ZArith Lia Ascii.
From S2P Require Import Prelude Bounded Str Text Float Schema Policy Correlator CorrelatorRules.

Definition IGNORED : list string :=
  ["svchost.exe"; "SearchProtocolHost.exe"; "MsMpEng.exe"; "WmiPrvSE.exe"; "taskhostw.exe";
   "backgroundTaskHost.exe"; "RuntimeBroker.exe"; "WindowsPackageManagerServer.exe"; "SoftLandingTask.exe";
   "msedge.exe"; "conhost.exe"; "CrossDeviceServ"; "SecurityHealthH"; "System"; "MoUsoCoreWorker";
   "backgroundTaskH"; "nordvpn-service"].

Definition is_ignored (comm : string) : bool :=
  existsb (fun ignore => eq_ignore_ascii_case (base_name comm) ignore) IGNORED.

Definition BAYES_NAME_EXCLUSIONS : list string := ["wget"; "chronyd"].

Definition is_bayes_excluded (comm : string) : bool :=
  existsb (fun excluded => eq_ignore_ascii_case (base_name comm) excluded) BAYES_NAME_EXCLUSIONS.

Record Stamped (T : Type) := mkStamped { st_generation : option Z; st_value : T }.
Arguments mkStamped {T}.
Arguments st_generation {T}.
Arguments st_value {T}.

Definition current {T} (s : Stamped T) (generation : option Z) : bool :=
  same_generation (st_generation s) generation.

Record EntityRef := mkEntity { er_ppid : Z; er_comm : string; er_parent_generation : option Z }.

Definition entity_id (e : EntityRef) : Z * string := (er_ppid e, er_comm e).

Record CorrelationEngine := mkEngine {
  ce_bus : EventBus;
  ce_window_ns : Z;
  ce_beliefs : BoundedMap (Z * string) (Stamped BeliefState);
  ce_pid_entities : BoundedMap Z (Stamped EntityRef);
  ce_fired : BoundedMap (string * Z) (Stamped Z);
  ce_masquerading : BoundedMap Z (option Z) }.

Definition ENTITY_CAP : Z := 65536.
Definition BELIEF_CAP : Z := 16384.

(** [None]: the assertion of [BoundedMap::new]. *)
Definition engine_with_window (window : Z) : option CorrelationEngine :=
  beliefs ← bm_new BELIEF_CAP; entities ← bm_new ENTITY_CAP;
  fired ← bm_new BELIEF_CAP; masq ← bm_new ENTITY_CAP;
  Some (mkEngine (bus_new window) (wrap64 window) beliefs entities fired masq).
Definition engine_new : option CorrelationEngine := engine_with_window 60000000000.

Definition with_bus (b : EventBus) (e : CorrelationEngine) : CorrelationEngine :=
  mkEngine b (ce_window_ns e) (ce_beliefs e) (ce_pid_entities e) (ce_fired e) (ce_masquerading e).
Definition with_beliefs b (e : CorrelationEngine) : CorrelationEngine :=
  mkEngine (ce_bus e) (ce_window_ns e) b (ce_pid_entities e) (ce_fired e) (ce_masquerading e).
Definition with_entities b (e : CorrelationEngine) : CorrelationEngine :=
  mkEngine (ce_bus e) (ce_window_ns e) (ce_beliefs e) b (ce_fired e) (ce_masquerading e).
Definition with_fired b (e : CorrelationEngine) : CorrelationEngine :=
  mkEngine (ce_bus e) (ce_window_ns e) (ce_beliefs e) (ce_pid_entities e) b (ce_masquerading e).
Definition with_masquerading b (e : CorrelationEngine) : CorrelationEngine :=
  mkEngine (ce_bus e) (ce_window_ns e) (ce_beliefs e) (ce_pid_entities e) (ce_fired e) b.

Definition is_masquerading (e : CorrelationEngine) (pid : Z) (generation : option Z) : bool :=
  match bm_peek pid (ce_masquerading e) with
  | Some recorded => same_generation recorded generation
  | None => false
  end.

Definition behavior_vector_for_pid (e : CorrelationEngine) (pid : Z) (generation : option Z)
    : option BehaviorVector :=
  from_window (events_for_pid pid generation (ce_bus e)).

(** [events_for_pid(..).map(timestamp).max().unwrap_or(0)]. *)
Definition latest_for_pid (e : CorrelationEngine) (pid : Z) (generation : option Z) : Z :=
  max_ts (events_for_pid pid generation (ce_bus e)).

(** Firing at most once per window for a key: the [push_once] closure and the
    loop body of [web_shell_alerts]. *)
Definition fire_once (window_ns : Z) (key : string * Z) (generation : option Z) (now_ns : Z)
    (fired : BoundedMap (string * Z) (Stamped Z)) : bool * BoundedMap (string * Z) (Stamped Z) :=
  let '(entry, fired) := bm_get key fired in
  let recently := match entry with
                  | Some s => current s generation && (now_ns -sat st_value s <=? window_ns)
                  | None => false
                  end in
  if recently then (false, fired) else (true, bm_insert key (mkStamped generation now_ns) fired).

(** A rule's candidate alerts, in order, each through [push_once]; the rule
    identifiers that fired are kept with their alerts. *)
Fixpoint push_all (window_ns pid : Z) (generation : option Z) (now_ns : Z)
    (ps : list (string * CorrelationAlert)) (fired : BoundedMap (string * Z) (Stamped Z))
    : list (string * CorrelationAlert) * BoundedMap (string * Z) (Stamped Z) :=
  match ps with
  | [] => ([], fired)
  | (rule_id, alert) :: ps =>
      let '(fire, fired) := fire_once window_ns (rule_id, pid) generation now_ns fired in
      let '(out, fired) := push_all window_ns pid generation now_ns ps fired in
      (if fire then (rule_id, alert) :: out else out, fired)
  end.

Definition candidate (rule_id : string) (o : option CorrelationAlert) : list (string * CorrelationAlert) :=
  match o with Some alert => [(rule_id, alert)] | None => [] end.

Section Engine.
Variable exp : f32 -> f32.
Variable log2 : f64 -> f64.
Variable show_ip : IpAddr -> string.
Variable show_belief : BeliefState -> f32 -> string.

(** The rules in the order [evaluate] tries them, a superset rule before its
    subsets. *)
Definition candidates (pid : Z) (generation : option Z) (bus : EventBus) : list (string * CorrelationAlert) :=
  match rule_spawn_connect_filewrite pid generation bus with
  | Some alert => [("spawn_connect_filewrite", alert)]
  | None => candidate "spawn_connect" (rule_spawn_connect pid generation bus)
  end
  ++ candidate "connect_filewrite" (rule_connect_filewrite pid generation bus)
  ++ candidate "respawn_connect" (rule_respawn_connect pid generation bus)
  ++ candidate "dns_exfil" (rule_dns_exfil log2 pid generation bus)
  ++ match rule_assembly_smb pid generation bus with
     | Some alert => [("assembly_smb", alert)]
     | None => candidate "assembly_connect" (rule_assembly_connect pid generation bus)
               ++ candidate "exec_smb" (rule_exec_smb pid generation bus)
     end.

Definition evaluate (pid : Z) (generation : option Z) (now_ns : Z) (e : CorrelationEngine)
    : list (string * CorrelationAlert) * CorrelationEngine :=
  let '(alerts, fired) :=
    push_all (ce_window_ns e) pid generation now_ns (candidates pid generation (ce_bus e)) (ce_fired e) in
  (alerts, with_fired fired e).

Fixpoint web_shell_cases (window_ns : Z) (cases : list WebShellCase)
    (fired : BoundedMap (string * Z) (Stamped Z))
    : list CorrelationAlert * BoundedMap (string * Z) (Stamped Z) :=
  match cases with
  | [] => ([], fired)
  | c :: cases =>
      let '(fire, fired) :=
        fire_once window_ns ("web_request_shell", ws_pid c) (ws_generation c) (ws_timestamp_ns c) fired in
      let '(out, fired) := web_shell_cases window_ns cases fired in
      (if fire then ws_alert c :: out else out, fired)
  end.

Definition web_shell_alerts (e : CorrelationEngine) : list CorrelationAlert * CorrelationEngine :=
  let '(alerts, fired) :=
    web_shell_cases (ce_window_ns e) (rule_web_request_shell show_ip (ce_bus e)) (ce_fired e) in
  (alerts, with_fired fired e).

(** [belief_or_insert] with the write [f] the caller makes through it. *)
Definition belief_or_insert (entity : EntityRef) (now_ns : Z) (f : BeliefState -> BeliefState)
    (e : CorrelationEngine) : option CorrelationEngine :=
  let id := entity_id entity in
  let beliefs :=
    match bm_peek id (ce_beliefs e) with
    | Some b => if negb (same_generation (st_generation b) (er_parent_generation entity))
                then (bm_remove id (ce_beliefs e)).2 else ce_beliefs e
    | None => ce_beliefs e
    end in
  '(_, beliefs) ← bm_get_or_insert_with id (mkStamped (er_parent_generation entity) (belief_new now_ns))
      (fun entry => mkStamped (match st_generation entry with None => er_parent_generation entity | g => g end)
                      (f (st_value entry))) beliefs;
  Some (with_beliefs beliefs e).

(** [belief_mut] with the caller's write; [None] when there is no current belief. *)
Definition belief_mut (entity : EntityRef) (f : BeliefState -> BeliefState) (e : CorrelationEngine)
    : option BeliefState * CorrelationEngine :=
  let '(entry, beliefs) :=
    bm_get_mut (entity_id entity)
      (fun s => if current s (er_parent_generation entity) then mkStamped (st_generation s) (f (st_value s)) else s)
      (ce_beliefs e) in
  (match entry with
   | Some s => if current s (er_parent_generation entity) then Some (st_value s) else None
   | None => None
   end, with_beliefs beliefs e).

Definition bayes_step (s : BeliefState) : BeliefState :=
  if f_gt (log_odds s) BAYES_THRESHOLD && negb (bl_alerted s)
  then mkBelief (log_odds s) (last_update_ns s) true
  else if f_le (log_odds s) BAYES_THRESHOLD && bl_alerted s
  then mkBelief (log_odds s) (last_update_ns s) false
  else s.

Definition bayes_alert (pid : Z) (comm : string) (entity_key : EntityRef) (e : CorrelationEngine)
    : option CorrelationAlert * CorrelationEngine :=
  let '(state, e) := belief_mut entity_key bayes_step e in
  (match state with
   | Some s =>
       if f_gt (log_odds s) BAYES_THRESHOLD && negb (bl_alerted s)
       then Some (mkAlert "BAYES" Critical
                    (cat ["pid="; show_u64 pid; " comm="; comm; ": high Bayesian score ";
                          show_belief s (probability exp s)]))
       else None
   | None => None
   end, e).

(** [pid_entities.get(&pid).filter(current).map(..).unwrap_or_else(..)]. *)
Definition resolve_entity (pid : Z) (generation : option Z) (comm : string) (e : CorrelationEngine)
    : EntityRef * CorrelationEngine :=
  let '(entry, entities) := bm_get pid (ce_pid_entities e) in
  (match entry with
   | Some s => if current s generation then st_value s else mkEntity pid comm generation
   | None => mkEntity pid comm generation
   end, with_entities entities e).

(** What an [ExecEvent] records about its pid. *)
Definition note_exec (exec : ExecEvent) (e : CorrelationEngine) : CorrelationEngine :=
  let m := exec_meta exec in
  let e := if negb (meta_ppid m =? 0)
           then with_entities
                  (bm_insert (meta_pid m)
                     (mkStamped (meta_process_generation m)
                        (mkEntity (meta_ppid m) (meta_comm m) (meta_parent_process_generation m)))
                     (ce_pid_entities e)) e
           else e in
  if (is_ignored (meta_comm m) || is_bayes_excluded (meta_comm m))
     && (negb (name_exclusion_applies (Some (exec_image_path exec)))
         || negb (parent_exclusion_applies (meta_comm m) (exec_parent_comm exec)))
  then with_masquerading (bm_insert (meta_pid m) (meta_process_generation m) (ce_masquerading e)) e
  else e.

Definition is_http_request (e : Event) : bool := match e with Event_HttpRequest _ => true | _ => false end.

(** [None]: a panic. *)
Definition on_event (event : Event) (e : CorrelationEngine) : option (list CorrelationAlert * CorrelationEngine) :=
  if negb (is_correlated event) then Some ([], e)
  else if is_http_request event then Some (web_shell_alerts (with_bus (bus_push event (ce_bus e)) e))
  else
    let m := Event_meta event in
    let pid := meta_pid m in
    let generation := meta_process_generation m in
    let comm := meta_comm m in
    let e := match event with Event_Exec exec => note_exec exec e | _ => e end in
    let e := with_bus (bus_push event (ce_bus e)) e in
    let '(entity_key, e) := resolve_entity pid generation comm e in
    e ← match behavior_vector_for_pid e pid generation with
        | Some bv =>
            let now_ns := latest_for_pid e pid generation in
            belief_or_insert entity_key now_ns (update_belief exp bv None now_ns) e
        | None => Some e
        end;
    let '(web_alerts, e) := match event with
                            | Event_Exec exec => if is_web_server_shell exec then web_shell_alerts e else ([], e)
                            | _ => ([], e)
                            end in
    if is_ignored comm && negb (is_masquerading e pid generation) then Some (web_alerts, e)
    else
      let '(rule_alerts, e) := evaluate pid generation (latest_for_pid e pid generation) e in
      let alerts := web_alerts ++ rule_alerts.*2 in
      if negb (is_bayes_excluded comm) || is_masquerading e pid generation
      then let '(b, e) := bayes_alert pid comm entity_key e in Some (alerts ++ option_list b, e)
      else Some (alerts, e).

(** [Err(())] is [false]. *)
Definition update_belief_with_ml (pid : Z) (generation : option Z) (ml_llr : option f32) (e : CorrelationEngine)
    : bool * CorrelationEngine :=
  match ml_llr with
  | None => (true, e)
  | Some llr =>
      match last (events_for_pid pid generation (ce_bus e)) with
      | None => (false, e)
      | Some ev =>
          let '(entity_key, e) := resolve_entity pid generation (meta_comm (Event_meta ev)) e in
          let '(state, e) := belief_mut entity_key (apply_ml_llr llr) e in
          (match state with Some _ => true | None => false end, e)
      end
  end.
End Engine.

(** ** Lemmas *)

(** Fired for this key within the window, by the same incarnation. *)
Definition recent (window_ns : Z) (key : string * Z) (generation : option Z) (now_ns : Z)
    (fired : BoundedMap (string * Z) (Stamped Z)) : bool :=
  match bm_peek key fired with
  | Some s => current s generation && (now_ns -sat st_value s <=? window_ns)
  | None => false
  end.

(** Room for [n] more entries and clock ticks. *)
Definition roomy (n : Z) (fired : BoundedMap (string * Z) (Stamped Z)) : Prop :=
  bm_ok fired /\ tick fired + 2 * n <= U64_MAX /\ bm_len fired + n <= cap fired.

Lemma fire_once_spec w key g now F n :
  roomy n F -> 1 <= n ->
  let r := fire_once w key g now F in
  r.1 = negb (recent w key g now F) /\ roomy (n - 1) r.2 /\
  (forall k, k <> key -> bm_peek k r.2 = bm_peek k F) /\
  bm_peek key r.2 = if r.1 then Some (mkStamped g now) else bm_peek key F.
Proof.
  intros (Hok & Ht & Hl) Hn. unfold fire_once, recent.
  destruct (bm_get_client F key Hok) as (H1 & H2 & H3 & H4 & H5 & H6); [lia|].
  destruct (bm_get key F) as [entry F1]. cbn [fst snd] in *. subst entry.
  set (rec := match bm_peek key F with Some s => _ | None => false end).
  destruct rec; cbn [fst snd negb].
  - split_and!; [done|split_and!; [done|lia|lia]|done|done].
  - destruct (bm_insert_client F1 key (mkStamped g now) H2) as (I1 & I2 & I3 & I4); [lia|].
    pose proof (bm_ok_tick _ Hok). destruct (bm_insert_counters F1 key (mkStamped g now)) as (J1 & J2 & J3); [lia..|].
    split_and!; [done|split_and!; [done|lia|lia]| |done].
    intros k Hk. rewrite I4 by (done || lia). apply H3.
Qed.

Definition rule_recent (w pid : Z) (g : option Z) (now : Z) (F : BoundedMap (string * Z) (Stamped Z))
    (c : string * CorrelationAlert) : bool := recent w (c.1, pid) g now F.

Lemma push_all_spec w pid g now ps F m :
  NoDup ps.*1 -> 0 <= m -> roomy (Z.of_nat (length ps) + m) F ->
  let r := push_all w pid g now ps F in
  r.1 = List.filter (fun c => negb (rule_recent w pid g now F c)) ps /\ roomy m r.2 /\
  (forall k, (forall id, id ∈ ps.*1 -> k <> (id, pid)) -> bm_peek k r.2 = bm_peek k F) /\
  (forall id, id ∈ ps.*1 -> bm_peek (id, pid) r.2 =
     if recent w (id, pid) g now F then bm_peek (id, pid) F else Some (mkStamped g now)).
Proof.
  revert F. induction ps as [|[id a] ps IH]; intros F Hnd Hm Hroom; cbn [push_all].
  { split_and!; [done|done|done|]. intros id Hid. by apply elem_of_nil in Hid. }
  rewrite fmap_cons in Hnd. apply NoDup_cons in Hnd as [Hid Hnd]. cbn [fst] in Hid.
  destruct (fire_once_spec w (id, pid) g now F (Z.of_nat (length ((id, a) :: ps)) + m) Hroom) as (H1 & H2 & H3 & H4);
    [simpl; lia|].
  destruct (fire_once w (id, pid) g now F) as [fire F1]. cbn [fst snd] in *.
  assert (roomy (Z.of_nat (length ps) + m) F1) as Hroom1.
  { destruct H2 as (? & ? & ?). cbn [length] in *. split_and!; [done|lia|lia]. }
  destruct (IH F1 Hnd Hm Hroom1) as (I1 & I2 & I3 & I4).
  destruct (push_all w pid g now ps F1) as [out F2]. cbn [fst snd] in *.
  assert (forall c, c ∈ ps -> rule_recent w pid g now F1 c = rule_recent w pid g now F c) as Hsame.
  { intros [id' a'] Hc. unfold rule_recent, recent. cbn [fst]. rewrite H3; [done|].
    intros [= ->]. apply Hid. apply list_elem_of_fmap. by exists (id, a'). }
  split_and!.
  - cbn [List.filter]. unfold rule_recent at 1. cbn [fst]. rewrite <- H1.
    assert (List.filter (fun c => negb (rule_recent w pid g now F1 c)) ps =
            List.filter (fun c => negb (rule_recent w pid g now F c)) ps) as E.
    { apply filter_ext_in. intros c Hc. by rewrite Hsame by (by apply list_elem_of_In). }
    rewrite I1, E. by destruct fire.
  - done.
  - intros k Hk. rewrite fmap_cons in Hk. cbn [fst] in Hk.
    rewrite I3 by (intros; apply Hk; set_solver). apply H3. apply Hk. set_solver.
  - intros id' Hid'. rewrite fmap_cons in Hid'. cbn [fst] in Hid'.
    apply elem_of_cons in Hid' as [->|Hid'].
    + rewrite I3 by (intros i Hi [= ->]; by apply Hid). rewrite H4, H1. by destruct (recent w (id, pid) g now F).
    + rewrite I4 by done. assert (id' <> id) by congruence.
      unfold recent. rewrite !H3 by congruence. done.
Qed.

Lemma candidates_nodup log2 pid g bus : NoDup (candidates log2 pid g bus).*1.
Proof.
  unfold candidates, candidate.
  destruct (rule_spawn_connect_filewrite pid g bus), (rule_spawn_connect pid g bus),
    (rule_connect_filewrite pid g bus), (rule_respawn_connect pid g bus), (rule_dns_exfil log2 pid g bus),
    (rule_assembly_smb pid g bus), (rule_assembly_connect pid g bus), (rule_exec_smb pid g bus);
    apply (bool_decide_unpack _); vm_compute; exact I.
Qed.

Lemma candidates_length log2 pid g bus : (length (candidates log2 pid g bus) <= 6)%nat.
Proof.
  unfold candidates, candidate.
  destruct (rule_spawn_connect_filewrite pid g bus), (rule_spawn_connect pid g bus),
    (rule_connect_filewrite pid g bus), (rule_respawn_connect pid g bus), (rule_dns_exfil log2 pid g bus),
    (rule_assembly_smb pid g bus), (rule_assembly_connect pid g bus), (rule_exec_smb pid g bus);
    simpl; lia.
Qed.

Lemma roomy_candidates log2 pid g bus F m :
  roomy (6 + m) F -> roomy (Z.of_nat (length (candidates log2 pid g bus)) + m) F.
Proof. intros (? & ? & ?). pose proof (candidates_length log2 pid g bus). split_and!; [done|lia|lia]. Qed.

Lemma evaluate_roomy log2 pid g now e m :
  0 <= m -> roomy (6 + m) (ce_fired e) -> roomy m (ce_fired (evaluate log2 pid g now e).2).
Proof.
  intros Hm Hr. unfold evaluate.
  destruct (push_all_spec (ce_window_ns e) pid g now (candidates log2 pid g (ce_bus e)) (ce_fired e) m
    (candidates_nodup log2 pid g (ce_bus e)) Hm (roomy_candidates log2 pid g (ce_bus e) (ce_fired e) m Hr)) as (_ & H & _).
  by destruct (push_all _ _ _ _ _ _).
Qed.

(** ** Theorems *)

(** One alert per pattern and window.  [evaluate] reports exactly the rules
    that match and have not fired for this process incarnation within the
    window; and whatever arrives on the bus afterwards, a rule reported now is
    not reported again for the incarnation until the window has passed. *)
Theorem evaluate_once_per_window log2 pid g now e al e' :
  roomy 6 (ce_fired e) -> evaluate log2 pid g now e = (al, e') ->
  al = List.filter (fun c => negb (rule_recent (ce_window_ns e) pid g now (ce_fired e) c))
         (candidates log2 pid g (ce_bus e)) /\
  forall e2 now2 al2 e2',
    ce_fired e2 = ce_fired e' -> ce_window_ns e2 = ce_window_ns e -> roomy 6 (ce_fired e2) ->
    now2 <= now + ce_window_ns e -> 0 <= ce_window_ns e -> evaluate log2 pid g now2 e2 = (al2, e2') ->
    forall id, id ∈ al.*1 -> id ∉ al2.*1.
Proof.
  intros Hroom He. unfold evaluate in He.
  pose proof (fun bus F => roomy_candidates log2 pid g bus F 0) as Hr.
  destruct (push_all_spec (ce_window_ns e) pid g now _ (ce_fired e)
    0 (candidates_nodup log2 pid g (ce_bus e)) (Z.le_refl 0) (Hr _ _ Hroom)) as (H1 & _ & _ & H4).
  destruct (push_all _ _ _ _ _ (ce_fired e)) as [out F]. cbn [fst snd] in *. injection He as <- <-.
  split; [done|]. intros e2 now2 al2 e2' HF Hw Hroom2 Hnow Hw0 He2 id Hid Hid2. unfold evaluate in He2.
  destruct (push_all_spec (ce_window_ns e2) pid g now2 _ (ce_fired e2)
    0 (candidates_nodup log2 pid g (ce_bus e2)) (Z.le_refl 0) (Hr _ _ Hroom2)) as (K1 & _).
  destruct (push_all _ _ _ _ _ (ce_fired e2)) as [out2 F2]. cbn [fst snd] in *. injection He2 as <- _.
  rewrite H1 in Hid. apply list_elem_of_fmap in Hid as (c & -> & Hc).
  apply elem_of_bool_filter in Hc as [Hc Hn].
  rewrite K1 in Hid2. apply list_elem_of_fmap in Hid2 as (c2 & Ec & Hc2).
  apply elem_of_bool_filter in Hc2 as [_ Hn2]. unfold rule_recent in Hn, Hn2. rewrite <- Ec, HF in Hn2.
  cbn [ce_fired with_fired] in Hn2. apply negb_true_iff in Hn.
  unfold recent in Hn2. rewrite H4 in Hn2 by (apply list_elem_of_fmap; eauto). rewrite Hn in Hn2.
  unfold current in Hn2. cbn [st_generation st_value] in Hn2.
  assert (same_generation g g = true) as Hg by (destruct g; simpl; [apply Z.eqb_refl|done]).
  rewrite Hg, Hw in Hn2. cbn [andb] in Hn2. apply negb_true_iff, Z.leb_gt in Hn2. unfold sat_sub in Hn2. lia.
Qed.

(** The belief an entity starts its update from: its own if it was recorded
    under the same parent incarnation, the prior otherwise. *)
Definition belief_base (entity : EntityRef) (now_ns : Z) (e : CorrelationEngine) : BeliefState :=
  match bm_peek (entity_id entity) (ce_beliefs e) with
  | Some b => if same_generation (st_generation b) (er_parent_generation entity)
              then st_value b else belief_new now_ns
  | None => belief_new now_ns
  end.

Lemma belief_or_insert_spec entity now f e :
  bm_ok (ce_beliefs e) -> tick (ce_beliefs e) < U64_MAX ->
  exists B, belief_or_insert entity now f e = Some (with_beliefs B e) /\ bm_ok B /\
    tick B = tick (ce_beliefs e) + 1 /\ cap B = cap (ce_beliefs e) /\
    (exists g, bm_peek (entity_id entity) B = Some (mkStamped g (f (belief_base entity now e))) /\
       same_generation g (er_parent_generation entity) = true) /\
    (forall k, k <> entity_id entity -> bm_peek k B = bm_peek k (ce_beliefs e) \/ bm_peek k B = None).
Proof.
  intros Hok Ht. unfold belief_or_insert, belief_base. set (id := entity_id entity).
  set (B0 := match bm_peek id (ce_beliefs e) with Some b => _ | None => _ end).
  set (d := mkStamped (er_parent_generation entity) (belief_new now)).
  assert (bm_ok B0 /\ tick B0 = tick (ce_beliefs e) /\ cap B0 = cap (ce_beliefs e) /\
    (forall k, k <> id -> bm_peek k B0 = bm_peek k (ce_beliefs e)) /\
    exists g, default d (bm_peek id B0) = mkStamped g
      match bm_peek id (ce_beliefs e) with
      | Some b => if same_generation (st_generation b) (er_parent_generation entity)
                  then st_value b else belief_new now
      | None => belief_new now
      end /\ same_generation g (er_parent_generation entity) = true)
    as (K1 & K2 & K3 & K4 & g & K5 & K6).
  { assert (forall o : option Z, same_generation o o = true) as Hrefl.
    { intros [z|]; simpl; [apply Z.eqb_refl|done]. }
    unfold B0. destruct (bm_peek id (ce_beliefs e)) as [b|] eqn:Ep.
    - destruct (same_generation (st_generation b) _) eqn:Eg; cbn [negb].
      + rewrite Ep. split_and!; try done. exists (st_generation b). split; [by destruct b|done].
      + destruct (bm_remove_client (ce_beliefs e) id Hok) as (R1 & R2 & R3 & _).
        split_and!; try done. rewrite R2. eexists. split; [done|apply Hrefl].
    - rewrite Ep. split_and!; try done. eexists. split; [done|apply Hrefl]. }
  clearbody B0.
  set (upd := fun entry : Stamped BeliefState => mkStamped _ _).
  destruct (bm_get_or_insert_client B0 id d upd K1) as (B & Hb & L1 & L2 & [L3 _] & L4 & L5); [lia|].
  rewrite Hb. cbn [mbind option_bind]. exists B. split; [done|].
  split_and!; [done|lia|lia| |].
  - rewrite L2, K5. unfold upd. cbn [st_generation st_value]. eexists. split; [done|].
    destruct g; [done|]. by destruct (er_parent_generation entity) as [z|]; simpl; [apply Z.eqb_refl|].
  - intros k Hk. rewrite <- K4 by done. by apply L3.
Qed.

(** Beliefs follow the entity, not the pid: an update never panics, starts
    from the entity's own belief when it was recorded under the same parent
    incarnation and from the prior when the parent pid was recycled, and leaves
    every other entity's belief as it was, up to eviction. *)
Theorem belief_of_entity_exact entity now f e :
  bm_ok (ce_beliefs e) -> tick (ce_beliefs e) < U64_MAX ->
  exists e', belief_or_insert entity now f e = Some e' /\ bm_ok (ce_beliefs e') /\
    (exists g, bm_peek (entity_id entity) (ce_beliefs e') = Some (mkStamped g (f (belief_base entity now e))) /\
       same_generation g (er_parent_generation entity) = true) /\
    (forall k, k <> entity_id entity ->
       bm_peek k (ce_beliefs e') = bm_peek k (ce_beliefs e) \/ bm_peek k (ce_beliefs e') = None) /\
    ce_bus e' = ce_bus e /\ ce_fired e' = ce_fired e /\ ce_masquerading e' = ce_masquerading e.
Proof.
  intros Hok Ht. destruct (belief_or_insert_spec entity now f e Hok Ht) as (B & Hb & H1 & _ & _ & H2 & H3).
  exists (with_beliefs B e). split_and!; done.
Qed.

(** What [on_event]'s early steps leave alone. *)
Lemma resolve_entity_fields pid g comm e :
  let e' := (resolve_entity pid g comm e).2 in
  ce_bus e' = ce_bus e /\ ce_beliefs e' = ce_beliefs e /\ ce_masquerading e' = ce_masquerading e /\
  ce_fired e' = ce_fired e.
Proof. unfold resolve_entity. by destruct (bm_get pid (ce_pid_entities e)). Qed.

Lemma web_shell_alerts_fields show_ip e :
  let e' := (web_shell_alerts show_ip e).2 in
  ce_bus e' = ce_bus e /\ ce_beliefs e' = ce_beliefs e /\ ce_masquerading e' = ce_masquerading e.
Proof. unfold web_shell_alerts. by destruct (web_shell_cases _ _ _). Qed.

Lemma evaluate_fields log2 pid g now e :
  let e' := (evaluate log2 pid g now e).2 in
  ce_bus e' = ce_bus e /\ ce_beliefs e' = ce_beliefs e /\ ce_masquerading e' = ce_masquerading e.
Proof. unfold evaluate. by destruct (push_all _ _ _ _ _ _). Qed.

Lemma bayes_alert_fields exp show_belief pid comm ent e :
  bm_ok (ce_beliefs e) -> tick (ce_beliefs e) < U64_MAX ->
  let e' := (bayes_alert exp show_belief pid comm ent e).2 in
  ce_bus e' = ce_bus e /\ bm_ok (ce_beliefs e') /\ ce_masquerading e' = ce_masquerading e.
Proof.
  intros Hok Ht. unfold bayes_alert, belief_mut.
  set (f := fun s : Stamped BeliefState => _).
  destruct (bm_get_mut_client (ce_beliefs e) (entity_id ent) f Hok Ht) as (_ & H2 & _).
  destruct (bm_get_mut (entity_id ent) f (ce_beliefs e)) as [o B]. done.
Qed.

Definition masquerade_gate (exec : ExecEvent) : bool :=
  negb (name_exclusion_applies (Some (exec_image_path exec)))
  || negb (parent_exclusion_applies (meta_comm (exec_meta exec)) (exec_parent_comm exec)).

Lemma note_exec_fields exec e :
  bm_ok (ce_masquerading e) -> tick (ce_masquerading e) < U64_MAX ->
  let e' := note_exec exec e in
  let m := exec_meta exec in
  ce_bus e' = ce_bus e /\ ce_beliefs e' = ce_beliefs e /\ bm_ok (ce_masquerading e') /\
  (is_ignored (meta_comm m) || is_bayes_excluded (meta_comm m) = true -> masquerade_gate exec = true ->
     is_masquerading e' (meta_pid m) (meta_process_generation m) = true).
Proof.
  intros Hok Ht. unfold note_exec. fold (masquerade_gate exec). cbn zeta.
  set (e1 := if negb _ then _ else e).
  assert (ce_bus e1 = ce_bus e /\ ce_beliefs e1 = ce_beliefs e /\ ce_masquerading e1 = ce_masquerading e)
    as (E1 & E2 & E3) by (unfold e1; by destruct (negb _)).
  clearbody e1. destruct (is_ignored _ || is_bayes_excluded _); cbn [andb]; [|rewrite E3; split_and!; done].
  destruct (masquerade_gate exec); [|rewrite E3; split_and!; done].
  destruct (bm_insert_client (ce_masquerading e1) (meta_pid (exec_meta exec)) (meta_process_generation (exec_meta exec)))
    as (H1 & H2 & _); [by rewrite E3|by rewrite E3|].
  split_and!; [done|done|done|]. intros _ _. unfold is_masquerading. cbn [ce_masquerading with_masquerading].
  rewrite H2. destruct (meta_process_generation (exec_meta exec)); simpl; [apply Z.eqb_refl|done].
Qed.

(** The event's own record of its process, before the bus. *)
Definition noted (event : Event) (e : CorrelationEngine) : CorrelationEngine :=
  match event with Event_Exec exec => note_exec exec e | _ => e end.

Lemma noted_fields event e :
  bm_ok (ce_masquerading e) -> tick (ce_masquerading e) < U64_MAX ->
  let e' := noted event e in
  let m := Event_meta event in
  ce_bus e' = ce_bus e /\ ce_beliefs e' = ce_beliefs e /\ bm_ok (ce_masquerading e') /\
  (is_exec event = false -> ce_masquerading e' = ce_masquerading e) /\
  (forall exec, event = Event_Exec exec -> is_ignored (meta_comm m) || is_bayes_excluded (meta_comm m) = true ->
     masquerade_gate exec = true -> is_masquerading e' (meta_pid m) (meta_process_generation m) = true).
Proof.
  intros Hm Htm. unfold noted.
  destruct event as [exec| | | | | | | | | | | | | | | | | | | | | | | | | | | | | | | | | | | | | | | | | | | | |];
    try (split_and!; done).
  destruct (note_exec_fields exec e Hm Htm) as (N1 & N2 & N3 & N4). split_and!; try done.
  intros ? [= <-]. exact N4.
Qed.

(** The update of the entity's belief from the process's window. *)
Definition believed exp (ent : EntityRef) (pid : Z) (g : option Z) (e : CorrelationEngine)
    : option CorrelationEngine :=
  match behavior_vector_for_pid e pid g with
  | Some bv => belief_or_insert ent (latest_for_pid e pid g) (update_belief exp bv None (latest_for_pid e pid g)) e
  | None => Some e
  end.

Lemma believed_fields exp ent pid g e :
  bm_ok (ce_beliefs e) -> tick (ce_beliefs e) + 2 <= U64_MAX ->
  exists e', believed exp ent pid g e = Some e' /\ ce_bus e' = ce_bus e /\ bm_ok (ce_beliefs e') /\
    tick (ce_beliefs e') < U64_MAX /\ ce_masquerading e' = ce_masquerading e.
Proof.
  intros Hb Ht. unfold believed. destruct (behavior_vector_for_pid e pid g) as [bv|].
  - destruct (belief_or_insert_spec ent (latest_for_pid e pid g)
      (update_belief exp bv None (latest_for_pid e pid g)) e) as (B & -> & D1 & D2 & _); [done|lia|].
    exists (with_beliefs B e). split_and!; try done. cbn. lia.
  - exists e. split_and!; try done. lia.
Qed.

(** The web-shell rule, tried when a web server starts a shell. *)
Definition web_checked show_ip (event : Event) (e : CorrelationEngine)
    : list CorrelationAlert * CorrelationEngine :=
  match event with
  | Event_Exec exec => if is_web_server_shell exec then web_shell_alerts show_ip e else ([], e)
  | _ => ([], e)
  end.

Lemma web_checked_fields show_ip event e :
  let e' := (web_checked show_ip event e).2 in
  ce_bus e' = ce_bus e /\ ce_beliefs e' = ce_beliefs e /\ ce_masquerading e' = ce_masquerading e.
Proof.
  unfold web_checked. destruct event; try done. destruct (is_web_server_shell _); [|done].
  apply web_shell_alerts_fields.
Qed.

(** The rules and the belief's alert, unless the name is ignored. *)
Definition judged exp log2 show_belief (pid : Z) (g : option Z) (comm : string) (ent : EntityRef)
    (web_alerts : list CorrelationAlert) (e : CorrelationEngine) : list CorrelationAlert * CorrelationEngine :=
  if is_ignored comm && negb (is_masquerading e pid g) then (web_alerts, e)
  else
    let '(rule_alerts, e) := evaluate log2 pid g (latest_for_pid e pid g) e in
    let alerts := web_alerts ++ rule_alerts.*2 in
    if negb (is_bayes_excluded comm) || is_masquerading e pid g
    then let '(b, e) := bayes_alert exp show_belief pid comm ent e in (alerts ++ option_list b, e)
    else (alerts, e).

Lemma judged_fields exp log2 show_belief pid g comm ent web e :
  bm_ok (ce_beliefs e) -> tick (ce_beliefs e) < U64_MAX ->
  let r := judged exp log2 show_belief pid g comm ent web e in
  ce_bus r.2 = ce_bus e /\ bm_ok (ce_beliefs r.2) /\ ce_masquerading r.2 = ce_masquerading e /\
  (is_ignored comm = false \/ is_masquerading e pid g = true ->
     forall a, a ∈ (evaluate log2 pid g (latest_for_pid e pid g) e).1.*2 -> a ∈ r.1).
Proof.
  intros Hb Ht. unfold judged.
  destruct (is_ignored comm && negb (is_masquerading e pid g)) eqn:Eskip.
  { split_and!; try done. apply andb_true_iff in Eskip as [-> Hn]. intros [|Hq]; [done|]. by rewrite Hq in Hn. }
  pose proof (evaluate_fields log2 pid g (latest_for_pid e pid g) e) as Hev.
  destruct (evaluate log2 pid g _ e) as [rules e5]. cbn [fst snd] in *. destruct Hev as (V1 & V2 & V3).
  destruct (negb (is_bayes_excluded comm) || is_masquerading e5 pid g).
  - destruct (bayes_alert_fields exp show_belief pid comm ent e5) as (X1 & X2 & X3); [by rewrite V2..|].
    destruct (bayes_alert exp show_belief pid comm ent e5) as [o e6]. cbn [fst snd] in *.
    split_and!; [congruence|done|congruence|]. intros _ a Ha. rewrite !elem_of_app. by left; right.
  - cbn [fst snd]. rewrite V2. split_and!; try done. intros _ a Ha. rewrite elem_of_app. by right.
Qed.

(** [on_event] is these phases in order. *)
Lemma on_event_phases exp log2 show_ip show_belief event e :
  is_correlated event = true -> is_http_request event = false ->
  let m := Event_meta event in
  let e1 := noted event e in
  let '(ent, e2) := resolve_entity (meta_pid m) (meta_process_generation m) (meta_comm m)
                      (with_bus (bus_push event (ce_bus e1)) e1) in
  on_event exp log2 show_ip show_belief event e =
    (e3 ← believed exp ent (meta_pid m) (meta_process_generation m) e2;
     let '(web, e4) := web_checked show_ip event e3 in
     Some (judged exp log2 show_belief (meta_pid m) (meta_process_generation m) (meta_comm m) ent web e4)).
Proof.
  intros Hc Hh. cbn zeta. unfold on_event. rewrite Hc, Hh. cbn [negb]. fold (noted event e).
  destruct (resolve_entity _ _ _ _) as [ent e2]. fold (believed exp ent (meta_pid (Event_meta event))
    (meta_process_generation (Event_meta event)) e2).
  destruct (believed _ _ _ _ _) as [e3|]; [|done]. cbn [mbind option_bind]. fold (web_checked show_ip event e3).
  destruct (web_checked show_ip event e3) as [web e4]. unfold judged.
  destruct (_ && _); [done|]. destruct (evaluate _ _ _ _ _) as [rules e5].
  destruct (_ || _); [|done]. by destruct (bayes_alert _ _ _ _ _ _).
Qed.

(** *** The belief's alert comes from a crossing *)

Definition not_bayes (a : CorrelationAlert) : Prop := ca_technique a <> "BAYES".

Lemma rules_not_bayes log2 pid g bus : Forall (fun c => not_bayes c.2) (candidates log2 pid g bus).
Proof.
  assert (forall id o, (forall a, o = Some a -> not_bayes a) -> Forall (fun c => not_bayes c.2) (candidate id o)) as Hc.
  { intros id [a|] H; [|constructor]. repeat constructor. by apply H. }
  assert (forall a, rule_spawn_connect_filewrite pid g bus = Some a -> not_bayes a) as H1
    by (unfold rule_spawn_connect_filewrite; intros a H; repeat case_match; by simplify_eq).
  assert (forall a, rule_assembly_smb pid g bus = Some a -> not_bayes a) as H2
    by (unfold rule_assembly_smb; intros a H; repeat case_match; by simplify_eq).
  unfold candidates. rewrite !Forall_app. split_and!.
  - destruct (rule_spawn_connect_filewrite pid g bus) as [a|]; [repeat constructor; by apply H1|].
    apply Hc. unfold rule_spawn_connect. intros a H. repeat case_match; by simplify_eq.
  - apply Hc. unfold rule_connect_filewrite. intros a H. repeat case_match; by simplify_eq.
  - apply Hc. unfold rule_respawn_connect. intros a H. repeat case_match; by simplify_eq.
  - apply Hc. unfold rule_dns_exfil. intros a H. repeat case_match; by simplify_eq.
  - destruct (rule_assembly_smb pid g bus) as [a|]; [repeat constructor; by apply H2|]. apply Forall_app. split.
    + apply Hc. unfold rule_assembly_connect. intros a H. repeat case_match; by simplify_eq.
    + apply Hc. unfold rule_exec_smb. intros a H. repeat case_match; by simplify_eq.
Qed.

Lemma push_all_incl w pid g now ps F P : Forall P ps -> Forall P (push_all w pid g now ps F).1.
Proof.
  intros H. revert F. induction H as [|[id a] ps Hp _ IH]; intros F; cbn [push_all]; [constructor|].
  destruct (fire_once _ _ _ _ _) as [[] F1]; specialize (IH F1); destruct (push_all _ _ _ _ _ F1) as [out F2];
    cbn [fst] in *; [by constructor|done].
Qed.

Lemma evaluate_not_bayes log2 pid g now e : Forall not_bayes (evaluate log2 pid g now e).1.*2.
Proof.
  unfold evaluate. pose proof (push_all_incl (ce_window_ns e) pid g now _ (ce_fired e) _ (rules_not_bayes log2 pid g (ce_bus e))) as H.
  destruct (push_all _ _ _ _ _ _) as [out F]. cbn [fst] in *. by apply Forall_fmap.
Qed.

Lemma web_shell_not_bayes show_ip e : Forall not_bayes (web_shell_alerts show_ip e).1.
Proof.
  unfold web_shell_alerts.
  assert (Forall (fun c => not_bayes (ws_alert c)) (rule_web_request_shell show_ip (ce_bus e))) as H.
  { unfold rule_web_request_shell. destruct (bool_decide _); [constructor|]. apply Forall_forall. intros c Hc.
    apply list_elem_of_omap in Hc as (ev & _ & Hc). unfold web_shell_case in Hc.
    destruct ev; try done. destruct (is_web_server_shell _); [|done].
    destruct (nearest_request _ _); [|done]. cbn [mbind option_bind] in Hc. by injection Hc as <-. }
  revert H. generalize (ce_fired e) (rule_web_request_shell show_ip (ce_bus e)). intros F cs H. revert F.
  induction H as [|c cs Hc _ IH]; intros F; cbn [web_shell_cases]; [constructor|].
  destruct (fire_once _ _ _ _ _) as [[] F1]; specialize (IH F1); destruct (web_shell_cases _ _ F1) as [out F2];
    cbn [fst] in *; [by constructor|done].
Qed.

(** The mark of [ent]'s current belief is clear: it was not reported, or fell to the
    threshold since. *)
Definition not_alerted (ent : EntityRef) (e : CorrelationEngine) : Prop :=
  forall b, bm_peek (entity_id ent) (ce_beliefs e) = Some b ->
    current b (er_parent_generation ent) = true -> bl_alerted (st_value b) = false.

(** From [e] to [e'] the belief of [ent] crossed: it was not marked as alerted before,
    and is above the threshold and marked after. *)
Definition belief_crossed (ent : EntityRef) (e e' : CorrelationEngine) : Prop :=
  not_alerted ent e /\
  exists b, bm_peek (entity_id ent) (ce_beliefs e') = Some b /\
    f_gt (log_odds (st_value b)) BAYES_THRESHOLD = true /\ bl_alerted (st_value b) = true.

(** The update from the window neither sets nor clears the mark. *)
Lemma believed_alerted exp ent pid g e e' :
  bm_ok (ce_beliefs e) -> tick (ce_beliefs e) < U64_MAX ->
  believed exp ent pid g e = Some e' -> not_alerted ent e' -> not_alerted ent e.
Proof.
  intros Hok Ht. unfold believed. destruct (behavior_vector_for_pid e pid g) as [bv|]; [|by intros [= <-]].
  set (now := latest_for_pid e pid g).
  destruct (belief_or_insert_spec ent now (update_belief exp bv None now) e Hok Ht) as (B & -> & _ & _ & _ & (g' & Hp & Hg) & _).
  intros [= <-] Hn b Hb Hc. specialize (Hn _ Hp Hg). cbn [st_value] in Hn. unfold update_belief in Hn. cbn [bl_alerted] in Hn.
  unfold belief_base in Hn. rewrite Hb in Hn. unfold current in Hc. by rewrite Hc in Hn.
Qed.

Lemma bayes_alert_crossed exp show_belief pid comm ent e a :
  bm_ok (ce_beliefs e) -> tick (ce_beliefs e) < U64_MAX ->
  (bayes_alert exp show_belief pid comm ent e).1 = Some a ->
  belief_crossed ent e (bayes_alert exp show_belief pid comm ent e).2.
Proof.
  intros Hok Ht. unfold bayes_alert, belief_mut. set (f := fun s : Stamped BeliefState => _).
  destruct (bm_get_mut_client (ce_beliefs e) (entity_id ent) f Hok Ht) as (H1 & _ & H3 & _).
  destruct (bm_get_mut (entity_id ent) f (ce_beliefs e)) as [o B]. cbn [fst snd] in *. subst o.
  destruct (bm_peek _ (ce_beliefs e)) as [s|] eqn:Ep; [|done]. destruct (current s _) eqn:Ec; [|done].
  destruct (f_gt _ _ && _) eqn:Eg; [|done]. intros _. split.
  { intros b Hb _. rewrite Ep in Hb. injection Hb as <-. by apply andb_true_iff in Eg as [_ ->%negb_true_iff]. }
  exists (f s). split; [done|]. unfold f.
  rewrite Ec. cbn [st_value]. unfold bayes_step. rewrite Eg. cbn [log_odds bl_alerted].
  by apply andb_true_iff in Eg as [-> _].
Qed.

Lemma judged_bayes exp log2 show_belief pid g comm ent web e a :
  bm_ok (ce_beliefs e) -> tick (ce_beliefs e) < U64_MAX -> Forall not_bayes web ->
  a ∈ (judged exp log2 show_belief pid g comm ent web e).1 -> ca_technique a = "BAYES" ->
  belief_crossed ent e (judged exp log2 show_belief pid g comm ent web e).2.
Proof.
  intros Hb Ht Hweb Ha Et. unfold judged in *. destruct (_ && _).
  { rewrite Forall_forall in Hweb. by destruct (Hweb _ Ha). }
  pose proof (evaluate_not_bayes log2 pid g (latest_for_pid e pid g) e) as Hno.
  pose proof (evaluate_fields log2 pid g (latest_for_pid e pid g) e) as (V1 & V2 & V3).
  destruct (evaluate _ _ _ _ _) as [rules e5]. cbn [fst snd] in *.
  assert (a ∉ web ++ rules.*2) as Hn.
  { intros Hin. assert (Forall not_bayes (web ++ rules.*2)) as HF by (by apply Forall_app).
    rewrite Forall_forall in HF. by destruct (HF _ Hin). }
  destruct (_ || _); [|done].
  pose proof (fun x => bayes_alert_crossed exp show_belief pid comm ent e5 x) as Hx. rewrite V2 in Hx.
  unfold belief_crossed, not_alerted in *. rewrite V2 in Hx.
  destruct (bayes_alert _ _ _ _ _ _) as [[x|] e6]; cbn [fst snd option_list] in *.
  - by apply (Hx x).
  - by rewrite app_nil_r in Ha.
Qed.

(** The entity an event's belief is kept under. *)
Definition event_entity (event : Event) (e : CorrelationEngine) : EntityRef :=
  let m := Event_meta event in
  (resolve_entity (meta_pid m) (meta_process_generation m) (meta_comm m)
     (with_bus (bus_push event (ce_bus (noted event e))) (noted event e))).1.

Lemma on_event_returns exp log2 show_ip show_belief event e :
  bm_ok (ce_beliefs e) -> tick (ce_beliefs e) + 2 <= U64_MAX ->
  bm_ok (ce_masquerading e) -> tick (ce_masquerading e) < U64_MAX ->
  exists al e', on_event exp log2 show_ip show_belief event e = Some (al, e') /\
    bm_ok (ce_beliefs e') /\ bm_ok (ce_masquerading e') /\
    (forall a, a ∈ al -> ca_technique a = "BAYES" -> belief_crossed (event_entity event e) e e').
Proof.
  intros Hb Htb Hm Htm. destruct (is_correlated event) eqn:Ec.
  2: { unfold on_event. rewrite Ec. do 2 eexists. split; [done|]. split_and!; [done..|]. intros a Ha. by apply elem_of_nil in Ha. }
  destruct (is_http_request event) eqn:Eh.
  { unfold on_event. rewrite Ec, Eh. cbn [negb].
    pose proof (web_shell_alerts_fields show_ip (with_bus (bus_push event (ce_bus e)) e)) as (F1 & F2 & F3).
    pose proof (web_shell_not_bayes show_ip (with_bus (bus_push event (ce_bus e)) e)) as Hno.
    destruct (web_shell_alerts show_ip _) as [al e']. cbn [fst snd] in *. do 2 eexists. split; [done|].
    rewrite F2, F3. split_and!; [done..|]. intros a Ha Et. rewrite Forall_forall in Hno. by destruct (Hno _ Ha). }
  pose proof (on_event_phases exp log2 show_ip show_belief event e Ec Eh) as Hon. cbn zeta in *.
  destruct (noted_fields event e Hm Htm) as (A1 & A2 & A3 & _). unfold event_entity.
  pose proof (resolve_entity_fields (meta_pid (Event_meta event)) (meta_process_generation (Event_meta event))
    (meta_comm (Event_meta event)) (with_bus (bus_push event (ce_bus (noted event e))) (noted event e))) as (B1 & B2 & B3 & _).
  destruct (resolve_entity _ _ _ _) as [ent e2]. cbn [fst snd with_bus ce_bus ce_beliefs ce_masquerading] in *.
  destruct (believed_fields exp ent (meta_pid (Event_meta event)) (meta_process_generation (Event_meta event)) e2)
    as (e3 & He3 & C1 & C2 & C3 & C4); [by rewrite B2, A2..|].
  rewrite He3 in Hon. cbn [mbind option_bind] in Hon.
  pose proof (web_checked_fields show_ip event e3) as (W1 & W2 & W3).
  assert (Forall not_bayes (web_checked show_ip event e3).1) as Hweb.
  { unfold web_checked. destruct event; try constructor. destruct (is_web_server_shell _); [apply web_shell_not_bayes|constructor]. }
  destruct (web_checked show_ip event e3) as [web e4]. cbn [fst snd] in *.
  destruct (judged_fields exp log2 show_belief (meta_pid (Event_meta event)) (meta_process_generation (Event_meta event))
    (meta_comm (Event_meta event)) ent web e4) as (J1 & J2 & J3 & _); [by rewrite W2..|].
  pose proof (fun a => judged_bayes exp log2 show_belief (meta_pid (Event_meta event)) (meta_process_generation (Event_meta event))
    (meta_comm (Event_meta event)) ent web e4 a) as Hj. rewrite W2 in Hj.
  destruct (judged _ _ _ _ _ _ _ _ _) as [al e']. cbn [fst snd] in *.
  exists al, e'. split; [done|]. rewrite J3, W3, C4, B3. split_and!; [done..|]. intros a Ha Et.
  destruct (Hj a) as [Hn Hx]; [done..|]. split; [|exact Hx].
  assert (not_alerted ent e2) as Hn2.
  { eapply believed_alerted; [| |exact He3|]; [by rewrite B2, A2|rewrite B2, A2; lia|].
    unfold not_alerted in *. by rewrite W2 in Hn. }
  unfold not_alerted in *. by rewrite B2, A2 in Hn2.
Qed.

(** ** Witnesses *)

Definition fresh_map {V} `{Countable K} (c : Z) : BoundedMap K V := mkBounded ∅ c 0 0.

Lemma fresh_map_ok {V} `{Countable K} c : 1 <= c <= U64_MAX -> bm_ok (fresh_map c : BoundedMap K V).
Proof.
  intros Hc. exists []. apply (bm_abs_new c). unfold bm_new. case_bool; [done|lia].
Qed.

Definition demo_engine (es : list Event) : CorrelationEngine :=
  mkEngine (bus_pushes es (bus_new 60)) 60 (fresh_map 100) (fresh_map 100) (fresh_map 100) (fresh_map 100).

Definition demo_dropper : CorrelationEngine :=
  demo_engine [demo_exec 7 "a" "/tmp/a" 10; demo_connect 7 "a" 20].

Lemma fresh_map_roomy c n : 1 <= c <= U64_MAX -> 0 <= 2 * n <= U64_MAX -> n <= c -> roomy n (fresh_map c).
Proof. intros H1 H2 H3. unfold roomy, bm_len, fresh_map. cbn [tick entries cap]. rewrite map_size_empty. split_and!; [by apply fresh_map_ok|lia|lia]. Qed.

Lemma evaluate_once_per_window_witness :
  exists al e', evaluate id 7 (Some 1) 20 demo_dropper = (al, e') /\ "spawn_connect" ∈ al.*1 /\
    "spawn_connect" ∉ (evaluate id 7 (Some 1) 60 e').1.*1.
Proof.
  pose proof (evaluate_roomy id 7 (Some 1) 20 demo_dropper 6) as Hroom.
  destruct (evaluate id 7 (Some 1) 20 demo_dropper) as [al e'] eqn:E.
  exists al, e'. split; [done|].
  destruct (evaluate_once_per_window id 7 (Some 1) 20 demo_dropper al e') as [H1 H2];
    [apply fresh_map_roomy; unfold U64_MAX; lia|exact E|].
  assert ("spawn_connect" ∈ al.*1) as Hin.
  { rewrite H1. apply (bool_decide_unpack _). vm_compute. exact I. }
  split; [exact Hin|].
  apply (H2 e' 60 _ (evaluate id 7 (Some 1) 60 e').2); try done.
  - unfold evaluate in E. destruct (push_all _ _ _ _ _ _) as [o F]. injection E as _ <-. done.
  - apply Hroom; [lia|]. apply fresh_map_roomy; unfold U64_MAX; lia.
  - apply surjective_pairing.
Defined.

Lemma belief_of_entity_exact_witness :
  exists e', belief_or_insert (mkEntity 1 "a" None) 20 id demo_dropper = Some e' /\
    bm_peek (1, "a") (ce_beliefs e') = Some (mkStamped None (belief_new 20)).
Proof.
  destruct (belief_of_entity_exact (mkEntity 1 "a" None) 20 id demo_dropper) as (e' & H1 & _ & (g & H2 & _) & _);
    [apply fresh_map_ok; unfold U64_MAX; lia|unfold U64_MAX; cbn; lia|].
  exists e'. split; [exact H1|]. injection H1 as <-. vm_compute. reflexivity.
Defined.
