(* ===== verification/CorrelatorTheorems.v ===== *)
(** * CorrelatorTheorems: the contract of the correlator's handler

    Every map of the engine stays well-formed, and the alerts of an event are those of
    the rules that are due on the new bus and have not fired in the window, the
    web-shell cases, and a crossing of the entity's belief; nothing else. *)
From stdpp Require Import base gmap strings list.
From Stdlib Require Import ZArith Lia Ascii.
From Stdlib Require String.
From S2P Require Import Prelude Bounded Str Float Schema Correlator CorrelatorRules CorrelatorEngine.
#[local] Open Scope string_scope.
#[local] Open Scope Z_scope.
#[local] Open Scope list_scope.

(** ** The four maps *)

Definition engine_ok (e : CorrelationEngine) : Prop :=
  bm_ok (ce_beliefs e) /\ bm_ok (ce_pid_entities e) /\ bm_ok (ce_fired e) /\ bm_ok (ce_masquerading e).

(** The clocks of the maps have room for one event, [n] of them firings. *)
Definition engine_room (n : Z) (e : CorrelationEngine) : Prop :=
  tick (ce_beliefs e) + 2 <= U64_MAX /\ tick (ce_pid_entities e) + 2 <= U64_MAX /\
  tick (ce_fired e) + 2 * n <= U64_MAX /\ tick (ce_masquerading e) < U64_MAX.

(** ** Firing, when the table may evict *)

Notation fired_map := (BoundedMap (string * Z) (Stamped Z)) (only parsing).

(** What is left of an entry: itself or nothing. *)
Definition faded (F F' : fired_map) (k : string * Z) : Prop := bm_peek k F' = bm_peek k F \/ bm_peek k F' = None.

Lemma faded_trans F1 F2 F3 k : faded F1 F2 k -> faded F2 F3 k -> faded F1 F3 k.
Proof. unfold faded. intros [->| ->] [->| ->]; auto. Qed.

Lemma faded_fresh (w : Z) k (g : option Z) (now : Z) F F' : faded F F' k -> recent w k g now F = false -> recent w k g now F' = false.
Proof. unfold faded, recent. by intros [->| ->]. Qed.

Lemma fire_once_any (w : Z) (key : string * Z) (g : option Z) (now : Z) (F : fired_map) :
  bm_ok F -> tick F + 2 <= U64_MAX ->
  let r := fire_once w key g now F in
  r.1 = negb (recent w key g now F) /\ bm_ok r.2 /\ tick r.2 <= tick F + 2 /\
  (forall k, r.1 = false \/ k <> key -> faded F r.2 k).
Proof.
  intros Hok Ht. unfold fire_once, recent.
  destruct (bm_get_client F key Hok) as (H1 & H2 & H3 & _ & _ & H6); [lia|].
  destruct (bm_get key F) as [entry F1]. cbn [fst snd] in *. subst entry.
  set (rec := match bm_peek key F with Some s => _ | None => false end).
  destruct rec; cbn [fst snd negb].
  - split_and!; [done|done|lia|]. intros k _. left. apply H3.
  - destruct (bm_insert_client F1 key (mkStamped g now) H2) as (I1 & I2 & I3 & I4); [lia|].
    pose proof (bm_ok_tick _ Hok). destruct (bm_insert_counters F1 key (mkStamped g now)) as (J1 & J2 & J3); [lia..|].
    split_and!; [done|done|lia|]. intros k [Hk|Hk]; [done|]. unfold faded. rewrite <- H3. by apply I3.
Qed.

(** The rules' candidates: none that is fresh is lost, none is made up. *)
Lemma push_all_any (w pid : Z) (g : option Z) (now : Z) (ps : list (string * CorrelationAlert)) (F : fired_map) :
  NoDup ps.*1 -> bm_ok F -> tick F + 2 * Z.of_nat (length ps) <= U64_MAX ->
  let r := push_all w pid g now ps F in
  bm_ok r.2 /\ (forall c, c ∈ ps -> recent w (c.1, pid) g now F = false -> c ∈ r.1) /\ r.1 ⊆ ps.
Proof.
  revert F. induction ps as [|[id a] ps IH]; intros F Hnd Hok Ht; cbn [push_all].
  { split_and!; [done| |done]. by intros c ?%elem_of_nil. }
  rewrite fmap_cons in Hnd. apply NoDup_cons in Hnd as [Hid Hnd]. cbn [fst length] in Hid, Ht.
  destruct (fire_once_any w (id, pid) g now F Hok) as (H1 & H2 & H3 & H4); [lia|].
  destruct (fire_once w (id, pid) g now F) as [fire F1]. cbn [fst snd] in *.
  destruct (IH F1 Hnd H2) as (I1 & I2 & I3); [lia|]. destruct (push_all w pid g now ps F1) as [out F2]. cbn [fst snd] in *.
  split_and!; [done| |].
  - intros c [->|Hc]%elem_of_cons Hr.
    + cbn [fst] in Hr. rewrite Hr in H1. subst fire. apply elem_of_cons. by left.
    + assert (c ∈ out) as Ho.
      { apply I2; [done|]. eapply faded_fresh, Hr. apply H4. right. intros [= E]. apply Hid. rewrite <- E.
        by apply list_elem_of_fmap_2. }
      destruct fire; [apply elem_of_cons; by right|done].
  - destruct fire; intros c Hc; apply elem_of_cons; [apply elem_of_cons in Hc as [->|Hc]; [by left|]|]; right; by apply I3.
Qed.

Definition web_key (c : WebShellCase) : string * Z := ("web_request_shell", ws_pid c).
Definition web_fresh (w : Z) (c : WebShellCase) (F : fired_map) : Prop :=
  recent w (web_key c) (ws_generation c) (ws_timestamp_ns c) F = false.

(** The web-shell cases: a process with a fresh case is reported. *)
Lemma web_shell_cases_any (w : Z) (cases : list WebShellCase) (F : fired_map) :
  bm_ok F -> tick F + 2 * Z.of_nat (length cases) <= U64_MAX ->
  let r := web_shell_cases w cases F in
  bm_ok r.2 /\ tick r.2 <= tick F + 2 * Z.of_nat (length cases) /\
  (forall c, c ∈ cases -> web_fresh w c F -> exists c', c' ∈ cases /\ ws_pid c' = ws_pid c /\ ws_alert c' ∈ r.1) /\
  (forall a, a ∈ r.1 -> exists c, c ∈ cases /\ a = ws_alert c) /\
  (forall k, k.1 <> "web_request_shell" -> faded F r.2 k).
Proof.
  revert F. induction cases as [|c cases IH]; intros F Hok Ht; cbn [web_shell_cases].
  { split_and!; [done|simpl; lia|by intros c ?%elem_of_nil|by intros a ?%elem_of_nil|]. intros k _. by left. }
  cbn [length] in *. destruct (fire_once_any w (web_key c) (ws_generation c) (ws_timestamp_ns c) F Hok) as (H1 & H2 & H3 & H4); [lia|].
  unfold web_key in H1, H2, H3, H4. destruct (fire_once w _ _ _ F) as [fire F1]. cbn [fst snd] in *.
  destruct (IH F1 H2) as (I1 & I2 & I3 & I4 & I5); [lia|]. destruct (web_shell_cases w cases F1) as [out F2]. cbn [fst snd] in *.
  split_and!; [done|lia| | |].
  - intros c1 Hc1 Hf. destruct fire.
    + destruct (decide (ws_pid c = ws_pid c1)) as [E|Hne].
      * exists c. split_and!; [apply elem_of_cons; by left|done|apply elem_of_cons; by left].
      * apply elem_of_cons in Hc1 as [->|Hc1]; [done|]. destruct (I3 c1 Hc1) as (c' & G1 & G2 & G3).
        { eapply faded_fresh, Hf. apply H4. right. unfold web_key. congruence. }
        exists c'. split_and!; [apply elem_of_cons; by right|done|apply elem_of_cons; by right].
    + apply elem_of_cons in Hc1 as [->|Hc1]; [unfold web_fresh, web_key in Hf; by rewrite Hf in H1|].
      destruct (I3 c1 Hc1) as (c' & G1 & G2 & G3); [eapply faded_fresh, Hf; apply H4; by left|].
      exists c'. split_and!; [apply elem_of_cons; by right|done|done].
  - intros a Ha. assert (a ∈ out \/ a = ws_alert c) as [Ho| ->].
    { destruct fire; [apply elem_of_cons in Ha as [->|]|]; auto. }
    + destruct (I4 a Ho) as (c' & G1 & G2). exists c'. split; [apply elem_of_cons; by right|done].
    + exists c. split; [apply elem_of_cons; by left|done].
  - intros k Hk. eapply faded_trans; [|by apply I5]. apply H4. right. intros ->. by apply Hk.
Qed.

(** ** The rules that are due *)

(** A rule matches the process's window on the bus; a rule whose pattern contains
    another's is reported in its place. *)
Inductive due (log2 : f64 -> f64) (pid : Z) (g : option Z) (bus : EventBus) : string -> CorrelationAlert -> Prop :=
| due_spawn_connect_filewrite a :
    rule_spawn_connect_filewrite pid g bus = Some a -> due log2 pid g bus "spawn_connect_filewrite" a
| due_spawn_connect a :
    rule_spawn_connect_filewrite pid g bus = None -> rule_spawn_connect pid g bus = Some a ->
    due log2 pid g bus "spawn_connect" a
| due_connect_filewrite a : rule_connect_filewrite pid g bus = Some a -> due log2 pid g bus "connect_filewrite" a
| due_respawn_connect a : rule_respawn_connect pid g bus = Some a -> due log2 pid g bus "respawn_connect" a
| due_dns_exfil a : rule_dns_exfil log2 pid g bus = Some a -> due log2 pid g bus "dns_exfil" a
| due_assembly_smb a : rule_assembly_smb pid g bus = Some a -> due log2 pid g bus "assembly_smb" a
| due_assembly_connect a :
    rule_assembly_smb pid g bus = None -> rule_assembly_connect pid g bus = Some a -> due log2 pid g bus "assembly_connect" a
| due_exec_smb a :
    rule_assembly_smb pid g bus = None -> rule_exec_smb pid g bus = Some a -> due log2 pid g bus "exec_smb" a.

Lemma candidate_elem id o (c : string * CorrelationAlert) : c ∈ candidate id o <-> exists a, o = Some a /\ c = (id, a).
Proof.
  destruct o as [a|]; cbn [candidate]; [rewrite list_elem_of_singleton|rewrite elem_of_nil]; naive_solver.
Qed.

Lemma due_candidates log2 pid g bus id a : due log2 pid g bus id a <-> (id, a) ∈ candidates log2 pid g bus.
Proof.
  unfold candidates. rewrite !elem_of_app, !candidate_elem. split.
  - destruct 1 as [a H|a H1 H2|a H|a H|a H|a H|a H1 H2|a H1 H2]; rewrite ?H1, ?H, ?elem_of_app, ?candidate_elem; eauto 10;
      [left|do 4 right]; apply list_elem_of_singleton; done.
  - intros H. destruct (rule_spawn_connect_filewrite pid g bus) eqn:E1, (rule_assembly_smb pid g bus) eqn:E2;
      rewrite ?elem_of_app, ?candidate_elem, ?list_elem_of_singleton in H;
      destruct_or?; destruct_and?; simplify_eq; repeat match goal with H : exists _, _ |- _ => destruct H as (? & ? & ?) end;
      simplify_eq; by constructor.
Qed.

(** ** The phases of the handler on the maps *)

Lemma noted_maps event e :
  bm_ok (ce_pid_entities e) -> tick (ce_pid_entities e) + 2 <= U64_MAX ->
  let e' := noted event e in
  bm_ok (ce_pid_entities e') /\ tick (ce_pid_entities e') < U64_MAX /\ ce_fired e' = ce_fired e /\ ce_window_ns e' = ce_window_ns e.
Proof.
  intros Hok Ht. pose proof (bm_ok_tick _ Hok). unfold noted. destruct event; try (split_and!; [done|lia|done..]). unfold note_exec.
  set (e1 := if negb _ then _ else e).
  assert (bm_ok (ce_pid_entities e1) /\ tick (ce_pid_entities e1) < U64_MAX /\ ce_fired e1 = ce_fired e /\ ce_window_ns e1 = ce_window_ns e) as H1.
  { unfold e1. destruct (negb _); [|split_and!; [done|lia|done..]]. cbn [with_entities ce_pid_entities ce_fired ce_window_ns].
    match goal with |- bm_ok (bm_insert ?k ?v ?m) /\ _ =>
      destruct (bm_insert_client m k v Hok) as (I1 & _); [lia|];
      destruct (bm_insert_counters m k v) as (_ & J2 & _); [lia..|] end.
    split_and!; [done|lia|done..]. }
  clearbody e1. by destruct (_ && _).
Qed.

Lemma resolve_entity_maps pid g comm e :
  bm_ok (ce_pid_entities e) -> tick (ce_pid_entities e) < U64_MAX ->
  let e' := (resolve_entity pid g comm e).2 in
  bm_ok (ce_pid_entities e') /\ ce_fired e' = ce_fired e /\ ce_window_ns e' = ce_window_ns e.
Proof.
  intros Hok Ht. unfold resolve_entity. destruct (bm_get_client _ pid Hok Ht) as (_ & H2 & _).
  by destruct (bm_get pid (ce_pid_entities e)).
Qed.

Lemma believed_maps exp ent pid g e e' :
  bm_ok (ce_beliefs e) -> tick (ce_beliefs e) < U64_MAX -> believed exp ent pid g e = Some e' ->
  ce_pid_entities e' = ce_pid_entities e /\ ce_fired e' = ce_fired e /\ ce_window_ns e' = ce_window_ns e.
Proof.
  intros Hok Ht. unfold believed. destruct (behavior_vector_for_pid e pid g) as [bv|]; [|by intros [= <-]].
  destruct (belief_or_insert_spec ent (latest_for_pid e pid g) (update_belief exp bv None (latest_for_pid e pid g)) e Hok Ht)
    as (B & -> & _). by intros [= <-].
Qed.

(** The web-shell rule on its bus. *)
Definition web_reported show_ip (e : CorrelationEngine) (al : list CorrelationAlert) : Prop :=
  forall c, c ∈ rule_web_request_shell show_ip (ce_bus e) -> web_fresh (ce_window_ns e) c (ce_fired e) ->
    exists c', c' ∈ rule_web_request_shell show_ip (ce_bus e) /\ ws_pid c' = ws_pid c /\ ws_alert c' ∈ al.

Lemma web_cases_length show_ip bus : (length (rule_web_request_shell show_ip bus) <= length (bus_events bus))%nat.
Proof.
  unfold rule_web_request_shell. destruct (bool_decide _); [simpl; lia|].
  generalize (omap the_request (bus_events bus)). intros rs. induction (bus_events bus) as [|x l IH]; [done|].
  cbn [omap list_omap length]. destruct (web_shell_case show_ip rs x); cbn [length]; lia.
Qed.

Lemma web_shell_alerts_maps show_ip e n :
  bm_ok (ce_fired e) -> 0 <= n -> tick (ce_fired e) + 2 * (n + Z.of_nat (length (bus_events (ce_bus e)))) <= U64_MAX ->
  let r := web_shell_alerts show_ip e in
  ce_pid_entities r.2 = ce_pid_entities e /\ ce_window_ns r.2 = ce_window_ns e /\
  bm_ok (ce_fired r.2) /\ tick (ce_fired r.2) + 2 * n <= U64_MAX /\
  (forall k, k.1 <> "web_request_shell" -> faded (ce_fired e) (ce_fired r.2) k) /\
  web_reported show_ip e r.1 /\
  (forall a, a ∈ r.1 -> exists c, c ∈ rule_web_request_shell show_ip (ce_bus e) /\ a = ws_alert c).
Proof.
  intros Hok Hn Ht. pose proof (web_cases_length show_ip (ce_bus e)). unfold web_shell_alerts, web_reported.
  destruct (web_shell_cases_any (ce_window_ns e) (rule_web_request_shell show_ip (ce_bus e)) (ce_fired e) Hok) as (H1 & H2 & H3 & H4 & H5); [lia|].
  destruct (web_shell_cases _ _ _) as [al F]. cbn [fst snd with_fired ce_fired ce_pid_entities ce_window_ns] in *.
  split_and!; [done..|lia|done|done|done].
Qed.

(** The event asks for the web-shell rule. *)
Definition web_due (event : Event) : bool :=
  match event with Event_Exec exec => is_web_server_shell exec | Event_HttpRequest _ => true | _ => false end.

Lemma web_checked_maps show_ip event e n :
  is_http_request event = false ->
  bm_ok (ce_fired e) -> 0 <= n -> tick (ce_fired e) + 2 * (n + Z.of_nat (length (bus_events (ce_bus e)))) <= U64_MAX ->
  let r := web_checked show_ip event e in
  ce_pid_entities r.2 = ce_pid_entities e /\ ce_window_ns r.2 = ce_window_ns e /\
  bm_ok (ce_fired r.2) /\ tick (ce_fired r.2) + 2 * n <= U64_MAX /\
  (forall k, k.1 <> "web_request_shell" -> faded (ce_fired e) (ce_fired r.2) k) /\
  (web_due event = true -> web_reported show_ip e r.1) /\
  (forall a, a ∈ r.1 -> exists c, c ∈ rule_web_request_shell show_ip (ce_bus e) /\ a = ws_alert c).
Proof.
  intros Hh Hok Hn Ht. pose proof (web_shell_alerts_maps show_ip e n Hok Hn Ht) as Hw. unfold web_checked, web_due.
  assert (let r := ([] : list CorrelationAlert, e) in
    ce_pid_entities r.2 = ce_pid_entities e /\ ce_window_ns r.2 = ce_window_ns e /\
    bm_ok (ce_fired r.2) /\ tick (ce_fired r.2) + 2 * n <= U64_MAX /\
    (forall k, k.1 <> "web_request_shell" -> faded (ce_fired e) (ce_fired r.2) k) /\
    (false = true -> web_reported show_ip e r.1) /\
    (forall a, a ∈ r.1 -> exists c, c ∈ rule_web_request_shell show_ip (ce_bus e) /\ a = ws_alert c)) as H0.
  { split_and!; [done..|cbn; lia| |done|]; [intros k _; by left|by intros a ?%elem_of_nil]. }
  destruct event; try exact H0; [|done]. destruct (is_web_server_shell _); [|exact H0]. cbn zeta in *. naive_solver.
Qed.

(** The rules and the belief, judged on the engine [e] with the web alerts [web]. *)
Lemma judged_maps exp log2 show_belief pid g comm ent web e :
  bm_ok (ce_fired e) -> tick (ce_fired e) + 12 <= U64_MAX ->
  let r := judged exp log2 show_belief pid g comm ent web e in
  ce_pid_entities r.2 = ce_pid_entities e /\ bm_ok (ce_fired r.2) /\
  (is_ignored comm = false \/ is_masquerading e pid g = true ->
     forall id a, due log2 pid g (ce_bus e) id a ->
       recent (ce_window_ns e) (id, pid) g (latest_for_pid e pid g) (ce_fired e) = false -> a ∈ r.1) /\
  (forall a, a ∈ web -> a ∈ r.1) /\
  (forall a, a ∈ r.1 -> a ∈ web \/ (exists id, due log2 pid g (ce_bus e) id a) \/ ca_technique a = "BAYES").
Proof.
  intros Hok Ht. cbv zeta. unfold judged. destruct (is_ignored comm && negb (is_masquerading e pid g)) eqn:Eskip.
  { apply andb_true_iff in Eskip as [-> Hm%negb_true_iff]. rewrite Hm. split_and!; [done|done|by intros [|]|done|auto]. }
  pose proof (candidates_length log2 pid g (ce_bus e)). unfold evaluate.
  destruct (push_all_any (ce_window_ns e) pid g (latest_for_pid e pid g) _ (ce_fired e) (candidates_nodup log2 pid g (ce_bus e)) Hok)
    as (P1 & P2 & P3); [lia|].
  destruct (push_all _ _ _ _ _ _) as [rules F]. cbn [fst snd] in *.
  assert (forall id a, due log2 pid g (ce_bus e) id a ->
    recent (ce_window_ns e) (id, pid) g (latest_for_pid e pid g) (ce_fired e) = false -> a ∈ rules.*2) as Hdue.
  { intros id a Hd Hr. apply due_candidates in Hd. specialize (P2 _ Hd Hr). by apply (list_elem_of_fmap_2 snd _ (id, a)). }
  assert (forall a, a ∈ rules.*2 -> exists id, due log2 pid g (ce_bus e) id a) as Hsound.
  { intros a ([id a'] & -> & Hin)%list_elem_of_fmap. exists id. apply due_candidates. by apply P3. }
  destruct (_ || _).
  - unfold bayes_alert, belief_mut. destruct (bm_get_mut _ _ _) as [o B]. cbn [fst snd with_beliefs with_fired ce_fired ce_pid_entities].
    match goal with |- context [option_list ?o] => set (b := o) end.
    assert (forall a, a ∈ option_list b -> ca_technique a = "BAYES") as Hb.
    { unfold b. clear. intros a Ha. repeat case_match; cbn [option_list] in Ha;
        first [by apply elem_of_nil in Ha|by apply list_elem_of_singleton in Ha as ->]. }
    split_and!; [done|done| | |].
    + intros _ id a Hd Hr. rewrite !elem_of_app. left. right. by eapply Hdue.
    + intros a Ha. rewrite !elem_of_app. auto.
    + intros a. rewrite !elem_of_app. intros [[?|?]|?]; auto.
  - cbn [fst snd with_fired ce_fired ce_pid_entities]. split_and!; [done|done| | |].
    + intros _ id a Hd Hr. rewrite elem_of_app. right. by eapply Hdue.
    + intros a Ha. rewrite elem_of_app. auto.
    + intros a. rewrite elem_of_app. intros [?|?]; auto.
Qed.

(** The answer [al] to a correlated event, from the engine [e] to [e']: the event is on
    the bus; the alert of every rule that is due on the new bus and fresh is returned,
    unless the name is ignored and not masquerading; a process with a fresh web-shell
    case is reported when the event asks for that rule; a masquerading start is marked;
    and nothing else is returned than alerts of due rules, of web-shell cases and of a
    crossing of the entity's belief. *)
Definition answered log2 show_ip (event : Event) (e e' : CorrelationEngine) (al : list CorrelationAlert) : Prop :=
  let bus := bus_push event (ce_bus e) in
  let pid := meta_pid (Event_meta event) in
  let g := meta_process_generation (Event_meta event) in
  let comm := meta_comm (Event_meta event) in
  ce_bus e' = bus /\
  (web_due event = true ->
     forall c, c ∈ rule_web_request_shell show_ip bus -> web_fresh (ce_window_ns e) c (ce_fired e) ->
       exists c', c' ∈ rule_web_request_shell show_ip bus /\ ws_pid c' = ws_pid c /\ ws_alert c' ∈ al) /\
  (forall exec, event = Event_Exec exec -> is_ignored comm || is_bayes_excluded comm = true ->
     masquerade_gate exec = true -> is_masquerading e' pid g = true) /\
  (is_http_request event = false -> is_ignored comm = false \/ is_masquerading e' pid g = true ->
     forall id a, due log2 pid g bus id a ->
       recent (ce_window_ns e) (id, pid) g (max_ts (events_for_pid pid g bus)) (ce_fired e) = false -> a ∈ al) /\
  (forall a, a ∈ al ->
     (exists id, due log2 pid g bus id a) \/
     (exists c, c ∈ rule_web_request_shell show_ip bus /\ a = ws_alert c) \/
     ca_technique a = "BAYES" /\ belief_crossed (event_entity event e) e e').

Section Answers.
Context (exp : f32 -> f32) (log2 : f64 -> f64) (show_ip : IpAddr -> string) (show_belief : BeliefState -> f32 -> string).
Context (event : Event) (e : CorrelationEngine).
Let bus := bus_push event (ce_bus e).
Context (Hok : engine_ok e) (Hroom : engine_room (6 + Z.of_nat (length (bus_events bus))) e).
Context (Hc : is_correlated event = true).

(** A web request, and an event of a process. *)
Lemma http_answered al e' :
  is_http_request event = true -> on_event exp log2 show_ip show_belief event e = Some (al, e') ->
  bm_ok (ce_pid_entities e') /\ bm_ok (ce_fired e') /\ ce_masquerading e' = ce_masquerading e /\
  answered log2 show_ip event e e' al.
Proof using Hok Hroom Hc.
  intros Hh Ho. destruct Hok as (_ & He & Hf & _), Hroom as (_ & _ & Tf & _).
  unfold on_event in Ho. rewrite Hc, Hh in Ho. cbn [negb] in Ho. injection Ho as Ho.
  destruct (web_shell_alerts_maps show_ip (with_bus bus e) 0 Hf) as (W1 & W2 & W3 & _ & _ & W6 & W7);
    [lia|cbn [with_bus ce_fired ce_bus]; lia|].
  destruct (web_shell_alerts_fields show_ip (with_bus bus e)) as (F1 & F2 & F3).
  fold bus in Ho. rewrite Ho in *. cbn [fst snd with_bus ce_bus ce_pid_entities ce_masquerading] in *.
  split; [by rewrite W1|]. split; [done|]. split; [done|]. unfold answered. cbv zeta. fold bus.
  split; [done|]. split; [intros _; exact W6|]. split; [intros exec ->; done|]. split; [by rewrite Hh|].
  intros a Ha. right. left. by apply W7.
Qed.

Lemma process_answered al e' :
  is_http_request event = false -> on_event exp log2 show_ip show_belief event e = Some (al, e') ->
  (forall a, a ∈ al -> ca_technique a = "BAYES" -> belief_crossed (event_entity event e) e e') ->
  bm_ok (ce_pid_entities e') /\ bm_ok (ce_fired e') /\ (is_exec event = false -> ce_masquerading e' = ce_masquerading e) /\
  answered log2 show_ip event e e' al.
Proof using Hok Hroom Hc.
  intros Eh Ho Hbayes. destruct Hok as (Hb & He & Hf & Hm), Hroom as (Tb & Te & Tf & Tm).
  pose proof (on_event_phases exp log2 show_ip show_belief event e Hc Eh) as Hon. unfold answered. cbv zeta in *. fold bus.
  destruct (noted_fields event e Hm Tm) as (A1 & A2 & A3 & A4 & A5). destruct (noted_maps event e He Te) as (N1 & N2 & N3 & N4).
  cbn zeta in *. set (pid := meta_pid _) in *. set (g := meta_process_generation _) in *. set (comm := meta_comm _) in *.
  clearbody pid g comm. set (e1 := noted event e) in *. clearbody e1. rewrite A1 in Hon. fold bus in Hon.
  destruct (resolve_entity_fields pid g comm (with_bus bus e1)) as (B1 & B2 & B3 & _).
  destruct (resolve_entity_maps pid g comm (with_bus bus e1) N1 N2) as (R1 & R2 & R3).
  destruct (resolve_entity pid g comm _) as [ent e2]. cbn [snd with_bus ce_bus ce_beliefs ce_masquerading ce_fired ce_window_ns] in *.
  destruct (believed_fields exp ent pid g e2) as (e3 & He3 & C1 & C2 & C3 & C4); [by rewrite B2, A2..|].
  destruct (believed_maps exp ent pid g e2 e3) as (M1 & M2 & M3); [by rewrite B2, A2|rewrite B2, A2; lia|done|].
  rewrite Ho, He3 in Hon. cbn [mbind option_bind] in Hon.
  assert (ce_fired e3 = ce_fired e /\ ce_window_ns e3 = ce_window_ns e /\ ce_bus e3 = bus) as (K1 & K2 & K3) by (split_and!; congruence).
  destruct (web_checked_fields show_ip event e3) as (V1 & V2 & V3).
  destruct (web_checked_maps show_ip event e3 6 Eh) as (W1 & W2 & W3 & W4 & W5 & W6 & W7);
    [by rewrite K1|lia|rewrite K1, K3; lia|].
  unfold web_reported in W6. rewrite K1, K2, K3 in *.
  destruct (web_checked show_ip event e3) as [web e4]. cbn [fst snd] in *. injection Hon as Hon.
  destruct (judged_fields exp log2 show_belief pid g comm ent web e4) as (J1 & _ & J3 & _); [by rewrite V2..|].
  destruct (judged_maps exp log2 show_belief pid g comm ent web e4 W3) as (Q1 & Q2 & Q3 & Q4 & Q5); [lia|].
  rewrite <- Hon in *. cbn [fst snd] in *. rewrite V1, ?K3 in *.
  assert (ce_masquerading e' = ce_masquerading e1) as Hmq by congruence.
  split; [rewrite Q1, W1, M1; exact R1|]. split; [done|].
  split; [intros Hx1; rewrite Hmq; by apply A4|]. split; [done|].
  split; [intros Hw c Hc1 Hc2; destruct (W6 Hw c Hc1 Hc2) as (c' & X1 & X2 & X3); exists c'; split_and!; [done|done|by apply Q4]|].
  split; [intros exec E1 E2 E3; unfold is_masquerading; rewrite Hmq; by apply (A5 exec)|].
  split.
  + intros _ Hq id a Hd Hr. apply (Q3 ltac:(unfold is_masquerading in *; by rewrite <- J3) id a Hd).
    rewrite W2. unfold latest_for_pid. rewrite V1. eapply faded_fresh, Hr. apply W5. cbn [fst]. destruct Hd; done.
  + intros a Ha. destruct (Q5 a Ha) as [Hw|[Hd|Et]]; [right; left; by apply W7|by left|right; right; split; [done|by apply (Hbayes a)]].
Qed.
End Answers.


