(* ===== verification/Proto.v ===== *)
(** * Proto: the protobuf reader (src/crates/ml/src/proto.rs)

    A reader is the part of its buffer that is not read yet: [buf[pos..]].  The
    positions the source compares stay below the length of the buffer, so the
    checked additions on [pos] fail exactly when the slice is too short.  [Res]
    keeps apart the two ways a computation can go wrong in Rust, a panic and a
    loop that does not end, from the errors it returns. *)
From stdpp Require Import base gmap strings list.
From Stdlib Require Import ZArith Lia.
From Stdlib Require Import Floats.SpecFloat.
From S2P Require Import Prelude Fs Float.

(** [forest::ParseError]. *)
Inductive ParseError :=
  | Truncated
  | Malformed (what : string)
  | UnsupportedModel (what : string)
  | Inconsistent (what : string).

(** [Spins]: a loop ran out of its fuel. *)
Inductive Res (A : Type) := Got (a : A) | Fails (e : ParseError) | Panics | Spins.
Arguments Got {A} a.
Arguments Fails {A} e.
Arguments Panics {A}.
Arguments Spins {A}.

Definition res_bind {A B : Type} (m : Res A) (k : A -> Res B) : Res B :=
  match m with Got a => k a | Fails e => Fails e | Panics => Panics | Spins => Spins end.
Notation "' p '<-?' m ';' k" := (res_bind m (fun x => let 'p := x in k))
  (at level 20, p pattern, m at level 100, k at level 200, right associativity) : edr_scope.
Notation "x '<-?' m ';' k" := (res_bind m (fun x => k))
  (at level 20, m at level 100, k at level 200, right associativity) : edr_scope.

(** [v[i]]: panics out of range. *)
Definition idx {A : Type} (l : list A) (i : Z) : Res A :=
  match (if 0 <=? i then l !! Z.to_nat i else None) with Some a => Got a | None => Panics end.
(** [v.get(i).ok_or(e)?]. *)
Definition get_or {A : Type} (o : option A) (e : ParseError) : Res A :=
  match o with Some a => Got a | None => Fails e end.

(** ** The reader *)

Inductive Wire := WVarint | WFixed64 | WLen | WFixed32.
#[global] Instance Wire_eq_dec : EqDecision Wire.
Proof. solve_decision. Defined.

Definition byte (r : bytes) : Res (Z * bytes) :=
  match r with [] => Fails Truncated | b :: r => Got (b, r) end.

(** The loop over the shifts 0, 7, .., 63: [n] shifts are left. *)
Fixpoint varint_loop (n : nat) (shift value : Z) (r : bytes) : Res (Z * bytes) :=
  match n with
  | O => Fails (Malformed "varint longer than 10 bytes")
  | S n =>
      '(b, r) <-? byte r;
      let value := Z.lor value (wrap64 (Z.shiftl (Z.land b 127) shift)) in
      if Z.land b 128 =? 0 then Got (value, r) else varint_loop n (shift + 7) value r
  end.
Definition varint (r : bytes) : Res (Z * bytes) := varint_loop 10 0 0 r.

Definition tag (r : bytes) : Res (Z * Wire * bytes) :=
  '(key, r) <-? varint r;
  let w := Z.land key 7 in
  wire <-? (if w =? 0 then Got WVarint else if w =? 1 then Got WFixed64
            else if w =? 2 then Got WLen else if w =? 5 then Got WFixed32
            else Fails (Malformed "unknown wire type"));
  Got (Z.shiftr key 3, wire, r).

(** [buf.get(pos..pos + len)], and the reader after it. *)
Definition take_bytes (len : Z) (r : bytes) : Res (bytes * bytes) :=
  if Z.of_nat (length r) <? len then Fails Truncated
  else Got (take (Z.to_nat len) r, drop (Z.to_nat len) r).

Definition read_bytes (r : bytes) : Res (bytes * bytes) :=
  '(len, r) <-? varint r; take_bytes len r.

Definition skip (wire : Wire) (r : bytes) : Res bytes :=
  match wire with
  | WVarint => '(_, r) <-? varint r; Got r
  | WFixed64 => '(_, r) <-? take_bytes 8 r; Got r
  | WLen => '(_, r) <-? read_bytes r; Got r
  | WFixed32 => '(_, r) <-? take_bytes 4 r; Got r
  end.

(** [x as i64] for a [u64]. *)
Definition as_i64 (x : Z) : Z := if x <? 9223372036854775808 then x else x - 18446744073709551616.

(** [while !inner.done() { out.push(inner.varint()? as i64) }]. *)
Fixpoint varints (fuel : nat) (out : list Z) (r : bytes) : Res (list Z) :=
  match r with
  | [] => Got out
  | _ => match fuel with
         | O => Spins
         | S fuel => '(v, r) <-? varint r; varints fuel (out ++ [as_i64 v]) r
         end
  end.

Definition read_i64s (out : list Z) (r : bytes) (wire : Wire) : Res (list Z * bytes) :=
  match wire with
  | WLen => '(payload, r) <-? read_bytes r; out <-? varints (length payload) out payload; Got (out, r)
  | WVarint => '(v, r) <-? varint r; Got (out ++ [as_i64 v], r)
  | _ => Fails (Malformed "int64 field with non-varint wire type")
  end.

(** Little-endian bytes as an unsigned integer; [f32::from_bits]. *)
Fixpoint le_bytes (b : bytes) : Z := match b with [] => 0 | x :: b => x + 256 * le_bytes b end.
Definition f32_from_bits (bits : Z) : f32 :=
  let s := Z.testbit bits 31 in
  let e := Z.land (Z.shiftr bits 23) 255 in
  let m := Z.land bits 8388607 in
  if e =? 255 then (if m =? 0 then S754_infinity s else S754_nan)
  else if e =? 0 then match m with Zpos p => S754_finite s p (-149) | _ => S754_zero s end
  else match m + 8388608 with Zpos p => S754_finite s p (e - 150) | _ => S754_zero s end.
Definition f32_from_le_bytes (b : bytes) : f32 := f32_from_bits (le_bytes b).
Definition i64_from_le_bytes (b : bytes) : Z := as_i64 (le_bytes b).

(** [chunks_exact(n)]: the whole chunks; an incomplete tail is dropped. *)
Fixpoint chunks_exact (n count : nat) (b : bytes) : list bytes :=
  match count with O => [] | S count => take n b :: chunks_exact n count (drop n b) end.
Definition chunks (n : nat) (b : bytes) : list bytes := chunks_exact n (length b / n) b.

Definition read_f32s (out : list f32) (r : bytes) (wire : Wire) : Res (list f32 * bytes) :=
  match wire with
  | WLen =>
      '(payload, r) <-? read_bytes r;
      if negb (Nat.eqb (length payload mod 4) 0)
      then Fails (Malformed "packed float payload not 4-aligned")
      else Got (out ++ (f32_from_le_bytes <$> chunks 4 payload), r)
  | WFixed32 => '(b, r) <-? take_bytes 4 r; Got (out ++ [f32_from_le_bytes b], r)
  | _ => Fails (Malformed "float field with non-fixed32 wire type")
  end.

(** [while !reader.done() { let (field, wire) = reader.tag()?; .. }], the loop of
    every message: [step] reads one field into the state. *)
Fixpoint fields_loop {S : Type} (step : S -> Z -> Wire -> bytes -> Res (S * bytes)) (fuel : nat)
    (s : S) (r : bytes) : Res S :=
  match r with
  | [] => Got s
  | _ => match fuel with
         | O => Spins
         | Datatypes.S fuel =>
             '(field, wire, r) <-? tag r;
             '(s, r) <-? step s field wire r;
             fields_loop step fuel s r
         end
  end.
Definition read_fields {S : Type} (step : S -> Z -> Wire -> bytes -> Res (S * bytes)) (s : S) (r : bytes)
    : Res S := fields_loop step (length r) s r.

(** [_ => reader.skip(wire)?] with an unchanged state. *)
Definition skip_field {S : Type} (s : S) (wire : Wire) (r : bytes) : Res (S * bytes) :=
  r <-? skip wire r; Got (s, r).

(** ** Reading is safe

    [safe P c]: [c] neither panics nor spins, and what it returns satisfies [P]. *)
Definition safe {A : Type} (P : A -> Prop) (c : Res A) : Prop :=
  match c with Got a => P a | Fails _ => True | Panics | Spins => False end.

Lemma safe_bind {A B : Type} (P : A -> Prop) (Q : B -> Prop) (c : Res A) (k : A -> Res B) :
  safe P c -> (forall a, P a -> safe Q (k a)) -> safe Q (res_bind c k).
Proof. destruct c; simpl; auto. Qed.

Lemma safe_weaken {A : Type} (P Q : A -> Prop) (c : Res A) :
  safe P c -> (forall a, P a -> Q a) -> safe Q c.
Proof. destruct c; simpl; auto. Qed.

Lemma safe_get_or {A : Type} (P : A -> Prop) o e : (forall a, o = Some a -> P a) -> safe P (get_or o e).
Proof. destruct o; simpl; auto. Qed.

Lemma safe_idx {A : Type} (l : list A) i (P : A -> Prop) :
  0 <= i < Z.of_nat (length l) -> (forall a, l !! Z.to_nat i = Some a -> P a) -> safe P (idx l i).
Proof.
  intros Hi HP. unfold idx. destruct (Z.leb_spec 0 i); [|lia].
  destruct (l !! Z.to_nat i) as [a|] eqn:E; simpl; [auto|]. apply lookup_ge_None in E. lia.
Qed.

Lemma varint_loop_safe n shift value r :
  safe (fun vr => (length vr.2 < length r)%nat) (varint_loop n shift value r).
Proof.
  revert shift value r. induction n as [|n IH]; intros shift value r; simpl; [done|].
  destruct r as [|b r]; simpl; [done|]. destruct (Z.land b 128 =? 0); simpl; [lia|].
  eapply safe_weaken; [apply IH|]. simpl. lia.
Qed.

Lemma varint_safe r : safe (fun vr => (length vr.2 < length r)%nat) (varint r).
Proof. apply varint_loop_safe. Qed.

Lemma tag_safe r : safe (fun vr => (length vr.2 < length r)%nat) (tag r).
Proof.
  eapply safe_bind; [apply varint_safe|]. intros [key r'] H. simpl in H.
  cbv zeta. by repeat match goal with |- context [if ?b then _ else _] => destruct b end.
Qed.

Lemma take_bytes_safe len r :
  safe (fun br => (length br.1 + length br.2 <= length r)%nat) (take_bytes len r).
Proof.
  unfold take_bytes. destruct (Z.ltb_spec (Z.of_nat (length r)) len); simpl; [done|].
  rewrite length_take, length_drop. lia.
Qed.

Lemma read_bytes_safe r : safe (fun br => (length br.1 + length br.2 < length r)%nat) (read_bytes r).
Proof.
  eapply safe_bind; [apply varint_safe|]. intros [len r'] H. simpl in H.
  eapply safe_weaken; [apply take_bytes_safe|]. simpl. lia.
Qed.

Lemma skip_safe wire r : safe (fun r' => (length r' <= length r)%nat) (skip wire r).
Proof.
  destruct wire; (eapply safe_bind; [first [apply varint_safe|apply read_bytes_safe|apply take_bytes_safe]|]);
    intros [? ?] H; simpl in *; lia.
Qed.

Lemma varints_safe fuel out r :
  (length r <= fuel)%nat ->
  safe (fun out' => (length out' <= length out + length r)%nat) (varints fuel out r).
Proof.
  revert out r. induction fuel as [|fuel IH]; intros out [|b r] Hf; cbn [varints]; try (simpl in *; lia).
  eapply safe_bind; [apply varint_safe|]. intros [v r'] H. simpl in H, Hf.
  eapply safe_weaken; [apply IH; lia|]. intros out' Ho. rewrite length_app in Ho. simpl in *. lia.
Qed.

Lemma read_i64s_safe out r wire :
  safe (fun or => (length or.2 <= length r)%nat /\
                  (length or.1 + length or.2 <= length out + length r)%nat) (read_i64s out r wire).
Proof.
  destruct wire; simpl; try done.
  - eapply safe_bind; [apply varint_safe|]. intros [v r'] H. simpl in *. rewrite length_app. simpl. lia.
  - eapply safe_bind; [apply read_bytes_safe|]. intros [p r'] H. simpl in H.
    eapply safe_bind; [by apply varints_safe|]. intros out' Ho. simpl in *. lia.
Qed.

Lemma read_f32s_safe out r wire : safe (fun or => (length or.2 <= length r)%nat) (read_f32s out r wire).
Proof.
  destruct wire; simpl; try done.
  - eapply safe_bind; [apply read_bytes_safe|]. intros [p r'] H. simpl in *.
    destruct (negb _); simpl; [done|lia].
  - eapply safe_bind; [apply take_bytes_safe|]. intros [b r'] H. simpl in *. lia.
Qed.

(** The message loop ends, and keeps an invariant of the state and of the bytes
    left that every field keeps. *)
Lemma fields_loop_safe {S : Type} step (I : S -> nat -> Prop) fuel s r :
  (forall s n n', I s n -> (n' <= n)%nat -> I s n') ->
  (forall s field wire r, I s (length r) ->
     safe (fun sr => (length sr.2 <= length r)%nat /\ I sr.1 (length sr.2)) (step s field wire r)) ->
  (length r <= fuel)%nat -> I s (length r) -> safe (fun s => I s 0%nat) (fields_loop step fuel s r).
Proof.
  intros Hmono Hstep. revert s r. induction fuel as [|fuel IH]; intros s [|b r] Hf HI; cbn [fields_loop];
    try done; [simpl in Hf; lia|].
  eapply safe_bind; [apply tag_safe|]. intros [[field wire] r'] H. simpl in H, Hf.
  eapply safe_bind; [apply Hstep; eapply Hmono; [exact HI|simpl; lia]|]. intros [s' r''] [Hl HI']. simpl in *.
  apply IH; [lia|done].
Qed.

Lemma read_fields_safe {S : Type} step (I : S -> nat -> Prop) s r :
  (forall s n n', I s n -> (n' <= n)%nat -> I s n') ->
  (forall s field wire r, I s (length r) ->
     safe (fun sr => (length sr.2 <= length r)%nat /\ I sr.1 (length sr.2)) (step s field wire r)) ->
  I s (length r) -> safe (fun s => I s 0%nat) (read_fields step s r).
Proof. intros Hm Hs HI. by apply fields_loop_safe. Qed.
