(* ===== verification/Forest.v ===== *)
(** * Forest: the tree ensemble of an ONNX model
    (src/crates/ml/src/forest/onnx.rs, mod.rs)

    [from_onnx_bytes] reads the trees out of a model file, checks their structure
    and computes every node's expected depth; [attribute] walks the trees for one
    input.  The model file arrives over the update channel: the theorems quantify
    over all byte strings.  [ln] is the platform's [f64::ln]. *)
From stdpp Require Import base gmap strings list sorting.
From Stdlib Require Import ZArith Lia Ascii.
From Stdlib Require Import Floats.SpecFloat.
From Stdlib Require String.
From S2P Require Import Prelude Str Fs Float Proto.

(** A byte-string literal. *)
Fixpoint lit (s : string) : bytes :=
  match s with EmptyString => [] | String a s => Z.of_nat (nat_of_ascii a) :: lit s end.
Definition bytes_eqb (a b : bytes) : bool := bool_decide (a = b).

(** ** The graph (onnx.rs) *)

Record GraphNode := mkGraphNode {
  op_type : bytes; inputs : list bytes; outputs : list bytes; attributes : list bytes }.

Record ParsedGraph := mkParsedGraph {
  tree_nodes : list GraphNode;
  other_nodes : list GraphNode;
  int_initializers : list (bytes * list Z);
  input_names : list bytes }.

Definition producer_of (g : ParsedGraph) (name : bytes) : option GraphNode :=
  List.find (fun n => bool_decide (head (outputs n) = Some name)) (other_nodes g).
Definition consumers_of (g : ParsedGraph) (name : bytes) : list GraphNode :=
  List.filter (fun n => existsb (bytes_eqb name) (inputs n)) (other_nodes g).

Definition find_graph (model : bytes) : Res bytes :=
  graph <-? read_fields (fun graph field wire r =>
      if (field =? 7) && bool_decide (wire = WLen)
      then '(b, r) <-? read_bytes r; Got (Some b, r)
      else skip_field graph wire r) None model;
  get_or graph (Malformed "model has no graph").

Definition parse_node (node : bytes) : Res GraphNode :=
  read_fields (fun p field wire r =>
    match wire with
    | WLen =>
        if field =? 1 then '(b, r) <-? read_bytes r; Got (mkGraphNode (op_type p) (inputs p ++ [b]) (outputs p) (attributes p), r)
        else if field =? 2 then '(b, r) <-? read_bytes r; Got (mkGraphNode (op_type p) (inputs p) (outputs p ++ [b]) (attributes p), r)
        else if field =? 4 then '(b, r) <-? read_bytes r; Got (mkGraphNode b (inputs p) (outputs p) (attributes p), r)
        else if field =? 5 then '(b, r) <-? read_bytes r; Got (mkGraphNode (op_type p) (inputs p) (outputs p) (attributes p ++ [b]), r)
        else skip_field p wire r
    | _ => skip_field p wire r
    end) (mkGraphNode [] [] [] []) node.

Record Tensor := mkTensor { tn_name : bytes; tn_type : Z; tn_values : list Z; tn_raw : option bytes }.

Definition INT64 : Z := 7.
Definition parse_int64_initializer (tensor : bytes) : Res (option (bytes * list Z)) :=
  t <-? read_fields (fun t field wire r =>
      if (field =? 2) && bool_decide (wire = WVarint)
      then '(v, r) <-? varint r; Got (mkTensor (tn_name t) v (tn_values t) (tn_raw t), r)
      else if field =? 7
      then '(vs, r) <-? read_i64s (tn_values t) r wire; Got (mkTensor (tn_name t) (tn_type t) vs (tn_raw t), r)
      else if (field =? 8) && bool_decide (wire = WLen)
      then '(b, r) <-? read_bytes r; Got (mkTensor b (tn_type t) (tn_values t) (tn_raw t), r)
      else if (field =? 9) && bool_decide (wire = WLen)
      then '(b, r) <-? read_bytes r; Got (mkTensor (tn_name t) (tn_type t) (tn_values t) (Some b), r)
      else skip_field t wire r) (mkTensor [] 0 [] None) tensor;
  if negb (tn_type t =? INT64) then Got None
  else match tn_values t, tn_raw t with
       | [], Some raw =>
           if negb (Nat.eqb (length raw mod 8) 0) then Fails (Malformed "INT64 raw_data not 8-aligned")
           else Got (Some (tn_name t, i64_from_le_bytes <$> chunks 8 raw))
       | values, _ => Got (Some (tn_name t, values))
       end.

Definition push_name (names : list bytes) (value_info : bytes) : Res (list bytes) :=
  read_fields (fun names field wire r =>
    if (field =? 1) && bool_decide (wire = WLen)
    then '(b, r) <-? read_bytes r; Got (names ++ [b], r)
    else skip_field names wire r) names value_info.

Definition parse_graph (graph : bytes) : Res ParsedGraph :=
  read_fields (fun p field wire r =>
    match wire with
    | WLen =>
        if field =? 1 then
          '(b, r) <-? read_bytes r;
          node <-? parse_node b;
          Got (if bytes_eqb (op_type node) (lit "TreeEnsembleRegressor")
               then mkParsedGraph (tree_nodes p ++ [node]) (other_nodes p) (int_initializers p) (input_names p)
               else mkParsedGraph (tree_nodes p) (other_nodes p ++ [node]) (int_initializers p) (input_names p), r)
        else if field =? 5 then
          '(b, r) <-? read_bytes r;
          entry <-? parse_int64_initializer b;
          Got (match entry with
               | Some e => mkParsedGraph (tree_nodes p) (other_nodes p) (int_initializers p ++ [e]) (input_names p)
               | None => p
               end, r)
        else if field =? 11 then
          '(b, r) <-? read_bytes r;
          names <-? push_name (input_names p) b;
          Got (mkParsedGraph (tree_nodes p) (other_nodes p) (int_initializers p) names, r)
        else skip_field p wire r
    | _ => skip_field p wire r
    end) (mkParsedGraph [] [] [] []) graph.

Definition resolve_column_mapping (ensemble : GraphNode) (graph : ParsedGraph) : Res (option (list Z)) :=
  source <-? get_or (head (inputs ensemble)) (Malformed "tree node with no input");
  if existsb (bytes_eqb source) (input_names graph) then Got None
  else
    producer <-? get_or (producer_of graph source) (UnsupportedModel "tree input produced by no known node");
    if negb (bytes_eqb (op_type producer) (lit "Gather"))
    then Fails (UnsupportedModel "tree input produced by a node other than Gather")
    else
      indices_name <-? get_or (inputs producer !! 1%nat) (Malformed "Gather with no indices input");
      entry <-? get_or (List.find (fun e => bytes_eqb e.1 indices_name) (int_initializers graph))
                  (UnsupportedModel "Gather indices are not an initializer");
      Got (Some entry.2).

(** ** Attributes *)

Record Attribute := mkAttribute {
  at_name : bytes; at_ints : list Z; at_floats : list f32; at_strings : list bytes }.

Definition parse_attribute (raw : bytes) : Res Attribute :=
  read_fields (fun a field wire r =>
    if (field =? 1) && bool_decide (wire = WLen)
    then '(b, r) <-? read_bytes r; Got (mkAttribute b (at_ints a) (at_floats a) (at_strings a), r)
    else if field =? 7
    then '(fs, r) <-? read_f32s (at_floats a) r wire; Got (mkAttribute (at_name a) (at_ints a) fs (at_strings a), r)
    else if field =? 8
    then '(is_, r) <-? read_i64s (at_ints a) r wire; Got (mkAttribute (at_name a) is_ (at_floats a) (at_strings a), r)
    else if (field =? 9) && bool_decide (wire = WLen)
    then '(b, r) <-? read_bytes r; Got (mkAttribute (at_name a) (at_ints a) (at_floats a) (at_strings a ++ [b]), r)
    else skip_field a wire r) (mkAttribute [] [] [] []) raw.

Record LeafEncoder := mkLeafEncoder { le_keys : list Z; le_values : list f32 }.

(** [for x in xs { acc = f(acc, x)?; }]. *)
Fixpoint fold_res {A B : Type} (f : A -> B -> Res A) (a : A) (xs : list B) : Res A :=
  match xs with [] => Got a | x :: xs => a <-? f a x; fold_res f a xs end.

(** The attributes of one [LabelEncoder] node. *)
Definition read_encoder (enc : GraphNode) : Res LeafEncoder :=
  e <-? fold_res (fun e raw =>
      a <-? parse_attribute raw;
      Got (if bytes_eqb (at_name a) (lit "keys_int64s") then mkLeafEncoder (at_ints a) (le_values e)
           else if bytes_eqb (at_name a) (lit "values_floats") then mkLeafEncoder (le_keys e) (at_floats a)
           else e)) (mkLeafEncoder [] []) (attributes enc);
  if negb (Nat.eqb (length (le_keys e)) (length (le_values e)))
  then Fails (Inconsistent "LabelEncoder key/value length mismatch") else Got e.

Definition leaf_encoders (ensemble : GraphNode) (graph : ParsedGraph) : Res (list LeafEncoder) :=
  match head (outputs ensemble) with
  | None => Got []
  | Some output =>
      fold_res (fun encoders cast =>
        if negb (bytes_eqb (op_type cast) (lit "Cast")) then Got encoders
        else match head (outputs cast) with
             | None => Got encoders
             | Some cast_out =>
                 fold_res (fun encoders enc =>
                   if negb (bytes_eqb (op_type enc) (lit "LabelEncoder")) then Got encoders
                   else e <-? read_encoder enc; Got (encoders ++ [e])) encoders (consumers_of graph cast_out)
             end) [] (consumers_of graph output)
  end.

(** ** Tree construction *)

Record TreeAttrs := mkTreeAttrs {
  tree_ids : list Z; node_ids : list Z; feature_ids : list Z; values : list f32;
  modes : list bytes; true_ids : list Z; false_ids : list Z; missing_tracks_true : list Z }.

Definition parse_tree_attrs (ensemble : GraphNode) : Res TreeAttrs :=
  fold_res (fun t raw =>
    a <-? parse_attribute raw;
    let named n := bytes_eqb (at_name a) (lit n) in
    Got (if named "nodes_treeids"%string
         then mkTreeAttrs (at_ints a) (node_ids t) (feature_ids t) (values t) (modes t) (true_ids t) (false_ids t) (missing_tracks_true t)
         else if named "nodes_nodeids"%string
         then mkTreeAttrs (tree_ids t) (at_ints a) (feature_ids t) (values t) (modes t) (true_ids t) (false_ids t) (missing_tracks_true t)
         else if named "nodes_featureids"%string
         then mkTreeAttrs (tree_ids t) (node_ids t) (at_ints a) (values t) (modes t) (true_ids t) (false_ids t) (missing_tracks_true t)
         else if named "nodes_values"%string
         then mkTreeAttrs (tree_ids t) (node_ids t) (feature_ids t) (at_floats a) (modes t) (true_ids t) (false_ids t) (missing_tracks_true t)
         else if named "nodes_modes"%string
         then mkTreeAttrs (tree_ids t) (node_ids t) (feature_ids t) (values t) (at_strings a) (true_ids t) (false_ids t) (missing_tracks_true t)
         else if named "nodes_truenodeids"%string
         then mkTreeAttrs (tree_ids t) (node_ids t) (feature_ids t) (values t) (modes t) (at_ints a) (false_ids t) (missing_tracks_true t)
         else if named "nodes_falsenodeids"%string
         then mkTreeAttrs (tree_ids t) (node_ids t) (feature_ids t) (values t) (modes t) (true_ids t) (at_ints a) (missing_tracks_true t)
         else if named "nodes_missing_value_tracks_true"%string
         then mkTreeAttrs (tree_ids t) (node_ids t) (feature_ids t) (values t) (modes t) (true_ids t) (false_ids t) (at_ints a)
         else t)) (mkTreeAttrs [] [] [] [] [] [] [] []) (attributes ensemble).

Definition validate_tree_attrs (a : TreeAttrs) : Res nat :=
  let n := length (node_ids a) in
  if Nat.eqb n 0 then Fails (Inconsistent "tree node with no tree nodes")
  else if existsb (fun len => negb (Nat.eqb len n))
            [length (tree_ids a); length (feature_ids a); length (values a); length (modes a);
             length (true_ids a); length (false_ids a)]
  then Fails (Inconsistent "node attribute arrays disagree in length")
  else if existsb (fun v => negb (v =? 0)) (missing_tracks_true a)
  then Fails (UnsupportedModel "missing_value_tracks_true is set")
  else Got n.

(** ** Trees (mod.rs) *)

Inductive NodeKind := Branch (feature : Z) (threshold : f32) (true_child false_child : Z) | Leaf.
Record TreeNode := mkTreeNode { tn_kind : NodeKind; tn_expected : f64 }.
Record Tree := mkTree { tree_node_list : list TreeNode }.
Record Forest := mkForest { trees : list Tree; n_features : Z }.

Definition child (id : Z) (count : nat) : Res Z :=
  if (0 <=? id) && (id <=? U32_MAX) && (id <? Z.of_nat count) then Got id
  else Fails (Inconsistent "child id outside the tree").

(** The node's kind, and the widened feature space. *)
Definition node_kind (a : TreeAttrs) (i : Z) (mapping : option (list Z)) (count : nat) (nf : Z)
    : Res (NodeKind * Z) :=
  mode <-? idx (modes a) i;
  if bytes_eqb mode (lit "LEAF") then Got (Leaf, nf)
  else if bytes_eqb mode (lit "BRANCH_LEQ") then
    raw_feature <-? idx (feature_ids a) i;
    column <-? match mapping with
               | Some map =>
                   get_or (if 0 <=? raw_feature then map !! Z.to_nat raw_feature else None)
                     (Inconsistent "feature id outside Gather mapping")
               | None => Got raw_feature
               end;
    if column <? 0 then Fails (Inconsistent "negative feature column")
    else
      let nf := Z.max nf (column + 1) in
      threshold <-? idx (values a) i;
      t_id <-? idx (true_ids a) i;
      t <-? child t_id count;
      f_id <-? idx (false_ids a) i;
      f <-? child f_id count;
      Got (Branch column threshold t f, nf)
  else Fails (UnsupportedModel "branch mode other than BRANCH_LEQ").

Definition u32_MAX : Z := U32_MAX.

(** One child of the walk: refuse it when it has a depth, else give it one and
    push it. *)
Definition visit_child (d : Z) (depth : list Z) (stack : list Z) (c : Z) : Res (list Z * list Z) :=
  dc <-? idx depth c;
  if negb (dc =? u32_MAX) then Fails (Inconsistent "node reachable twice (cycle)")
  else if u32_MAX <? d + 1 then Panics
  else Got (<[Z.to_nat c := d + 1]> depth, c :: stack).

(** [while let Some(current) = stack.pop()]; the top of the stack first. *)
Fixpoint walk_loop (nodes : list TreeNode) (fuel : nat) (depth : list Z) (order stack : list Z)
    : Res (list Z * list Z) :=
  match stack with
  | [] => Got (depth, order)
  | current :: stack =>
      match fuel with
      | O => Spins
      | S fuel =>
          let order := order ++ [current] in
          node <-? idx nodes current;
          match tn_kind node with
          | Leaf => walk_loop nodes fuel depth order stack
          | Branch _ _ t f =>
              d <-? idx depth current;
              '(depth, stack) <-? visit_child d depth stack t;
              '(depth, stack) <-? visit_child d depth stack f;
              walk_loop nodes fuel depth order stack
          end
      end
  end.

Definition walk_structure (nodes : list TreeNode) : Res (list Z * list Z) :=
  let count := length nodes in
  match count with
  | O => Panics
  | S _ =>
      '(depth, order) <-? walk_loop nodes count (<[0%nat := 0]> (replicate count u32_MAX)) [] [0];
      if negb (Nat.eqb (length order) count) then Fails (Inconsistent "unreachable nodes in tree")
      else Got (depth, order)
  end.

(** [f64::from(f32)], [v.fract() != 0.0], [f64::NAN]. *)
Definition f64_of_f32 (x : f32) : f64 :=
  match x with
  | S754_finite s m e => binary_normalize 53 1024 (if s then Z.neg m else Z.pos m) e s
  | S754_zero s => S754_zero s
  | S754_infinity s => S754_infinity s
  | S754_nan => S754_nan
  end.
Definition fract_nonzero (x : f32) : bool :=
  match x with
  | S754_zero _ => false
  | S754_finite _ m e => if 0 <=? e then false else negb (Z.pos m mod 2 ^ (- e) =? 0)
  | _ => true
  end.

Definition is_leaf (n : TreeNode) : bool := match tn_kind n with Leaf => true | _ => false end.

Definition is_path_length (depth : list Z) (enc : LeafEncoder) : bool :=
  forallb (fun kv : Z * f32 =>
    match (if 0 <=? kv.1 then depth !! Z.to_nat kv.1 else None) with
    | Some d => SFeqb kv.2 (f32_of_Z (d + 1))
    | None => false
    end) (combine (le_keys enc) (le_values enc)).

Definition pick_sample_counts (nodes : list TreeNode) (depth : list Z) (encoders : list LeafEncoder)
    : Res (option (list f64)) :=
  match encoders with
  | [] => Got None
  | _ =>
      match List.filter (fun e => negb (is_path_length depth e)) encoders with
      | [counts_encoder] =>
          counts <-? fold_res (fun counts (kv : Z * f32) =>
              if negb ((0 <=? kv.1) && (kv.1 <? Z.of_nat (length nodes)))
              then Fails (Inconsistent "leaf encoder key outside the tree")
              else
                node <-? idx nodes kv.1;
                if negb (is_leaf node) then Fails (Inconsistent "leaf encoder key is not a leaf")
                else if f_lt kv.2 (f32_of_Z 1) || fract_nonzero kv.2
                then Fails (Inconsistent "sample count is not a positive integer")
                else Got (<[Z.to_nat kv.1 := f64_of_f32 kv.2]> counts))
            (replicate (length nodes) S754_nan) (combine (le_keys counts_encoder) (le_values counts_encoder));
          if existsb (fun nc : TreeNode * f64 => is_leaf nc.1 && f_is_nan nc.2) (combine nodes counts)
          then Fails (Inconsistent "leaf without a sample count")
          else Got (Some counts)
      | _ => Fails (Inconsistent "cannot identify the sample-count leaf encoder")
      end
  end.

Section Expectations.
Variable ln : f64 -> f64.

Definition EULER_GAMMA : f64 := f64_lit 5772156649015329 10000000000000000.
Definition average_path_length (n : f64) : f64 :=
  let one := f64_of_Z 1 in
  let two := f64_of_Z 2 in
  if f_le n one then S754_zero false
  else if SFeqb n two then one
  else f64_sub (f64_mul two (f64_add (ln (f64_sub n one)) EULER_GAMMA))
               (f64_div (f64_mul two (f64_sub n one)) n).

Definition set_expected (nodes : list TreeNode) (i : Z) (e : f64) : Res (list TreeNode) :=
  n <-? idx nodes i; Got (<[Z.to_nat i := mkTreeNode (tn_kind n) e]> nodes).

(** One node of the loop: the weights so far and the nodes so far. *)
Definition expect_node (depth : list Z) (counts : option (list f64)) (s : list f64 * list TreeNode) (i : Z)
    : Res (list f64 * list TreeNode) :=
  let '(weight, nodes) := s in
  node <-? idx nodes i;
  match tn_kind node with
  | Leaf =>
      n <-? match counts with Some c => idx c i | None => Got (f64_of_Z 1) end;
      d <-? idx depth i;
      let e := f64_add (f64_of_Z d) (match counts with Some _ => average_path_length n | None => S754_zero false end) in
      nodes <-? set_expected nodes i e;
      Got (<[Z.to_nat i := n]> weight, nodes)
  | Branch _ _ t f =>
      wt <-? idx weight t;
      wf <-? idx weight f;
      nt <-? idx nodes t;
      nf <-? idx nodes f;
      let w := f64_add wt wf in
      let e := f64_div (f64_add (f64_mul wt (tn_expected nt)) (f64_mul wf (tn_expected nf))) w in
      nodes <-? set_expected nodes i e;
      Got (<[Z.to_nat i := w]> weight, nodes)
  end.

Definition compute_expectations (nodes : list TreeNode) (depth parent_first : list Z) (counts : option (list f64))
    : Res (list TreeNode) :=
  '(_, nodes) <-? fold_res (expect_node depth counts) (replicate (length nodes) (S754_zero false), nodes)
                   (rev parent_first);
  Got nodes.

(** The nodes of the rows [rows] of the attribute arrays, each put in its slot. *)
Definition place_node (a : TreeAttrs) (mapping : option (list Z)) (count : nat)
    (s : list (option TreeNode) * Z) (i : Z) : Res (list (option TreeNode) * Z) :=
  let '(nodes, nf) := s in
  node_id <-? idx (node_ids a) i;
  if node_id <? 0 then Fails (Inconsistent "negative node id")
  else if Z.of_nat count <=? node_id then Fails (Inconsistent "node id outside the tree")
  else
    '(kind, nf) <-? node_kind a i mapping count nf;
    slot <-? idx nodes node_id;
    match slot with
    | Some _ => Fails (Inconsistent "duplicate node id")
    | None => Got (<[Z.to_nat node_id := Some (mkTreeNode kind (S754_zero false))]> nodes, nf)
    end.

(** [collect::<Option<_>>()]. *)
Fixpoint collect_option {A : Type} (l : list (option A)) : option (list A) :=
  match l with
  | [] => Some []
  | None :: _ => None
  | Some a :: l => cons a <$> collect_option l
  end.

Definition build_one_tree (a : TreeAttrs) (start end_ : nat) (mapping : option (list Z))
    (encoders : list LeafEncoder) (nf : Z) : Res (Tree * Z) :=
  let count := (end_ - start)%nat in
  '(slots, nf) <-? fold_res (place_node a mapping count) (replicate count None, nf)
                     (Z.of_nat <$> seq start count);
  nodes <-? get_or (collect_option slots) (Inconsistent "node ids are not dense");
  '(depth, order) <-? walk_structure nodes;
  counts <-? pick_sample_counts nodes depth encoders;
  nodes <-? compute_expectations nodes depth order counts;
  Got (mkTree nodes, nf).

(** The end of the run of equal tree ids that starts at the head of [ids]. *)
Fixpoint run_length (id : Z) (ids : list Z) : nat :=
  match ids with x :: ids => if x =? id then S (run_length id ids) else O | [] => O end.

(** [while start < n]. *)
Fixpoint build_loop (a : TreeAttrs) (n : nat) (mapping : option (list Z)) (encoders : list LeafEncoder)
    (fuel start : nat) (ts : list Tree) (nf : Z) : Res (list Tree * Z) :=
  if (n <=? start)%nat then Got (ts, nf)
  else match fuel with
       | O => Spins
       | S fuel =>
           tree_id <-? idx (tree_ids a) (Z.of_nat start);
           let end_ := (start + run_length tree_id (take (n - start) (drop start (tree_ids a))))%nat in
           '(t, nf) <-? build_one_tree a start end_ mapping encoders nf;
           build_loop a n mapping encoders fuel end_ (ts ++ [t]) nf
       end.

Definition build_trees (ensemble : GraphNode) (mapping : option (list Z)) (encoders : list LeafEncoder)
    (ts : list Tree) (nf : Z) : Res (list Tree * Z) :=
  a <-? parse_tree_attrs ensemble;
  n <-? validate_tree_attrs a;
  let nf := match mapping with Some map => Z.max nf (Z.of_nat (length map)) | None => nf end in
  id0 <-? idx (tree_ids a) 0;
  let multi_tree := existsb (fun t => negb (t =? id0)) (tree_ids a) in
  let encoders := if multi_tree then [] else encoders in
  build_loop a n mapping encoders n 0 ts nf.

Definition from_onnx_bytes (model : bytes) : Res Forest :=
  graph <-? find_graph model;
  parsed <-? parse_graph graph;
  '(ts, nf) <-? fold_res (fun s ensemble =>
      mapping <-? resolve_column_mapping ensemble parsed;
      encoders <-? leaf_encoders ensemble parsed;
      build_trees ensemble mapping encoders s.1 s.2) ([], 0) (tree_nodes parsed);
  match ts with
  | [] => Fails (UnsupportedModel "no TreeEnsembleRegressor node in graph")
  | _ => Got (mkForest ts nf)
  end.
End Expectations.

(** ** Attribution *)

Record Attribution := mkAttribution {
  contributions : list f64; attr_depth : f64; expected_depth : f64 }.

(** The walk of one tree: the contributions and the leaf's expectation. *)
Fixpoint descend (nodes : list TreeNode) (x : list f32) (fuel : nat) (current : Z) (contrib : list f64)
    : Res (list f64 * f64) :=
  node <-? idx nodes current;
  match tn_kind node with
  | Leaf => Got (contrib, tn_expected node)
  | Branch feature threshold t f =>
      match fuel with
      | O => Spins
      | S fuel =>
          xf <-? idx x feature;
          let next := if f_le xf threshold then t else f in
          child_node <-? idx nodes next;
          c <-? idx contrib feature;
          descend nodes x fuel next
            (<[Z.to_nat feature := f64_add c (f64_sub (tn_expected child_node) (tn_expected node))]> contrib)
      end
  end.

Definition attribute_tree (x : list f32) (s : list f64 * f64 * f64) (t : Tree) : Res (list f64 * f64 * f64) :=
  let '(contrib, depth_sum, expected_sum) := s in
  root <-? idx (tree_node_list t) 0;
  '(contrib, leaf) <-? descend (tree_node_list t) x (length (tree_node_list t)) 0 contrib;
  Got (contrib, f64_add depth_sum leaf, f64_add expected_sum (tn_expected root)).

Definition attribute (fr : Forest) (x : list f32) : Res Attribution :=
  if Z.of_nat (length x) <? n_features fr
  then Fails (Inconsistent "input shorter than the feature space")
  else
    '(contrib, depth_sum, expected_sum) <-?
       fold_res (attribute_tree x) (replicate (Z.to_nat (n_features fr)) (S754_zero false),
         S754_zero false, S754_zero false) (trees fr);
    let n := f64_of_Z (Z.of_nat (length (trees fr))) in
    Got (mkAttribution ((fun c => f64_div (SFopp c) n) <$> contrib)
           (f64_div depth_sum n) (f64_div expected_sum n)).
