(* ===== verification/ForestSafety.v ===== *)
(** * ForestSafety: what a parsed forest guarantees

    Reading any model file ends in a forest or in an error.  A forest that was
    read is made of trees: the recorded depths grow by one along every branch, so
    every walk ends; every feature a tree reads is in the feature space; every
    node's expectation is the weighted mean of its children's. *)
From stdpp Require Import base gmap strings list sorting.
From Stdlib Require Import ZArith Lia.
From Stdlib Require Import Floats.SpecFloat.
From S2P Require Import Prelude Str Fs Float Proto Forest.

Lemma safe_fold_res {A B : Type} (I : A -> Prop) (f : A -> B -> Res A) a xs :
  (forall a x, x ∈ xs -> I a -> safe I (f a x)) -> I a -> safe I (fold_res f a xs).
Proof.
  revert a. induction xs as [|x xs IH]; intros a Hf Ha; simpl; [done|].
  eapply safe_bind; [apply Hf; [apply elem_of_cons; by left|done]|].
  intros a' Ha'. apply IH; [|done]. intros a'' y Hy. apply Hf. apply elem_of_cons. by right.
Qed.

(** Steps of a [read_fields] loop. *)
Ltac safe_step :=
  match goal with
  | |- safe _ (if ?b then _ else _) => destruct b
  | |- safe _ (skip_field _ _ _) =>
      eapply safe_bind; [apply skip_safe|let H := fresh "Hr" in intros ? H; simpl in H; simpl]
  | |- safe _ (res_bind (read_bytes _) _) =>
      eapply safe_bind; [apply read_bytes_safe|let H := fresh "Hr" in intros [? ?] H; simpl in H; simpl]
  | |- safe _ (res_bind (varint _) _) =>
      eapply safe_bind; [apply varint_safe|let H := fresh "Hr" in intros [? ?] H; simpl in H; simpl]
  | |- safe _ (res_bind (read_i64s _ _ _) _) =>
      eapply safe_bind; [apply read_i64s_safe|let H := fresh "Hr" in intros [? ?] H; simpl in H; simpl]
  | |- safe _ (res_bind (read_f32s _ _ _) _) =>
      eapply safe_bind; [apply read_f32s_safe|let H := fresh "Hr" in intros [? ?] H; simpl in H; simpl]
  | |- safe _ (Got _) => simpl
  | |- safe _ (match ?w with WVarint => _ | _ => _ end) => destruct w
  end.

(** ** The parsers *)

Lemma find_graph_safe model : safe (fun g => (length g <= length model)%nat) (find_graph model).
Proof.
  eapply safe_bind.
  - apply (read_fields_safe _ (fun o n => (n <= length model)%nat /\ forall g, o = Some g -> (length g <= length model)%nat)).
    + intros s n n' [H1 H2] H. split; [lia|done].
    + intros s field wire r [H1 H2]. repeat safe_step; (split; [lia|]); (split; [lia|]); [|done]. intros g [= <-]. lia.
    + split; [lia|done].
  - intros o [_ H]. by apply safe_get_or.
Qed.

Lemma parse_attribute_safe raw : safe (fun a => (length (at_ints a) <= length raw)%nat) (parse_attribute raw).
Proof.
  eapply safe_weaken.
  - apply (read_fields_safe _ (fun a n => (length (at_ints a) + n <= length raw)%nat)); [intros; lia| |done].
    intros a field wire r H. repeat safe_step; lia.
  - simpl. lia.
Qed.

Definition small_node (n : nat) (g : GraphNode) : Prop := Forall (fun a => (length a <= n)%nat) (attributes g).

Lemma small_node_mono n m g : (n <= m)%nat -> small_node n g -> small_node m g.
Proof. intros H Hg. eapply Forall_impl; [exact Hg|]. simpl. lia. Qed.

Lemma parse_node_safe node : safe (small_node (length node)) (parse_node node).
Proof.
  eapply safe_weaken.
  - apply (read_fields_safe _ (fun g n => (n <= length node)%nat /\ small_node (length node) g)).
    + intros ? ? ? [? ?] ?. split; [lia|done].
    + intros g field wire r [H1 H2]. unfold small_node in *.
      repeat safe_step; (split; [lia|]); (split; [lia|]); simpl; try done.
      apply Forall_app. split; [done|]. apply Forall_singleton. lia.
    + split; [lia|]. by constructor.
  - by intros g [_ H].
Qed.

Lemma parse_int64_initializer_safe tensor : safe (fun _ => True) (parse_int64_initializer tensor).
Proof.
  eapply safe_bind.
  - apply (read_fields_safe _ (fun _ _ => True)); [done| |done].
    intros t field wire r _. repeat safe_step; split; try done; try lia.
  - intros t _. destruct (negb _); [done|]. destruct (tn_values t), (tn_raw t); try done. by destruct (negb _).
Qed.

Lemma push_name_safe names b : safe (fun _ => True) (push_name names b).
Proof.
  apply (read_fields_safe _ (fun _ _ => True)); [done| |done].
  intros t field wire r _. repeat safe_step; split; try done; try lia.
Qed.

Lemma parse_graph_safe graph : safe (fun p => Forall (small_node (length graph)) (tree_nodes p)) (parse_graph graph).
Proof.
  eapply safe_weaken.
  - apply (read_fields_safe _ (fun p n => (n <= length graph)%nat /\ Forall (small_node (length graph)) (tree_nodes p))).
    + intros ? ? ? [? ?] ?. split; [lia|done].
    + intros p field wire r [H1 H2].
      repeat safe_step; try (split; [lia|]; split; [lia|done]).
      * eapply safe_bind; [apply parse_node_safe|]. intros node Hn. simpl. split; [lia|]. split; [lia|].
        destruct (bytes_eqb _ _); simpl; [|done]. apply Forall_app. split; [done|]. apply Forall_singleton.
        eapply small_node_mono; [|done]. lia.
      * eapply safe_bind; [apply parse_int64_initializer_safe|]. intros [e|] _; simpl; (split; [lia|]); (split; [lia|done]).
      * eapply safe_bind; [apply push_name_safe|]. intros names _. simpl. split; [lia|]. split; [lia|done].
    + split; [lia|]. by constructor.
  - by intros p [_ H].
Qed.

Lemma resolve_column_mapping_safe e g : safe (fun _ => True) (resolve_column_mapping e g).
Proof.
  eapply safe_bind; [by apply (safe_get_or (fun _ => True))|]. intros source _. destruct (existsb _ _); [done|].
  eapply safe_bind; [by apply (safe_get_or (fun _ => True))|]. intros p _. destruct (negb _); [done|].
  eapply safe_bind; [by apply (safe_get_or (fun _ => True))|]. intros i _. eapply safe_bind; [by apply (safe_get_or (fun _ => True))|]. done.
Qed.

Lemma read_encoder_safe enc : safe (fun _ => True) (read_encoder enc).
Proof.
  eapply safe_bind; [apply (safe_fold_res (fun _ => True)); [|done]|].
  - intros e raw _ _. by eapply safe_bind; [apply parse_attribute_safe|].
  - intros e _. by destruct (negb _).
Qed.

Lemma leaf_encoders_safe e g : safe (fun _ => True) (leaf_encoders e g).
Proof.
  unfold leaf_encoders. destruct (head (outputs e)); [|done].
  apply (safe_fold_res (fun _ => True)); [|done]. intros encs cast _ _. destruct (negb _); [done|].
  destruct (head (outputs cast)); [|done]. apply (safe_fold_res (fun _ => True)); [|done].
  intros encs' enc _ _. destruct (negb _); [done|]. by eapply safe_bind; [apply read_encoder_safe|].
Qed.

Lemma parse_tree_attrs_safe e N :
  small_node N e -> safe (fun t => (length (node_ids t) <= N)%nat) (parse_tree_attrs e).
Proof.
  intros He. apply safe_fold_res; [|simpl; lia]. intros t raw Hin Ht.
  eapply safe_bind; [apply parse_attribute_safe|]. intros a Ha. unfold small_node in He.
  rewrite Forall_forall in He. apply He in Hin. simpl in Ha, Ht, Hin. cbv zeta.
  repeat match goal with |- context [if ?b then _ else _] => destruct b end; simpl; lia.
Qed.

Definition attrs_ok (n : nat) (a : TreeAttrs) : Prop :=
  (0 < n)%nat /\ length (node_ids a) = n /\ length (tree_ids a) = n /\ length (feature_ids a) = n /\
  length (values a) = n /\ length (modes a) = n /\ length (true_ids a) = n /\ length (false_ids a) = n.

Lemma validate_tree_attrs_safe a : safe (fun n => attrs_ok n a) (validate_tree_attrs a).
Proof.
  unfold validate_tree_attrs. destruct (Nat.eqb_spec (length (node_ids a)) 0); [done|].
  destruct (existsb _ _) eqn:E; [done|]. destruct (existsb _ (missing_tracks_true a)); [done|]. simpl.
  simpl in E. rewrite !orb_false_iff, !negb_false_iff, !Nat.eqb_eq in E. unfold attrs_ok. lia.
Qed.

(** ** The structure walk *)

Definition kids (nodes : list TreeNode) (i : Z) : list Z :=
  match nodes !! Z.to_nat i with
  | Some n => match tn_kind n with Branch _ _ t f => [t; f] | Leaf => [] end
  | None => []
  end.

Definition depth_of (depth : list Z) (i : Z) : option Z := depth !! Z.to_nat i.

(** Child ids stay in the tree. *)
Definition closed_tree (nodes : list TreeNode) : Prop :=
  forall i c, c ∈ kids nodes i -> 0 <= c < Z.of_nat (length nodes).

(** The nodes with a depth are those visited or waiting. *)
Record reached (count : nat) (depth order stack : list Z) : Prop := {
  rc_len : length depth = count;
  rc_range : forall i, i ∈ order ++ stack -> 0 <= i < Z.of_nat count;
  rc_nodup : NoDup (order ++ stack);
  rc_set : forall i, 0 <= i < Z.of_nat count -> i ∉ order ++ stack -> depth_of depth i = Some u32_MAX;
  rc_depth : forall i, i ∈ order ++ stack ->
    exists d, depth_of depth i = Some d /\ 0 <= d <= Z.of_nat (length order) /\ d < u32_MAX }.

(** A visited node's children come after it, one deeper. *)
Definition kids_below (nodes : list TreeNode) (depth order stack : list Z) : Prop :=
  forall l1 i l2 c, order = l1 ++ i :: l2 -> c ∈ kids nodes i ->
    c ∈ l2 ++ stack /\ exists d, depth_of depth i = Some d /\ depth_of depth c = Some (d + 1).

Lemma nodup_range_length count (l : list Z) :
  NoDup l -> (forall i, i ∈ l -> 0 <= i < Z.of_nat count) -> (length l <= count)%nat.
Proof.
  intros Hn Hr. replace count with (length (seqZ 0 (Z.of_nat count))) by (rewrite length_seqZ; lia).
  apply submseteq_length, NoDup_submseteq; [done|]. intros i Hi. apply elem_of_seqZ. apply Hr in Hi. lia.
Qed.

Lemma reached_length count depth order stack :
  reached count depth order stack -> (length order + length stack <= count)%nat.
Proof. intros [? Hr Hn ? ?]. rewrite <- length_app. by apply nodup_range_length. Qed.

Lemma depth_of_insert_ne depth c i d :
  0 <= c -> 0 <= i -> c <> i -> depth_of (<[Z.to_nat c := d]> depth) i = depth_of depth i.
Proof. intros. unfold depth_of. rewrite list_lookup_insert_ne by lia. done. Qed.

(** Giving an unreached node a depth and pushing it. *)
Lemma reached_push count depth order stack c d :
  reached count depth order stack -> 0 <= c < Z.of_nat count -> c ∉ order ++ stack ->
  0 <= d + 1 <= Z.of_nat (length order) -> Z.of_nat count <= u32_MAX ->
  reached count (<[Z.to_nat c := d + 1]> depth) order (c :: stack).
Proof.
  intros Hrc Hc Hnew Hd Hmax. pose proof (reached_length _ _ _ _ Hrc). destruct Hrc as [Hl Hr Hn Hs Hdep].
  assert (forall i, i ∈ order ++ c :: stack <-> i = c \/ i ∈ order ++ stack) as Hin.
  { intros i. rewrite !elem_of_app, elem_of_cons. tauto. }
  assert (NoDup (order ++ c :: stack)) as Hn'.
  { rewrite <- Permutation_middle. by apply NoDup_cons. }
  assert (length order + S (length stack) <= count)%nat.
  { change (S (length stack)) with (length (c :: stack)). rewrite <- length_app.
    apply nodup_range_length; [done|]. intros i [->|Hi]%Hin; auto. }
  split; [by rewrite length_insert|intros i [->|Hi]%Hin; auto|done|..].
  - intros i Hi Hni. rewrite Hin in Hni. rewrite depth_of_insert_ne by naive_solver lia. naive_solver.
  - intros i [->|Hi]%Hin.
    + exists (d + 1). unfold depth_of. rewrite list_lookup_insert_eq by lia. split; [done|lia].
    + destruct (Hdep i Hi) as (d' & E & Hd'). exists d'. rewrite depth_of_insert_ne; [auto..|].
      * lia.
      * by apply Hr in Hi as [? _].
      * by intros ->.
Qed.

Lemma visit_child_safe count depth order stack c d :
  reached count depth order stack -> 0 <= c < Z.of_nat count ->
  0 <= d -> d + 1 <= Z.of_nat (length order) -> Z.of_nat count <= u32_MAX ->
  safe (fun ds => ds = (<[Z.to_nat c := d + 1]> depth, c :: stack) /\ c ∉ order ++ stack /\
                  reached count ds.1 order ds.2) (visit_child d depth stack c).
Proof.
  intros Hrc Hc H0 Hd Hmax. pose proof (reached_length _ _ _ _ Hrc) as Hlen.
  eapply safe_bind; [apply (safe_idx _ _ (fun dc => depth_of depth c = Some dc)); [|done]|].
  { rewrite (rc_len _ _ _ _ Hrc). lia. }
  intros dc Edc. simpl. destruct (Z.eqb_spec dc u32_MAX) as [->|]; simpl; [|done].
  destruct (Z.ltb_spec u32_MAX (d + 1)); [simpl; lia|]. simpl.
  assert (c ∉ order ++ stack) as Hnew.
  { intros Hin. destruct (rc_depth _ _ _ _ Hrc c Hin) as (d' & E & _ & Hlt). rewrite Edc in E. injection E. lia. }
  split_and!; [done|done|]. apply reached_push; auto; lia.
Qed.

(** Giving a fresh node a depth keeps what is known of the visited nodes. *)
Lemma kids_below_push nodes depth order rest c d :
  0 <= c -> (forall i, i ∈ order ++ rest -> 0 <= i /\ i <> c) ->
  kids_below nodes depth order rest -> kids_below nodes (<[Z.to_nat c := d]> depth) order (c :: rest).
Proof.
  intros Hc Hnew Hk l1 i l2 k Ho Hkid. destruct (Hk l1 i l2 k Ho Hkid) as (Hin & d' & E1 & E2).
  destruct (Hnew i) as [Hi0 Hi].
  { rewrite Ho, !elem_of_app, elem_of_cons. auto. }
  destruct (Hnew k) as [Hk0 Hkc].
  { rewrite Ho. rewrite !elem_of_app in *. rewrite elem_of_cons. tauto. }
  split; [rewrite elem_of_app, elem_of_cons; apply elem_of_app in Hin; tauto|].
  exists d'. rewrite !depth_of_insert_ne by (lia || by intros ->). done.
Qed.

Lemma kids_below_mem nodes depth order rest rest' :
  (forall c, c ∈ rest -> c ∈ rest') -> kids_below nodes depth order rest -> kids_below nodes depth order rest'.
Proof.
  intros Hr Hk l1 i l2 c Ho Hc. destruct (Hk l1 i l2 c Ho Hc) as [Hin Hd]. split; [|done].
  rewrite elem_of_app in *. destruct Hin; auto.
Qed.

Lemma kids_below_snoc nodes depth order cur rest :
  kids_below nodes depth order (cur :: rest) ->
  (forall c, c ∈ kids nodes cur -> c ∈ rest /\ exists d, depth_of depth cur = Some d /\ depth_of depth c = Some (d + 1)) ->
  kids_below nodes depth (order ++ [cur]) rest.
Proof.
  intros Hk Hcur l1 i l2 c Ho Hc. destruct l2 as [|x l2 _] using rev_ind.
  - apply app_inj_tail in Ho as [-> ->]. by apply Hcur.
  - rewrite app_comm_cons, app_assoc in Ho. apply app_inj_tail in Ho as [-> ->].
    destruct (Hk l1 i l2 c eq_refl Hc) as [Hin Hd]. split; [|done]. by rewrite <- app_assoc.
Qed.

Lemma reached_pop count depth order cur stack :
  reached count depth order (cur :: stack) -> reached count depth (order ++ [cur]) stack.
Proof.
  assert ((order ++ [cur]) ++ stack = order ++ cur :: stack) as E by (by rewrite <- app_assoc).
  intros [Hl Hr Hn Hs Hd]. split; rewrite ?E; try done.
  intros i Hi. destruct (Hd i Hi) as (d & ? & ? & ?). exists d. rewrite length_app. simpl. split_and!; [done|lia..].
Qed.

Lemma walk_loop_safe nodes fuel depth order stack :
  closed_tree nodes -> Z.of_nat (length nodes) <= u32_MAX ->
  (length nodes <= fuel + length order)%nat ->
  reached (length nodes) depth order stack -> kids_below nodes depth order stack ->
  safe (fun r => reached (length nodes) r.1 r.2 [] /\ kids_below nodes r.1 r.2 [])
    (walk_loop nodes fuel depth order stack).
Proof.
  intros Hcl Hmax. revert depth order stack.
  induction fuel as [|fuel IH]; intros depth order [|cur stack] Hf Hrc Hk; cbn [walk_loop]; try done.
  { pose proof (reached_length _ _ _ _ Hrc). simpl in *. lia. }
  assert (cur ∈ order ++ cur :: stack) as Hcur by (rewrite elem_of_app, elem_of_cons; auto).
  pose proof (rc_range _ _ _ _ Hrc cur Hcur) as Hrange.
  destruct (rc_depth _ _ _ _ Hrc cur Hcur) as (d & Ed & Hd & Hdmax).
  pose proof (reached_pop _ _ _ _ _ Hrc) as Hrc1.
  assert (Z.of_nat (length (order ++ [cur])) = Z.of_nat (length order) + 1) as Hlen1
    by (rewrite length_app; simpl; lia).
  eapply safe_bind; [apply (safe_idx _ _ (fun n => nodes !! Z.to_nat cur = Some n)); [lia|done]|].
  intros node En. destruct (tn_kind node) as [feat th t f|] eqn:Ek.
  2: { apply IH; [rewrite length_app; simpl; lia|done|]. apply kids_below_snoc; [done|].
       intros c Hc. unfold kids in Hc. rewrite En, Ek in Hc. by apply elem_of_nil in Hc. }
  assert (kids nodes cur = [t; f]) as Ekids by (unfold kids; by rewrite En, Ek).
  assert (0 <= t < Z.of_nat (length nodes)) as Ht by (apply (Hcl cur); rewrite Ekids, elem_of_cons; auto).
  assert (0 <= f < Z.of_nat (length nodes)) as Hfr by (apply (Hcl cur); rewrite Ekids, !elem_of_cons; auto).
  eapply safe_bind; [apply (safe_idx _ _ (fun x => x = d)); [rewrite (rc_len _ _ _ _ Hrc); lia|]|].
  { intros a Ha. unfold depth_of in Ed. congruence. }
  intros ? ->.
  eapply safe_bind; [apply visit_child_safe; [exact Hrc1|done|lia|lia|done]|].
  intros [depth1 stack1] (E1 & Hnt & Hrc2). injection E1 as -> ->. cbn [fst snd] in Hrc2.
  eapply safe_bind; [apply visit_child_safe; [exact Hrc2|done|lia|lia|done]|].
  intros [depth2 stack2] (E2 & Hnf & Hrc3). injection E2 as -> ->. cbn [fst snd] in Hrc3.
  apply IH; [lia|done|]. apply kids_below_snoc.
  - apply (kids_below_mem _ _ _ (f :: t :: cur :: stack)); [intros c; rewrite !elem_of_cons; tauto|].
    apply kids_below_push; [lia| |apply kids_below_push; [lia| |done]].
    + intros i Hi. rewrite !elem_of_app, !elem_of_cons in Hi.
      assert (i ∈ (order ++ [cur]) ++ t :: stack) as Hi'.
      { rewrite !elem_of_app, !elem_of_cons. destruct Hi as [?|[?|[?|?]]]; auto. }
      split; [apply (rc_range _ _ _ _ Hrc2 i Hi')|]. intros ->. by apply Hnf.
    + intros i Hi. split; [apply (rc_range _ _ _ _ Hrc i Hi)|]. intros ->. apply Hnt.
      by rewrite <- app_assoc.
  - intros c Hc. rewrite Ekids, !elem_of_cons, elem_of_nil in Hc. split; [rewrite !elem_of_cons; tauto|].
    assert (t <> f) by (intros ->; apply Hnf; rewrite elem_of_app, elem_of_cons; auto).
    assert (t <> cur) by (intros ->; apply Hnt; rewrite elem_of_app, elem_of_app, elem_of_cons; auto).
    assert (f <> cur) by (intros ->; apply Hnf; rewrite elem_of_app, elem_of_app, elem_of_cons; auto).
    pose proof (rc_len _ _ _ _ Hrc) as Hlen. exists d.
    assert (forall (l : list Z) c x, 0 <= c < Z.of_nat (length l) -> depth_of (<[Z.to_nat c := x]> l) c = Some x) as Hins.
    { intros l c' x Hc'. unfold depth_of. by rewrite list_lookup_insert_eq by lia. }
    split; [rewrite !depth_of_insert_ne by lia; done|].
    destruct Hc as [->|[->|[]]]; [rewrite depth_of_insert_ne by lia|]; apply Hins; rewrite ?length_insert; lia.
Qed.

(** What the walk returns: every node once, parents before children, and depths
    that grow by one along every branch. *)
Record tree_shape (nodes : list TreeNode) (depth order : list Z) : Prop := {
  sh_perm : order ≡ₚ seqZ 0 (Z.of_nat (length nodes));
  sh_kids : kids_below nodes depth order [];
  sh_len : length depth = length nodes;
  sh_depth : forall i, 0 <= i < Z.of_nat (length nodes) ->
    exists d, depth_of depth i = Some d /\ 0 <= d <= Z.of_nat (length nodes) }.

Lemma walk_structure_safe nodes :
  closed_tree nodes -> (0 < length nodes)%nat -> Z.of_nat (length nodes) <= u32_MAX ->
  safe (fun r => tree_shape nodes r.1 r.2) (walk_structure nodes).
Proof.
  intros Hcl H0 Hmax. unfold walk_structure. destruct (length nodes) as [|n] eqn:En; [lia|]. rewrite <- En in *.
  eapply safe_bind; [apply walk_loop_safe; [done|lia|simpl; lia| |]|].
  - split.
    + by rewrite length_insert, length_replicate.
    + intros i ->%list_elem_of_singleton. lia.
    + apply NoDup_singleton.
    + intros i Hi Hni. change ([] ++ [0]) with [0] in Hni. rewrite list_elem_of_singleton in Hni. rewrite (depth_of_insert_ne _ 0) by lia.
      unfold depth_of. rewrite lookup_replicate_2; [done|lia].
    + intros i ->%list_elem_of_singleton. exists 0. unfold depth_of, u32_MAX, U32_MAX. simpl.
      rewrite list_lookup_insert_eq by (rewrite length_replicate; lia). split_and!; [done|lia..].
  - intros l1 i l2 c Ho. by destruct l1.
  - intros [depth order] [Hrc Hk]. simpl in Hrc, Hk. destruct (Nat.eqb_spec (length order) (length nodes)) as [El|]; [|done].
    simpl. destruct Hrc as [Hl Hr Hn Hs Hd]. rewrite app_nil_r in *.
    assert (order ≡ₚ seqZ 0 (Z.of_nat (length nodes))) as Hp.
    { apply submseteq_length_Permutation; [apply NoDup_submseteq; [done|]|rewrite length_seqZ; lia].
      intros i Hi. apply elem_of_seqZ. apply Hr in Hi. lia. }
    split; [done..|]. intros i Hi. destruct (Hd i) as (d & ? & ? & ?).
    { rewrite Hp. apply elem_of_seqZ. lia. }
    exists d. split; [done|lia].
Qed.

Lemma shape_kid_depth nodes depth order i c :
  tree_shape nodes depth order -> 0 <= i -> c ∈ kids nodes i ->
  exists d, depth_of depth i = Some d /\ depth_of depth c = Some (d + 1).
Proof.
  intros Hs Hi Hc. assert (i ∈ order) as Hin.
  { rewrite (sh_perm _ _ _ Hs). apply elem_of_seqZ. unfold kids in Hc.
    destruct (nodes !! Z.to_nat i) eqn:E; [|by apply elem_of_nil in Hc]. apply lookup_lt_Some in E. lia. }
  apply list_elem_of_split in Hin as (l1 & l2 & ->). by apply (sh_kids _ _ _ Hs l1 i l2 c).
Qed.

Lemma shape_root_depth nodes depth order :
  tree_shape nodes depth order -> (0 < length nodes)%nat ->
  exists d, depth_of depth 0 = Some d /\ 0 <= d.
Proof. intros Hs Hn. destruct (sh_depth _ _ _ Hs 0) as (d & ? & ?); [lia|]. exists d. split; [done|lia]. Qed.

(** ** Expectations *)

Section Expectations.
Context (ln : f64 -> f64).

Definition count_of (counts : option (list f64)) (i : Z) : option f64 :=
  match counts with Some c => c !! Z.to_nat i | None => Some (f64_of_Z 1) end.

(** The defining equation of a node's weight and expectation. *)
Definition expectation_of (depth : list Z) (counts : option (list f64)) (weight : list f64)
    (nodes : list TreeNode) (i : Z) (node : TreeNode) : Prop :=
  match tn_kind node with
  | Leaf => exists n d, count_of counts i = Some n /\ depth_of depth i = Some d /\
      weight !! Z.to_nat i = Some n /\
      tn_expected node =
        f64_add (f64_of_Z d) (match counts with Some _ => average_path_length ln n | None => S754_zero false end)
  | Branch _ _ t f => exists wt wf nt nf,
      weight !! Z.to_nat t = Some wt /\ weight !! Z.to_nat f = Some wf /\
      nodes !! Z.to_nat t = Some nt /\ nodes !! Z.to_nat f = Some nf /\
      weight !! Z.to_nat i = Some (f64_add wt wf) /\
      tn_expected node =
        f64_div (f64_add (f64_mul wt (tn_expected nt)) (f64_mul wf (tn_expected nf))) (f64_add wt wf)
  end.

Lemma kids_kinds nodes nodes' i : tn_kind <$> nodes' = tn_kind <$> nodes -> kids nodes' i = kids nodes i.
Proof.
  intros E. unfold kids. assert (tn_kind <$> (nodes' !! Z.to_nat i) = tn_kind <$> (nodes !! Z.to_nat i)) as Ei
    by (rewrite <- !list_lookup_fmap; by rewrite E).
  destruct (nodes' !! Z.to_nat i) as [n'|], (nodes !! Z.to_nat i) as [n|]; try done.
  simpl in Ei. by injection Ei as ->.
Qed.

Lemma set_expected_safe nodes i e node :
  0 <= i -> nodes !! Z.to_nat i = Some node ->
  set_expected nodes i e = Got (<[Z.to_nat i := mkTreeNode (tn_kind node) e]> nodes).
Proof. intros Hi E. unfold set_expected, idx. destruct (Z.leb_spec 0 i); [|lia]. by rewrite E. Qed.

Lemma set_kind (nodes : list TreeNode) (i : nat) e node :
  nodes !! i = Some node -> tn_kind <$> <[i := mkTreeNode (tn_kind node) e]> nodes = tn_kind <$> nodes.
Proof.
  intros E. rewrite list_fmap_insert. simpl. apply list_insert_id. by rewrite list_lookup_fmap, E.
Qed.

(** An update elsewhere keeps a node's equation. *)
Lemma expectation_frame depth counts weight nodes i node j w e :
  expectation_of depth counts weight nodes i node -> j <> Z.to_nat i ->
  (forall t, t ∈ match tn_kind node with Branch _ _ t f => [t; f] | Leaf => [] end -> j <> Z.to_nat t) ->
  expectation_of depth counts (<[j := w]> weight) (<[j := e]> nodes) i node.
Proof.
  unfold expectation_of. intros H Hj Hk. destruct (tn_kind node) as [? ? t f|].
  - destruct H as (wt & wf & nt & nf & ? & ? & ? & ? & ? & ?).
    assert (j <> Z.to_nat t) by (apply Hk; rewrite elem_of_cons; auto).
    assert (j <> Z.to_nat f) by (apply Hk; rewrite !elem_of_cons; auto).
    exists wt, wf, nt, nf. rewrite !list_lookup_insert_ne by done. done.
  - destruct H as (n & d & ? & ? & ? & ?). exists n, d. by rewrite list_lookup_insert_ne.
Qed.

(** The loop invariant: the nodes of [l] satisfy their equations. *)
Definition expected_upto (nodes0 : list TreeNode) (depth : list Z) (counts : option (list f64))
    (l : list Z) (s : list f64 * list TreeNode) : Prop :=
  tn_kind <$> s.2 = tn_kind <$> nodes0 /\ length s.1 = length nodes0 /\
  forall i, i ∈ l -> exists node, s.2 !! Z.to_nat i = Some node /\ expectation_of depth counts s.1 s.2 i node.

Lemma safe_fold_prefix {A B : Type} (I : list B -> A -> Prop) (f : A -> B -> Res A) all a done_ xs :
  (forall l x l' a, all = l ++ x :: l' -> I l a -> safe (I (l ++ [x])) (f a x)) ->
  all = done_ ++ xs -> I done_ a -> safe (I all) (fold_res f a xs).
Proof.
  intros Hf. revert done_ a. induction xs as [|x xs IH]; intros done_ a Hall Ha; simpl.
  - by rewrite app_nil_r in Hall; subst.
  - eapply safe_bind; [by apply (Hf done_ x xs)|]. intros a' Ha'. apply (IH (done_ ++ [x])); [|done].
    by rewrite <- app_assoc.
Qed.

Lemma expected_lookup nodes0 depth counts l s i :
  expected_upto nodes0 depth counts l s -> 0 <= i < Z.of_nat (length nodes0) ->
  exists node, s.2 !! Z.to_nat i = Some node.
Proof.
  intros (Hk & _ & _) Hi. apply lookup_lt_is_Some. rewrite <- (length_fmap tn_kind), Hk, length_fmap. lia.
Qed.

(** Setting a fresh node to its equation extends the invariant. *)
Lemma expected_extend nodes0 depth counts l weight nodes x node w e :
  expected_upto nodes0 depth counts l (weight, nodes) -> 0 <= x < Z.of_nat (length nodes0) -> x ∉ l ->
  (forall i, i ∈ l -> 0 <= i) ->
  (forall i c, i ∈ l \/ i = x -> c ∈ kids nodes0 i -> c ∈ l) ->
  nodes !! Z.to_nat x = Some node ->
  (let nodes' := <[Z.to_nat x := mkTreeNode (tn_kind node) e]> nodes in
   expectation_of depth counts (<[Z.to_nat x := w]> weight) nodes' x (mkTreeNode (tn_kind node) e)) ->
  expected_upto nodes0 depth counts (l ++ [x])
    (<[Z.to_nat x := w]> weight, <[Z.to_nat x := mkTreeNode (tn_kind node) e]> nodes).
Proof.
  intros (Hk & Hl & HI) Hx Hnew Hpos Hkids En Heq. unfold expected_upto. cbn [fst snd] in *. split_and!.
  - by rewrite set_kind.
  - by rewrite length_insert.
  - intros i. rewrite elem_of_app, list_elem_of_singleton. intros [Hi| ->].
    + destruct (HI i Hi) as (n & En' & Hn). exists n. pose proof (Hpos i Hi).
      assert (Z.to_nat x <> Z.to_nat i) by (intros E; assert (x = i) by lia; by subst).
      rewrite list_lookup_insert_ne by done. split; [done|]. apply expectation_frame; [done..|].
      intros t Ht. assert (t ∈ l) as Htl.
      { apply (Hkids i); [by left|]. rewrite <- (kids_kinds nodes0 nodes) by done. unfold kids. by rewrite En'. }
      pose proof (Hpos t Htl). intros E. assert (x = t) by lia. by subst.
    + exists (mkTreeNode (tn_kind node) e). split; [|done]. rewrite list_lookup_insert_eq; [done|].
      by apply lookup_lt_Some in En.
Qed.

Definition counts_ok (nodes : list TreeNode) (counts : option (list f64)) : Prop :=
  match counts with Some c => length c = length nodes | None => True end.

Lemma expect_node_safe nodes0 depth counts l s x :
  length depth = length nodes0 -> counts_ok nodes0 counts ->
  expected_upto nodes0 depth counts l s -> 0 <= x < Z.of_nat (length nodes0) -> x ∉ l ->
  (forall i, i ∈ l -> 0 <= i < Z.of_nat (length nodes0)) ->
  (forall i c, i ∈ l \/ i = x -> c ∈ kids nodes0 i -> c ∈ l) ->
  safe (expected_upto nodes0 depth counts (l ++ [x])) (expect_node ln depth counts s x).
Proof.
  destruct s as [weight nodes]. intros Hdl Hc HI Hx Hnew Hpos Hkids.
  destruct (expected_lookup _ _ _ _ _ x HI Hx) as [node En]. cbn [snd] in En.
  pose proof HI as (Hk & Hwl & Hall). cbn [fst snd] in Hk, Hwl, Hall.
  assert (length nodes = length nodes0) as Hnl by (rewrite <- (length_fmap tn_kind), Hk, length_fmap; done).
  assert (forall i, i ∈ l -> 0 <= i) as Hpos' by (intros i Hi; apply Hpos in Hi; lia).
  unfold expect_node. eapply safe_bind; [apply (safe_idx _ _ (fun n => n = node)); [lia|congruence]|].
  intros ? ->. destruct (tn_kind node) as [feat th t f|] eqn:Ek.
  - assert (kids nodes0 x = [t; f]) as Ekids
      by (rewrite <- (kids_kinds nodes0 nodes) by done; unfold kids; by rewrite En, Ek).
    assert (t ∈ l) as Htl by (apply (Hkids x); [by right|]; rewrite Ekids, elem_of_cons; auto).
    assert (f ∈ l) as Hfl by (apply (Hkids x); [by right|]; rewrite Ekids, !elem_of_cons; auto).
    pose proof (Hpos t Htl). pose proof (Hpos f Hfl).
    eapply safe_bind; [apply (safe_idx _ _ (fun w => weight !! Z.to_nat t = Some w)); [lia|done]|]. intros wt Ewt.
    eapply safe_bind; [apply (safe_idx _ _ (fun w => weight !! Z.to_nat f = Some w)); [lia|done]|]. intros wf Ewf.
    eapply safe_bind; [apply (safe_idx _ _ (fun n => nodes !! Z.to_nat t = Some n)); [lia|done]|]. intros nt Ent.
    eapply safe_bind; [apply (safe_idx _ _ (fun n => nodes !! Z.to_nat f = Some n)); [lia|done]|]. intros nf Enf.
    cbv zeta. rewrite (set_expected_safe _ _ _ node) by (done || lia). cbn [res_bind safe].
    apply expected_extend; try done. unfold expectation_of. cbn [tn_kind]. rewrite Ek. exists wt, wf, nt, nf.
    assert (x <> t) by (intros ->; done). assert (x <> f) by (intros ->; done).
    rewrite !list_lookup_insert_ne by lia. rewrite list_lookup_insert_eq by lia. done.
  - eapply safe_bind.
    { apply (fun P => P : safe (fun n => count_of counts x = Some n) _). destruct counts as [c|]; [|done].
      apply safe_idx; [simpl in Hc; lia|done]. }
    intros n Hn.
    eapply safe_bind; [apply (safe_idx _ _ (fun d => depth_of depth x = Some d)); [lia|done]|]. intros d Hd.
    cbv zeta. rewrite (set_expected_safe _ _ _ node) by (done || lia). cbn [res_bind safe].
    apply expected_extend; try done. unfold expectation_of. cbn [tn_kind tn_expected]. rewrite Ek. exists n, d.
    rewrite list_lookup_insert_eq by lia. done.
Qed.

Lemma compute_expectations_safe nodes depth order counts :
  tree_shape nodes depth order -> counts_ok nodes counts ->
  safe (fun nodes' => tn_kind <$> nodes' = tn_kind <$> nodes /\
          exists weight, forall i node, nodes' !! Z.to_nat i = Some node -> 0 <= i ->
            expectation_of depth counts weight nodes' i node)
    (compute_expectations ln nodes depth order counts).
Proof.
  intros Hs Hc. unfold compute_expectations.
  assert (forall i, i ∈ order <-> 0 <= i < Z.of_nat (length nodes)) as Hin.
  { intros i. rewrite (sh_perm _ _ _ Hs), elem_of_seqZ. lia. }
  assert (NoDup (rev order)) as Hnd.
  { rewrite <- (Permutation_rev order), (sh_perm _ _ _ Hs). apply NoDup_seqZ. }
  eapply safe_bind.
  - apply (safe_fold_prefix (expected_upto nodes depth counts) _ (rev order) _ [] (rev order)); [|done|].
    + intros l x l' s Hr HI. assert (order = rev l' ++ x :: rev l) as Ho.
      { rewrite <- (rev_involutive order), Hr, rev_app_distr. simpl. by rewrite <- app_assoc. }
      assert (forall i, i ∈ l -> i ∈ order) as Hl.
      { intros i Hi. rewrite Ho, elem_of_app, elem_of_cons. right. right.
        by rewrite <- Permutation_rev. }
      apply expect_node_safe; [by apply (sh_len _ _ _ Hs)|done|done|..].
      * apply Hin. rewrite Ho, elem_of_app, elem_of_cons. auto.
      * rewrite Hr in Hnd. apply NoDup_app in Hnd as (_ & Hd & _). intros Hx.
        apply (Hd x Hx). apply elem_of_cons. by left.
      * intros i Hi. by apply Hin, Hl.
      * intros i c [Hi| ->] Hkc.
        -- assert (i ∈ rev l) as Hi' by (by rewrite <- Permutation_rev).
           apply list_elem_of_split in Hi' as (a & b & Hab).
           destruct (sh_kids _ _ _ Hs (rev l' ++ x :: a) i b c) as [Hcb _]; [|done|].
           { rewrite Ho, Hab. by rewrite <- app_assoc. }
           rewrite app_nil_r in Hcb. rewrite (Permutation_rev l), Hab, elem_of_app, elem_of_cons. auto.
        -- destruct (sh_kids _ _ _ Hs (rev l') x (rev l) c) as [Hcb _]; [done..|].
           rewrite app_nil_r, <- Permutation_rev in Hcb. done.
    + split_and!; [done|apply length_replicate|]. intros i Hi. by apply elem_of_nil in Hi.
  - intros [weight nodes'] (Hk & _ & HI). cbn [fst snd] in *. simpl. split; [done|]. exists weight.
    intros i node En Hi. destruct (HI i) as (n & En' & Hn).
    { rewrite <- Permutation_rev. apply Hin. apply lookup_lt_Some in En.
      rewrite <- (length_fmap tn_kind), Hk, length_fmap in En. lia. }
    congruence.
Qed.
End Expectations.

(** ** Building trees *)

Lemma pick_sample_counts_safe nodes depth encoders :
  safe (counts_ok nodes) (pick_sample_counts nodes depth encoders).
Proof.
  unfold pick_sample_counts. destruct encoders as [|e es]; [done|].
  destruct (List.filter _ _) as [|enc [|]]; try done.
  eapply safe_bind; [apply (safe_fold_res (fun c => length c = length nodes))|].
  - intros c [k v] _ Hc. cbn [fst snd].
    destruct (Z.leb_spec 0 k), (Z.ltb_spec k (Z.of_nat (length nodes))); cbn [negb andb]; try done.
    eapply safe_bind; [apply (safe_idx _ _ (fun _ => True)); [lia|done]|]. intros node _.
    destruct (negb _); [done|]. destruct (_ || _); [done|]. unfold safe. by rewrite length_insert.
  - apply length_replicate.
  - intros c Hc. by destruct (existsb _ _).
Qed.

Definition kind_ok (count : nat) (nf : Z) (k : NodeKind) : Prop :=
  match k with
  | Branch feature _ t f => 0 <= feature < nf /\ 0 <= t < Z.of_nat count /\ 0 <= f < Z.of_nat count
  | Leaf => True
  end.

Lemma kind_ok_mono count nf nf' k : nf <= nf' -> kind_ok count nf k -> kind_ok count nf' k.
Proof. destruct k; simpl; lia. Qed.

Lemma child_safe id count : safe (fun c => 0 <= c < Z.of_nat count) (child id count).
Proof.
  unfold child. destruct (Z.leb_spec 0 id), (Z.leb_spec id U32_MAX), (Z.ltb_spec id (Z.of_nat count)); simpl; lia || done.
Qed.

Lemma node_kind_safe n a i mapping count nf :
  attrs_ok n a -> 0 <= i < Z.of_nat n ->
  safe (fun kn => nf <= kn.2 /\ kind_ok count kn.2 kn.1) (node_kind a i mapping count nf).
Proof.
  intros (_ & _ & _ & Hf & Hv & Hm & Ht & Hfa) Hi. unfold node_kind.
  eapply safe_bind; [apply (safe_idx _ _ (fun _ => True)); [lia|done]|]. intros mode _.
  destruct (bytes_eqb mode _); [simpl; lia|]. destruct (bytes_eqb mode _); [|done].
  eapply safe_bind; [apply (safe_idx _ _ (fun _ => True)); [lia|done]|]. intros raw _.
  eapply safe_bind.
  { apply (fun P => P : safe (fun _ => True) _). destruct mapping; [by apply safe_get_or|done]. }
  intros column _. destruct (Z.ltb_spec column 0); [done|]. cbv zeta.
  eapply safe_bind; [apply (safe_idx _ _ (fun _ => True)); [lia|done]|]. intros th _.
  eapply safe_bind; [apply (safe_idx _ _ (fun _ => True)); [lia|done]|]. intros ti _.
  eapply safe_bind; [apply child_safe|]. intros t Htc.
  eapply safe_bind; [apply (safe_idx _ _ (fun _ => True)); [lia|done]|]. intros fi _.
  eapply safe_bind; [apply child_safe|]. intros f Hfc. simpl in *. lia.
Qed.

Definition slots_ok (count : nat) (nf0 : Z) (s : list (option TreeNode) * Z) : Prop :=
  length s.1 = count /\ nf0 <= s.2 /\
  forall j node, s.1 !! j = Some (Some node) -> kind_ok count s.2 (tn_kind node).

Lemma place_node_safe n a mapping count nf0 s i :
  attrs_ok n a -> 0 <= i < Z.of_nat n -> slots_ok count nf0 s ->
  safe (slots_ok count nf0) (place_node a mapping count s i).
Proof.
  intros Ha Hi. destruct s as [nodes nf]. intros (Hl & Hnf & Hs). cbn [fst snd] in *. unfold place_node.
  eapply safe_bind; [apply (safe_idx _ _ (fun _ => True)); [destruct Ha as (_ & -> & _); lia|done]|]. intros id _.
  destruct (Z.ltb_spec id 0); [done|]. destruct (Z.leb_spec (Z.of_nat count) id); [done|].
  eapply safe_bind; [by apply (node_kind_safe n)|]. intros [kind nf'] [Hnf' Hk]. cbn [fst snd] in *.
  eapply safe_bind; [apply (safe_idx _ _ (fun _ => True)); [lia|done]|]. intros [x|] _; [done|]. simpl.
  unfold slots_ok. cbn [fst snd]. rewrite length_insert. split_and!; [done|lia|].
  intros j node Hj. apply list_lookup_insert_Some in Hj as [(<- & [= <-] & _)|[_ Hj]]; [done|].
  eapply kind_ok_mono; [exact Hnf'|]. by eapply Hs.
Qed.

Lemma collect_option_some {A : Type} (l : list (option A)) xs : collect_option l = Some xs -> l = Some <$> xs.
Proof.
  revert xs. induction l as [|[a|] l IH]; intros xs; simpl; [by intros [= <-]| |done].
  destruct (collect_option l); [|done]. intros [= <-]. simpl. f_equal. by apply IH.
Qed.

(** What holds of every tree of a parsed forest with [nf] features. *)
Record tree_ok (ln : f64 -> f64) (nf : Z) (t : Tree) : Prop := {
  ok_nonempty : (0 < length (tree_node_list t))%nat;
  ok_kinds : Forall (fun n => kind_ok (length (tree_node_list t)) nf (tn_kind n)) (tree_node_list t);
  ok_shape : exists depth order counts weight,
    tree_shape (tree_node_list t) depth order /\
    forall i node, 0 <= i -> tree_node_list t !! Z.to_nat i = Some node ->
      expectation_of ln depth counts weight (tree_node_list t) i node }.

Lemma tree_ok_mono ln nf nf' t : nf <= nf' -> tree_ok ln nf t -> tree_ok ln nf' t.
Proof.
  intros Hle [H1 H2 H3]. split; [done| |done]. eapply Forall_impl; [exact H2|].
  intros n Hn. by eapply kind_ok_mono.
Qed.

Lemma kinds_closed nodes nf :
  Forall (fun n => kind_ok (length nodes) nf (tn_kind n)) nodes -> closed_tree nodes.
Proof.
  intros H i c. unfold kids. destruct (nodes !! Z.to_nat i) as [n|] eqn:E; [|by intros ?%elem_of_nil].
  rewrite Forall_lookup in H. specialize (H _ _ E). destruct (tn_kind n); simpl in H; [|by intros ?%elem_of_nil].
  rewrite !elem_of_cons, elem_of_nil. intros [->|[->|[]]]; lia.
Qed.

Lemma tree_shape_kinds nodes nodes' depth order :
  tn_kind <$> nodes' = tn_kind <$> nodes -> tree_shape nodes depth order -> tree_shape nodes' depth order.
Proof.
  intros Hk [Hp Hkids Hl Hd].
  assert (length nodes' = length nodes) as El by (rewrite <- (length_fmap tn_kind), Hk, length_fmap; done).
  split; rewrite ?El; try done. intros l1 i l2 c Ho Hc. rewrite (kids_kinds nodes nodes') in Hc by done. eauto.
Qed.

Lemma build_one_tree_safe ln n a start end_ mapping encoders nf :
  attrs_ok n a -> (start < end_ <= n)%nat -> Z.of_nat n <= u32_MAX ->
  safe (fun tn => nf <= tn.2 /\ tree_ok ln tn.2 tn.1) (build_one_tree ln a start end_ mapping encoders nf).
Proof.
  intros Ha Hr Hmax. unfold build_one_tree. set (count := (end_ - start)%nat).
  eapply safe_bind; [apply (safe_fold_res (slots_ok count nf))|].
  - intros s i Hi Hs. apply list_elem_of_fmap in Hi as (j & -> & Hj). apply elem_of_seq in Hj.
    apply (place_node_safe n); [done|lia|done].
  - split_and!; [apply length_replicate|simpl; lia|]. intros j node Hj. simpl in Hj.
    apply lookup_replicate in Hj as [? _]. done.
  - intros [slots nf'] (Hl & Hnf & Hs). cbn [fst snd] in *.
    eapply safe_bind; [apply (safe_get_or (fun nodes => slots = Some <$> nodes)); intros; by apply collect_option_some|].
    intros nodes ->. rewrite length_fmap in Hl.
    assert (Forall (fun m => kind_ok (length nodes) nf' (tn_kind m)) nodes) as Hk.
    { apply Forall_lookup. intros j m Hj. rewrite Hl. apply (Hs j). by rewrite list_lookup_fmap, Hj. }
    eapply safe_bind; [apply walk_structure_safe; [by eapply kinds_closed|lia|lia]|].
    intros [depth order] Hsh. cbn [fst snd] in Hsh.
    eapply safe_bind; [apply pick_sample_counts_safe|]. intros counts Hc.
    eapply safe_bind; [by apply compute_expectations_safe|]. intros nodes' (Hkk & weight & Hw). simpl.
    assert (length nodes' = length nodes) as El by (rewrite <- (length_fmap tn_kind), Hkk, length_fmap; done).
    split; [done|]. split; cbn [tree_node_list].
    + lia.
    + rewrite El. apply (Forall_fmap tn_kind (kind_ok (length nodes) nf')). rewrite Hkk.
      by apply (Forall_fmap tn_kind (kind_ok (length nodes) nf')).
    + exists depth, order, counts, weight. split; [by eapply tree_shape_kinds|]. intros i node Hi En. by apply Hw.
Qed.

Lemma run_length_bounds id ids : ids !! 0%nat = Some id -> (1 <= run_length id ids <= length ids)%nat.
Proof.
  assert (forall l, run_length id l <= length l)%nat as Hle.
  { induction l as [|x l IH]; simpl; [lia|]. destruct (x =? id); lia. }
  destruct ids as [|x ids]; [done|]. simpl. intros [= ->]. rewrite Z.eqb_refl. specialize (Hle ids). lia.
Qed.

Definition forest_inv (ln : f64 -> f64) (s : list Tree * Z) : Prop := 0 <= s.2 /\ Forall (tree_ok ln s.2) s.1.

Lemma build_loop_safe ln a n mapping encoders fuel start ts nf :
  attrs_ok n a -> Z.of_nat n <= u32_MAX -> (n <= fuel + start)%nat -> forest_inv ln (ts, nf) ->
  safe (forest_inv ln) (build_loop ln a n mapping encoders fuel start ts nf).
Proof.
  intros Ha Hmax. revert start ts nf. induction fuel as [|fuel IH]; intros start ts nf Hf HI; cbn [build_loop];
    (destruct (Nat.leb_spec n start); [done|]); [lia|].
  pose proof Ha as (_ & _ & Ht & _).
  eapply safe_bind; [apply (safe_idx _ _ (fun id => tree_ids a !! start = Some id)); [lia|]|].
  { intros id E. by rewrite Nat2Z.id in E. }
  intros id Eid. cbv zeta.
  destruct (run_length_bounds id (take (n - start) (drop start (tree_ids a)))) as [Hlo Hhi].
  { rewrite lookup_take_lt by lia. by rewrite lookup_drop, Nat.add_0_r. }
  rewrite length_take, length_drop in Hhi.
  eapply safe_bind; [apply (build_one_tree_safe ln n); [done|lia|done]|]. intros [t nf'] [Hnf Hok]. cbn [fst snd] in *.
  apply IH; [lia|]. unfold forest_inv in *. cbn [fst snd] in *. split; [lia|].
  apply Forall_app. split; [|by apply Forall_singleton]. eapply Forall_impl; [apply HI|]. intros t'. by apply tree_ok_mono.
Qed.

Lemma build_trees_safe ln e N mapping encoders ts nf :
  small_node N e -> Z.of_nat N <= u32_MAX -> forest_inv ln (ts, nf) ->
  safe (forest_inv ln) (build_trees ln e mapping encoders ts nf).
Proof.
  intros He Hmax HI. unfold build_trees.
  eapply safe_bind; [by apply (parse_tree_attrs_safe e N)|]. intros a Hn.
  eapply safe_bind; [apply validate_tree_attrs_safe|]. intros n Ha. cbv zeta. pose proof Ha as (H0 & Hnode & Ht & _).
  eapply safe_bind; [apply (safe_idx _ _ (fun _ => True)); [lia|done]|]. intros id0 _.
  apply build_loop_safe; [done|simpl in Hn; lia|lia|]. unfold forest_inv in *. cbn [fst snd] in *.
  destruct mapping as [map|]; [|done]. split; [lia|]. eapply Forall_impl; [apply HI|]. intros t. apply tree_ok_mono. lia.
Qed.

Lemma from_onnx_bytes_safe ln model :
  Z.of_nat (length model) <= u32_MAX ->
  safe (fun fr => trees fr <> [] /\ 0 <= n_features fr /\ Forall (tree_ok ln (n_features fr)) (trees fr)) (from_onnx_bytes ln model).
Proof.
  intros Hmax. unfold from_onnx_bytes.
  eapply safe_bind; [apply find_graph_safe|]. intros graph Hg. simpl in Hg.
  eapply safe_bind; [apply parse_graph_safe|]. intros parsed Hp. simpl in Hp.
  eapply safe_bind; [apply (safe_fold_res (forest_inv ln))|].
  - intros [ts nf] e He HI. rewrite Forall_forall in Hp. apply Hp in He.
    eapply safe_bind; [apply resolve_column_mapping_safe|]. intros mapping _.
    eapply safe_bind; [apply leaf_encoders_safe|]. intros encoders _.
    apply (build_trees_safe ln e (length graph)); [done|lia|done].
  - split; [done|]. by constructor.
  - intros [[|t ts] nf] [H0 HI]; [done|]. by split_and!.
Qed.

(** ** Walking a tree *)

(** The path an input takes from a node to a leaf: true child when the feature is
    at most the threshold, false child otherwise (also on NaN). *)
Inductive route (nodes : list TreeNode) (x : list f32) : Z -> TreeNode -> Prop :=
  | route_leaf i node : nodes !! Z.to_nat i = Some node -> tn_kind node = Leaf -> route nodes x i node
  | route_branch i node feature threshold t f xf leaf :
      nodes !! Z.to_nat i = Some node -> tn_kind node = Branch feature threshold t f ->
      x !! Z.to_nat feature = Some xf -> route nodes x (if f_le xf threshold then t else f) leaf ->
      route nodes x i leaf.

Lemma idx_got {A : Type} (l : list A) i : 0 <= i < Z.of_nat (length l) -> exists a, idx l i = Got a /\ l !! Z.to_nat i = Some a.
Proof.
  intros Hi. unfold idx. destruct (Z.leb_spec 0 i); [|lia].
  destruct (l !! Z.to_nat i) as [a|] eqn:E; [eauto|]. apply lookup_ge_None in E. lia.
Qed.

Lemma descend_got nodes depth order nf x fuel cur d contrib :
  Forall (fun n => kind_ok (length nodes) nf (tn_kind n)) nodes -> tree_shape nodes depth order ->
  nf <= Z.of_nat (length x) -> Z.of_nat (length contrib) = nf ->
  0 <= cur < Z.of_nat (length nodes) -> depth_of depth cur = Some d ->
  Z.of_nat (length nodes) <= Z.of_nat fuel + d ->
  exists contrib' leaf, descend nodes x fuel cur contrib = Got (contrib', tn_expected leaf) /\
    Z.of_nat (length contrib') = nf /\ route nodes x cur leaf.
Proof.
  intros Hk Hs Hx. revert cur d contrib.
  induction fuel as [|fuel IH]; intros cur d contrib Hc Hcur Hd Hf; cbn [descend];
    destruct (idx_got nodes cur Hcur) as (node & -> & En); cbn [res_bind];
    destruct (tn_kind node) as [feature th t f|] eqn:Ek;
    try (exists contrib, node; split_and!; [done..|by apply route_leaf]);
    assert (kids nodes cur = [t; f]) as Ekids by (unfold kids; by rewrite En, Ek);
    assert (forall c, c ∈ [t; f] -> 0 <= c < Z.of_nat (length nodes) /\ depth_of depth c = Some (d + 1)) as Hkid.
  1, 3: intros c Hin; rewrite <- Ekids in Hin;
    destruct (shape_kid_depth _ _ _ cur c Hs) as (d' & E1 & E2); [lia|done|];
    (split; [by apply (kinds_closed nodes nf Hk cur)|congruence]).
  - destruct (Hkid t) as [Hr Ht]; [apply elem_of_cons; by left|].
    destruct (sh_depth _ _ _ Hs t Hr) as (d' & E & Hd'). rewrite E in Ht. injection Ht as ->. lia.
  - rewrite Forall_lookup in Hk. pose proof (Hk _ _ En) as Hko. rewrite Ek in Hko. simpl in Hko.
    destruct (idx_got x feature) as (xf & -> & Exf); [lia|]. cbn [res_bind]. cbv zeta.
    set (next := if f_le xf th then t else f).
    destruct (Hkid next) as [Hr Hdn]; [unfold next; rewrite !elem_of_cons; destruct (f_le xf th); auto|].
    destruct (idx_got nodes next Hr) as (cn & -> & Ecn). cbn [res_bind].
    destruct (idx_got contrib feature) as (c & -> & _); [lia|]. cbn [res_bind].
    destruct (IH next (d + 1) (<[Z.to_nat feature:=f64_add c (f64_sub (tn_expected cn) (tn_expected node))]> contrib))
      as (contrib' & leaf & -> & Hl & Hroute); [by rewrite length_insert|done|done|lia|].
    exists contrib', leaf. split_and!; [done..|]. by eapply route_branch.
Qed.

(** ** Theorems *)

(** C4. No model file can make the agent panic or hang while it is read: for every
    byte string below 4 GiB the reader returns a forest or an error.  In a forest it
    returns, every tree has a root, its child pointers form a tree (each node
    reached once, one deeper than its parent), every feature it reads is in the
    feature space, and each node's expectation is its defining equation: a leaf's
    depth plus its correction, a branch's mean of its children by their weights. *)
Theorem model_file_safe ln model :
  Z.of_nat (length model) <= U32_MAX ->
  match from_onnx_bytes ln model with
  | Got fr => trees fr <> [] /\ forall t, t ∈ trees fr -> tree_ok ln (n_features fr) t
  | Fails _ => True
  | Panics | Spins => False
  end.
Proof.
  intros Hmax. pose proof (from_onnx_bytes_safe ln model Hmax) as H. unfold safe in H.
  destruct (from_onnx_bytes ln model) as [fr| | |]; [|done..].
  destruct H as (Hne & _ & H). split; [done|]. by apply Forall_forall.
Qed.

Lemma attribute_trees x nf ln ts contrib ds es :
  Forall (tree_ok ln nf) ts -> nf <= Z.of_nat (length x) -> Z.of_nat (length contrib) = nf ->
  exists contrib' leaves,
    fold_res (attribute_tree x) (contrib, ds, es) ts =
      Got (contrib', foldl f64_add ds (tn_expected <$> leaves),
           foldl f64_add es ((fun t => from_option tn_expected (S754_zero false) (head (tree_node_list t))) <$> ts)) /\
    Z.of_nat (length contrib') = nf /\
    Forall2 (fun t leaf => route (tree_node_list t) x 0 leaf) ts leaves.
Proof.
  intros Hts Hx. revert contrib ds es. induction Hts as [|t ts Ht _ IH]; intros contrib ds es Hc.
  { exists contrib, []. split_and!; [done..|constructor]. }
  destruct Ht as [Hne Hk (depth & order & counts & weight & Hsh & _)].
  cbn [fold_res attribute_tree].
  destruct (idx_got (tree_node_list t) 0) as (root & -> & Eroot); [lia|]. cbn [res_bind].
  destruct (shape_root_depth _ _ _ Hsh Hne) as (d & Ed & Hd).
  destruct (descend_got (tree_node_list t) depth order nf x (length (tree_node_list t)) 0 d contrib)
    as (contrib1 & leaf & -> & Hl & Hroute); [done..|lia|done|lia|]. cbn [res_bind].
  destruct (IH contrib1 (f64_add ds (tn_expected leaf)) (f64_add es (tn_expected root)) Hl)
    as (contrib' & leaves & -> & Hl' & Hr).
  exists contrib', (leaf :: leaves). split_and!; [|done|by constructor].
  simpl. destruct (tree_node_list t) as [|r l]; [done|]. by injection Eroot as ->.
Qed.

(** C20. Explaining a score always ends, for every forest that could be read and
    every input: an input shorter than the feature space is refused; for any other,
    NaN included, each tree is walked to the leaf its splits route the input to,
    there is one contribution per feature, and the reported depth and expected depth
    are the means of those leaves' and of the roots' expectations. *)
Theorem attribution_total ln model fr x :
  Z.of_nat (length model) <= U32_MAX -> from_onnx_bytes ln model = Got fr ->
  if Z.of_nat (length x) <? n_features fr
  then attribute fr x = Fails (Inconsistent "input shorter than the feature space")
  else exists att leaves, attribute fr x = Got att /\
    Forall2 (fun t leaf => route (tree_node_list t) x 0 leaf) (trees fr) leaves /\
    Z.of_nat (length (contributions att)) = n_features fr /\
    let mean := fun es => f64_div (foldl f64_add (S754_zero false) es) (f64_of_Z (Z.of_nat (length (trees fr)))) in
    attr_depth att = mean (tn_expected <$> leaves) /\
    expected_depth att =
      mean ((fun t => from_option tn_expected (S754_zero false) (head (tree_node_list t))) <$> trees fr).
Proof.
  intros Hmax Hgot. pose proof (from_onnx_bytes_safe ln model Hmax) as H. rewrite Hgot in H.
  destruct H as (Hne & H0 & Hok). unfold attribute.
  destruct (Z.ltb_spec (Z.of_nat (length x)) (n_features fr)); [done|].
  destruct (attribute_trees x (n_features fr) ln (trees fr)
    (replicate (Z.to_nat (n_features fr)) (S754_zero false)) (S754_zero false) (S754_zero false))
    as (contrib & leaves & E & Hl & Hr); [done..|rewrite length_replicate; lia|].
  unfold res_bind. fold f64. setoid_rewrite E. eexists _, leaves. split; [reflexivity|]. cbn [contributions attr_depth expected_depth].
  rewrite length_fmap. split_and!; done.
Qed.

(** ** An example model: one split on feature 0 at 1.0 *)

Definition enc_varint (n : Z) : bytes := if n <? 128 then [n] else [n mod 128 + 128; n / 128].
Definition enc_field (field : Z) (payload : bytes) : bytes :=
  enc_varint (field * 8 + 2) ++ enc_varint (Z.of_nat (length payload)) ++ payload.
Definition enc_ints (name : string) (ints : list Z) : bytes :=
  enc_field 5 (enc_field 1 (lit name) ++ enc_field 8 ints).
Definition enc_strings (name : string) (ss : list string) : bytes :=
  enc_field 5 (enc_field 1 (lit name) ++ concat (enc_field 9 ∘ lit <$> ss)).
Definition sample_model (children : list Z) : bytes :=
  enc_field 7
    (enc_field 1
       (enc_field 1 (lit "X") ++ enc_field 2 (lit "Y") ++ enc_field 4 (lit "TreeEnsembleRegressor") ++
        enc_ints "nodes_treeids" [0; 0; 0] ++ enc_ints "nodes_nodeids" [0; 1; 2] ++
        enc_ints "nodes_featureids" [0; 0; 0] ++
        enc_field 5 (enc_field 1 (lit "nodes_values") ++ enc_field 7 [0; 0; 128; 63; 0; 0; 0; 0; 0; 0; 0; 0]) ++
        enc_strings "nodes_modes" ["BRANCH_LEQ"; "LEAF"; "LEAF"]%string ++
        enc_ints "nodes_truenodeids" children ++ enc_ints "nodes_falsenodeids" [2; 0; 0]) ++
     enc_field 11 (enc_field 1 (lit "X"))).

Definition sample_forest : Forest :=
  mkForest [mkTree [mkTreeNode (Branch 0 (f32_of_Z 1) 1 2) (f64_of_Z 1);
                    mkTreeNode Leaf (f64_of_Z 1); mkTreeNode Leaf (f64_of_Z 1)]] 1.

Example sample_model_parses : from_onnx_bytes (fun x => x) (sample_model [1; 0; 0]) = Got sample_forest.
Proof. vm_compute. reflexivity. Qed.

(** A model whose branch points at itself is refused. *)
Example cyclic_model_refused :
  from_onnx_bytes (fun x => x) (sample_model [0; 0; 0]) = Fails (Inconsistent "node reachable twice (cycle)").
Proof. vm_compute. reflexivity. Qed.

Lemma model_file_safe_witness : Forall (tree_ok (fun x => x) 1) (trees sample_forest).
Proof.
  apply Forall_forall.
  pose proof (model_file_safe (fun x => x) (sample_model [1; 0; 0])) as H. rewrite sample_model_parses in H.
  apply H. vm_compute. discriminate.
Defined.

Lemma attribution_total_witness :
  exists att leaves, attribute sample_forest [S754_nan] = Got att /\
    Forall2 (fun t leaf => route (tree_node_list t) [S754_nan] 0 leaf) (trees sample_forest) leaves.
Proof.
  destruct (attribution_total (fun x => x) (sample_model [1; 0; 0]) sample_forest [S754_nan])
    as (att & leaves & Ha & Hr & _); [vm_compute; discriminate|apply sample_model_parses|]. eauto.
Defined.
