(* ===== verification/Ml.v ===== *)
(** * Ml: features, bounds and scorers (src/crates/ml/src)

    The feature extractors ([features/cmdline.rs], [features/correlation.rs],
    [features/lineage.rs]), the out-of-distribution bounds ([bounds.rs]), the two
    scorers ([scorer.rs], [scorer/correlation.rs]) and the attribution ranking
    ([forest/mod.rs]).  Arguments: [lower], Unicode's lower case; [log2], the
    platform's [f32::log2]; [ln], [f64::ln]; onnxruntime ([Session], [commit],
    [session_run]: the outputs of a run by name, those that are tensors of [f32] with
    their values) and the JSON reader of the metadata.  In a scorer's result [None] is a
    panic or a loop that does not end. *)
From stdpp Require Import base gmap strings list sorting.
From Stdlib Require Import ZArith Lia Ascii.
From Stdlib Require Import Floats.SpecFloat.
From Stdlib Require String.
From S2P Require Import Prelude Str Text Fs Float Schema Proto Forest ForestSafety Correlator CorrelatorRules.
#[local] Open Scope string_scope.
#[local] Open Scope Z_scope.
#[local] Open Scope list_scope.

Definition f32_one : f32 := f32_of_Z 1.
Definition f32_zero : f32 := S754_zero false.
Definition f32_bool (b : bool) : f32 := if b then f32_one else f32_zero.
Definition f32_len {A : Type} (l : list A) : f32 := f32_of_Z (Z.of_nat (length l)).

(** ** Command lines (features/cmdline.rs) *)

Definition SUSPICIOUS_TOKENS : list string :=
  ["base64"; "-d"; "-D"; "--decode"; "chmod +x"; "/dev/tcp"; "nc "; "| sh"; "| bash"; "|sh"; "|bash"].
Definition SHELL_METACHARS : string := "|;&$`()<>".
Definition SUSPICIOUS_WIN_PATHS : list string :=
  ["\AppData\"; "\Temp\"; "\tmp\"; "\Public\"; "\Downloads\"; "\Desktop\"; "%temp%"; "%appdata%"].
Definition LEGIT_WIN_PATHS : list string :=
  ["\Windows\System32\"; "\Windows\SysWOW64\"; "\Windows\SystemApps\"; "\Windows\UUS\"; "\Program Files\";
   "\Program Files (x86)\"; "\ProgramData\Microsoft\"].
Definition cmdline_FEATURE_NAMES : list string :=
  ["length"; "entropy"; "suspicious_token_count"; "token_count"; "max_token_length"; "shell_metachar_count";
   "digit_ratio"; "is_suspicious_win_path"; "is_legit_win_path"].

Section Cmdline.
Variable lower : string -> string.
Variable log2 : f32 -> f32.

(** The sum runs over the letter counts in one fixed order; a hash map's own order
    can differ in the sum's last bit. *)
Definition cmdline_shannon_entropy (s : string) : f32 :=
  if str_is_empty s then f32_zero
  else
    let len := f32_len (str_chars s) in
    SFopp (foldl (fun acc n => let p := f32_div (f32_of_Z n) len in f32_add acc (f32_mul p (log2 p)))
             f32_zero (map_to_list (char_counts s)).*2).

Definition suspicious_token_count (cmdline : string) : f32 :=
  f32_len (List.filter (fun t => str_contains t cmdline) SUSPICIOUS_TOKENS).

Definition nul : ascii := ascii_of_nat 0.
Definition tokens (cmdline : string) : list string :=
  List.filter (fun t => negb (str_is_empty t)) (str_split nul cmdline).
Definition token_count (cmdline : string) : f32 := f32_len (tokens cmdline).
Definition max_token_length (cmdline : string) : f32 :=
  f32_of_Z (Z.of_nat (foldr (fun t n => Nat.max (length (str_chars t)) n) 0%nat (tokens cmdline))).

Definition shell_metachar_count (cmdline : string) : f32 :=
  f32_len (List.filter (fun c => str_contains c SHELL_METACHARS) (str_chars cmdline)).

Definition char_is_digit (c : string) : bool :=
  match c with String a EmptyString => is_digit a | _ => false end.
Definition digit_ratio (cmdline : string) : f32 :=
  if str_is_empty cmdline then f32_zero
  else f32_div (f32_len (List.filter char_is_digit (str_chars cmdline))) (f32_len (str_chars cmdline)).

Definition contains_any_ci (cmdline_lower : string) (needles : list string) : f32 :=
  f32_bool (existsb (fun p => str_contains (lower p) cmdline_lower) needles).

Definition cmdline_extract_features (cmdline : string) : list f32 :=
  let low := lower cmdline in
  [f32_len (str_chars cmdline); cmdline_shannon_entropy cmdline; suspicious_token_count cmdline;
   token_count cmdline; max_token_length cmdline; shell_metachar_count cmdline; digit_ratio cmdline;
   contains_any_ci low SUSPICIOUS_WIN_PATHS; contains_any_ci low LEGIT_WIN_PATHS].
End Cmdline.

(** ** Process windows (features/correlation.rs) *)

Definition ml_is_file_write (event : Event) : bool :=
  match event with Event_FileOpen f => has_write_intent (file_open_flags f) | _ => false end.

Definition correlation_FEATURE_NAMES : list string :=
  ["spawn_count"; "connect_count"; "filewrite_count"; "unique_daddr_count"; "unique_dport_count";
   "has_full_chain"; "span_s"; "event_count"].

Definition is_modeled (event : Event) : bool :=
  match event with Event_Exec _ | Event_Connect _ | Event_FileOpen _ | Event_NetworkFlow _ => true | _ => false end.

Definition destination (e : Event) : option (IpAddr * Z) :=
  match e with
  | Event_Connect c => Some (connect_daddr c, connect_dport c)
  | Event_NetworkFlow f => Some (network_flow_daddr f, network_flow_dport f)
  | _ => None
  end.

Definition correlation_extract_features (bus : EventBus) (pid : Z) (generation : option Z) : list f32 :=
  let events := List.filter is_modeled (events_for_pid pid generation bus) in
  let spawn_count := List.filter (fun e => match e with Event_Exec _ => true | _ => false end) events in
  let connect_count := List.filter (fun e => match e with Event_Connect _ => true | _ => false end) events in
  let filewrite_count := List.filter ml_is_file_write events in
  let daddrs := remove_dups (omap destination events).*1 in
  let dports := remove_dups (omap destination events).*2 in
  let has_full_chain := match spawn_count, connect_count, filewrite_count with
                        | _ :: _, _ :: _, _ :: _ => true | _, _, _ => false end in
  let times := ev_ts <$> events in
  let span_s := match times with
                | [] => f32_zero
                | t :: ts => f32_div (f32_of_Z (foldr Z.max t ts - foldr Z.min t ts)) (f32_of_Z 1000000000)
                end in
  [f32_len spawn_count; f32_len connect_count; f32_len filewrite_count; f32_len daddrs; f32_len dports;
   f32_bool has_full_chain; span_s; f32_len events].

(** ** Parent lineage (features/lineage.rs) *)

Definition lineage_SHELL_COMMS : list string :=
  ["bash"; "sh"; "zsh"; "fish"; "dash"; "cmd.exe"; "powershell.exe"; "pwsh.exe"; "pwsh"].
Definition WEBSERVER_COMMS : list string :=
  ["httpd"; "nginx"; "apache2"; "w3wp.exe"; "w3wp"; "node"; "java"; "dotnet"; "uwsgi"; "gunicorn"; "php-fpm"].
Definition OFFICE_COMMS : list string :=
  ["winword.exe"; "excel.exe"; "powerpnt.exe"; "outlook.exe"; "msaccess.exe"; "mspub.exe"; "winword"; "excel";
   "powerpnt"; "outlook"].
Definition SYSTEM_PATHS : list string :=
  ["/usr/bin/"; "/bin/"; "/sbin/"; "/usr/sbin/"; "/usr/local/bin/"; "/System/Library/"; "/Library/Apple/";
   "\Windows\System32\"; "\Windows\SysWOW64\"; "\Windows\SystemApps\"; "\Windows\UUS\"; "\Program Files\";
   "\Program Files (x86)\"].
Definition SUSPICIOUS_PATHS : list string :=
  ["/tmp/"; "/var/tmp/"; "/dev/shm/"; "\AppData\"; "\Temp\"; "\tmp\"; "\Public\"; "\Downloads\"; "\Desktop\";
   "%temp%"; "%appdata%"].
Definition lineage_FEATURE_NAMES : list string :=
  ["has_parent_lineage"; "parent_comm_is_shell"; "parent_comm_is_webserver"; "parent_comm_is_office";
   "parent_path_is_system"; "parent_path_is_suspicious"].

Section Lineage.
Variable lower : string -> string.

Definition matches_comm_ci (comm : string) (needles : list string) : bool :=
  let basename := match rsplit_byte is_sep comm with Some (_, b) => b | None => comm end in
  existsb (fun n => String.eqb (lower basename) (lower n)) needles.

Definition matches_path_ci (path : string) (needles : list string) : bool :=
  existsb (fun n => str_contains (lower n) (lower path)) needles.

Definition is_some_and {A : Type} (o : option A) (f : A -> bool) : bool :=
  match o with Some a => f a | None => false end.

Definition lineage_extract_features (event : ExecEvent) : list f32 :=
  let has {A} (o : option A) := is_some_and o (fun _ => true) in
  let comm needles := is_some_and (exec_parent_comm event) (fun c => matches_comm_ci c needles) in
  let path needles := is_some_and (exec_parent_image_path event) (fun p => matches_path_ci p needles) in
  f32_bool <$> [has (exec_parent_comm event) || has (exec_parent_image_path event);
                comm lineage_SHELL_COMMS; comm WEBSERVER_COMMS; comm OFFICE_COMMS; path SYSTEM_PATHS; path SUSPICIOUS_PATHS].
End Lineage.

(** ** Errors and bounds (scorer.rs, bounds.rs) *)

Inductive ScorerError :=
  | RuntimeError
  | ScorerParse (e : ParseError)
  | FeatureArity (model extractor : Z)
  | NoScore
  | FeatureOutOfBounds (feature : string) (value min max : f32).

Record FeatureBounds := mkFeatureBounds {
  feature_names : list string; min_values : list f32; max_values : list f32 }.

Definition check_invariant (b : FeatureBounds) : result unit ParseError :=
  if negb (Nat.eqb (length (min_values b)) (length (max_values b)))
     || negb (Nat.eqb (length (min_values b)) (length (feature_names b)))
  then Err (Malformed "FeatureBounds arrays have mismatched lengths") else Ok tt.

(** The loop from index [i]; [None] is the panic of [self.max_values[i]]. *)
Fixpoint validate_from (b : FeatureBounds) (i : nat) (features : list f32) : option (result unit ScorerError) :=
  match features with
  | [] => Some (Ok tt)
  | value :: features =>
      match min_values b !! i with
      | None => Some (Ok tt)
      | Some min =>
          match max_values b !! i with
          | None => None
          | Some max =>
              if f_lt value min || f_gt value max
              then Some (Err (FeatureOutOfBounds (default "unknown" (feature_names b !! i)) value min max))
              else validate_from b (S i) features
          end
      end
  end.
Definition bounds_validate (b : FeatureBounds) (features : list f32) : option (result unit ScorerError) :=
  validate_from b 0 features.

(** ** Ranking contributions (forest/mod.rs) *)

(** [a.abs().total_cmp(&b.abs())] as a key: NaN is above infinity. *)
Definition abs_key (a : f64) : Z * Z * Z :=
  match a with S754_nan => (3, 0, 0) | _ => f_key (SFabs a) end.
Definition key_ltb (a b : Z * Z * Z) : bool :=
  (a.1.1 <? b.1.1) || ((a.1.1 =? b.1.1) && ((a.1.2 <? b.1.2) || ((a.1.2 =? b.1.2) && (a.2 <? b.2)))).

(** A stable sort of the indices, largest contribution first. *)
Fixpoint insert_rank (x : nat * f64) (l : list (nat * f64)) : list (nat * f64) :=
  match l with
  | [] => [x]
  | y :: l => if key_ltb (abs_key x.2) (abs_key y.2) then y :: insert_rank x l else x :: y :: l
  end.
Definition rank (cs : list (nat * f64)) : list (nat * f64) := foldr insert_rank [] cs.

Definition top_attributions (a : Attribution) (x : list f32) (names : list string) (k : nat)
    : list ScoreAttribution :=
  omap (fun ic : nat * f64 =>
      name ← names !! ic.1; v ← x !! ic.1;
      Some (mkScoreAttribution name (f64_of_f32 v) ic.2))
    (take k (rank (imap (fun i c => (i, c)) (contributions a)))).

(** ** Scorers (scorer.rs, scorer/correlation.rs) *)

Record Score := mkScore { score_value : f32; score_attributions : list ScoreAttribution }.
Record ModelMetadata := mkModelMetadata { md_threshold : option f32; md_bounds : option FeatureBounds }.

Definition EVENT_COUNT_IDX : nat := 7.
Definition MIN_EVENT_COUNT : f32 := f32_of_Z 3.
Definition LLR_MAX : f32 := f32_of_Z 3.
Definition LLR_MIN : f32 := f32_of_Z (-1).
Definition GAIN : f32 := f32_of_Z 20.

(** [x.clamp(lo, hi)]: NaN stays. *)
Definition f32_clamp (x lo hi : f32) : f32 := if f_lt x lo then lo else if f_gt x hi then hi else x.
Definition score_to_llr (score : f32) : f32 := f32_clamp (f32_mul (SFopp score) GAIN) LLR_MIN LLR_MAX.

Section Scorer.
Context {Session : Type}.
Variable lower : string -> string.
Variable log2 : f32 -> f32.
Variable ln : f64 -> f64.
Variable commit : bytes -> option Session.
Variable session_run : Session -> list f32 -> result (list (string * option (list f32))) ScorerError.
Variable parse_metadata : bytes -> option ModelMetadata.

(** [CmdlineScorer] and [CorrelationScorer] have the same fields. *)
Record Scorer := mkScorer {
  sc_session : Session; sc_forest : Forest; sc_bounds : option FeatureBounds; sc_threshold : option f32 }.

(** The part of the two constructors after the arity of the extractor is known. *)
Definition load_scorer (arity : Z) (model : bytes) (metadata : option bytes)
    : option (result Scorer ScorerError) :=
  match commit model with
  | None => Some (Err RuntimeError)
  | Some session =>
      match from_onnx_bytes ln model with
      | Panics | Spins => None
      | Fails e => Some (Err (ScorerParse e))
      | Got forest =>
          if negb (n_features forest =? arity)
          then Some (Err (FeatureArity (n_features forest) arity))
          else match metadata with
               | None => Some (Ok (mkScorer session forest None None))
               | Some meta_bytes =>
                   match parse_metadata meta_bytes with
                   | None => Some (Err (ScorerParse (Malformed "invalid metadata JSON")))
                   | Some md =>
                       match (match md_bounds md with Some b => check_invariant b | None => Ok tt end) with
                       | Err e => Some (Err (ScorerParse e))
                       | Ok _ => Some (Ok (mkScorer session forest (md_bounds md) (md_threshold md)))
                       end
                   end
               end
      end
  end.
Definition CmdlineScorer_from_onnx_bytes_with_metadata (model : bytes) (metadata : option bytes) :=
  load_scorer (Z.of_nat (length cmdline_FEATURE_NAMES)) model metadata.
Definition CorrelationScorer_from_onnx_bytes_with_metadata (model : bytes) (metadata : option bytes) :=
  load_scorer (Z.of_nat (length correlation_FEATURE_NAMES)) model metadata.

(** [outputs["scores"]]: the value of the output of that name. *)
Definition find_output (name : string) (outputs : list (string * option (list f32))) : option (option (list f32)) :=
  snd <$> List.find (fun o => String.eqb o.1 name) outputs.

(** The [run] of the two scorers: the index panics when no output has the name. *)
Definition scorer_run (session : Session) (features : list f32) : option (result f32 ScorerError) :=
  match session_run session features with
  | Err e => Some (Err e)
  | Ok outputs =>
      match find_output "scores" outputs with
      | None => None
      | Some None => Some (Err RuntimeError)
      | Some (Some scores) => Some (match head scores with Some score => Ok score | None => Err NoScore end)
      end
  end.

(** Bounds, inference, threshold: what [score] and [score_explained] share. *)
Definition judge (sc : Scorer) (features : list f32) : option (result (option f32) ScorerError) :=
  match (match sc_bounds sc with Some b => bounds_validate b features | None => Some (Ok tt) end) with
  | None => None
  | Some (Err e) => Some (Err e)
  | Some (Ok _) =>
      match scorer_run (sc_session sc) features with
      | None => None
      | Some (Err e) => Some (Err e)
      | Some (Ok score) =>
          match sc_threshold sc with
          | Some threshold => if f_ge score threshold then Some (Ok None) else Some (Ok (Some score))
          | None => Some (Ok (Some score))
          end
      end
  end.

Definition explain (sc : Scorer) (names : list string) (features : list f32) (k : nat)
    : option (result (option Score) ScorerError) :=
  match judge sc features with
  | None => None
  | Some (Err e) => Some (Err e)
  | Some (Ok None) => Some (Ok None)
  | Some (Ok (Some value)) =>
      match attribute (sc_forest sc) features with
      | Got a => Some (Ok (Some (mkScore value (top_attributions a features names k))))
      | Fails e => Some (Err (ScorerParse e))
      | Panics | Spins => None
      end
  end.

Definition cmdline_score (sc : Scorer) (cmdline : string) : option (result (option f32) ScorerError) :=
  judge sc (cmdline_extract_features lower log2 cmdline).
Definition cmdline_score_explained (sc : Scorer) (cmdline : string) (k : nat) :=
  explain sc cmdline_FEATURE_NAMES (cmdline_extract_features lower log2 cmdline) k.

(** Fewer than [MIN_EVENT_COUNT] events: no score. *)
Definition gated (features : list f32) : bool :=
  match features !! EVENT_COUNT_IDX with Some n => f_lt n MIN_EVENT_COUNT | None => false end.

Definition correlation_score (sc : Scorer) (bus : EventBus) (pid : Z) (generation : option Z)
    : option (result (option f32) ScorerError) :=
  let features := correlation_extract_features bus pid generation in
  if gated features then Some (Ok None) else judge sc features.
Definition correlation_score_explained (sc : Scorer) (bus : EventBus) (pid : Z) (generation : option Z) (k : nat) :=
  let features := correlation_extract_features bus pid generation in
  if gated features then Some (Ok None) else explain sc correlation_FEATURE_NAMES features k.
End Scorer.

(** ** Bounds *)

(** No feature that has bounds is below its minimum or above its maximum. *)
Definition in_bounds (b : FeatureBounds) (features : list f32) : Prop :=
  forall i v mn mx, features !! i = Some v -> min_values b !! i = Some mn -> max_values b !! i = Some mx ->
    f_lt v mn = false /\ f_gt v mx = false.

Lemma validate_from_spec b i features :
  length (min_values b) = length (max_values b) ->
  exists r, validate_from b i features = Some r /\
    (r = Ok tt <-> forall j v mn mx, features !! j = Some v -> min_values b !! (i + j)%nat = Some mn ->
                     max_values b !! (i + j)%nat = Some mx -> f_lt v mn = false /\ f_gt v mx = false).
Proof.
  intros Hl. revert i. induction features as [|v fs IH]; intros i; cbn [validate_from].
  { eexists. split; [done|]. split; [|done]. intros _ j v mn mx Hj. by rewrite lookup_nil in Hj. }
  destruct (min_values b !! i) as [mn|] eqn:Emn.
  - destruct (max_values b !! i) as [mx|] eqn:Emx.
    2: { apply lookup_ge_None in Emx. apply lookup_lt_Some in Emn. unfold f32 in *. lia. }
    destruct (f_lt v mn || f_gt v mx) eqn:E.
    + eexists. split; [done|]. split; [done|]. intros H. destruct (H 0%nat v mn mx) as [H1 H2];
        [done|by rewrite Nat.add_0_r|by rewrite Nat.add_0_r|]. by rewrite H1, H2 in E.
    + apply orb_false_iff in E as [E1 E2]. destruct (IH (S i)) as (r & -> & Hr). exists r. split; [done|].
      rewrite Hr. split.
      * intros H [|j] w mn' mx'; cbn [lookup list_lookup].
        -- rewrite Nat.add_0_r, Emn, Emx. by intros [= <-] [= <-] [= <-].
        -- rewrite Nat.add_succ_r. apply (H j).
      * intros H j w mn' mx' Hj. specialize (H (S j) w mn' mx' Hj). by rewrite Nat.add_succ_r in H.
  - eexists. split; [done|]. split; [|done]. intros _ j w mn mx _ Hmn. apply lookup_ge_None in Emn.
    apply lookup_lt_Some in Hmn. unfold f32 in *. lia.
Qed.

Lemma bounds_validate_spec b features :
  check_invariant b = Ok tt ->
  exists r, bounds_validate b features = Some r /\ (r = Ok tt <-> in_bounds b features).
Proof.
  unfold check_invariant. destruct (Nat.eqb_spec (length (min_values b)) (length (max_values b))) as [E|]; [|done].
  intros _. apply validate_from_spec. done.
Qed.

(** ** Ranking *)

Lemma key_ltb_spec a b : key_ltb a b = true <-> key_lt a b.
Proof.
  unfold key_ltb, key_lt. rewrite !orb_true_iff, !andb_true_iff, !Z.ltb_lt, !Z.eqb_eq, !orb_true_iff,
    !andb_true_iff, !Z.ltb_lt, !Z.eqb_eq. done.
Qed.

(** [x] may come before [y]: its contribution is not smaller. *)
Definition ranks_before (x y : nat * f64) : Prop := ~ key_lt (abs_key x.2) (abs_key y.2).

Lemma ranks_before_trans x y z : ranks_before x y -> ranks_before y z -> ranks_before x z.
Proof. unfold ranks_before, key_lt. lia. Qed.

Lemma insert_rank_perm x l : insert_rank x l ≡ₚ x :: l.
Proof. induction l as [|y l IH]; simpl; [done|]. destruct (key_ltb _ _); [|done]. rewrite IH. apply Permutation_swap. Qed.

Lemma rank_perm cs : rank cs ≡ₚ cs.
Proof. induction cs as [|c cs IH]; simpl; [done|]. by rewrite insert_rank_perm, IH. Qed.

Lemma insert_rank_sorted x l : StronglySorted ranks_before l -> StronglySorted ranks_before (insert_rank x l).
Proof.
  induction l as [|y l IH]; intros Hs; simpl; [by repeat constructor|].
  apply StronglySorted_inv in Hs as [Hs Hy]. destruct (key_ltb (abs_key x.2) (abs_key y.2)) eqn:E.
  - constructor; [by apply IH|]. rewrite insert_rank_perm. constructor; [|done].
    apply key_ltb_spec in E. unfold ranks_before, key_lt in *. lia.
  - assert (ranks_before x y) as Hxy by (unfold ranks_before; rewrite <- key_ltb_spec; congruence).
    constructor; [by constructor|]. constructor; [done|]. eapply Forall_impl; [exact Hy|].
    intros z. by apply ranks_before_trans.
Qed.

Lemma rank_sorted cs : StronglySorted ranks_before (rank cs).
Proof. induction cs; simpl; [constructor|]. by apply insert_rank_sorted. Qed.

Lemma sorted_split {A : Type} (R : A -> A -> Prop) l1 l2 x y :
  StronglySorted R (l1 ++ l2) -> x ∈ l1 -> y ∈ l2 -> R x y.
Proof.
  induction l1 as [|a l1 IH]; simpl; intros Hs Hx Hy; [by apply elem_of_nil in Hx|].
  apply StronglySorted_inv in Hs as [Hs Ha]. apply elem_of_cons in Hx as [->|Hx]; [|by apply IH].
  rewrite Forall_forall in Ha. apply Ha. rewrite elem_of_app. by right.
Qed.

(** The contributions kept are the largest in absolute value. *)
Lemma top_are_largest cs k x y :
  x ∈ take k (rank cs) -> y ∈ drop k (rank cs) -> ranks_before x y.
Proof. apply sorted_split. rewrite take_drop. apply rank_sorted. Qed.

Lemma top_attributions_length a x names k : (length (top_attributions a x names k) <= k)%nat.
Proof. unfold top_attributions. etransitivity; [apply omap_length_le|]. rewrite length_take. lia. Qed.

(** ** Scorers *)

Section ScorerTheorems.
Context {Session : Type} (ln : f64 -> f64) (commit : bytes -> option Session)
  (session_run : Session -> list f32 -> result (list (string * option (list f32))) ScorerError)
  (parse_metadata : bytes -> option ModelMetadata).

Definition scorer_ok (arity : Z) (sc : @Scorer Session) : Prop :=
  n_features (sc_forest sc) = arity /\
  (exists model, Z.of_nat (length model) <= U32_MAX /\ from_onnx_bytes ln model = Got (sc_forest sc)) /\
  forall b, sc_bounds sc = Some b -> check_invariant b = Ok tt.

Lemma load_scorer_ok arity model metadata :
  Z.of_nat (length model) <= U32_MAX ->
  exists r, load_scorer ln commit parse_metadata arity model metadata = Some r /\
    forall sc, r = Ok sc -> scorer_ok arity sc.
Proof.
  intros Hmax. unfold load_scorer. destruct (commit model) as [session|]; [|by eexists].
  pose proof (from_onnx_bytes_safe ln model Hmax) as Hs.
  destruct (from_onnx_bytes ln model) as [forest| | |] eqn:Eo; [|by eexists|done..].
  destruct (Z.eqb_spec (n_features forest) arity); cbn [negb]; [|by eexists].
  destruct metadata as [mb|].
  - destruct (parse_metadata mb) as [md|]; [|by eexists].
    destruct (match md_bounds md with Some b => check_invariant b | None => Ok tt end) as [[]|] eqn:Eb; [|by eexists].
    eexists. split; [done|]. intros sc [= <-]. split_and!; [done|by exists model|]. cbn [sc_bounds].
    intros b E. by rewrite E in Eb.
  - eexists. split; [done|]. intros sc [= <-]. split_and!; [done|by exists model|done].
Qed.

(** The features pass the model's bounds, if it has any. *)
Definition within (sc : @Scorer Session) (features : list f32) : Prop :=
  forall b, sc_bounds sc = Some b -> in_bounds b features.

(** The model ran and has no output named as the scorers read it. *)
Definition no_scores (session : Session) (features : list f32) : Prop :=
  exists outputs, session_run session features = Ok outputs /\ find_output "scores" outputs = None.

Lemma scorer_run_panics session features : scorer_run session_run session features = None <-> no_scores session features.
Proof.
  unfold scorer_run, no_scores. destruct (session_run session features) as [outputs|e]; [|naive_solver].
  destruct (find_output "scores" outputs) as [[scores|]|] eqn:E; naive_solver.
Qed.

Lemma judge_ok arity sc features :
  scorer_ok arity sc ->
  (judge session_run sc features = None <-> within sc features /\ no_scores (sc_session sc) features) /\
  forall v, judge session_run sc features = Some (Ok (Some v)) ->
    scorer_run session_run (sc_session sc) features = Some (Ok v) /\ within sc features /\
    forall th, sc_threshold sc = Some th -> f_ge v th = false.
Proof.
  intros (_ & _ & Hb). unfold judge.
  assert (exists r, (match sc_bounds sc with Some b => bounds_validate b features | None => Some (Ok tt) end) = Some r /\
            (r = Ok tt <-> within sc features)) as (r & -> & Hr).
  { unfold within. destruct (sc_bounds sc) as [b|]; [|by eexists].
    destruct (bounds_validate_spec b features (Hb b eq_refl)) as (r & -> & Hr). exists r. split; [done|].
    rewrite Hr. naive_solver. }
  rewrite <- scorer_run_panics, <- Hr. destruct r as [[]|e]; [|naive_solver].
  destruct (scorer_run session_run (sc_session sc) features) as [[s|e]|]; [|naive_solver..].
  destruct (sc_threshold sc) as [th|]; [|naive_solver]. destruct (f_ge s th) eqn:E; naive_solver.
Qed.

Lemma explain_ok arity sc names features k :
  scorer_ok arity sc -> arity <= Z.of_nat (length features) ->
  match judge session_run sc features with
  | None => explain session_run sc names features k = None
  | Some (Err e) => explain session_run sc names features k = Some (Err e)
  | Some (Ok None) => explain session_run sc names features k = Some (Ok None)
  | Some (Ok (Some v)) =>
      exists s, explain session_run sc names features k = Some (Ok (Some s)) /\ score_value s = v /\
        (length (score_attributions s) <= k)%nat
  end.
Proof.
  intros (Hn & (model & Hmax & Hgot) & _) Hlen. unfold explain.
  destruct (judge session_run sc features) as [[[v|]|e]|]; [|done..].
  pose proof (from_onnx_bytes_safe ln model Hmax) as Hs. rewrite Hgot in Hs. destruct Hs as (Hne & H0 & Hts).
  unfold attribute. destruct (Z.ltb_spec (Z.of_nat (length features)) (n_features (sc_forest sc))); [lia|].
  destruct (attribute_trees features (n_features (sc_forest sc)) ln (trees (sc_forest sc))
    (replicate (Z.to_nat (n_features (sc_forest sc))) (S754_zero false)) (S754_zero false) (S754_zero false))
    as (contrib & leaves & E & _ & _); [done..|rewrite length_replicate; lia|].
  unfold res_bind. fold f64. setoid_rewrite E. eexists. split; [reflexivity|]. split; [done|]. apply top_attributions_length.
Qed.

(** C21. Whatever model file and metadata are loaded (below 4 GiB), loading returns
    without a panic or an endless loop.  Scoring as many features as the model has, or
    more, panics in exactly one case, when the features are within the bounds and the model ran without an
    output named [scores]; otherwise it returns.  A score is reported only for
    features inside the model's bounds and below its threshold and is the first value
    of that output; its explanation then exists, agrees with it and names at most [k]
    features, and there is an explanation only for a reported score. *)
Theorem scorer_total arity model metadata :
  Z.of_nat (length model) <= U32_MAX ->
  exists r, load_scorer ln commit parse_metadata arity model metadata = Some r /\
  forall sc, r = Ok sc -> forall names features k, arity <= Z.of_nat (length features) ->
    (judge session_run sc features = None <-> within sc features /\ no_scores (sc_session sc) features) /\
    (explain session_run sc names features k = None <-> judge session_run sc features = None) /\
    (forall v, judge session_run sc features = Some (Ok (Some v)) ->
       (exists outputs rest, session_run (sc_session sc) features = Ok outputs /\
          find_output "scores" outputs = Some (Some (v :: rest))) /\
       within sc features /\ (forall th, sc_threshold sc = Some th -> f_ge v th = false) /\
       exists s, explain session_run sc names features k = Some (Ok (Some s)) /\ score_value s = v /\
         (length (score_attributions s) <= k)%nat) /\
    (forall s, explain session_run sc names features k = Some (Ok (Some s)) ->
       judge session_run sc features = Some (Ok (Some (score_value s)))).
Proof.
  intros Hmax. destruct (load_scorer_ok arity model metadata Hmax) as (r & -> & Hr). exists r. split; [done|].
  intros sc Hsc names features k Hlen. pose proof (Hr sc Hsc) as Hok.
  destruct (judge_ok arity sc features Hok) as [Hp Hv]. pose proof (explain_ok arity sc names features k Hok Hlen) as He.
  split; [exact Hp|]. destruct (judge session_run sc features) as [[[v|]|e]|]; [|naive_solver..].
  destruct He as (s & He & <- & Hk). split; [naive_solver|]. split; [|naive_solver].
  intros v [= <-]. destruct (Hv _ eq_refl) as (H1 & H2 & H3). split_and!; [|done|done|by exists s].
  unfold scorer_run in H1. destruct (session_run (sc_session sc) features) as [outputs|]; [|done]. exists outputs.
  destruct (find_output "scores" outputs) as [[[|x scores]|]|] eqn:Ef; try done. injection H1 as ->. eauto.
Qed.

(** Fewer than three modelled events of the process: no score. *)
Lemma few_events_no_score sc bus pid generation :
  (length (List.filter is_modeled (events_for_pid pid generation bus)) < 3)%nat ->
  correlation_score session_run sc bus pid generation = Some (Ok None).
Proof.
  intros H. unfold correlation_score. cbv zeta. replace (gated _) with true; [done|].
  unfold gated, correlation_extract_features. cbn [EVENT_COUNT_IDX lookup list_lookup]. unfold f32_len.
  by destruct (length _) as [|[|[|n]]]; [..|lia].
Qed.
End ScorerTheorems.

(** The evidence a score adds lies between [LLR_MIN] and [LLR_MAX], unless it is
    NaN. *)
Lemma llr_bounded s :
  f_is_nan (score_to_llr s) = true \/
  (f_lt (score_to_llr s) LLR_MIN = false /\ f_gt (score_to_llr s) LLR_MAX = false).
Proof.
  unfold score_to_llr, f32_clamp. destruct (f_lt (f32_mul (SFopp s) GAIN) LLR_MIN) eqn:E1; [by right|].
  destruct (f_gt (f32_mul (SFopp s) GAIN) LLR_MAX) eqn:E2; [by right|]. right. by rewrite E1.
Qed.

(** ** An example scorer *)

Definition sample_bounds : FeatureBounds := mkFeatureBounds ["a"] [f32_of_Z 0] [f32_of_Z 10].
Definition toy_run (_ : unit) (_ : list f32) : result (list (string * option (list f32))) ScorerError :=
  Ok [("label", None); ("scores", Some [f32_lit (-1) 2])].
Definition toy_metadata (_ : bytes) : option ModelMetadata :=
  Some (mkModelMetadata (Some f32_zero) (Some sample_bounds)).

Example sample_scorer_score :
  exists sc, load_scorer (fun x => x) (fun _ => Some tt) toy_metadata 1 (sample_model [1; 0; 0]) (Some []) = Some (Ok sc) /\
    judge toy_run sc [f32_of_Z 5] = Some (Ok (Some (f32_lit (-1) 2))) /\
    judge toy_run sc [f32_of_Z 11] = Some (Err (FeatureOutOfBounds "a" (f32_of_Z 11) (f32_of_Z 0) (f32_of_Z 10))).
Proof. eexists. split; [vm_compute; reflexivity|]. split; vm_compute; reflexivity. Qed.

Lemma scorer_total_witness :
  exists sc s, load_scorer (fun x => x) (fun _ => Some tt) toy_metadata 1 (sample_model [1; 0; 0]) (Some []) = Some (Ok sc) /\
    explain toy_run sc ["a"] [f32_of_Z 5] 3 = Some (Ok (Some s)) /\ (length (score_attributions s) <= 3)%nat.
Proof.
  destruct (scorer_total (fun x => x) (fun _ => Some tt) toy_run toy_metadata 1 (sample_model [1; 0; 0]) (Some []))
    as (r & Hr & H); [vm_compute; discriminate|].
  destruct sample_scorer_score as (sc & Hsc & Hj & _). assert (r = Ok sc) as -> by congruence.
  destruct (H sc eq_refl ["a"] [f32_of_Z 5] 3%nat) as (_ & _ & Hv & _); [vm_compute; discriminate|].
  destruct (Hv _ Hj) as (_ & _ & _ & s & He & _ & Hk). exists sc, s. auto.
Defined.
