(* ===== verification/Sink.v ===== *)
(** * Sink: the detection sink (src/agent/src/sink.rs)

    [DetectionSink] composes the engines: every event goes to the correlator, the
    rules and Sigma; their findings are fused into the entity's verdict and written
    to the alert log; the response kills or quarantines; the event is handed to the
    enrichment queue.  A handler is a computation on the whole sink ([None] is an
    engine's panic).  Handlers are taken one at a time, the scan worker's callback
    among them: the locks serialise the calls on each engine.

    Arguments: the platform functions of the engines, the clock, the agent's own pid,
    the display of a path and of an I/O error, SHA-256 and the text of a path. *)
From stdpp Require Import base gmap strings list.
From Stdlib Require Import ZArith Lia Ascii.
From Stdlib Require Import Floats.SpecFloat.
From Stdlib Require String.
From S2P Require Import Prelude Bounded Str Text Fs Float Schema Verdict Response Outputs Stateless Amsi Sigma RuleState RuleEngine Correlator CorrelatorRules CorrelatorEngine Ml.
#[local] Open Scope string_scope.
#[local] Open Scope Z_scope.
#[local] Open Scope list_scope.

(** ** YARA's types (yara/lib.rs, yara/queue.rs) *)

Record YaraMatch := mkYaraMatch { ym_identifier : string; ym_severity : Severity; ym_technique : string }.
Record ScanContext := mkScanContext {
  scx_ppid : Z; scx_comm : string; scx_parent_generation : option Z; scx_timestamp_ns : Z }.
Record ScanRequest := mkScanRequest { sr_path : string; sr_context : option ScanContext }.
Record ScanOutcome := mkScanOutcome {
  so_path : string; so_context : option ScanContext; so_matches : list YaraMatch }.

(** ** The sink *)

Record ResponseHooks := mkResponseHooks {
  rh_policy : ResponsePolicy; rh_terminate : Z -> result unit io_error; rh_quarantine_dir : path }.

(** [sk_fs] is the file system the responses work on, [sk_signals] the pids signalled
    so far, [sk_retired] what the scan workers of replaced rule sets still have to
    scan. *)
Record DetectionSink {Session : Type} := mkSink {
  sk_rules : RuleState;
  sk_correlator : CorrelationEngine;
  sk_scorer : option (@Scorer Session);
  sk_sigma : option SigmaEngine;
  sk_log : AlertLog;
  sk_yara : option (Channel ScanRequest * Z);
  sk_retired : list ScanRequest;
  sk_enrich : Channel Event;
  sk_progress : Z;
  sk_response : option ResponseHooks;
  sk_verdict : VerdictEngine;
  sk_fs : fsys;
  sk_signals : list Z }.
Arguments DetectionSink : clear implicits.
Arguments mkSink {Session}.

Definition entity_key (meta : EventMeta) : EntityKey :=
  with_parent_generation (EntityKey_new (meta_ppid meta) (meta_comm meta)) (meta_parent_process_generation meta).

(** [{:?}] of a severity. *)
Definition show_severity (s : Severity) : string :=
  match s with Low => "Low" | Medium => "Medium" | High => "High" | Critical => "Critical" end.
(** [ss.join(sep)]. *)
Fixpoint join (sep : string) (ss : list string) : string :=
  match ss with
  | [] => ""
  | [s] => s
  | s :: ss => cat [s; sep; join sep ss]
  end.

Definition correlator_case_id (entity : EntityKey) : string :=
  match ek_parent_generation entity with
  | Some generation => cat [show_u64 (ek_ppid entity); ":"; ek_comm entity; "@"; show_u64 generation]
  | None => cat [show_u64 (ek_ppid entity); ":"; ek_comm entity]
  end.

Definition VERDICT_DEDUP_WINDOW_NS : Z := 30000000000.
Definition crosses_kill_gate (technique : string) : bool := String.eqb technique "BAYES".
Definition techniques_from (technique : string) : list string :=
  if String.eqb technique "BAYES" || String.eqb technique "Sigma" then [] else str_split slash technique.

(** [locate_model_dir]: the first root with a model, else the first. *)
Definition locate_model_dir (roots : list path) (family : string) (m : gmap path node) : option path :=
  let dirs := (fun root => root ++ [family; "0.1.0"]) <$> roots in
  match List.find (fun dir => is_file (dir ++ ["model.onnx"]) m) dirs with
  | Some dir => Some dir
  | None => head dirs
  end.

(** Where a relative content directory is looked for. *)
Definition resolve_content_root (content_dir : path) (absolute : bool) (exe_dir : option path)
    (m : gmap path node) : path * bool :=
  if absolute then (content_dir, true)
  else match exe_dir with
       | Some dir => if is_dir (dir ++ content_dir) m then (dir ++ content_dir, true) else (content_dir, false)
       | None => (content_dir, false)
       end.

Inductive Load (T : Type) := Absent | Loaded (t : T) | LoadFailed.
Arguments Absent {T}.
Arguments Loaded {T} t.
Arguments LoadFailed {T}.
Definition into_option {T : Type} (l : Load T) : option T :=
  match l with Loaded t => Some t | Absent | LoadFailed => None end.

Record ReloadReport := mkReloadReport {
  rr_sigma_rule_count : option Z; rr_yara_rule_count : option Z;
  rr_sigma_reload_failed : bool; rr_yara_reload_failed : bool }.

Section Sink.
Context {Session : Type}.
Variable exp : f32 -> f32.
Variable log2 : f64 -> f64.
Variable show_ip : IpAddr -> string.
Variable show_belief : BeliefState -> f32 -> string.
Variable lower : string -> string.
Variable uni_alnum : string -> bool.
Variable show_secs : f64 -> string.
Variable read_proc_comm : Z -> option string.
Variable macos : bool.
Variable session_run : Session -> list f32 -> result (list (string * option (list f32))) ScorerError.
Variable clock : nat -> Z.
Variable own_pid : Z.
Variable show_path : path -> string.
Variable show_io_error : io_error -> string.
Variable sha256 : bytes -> bytes.
Variable path_text : path -> bytes.
Variable to_path : string -> path.
Notation Sink := (DetectionSink Session).
Implicit Type s : Sink.

Definition with_verdict (v : VerdictEngine) s : Sink :=
  mkSink (sk_rules s) (sk_correlator s) (sk_scorer s) (sk_sigma s) (sk_log s) (sk_yara s) (sk_retired s)
    (sk_enrich s) (sk_progress s) (sk_response s) v (sk_fs s) (sk_signals s).
Definition with_log (l : AlertLog) s : Sink :=
  mkSink (sk_rules s) (sk_correlator s) (sk_scorer s) (sk_sigma s) l (sk_yara s) (sk_retired s)
    (sk_enrich s) (sk_progress s) (sk_response s) (sk_verdict s) (sk_fs s) (sk_signals s).
Definition with_rules (r : RuleState) s : Sink :=
  mkSink r (sk_correlator s) (sk_scorer s) (sk_sigma s) (sk_log s) (sk_yara s) (sk_retired s)
    (sk_enrich s) (sk_progress s) (sk_response s) (sk_verdict s) (sk_fs s) (sk_signals s).
Definition with_correlator (c : CorrelationEngine) s : Sink :=
  mkSink (sk_rules s) c (sk_scorer s) (sk_sigma s) (sk_log s) (sk_yara s) (sk_retired s)
    (sk_enrich s) (sk_progress s) (sk_response s) (sk_verdict s) (sk_fs s) (sk_signals s).
Definition with_yara (y : option (Channel ScanRequest * Z)) s : Sink :=
  mkSink (sk_rules s) (sk_correlator s) (sk_scorer s) (sk_sigma s) (sk_log s) y (sk_retired s)
    (sk_enrich s) (sk_progress s) (sk_response s) (sk_verdict s) (sk_fs s) (sk_signals s).
Definition with_response (r : option ResponseHooks) s : Sink :=
  mkSink (sk_rules s) (sk_correlator s) (sk_scorer s) (sk_sigma s) (sk_log s) (sk_yara s) (sk_retired s)
    (sk_enrich s) (sk_progress s) r (sk_verdict s) (sk_fs s) (sk_signals s).
Definition with_signals (sigs : list Z) s : Sink :=
  mkSink (sk_rules s) (sk_correlator s) (sk_scorer s) (sk_sigma s) (sk_log s) (sk_yara s) (sk_retired s)
    (sk_enrich s) (sk_progress s) (sk_response s) (sk_verdict s) (sk_fs s) sigs.
Definition with_fs (f : fsys) s : Sink :=
  mkSink (sk_rules s) (sk_correlator s) (sk_scorer s) (sk_sigma s) (sk_log s) (sk_yara s) (sk_retired s)
    (sk_enrich s) (sk_progress s) (sk_response s) (sk_verdict s) f (sk_signals s).

Definition emit (technique message : string) s : Sink :=
  with_log (log_record clock technique message (sk_log s)) s.

Definition escalate_if_warranted (fused : Verdict) s : Sink :=
  if negb (should_escalate (v_severity fused)) then s
  else emit "RESPONSE-ESCALATE"
         (cat ["escalated "; show_u64 (ek_ppid (v_entity fused)); ":"; ek_comm (v_entity fused); " at ";
               show_severity (v_severity fused); " severity across ";
               show_u64 (Z.of_nat (length (v_sources fused))); " source(s): "; join ", " (v_techniques fused)]) s.
Definition maybe_escalate (fused : Verdict) s : Sink := escalate_if_warranted fused s.

Definition record_and_emit (entity : EntityKey) (technique message : string) (source : DetectionSource)
    (severity : Severity) (event : Event) s : option (option Verdict * Sink) :=
  let now_ns := meta_timestamp_ns (Event_meta event) in
  let detection := mkDetection now_ns severity message source None [] (techniques_from technique) [event] in
  '(result, v) ← record (sk_verdict s) entity technique detection now_ns;
  let s := emit technique message (with_verdict v s) in
  Some (result, match result with Some fused => maybe_escalate fused s | None => s end).

Fixpoint record_rule_alerts (event : Event) (alerts : list Alert) s : option Sink :=
  match alerts with
  | [] => Some s
  | alert :: alerts =>
      '(_, s) ← record_and_emit (entity_key (Event_meta event)) (al_technique alert) (al_message alert)
                  (Source_Rule (al_technique alert)) (al_severity alert) event s;
      record_rule_alerts event alerts s
  end.

Definition kill_message (outcome : KillOutcome) : string :=
  match outcome with
  | Killed pid => cat ["killed pid "; show_u64 pid; " on a high-confidence correlated verdict"]
  | KillObserveOnly pid =>
      cat ["pid "; show_u64 pid; " would have been killed on a high-confidence correlated verdict (observe-only)"]
  | KillFailed pid error =>
      cat ["failed to kill pid "; show_u64 pid; " on a high-confidence correlated verdict: "; show_io_error error]
  | KillRefused pid reason =>
      cat ["refused to kill pid "; show_u64 pid; " on a high-confidence correlated verdict: "; reason]
  end.

Definition maybe_kill (pid : Z) s : Sink :=
  match sk_response s with
  | None => s
  | Some hooks =>
      let '(outcome, signals) := kill_process pid own_pid (rh_policy hooks) (rh_terminate hooks) in
      emit "RESPONSE-KILL" (kill_message outcome) (with_signals (sk_signals s ++ signals) s)
  end.

(** The scorer's log-likelihood ratio: none when gated, out of bounds or failed. *)
Definition ml_llr (sc : Scorer) (engine : CorrelationEngine) (pid : Z) (generation : option Z) : option (option f32) :=
  r ← correlation_score session_run sc (ce_bus engine) pid generation;
  Some (match r with Ok (Some score) => Some (score_to_llr score) | Ok None | Err _ => None end).

Fixpoint record_correlations (event : Event) (case_id : string) (alerts : list CorrelationAlert) s : option Sink :=
  match alerts with
  | [] => Some s
  | alert :: alerts =>
      '(_, s) ← record_and_emit (entity_key (Event_meta event)) (ca_technique alert) (ca_message alert)
                  (Source_Correlator case_id) (ca_severity alert) event s;
      record_correlations event case_id alerts s
  end.

Definition correlate (event : Event) s : option Sink :=
  let pid := meta_pid (Event_meta event) in
  let generation := meta_process_generation (Event_meta event) in
  '(alerts, engine) ← on_event exp log2 show_ip show_belief event (sk_correlator s);
  engine ← match sk_scorer s with
           | Some sc =>
               llr ← ml_llr sc engine pid generation;
               Some (update_belief_with_ml pid generation llr engine).2
           | None => Some engine
           end;
  s ← record_correlations event (correlator_case_id (entity_key (Event_meta event))) alerts (with_correlator engine s);
  Some (if existsb (fun a => crosses_kill_gate (ca_technique a)) alerts then maybe_kill pid s else s).

(** [self.rule_state.lock().unwrap().on_..(event)]. *)
Definition run_rules {A : Type} (c : Rules A) s : option (A * Sink) :=
  '(a, r) ← c (sk_rules s); Some (a, with_rules r s).

Definition sigma_technique (hit : SigmaAlert) : string :=
  match sa_tags hit with [] => "Sigma" | tags => join "/" tags end.

Fixpoint record_sigma_hits (event : Event) (hits : list SigmaAlert) s : option Sink :=
  match hits with
  | [] => Some s
  | hit :: hits =>
      '(_, s) ← record_and_emit (entity_key (Event_meta event)) (sigma_technique hit) (sa_title hit)
                  (Source_Sigma (sa_title hit)) (sa_severity hit) event s;
      record_sigma_hits event hits s
  end.

Definition detect_exec (wrapped : Event) (event : ExecEvent) s : option Sink :=
  s ← record_rule_alerts wrapped (evaluate_exec event) s;
  '(alerts, s) ← run_rules (on_exec lower show_secs read_proc_comm event) s;
  s ← record_rule_alerts wrapped alerts s;
  match sk_sigma s with
  | Some sigma => record_sigma_hits wrapped (eval_exec lower sigma event) s
  | None => Some s
  end.

Definition detect_file_open (wrapped : Event) (event : FileOpenEvent) s : option Sink :=
  '(state_alerts, s) ← run_rules (on_file_open read_proc_comm event) s;
  s ← record_rule_alerts wrapped (evaluate_file_open event ++ state_alerts) s;
  Some (if negb (Z.land (file_open_flags event) 67 =? 0)
        then match sk_yara s with
             | Some (queue, count) =>
                 let meta := Event_meta wrapped in
                 let request := mkScanRequest (file_open_path event)
                   (Some (mkScanContext (meta_ppid meta) (meta_comm meta) (meta_parent_process_generation meta)
                            (meta_timestamp_ns meta))) in
                 with_yara (Some (try_send SCAN_QUEUE_CAP request queue, count)) s
             | None => s
             end
        else s).

Definition detect_file_quarantine (event : FileQuarantineEvent) s : option Sink :=
  snd <$> run_rules (on_file_quarantine lower event) s.

Definition detect_connect (wrapped : Event) (event : ConnectEvent) s : option Sink :=
  s ← record_rule_alerts wrapped (evaluate_connect show_ip event) s;
  '(alerts, s) ← run_rules (on_connect show_ip event) s;
  record_rule_alerts wrapped alerts s.

(** Handlers that only run a stateful rule. *)
Definition detect_with (c : Rules (list Alert)) (wrapped : Event) s : option Sink :=
  '(alerts, s) ← run_rules c s; record_rule_alerts wrapped alerts s.
Definition detect_network_flow (wrapped : Event) (event : NetworkFlowEvent) : Sink -> option Sink :=
  detect_with (on_network_flow show_ip event) wrapped.
Definition detect_listen_port (wrapped : Event) (event : ListenPortEvent) : Sink -> option Sink :=
  detect_with (on_listen_port show_ip event) wrapped.
Definition detect_auth (wrapped : Event) (event : AuthEvent) : Sink -> option Sink :=
  detect_with (on_auth show_ip event) wrapped.
Definition detect_file_rename (wrapped : Event) (event : FileRenameEvent) : Sink -> option Sink :=
  detect_with (on_file_rename event) wrapped.

Definition detect_file_delete (wrapped : Event) (event : FileDeleteEvent) s : option Sink :=
  s ← record_rule_alerts wrapped (evaluate_file_delete event) s;
  detect_with (on_file_delete event) wrapped s.

Definition detect_signal (wrapped : Event) (event : SignalEvent) s : option Sink :=
  record_rule_alerts wrapped (evaluate_signal macos event) s.

Definition detect_file_write (event : FileWriteEvent) s : option Sink :=
  snd <$> run_rules (on_file_write event) s.

Definition detect_memfd_create (event : MemfdCreateEvent) s : option Sink :=
  '(alerts, s) ← run_rules (on_memfd_create event) s;
  Some (foldl (fun s alert => emit (al_technique alert) (al_message alert) s) s alerts).

Definition detect_amsi_content (wrapped : Event) (event : AmsiContentEvent) s : option Sink :=
  record_rule_alerts wrapped (evaluate_amsi_content lower uni_alnum event) s.

Definition detect (event : Event) : Sink -> option Sink :=
  match event with
  | Event_Exec e => detect_exec event e
  | Event_FileOpen e => detect_file_open event e
  | Event_Connect e => detect_connect event e
  | Event_NetworkFlow e => detect_network_flow event e
  | Event_ListenPort e => detect_listen_port event e
  | Event_Auth e => detect_auth event e
  | Event_FileDelete e => detect_file_delete event e
  | Event_Signal e => detect_signal event e
  | Event_FileQuarantine e => detect_file_quarantine e
  | Event_FileRename e => detect_file_rename event e
  | Event_FileWrite e => detect_file_write e
  | Event_MemfdCreate e => detect_memfd_create e
  | Event_AmsiContent e => detect_amsi_content event e
  | _ => Some
  end.

Definition sink_on_event (event : Event) s : option Sink :=
  s ← correlate event s;
  s ← detect event s;
  Some (mkSink (sk_rules s) (sk_correlator s) (sk_scorer s) (sk_sigma s) (sk_log s) (sk_yara s) (sk_retired s)
          (try_send ENRICH_QUEUE_CAP event (sk_enrich s)) (wrap64 (sk_progress s + 1)) (sk_response s)
          (sk_verdict s) (sk_fs s) (sk_signals s)).

(** ** The console's requests *)

Definition suppress_verdict (ppid : Z) (comm technique : string) s : result bool string * Sink :=
  if str_is_empty comm || str_is_empty technique then (Err "comm and technique must not be empty", s)
  else
    let '(outcome, v) := suppress (sk_verdict s) (EntityKey_new ppid comm) technique in
    let s := with_verdict v s in
    match outcome with
    | Added => (Ok true, emit "VERDICT-SUPPRESS"
                  (cat ["suppressed "; technique; " on "; show_u64 ppid; ":"; comm; " by operator request"]) s)
    | AlreadySuppressed => (Ok false, s)
    | Full => (Err (cat ["suppression list is full ("; show_u64 (Z.of_nat MAX_SUPPRESSIONS);
                         " entries): lift one first"]), s)
    end.

Definition unsuppress_verdict (ppid : Z) (comm technique : string) s : bool * Sink :=
  let '(removed, v) := unsuppress (sk_verdict s) (EntityKey_new ppid comm) technique in
  let s := with_verdict v s in
  (removed, if removed then emit "VERDICT-UNSUPPRESS"
                (cat ["lifted suppression of "; technique; " on "; show_u64 ppid; ":"; comm; " by operator request"]) s
            else s).

Definition sink_suppressions s : list (Z * string * string) :=
  (fun et : EntityKey * string => (ek_ppid et.1, ek_comm et.1, et.2)) <$> suppressions (sk_verdict s).

Definition enable_response (policy : ResponsePolicy) (terminate : Z -> result unit io_error) (dir : path) s : Sink :=
  with_response (Some (mkResponseHooks policy terminate dir)) s.

(** The engines loaded from the content directory replace the running ones; the scan
    worker of a replaced rule set finishes what it has queued. *)
Definition reload_content (sigma_loaded : Load SigmaEngine) (yara_loaded : Load Z) s : ReloadReport * Sink :=
  let '(sigma_failed, sigma) :=
    match sigma_loaded with
    | Loaded engine => (false, Some engine)
    | Absent => (false, None)
    | LoadFailed => (true, sk_sigma s)
    end in
  let old := match sk_yara s with Some (queue, _) => ch_pending queue | None => [] end in
  let '(yara_failed, yara, retired) :=
    match yara_loaded with
    | Loaded count => (false, Some (mkChannel [] 0, count), old)
    | Absent => (false, None, old)
    | LoadFailed => (true, sk_yara s, [])
    end in
  (mkReloadReport (rule_count <$> sigma) (snd <$> yara) sigma_failed yara_failed,
   mkSink (sk_rules s) (sk_correlator s) (sk_scorer s) sigma (sk_log s) yara (sk_retired s ++ retired)
     (sk_enrich s) (sk_progress s) (sk_response s) (sk_verdict s) (sk_fs s) (sk_signals s)).

(** ** The scan worker's callback *)

Definition fuse_yara_match (context : ScanContext) (rule : YaraMatch) s : option (option Verdict * Sink) :=
  let detection := mkDetection (scx_timestamp_ns context) (ym_severity rule)
    (cat ["yara rule "; ym_identifier rule; " matched"]) (Source_Yara (ym_identifier rule)) None []
    (techniques_from (ym_technique rule)) [] in
  let entity := with_parent_generation (EntityKey_new (scx_ppid context) (scx_comm context))
                  (scx_parent_generation context) in
  '(result, v) ← record (sk_verdict s) entity (ym_technique rule) detection (scx_timestamp_ns context);
  Some (result, with_verdict v s).

Fixpoint fuse_all (context : ScanContext) (rules : list YaraMatch) s : option (list Verdict * Sink) :=
  match rules with
  | [] => Some ([], s)
  | rule :: rules =>
      '(result, s) ← fuse_yara_match context rule s;
      '(fused, s) ← fuse_all context rules s;
      Some (match result with Some v => v :: fused | None => fused end, s)
  end.

Definition quarantine_message (outcome : QuarantineOutcome) : string :=
  match outcome with
  | Quarantined original quarantined_at sha256_hex =>
      cat ["quarantined "; show_path original; " ("; sha256_hex; ") to "; show_path quarantined_at;
           " on a confirmed YARA match"]
  | QObserveOnly p => cat [show_path p; " would have been quarantined on a confirmed YARA match (observe-only)"]
  | QFailed p error =>
      cat ["failed to quarantine "; show_path p; " on a confirmed YARA match: "; show_io_error error]
  end.

Definition quarantine_matched_payload (p : path) s : Sink :=
  match sk_response s with
  | None => s
  | Some hooks =>
      if bool_decide (under (rh_quarantine_dir hooks) p) then s
      else
        let '(outcome, f) := quarantine_file sha256 path_text p (rh_quarantine_dir hooks) (rh_policy hooks) (sk_fs s) in
        emit "RESPONSE-QUARANTINE" (quarantine_message outcome) (with_fs f s)
  end.

Definition on_match (outcome : ScanOutcome) s : option Sink :=
  '(fused, s) ← match so_context outcome with
                | Some context => fuse_all context (so_matches outcome) s
                | None => Some ([], s)
                end;
  let s := foldl (fun s rule => emit "YARA"
              (cat ["yara rule "; ym_identifier rule; " matched "; show_path (to_path (so_path outcome))]) s)
             s (so_matches outcome) in
  let s := foldl (fun s v => escalate_if_warranted v s) s fused in
  Some (match so_matches outcome with
        | [] => s
        | _ => quarantine_matched_payload (to_path (so_path outcome)) s
        end).

(** ** The baseline sink *)

Record BaselineSink := mkBaselineSink {
  bs_rules : RuleState; bs_out : list (list string * string); bs_count : Z }.

Definition baseline_on_event (event : Event) (b : BaselineSink) : option BaselineSink :=
  match event with
  | Event_Exec e =>
      '(state_alerts, r) ← on_exec lower show_secs read_proc_comm e (bs_rules b);
      Some (match evaluate_exec e, state_alerts with
            | [], [] => mkBaselineSink r (bs_out b ++ [(exec_argv e, exec_cmdline e)]) (wrap64 (bs_count b + 1))
            | _, _ => mkBaselineSink r (bs_out b) (bs_count b)
            end)
  | Event_FileOpen e =>
      '(_, r) ← on_file_open read_proc_comm e (bs_rules b);
      Some (mkBaselineSink r (bs_out b) (bs_count b))
  | _ => Some b
  end.
End Sink.
