(* ===== verification/SinkTheorems.v ===== *)
(** * SinkTheorems: what the detection sink guarantees

    An event is handled completely whenever the engines' invariants hold; every
    finding reaches the alert log, whatever is suppressed or deduplicated; a process
    is signalled only on its own event's belief crossing. *)
From stdpp Require Import base gmap strings list.
From Stdlib Require Import ZArith Lia Ascii.
From Stdlib Require Import Floats.SpecFloat.
From Stdlib Require String.
From S2P Require Import Prelude Bounded Str Text Fs Float Schema Verdict Response Outputs Stateless Amsi Sigma RuleState RuleEngine RuleSafety RuleTheorems Correlator CorrelatorRules CorrelatorEngine Ml Sink.
#[local] Open Scope string_scope.
#[local] Open Scope Z_scope.
#[local] Open Scope list_scope.

(** ** Log entries *)

Definition line_of (r : AlertRecord) : string * string := (ar_technique r, ar_message r).

(** [l'] extends [l] by lines that contain [ps] in order. *)
Definition wrote (l l' : AlertLog) (ps : list (string * string)) : Prop :=
  (ring_ok l -> ring_ok l') /\
  exists added, log_file l' = log_file l ++ added /\ ps `sublist_of` (line_of <$> added).

Lemma wrote_refl l : wrote l l [].
Proof. split; [done|]. exists []. rewrite app_nil_r. done. Qed.

Lemma wrote_trans l1 l2 l3 ps qs : wrote l1 l2 ps -> wrote l2 l3 qs -> wrote l1 l3 (ps ++ qs).
Proof.
  intros [R1 (a & E1 & S1)] [R2 (b & E2 & S2)]. split; [auto|]. exists (a ++ b).
  rewrite E2, E1, app_assoc. split; [done|]. rewrite fmap_app. by apply sublist_app.
Qed.

Lemma wrote_weaken l l' ps qs : qs `sublist_of` ps -> wrote l l' ps -> wrote l l' qs.
Proof. intros Hs [R (a & E & S)]. split; [done|]. exists a. split; [done|]. by etransitivity. Qed.

Section Acts.
Context {Session : Type} (clock : nat -> Z).
Implicit Types s : DetectionSink Session.

Lemma wrote_record technique message l : wrote l (log_record clock technique message l) [(technique, message)].
Proof. split; [apply log_record_ring|]. eexists. split; done. Qed.

(** Only the verdict and the log changed, and the log got [ps]. *)
Definition acts s s' (ps : list (string * string)) : Prop :=
  s' = with_log (sk_log s') (with_verdict (sk_verdict s') s) /\ wrote (sk_log s) (sk_log s') ps.

Lemma acts_refl s : acts s s [].
Proof. split; [by destruct s|apply wrote_refl]. Qed.

Lemma acts_trans s1 s2 s3 ps qs : acts s1 s2 ps -> acts s2 s3 qs -> acts s1 s3 (ps ++ qs).
Proof. intros [E1 W1] [E2 W2]. split; [rewrite E2, E1; done|by eapply wrote_trans]. Qed.

Lemma acts_weaken s s' ps qs : qs `sublist_of` ps -> acts s s' ps -> acts s s' qs.
Proof. intros Hs [E W]. split; [done|by eapply wrote_weaken]. Qed.

(** Only the log changed. *)
Definition logs s s' (ps : list (string * string)) : Prop :=
  s' = with_log (sk_log s') s /\ wrote (sk_log s) (sk_log s') ps.

Lemma logs_refl s : logs s s [].
Proof. split; [by destruct s|apply wrote_refl]. Qed.

Lemma logs_trans s1 s2 s3 ps qs : logs s1 s2 ps -> logs s2 s3 qs -> logs s1 s3 (ps ++ qs).
Proof. intros [E1 W1] [E2 W2]. split; [rewrite E2, E1; done|by eapply wrote_trans]. Qed.

Lemma logs_acts s s' ps : logs s s' ps -> acts s s' ps.
Proof. intros [E W]. split; [rewrite E; by destruct s|done]. Qed.

Lemma logs_emit technique message s : logs s (emit clock technique message s) [(technique, message)].
Proof. split; [by destruct s|apply wrote_record]. Qed.

Lemma logs_fold {A : Type} (f : A -> DetectionSink Session -> DetectionSink Session) (line : A -> list (string * string)) l s :
  (forall a s, logs s (f a s) (line a)) -> logs s (foldl (fun s a => f a s) s l) (l ≫= line).
Proof.
  intros Hf. revert s. induction l as [|a l IH]; intros s; cbn [foldl]; [apply logs_refl|].
  rewrite bind_cons. eapply logs_trans; [apply Hf|apply IH].
Qed.

(** The line of an escalation, when the verdict's severity warrants one. *)
Definition escalation_lines (v : Verdict) : list (string * string) :=
  if should_escalate (v_severity v)
  then [("RESPONSE-ESCALATE", cat ["escalated "; show_u64 (ek_ppid (v_entity v)); ":"; ek_comm (v_entity v); " at ";
               show_severity (v_severity v); " severity across ";
               show_u64 (Z.of_nat (length (v_sources v))); " source(s): "; join ", " (v_techniques v)])]
  else [].

Lemma logs_escalate v s : logs s (escalate_if_warranted clock v s) (escalation_lines v).
Proof.
  unfold escalate_if_warranted, escalation_lines. destruct (should_escalate _); cbn [negb]; [|apply logs_refl]. apply logs_emit.
Qed.

Lemma record_and_emit_acts entity technique message source severity event s r s' :
  record_and_emit clock entity technique message source severity event s = Some (r, s') ->
  acts s s' [(technique, message)].
Proof.
  unfold record_and_emit. destruct (record _ _ _ _ _) as [[res v]|]; [|done]. cbn [mbind option_bind]. intros [= <- <-].
  assert (acts s (emit clock technique message (with_verdict v s)) [(technique, message)]) as H.
  { split; [by destruct s|apply wrote_record]. }
  destruct res as [fused|]; [|done]. rewrite <- (app_nil_r [_]). eapply acts_trans; [exact H|].
  eapply acts_weaken; [apply sublist_nil_l|apply logs_acts, logs_escalate].
Qed.

(** A recorded finding: technique, message, source, severity. *)
Definition finding : Type := string * string * DetectionSource * Severity.
Definition text_of (f : finding) : string * string := f.1.1.

Fixpoint record_findings (event : Event) (fs : list finding) s : option (DetectionSink Session) :=
  match fs with
  | [] => Some s
  | (technique, message, source, severity) :: fs =>
      '(_, s) ← record_and_emit clock (entity_key (Event_meta event)) technique message source severity event s;
      record_findings event fs s
  end.

Definition rule_finding (a : Alert) : finding := (al_technique a, al_message a, Source_Rule (al_technique a), al_severity a).
Definition correlation_finding (case_id : string) (a : CorrelationAlert) : finding :=
  (ca_technique a, ca_message a, Source_Correlator case_id, ca_severity a).
Definition sigma_finding (hit : SigmaAlert) : finding :=
  (sigma_technique hit, sa_title hit, Source_Sigma (sa_title hit), sa_severity hit).

Lemma record_rule_alerts_findings event alerts s :
  record_rule_alerts clock event alerts s = record_findings event (rule_finding <$> alerts) s.
Proof.
  revert s. induction alerts as [|a al IH]; intros s; [done|].
  cbn. destruct (record_and_emit _ _ _ _ _ _ _ _) as [[? ?]|]; [apply IH|done].
Qed.

Lemma record_correlations_findings event case_id alerts s :
  record_correlations clock event case_id alerts s = record_findings event (correlation_finding case_id <$> alerts) s.
Proof.
  revert s. induction alerts as [|a al IH]; intros s; [done|].
  cbn. destruct (record_and_emit _ _ _ _ _ _ _ _) as [[? ?]|]; [apply IH|done].
Qed.

Lemma record_sigma_hits_findings event hits s :
  record_sigma_hits clock event hits s = record_findings event (sigma_finding <$> hits) s.
Proof.
  revert s. induction hits as [|a al IH]; intros s; [done|].
  cbn. destruct (record_and_emit _ _ _ _ _ _ _ _) as [[? ?]|]; [apply IH|done].
Qed.

Lemma record_findings_acts event fs s s' :
  record_findings event fs s = Some s' -> acts s s' (text_of <$> fs).
Proof.
  revert s. induction fs as [|[[[t m] src] sev] fs IH]; intros s; cbn [record_findings].
  { intros [= <-]. apply acts_refl. }
  destruct (record_and_emit _ _ _ _ _ _ _ _) as [[r s1]|] eqn:E; [|done]. cbn [mbind option_bind]. intros H.
  apply (acts_trans s s1 s' [(t, m)]); [by eapply record_and_emit_acts|by apply IH].
Qed.

(** *** Recording never fails while the verdict map has ticks left *)

Definition vroom (n : Z) s : Prop := ve_ok (sk_verdict s) /\ tick (ve_entities (sk_verdict s)) + n <= U64_MAX.

Lemma record_total v e t d now :
  ve_ok v -> tick (ve_entities v) < U64_MAX ->
  exists r v', record v e t d now = Some (r, v') /\ ve_ok v' /\ tick (ve_entities v') <= tick (ve_entities v) + 1.
Proof.
  intros Hok Ht. unfold record. destruct (is_suppressed v e t); [exists None, v; split_and!; [done..|lia]|].
  cbv zeta. set (id := (ek_ppid e, ek_comm e)).
  assert (forall b, bm_ok b /\ tick b = tick (ve_entities v) ->
    exists r v', ('(es, ents) ← bm_get_or_insert_with id (EntityState_new (ek_parent_generation e))
                 (fun es => (fold_finding (ve_dedup_window_ns v) e t d now es).2) b;
      Some ((fold_finding (ve_dedup_window_ns v) e t d now es).1,
            mkVerdictEngine ents (ve_suppressed v) (ve_dedup_window_ns v))) = Some (r, v') /\
      ve_ok v' /\ tick (ve_entities v') <= tick (ve_entities v) + 1) as H.
  { intros b [Hb Htb].
    destruct (bm_get_or_insert_client b id (EntityState_new (ek_parent_generation e))
      (fun es => (fold_finding (ve_dedup_window_ns v) e t d now es).2) Hb) as (b' & -> & Hb' & _ & _ & _ & Ht'); [lia|].
    cbn [mbind option_bind]. do 2 eexists. split; [done|]. split; [done|]. cbn [ve_entities]. lia. }
  apply H. destruct (bm_peek id (ve_entities v)) as [es|]; [|done]. destruct (Verdict.same_generation _ _); [done|].
  destruct (bm_remove_client (ve_entities v) id Hok) as (H1 & H2 & _). done.
Qed.

Lemma record_findings_total event fs n s :
  0 <= n -> vroom (n + Z.of_nat (length fs)) s ->
  exists s', record_findings event fs s = Some s' /\ vroom n s'.
Proof.
  intros Hn. revert s. induction fs as [|[[[t m] src] sev] fs IH]; intros s [Hok Ht]; cbn [record_findings length] in *.
  { exists s. split; [done|]. split; [done|lia]. }
  unfold record_and_emit. destruct (record_total (sk_verdict s) (entity_key (Event_meta event)) t
    (mkDetection (meta_timestamp_ns (Event_meta event)) sev m src None [] (techniques_from t) [event])
    (meta_timestamp_ns (Event_meta event)) Hok) as (r & v & -> & Hv & Htv); [lia|]. cbn [mbind option_bind].
  apply IH.
  set (s1 := emit clock t m (with_verdict v s)).
  assert (sk_verdict (match r with Some fused => maybe_escalate clock fused s1 | None => s1 end) = v) as E.
  { destruct r as [f|]; [|done]. unfold maybe_escalate, escalate_if_warranted. by destruct (negb _). }
  unfold vroom. rewrite E. split; [done|lia].
Qed.
End Acts.

(** ** The handler in normal form

    The findings of an event do not depend on the verdict or the log, so the engines
    can be run first and their findings recorded together. *)

Section Normal.
Context {Session : Type} (clock : nat -> Z).
Implicit Types s : DetectionSink Session.

Lemma record_findings_app event fs gs s :
  record_findings clock event (fs ++ gs) s = record_findings clock event fs s ≫= record_findings clock event gs.
Proof.
  revert s. induction fs as [|[[[t m] src] sev] fs IH]; intros s; [done|]. cbn [app record_findings].
  destruct (record_and_emit _ _ _ _ _ _ _ _) as [[? ?]|]; [apply IH|done].
Qed.

Lemma record_findings_rules event fs r s :
  record_findings clock event fs (with_rules r s) = with_rules r <$> record_findings clock event fs s.
Proof.
  revert s. induction fs as [|[[[t m] src] sev] fs IH]; intros s; [done|]. cbn [record_findings].
  unfold record_and_emit. cbn [with_rules sk_verdict].
  destruct (record _ _ _ _ _) as [[res v]|]; [|done]. cbn [mbind option_bind]. rewrite <- IH. f_equal.
  destruct res as [f|]; [|done]. unfold maybe_escalate, escalate_if_warranted. by destruct (negb _).
Qed.

Lemma record_findings_keeps event fs s s' :
  record_findings clock event fs s = Some s' -> sk_rules s' = sk_rules s /\ sk_sigma s' = sk_sigma s /\ sk_yara s' = sk_yara s.
Proof. intros H. apply record_findings_acts in H as [-> _]. done. Qed.

Context (exp : f32 -> f32) (log2 : f64 -> f64) (show_ip : IpAddr -> string) (show_belief : BeliefState -> f32 -> string)
  (lower : string -> string) (uni_alnum : string -> bool) (show_secs : f64 -> string)
  (read_proc_comm : Z -> option string) (macos : bool) 
  (session_run : Session -> list f32 -> result (list (string * option (list f32))) ScorerError)
  (own_pid : Z) (show_io_error : io_error -> string).

(** The findings of the single-event rules and of Sigma. *)
Definition stateless_alerts (event : Event) : list Alert :=
  match event with
  | Event_Exec e => evaluate_exec e
  | Event_FileOpen e => evaluate_file_open e
  | Event_Connect e => evaluate_connect show_ip e
  | Event_FileDelete e => evaluate_file_delete e
  | Event_Signal e => evaluate_signal macos e
  | Event_AmsiContent e => evaluate_amsi_content lower uni_alnum e
  | _ => []
  end.
Definition sigma_hits (event : Event) s : list SigmaAlert :=
  match event, sk_sigma s with
  | Event_Exec e, Some sigma => eval_exec lower sigma e
  | _, _ => []
  end.

(** A file opened for writing is queued for scanning. *)
Definition queue_scan (event : Event) s : DetectionSink Session :=
  match event with
  | Event_FileOpen e =>
      if negb (Z.land (file_open_flags e) 67 =? 0)
      then match sk_yara s with
           | Some (queue, count) =>
               let meta := Event_meta event in
               with_yara (Some (try_send SCAN_QUEUE_CAP (mkScanRequest (file_open_path e)
                 (Some (mkScanContext (meta_ppid meta) (meta_comm meta) (meta_parent_process_generation meta)
                          (meta_timestamp_ns meta)))) queue, count)) s
           | None => s
           end
      else s
  | _ => s
  end.

Definition is_memfd (event : Event) : bool := match event with Event_MemfdCreate _ => true | _ => false end.

Notation rule_handler := (rule_handler show_ip lower show_secs read_proc_comm).
Notation detect := (detect show_ip lower uni_alnum show_secs read_proc_comm macos clock).

Definition rule_findings (event : Event) (ral : list Alert) s : list finding :=
  (rule_finding <$> (stateless_alerts event ++ ral)) ++ (sigma_finding <$> sigma_hits event s).

Lemma rules_after event fs (c : Rules (list Alert)) (k : list Alert -> DetectionSink Session -> option (DetectionSink Session)) s :
  (s1 ← record_findings clock event fs s; '(al, s2) ← run_rules c s1; k al s2) =
  '(al, r) ← c (sk_rules s); s1 ← record_findings clock event fs (with_rules r s); k al s1.
Proof.
  unfold run_rules. destruct (record_findings clock event fs s) as [s1|] eqn:E; cbn [mbind option_bind].
  - destruct (record_findings_keeps _ _ _ _ E) as (-> & _). destruct (c (sk_rules s)) as [[al r]|]; [|done].
    cbn [mbind option_bind]. rewrite record_findings_rules, E. done.
  - destruct (c (sk_rules s)) as [[al r]|]; [|done]. cbn [mbind option_bind]. by rewrite record_findings_rules, E.
Qed.

Lemma detect_with_normal event (c : Rules (list Alert)) s :
  detect_with clock c event s =
  '(al, r) ← c (sk_rules s); record_findings clock event ((rule_finding <$> al) ++ []) (with_rules r s).
Proof.
  unfold detect_with, run_rules. destruct (c (sk_rules s)) as [[al r]|]; [|done]. cbn [mbind option_bind].
  by rewrite record_rule_alerts_findings, app_nil_r.
Qed.

Lemma stateless_only event alerts s :
  record_rule_alerts clock event alerts s =
  '(ral, r) ← r_ret [] (sk_rules s); record_findings clock event ((rule_finding <$> (alerts ++ ral)) ++ []) (with_rules r s).
Proof.
  rewrite record_rule_alerts_findings. cbn. rewrite !app_nil_r. by destruct s.
Qed.

Lemma stateless_first event alerts (c : Rules (list Alert)) s :
  (s1 ← record_rule_alerts clock event alerts s; detect_with clock c event s1) =
  '(ral, r) ← c (sk_rules s); record_findings clock event ((rule_finding <$> (alerts ++ ral)) ++ []) (with_rules r s).
Proof.
  rewrite record_rule_alerts_findings. unfold detect_with. rewrite rules_after.
  destruct (c (sk_rules s)) as [[al r]|]; [|done]. cbn [mbind option_bind].
  rewrite app_nil_r, fmap_app, record_findings_app. destruct (record_findings _ _ _ _); [|done]. cbn [mbind option_bind].
  by rewrite record_rule_alerts_findings.
Qed.

Lemma silent_rules (c : Rules unit) event s :
  snd <$> run_rules c s = '(al, r) ← no_alerts c (sk_rules s); record_findings clock event ((rule_finding <$> al) ++ []) (with_rules r s).
Proof. unfold run_rules, no_alerts. cbn. unfold r_bind. destruct (c (sk_rules s)) as [[[] r]|]; done. Qed.

Lemma fmap_id_bind {A} (c : Rules (list Alert)) (r : RuleState) (k : list Alert -> RuleState -> option A) :
  ('(al, r) ← c r; (fun x : A => x) <$> k al r) = '(al, r) ← c r; k al r.
Proof. destruct (c r) as [[al r']|]; [|done]. cbn. by destruct (k al r'). Qed.

Lemma detect_normal event s :
  is_memfd event = false ->
  detect event s =
    '(ral, r) ← rule_handler event (sk_rules s);
    queue_scan event <$> record_findings clock event (rule_findings event ral s) (with_rules r s).
Proof.
  intros Hm. unfold rule_findings, queue_scan.
  destruct event; cbn [Sink.detect RuleTheorems.rule_handler queue_scan stateless_alerts sigma_hits app];
    try done; cbn [fmap list_fmap]; rewrite ?fmap_id_bind;
    try first [apply detect_with_normal | apply stateless_only | apply stateless_first | apply silent_rules
              | by destruct s].
  - unfold detect_exec. rewrite record_rule_alerts_findings, rules_after.
    destruct (on_exec _ _ _ _ _) as [[al r]|]; [|done]. cbn [mbind option_bind].
    rewrite fmap_app, !record_findings_app.
    destruct (record_findings clock _ (_ <$> evaluate_exec e) _) as [s1|] eqn:E1; [|done]. cbn [mbind option_bind].
    rewrite record_rule_alerts_findings.
    destruct (record_findings clock _ (_ <$> al) s1) as [s2|] eqn:E2; [|done]. cbn [mbind option_bind].
    apply record_findings_keeps in E1 as (_ & E1 & _), E2 as (_ & E2 & _). rewrite E2, E1. cbn [with_rules sk_sigma].
    destruct (sk_sigma s); [|done]. apply record_sigma_hits_findings.
  - unfold detect_file_open, run_rules. destruct (on_file_open _ _ _) as [[al r]|]; [|done]. cbn [mbind option_bind].
    rewrite record_rule_alerts_findings, app_nil_r. by destruct (record_findings _ _ _ _).
Qed.

Lemma bind_singles {A B : Type} (f : A -> B) (l : list A) : (l ≫= fun a => [f a]) = f <$> l.
Proof. induction l as [|a l IH]; [done|]. rewrite bind_cons, IH. done. Qed.

Lemma emit_all_logs (alerts : list Alert) s :
  logs s (foldl (fun s a => emit clock (al_technique a) (al_message a) s) s alerts) (text_of <$> (rule_finding <$> alerts)).
Proof.
  rewrite <- list_fmap_compose, <- bind_singles.
  apply (logs_fold (fun a s => emit clock (al_technique a) (al_message a) s)). intros a t. apply logs_emit.
Qed.

Lemma queue_scan_keeps event s :
  queue_scan event s = with_yara (sk_yara (queue_scan event s)) s.
Proof.
  destruct s. unfold queue_scan. destruct event; try done. destruct (negb _); [|done]. by destruct sk_yara as [[? ?]|].
Qed.

(** Detection changes the rules, the verdict, the log and the scan queue only. *)
Lemma detect_acts event s s' :
  detect event s = Some s' ->
  exists ral r s1, rule_handler event (sk_rules s) = Some (ral, r) /\
    acts (with_rules r s) s1 (text_of <$> rule_findings event ral s) /\ s' = with_yara (sk_yara s') s1.
Proof.
  destruct (is_memfd event) eqn:Em.
  - destruct event; try done. cbn [RuleTheorems.rule_handler Sink.detect]. unfold detect_memfd_create, run_rules.
    destruct (on_memfd_create _ _) as [[al r]|]; [|done]. cbn [mbind option_bind]. intros [= <-].
    eexists al, r, _. split; [done|]. unfold rule_findings. cbn [stateless_alerts sigma_hits app].
    rewrite app_nil_r. split; [apply logs_acts, emit_all_logs|by destruct (foldl _ _ _)].
  - rewrite detect_normal by done. destruct (rule_handler event (sk_rules s)) as [[al r]|]; [|done]. cbn [mbind option_bind].
    destruct (record_findings _ _ _ _) as [s1|] eqn:E; [|done]. intros [= <-].
    exists al, r, s1. split; [done|]. split; [by eapply record_findings_acts|]. apply queue_scan_keeps.
Qed.

Lemma detect_total event n s ral r :
  rule_handler event (sk_rules s) = Some (ral, r) -> 0 <= n ->
  vroom (n + Z.of_nat (length (rule_findings event ral s))) s ->
  exists s', detect event s = Some s' /\ vroom n s'.
Proof.
  intros Hr Hn [Hok Ht]. destruct (is_memfd event) eqn:Em.
  - destruct event; try done. cbn [RuleTheorems.rule_handler Sink.detect] in *. unfold detect_memfd_create, run_rules. rewrite Hr.
    eexists. split; [done|]. unfold vroom. cbn [mbind option_bind]. destruct (emit_all_logs ral (with_rules r s)) as [-> _].
    cbn [with_log with_rules sk_verdict]. split; [done|lia].
  - rewrite detect_normal, Hr by done. cbn [mbind option_bind].
    destruct (record_findings_total clock event (rule_findings event ral s) n (with_rules r s) Hn) as (s1 & -> & H1 & H2); [done|].
    eexists. split; [done|]. unfold vroom. rewrite queue_scan_keeps. done.
Qed.

(** *** Correlation *)

Definition correlation_findings (event : Event) (alerts : list CorrelationAlert) : list finding :=
  correlation_finding (correlator_case_id (entity_key (Event_meta event))) <$> alerts.

(** The model's score folded into the belief. *)
Definition ml_step (event : Event) (scorer : option (@Scorer Session)) (engine : CorrelationEngine) : option CorrelationEngine :=
  let m := Event_meta event in
  match scorer with
  | Some sc =>
      llr ← ml_llr session_run sc engine (meta_pid m) (meta_process_generation m);
      Some (update_belief_with_ml (meta_pid m) (meta_process_generation m) llr engine).2
  | None => Some engine
  end.

Notation on_event := (on_event exp log2 show_ip show_belief).
Notation maybe_kill := (maybe_kill clock own_pid show_io_error).
Notation correlate := (correlate exp log2 show_ip show_belief session_run clock own_pid show_io_error).
Notation sink_on_event := (sink_on_event exp log2 show_ip show_belief lower uni_alnum show_secs read_proc_comm macos session_run
  clock own_pid show_io_error).

Lemma correlate_normal event s :
  correlate event s =
  '(al, engine) ← on_event event (sk_correlator s);
  engine ← ml_step event (sk_scorer s) engine;
  s ← record_findings clock event (correlation_findings event al) (with_correlator engine s);
  Some (if existsb (fun a => crosses_kill_gate (ca_technique a)) al then maybe_kill (meta_pid (Event_meta event)) s else s).
Proof.
  unfold Sink.correlate, ml_step. destruct (on_event event (sk_correlator s)) as [[al engine]|]; [|done].
  cbn [mbind option_bind]. unfold correlation_findings. destruct (sk_scorer s) as [sc|].
  - destruct (ml_llr _ _ _ _ _) as [llr|]; [|done]. cbn [mbind option_bind]. by rewrite record_correlations_findings.
  - cbn [mbind option_bind]. by rewrite record_correlations_findings.
Qed.

(** A signal went to [pid] under an armed response. *)
Definition signalled pid s s' : Prop :=
  sk_signals s' = sk_signals s ++ [pid] /\
  exists hooks, sk_response s = Some hooks /\ kill_enabled (rh_policy hooks) = true /\
    protected_reason pid own_pid = None.

Lemma maybe_kill_acts pid s :
  let s' := maybe_kill pid s in
  s' = with_signals (sk_signals s') (with_log (sk_log s') s) /\ wrote (sk_log s) (sk_log s') [] /\
  (sk_signals s' = sk_signals s \/ signalled pid s s').
Proof.
  unfold Sink.maybe_kill, signalled. destruct (sk_response s) as [hooks|] eqn:Er.
  2: { split_and!; [by destruct s|apply wrote_refl|by left]. }
  unfold kill_process. destruct (protected_reason pid own_pid) as [reason|] eqn:Ep;
    [|destruct (kill_enabled (rh_policy hooks)) eqn:Ek; cbn [negb]; [destruct (rh_terminate hooks pid)|]];
    (split_and!; [by destruct s|eapply wrote_weaken; [apply sublist_nil_l|apply wrote_record]|]);
    cbn [emit with_log with_signals sk_signals]; rewrite ?app_nil_r; try by left.
  all: right; split; [done|]; by exists hooks.
Qed.

Lemma correlate_acts event s s' :
  correlate event s = Some s' ->
  exists al engine engine', on_event event (sk_correlator s) = Some (al, engine) /\
    ml_step event (sk_scorer s) engine = Some engine' /\
    s' = with_signals (sk_signals s') (with_log (sk_log s') (with_verdict (sk_verdict s') (with_correlator engine' s))) /\
    wrote (sk_log s) (sk_log s') (text_of <$> correlation_findings event al) /\
    (sk_signals s' = sk_signals s \/
     signalled (meta_pid (Event_meta event)) s s' /\ exists a, a ∈ al /\ ca_technique a = "BAYES").
Proof.
  rewrite correlate_normal. destruct (on_event event (sk_correlator s)) as [[al engine]|]; [|done]. cbn [mbind option_bind].
  destruct (ml_step event (sk_scorer s) engine) as [engine'|] eqn:Eml; [|done]. cbn [mbind option_bind].
  destruct (record_findings _ _ _ _) as [s1|] eqn:E; [|done]. cbn [mbind option_bind]. intros [= Hs].
  exists al, engine, engine'. split; [done|]. split; [done|]. apply record_findings_acts in E as [E1 W1].
  destruct (existsb _ al) eqn:Ex; [|subst s'; split_and!; [by rewrite E1|exact W1|left; by rewrite E1]].
  destruct (maybe_kill_acts (meta_pid (Event_meta event)) s1) as (K1 & K2 & K3). rewrite Hs in K1, K2, K3.
  split_and!.
  - rewrite K1, E1. done.
  - rewrite <- (app_nil_r (text_of <$> _)). by eapply wrote_trans.
  - destruct K3 as [K3|K3]; [left; rewrite K3, E1; done|right]. split.
    + unfold signalled in *. by rewrite E1 in K3.
    + apply existsb_exists in Ex as (a & Ha & Eg). exists a. split; [by apply list_elem_of_In|].
      by apply String.eqb_eq.
Qed.

(** A scorer the constructor returns, whose model has the output it reads. *)
Definition scorer_ready (ln : f64 -> f64) (sc : @Scorer Session) : Prop :=
  (exists arity, scorer_ok ln arity sc) /\ forall features, ~ no_scores session_run (sc_session sc) features.

Lemma ml_step_total (ln : f64 -> f64) event scorer engine :
  (forall sc, scorer = Some sc -> scorer_ready ln sc) ->
  bm_ok (ce_masquerading engine) ->
  exists engine', ml_step event scorer engine = Some engine' /\ bm_ok (ce_masquerading engine').
Proof.
  intros Hsc Hm. unfold ml_step. destruct scorer as [sc|]; [|by exists engine].
  destruct (Hsc sc eq_refl) as [[arity Hok] Hrun].
  assert (exists llr, ml_llr session_run sc engine (meta_pid (Event_meta event)) (meta_process_generation (Event_meta event)) = Some llr)
    as [llr ->].
  { unfold ml_llr, correlation_score. cbv zeta. destruct (gated _); [by eexists|].
    destruct (judge_ok ln session_run arity sc (correlation_extract_features (ce_bus engine) (meta_pid (Event_meta event))
      (meta_process_generation (Event_meta event))) Hok) as [Hp _].
    destruct (judge session_run sc _) as [r|]; [by eexists|]. destruct (proj1 Hp eq_refl) as [_ Hno]. by destruct (Hrun _ Hno). }
  cbn [mbind option_bind]. eexists. split; [done|]. unfold update_belief_with_ml. destruct llr as [llr|]; [|done].
  destruct (last _) as [ev|]; [|done].
  pose proof (resolve_entity_fields (meta_pid (Event_meta event)) (meta_process_generation (Event_meta event))
    (meta_comm (Event_meta ev)) engine) as (_ & _ & B3 & _).
  destruct (resolve_entity _ _ _ _) as [ent e2]. cbn [snd] in *. unfold belief_mut.
  destruct (bm_get_mut _ _ _) as [o b]. cbn [snd with_beliefs ce_masquerading]. by rewrite B3.
Qed.

Lemma correlate_total (ln : f64 -> f64) event n s al engine :
  (forall sc, sk_scorer s = Some sc -> scorer_ready ln sc) ->
  bm_ok (ce_masquerading engine) ->
  on_event event (sk_correlator s) = Some (al, engine) -> 0 <= n ->
  vroom (n + Z.of_nat (length al)) s ->
  exists s', correlate event s = Some s' /\ vroom n s'.
Proof.
  intros Hsc Hm Ho Hn Hv. rewrite correlate_normal, Ho. cbn [mbind option_bind].
  destruct (ml_step_total ln event (sk_scorer s) engine Hsc Hm) as (engine' & -> & _). cbn [mbind option_bind].
  destruct (record_findings_total clock event (correlation_findings event al) n (with_correlator engine' s) Hn) as (s1 & -> & Hv1).
  { unfold correlation_findings. rewrite length_fmap. exact Hv. }
  cbn [mbind option_bind]. eexists. split; [done|]. destruct (existsb _ al); [|done].
  destruct (maybe_kill_acts (meta_pid (Event_meta event)) s1) as (K1 & _). unfold vroom. rewrite K1. exact Hv1.
Qed.

(** *** The invariant of the sink, with [n] findings left to count *)

Definition sink_ok (ln : f64 -> f64) (s : DetectionSink Session) : Prop :=
  rs_ok 5 (sk_rules s) /\
  bm_ok (ce_beliefs (sk_correlator s)) /\ tick (ce_beliefs (sk_correlator s)) + 2 <= U64_MAX /\
  bm_ok (ce_masquerading (sk_correlator s)) /\ tick (ce_masquerading (sk_correlator s)) < U64_MAX /\
  (forall sc, sk_scorer s = Some sc -> scorer_ready ln sc) /\
  ve_ok (sk_verdict s) /\ ring_ok (sk_log s).

(** What the engines find in an event, in the order it is recorded. *)
Definition event_findings (event : Event) (al : list CorrelationAlert) (ral : list Alert) s : list finding :=
  correlation_findings event al ++ rule_findings event ral s.

(** ** Theorems *)

(** C2. Killing is guarded.  Handling an event signals no process, or exactly the
    event's own process once; then the response is armed with killing enabled, the pid
    is not protected (0, 1, the agent's own, one that addresses a process group), and
    the belief of the process's own entity has crossed the alert threshold in the
    correlator's handling of this very event: before it the belief of the entity was
    not marked as alerted, after it the belief is above the threshold and marked.  So
    no rule, Sigma or YARA finding kills, and an entity that stays above the threshold
    is not killed again. *)
Theorem kill_only_on_belief event s s' :
  bm_ok (ce_beliefs (sk_correlator s)) -> tick (ce_beliefs (sk_correlator s)) + 2 <= U64_MAX ->
  bm_ok (ce_masquerading (sk_correlator s)) -> tick (ce_masquerading (sk_correlator s)) < U64_MAX ->
  sink_on_event event s = Some s' ->
  sk_signals s' = sk_signals s \/
  signalled (meta_pid (Event_meta event)) s s' /\
  exists al engine, on_event event (sk_correlator s) = Some (al, engine) /\
    belief_crossed (event_entity event (sk_correlator s)) (sk_correlator s) engine.
Proof.
  intros Hb Htb Hm Htm. unfold Sink.sink_on_event.
  destruct (correlate event s) as [s1|] eqn:Ec; [|done]. cbn [mbind option_bind].
  destruct (detect event s1) as [s2|] eqn:Ed; [|done]. cbn [mbind option_bind]. intros [= <-].
  apply detect_acts in Ed as (ral & r & s3 & _ & [E3 _] & E2).
  assert (sk_signals s2 = sk_signals s1) as Hsig by (rewrite E2, E3; done).
  apply correlate_acts in Ec as (al & engine & engine' & Ho & _ & _ & _ & Hk). unfold signalled in *. cbn [sk_signals].
  rewrite Hsig. destruct Hk as [Hk|[Hk (a & Ha & Et)]]; [by left|right]. split; [done|].
  destruct (on_event_returns exp log2 show_ip show_belief event (sk_correlator s) Hb Htb Hm Htm) as (al' & e' & Ho' & _ & _ & Hx).
  rewrite Ho in Ho'. injection Ho' as <- <-. exists al, engine. split; [done|]. by apply (Hx a).
Qed.

(** C3. An event is handled completely.  In a well-formed sink (its maps within their
    invariants, its model, if any, with the output the scorer reads) the correlator and
    the stateful rules answer, and while the verdict map can count their findings the
    handler returns: every finding of the correlator, of the single-event rules, of
    the stateful rules and of Sigma is written to the alert log in that order,
    whatever is suppressed or deduplicated in the verdict; the ring of recent alerts
    stays the log's tail; the event reaches the enrichment queue and is counted. *)
Theorem event_handled_completely ln event s :
  sink_ok ln s ->
  exists al engine ral r,
    on_event event (sk_correlator s) = Some (al, engine) /\ rule_handler event (sk_rules s) = Some (ral, r) /\
    (tick (ve_entities (sk_verdict s)) + Z.of_nat (length (event_findings event al ral s)) <= U64_MAX ->
     exists s', sink_on_event event s = Some s' /\
       wrote (sk_log s) (sk_log s') (text_of <$> event_findings event al ral s) /\ ring_ok (sk_log s') /\
       sk_rules s' = r /\ rs_ok 0 r /\ ve_ok (sk_verdict s') /\
       sk_enrich s' = try_send ENRICH_QUEUE_CAP event (sk_enrich s) /\
       sk_progress s' = wrap64 (sk_progress s + 1)).
Proof.
  intros (Hrs & Hb & Htb & Hm & Htm & Hsc & Hve & Hring).
  destruct (on_event_returns exp log2 show_ip show_belief event (sk_correlator s) Hb Htb Hm Htm)
    as (al & engine & Ho & _ & Hm' & _).
  destruct (runs_handler show_ip lower show_secs read_proc_comm event 0 (sk_rules s)) as (ral & r & Hr & Hrok); [lia|done|].
  exists al, engine, ral, r. split; [done|]. split; [done|]. intros Ht.
  unfold event_findings, correlation_findings in Ht. rewrite length_app, length_fmap in Ht.
  destruct (correlate_total ln event (Z.of_nat (length (rule_findings event ral s))) s al engine Hsc Hm' Ho) as (s1 & Ec & Hv1);
    [lia|split; [done|lia]|].
  pose proof (correlate_acts _ _ _ Ec) as (al' & eng & engine' & Ho' & _ & E1 & W1 & _).
  rewrite Ho in Ho'. injection Ho' as <- <-.
  assert (sk_rules s1 = sk_rules s /\ rule_findings event ral s1 = rule_findings event ral s) as [R1 F1] by (rewrite E1; done).
  destruct (detect_total event 0 s1 ral r) as (s2 & Ed & Hv2 & _); [by rewrite R1|done|by rewrite F1|].
  pose proof (detect_acts _ _ _ Ed) as (ral' & r' & s3 & Hr' & [E3 W3] & E2). rewrite R1, Hr in Hr'. injection Hr' as <- <-.
  unfold Sink.sink_on_event. rewrite Ec. cbn [mbind option_bind]. rewrite Ed. cbn [mbind option_bind].
  eexists. split; [done|]. cbn [sk_log sk_rules sk_verdict sk_enrich sk_progress].
  assert (wrote (sk_log s) (sk_log s2) (text_of <$> event_findings event al ral s)) as HW.
  { unfold event_findings. rewrite fmap_app. eapply wrote_trans; [exact W1|]. rewrite E2. cbn [with_yara sk_log].
    rewrite F1 in W3. exact W3. }
  assert (sk_enrich s2 = sk_enrich s /\ sk_progress s2 = sk_progress s /\ sk_rules s2 = r) as (-> & -> & ->)
    by (rewrite E2, E3; cbn; rewrite E1; done).
  split_and!; try done. by apply HW.
Qed.

(** *** A fileless execution found at the memfd's creation *)

(** The alert raised when the memfd creation is processed after its execution is
    written to the log and nothing else: the verdict of the entity does not change
    and nothing is escalated, though the same alert raised in the other order is
    fused like every rule's. *)
Theorem memfd_alert_not_fused e s s' :
  detect (Event_MemfdCreate e) s = Some s' ->
  exists ral r, rule_handler (Event_MemfdCreate e) (sk_rules s) = Some (ral, r) /\
    sk_verdict s' = sk_verdict s /\ length (log_file (sk_log s')) = (length (log_file (sk_log s)) + length ral)%nat.
Proof.
  cbn [RuleTheorems.rule_handler Sink.detect]. unfold detect_memfd_create, run_rules.
  destruct (on_memfd_create _ _) as [[al r]|]; [|done]. cbn [mbind option_bind]. intros [= <-].
  exists al, r. split; [done|]. destruct (emit_all_logs al (with_rules r s)) as [E _]. split; [by rewrite E|]. clear E.
  change (log_file (sk_log s)) with (log_file (sk_log (with_rules r s))). generalize (with_rules r s). intros t. revert t.
  induction al as [|a al IH]; intros t; cbn [foldl length]; [lia|]. rewrite IH. cbn [emit with_log log_record sk_log log_file].
  rewrite length_app. cbn [length]. lia.
Qed.

(** *** The scan worker's callback *)

Context (show_path : path -> string) (sha256 : bytes -> bytes) (path_text : path -> bytes) (to_path : string -> path).
Notation on_match := (on_match clock show_path show_io_error sha256 path_text to_path).
Notation quarantine_file := (quarantine_file sha256 path_text).

Definition yara_line (p : string) (rule : YaraMatch) : string * string :=
  ("YARA", cat ["yara rule "; ym_identifier rule; " matched "; show_path (to_path p)]).

(** A match as a detection on the lineage of the process that wrote the file. *)
Definition match_entity (context : ScanContext) : EntityKey :=
  with_parent_generation (EntityKey_new (scx_ppid context) (scx_comm context)) (scx_parent_generation context).
Definition match_detection (context : ScanContext) (rule : YaraMatch) : string * Detection :=
  (ym_technique rule,
   mkDetection (scx_timestamp_ns context) (ym_severity rule) (cat ["yara rule "; ym_identifier rule; " matched"])
     (Source_Yara (ym_identifier rule)) None [] (techniques_from (ym_technique rule)) []).

(** Detections recorded one after the other for one entity, and the verdicts they gave. *)
Fixpoint record_all (entity : EntityKey) (now : Z) (ds : list (string * Detection)) (v : VerdictEngine)
    : option (list Verdict * VerdictEngine) :=
  match ds with
  | [] => Some ([], v)
  | (technique, d) :: ds =>
      '(r, v) ← record v entity technique d now;
      '(fused, v) ← record_all entity now ds v;
      Some (option_list r ++ fused, v)
  end.

Lemma record_all_total entity now ds v :
  ve_ok v -> tick (ve_entities v) + Z.of_nat (length ds) <= U64_MAX ->
  exists fused v', record_all entity now ds v = Some (fused, v') /\ ve_ok v'.
Proof.
  revert v. induction ds as [|[t d] ds IH]; intros v Hok Ht; cbn [record_all length] in *; [by exists [], v|].
  destruct (record_total v entity t d now Hok) as (r & v1 & -> & Hv & Htv); [lia|]. cbn [mbind option_bind].
  destruct (IH v1 Hv) as (fused & v' & -> & Hok'); [lia|]. by do 2 eexists.
Qed.

Lemma fuse_all_records context rules s :
  fuse_all context rules s =
  '(fused, v) ← record_all (match_entity context) (scx_timestamp_ns context) (match_detection context <$> rules) (sk_verdict s);
  Some (fused, with_verdict v s).
Proof.
  revert s. induction rules as [|rule rules IH]; intros s; cbn [fuse_all fmap list_fmap record_all]; [by destruct s|].
  unfold match_detection at 1, fuse_yara_match. cbv zeta beta iota. fold (match_entity context).
  destruct (record _ _ _ _ _) as [[r v]|]; [|done]. cbn [mbind option_bind]. rewrite IH. cbn [with_verdict sk_verdict].
  destruct (record_all _ _ _ v) as [[fused v']|]; [|done]. cbn [mbind option_bind]. by destruct r.
Qed.

(** What the matches of a scan come to in the verdict: nothing when the writer is not
    known, else each match a detection of its lineage. *)
Definition fused_matches (outcome : ScanOutcome) (v : VerdictEngine) : option (list Verdict * VerdictEngine) :=
  match so_context outcome with
  | Some context =>
      record_all (match_entity context) (scx_timestamp_ns context) (match_detection context <$> so_matches outcome) v
  | None => Some ([], v)
  end.

Lemma yara_lines_logs p rules s :
  logs s (foldl (fun s rule => emit clock "YARA" (cat ["yara rule "; ym_identifier rule; " matched "; show_path (to_path p)]) s) s rules)
    (yara_line p <$> rules).
Proof.
  rewrite <- bind_singles. apply (logs_fold (fun rule s => emit clock "YARA" (cat ["yara rule "; ym_identifier rule; " matched "; show_path (to_path p)]) s)).
  intros r t. apply logs_emit.
Qed.

Lemma escalations_logs fused s :
  logs s (foldl (fun s v => escalate_if_warranted clock v s) s fused) (fused ≫= escalation_lines).
Proof. apply (logs_fold (escalate_if_warranted clock)). intros v t. apply logs_escalate. Qed.

(** The file system after the response to a match at [p]. *)
Definition contained (p : path) s : fsys :=
  match sk_response s with
  | Some hooks => if bool_decide (under (rh_quarantine_dir hooks) p) then sk_fs s
                  else (quarantine_file p (rh_quarantine_dir hooks) (rh_policy hooks) (sk_fs s)).2
  | None => sk_fs s
  end.

(** C22. A scan's outcome is handled completely: while the verdict map can count the
    matches the callback returns; when the writer of the file is known every match is
    recorded, in order, as a YARA detection of its process's lineage, and the verdict
    is changed by nothing else; each match, and each resulting verdict severe enough
    to be escalated, has its line in the alert log; no process is signalled, and the
    file system changes only by the quarantine of the matched file itself, when the
    response is armed, something matched and the file is not already below the
    quarantine directory. *)
Theorem match_handled outcome s :
  ve_ok (sk_verdict s) -> tick (ve_entities (sk_verdict s)) + Z.of_nat (length (so_matches outcome)) <= U64_MAX ->
  exists s' fused, on_match outcome s = Some s' /\
    fused_matches outcome (sk_verdict s) = Some (fused, sk_verdict s') /\ ve_ok (sk_verdict s') /\
    wrote (sk_log s) (sk_log s') ((yara_line (so_path outcome) <$> so_matches outcome) ++ (fused ≫= escalation_lines)) /\
    sk_signals s' = sk_signals s /\
    sk_fs s' = match so_matches outcome with [] => sk_fs s | _ => contained (to_path (so_path outcome)) s end.
Proof.
  intros Hok Ht. unfold Sink.on_match.
  assert (exists fused v, fused_matches outcome (sk_verdict s) = Some (fused, v) /\ ve_ok v /\
    (match so_context outcome with Some context => fuse_all context (so_matches outcome) s | None => Some ([], s) end)
      = Some (fused, with_verdict v s)) as (fused & v & Hf & Hv & ->).
  { unfold fused_matches. destruct (so_context outcome) as [c|]; [|exists [], (sk_verdict s); by destruct s].
    rewrite fuse_all_records. destruct (record_all_total (match_entity c) (scx_timestamp_ns c) (match_detection c <$> so_matches outcome)
      (sk_verdict s) Hok) as (fused & v & -> & Hv); [by rewrite length_fmap|]. by exists fused, v. }
  cbn [mbind option_bind]. eexists _, fused. split; [done|].
  pose proof (logs_trans _ _ _ _ _ (yara_lines_logs (so_path outcome) (so_matches outcome) (with_verdict v s))
    (escalations_logs fused _)) as [E2 W2].
  set (s2 := foldl _ _ fused) in *. clearbody s2.
  assert (sk_verdict s2 = v /\ sk_signals s2 = sk_signals s /\ sk_fs s2 = sk_fs s /\ sk_response s2 = sk_response s)
    as (F1 & F2 & F3 & F4) by (rewrite E2; done). cbn [with_verdict sk_log] in W2.
  destruct (so_matches outcome) as [|m ms]; [by rewrite F1, F2, F3|].
  unfold quarantine_matched_payload, contained. rewrite F4.
  destruct (sk_response s) as [hooks|]; [|by rewrite F1, F2, F3].
  destruct (bool_decide _); [by rewrite F1, F2, F3|]. rewrite F3.
  destruct (quarantine_file _ _ _ _) as [out f]. cbn [emit with_log with_fs sk_verdict sk_signals sk_fs sk_log snd].
  rewrite F1, F2. split_and!; try done. rewrite <- (app_nil_r (_ ++ _)). eapply wrote_trans; [exact W2|].
  eapply wrote_weaken; [apply sublist_nil_l|apply wrote_record].
Qed.
End Normal.

(** *** Sigma's key *)

Lemma starts_with_extend p t u : starts_with p t = true -> starts_with p (t +:+ u) = true.
Proof.
  unfold starts_with. revert t. induction p as [|a p IH]; intros t; [by destruct t|].
  destruct t as [|b t]; [done|]. change (String b t +:+ u) with (String b (t +:+ u)). cbn [strip_prefix].
  destruct (Ascii.eqb a b); [apply IH|done].
Qed.

Lemma join_starts p sep t ts : starts_with p t = true -> starts_with p (join sep (t :: ts)) = true.
Proof.
  intros H. destruct ts as [|u ts]; [exact H|]. cbn [join]. unfold cat. cbn [foldr]. by apply starts_with_extend.
Qed.

(** A Sigma hit is recorded in the verdict under its rule's raw tags: for a rule
    whose first tag is an [attack.] tag, the key is none of the ATT&CK ids of the
    hit, the ids the native rules and YARA use as keys.  So the same technique
    reported by Sigma and by another engine on one entity is never one finding. *)
Theorem sigma_key_is_no_attack_id lower rule ev hit tag tags :
  eval_rule_exec lower rule ev = Some hit -> sr_tags rule = tag :: tags -> starts_with "attack." tag = true ->
  starts_with "attack." (sigma_technique hit) = true /\ sigma_technique hit ∉ sa_techniques hit.
Proof.
  unfold eval_rule_exec. intros H Ht Hs. destruct (sd_selections _ !! _) as [sel|]; [|done].
  destruct (eval_selection_exec lower sel ev); [|done]. injection H as <-. unfold sigma_technique.
  cbn [sa_tags sa_techniques]. rewrite Ht. pose proof (join_starts "attack." "/" tag tags Hs) as Hj. split; [done|].
  intros Hin. apply list_elem_of_omap in Hin as (t & _ & Hid). revert Hj Hid.
  generalize (join "/" (tag :: tags)). intros k Hk Hid. unfold technique_id in Hid.
  destruct (strip_prefix _ _) as [rest|]; [|done]. destruct (match split_once _ _ with Some _ => _ | None => _ end) as [id sub].
  destruct (_ || _); [done|]. destruct sub as [sub|]; [destruct (_ && _); [|done]|]; injection Hid as <-; done.
Qed.

(** ** Witnesses *)

(** An armed sink whose entity [(1, "a")] is close to certain. *)
Definition hot_engine : CorrelationEngine :=
  mkEngine (bus_new 60) 60
    (bm_insert (1, "a") (mkStamped None (mkBelief (f32_of_Z 50) 10 false)) (fresh_map 100))
    (fresh_map 100) (fresh_map 100) (fresh_map 100).

Definition demo_sink (engine : CorrelationEngine) : DetectionSink unit :=
  mkSink fresh_rules engine None None (AlertLog_open RECENT_ALERTS_CAPACITY) None [] (mkChannel [] 0) 0
    (Some (mkResponseHooks (mkResponsePolicy true true) (fun _ => Ok tt) ["q"]))
    (mkVerdictEngine (fresh_map 4096) ∅ VERDICT_DEDUP_WINDOW_NS) (mkFs ∅ []) [].

Definition one (_ : f32) : f32 := f32_of_Z 1.
Definition demo_run_sink := sink_on_event one id no_ip (fun _ _ => "") to_ascii_lowercase (fun _ => false)
  (fun _ => "") (fun _ => None) false (fun (_ : unit) _ => Ok []) (fun _ => 0) 99 (fun _ => "").

Lemma hot_engine_ok : bm_ok (ce_beliefs hot_engine).
Proof. apply (bm_insert_client (fresh_map 100)); [apply fresh_map_ok; unfold U64_MAX; lia|cbn; unfold U64_MAX; lia]. Qed.

Lemma hot_engine_signals :
  (sk_signals <$> demo_run_sink (demo_exec 7 "a" "/tmp/a" 10) (demo_sink hot_engine)) = Some [7].
Proof. vm_compute. reflexivity. Qed.

Lemma demo_sink_ok : sink_ok (fun _ _ => Ok []) id (demo_sink hot_engine).
Proof.
  split_and!; [apply fresh_rules_room; unfold U64_MAX; lia|apply hot_engine_ok|vm_compute; discriminate
    |apply fresh_map_ok; unfold U64_MAX; lia|vm_compute; reflexivity|done|apply fresh_map_ok; unfold U64_MAX; lia|].
  reflexivity.
Qed.

Lemma kill_only_on_belief_witness :
  exists s' al engine, demo_run_sink (demo_exec 7 "a" "/tmp/a" 10) (demo_sink hot_engine) = Some s' /\
    sk_signals s' = [7] /\
    on_event one id no_ip (fun _ _ => "") (demo_exec 7 "a" "/tmp/a" 10) hot_engine = Some (al, engine) /\
    belief_crossed (event_entity (demo_exec 7 "a" "/tmp/a" 10) hot_engine) hot_engine engine.
Proof.
  pose proof hot_engine_signals as Hs.
  destruct (demo_run_sink (demo_exec 7 "a" "/tmp/a" 10) (demo_sink hot_engine)) as [s'|] eqn:E; [|discriminate Hs].
  injection Hs as Hs. exists s'.
  destruct (kill_only_on_belief (fun _ => 0) one id no_ip (fun _ _ => "") to_ascii_lowercase (fun _ => false)
    (fun _ => "") (fun _ => None) false (fun (_ : unit) _ => Ok []) 99 (fun _ => "")
    (demo_exec 7 "a" "/tmp/a" 10) (demo_sink hot_engine) s') as [H|[_ (al & engine & H1 & H2)]];
    [apply hot_engine_ok|vm_compute; discriminate|apply fresh_map_ok; unfold U64_MAX; lia|vm_compute; reflexivity|exact E| |].
  - rewrite Hs in H. discriminate H.
  - exists al, engine. split; [reflexivity|]. split; [exact Hs|]. split; [exact H1|exact H2].
Defined.

Lemma event_handled_completely_witness :
  exists al engine ral r,
    on_event one id no_ip (fun _ _ => "") (demo_exec 7 "a" "/tmp/a" 10) hot_engine = Some (al, engine) /\
    rule_handler no_ip to_ascii_lowercase (fun _ => "") (fun _ => None) (demo_exec 7 "a" "/tmp/a" 10) fresh_rules = Some (ral, r).
Proof.
  destruct (event_handled_completely (fun _ => 0) one id no_ip (fun _ _ => "") to_ascii_lowercase (fun _ => false)
    (fun _ => "") (fun _ => None) false (fun (_ : unit) _ => Ok []) 99 (fun _ => "") id
    (demo_exec 7 "a" "/tmp/a" 10) (demo_sink hot_engine) demo_sink_ok) as (al & engine & ral & r & H1 & H2 & _).
  exists al, engine, ral, r. split; [exact H1|exact H2].
Defined.

Lemma match_handled_witness :
  let outcome := mkScanOutcome "a" (Some (mkScanContext 1 "a" None 5)) [mkYaraMatch "r" High "T1486"] in
  exists s' v, on_match (fun _ => 0) (fun _ => "") (fun _ => "") id (fun _ => []) (fun p => [p]) outcome (demo_sink hot_engine) = Some s' /\
    fused_matches outcome (sk_verdict (demo_sink hot_engine)) = Some ([v], sk_verdict s') /\
    v_severity v = High /\ v_techniques v = ["T1486"] /\
    wrote (AlertLog_open RECENT_ALERTS_CAPACITY) (sk_log s') (("YARA", "yara rule r matched ") :: escalation_lines v).
Proof.
  cbv zeta.
  destruct (match_handled (fun _ => 0) (fun _ => "") (fun _ => "") id (fun _ => []) (fun p => [p])
    (mkScanOutcome "a" (Some (mkScanContext 1 "a" None 5)) [mkYaraMatch "r" High "T1486"]) (demo_sink hot_engine))
    as (s' & fused & H1 & H2 & _ & H3 & _);
    [apply fresh_map_ok; unfold U64_MAX; lia|vm_compute; discriminate|].
  assert (exists v, fused = [v] /\ v_severity v = High /\ v_techniques v = ["T1486"]) as (v & -> & Hv1 & Hv2).
  { apply (f_equal (fmap fst)) in H2. cbn [fmap option_fmap option_map fst] in H2. vm_compute in H2. injection H2 as <-.
    eexists. split; [reflexivity|]. split; reflexivity. }
  exists s', v. split; [exact H1|]. split; [exact H2|]. split; [exact Hv1|]. split; [exact Hv2|].
  cbn [so_matches fmap list_fmap] in H3. rewrite bind_cons in H3. change ([] ≫= escalation_lines) with (@nil (string * string)) in H3. rewrite app_nil_r in H3. exact H3.
Defined.

Lemma memfd_alert_not_fused_witness :
  exists s', detect no_ip to_ascii_lowercase (fun _ => false) (fun _ => "") (fun _ => None) false (fun _ => 0)
      (Event_MemfdCreate demo_memfd) (demo_sink hot_engine) = Some s' /\ sk_verdict s' = sk_verdict (demo_sink hot_engine).
Proof.
  destruct (detect no_ip to_ascii_lowercase (fun _ => false) (fun _ => "") (fun _ => None) false (fun _ => 0)
      (Event_MemfdCreate demo_memfd) (demo_sink hot_engine)) as [s'|] eqn:E; [|vm_compute in E; discriminate E].
  destruct (memfd_alert_not_fused (fun _ => 0) no_ip to_ascii_lowercase (fun _ => false) (fun _ => "") (fun _ => None) false
    demo_memfd (demo_sink hot_engine) s' E) as (ral & r & _ & H & _).
  exists s'. split; [reflexivity|exact H].
Defined.

Lemma sigma_key_is_no_attack_id_witness :
  exists hit, eval_rule_exec to_ascii_lowercase (sample_sigma (FieldMap [("Image|EndsWith", Single "/NC")])) sample_sigma_exec
      = Some hit /\ sigma_technique hit ∉ sa_techniques hit.
Proof.
  eexists. split; [reflexivity|].
  eapply (sigma_key_is_no_attack_id to_ascii_lowercase (sample_sigma (FieldMap [("Image|EndsWith", Single "/NC")])) sample_sigma_exec);
    [reflexivity|reflexivity|reflexivity].
Defined.
