(* ===== verification/YaraMemory.v ===== *)
(** * YaraMemory: scanning a process's memory (crates/yara, memory.rs)

    The choice of regions, the budgeted scan and the admission gate of the queue.
    The memory source (the platform's region map and reads) and the rule engine
    are arguments. *)
From stdpp Require Import base gmap strings list.
From Stdlib Require Import ZArith Lia.
From S2P Require Import Prelude Fs Bounded Schema Str Sink.
#[local] Open Scope Z_scope.

Record RegionPerms := mkRegionPerms { rp_read : bool; rp_write : bool; rp_exec : bool }.
(** [RegionPerms::parse]. *)
Definition perms_parse (perms : string) : RegionPerms :=
  mkRegionPerms (str_contains "r" perms) (str_contains "w" perms) (str_contains "x" perms).

Inductive RegionKind := Anonymous | Memfd | Deleted | FileBacked | Special.

Record MemoryRegion := mkMemoryRegion { mr_start : Z; mr_end : Z; mr_perms : RegionPerms; mr_kind : RegionKind }.

Definition region_len (r : MemoryRegion) : Z := mr_end r -sat mr_start r.
Definition region_is_empty (r : MemoryRegion) : bool := region_len r =? 0.
Definition is_candidate (r : MemoryRegion) : bool :=
  rp_read (mr_perms r) && rp_exec (mr_perms r)
  && match mr_kind r with Anonymous | Memfd | Deleted => true | _ => false end.
Definition priority (r : MemoryRegion) : Z :=
  if rp_write (mr_perms r) then 0 else match mr_kind r with Memfd | Deleted => 1 | _ => 2 end.

Record MemoryBudget := mkMemoryBudget { max_regions : Z; max_region_bytes : Z; max_total_bytes : Z }.
Definition MAX_SCAN_BYTES : Z := 64 * 1024 * 1024.
Definition MemoryBudget_default : MemoryBudget := mkMemoryBudget 16 (16 * 1024 * 1024) MAX_SCAN_BYTES.

Record MemoryScanReport := mkMemoryScanReport {
  sr_matches : list YaraMatch;
  sr_regions_scanned : Z;
  sr_regions_skipped : Z;
  sr_regions_unreadable : Z;
  sr_regions_truncated : Z;
  sr_bytes_scanned : Z }.
Definition report_default : MemoryScanReport := mkMemoryScanReport [] 0 0 0 0 0.

(** [sort_by_key(|r| (r.priority(), r.start))], a stable sort. *)
Definition key_le (a b : MemoryRegion) : bool :=
  (priority a <? priority b) || ((priority a =? priority b) && (mr_start a <=? mr_start b)).
Fixpoint insert_region (r : MemoryRegion) (l : list MemoryRegion) : list MemoryRegion :=
  match l with [] => [r] | y :: l' => if key_le r y then r :: l else y :: insert_region r l' end.
Definition sort_regions (l : list MemoryRegion) : list MemoryRegion := foldr insert_region [] l.

Definition scan_candidates (regions : list MemoryRegion) : list MemoryRegion :=
  sort_regions (filter (fun r => negb (region_is_empty r) && is_candidate r = true) regions).

(** A match is kept when its rule is new. *)
Definition add_match (ms : list YaraMatch) (m : YaraMatch) : list YaraMatch :=
  if existsb (fun k => String.eqb (ym_identifier k) (ym_identifier m)) ms then ms else ms ++ [m].

Section Scan.
(** The process's reads, and the engine on the bytes of a region. *)
Context (read : Z -> Z -> Z -> result bytes unit) (scan_bytes : bytes -> result (list YaraMatch) unit).

(** On the 64-bit targets a length of 64 bits is a [usize]. *)
Fixpoint scan_loop (pid : Z) (budget : MemoryBudget) (l : list MemoryRegion) (report : MemoryScanReport) : MemoryScanReport :=
  match l with
  | [] => report
  | region :: rest =>
      let remaining := max_total_bytes budget -sat sr_bytes_scanned report in
      if (max_regions budget <=? sr_regions_scanned report) || (remaining =? 0) then
        mkMemoryScanReport (sr_matches report) (sr_regions_scanned report) (Z.of_nat (length l)) (sr_regions_unreadable report)
          (sr_regions_truncated report) (sr_bytes_scanned report)
      else
        let want := Z.min (Z.min (region_len region) (max_region_bytes budget)) remaining in
        scan_loop pid budget rest
          (match read pid (mr_start region) want with
           | Ok ((_ :: _) as data) =>
               mkMemoryScanReport
                 (match scan_bytes data with Ok found => foldl add_match (sr_matches report) found | Err _ => sr_matches report end)
                 (sr_regions_scanned report + 1) (sr_regions_skipped report) (sr_regions_unreadable report)
                 (sr_regions_truncated report + if Z.of_nat (length data) <? region_len region then 1 else 0)
                 (sr_bytes_scanned report + Z.of_nat (length data))
           | _ => mkMemoryScanReport (sr_matches report) (sr_regions_scanned report) (sr_regions_skipped report)
                    (sr_regions_unreadable report + 1) (sr_regions_truncated report) (sr_bytes_scanned report)
           end)
  end.
Definition scan_memory (regions : Z -> result (list MemoryRegion) unit) (pid : Z) (budget : MemoryBudget) : result MemoryScanReport unit :=
  match regions pid with
  | Err e => Err e
  | Ok rs => Ok (scan_loop pid budget (scan_candidates rs) report_default)
  end.
End Scan.

(** ** The queue's gate *)

Definition COOLDOWN_NS : Z := 5 * 60 * 1000000000.
Definition MAX_SCANS_PER_MINUTE : Z := 6.
Definition COOLDOWN_ENTRIES : Z := 4096.
Definition MINUTE_NS : Z := 60 * 1000000000.

Definition ScanKey : Type := Z * option Z.
Record Gate := mkGate { last_scan : BoundedMap ScanKey Z; recent : list Z }.
Record ScanQueue := mkScanQueue { sq_gate : Gate; sq_shed_queue_full : Z; sq_shed_cooldown : Z; sq_shed_rate : Z }.
Definition scan_queue_start (b : BoundedMap ScanKey Z) : ScanQueue := mkScanQueue (mkGate b []) 0 0 0.

Fixpoint prune_recent (now_ns : Z) (recent : list Z) : list Z :=
  match recent with
  | [] => []
  | t :: rest => if MINUTE_NS <=? now_ns -sat t then prune_recent now_ns rest else recent
  end.

(** [sent]: what [try_send] answers. *)
Definition enqueue (q : ScanQueue) (pid : Z) (generation : option Z) (now_ns : Z) (sent : bool) : bool * ScanQueue :=
  let gate := sq_gate q in
  let key := (pid, generation) in
  let cooling := match bm_peek key (last_scan gate) with Some last => now_ns -sat last <? COOLDOWN_NS | None => false end in
  if cooling then
    (false, mkScanQueue gate (sq_shed_queue_full q) (sq_shed_cooldown q + 1) (sq_shed_rate q))
  else
    let gate := mkGate (last_scan gate) (prune_recent now_ns (recent gate)) in
    if MAX_SCANS_PER_MINUTE <=? Z.of_nat (length (recent gate)) then
      (false, mkScanQueue gate (sq_shed_queue_full q) (sq_shed_cooldown q) (sq_shed_rate q + 1))
    else if negb sent then
      (false, mkScanQueue gate (sq_shed_queue_full q + 1) (sq_shed_cooldown q) (sq_shed_rate q))
    else
      (true, mkScanQueue (mkGate (bm_insert key now_ns (last_scan gate)) (recent gate ++ [now_ns]))
               (sq_shed_queue_full q) (sq_shed_cooldown q) (sq_shed_rate q)).
