(* ===== verification/YaraMemoryTheorems.v ===== *)
(** * YaraMemoryTheorems: the memory scan's budget and its admission gate

    What a scan reads, counts and reports, and how often the gate admits one. *)
From stdpp Require Import base gmap strings list sorting.
From Stdlib Require Import ZArith Lia.
From S2P Require Import Prelude Fs Bounded Schema Str Sink YaraMemory.
#[local] Open Scope Z_scope.

(** ** The scan *)

Definition identifiers (ms : list YaraMatch) : list string := ym_identifier <$> ms.

Lemma add_match_ids ms m :
  (NoDup (identifiers ms) -> NoDup (identifiers (add_match ms m))) /\ ym_identifier m ∈ identifiers (add_match ms m)
  /\ (forall i, i ∈ identifiers ms -> i ∈ identifiers (add_match ms m)).
Proof.
  unfold add_match. destruct (existsb _ ms) eqn:E.
  - split; [done|]. split; [|done]. apply existsb_exists in E as (k & Hk & Heq%String.eqb_eq). apply list_elem_of_fmap.
    exists k. split; [done|]. by apply list_elem_of_In.
  - unfold identifiers. rewrite fmap_app. split; [|set_solver]. intros Hnd. apply NoDup_app. split; [done|]. split; [|by apply NoDup_singleton].
    intros i Hi ->%list_elem_of_singleton. apply list_elem_of_fmap in Hi as (k & Heq & Hk). apply list_elem_of_In in Hk.
    assert (existsb (fun k => String.eqb (ym_identifier k) (ym_identifier m)) ms = true) as E2; [|congruence].
    apply existsb_exists. exists k. split; [done|]. by apply String.eqb_eq.
Qed.

Lemma add_matches_ids found ms :
  (NoDup (identifiers ms) -> NoDup (identifiers (foldl add_match ms found)))
  /\ (forall m, m ∈ found -> ym_identifier m ∈ identifiers (foldl add_match ms found))
  /\ (forall i, i ∈ identifiers ms -> i ∈ identifiers (foldl add_match ms found)).
Proof.
  revert ms. induction found as [|m found IH]; intros ms; [split_and!; [done|by intros ? ?%not_elem_of_nil|done]|].
  cbn [foldl]. destruct (IH (add_match ms m)) as (H1 & H2 & H3). destruct (add_match_ids ms m) as (A1 & A2 & A3).
  split_and!; [auto| |auto]. intros m' [->|Hm]%elem_of_cons; auto.
Qed.

Lemma insert_region_perm r l : insert_region r l ≡ₚ r :: l.
Proof. induction l as [|y l IH]; [done|]. simpl. destruct (key_le r y); [done|]. rewrite IH. apply perm_swap. Qed.

Definition key_leP (a b : MemoryRegion) : Prop := key_le a b = true.
Lemma key_le_total a b : key_le a b = false -> key_le b a = true.
Proof. unfold key_le. rewrite orb_false_iff, andb_false_iff, orb_true_iff, andb_true_iff. lia. Qed.

Lemma insert_region_sorted r l : Sorted key_leP l -> Sorted key_leP (insert_region r l).
Proof.
  induction 1 as [|y l Hl IH Hd]; [repeat constructor|]. simpl. destruct (key_le r y) eqn:E; [repeat constructor; done|].
  constructor; [done|]. apply key_le_total in E. destruct l as [|z l]; simpl; [by constructor|].
  destruct (key_le r z); constructor; [done|]. by inversion Hd.
Qed.

Lemma scan_candidates_sorted rs : Sorted key_leP (scan_candidates rs).
Proof. unfold scan_candidates, sort_regions. induction (filter _ rs) as [|r l IH]; [constructor|]. by apply insert_region_sorted. Qed.
Lemma scan_candidates_perm rs : scan_candidates rs ≡ₚ filter (fun r => negb (region_is_empty r) && is_candidate r = true) rs.
Proof. unfold scan_candidates, sort_regions. induction (filter _ rs) as [|r l IH]; [done|]. simpl. by rewrite insert_region_perm, IH. Qed.

Section Scan.
Context (read : Z -> Z -> Z -> result bytes unit) (scan_bytes : bytes -> result (list YaraMatch) unit) (pid : Z) (budget : MemoryBudget).

(** The contract of [MemorySource::read]: at most what was asked for. *)
Definition read_bounded : Prop := forall start len data, read pid start len = Ok data -> Z.of_nat (length data) <= Z.max len 0.

(** What a report always satisfies while [done_] regions were handled. *)
Definition report_ok (handled : Z) (r : MemoryScanReport) : Prop :=
  sr_regions_scanned r + sr_regions_unreadable r + sr_regions_skipped r = handled
  /\ 0 <= sr_regions_truncated r <= sr_regions_scanned r /\ sr_regions_scanned r <= Z.max 0 (max_regions budget)
  /\ 0 <= sr_bytes_scanned r <= max_total_bytes budget /\ 0 <= sr_regions_unreadable r
  /\ NoDup (identifiers (sr_matches r)).

Lemma scan_loop_ok l handled r :
  read_bounded -> 0 <= max_region_bytes budget -> sr_regions_skipped r = 0 -> report_ok handled r ->
  report_ok (handled + Z.of_nat (length l)) (scan_loop read scan_bytes pid budget l r).
Proof.
  intros Hread Hb. revert handled r. induction l as [|region l IH]; intros handled r Hskip Hr.
  - cbn [scan_loop length]. by rewrite Z.add_0_r.
  - cbn [scan_loop]. destruct Hr as (H1 & H2 & H3 & H4 & H5 & H6).
    destruct ((max_regions budget <=? sr_regions_scanned r) || (max_total_bytes budget -sat sr_bytes_scanned r =? 0)) eqn:Estop.
    { unfold report_ok. cbn [sr_regions_scanned sr_regions_unreadable sr_regions_skipped sr_regions_truncated sr_bytes_scanned sr_matches].
      split_and!; try done; lia. }
    apply orb_false_iff in Estop as [E1%Z.leb_gt E2%Z.eqb_neq]. cbn [length]. rewrite Nat2Z.inj_succ, <- Z.add_1_l, Z.add_assoc.
    set (want := Z.min _ _).
    assert (0 <= want <= max_total_bytes budget - sr_bytes_scanned r) as Hw.
    { unfold want, region_len, sat_sub in *. lia. }
    destruct (read pid (mr_start region) want) as [[|x data]|e] eqn:Er; apply IH; try done;
      unfold report_ok; cbn [sr_regions_scanned sr_regions_unreadable sr_regions_skipped sr_regions_truncated sr_bytes_scanned sr_matches];
      (split_and!; try done; try lia).
    all: apply Hread in Er; try (case_match; lia); try lia.
    destruct (scan_bytes (x :: data)) as [found|]; [|done]. by apply add_matches_ids.
Qed.

(** Matches are never dropped. *)
Lemma scan_loop_keeps l r i :
  i ∈ identifiers (sr_matches r) -> i ∈ identifiers (sr_matches (scan_loop read scan_bytes pid budget l r)).
Proof.
  revert r. induction l as [|y l IH]; intros r Hi; [done|]. cbn [scan_loop]. destruct (_ || _); [done|]. apply IH.
  destruct (read _ _ _) as [[|x data]|e]; cbn [sr_matches]; try done. destruct (scan_bytes (x :: data)); [|done]. by apply add_matches_ids.
Qed.

(** When the budget covers the candidates, every region is read whole and every
    finding of the engine is in the report. *)
Lemma scan_loop_complete l r region data found m :
  read_bounded -> sr_regions_scanned r + Z.of_nat (length l) <= max_regions budget ->
  0 <= sr_bytes_scanned r -> sr_bytes_scanned r + foldr Z.add 0 (region_len <$> l) <= max_total_bytes budget ->
  Forall (fun x => 0 < region_len x <= max_region_bytes budget) l ->
  region ∈ l -> read pid (mr_start region) (region_len region) = Ok data -> data <> [] -> scan_bytes data = Ok found -> m ∈ found ->
  ym_identifier m ∈ identifiers (sr_matches (scan_loop read scan_bytes pid budget l r)).
Proof.
  intros Hread. revert r. induction l as [|y l IH]; intros r Hn H0 Hs Hl Hin Hr Hne Hf Hm; [by apply not_elem_of_nil in Hin|].
  apply Forall_cons in Hl as [Hy Hl]. cbn [scan_loop]. cbn [fmap list_fmap foldr length] in *.
  assert (0 <= foldr Z.add 0 (region_len <$> l)) as Hsum.
  { clear -Hl. induction Hl as [|x l Hx _ IH]; [done|]. cbn [fmap list_fmap foldr]. lia. }
  change (list_fmap _ _ region_len l) with (region_len <$> l) in Hs.
  assert (max_regions budget <=? sr_regions_scanned r = false) as -> by lia.
  assert (max_total_bytes budget -sat sr_bytes_scanned r =? 0 = false) as -> by (unfold sat_sub; lia). cbn [orb].
  replace (Z.min _ _) with (region_len y) by (unfold sat_sub; lia).
  apply elem_of_cons in Hin as [<-|Hin].
  - rewrite Hr. destruct data as [|x data]; [done|]. rewrite Hf. apply scan_loop_keeps. cbn [sr_matches].
    destruct (add_matches_ids found (sr_matches r)) as (_ & H & _). by apply H.
  - destruct (read pid (mr_start y) (region_len y)) as [[|x dy]|e] eqn:Ey; apply IH; try done;
      cbn [sr_regions_scanned sr_bytes_scanned]; try lia; apply Hread in Ey; lia.
Qed.
End Scan.

(** C34. One memory scan stays within its budget and accounts for what it left out:
    for every process map and whatever the reads return up to what was asked, every
    candidate region (readable, executable, not backed by a file), taken in the
    order of suspicion, is scanned, counted unreadable or counted skipped; no more
    regions and bytes are scanned than the budget allows; no rule is reported twice.
    When the budget covers the candidates, every finding of the engine in a region
    that can be read is in the report. *)
Theorem memory_scan_contract read scan_bytes regions pid budget rs :
  regions pid = Ok rs -> read_bounded read pid -> 0 <= max_region_bytes budget -> 0 <= max_total_bytes budget ->
  exists r, scan_memory read scan_bytes regions pid budget = Ok r
  /\ Sorted key_leP (scan_candidates rs)
  /\ scan_candidates rs ≡ₚ filter (fun r => negb (region_is_empty r) && is_candidate r = true) rs
  /\ report_ok budget (Z.of_nat (length (scan_candidates rs))) r
  /\ (Z.of_nat (length (scan_candidates rs)) <= max_regions budget ->
      foldr Z.add 0 (region_len <$> scan_candidates rs) <= max_total_bytes budget ->
      Forall (fun x => region_len x <= max_region_bytes budget) (scan_candidates rs) ->
      forall region data found m, region ∈ scan_candidates rs -> read pid (mr_start region) (region_len region) = Ok data -> data <> [] ->
        scan_bytes data = Ok found -> m ∈ found -> ym_identifier m ∈ identifiers (sr_matches r)).
Proof.
  intros Hrs Hread Hb Ht. unfold scan_memory. rewrite Hrs. eexists. split; [done|].
  split; [apply scan_candidates_sorted|]. split; [apply scan_candidates_perm|]. split.
  - rewrite <- (Z.add_0_l (Z.of_nat _)). apply scan_loop_ok; [done|done|done|].
    unfold report_ok, report_default. cbn. split_and!; try lia. constructor.
  - intros Hn Hsum Hl region data found m Hin Hr Hne Hf Hm. eapply scan_loop_complete; try done; cbn; try lia.
    apply Forall_forall. intros x Hx. split; [|by apply (proj1 (Forall_forall _ _) Hl)].
    rewrite scan_candidates_perm in Hx. apply list_elem_of_filter in Hx as [[Hx _]%andb_true_iff _].
    unfold region_is_empty, region_len, sat_sub in *. lia.
Qed.
Definition demo_region (start : Z) (w : bool) (k : RegionKind) : MemoryRegion := mkMemoryRegion start (start + 4) (mkRegionPerms true w true) k.
Lemma memory_scan_contract_witness :
  exists r, scan_memory (fun _ s l => if s =? 64 then Err tt else Ok (replicate (Z.to_nat l) s))
              (fun d => Ok (if bool_decide (16 ∈ d) then [mkYaraMatch "shell" High "T1055"] else []))
              (fun _ => Ok [demo_region 16 false Anonymous; demo_region 64 true Memfd; demo_region 32 false FileBacked])
              7 (mkMemoryBudget 4 8 100) = Ok r
  /\ report_ok (mkMemoryBudget 4 8 100) 2 r /\ identifiers (sr_matches r) = ["shell"%string].
Proof.
  destruct (memory_scan_contract (fun _ s l => if s =? 64 then Err tt else Ok (replicate (Z.to_nat l) s))
              (fun d => Ok (if bool_decide (16 ∈ d) then [mkYaraMatch "shell" High "T1055"] else []))
              (fun _ => Ok [demo_region 16 false Anonymous; demo_region 64 true Memfd; demo_region 32 false FileBacked])
              7 (mkMemoryBudget 4 8 100) _ eq_refl) as (r & Hr & _ & _ & Hok & _).
  - intros start len data. destruct (start =? 64); [done|]. intros [= <-]. rewrite length_replicate. lia.
  - simpl. lia.
  - simpl. lia.
  - exists r. split; [exact Hr|]. split; [exact Hok|]. vm_compute in Hr. injection Hr as <-. reflexivity.
Defined.

(** ** The gate *)

(** A request: the process, the event time, and whether the channel had room. *)
Record MemRequest := mkMemRequest { rq_pid : Z; rq_generation : option Z; rq_now : Z; rq_sent : bool }.
Definition rq_key (r : MemRequest) : ScanKey := (rq_pid r, rq_generation r).
(** The requests admitted, with their times, and the queue afterwards. *)
Fixpoint gate_run (q : ScanQueue) (rs : list MemRequest) : list (ScanKey * Z) * ScanQueue :=
  match rs with
  | [] => ([], q)
  | r :: rs =>
      let '(admitted, q) := enqueue q (rq_pid r) (rq_generation r) (rq_now r) (rq_sent r) in
      let '(h, q) := gate_run q rs in
      (if admitted then (rq_key r, rq_now r) :: h else h, q)
  end.

Lemma prune_split now l : exists j, prune_recent now l = drop j l /\ (forall t, t ∈ take j l -> MINUTE_NS <= now -sat t).
Proof.
  induction l as [|t l IH]; [exists 0%nat; split; [done|]; by intros ? ?%not_elem_of_nil|]. cbn [prune_recent].
  destruct (Z.leb_spec MINUTE_NS (now -sat t)).
  - destruct IH as (j & -> & Hj). exists (S j). split; [done|]. cbn [take]. intros x [->|Hx]%elem_of_cons; auto.
  - exists 0%nat. split; [done|]. by intros ? ?%not_elem_of_nil.
Qed.

(** *** The most recent admission of every key, without a capacity *)

Definition latest (h : list (ScanKey * Z)) : list (ScanKey * Z) := foldl (fun L e => lru_touch e.1 e.2 L) [] h.

Lemma filter_id_notin k (l : list (ScanKey * Z)) : k ∉ l.*1 -> filter (fun e => e.1 <> k) l = l.
Proof. intros Hk. apply filter_all. intros e He <-. by apply Hk, list_elem_of_fmap_2. Qed.

Lemma filter_keys_ne k (l : list (ScanKey * Z)) : k ∉ (filter (fun e => e.1 <> k) l).*1.
Proof. intros (e & -> & He)%list_elem_of_fmap. by apply list_elem_of_filter in He as [? _]. Qed.

Lemma filter_keys_mono k k' (l : list (ScanKey * Z)) : k ∉ l.*1 -> k ∉ (filter (fun e => e.1 <> k') l).*1.
Proof. intros Hk (e & -> & He)%list_elem_of_fmap. apply list_elem_of_filter in He as [_ He]. by apply Hk, list_elem_of_fmap_2. Qed.

Lemma latest_position h1 k t h2 :
  k ∉ h2.*1 ->
  exists X Y, latest (h1 ++ (k, t) :: h2) = X ++ (k, t) :: Y /\ k ∉ X.*1 /\ (length Y <= length h2)%nat.
Proof.
  unfold latest. rewrite foldl_app. cbn [foldl fst snd]. set (T0 := foldl _ [] h1). unfold lru_touch at 2.
  assert (exists X Y : list (ScanKey * Z), (filter (fun e => e.1 <> k) T0 ++ [(k, t)])%list = X ++ (k, t) :: Y /\ k ∉ X.*1 /\ (length Y <= 0)%nat) as H0.
  { exists (filter (fun e => e.1 <> k) T0), []. split_and!; [done|apply filter_keys_ne|simpl; lia]. }
  clearbody T0. revert H0. generalize (filter (fun e : ScanKey * Z => e.1 <> k) T0 ++ [(k, t)]). intros T H0 Hk.
  rewrite <- (Nat.add_0_l (length h2)). revert T H0. generalize 0%nat. induction h2 as [|[k' t'] h2 IH]; intros n T (X & Y & -> & HX & HY).
  - exists X, Y. split_and!; [done|done|simpl; lia].
  - cbn [fmap list_fmap fst] in Hk. apply not_elem_of_cons in Hk as [Hne Hk]. cbn [foldl fst snd length].
    rewrite <- Nat.add_succ_comm. apply (IH Hk).
    exists (filter (fun e => e.1 <> k') X), (filter (fun e => e.1 <> k') Y ++ [(k', t')]). split_and!.
    + unfold lru_touch. rewrite filter_app, filter_cons_True by done. by rewrite <- app_assoc.
    + by apply filter_keys_mono.
    + rewrite length_app. cbn [length]. pose proof (length_filter (fun e : ScanKey * Z => e.1 <> k') Y). lia.
Qed.

Lemma lru_find_at k t (X Y : list (ScanKey * Z)) : k ∉ X.*1 -> lru_find k (X ++ (k, t) :: Y) = Some t.
Proof.
  intros HX. unfold lru_find. rewrite filter_app, filter_none; [by rewrite filter_cons_True|].
  intros e He <-. by apply HX, list_elem_of_fmap_2.
Qed.

(** The cooldown table holds a suffix of it, of 3584 entries or all. *)
Definition table_suffix (L : list (ScanKey * Z)) (T : list (ScanKey * Z)) : Prop :=
  exists m, L = drop m T /\ (m = 0%nat \/ (3584 <= length L)%nat).

Lemma filter_ne_drop k m (T : list (ScanKey * Z)) :
  filter (fun e => e.1 <> k) (drop m T) = drop (length (filter (fun e => e.1 <> k) (take m T))) (filter (fun e => e.1 <> k) T).
Proof. rewrite <- (take_drop m T) at 3. by rewrite filter_app, drop_app_length. Qed.

Lemma filter_ne_nodup k (L : list (ScanKey * Z)) : NoDup L.*1 -> (length L <= S (length (filter (fun e => e.1 <> k) L)))%nat.
Proof.
  induction L as [|[k' t] L IH]; intros Hnd; [simpl; lia|]. cbn [fmap list_fmap fst] in Hnd. apply NoDup_cons in Hnd as [Hk Hnd].
  destruct (decide (k' = k)) as [->|].
  - rewrite filter_cons_False by (intros H; by apply H). rewrite filter_id_notin by done. done.
  - rewrite filter_cons_True by done. cbn [length]. specialize (IH Hnd). lia.
Qed.

Lemma table_insert L T k t :
  NoDup L.*1 -> table_suffix L T -> table_suffix (lru_insert COOLDOWN_ENTRIES k t L) (lru_touch k t T).
Proof.
  intros Hnd (m & -> & Hm). pose proof (filter_ne_nodup k _ Hnd) as Hlen. unfold lru_insert, lru_evict.
  set (m' := length (filter (fun e : ScanKey * Z => e.1 <> k) (take m T))).
  assert (lru_touch k t (drop m T) = drop m' (lru_touch k t T)) as E.
  { unfold lru_touch. rewrite filter_ne_drop. fold m'. rewrite drop_app_le; [done|].
    unfold m'. rewrite <- (take_drop m T) at 2. rewrite filter_app, length_app. lia. }
  assert (length (drop m T) <= length (lru_touch k t (drop m T)))%nat as Hge.
  { unfold lru_touch. rewrite length_app. cbn [length]. lia. }
  destruct (COOLDOWN_ENTRIES <? Z.of_nat (length (lru_touch k t (drop m T)))) eqn:Ec.
  - exists (m' + 512)%nat. change (Z.to_nat (Z.max (COOLDOWN_ENTRIES / 8) 1)) with 512%nat. split; [by rewrite E, drop_drop|].
    right. rewrite length_drop. unfold COOLDOWN_ENTRIES in Ec. lia.
  - exists m'. split; [done|]. destruct Hm as [->|Hm]; [by left|]. right. lia.
Qed.

(** *** The promises *)

Definition rate_kept (ts : list Z) : Prop := forall i a b, ts !! i = Some a -> ts !! (i + 6)%nat = Some b -> MINUTE_NS <= b - a.
Definition cooldown_kept (h : list (ScanKey * Z)) : Prop :=
  forall i j k a b, (i < j)%nat -> h !! i = Some (k, a) -> h !! j = Some (k, b) -> COOLDOWN_NS <= b - a.

Lemma rate_iterated ts m i a b :
  rate_kept ts -> ts !! i = Some a -> ts !! (i + 6 * m)%nat = Some b -> Z.of_nat m * MINUTE_NS <= b - a.
Proof.
  intros Hr. revert b. induction m as [|m IH]; intros b Ha Hb.
  - rewrite Nat.mul_0_r, Nat.add_0_r in Hb. assert (a = b) as -> by congruence. lia.
  - destruct (lookup_lt_is_Some_2 ts (i + 6 * m)) as [c Hc].
    { apply lookup_lt_Some in Hb. lia. }
    specialize (IH c Ha Hc). replace (i + 6 * S m)%nat with (i + 6 * m + 6)%nat in Hb by lia. pose proof (Hr _ _ _ Hc Hb). lia.
Qed.

(** The gate [now] after the admissions [h]. *)
Record gate_inv (h : list (ScanKey * Z)) (now : Z) (q : ScanQueue) : Prop := {
  gi_sorted : StronglySorted Z.le h.*2;
  gi_times : Forall (fun t => 0 <= t <= now) h.*2;
  gi_recent : exists n, recent (sq_gate q) = drop n h.*2 /\ (forall t, t ∈ take n h.*2 -> MINUTE_NS <= now - t);
  gi_table : exists L, bm_abs (last_scan (sq_gate q)) L /\ table_suffix L (latest h);
  gi_cap : cap (last_scan (sq_gate q)) = COOLDOWN_ENTRIES;
  gi_tick : tick (last_scan (sq_gate q)) = Z.of_nat (length h);
  gi_rate : rate_kept h.*2;
  gi_cooldown : cooldown_kept h }.

Lemma last_occurrence k (h : list (ScanKey * Z)) : k ∈ h.*1 -> exists h1 t h2, h = h1 ++ (k, t) :: h2 /\ k ∉ h2.*1.
Proof.
  induction h as [|[k' t] h IH]; [by intros ?%not_elem_of_nil|]. cbn [fmap list_fmap fst]. intros Hk.
  destruct (decide (k ∈ h.*1)) as [Hin|Hout].
  - destruct (IH Hin) as (h1 & t' & h2 & -> & H2). exists ((k', t) :: h1), t', h2. done.
  - apply elem_of_cons in Hk as [->|?]; [|done]. by exists [], t, h.
Qed.

Lemma sorted_lookup (ts : list Z) i j a b : StronglySorted Z.le ts -> (i <= j)%nat -> ts !! i = Some a -> ts !! j = Some b -> a <= b.
Proof.
  intros Hs. revert i j. induction Hs as [|x ts Hs IH Hx]; intros i j Hij Ha Hb; [done|].
  destruct i as [|i], j as [|j]; simplify_eq/=; [done| |lia|eapply (IH i j); [lia|done|done]].
  apply (proj1 (Forall_lookup _ _) Hx) in Hb. done.
Qed.

Lemma snoc_lookup {A} (l : list A) x i y : (l ++ [x]) !! i = Some y -> l !! i = Some y \/ (i = length l /\ y = x).
Proof.
  intros H. destruct (decide (i < length l)%nat).
  - left. by rewrite lookup_app_l in H.
  - right. rewrite lookup_app_r in H by lia. apply list_lookup_singleton_Some in H as [? <-]. split; [lia|done].
Qed.

(** A process whose last admission is not cooling was last admitted five minutes ago. *)
Lemma cooldown_step h now now' q k :
  gate_inv h now q -> now <= now' ->
  match bm_peek k (last_scan (sq_gate q)) with Some last => now' -sat last <? COOLDOWN_NS | None => false end = false ->
  forall i a, h !! i = Some (k, a) -> COOLDOWN_NS <= now' - a.
Proof.
  intros [Hs Ht _ (L & HL & m & -> & Hm) _ _ Hr _] Hnow Hcool i a Hi.
  assert (k ∈ h.*1) as Hk by (apply list_elem_of_fmap; exists (k, a); split; [done|by eapply list_elem_of_lookup_2]).
  destruct (last_occurrence k h Hk) as (h1 & t & h2 & -> & Hk2). rewrite (bm_abs_peek _ _ _ HL) in Hcool.
  set (h := h1 ++ (k, t) :: h2) in *.
  assert (h.*2 !! length h1 = Some t) as Hat by (unfold h; rewrite list_lookup_fmap, lookup_app_r, Nat.sub_diag by lia; done).
  assert (a <= t) as Hat2.
  { assert (i <= length h1)%nat as Hil.
    { destruct (Nat.le_gt_cases i (length h1)) as [|Hgt]; [done|]. exfalso. apply Hk2. unfold h in Hi.
      rewrite lookup_app_r in Hi by lia. destruct (i - length h1)%nat as [|p] eqn:Ep; [lia|]. cbn in Hi.
      apply list_elem_of_fmap. exists (k, a). split; [done|]. by eapply list_elem_of_lookup_2. }
    eapply (sorted_lookup h.*2 i (length h1)); [done|done| |done]. by rewrite list_lookup_fmap, Hi. }
  assert (0 <= t <= now) as Htn by (by apply (proj1 (Forall_lookup _ _) Ht) in Hat).
  destruct (latest_position h1 k t h2 Hk2) as (X & Y & ET & HX & HY). fold h in ET. rewrite ET in *.
  destruct (decide (m <= length X)%nat) as [Hmx|Hmx].
  - rewrite drop_app_le in Hcool by done. rewrite lru_find_at in Hcool.
    + apply Z.ltb_ge in Hcool. unfold sat_sub in Hcool. unfold COOLDOWN_NS in *. lia.
    + intros (e & -> & He)%list_elem_of_fmap. apply subseteq_drop in He. by apply HX, list_elem_of_fmap_2.
  - destruct Hm as [->|Hm]; [lia|]. rewrite drop_app_ge, length_drop in Hm by lia. cbn [length] in Hm.
    destruct (lookup_lt_is_Some_2 h.*2 (length h1 + 6 * 5)) as [b Hb].
    { unfold h. rewrite length_fmap, length_app. cbn [length]. lia. }
    pose proof (rate_iterated _ 5 _ _ _ Hr Hat Hb) as H5. apply (proj1 (Forall_lookup _ _) Ht) in Hb. unfold COOLDOWN_NS, MINUTE_NS in *. lia.
Qed.

Definition sheds (q : ScanQueue) : Z := sq_shed_queue_full q + sq_shed_cooldown q + sq_shed_rate q.

(** Time passes, the front of the window may be dropped: nothing else changes. *)
Lemma gate_later h now now' q q' :
  gate_inv h now q -> now <= now' -> last_scan (sq_gate q') = last_scan (sq_gate q) ->
  recent (sq_gate q') = recent (sq_gate q) \/ recent (sq_gate q') = prune_recent now' (recent (sq_gate q)) ->
  gate_inv h now' q'.
Proof.
  intros [Hs Ht (n & En & Hn) Htab Hcap Htick Hr Hc] Hnow El Er. split; rewrite ?El; try done.
  - eapply Forall_impl; [exact Ht|]. simpl. lia.
  - destruct Er as [->| ->]; [exists n; split; [done|]; intros t Hin; specialize (Hn t Hin); lia|].
    destruct (prune_split now' (recent (sq_gate q))) as (j & -> & Hj). rewrite En in *. exists (n + j)%nat. split; [by rewrite drop_drop|].
    intros t. rewrite <- take_take_drop. intros [Hin|Hin]%elem_of_app; [specialize (Hn t Hin); lia|].
    specialize (Hj t Hin). unfold sat_sub, MINUTE_NS in *. lia.
Qed.

Lemma gate_admit h now q key :
  gate_inv h now q -> 0 <= now -> Z.of_nat (length h) < U64_MAX ->
  Z.of_nat (length (recent (sq_gate q))) < MAX_SCANS_PER_MINUTE ->
  (forall i a, h !! i = Some (key, a) -> COOLDOWN_NS <= now - a) ->
  gate_inv (h ++ [(key, now)]) now
    (mkScanQueue (mkGate (bm_insert key now (last_scan (sq_gate q))) (recent (sq_gate q) ++ [now]))
       (sq_shed_queue_full q) (sq_shed_cooldown q) (sq_shed_rate q)).
Proof.
  intros [Hs Ht (n & En & Hn) (L & HL & Htab) Hcap Htick Hr Hc] H0 Hlen Hroom Hcool.
  rewrite En, length_drop, length_fmap in Hroom. unfold MAX_SCANS_PER_MINUTE in Hroom.
  assert (forall t, t ∈ h.*2 -> t <= now) as Hle by (intros t Hin; apply (proj1 (Forall_forall _ _) Ht) in Hin; lia).
  split; rewrite ?fmap_app; cbn [fmap list_fmap snd sq_gate last_scan recent].
  - apply StronglySorted_app. split; [|split; [done|repeat constructor]]. intros x y Hx ->%list_elem_of_singleton. by apply Hle.
  - apply Forall_app. split; [done|]. repeat constructor; lia.
  - exists (Nat.min n (length h)). split.
    + rewrite En, drop_app_le by (rewrite length_fmap; lia). f_equal. destruct (Nat.min_spec n (length h)) as [[_ ->]|[Hge ->]]; [done|].
      by rewrite !drop_ge by (rewrite length_fmap; lia).
    + intros t. rewrite take_app_le by (rewrite length_fmap; lia). intros Hin. apply Hn.
      rewrite <- (take_ge h.*2 (length h)) by (by rewrite length_fmap). by rewrite take_take.
  - exists (lru_insert (cap (last_scan (sq_gate q))) key now L). split; [apply bm_abs_insert; [done|lia]|].
    rewrite Hcap. unfold latest. rewrite foldl_app. cbn [foldl fst snd]. fold (latest h). apply table_insert; [|done].
    destruct HL as (l & Hl & -> & _). rewrite view_keys. apply Hl.
  - by rewrite bm_insert_cap.
  - rewrite bm_insert_tick, wrap64_small, Htick, length_app; cbn [length]; lia.
  - intros i a b Ha Hb. apply snoc_lookup in Hb as [Hb|[Hb ->]].
    + apply snoc_lookup in Ha as [Ha|[Ha _]]; [by apply (Hr i)|]. apply lookup_lt_Some in Hb. lia.
    + apply snoc_lookup in Ha as [Ha|[Ha _]]; [|lia]. apply Hn. rewrite length_fmap in Hb.
      apply (list_elem_of_lookup_2 _ i). rewrite lookup_take_lt by lia. exact Ha.
  - intros i j k a b Hij Ha Hb. apply snoc_lookup in Hb as [Hb|[Hb [= -> ->]]].
    + apply snoc_lookup in Ha as [Ha|[Ha _]]; [by apply (Hc i j k)|]. apply lookup_lt_Some in Hb. lia.
    + apply snoc_lookup in Ha as [Ha|[Ha _]]; [|lia]. by apply (Hcool i).
Qed.

Lemma enqueue_step h now q r :
  gate_inv h now q -> 0 <= rq_now r -> now <= rq_now r -> Z.of_nat (length h) < U64_MAX ->
  let '(admitted, q') := enqueue q (rq_pid r) (rq_generation r) (rq_now r) (rq_sent r) in
  gate_inv (if admitted then h ++ [(rq_key r, rq_now r)] else h) (rq_now r) q'
  /\ sheds q' + (if admitted then 1 else 0) = sheds q + 1.
Proof.
  intros Hg H0 Hnow Hlen. unfold enqueue. cbv zeta. fold (rq_key r).
  match goal with |- context [if ?c then (false, mkScanQueue (sq_gate q) _ _ _) else _] => destruct c eqn:Ec end.
  { cbv beta iota zeta. split; [|unfold sheds; simpl; lia]. eapply gate_later; [done|done|done|]. by left. }
  cbv beta iota zeta. cbn [last_scan recent].
  pose proof (cooldown_step h now (rq_now r) q (rq_key r) Hg Hnow Ec) as Hcool.
  assert (forall a b c, gate_inv h (rq_now r) (mkScanQueue (mkGate (last_scan (sq_gate q)) (prune_recent (rq_now r) (recent (sq_gate q)))) a b c)) as Hp.
  { intros a b c. eapply gate_later; [exact Hg|done|done|]. by right. }
  destruct (Z.leb_spec MAX_SCANS_PER_MINUTE (Z.of_nat (length (prune_recent (rq_now r) (recent (sq_gate q)))))).
  { split; [apply Hp|unfold sheds; simpl; lia]. }
  destruct (rq_sent r); cbn [negb]; [|split; [apply Hp|unfold sheds; simpl; lia]].
  split; [|unfold sheds; simpl; lia].
  exact (gate_admit h (rq_now r) _ (rq_key r) (Hp (sq_shed_queue_full q) (sq_shed_cooldown q) (sq_shed_rate q)) H0 Hlen H Hcool).
Qed.

Lemma gate_run_inv h now q rs :
  gate_inv h now q -> Forall (fun r => 0 <= rq_now r) rs -> Sorted Z.le (now :: (rq_now <$> rs)) ->
  Z.of_nat (length h + length rs) <= U64_MAX ->
  exists now', gate_inv (h ++ (gate_run q rs).1) now' (gate_run q rs).2
  /\ sheds (gate_run q rs).2 + Z.of_nat (length (gate_run q rs).1) = sheds q + Z.of_nat (length rs).
Proof.
  revert h now q. induction rs as [|r rs IH]; intros h now q Hg H0 Hs Hlen.
  - exists now. cbn [gate_run fst snd length]. rewrite app_nil_r. split; [done|lia].
  - apply Forall_cons in H0 as [Hr H0]. apply Sorted_inv in Hs as [Hs Hd%HdRel_inv]. cbn [length] in Hlen.
    pose proof (enqueue_step h now q r Hg Hr Hd ltac:(lia)) as He. cbn [gate_run].
    destruct (enqueue q (rq_pid r) (rq_generation r) (rq_now r) (rq_sent r)) as [b q1]. destruct He as [Hg1 Hc1].
    destruct (IH _ _ _ Hg1 H0 Hs) as (now' & Hg2 & Hc2).
    { destruct b; rewrite ?length_app; cbn [length]; lia. }
    exists now'. destruct (gate_run q1 rs) as [adm q2]. cbn [fst snd] in *. destruct b; cbn [length]; (split; [|lia]); [|done].
    by rewrite <- app_assoc in Hg2.
Qed.

(** C33. How often memory is scanned: for any sequence of requests in event order,
    whatever the processes and however often the channel is full, any seven
    admissions span a minute or more, two admissions of one process are five
    minutes apart (the table of 4096 entries never forgets a process early,
    because the rate bounds what can come in between), and every request is either
    admitted or counted under one of the three reasons. *)
Theorem scan_gate_exact b rs :
  bm_new COOLDOWN_ENTRIES = Some b -> Forall (fun r => 0 <= rq_now r) rs -> Sorted Z.le (rq_now <$> rs) ->
  Z.of_nat (length rs) <= U64_MAX ->
  let '(admitted, q) := gate_run (scan_queue_start b) rs in
  rate_kept admitted.*2 /\ cooldown_kept admitted
  /\ sheds q + Z.of_nat (length admitted) = Z.of_nat (length rs).
Proof.
  intros Hb H0 Hs Hlen. apply bm_abs_new in Hb as (Hcap & Htick & Habs).
  assert (gate_inv [] 0 (scan_queue_start b)) as Hg0.
  { split; try done.
    - exact (SSorted_nil _).
    - exists 0%nat. split; [done|]. by intros ? ?%not_elem_of_nil.
    - exists []. split; [done|]. exists 0%nat. split; [done|by left]. }
  destruct (gate_run_inv [] 0 (scan_queue_start b) rs Hg0 H0) as (now & Hg & Hc); [|done|].
  - constructor; [done|]. destruct rs as [|r rs]; constructor. by apply Forall_cons in H0 as [? _].
  - destruct (gate_run _ rs) as [adm q]. cbn [fst snd app] in *. split_and!; [apply Hg|apply Hg|]. unfold sheds at 2 in Hc. simpl in Hc. lia.
Qed.
Lemma scan_gate_exact_witness :
  let '(admitted, q) := gate_run (scan_queue_start (mkBounded ∅ COOLDOWN_ENTRIES 0 0))
        [mkMemRequest 7 None 1 true; mkMemRequest 7 None 2 true; mkMemRequest 8 None 3 false] in
  rate_kept admitted.*2 /\ cooldown_kept admitted /\ sheds q + Z.of_nat (length admitted) = 3.
Proof.
  apply (scan_gate_exact (mkBounded ∅ COOLDOWN_ENTRIES 0 0)
    [mkMemRequest 7 None 1 true; mkMemRequest 7 None 2 true; mkMemRequest 8 None 3 false]);
    [reflexivity|repeat constructor; simpl; lia|repeat constructor; simpl; lia|vm_compute; congruence].
Defined.
