(* ===== verification/SelfProtect.v ===== *)
(** * SelfProtect: the agent's watch over itself (crates/tamper/integrity.rs, agent/integrity.rs,
    agent/protected.rs, agent/kill_loudness.rs)

    The hashes of the installed files against the signed manifest, writes to the
    agent's own files seen in the event stream, and the record of a termination
    signal.  SHA-256 and the signature check are arguments. *)
From stdpp Require Import base gmap strings list.
From Stdlib Require Import ZArith Lia Ascii.
From Stdlib Require String.
From S2P Require Import Prelude Order Str Text Scan Schema Fs Utf8 Updater.
#[local] Open Scope string_scope.
#[local] Open Scope Z_scope.

(** ** [tamper/integrity.rs] *)

Definition MAX_VERIFY_BYTES : Z := 256 * 1024 * 1024.

(** [BTreeMap::insert]: the keys stay sorted, an equal key is replaced. *)
Fixpoint bt_insert (k : path) (v : string) (l : list (path * string)) : list (path * string) :=
  match l with
  | [] => [(k, v)]
  | (k', v') :: l' =>
      match cmp k k' with
      | Lt => (k, v) :: l
      | Eq => (k, v) :: l'
      | Gt => (k', v') :: bt_insert k v l'
      end
  end.
Definition Manifest : Type := list (path * string).
Definition manifest_insert (m : Manifest) (p : path) (expected : string) : Manifest := bt_insert p (to_ascii_lowercase expected) m.
Definition from_entries (entries : list (path * string)) : Manifest :=
  foldl (fun m e => manifest_insert m e.1 e.2) [] entries.

Inductive ViolationKind := Modified (expected actual : string) | Missing | Unreadable | Oversized (size : Z).
Record IntegrityViolation := mkIntegrityViolation { iv_path : path; iv_kind : ViolationKind }.

(** What a path names after its symbolic links; a chain of more than forty is an error. *)
Fixpoint follow (fuel : nat) (p : path) (m : gmap path node) : option node :=
  match m !! p with
  | Some (NLink absolute target) =>
      match fuel with O => None | S fuel => follow fuel (if absolute then target else parent p ++ target)%list m end
  | n => n
  end.
Definition MAX_LINKS : nat := 40.
Definition fs_metadata (p : path) : IO io_error node :=
  syscall (fun m => match follow MAX_LINKS p m with Some n => Ok (n, m) | None => Err NotFound end) untouched.
(** [File::open] and the reads up to the bound. *)
Definition fs_read_followed (p : path) : IO io_error bytes :=
  syscall (fun m => match follow MAX_LINKS p m with
                    | Some (NFile b) => Ok (take (Z.to_nat MAX_VERIFY_BYTES) b, m)
                    | None => Err NotFound
                    | Some _ => Err OtherIo
                    end) untouched.

Section Integrity.
Context (sha256 : bytes -> bytes).

Definition hash_bounded (p : path) (s : fsys) : option string * fsys :=
  match fs_read_followed p s with (Ok b, s) => (Some (hex_encode (sha256 b)), s) | (Err _, s) => (None, s) end.

Definition verify_one (p : path) (expected : string) (s : fsys) : option ViolationKind * fsys :=
  match fs_metadata p s with
  | (Err _, s) => (Some Missing, s)
  | (Ok (NFile b), s) =>
      let len := Z.of_nat (length b) in
      if MAX_VERIFY_BYTES <? len then (Some (Oversized len), s)
      else let '(h, s) := hash_bounded p s in
           (match h with
            | Some actual => if String.eqb actual expected then None else Some (Modified expected actual)
            | None => Some Unreadable
            end, s)
  | (Ok _, s) => (Some Unreadable, s)
  end.

(** [Manifest::verify]. *)
Fixpoint manifest_verify (m : Manifest) (s : fsys) : list IntegrityViolation * fsys :=
  match m with
  | [] => ([], s)
  | (p, expected) :: m =>
      let '(k, s) := verify_one p expected s in
      let '(vs, s) := manifest_verify m s in
      (match k with Some k => mkIntegrityViolation p k :: vs | None => vs end, s)
  end.

Definition show_path (p : path) : string := cat (map (fun c => String "/" c) p).
Definition violation_message (v : IntegrityViolation) : string :=
  let p := show_path (iv_path v) in
  match iv_kind v with
  | Modified expected actual =>
      cat ["protected artifact `"; p; "` was modified (expected "; expected; ", found "; actual; ") — possible neutered-build swap"]
  | Missing => cat ["protected artifact `"; p; "` is missing — removed or moved"]
  | Unreadable => cat ["protected artifact `"; p; "` is present but unreadable as a regular file"]
  | Oversized size =>
      cat ["protected artifact `"; p; "` is "; show_u64 size; " bytes, past the "; show_u64 MAX_VERIFY_BYTES;
           "-byte verification bound — treated as tampered"]
  end.

(** ** [agent/integrity.rs] *)

Definition TAMPER_TECHNIQUE : string := "T1601".

Context `{Serde ReleaseManifest}.
Context (ed25519_verify : bytes -> bytes -> bool).

(** One pass: the alerts it emits; none when the signature check panics. *)
Definition check_once (l : Layout) (s : fsys) : option (list (string * string) * fsys) :=
  match current_release_version l (nodes s) with
  | None => Some ([], s)
  | Some release_version =>
      match read_manifest l release_version s with
      | (Err _, s) => Some ([], s)
      | (Ok manifest, s) =>
          match rm_verify_signature ed25519_verify manifest with
          | Panic => None
          | Return (Err _) =>
              Some ([(TAMPER_TECHNIQUE,
                      cat ["release "; show_u64 release_version; "'s persisted manifest failed signature verification — the manifest file itself may have been tampered with"])], s)
          | Return (Ok _) =>
              let active_dir := resolve_active_dir l (nodes s) in
              let '(vs, s) := manifest_verify (from_entries (map (fun e => (join active_dir e.1, e.2)) (rm_entries manifest))) s in
              Some (map (fun v => (TAMPER_TECHNIQUE, violation_message v)) vs, s)
          end
      end
  end.
End Integrity.

(** ** [agent/protected.rs] *)

(** The components of an observed path: a leading [.] counts as one. *)
Definition observed_components (observed : string) : list string :=
  match str_split "/" observed with
  | c :: rest => if String.eqb c "." then "." :: filter (fun c => c <> EmptyString /\ c <> ".") rest
                 else filter (fun c => c <> EmptyString /\ c <> ".") (c :: rest)
  | [] => []
  end.
(** [Path::ends_with] on whole components; an absolute path must be the whole one. *)
Definition matches_protected (protected : path) (observed : string) : bool :=
  negb (str_is_empty observed)
  && if starts_with "/" observed then bool_decide (protected = observed_components observed)
     else bool_decide (observed_components observed `suffix_of` protected).

(** The guard's alert for an event, which then goes on to the sink. *)
Definition guard_on_event (own_pid : Z) (protected : list path) (event : Event) : list (string * string) :=
  match event with
  | Event_FileOpen open =>
      if negb (meta_pid (file_open_meta open) =? own_pid) && has_write_intent (file_open_flags open)
         && existsb (fun p => matches_protected p (file_open_path open)) protected
      then [("T1562", cat ["pid "; show_u64 (meta_pid (file_open_meta open)); " (`"; meta_comm (file_open_meta open);
                           "`) opened protected agent resource "; file_open_path open; " for write"])]
      else []
  | _ => []
  end.

(** ** [agent/kill_loudness.rs] *)

Definition signal_name (signo : Z) : string :=
  if signo =? 15 then "SIGTERM" else if signo =? 1 then "SIGHUP" else if signo =? 3 then "SIGQUIT" else "unknown".
(** The text of [/proc/<pid>/comm], none when it cannot be read. *)
Definition sender_comm (comm : option string) : option string :=
  c ← comm; let t := trim c in if str_is_empty t then None else Some t.
Definition kill_backslash : string := String backslash_char EmptyString.
Definition kill_quote : string := String quote EmptyString.
Definition escape_json_string (s : string) : string :=
  str_replace kill_quote (kill_backslash +:+ kill_quote) (str_replace kill_backslash (kill_backslash +:+ kill_backslash) s).
Definition signal_message (signo sender_pid : Z) (comm : option string) : string :=
  match sender_comm comm with
  | Some comm => cat ["agent received signal "; show_u64 signo; " ("; signal_name signo; ") from pid "; show_u64 sender_pid;
                      " (`"; comm; "`) — recording before exit"]
  | None => cat ["agent received signal "; show_u64 signo; " ("; signal_name signo; ") from pid "; show_u64 sender_pid;
                 " — recording before exit"]
  end.
Definition signal_line (now_ns signo sender_pid : Z) (comm : option string) : string :=
  cat ["{"; kill_quote; "timestamp_ns"; kill_quote; ":"; show_u64 now_ns; ","; kill_quote; "technique"; kill_quote; ":"; kill_quote; "T1562";
       kill_quote; ","; kill_quote; "message"; kill_quote; ":"; kill_quote; escape_json_string (signal_message signo sender_pid comm);
       kill_quote; "}"; String newline EmptyString].
