(* ===== verification/SelfProtectTheorems.v ===== *)
(** * SelfProtectTheorems: what a quiet self-check proves

    The meaning of a pass without alerts, the ways to obtain one without intact
    files, and the record of a termination signal read back. *)
From stdpp Require Import base gmap strings list.
From Stdlib Require Import ZArith Lia Ascii.
From Stdlib Require String.
From S2P Require Import Prelude Order Str Text Scan Schema Fs Utf8 Updater SelfProtect.
#[local] Open Scope string_scope.
#[local] Open Scope Z_scope.
#[local] Opaque MAX_VERIFY_BYTES.

(** ** The manifest as a map *)

Lemma bt_insert_elem k v l x : x ∈ bt_insert k v l -> x = (k, v) \/ x ∈ l.
Proof.
  induction l as [|[k' v'] l IH]; [by intros ->%list_elem_of_singleton; left|]. cbn [bt_insert].
  destruct (cmp k k'); intros [->|Hx]%elem_of_cons; rewrite ?elem_of_cons in *; try (by auto); destruct (IH Hx); auto.
Qed.
Lemma bt_insert_new k v l : (k, v) ∈ bt_insert k v l.
Proof. induction l as [|[k' v'] l IH]; cbn [bt_insert]; [apply elem_of_cons; by left|]. destruct (cmp k k'); apply elem_of_cons; auto. Qed.
Lemma bt_insert_keeps k v l x : x ∈ l -> x.1 <> k -> x ∈ bt_insert k v l.
Proof.
  induction l as [|[k' v'] l IH]; [by intros ?%not_elem_of_nil|]. cbn [bt_insert]. intros [->|Hx]%elem_of_cons Hne.
  - cbn [fst] in Hne. destruct (cmp k k') eqn:E; [apply cmp_eq in E; congruence|..]; rewrite ?elem_of_cons; auto.
  - destruct (cmp k k'); rewrite ?elem_of_cons; auto.
Qed.

Lemma from_entries_elem es :
  NoDup es.*1 -> forall p h, (p, h) ∈ from_entries es <-> exists h0, (p, h0) ∈ es /\ h = to_ascii_lowercase h0.
Proof.
  unfold from_entries. intros Hnd. induction es as [|[p0 h1] es IH] using rev_ind.
  - intros p h. cbn [foldl]. split; [by intros ?%not_elem_of_nil|]. intros (h0 & ?%not_elem_of_nil & _). done.
  - intros p h. rewrite foldl_app. cbn [foldl fst snd]. unfold manifest_insert. rewrite fmap_app in Hnd. apply NoDup_app in Hnd as (Hnd & Hd & _).
    split.
    + intros [[= -> ->]|Hx]%bt_insert_elem; [exists h1; split; [apply elem_of_app; right; apply elem_of_cons; by left|done]|].
      apply (IH Hnd) in Hx as (h0 & Hin & ->). exists h0. split; [apply elem_of_app; by left|done].
    + intros (h0 & [Hin|[= -> ->]%list_elem_of_singleton]%elem_of_app & ->); [|apply bt_insert_new].
      apply bt_insert_keeps; [apply (IH Hnd); eauto|]. cbn [fst]. intros ->. apply (Hd p0); [by apply (list_elem_of_fmap_2 fst _ (p0, h0))|].
      apply elem_of_cons. by left.
Qed.

(** ** One file *)

Section Check.
Context (sha256 : bytes -> bytes).

(** The path leads to a regular file of bounded size with the recorded hash. *)
Definition intact (m : gmap path node) (p : path) (expected : string) : Prop :=
  exists b, follow MAX_LINKS p m = Some (NFile b) /\ Z.of_nat (length b) <= MAX_VERIFY_BYTES /\ hex_encode (sha256 b) = expected.

Lemma fs_metadata_nodes p s : nodes (fs_metadata p s).2 = nodes s.
Proof.
  unfold fs_metadata. destruct (syscall _ _ s) as [r s1] eqn:E. cbn [snd].
  apply syscall_inv in E as [(n & _ & Hs)|[(a & _ & H)|(e & _ & _ & Hs)]]; [exact Hs| |exact Hs].
  destruct (follow _ _ _); [|discriminate H]. by injection H.
Qed.
Lemma fs_read_followed_nodes p s : nodes (fs_read_followed p s).2 = nodes s.
Proof.
  unfold fs_read_followed. generalize (Z.to_nat MAX_VERIFY_BYTES) as bound. intros bound.
  destruct (syscall _ _ s) as [r s1] eqn:E. cbn [snd].
  apply syscall_inv in E as [(n & _ & Hs)|[(a & _ & H)|(e & _ & _ & Hs)]]; [exact Hs| |exact Hs].
  destruct (follow _ _ _) as [[]|]; try discriminate H. by injection H.
Qed.
Lemma fs_read_followed_ok p s d s' b :
  follow MAX_LINKS p (nodes s) = Some (NFile b) -> Z.of_nat (length b) <= MAX_VERIFY_BYTES ->
  fs_read_followed p s = (Ok d, s') -> d = b.
Proof.
  intros Ef Hb. assert (length b <= Z.to_nat MAX_VERIFY_BYTES)%nat as Hl by lia. revert Hl.
  unfold fs_read_followed. generalize (Z.to_nat MAX_VERIFY_BYTES) as bound. intros bound Hl E.
  apply syscall_inv in E as [(n & H & _)|[(a & [= <-] & H)|(e & H & _)]]; [discriminate H| |discriminate H].
  rewrite Ef in H. injection H as <- _. by apply take_ge.
Qed.
Lemma fs_read_followed_plain p s b :
  faults s = [] -> follow MAX_LINKS p (nodes s) = Some (NFile b) -> Z.of_nat (length b) <= MAX_VERIFY_BYTES ->
  fs_read_followed p s = (Ok b, s).
Proof.
  intros Hf Ef Hb. assert (length b <= Z.to_nat MAX_VERIFY_BYTES)%nat as Hl by lia. revert Hl.
  unfold fs_read_followed. generalize (Z.to_nat MAX_VERIFY_BYTES) as bound. intros bound Hl.
  destruct s as [m f]. cbn [nodes faults] in *. subst f. unfold syscall, next_fault. cbn [faults nodes]. rewrite Ef. cbn [nodes faults].
  by rewrite take_ge.
Qed.

Lemma verify_one_nodes p h s : nodes (verify_one sha256 p h s).2 = nodes s.
Proof.
  unfold verify_one, hash_bounded. rewrite <- (fs_metadata_nodes p s). destruct (fs_metadata p s) as [[[|b|? ?]|e] s1]; try reflexivity.
  cbn [snd]. destruct (MAX_VERIFY_BYTES <? Z.of_nat (length b)); [reflexivity|].
  rewrite <- (fs_read_followed_nodes p s1). destruct (fs_read_followed p s1) as [[d|e] s2]; reflexivity.
Qed.

Lemma verify_one_clean p h s s' : verify_one sha256 p h s = (None, s') -> intact (nodes s) p h.
Proof.
  unfold verify_one, hash_bounded. destruct (fs_metadata p s) as [r s1] eqn:E1.
  apply syscall_inv in E1 as [(n & -> & _)|[(a & -> & H)|(e & -> & H & _)]]; [intros Hv; discriminate Hv| |intros Hv; discriminate Hv].
  destruct (follow MAX_LINKS p (nodes s)) as [nd|] eqn:Ef; [|discriminate H]. injection H as <- Hn.
  destruct nd as [|b|? ?]; [intros Hv; discriminate Hv| |intros Hv; discriminate Hv].
  destruct (Z.ltb_spec MAX_VERIFY_BYTES (Z.of_nat (length b))) as [|Hb]; [intros Hv; discriminate Hv|].
  destruct (fs_read_followed p s1) as [[d|e] s2] eqn:E2; [|intros Hv; discriminate Hv].
  apply (fs_read_followed_ok p s1 d s2 b) in E2 as ->; [|by rewrite <- Hn|done].
  destruct (String.eqb_spec (hex_encode (sha256 b)) h) as [Eh|]; [|intros Hv; discriminate Hv]. intros _. by exists b.
Qed.

Lemma verify_one_intact p h s : faults s = [] -> intact (nodes s) p h -> verify_one sha256 p h s = (None, s).
Proof.
  intros Hf (b & Ef & Hb & Hh). unfold verify_one, hash_bounded.
  assert (fs_metadata p s = (Ok (NFile b), s)) as ->.
  { destruct s as [m f]. cbn [nodes faults] in *. subst f. unfold fs_metadata, syscall, next_fault. cbn [faults nodes]. by rewrite Ef. }
  destruct (Z.ltb_spec MAX_VERIFY_BYTES (Z.of_nat (length b))); [lia|].
  rewrite (fs_read_followed_plain p s b Hf Ef Hb), Hh, String.eqb_refl. reflexivity.
Qed.

Lemma manifest_verify_clean m s s' :
  manifest_verify sha256 m s = ([], s') -> forall p h, (p, h) ∈ m -> intact (nodes s) p h.
Proof.
  revert s. induction m as [|[p0 h0] m IH]; intros s H p h Hin; [by apply not_elem_of_nil in Hin|]. cbn [manifest_verify] in H.
  destruct (verify_one sha256 p0 h0 s) as [k s1] eqn:E1. destruct (manifest_verify sha256 m s1) as [vs s2] eqn:E2.
  destruct k as [k|]; [done|]. injection H as -> ->. apply elem_of_cons in Hin as [[= -> ->]|Hin]; [by eapply verify_one_clean|].
  pose proof (verify_one_nodes p0 h0 s) as Hn. rewrite E1 in Hn. cbn [snd] in Hn. rewrite <- Hn. by eapply IH.
Qed.

Lemma manifest_verify_intact m s :
  faults s = [] -> (forall p h, (p, h) ∈ m -> intact (nodes s) p h) -> manifest_verify sha256 m s = ([], s).
Proof.
  intros Hf. induction m as [|[p h] m IH]; intros Hm; [done|]. cbn [manifest_verify].
  rewrite verify_one_intact by (done || apply Hm, elem_of_cons; by left). rewrite IH; [done|]. intros. apply Hm, elem_of_cons. by right.
Qed.
End Check.

(** ** The pass *)

Section Pass.
Context (sha256 : bytes -> bytes) `{Serde ReleaseManifest} (ed25519_verify : bytes -> bytes -> bool).

Lemma read_manifest_nodes l v s : nodes (read_manifest l v s).2 = nodes s.
Proof.
  unfold read_manifest, io_bind, u_io, io_map_err. destruct (fs_read _ s) as [r s1] eqn:E. apply fs_read_inv in E as [En _].
  destruct r as [b|e]; [|exact En]. destruct (from_json b); exact En.
Qed.

Lemma read_manifest_faults l v s r s1 : read_manifest l v s = (r, s1) -> faults s = [] -> faults s1 = [].
Proof.
  destruct s as [m f]. cbn [faults]. intros Hr ->. revert Hr.
  unfold read_manifest, io_bind, u_io, io_map_err, fs_read, syscall, next_fault. cbn [faults nodes].
  destruct (m !! _) as [[|b|? ?]|]; try (intros [= _ <-]; reflexivity). destruct (from_json b); intros [= _ <-]; reflexivity.
Qed.

Definition joined (dir : path) (man : ReleaseManifest) : list (path * string) := map (fun e => (join dir e.1, e.2)) (rm_entries man).

Lemma joined_elem dir man p h : (p, h) ∈ joined dir man <-> exists rel, p = join dir rel /\ (rel, h) ∈ rm_entries man.
Proof.
  unfold joined. rewrite list_elem_of_fmap. split.
  - intros ([rel h'] & [= -> ->] & Hin). eauto.
  - intros (rel & -> & Hin). by exists (rel, h).
Qed.

(** What a pass relies on: the manifest's signature, and every file it names. *)
Definition release_intact (l : Layout) (man : ReleaseManifest) (m : gmap path node) : Prop :=
  rm_verify_signature ed25519_verify man = Return (Ok tt) /\
  forall rel h, (rel, h) ∈ rm_entries man -> intact sha256 m (join (resolve_active_dir l m) rel) (to_ascii_lowercase h).

Lemma pass_on_manifest l v man s s1 :
  current_release_version l (nodes s) = Some v -> read_manifest l v s = (Ok man, s1) ->
  NoDup (joined (resolve_active_dir l (nodes s)) man).*1 ->
  (forall s', check_once sha256 ed25519_verify l s = Some ([], s') -> release_intact l man (nodes s)) /\
  (faults s1 = [] -> release_intact l man (nodes s) -> check_once sha256 ed25519_verify l s = Some ([], s1)).
Proof.
  intros Hv Hr Hnd. pose proof (read_manifest_nodes l v s) as Hn. rewrite Hr in Hn. cbn [snd] in Hn.
  unfold check_once, release_intact. rewrite Hv, Hr, Hn. fold (joined (resolve_active_dir l (nodes s)) man).
  pose proof (from_entries_elem _ Hnd) as Hes. set (es := from_entries _) in *. split.
  - intros s' Hc. destruct (rm_verify_signature ed25519_verify man) as [|[[]|e]]; [discriminate Hc| |discriminate Hc]. split; [reflexivity|].
    destruct (manifest_verify sha256 es s1) as [vs s2] eqn:E. destruct vs; [|discriminate Hc].
    intros rel h Hin. rewrite <- Hn. apply (manifest_verify_clean sha256 _ _ _ E), Hes. exists h. split; [|reflexivity].
    apply joined_elem. rewrite Hn. eauto.
  - intros Hf [-> Hi]. rewrite manifest_verify_intact; [reflexivity|exact Hf|]. rewrite Hn.
    intros p h (h0 & (rel & -> & Hin)%joined_elem & ->)%Hes. by apply Hi.
Qed.

(** C40. A pass of the self-check over a promoted release whose manifest can be
    read and whose entries name distinct paths: when it raises no alert, the
    manifest's signature verifies and every file it lists, links followed, is a
    regular file within the size bound with the recorded SHA-256.  Conversely,
    when all of this holds and no system call fails, no alert is raised.  And
    whatever the files hold, a pass is silent while no release is promoted or
    while the manifest cannot be read. *)
Theorem clean_pass_means_intact l s :
  (forall v man s1,
     current_release_version l (nodes s) = Some v -> read_manifest l v s = (Ok man, s1) ->
     NoDup (map (fun e => join (resolve_active_dir l (nodes s)) e.1) (rm_entries man)) ->
     (forall s', check_once sha256 ed25519_verify l s = Some ([], s') -> release_intact l man (nodes s)) /\
     (faults s = [] -> release_intact l man (nodes s) -> check_once sha256 ed25519_verify l s = Some ([], s1))) /\
  (current_release_version l (nodes s) = None -> check_once sha256 ed25519_verify l s = Some ([], s)) /\
  (forall v e s1, current_release_version l (nodes s) = Some v -> read_manifest l v s = (Err e, s1) ->
     check_once sha256 ed25519_verify l s = Some ([], s1)).
Proof.
  split_and!.
  - intros v man s1 Hv Hr Hnd. destruct (pass_on_manifest l v man s s1 Hv Hr) as [Ha Hb].
    { unfold joined. rewrite <- list_fmap_compose. exact Hnd. }
    split; [exact Ha|]. intros Hf. apply Hb. by rewrite (read_manifest_faults _ _ _ _ _ Hr Hf).
  - intros Hv. unfold check_once. by rewrite Hv.
  - intros v e s1 Hv Hr. unfold check_once. by rewrite Hv, Hr.
Qed.
End Pass.

(** A changed file of a readable, correctly signed release is reported, whatever calls fail. *)
Corollary changed_file_reported sha256 `{Serde ReleaseManifest} ed25519_verify l s v man s1 rel h alerts s' :
  current_release_version l (nodes s) = Some v -> read_manifest l v s = (Ok man, s1) ->
  NoDup (joined (resolve_active_dir l (nodes s)) man).*1 ->
  (rel, h) ∈ rm_entries man -> ~ intact sha256 (nodes s) (join (resolve_active_dir l (nodes s)) rel) (to_ascii_lowercase h) ->
  check_once sha256 ed25519_verify l s = Some (alerts, s') -> alerts <> [].
Proof.
  intros Hv Hr Hnd Hin Hbad Hc ->. apply Hbad.
  destruct (pass_on_manifest sha256 ed25519_verify l v man s s1 Hv Hr Hnd) as [Ha _]. by apply (proj2 (Ha s' Hc)).
Qed.

(** ** Witness *)

#[local] Instance sp_manifest_eq_dec : EqDecision ReleaseManifest.
Proof. solve_decision. Defined.
#[local] Instance sp_manifest_countable : Countable ReleaseManifest.
Proof.
  refine (inj_countable' (fun m => (rm_entries m, rm_release_version m, rm_schema_version m, rm_signature m))
            (fun t => mkReleaseManifest t.1.1.1 t.1.1.2 t.1.2 t.2) _).
  by intros [].
Defined.
#[local] Instance sp_manifest_serde : Serde ReleaseManifest.
Proof.
  refine {| to_json m := [Z.pos (encode m)]; from_json b := match b with [Z.pos p] => decode p | _ => None end |}.
  intros a. apply decode_encode.
Defined.

Definition sp_manifest : ReleaseManifest := mkReleaseManifest [("agent", "0501")] 3 1 "00".
Definition sp_install (agent : bytes) : fsys := mkFs
  {[ ["var"; "versions"; "v3"; "agent"] := NFile agent; ["var"; "versions"; "v3"; "manifest.json"] := NFile (to_json sp_manifest);
     ["var"; "current"] := NLink true ["var"; "versions"; "v3"] ]} [].

Lemma clean_pass_means_intact_witness :
  check_once id (fun _ _ => true) (mkLayout ["var"]) (sp_install [5; 1]) = Some ([], sp_install [5; 1]).
Proof.
  assert (read_manifest (mkLayout ["var"]) 3 (sp_install [5; 1]) = (Ok sp_manifest, sp_install [5; 1])) as Hr by (vm_compute; reflexivity).
  apply (proj1 (clean_pass_means_intact id (fun _ _ => true) (mkLayout ["var"]) (sp_install [5; 1])) 3 sp_manifest _
           ltac:(vm_compute; reflexivity) Hr ltac:(apply NoDup_singleton)); [reflexivity|].
  split; [vm_compute; reflexivity|]. intros rel h [= -> ->]%list_elem_of_singleton.
  exists [5; 1]. split_and!; [vm_compute; reflexivity|vm_compute; discriminate|vm_compute; reflexivity].
Defined.
